(* ===== verification/_CoqProject ===== *)
-Q . S2P
Prelude.v
Errors.v
Wire.v
VarInt.v
Storage.v
Nest.v
Slots.v
Vocab.v
DynValue.v
Segment.v
Quant.v
Fields.v
Payload.v
Keys.v
Index.v
Meta.v
Reduces.v
Collection.v
Declared.v
Table.v
Rebuild.v
Documents.v
Bridge.v
Verbs.v
Typing.v
Graph.v
GraphEdges.v
GraphWrites.v
GraphScans.v
GraphRows.v
GraphReindex.v
GraphAttrs.v
GraphSamples.v
Changelog.v
LogFrames.v
LogTruth.v
LogFaults.v
LogSamples.v
Schema.v
Dynamic.v
DynCodec.v
Paths.v
DynIndex.v
DynIndexFacts.v
DynFields.v
DynPaths.v
DynPlan.v
DynTable.v
DynRows.v
DynTwin.v
DynDocs.v
DynVerbs.v
DynSamples.v
DynFacts.v
SerFormat.v
SerDict.v
SerSamples.v
SerDictFacts.v
SerBody.v
SerBodyFacts.v
SerPart.v
SerPartFacts.v
SerWriter.v
SerRead.v
SerRecover.v
SerSession.v
SerLog.v
SerLogTime.v
SerLogFacts.v
SerLogRead.v
SerLogSession.v
SerLogSamples.v
