(* ===== verification/Prelude.v ===== *)
(** * okm: a verification development

    okm maps typed documents onto an ordered key-value store: a derive turns a
    declaration into the code that lays a row out as bytes, and a collection
    binds that code to an engine.  This library models the runtime (crate
    [okm-core]), the wire protocol ([okm-wire]) and the code the derive emits
    ([okm-derive]) and the run-time collections that need no derive
    ([okm-dynamic]), and the time series beside them ([okm-series]), and proves
    what the parts promise one another.  Paths are
    relative to [src/].

    ** How the parts interact

    An engine is anything that implements [VirtualStorage]: point verbs, ordered
    scans, one atomic batch.  Above it a collection builds the whole write set of
    a verb in a batch, reading through the batch, and commits once.  The write set
    is made of the row's payload under the primary slot, an entry for every access
    method, an update of every reduce, the dynamic segment, and the growth of the
    vocabularies.  A graph is the same construction over edges.  The nested store
    puts an engine behind request frames; the change log records what a commit
    did to the truth half of a table.  A run-time collection plans the same writes
    from an exported schema and values that carry their types.  A time series needs
    no engine: its parts are files that only grow, each with an index and a
    dictionary beside it.

    ** Files

    - [Prelude]: bytes, words, byte order, outcomes (value, error, panic), UTF-8,
      cursor readers; [Errors]: [okm-core/src/error.rs] and every text.
    - [Wire]: [okm-wire/src/lib.rs].  [VarInt]: [model/wrappers/{wire,varint}.rs].
    - [Storage]: [engine/storage.rs]; the contract [ReliableStorage] is what every
      client file assumes of an engine, and the in-memory store and the batch
      adapter are proved to keep it.  [Nest]: [engine/nest.rs].
    - [Slots], [Index]: [model/index.rs] and the access methods of
      [okm-derive/src/document_encode.rs].  [Vocab]: [model/{vocab,obj_vocab}.rs].
    - [DynValue], [Segment]: [model/obj_dynamic.rs] and the dynamic segment.
    - [Quant], [Fields], [Payload], [Keys], [Declared]: the field encoders, payload,
      key and document implementations the derive emits ([okm-derive/src/schema.rs],
      [document_encode.rs], [key_encode.rs]); a declaration is data here, and the
      emitted code is a function of it.
    - [Meta], [Reduces]: [model/{meta,faces,reduce,presets}.rs].
    - [Collection]: every verb and scan of [model/document.rs]; [Table],
      [Rebuild], [Documents], [Verbs] hold its theorems.  [Bridge] is the
      conversion between documents and maps, [Typing] the range of what decoders
      answer.
    - [Graph]: [model/graph.rs]; [GraphEdges], [GraphWrites], [GraphScans],
      [GraphRows], [GraphReindex], [GraphAttrs] hold its theorems, [GraphSamples]
      a declared graph, run.
    - [Changelog]: [changelog.rs] and the capture in [model/document.rs];
      [LogFrames], [LogTruth], [LogFaults] hold its theorems, [LogSamples] a log,
      run.
    - [Schema]: [model/schema.rs], the declaration as data.  The crate
      [okm-dynamic] serves that data without a compiled declaration: [Dynamic] is
      its [lib.rs], [encode.rs] and [decode.rs], [Paths] its [path.rs], [DynIndex]
      its [index.rs], [DynFields] its [plan_fields.rs], [DynPlan] its [reduce.rs]
      and [plan.rs], [DynTable] its [collection.rs].  [DynCodec] and
      [DynIndexFacts] hold the theorems on codecs and access methods; [DynPaths],
      [DynRows], [DynTwin], [DynDocs] and [DynVerbs] lead to those on the verbs;
      [DynSamples] is a collection, run, and [DynFacts] has stamps, listings and
      the presets.
    - The crate [okm-series]: [SerFormat] is its [format.rs], [SerDict] its
      [dict.rs], [SerBody] its [body.rs], [SerPart] its [part.rs].  [SerDictFacts],
      [SerBodyFacts] and [SerPartFacts] say how dictionaries, bodies and blocks read
      back, [SerWriter] has the invariant of a part under its writer, [SerRead] what
      a reader answers, [SerRecover] sealing and crash recovery, [SerSession] whole
      sessions and their samples, run with the library of [SerSamples].
    - [SerLog]: its [lib.rs], the directories of parts, stamping, sealing, retention
      and reading across them; a directory is a map from places (a bucket, a
      partition) to the parts there by number.  [SerLogTime] and [SerLogFacts] have
      the clock, retention and the names of directories, [SerLogRead] reads over
      parts that follow one another, [SerLogSession] whole sessions, [SerLogSamples]
      logs, run.

    ** How state and operations correspond

    A function that takes [&mut self], or [&self] on shared interior state, is a
    step: it takes the state and answers the new state with its result, also when
    it fails.  Errors are the constructors of [Error]; a panic is an outcome of
    its own.  Machine integers are [Z] with their width written out, and the
    [profile] argument says whether overflow panics (debug) or wraps (release).
    A trait is a class ([VirtualStorage], [KeyEncode], [KvIndex], [Document]), the
    derived implementation an instance built from the declaration.  What one
    component relies on in another is a class of laws: [ReliableStorage],
    [PointStorage], [DocumentLaws], [reduce_law].

    ** What the theorems show

    - Codecs: frames, keys, payloads, dynamic values and log segments round trip,
      also when followed by other bytes; keys sort as their fields; a payload is
      read by every later layout; decoders end on every input.
    - Refinement: the store of a collection represents a finite map from keys to
      rows ([Table.table_at]), a graph a finite map from ids to edges
      ([GraphEdges.edges_at]), a vocabulary a list of labels ([Vocab.vocab_at]); every
      verb is the corresponding operation of the map, in one commit, and every
      scan answers exactly what the map says.  Rebuilding a table's faces or a
      graph's restores the representation from the rows alone.
    - Isolation: a hosted sender touches no key outside its prefix; faces,
      vocabularies and tables are disjoint key ranges.
    - The change log holds exactly the accepted batches' truth and replays to it.
    - Errors: each refusal leaves the store as it was; and the places where the
      code does less than its comments promise are theorems too (the findings).
    - The run-time side writes what the typed side writes: payloads, keys, entries,
      accumulators and segments, byte for byte ([DynTwin.exported_collection_twin]);
      its verbs are therefore operations on the same map of rows, beside a map of
      dynamic maps ([DynDocs.dyn_at], [DynVerbs]).
    - Series: a reader of a part answers exactly the records written to it
      ([SerSession.session_reads]), before and after it is sealed, and a crash costs
      the torn blocks only ([SerRecover.adopt_restores]).  A log of one stream is one
      list of records, however it is split ([SerLogSession.log_session_reads]); its
      clock never refuses a record ([SerLogFacts.log_never_backwards]), and retention
      takes the buckets before a time and nothing else ([SerLogFacts.retain_exact]).
      The theorems on parts with a dictionary hold within its limits (240 blocks).

    ** Fuel and bounds

    Loops whose recursion is not structural take fuel that their input bounds, and
    a theorem says it is enough: the length of a byte string for the decoders
    ([DynValue.decode_terminates], [LogFrames.frames_of_total]), the number of
    pages for the remote iterator, the sum of two lengths for the two-pointer
    merge, the pending bytes for the trim of a log, the bytes left for the walks over
    a part's blocks and records.  A frame in memory is shorter than
    [2 ^ 63], the bound of a Rust allocation.

    ** What is not modelled

    Floating point beyond the [Quant] field (PageRank, vector distances); [Ref] and
    [Refs] fields and what they embed; the parsing of attributes and the error
    spans of the derive (the model begins at the parsed declaration); engines,
    transports and bindings to other languages, which are glue around code that is
    not in the repository; subscriptions; the schema sidecar of a log;
    n-grams, streams and vector search, built on top of the runtime; the text of a
    series' [log.meta], the reading of its clock (an argument of the operations that
    ask it), its threads, and every disk fault but a file cut short; host-language
    callables of a run-time collection, which are arguments of the model;
    asynchronous twins of the storage trait.  Collection-level theorems are about
    declarations without categorical fields; the change log's hold on one
    directory that nobody else writes.
*)
From stdpp Require Export base numbers option list sorting gmap.
From Stdlib Require Export ZArith Lia.

Create HintDb okm.
Create Rewrite HintDb okm.
Declare Scope okm_scope.
Delimit Scope okm_scope with okm.
Open Scope Z_scope.

(** ** Bytes and machine words

    A byte is a [Z]; [byte_ok] says it lies in the range of a [u8].  A byte
    string ([Vec<u8>], [&[u8]]) is a list of bytes. *)

Abbreviation bytes := (list Z).

Definition byte_ok (b : Z) : Prop := 0 <= b < 256.

Definition bytes_ok (l : bytes) : Prop := Forall byte_ok l.

#[export] Instance byte_ok_dec b : Decision (byte_ok b).
Proof. unfold byte_ok. apply _. Defined.

#[export] Instance bytes_ok_dec l : Decision (bytes_ok l).
Proof. unfold bytes_ok. apply _. Defined.

(** [v as uN]: the cast to an unsigned word of [w] bits. *)
Definition wrap (w v : Z) : Z := v mod 2 ^ w.

(** The two's complement reading of a [w]-bit pattern, [v as iN]. *)
Definition to_signed (w v : Z) : Z :=
  let u := wrap w v in if u <? 2 ^ (w - 1) then u else u - 2 ^ w.

Definition zlen {A} (l : list A) : Z := Z.of_nat (length l).

(** [l.get(i)] *)
Definition byte_at {A} (l : list A) (i : Z) : option A :=
  if (0 <=? i) && (i <? zlen l) then l !! Z.to_nat i else None.

(** [l.get(a..b)] *)
Definition slice {A} (l : list A) (a b : Z) : option (list A) :=
  if (0 <=? a) && (a <=? b) && (b <=? zlen l)
  then Some (take (Z.to_nat (b - a)) (drop (Z.to_nat a) l)) else None.

(** [v.to_be_bytes()] for a word of [n] bytes. *)
Fixpoint be_bytes (n : nat) (v : Z) : bytes :=
  match n with
  | O => []
  | S m => (v / 256 ^ Z.of_nat m) mod 256 :: be_bytes m v
  end.

(** [uN::from_be_bytes]. *)
Definition be_val (l : bytes) : Z := fold_left (λ a b, a * 256 + b) l 0.

(** ** Byte order

    The comparison of byte strings ([Ord] for [[u8]]): lexicographic. *)
Fixpoint lex_compare (a b : bytes) : comparison :=
  match a, b with
  | [], [] => Eq
  | [], _ :: _ => Lt
  | _ :: _, [] => Gt
  | x :: a', y :: b' =>
      match x ?= y with Eq => lex_compare a' b' | c => c end
  end.

Definition bytes_lt (a b : bytes) : Prop := lex_compare a b = Lt.

Definition bytes_le (a b : bytes) : Prop := lex_compare a b ≠ Gt.

Infix "≺" := bytes_lt (at level 70) : okm_scope.
Infix "≼" := bytes_le (at level 70) : okm_scope.
Open Scope okm_scope.

#[export] Instance bytes_lt_dec a b : Decision (a ≺ b).
Proof. unfold bytes_lt. apply _. Defined.

#[export] Instance bytes_le_dec a b : Decision (a ≼ b).
Proof. unfold bytes_le. apply _. Defined.

(** ** Outcomes

    What a Rust call does: it returns a value, returns an [Err], or panics. *)
Inductive outcome (E A : Type) : Type :=
| Ok (a : A)
| Err (e : E)
| Panic.

Arguments Ok {E A} a.
Arguments Err {E A} e.
Arguments Panic {E A}.

#[export] Instance outcome_ret {E} : MRet (outcome E) := λ A a, Ok a.

#[export] Instance outcome_bind {E} : MBind (outcome E) := λ A B f m,
  match m with Ok a => f a | Err e => Err e | Panic => Panic end.

(** [opt.ok_or(e)?] *)
Definition ok_or {E A} (e : E) (o : option A) : outcome E A :=
  match o with Some a => Ok a | None => Err e end.

(** An indexing or [expect] that panics when the value is missing. *)
Definition or_panic {E A} (o : option A) : outcome E A :=
  match o with Some a => Ok a | None => Panic end.

(** Whether the build checks arithmetic overflow: a debug build panics where a
    release build wraps or masks. *)
Inductive profile : Type := Debug | Release.

(** [a + b] at an unsigned type of [w] bits. *)
Definition add_w {E} (p : profile) (w a b : Z) : outcome E Z :=
  if a + b <? 2 ^ w then Ok (a + b)
  else match p with Debug => Panic | Release => Ok (wrap w (a + b)) end.

(** [assert!(c)] *)
Definition assert_ {E} (c : bool) : outcome E unit := if c then Ok tt else Panic.

(** ** UTF-8

    [String::from_utf8]: the well-formed byte sequences of the encoding.  A Rust
    [String] is modelled by its bytes. *)
Definition in_range (lo hi b : Z) : bool := (lo <=? b) && (b <=? hi).

Definition utf8_cont (b : Z) : bool := in_range 0x80 0xBF b.

Fixpoint utf8_valid (l : bytes) : bool :=
  match l with
  | [] => true
  | a :: r =>
      if in_range 0 0x7F a then utf8_valid r
      else match r with
      | [] => false
      | b :: r1 =>
          if in_range 0xC2 0xDF a then utf8_cont b && utf8_valid r1
          else match r1 with
          | [] => false
          | c :: r2 =>
              if in_range 0xE0 0xEF a then
                (if a =? 0xE0 then in_range 0xA0 0xBF b
                 else if a =? 0xED then in_range 0x80 0x9F b
                 else utf8_cont b)
                && utf8_cont c && utf8_valid r2
              else match r2 with
              | [] => false
              | d :: r3 =>
                  in_range 0xF0 0xF4 a &&
                  (if a =? 0xF0 then in_range 0x90 0xBF b
                   else if a =? 0xF4 then in_range 0x80 0x8F b
                   else utf8_cont b)
                  && utf8_cont c && utf8_cont d && utf8_valid r3
              end
          end
      end
  end.

Definition from_utf8 (l : bytes) : option bytes := if utf8_valid l then Some l else None.

(** ** Cursor readers

    [reads rd enc x]: wherever the bytes [enc] stand in a frame, the reader [rd]
    started at their first byte answers [x] and stops after their last one.  A
    frame is in memory, so it is no longer than [isize::MAX]. *)
Definition frame_fits (frame : bytes) : Prop := zlen frame < 2 ^ 63.

Definition reads {A} (rd : bytes -> Z -> option (A * Z)) (enc : bytes) (x : A) : Prop :=
  forall pre rest, frame_fits (pre ++ enc ++ rest) ->
  rd (pre ++ enc ++ rest) (zlen pre) = Some (x, zlen pre + zlen enc).

(** [local rd]: the reader looks at nothing past its own cursor, which only
    moves forward and stays inside the frame. *)
Definition local_reader {A} (rd : bytes -> Z -> option (A * Z)) : Prop :=
  forall frame ext pos x pos', rd frame pos = Some (x, pos') ->
  pos <= pos' <= zlen frame /\ rd (frame ++ ext) pos = Some (x, pos').

(** * Lemmas *)

Lemma zlen_nonneg {A} (l : list A) : 0 <= zlen l.
Proof. unfold zlen. lia. Qed.

Lemma zlen_nil {A} : zlen (@nil A) = 0.
Proof. reflexivity. Qed.

Lemma zlen_cons {A} (x : A) l : zlen (x :: l) = 1 + zlen l.
Proof. unfold zlen. simpl. lia. Qed.

Lemma zlen_app {A} (l k : list A) : zlen (l ++ k) = zlen l + zlen k.
Proof. unfold zlen. rewrite length_app. lia. Qed.

#[export] Hint Rewrite @zlen_nil @zlen_cons @zlen_app : okm.

(** Normalises [zlen] of explicit lists and solves linear arithmetic. *)
Ltac zlen_facts :=
  repeat match goal with
  | |- context [zlen ?l] =>
      lazymatch goal with
      | _ : 0 <= zlen l |- _ => fail
      | _ => pose proof (zlen_nonneg l)
      end
  | _ : context [zlen ?l] |- _ =>
      lazymatch goal with
      | _ : 0 <= zlen l |- _ => fail
      | _ => pose proof (zlen_nonneg l)
      end
  end.

Ltac zlia := autorewrite with okm in *; zlen_facts; lia.

(** Case analysis on the boolean tests of [Z]. *)
Ltac zcases :=
  repeat match goal with
  | |- context [?a <? ?b] => destruct (Z.ltb_spec a b)
  | |- context [?a <=? ?b] => destruct (Z.leb_spec a b)
  | |- context [?a =? ?b] => destruct (Z.eqb_spec a b)
  | H : context [?a <? ?b] |- _ => destruct (Z.ltb_spec a b)
  | H : context [?a <=? ?b] |- _ => destruct (Z.leb_spec a b)
  | H : context [?a =? ?b] |- _ => destruct (Z.eqb_spec a b)
  end; simpl in *; try lia; try congruence.

Lemma byte_at_app {A} (pre : list A) x rest :
  byte_at (pre ++ x :: rest) (zlen pre) = Some x.
Proof.
  unfold byte_at. replace (_ && _) with true; [|symmetry; apply andb_true_intro; split; zcases; zlia].
  unfold zlen. rewrite Nat2Z.id. by rewrite list_lookup_middle.
Qed.

Lemma slice_app {A} (pre mid rest : list A) :
  slice (pre ++ mid ++ rest) (zlen pre) (zlen pre + zlen mid) = Some mid.
Proof.
  unfold slice. replace (_ && _) with true.
  2: { symmetry; rewrite !andb_true_iff, !Z.leb_le; zlia. }
  f_equal. replace (Z.to_nat (zlen pre)) with (length pre) by (unfold zlen; lia).
  rewrite drop_app_length.
  replace (Z.to_nat _) with (length mid) by (unfold zlen; lia).
  by rewrite take_app_length.
Qed.

Lemma slice_length {A} (l k : list A) a b :
  slice l a b = Some k -> zlen k = b - a /\ 0 <= a /\ a <= b <= zlen l.
Proof.
  unfold slice. destruct (_ && _) eqn:E; [|done]. intros [= <-].
  rewrite !andb_true_iff, !Z.leb_le in E.
  unfold zlen in *. rewrite length_take, length_drop. lia.
Qed.

Lemma wrap_small w v : 0 <= v < 2 ^ w -> wrap w v = v.
Proof. unfold wrap. apply Z.mod_small. Qed.

(** ** Lexicographic order *)

Lemma lex_compare_refl a : lex_compare a a = Eq.
Proof. induction a as [|x a IH]; simpl; [done|]. by rewrite Z.compare_refl. Qed.

Lemma lex_compare_eq a b : lex_compare a b = Eq <-> a = b.
Proof.
  split; [|intros ->; apply lex_compare_refl].
  revert b. induction a as [|x a IH]; intros [|y b]; simpl; try done.
  destruct (Z.compare_spec x y); intros; try done. subst. f_equal. auto.
Qed.

Lemma lex_compare_antisym a b : lex_compare b a = CompOpp (lex_compare a b).
Proof.
  revert b. induction a as [|x a IH]; intros [|y b]; simpl; try done.
  rewrite (Z.compare_antisym x y). destruct (x ?= y); simpl; auto.
Qed.

Lemma lex_compare_app p a b : lex_compare (p ++ a) (p ++ b) = lex_compare a b.
Proof. induction p as [|x p IH]; simpl; [done|]. by rewrite Z.compare_refl. Qed.

Lemma bytes_lt_trans a b c : a ≺ b -> b ≺ c -> a ≺ c.
Proof.
  unfold bytes_lt. revert b c.
  induction a as [|x a IH]; intros [|y b] [|z c]; simpl; try done.
  destruct (Z.compare_spec x y), (Z.compare_spec y z); intros; subst; try done;
    rewrite ?Z.compare_refl; eauto;
    by rewrite (proj2 (Z.compare_lt_iff _ _)) by lia.
Qed.

Lemma bytes_lt_irrefl a : ~ a ≺ a.
Proof. unfold bytes_lt. by rewrite lex_compare_refl. Qed.

Lemma bytes_le_lteq a b : a ≼ b <-> a ≺ b \/ a = b.
Proof.
  unfold bytes_le, bytes_lt. rewrite <- lex_compare_eq.
  destruct (lex_compare a b); naive_solver.
Qed.

Lemma bytes_lt_nle a b : a ≺ b <-> ~ b ≼ a.
Proof.
  unfold bytes_le, bytes_lt. rewrite (lex_compare_antisym a b).
  destruct (lex_compare a b); naive_solver.
Qed.

Lemma bytes_le_nlt a b : a ≼ b <-> ~ b ≺ a.
Proof.
  unfold bytes_le, bytes_lt. rewrite (lex_compare_antisym a b).
  destruct (lex_compare a b); naive_solver.
Qed.

Lemma bytes_lt_le a b : a ≺ b -> a ≼ b.
Proof. rewrite bytes_le_lteq. auto. Qed.

#[export] Instance bytes_lt_transitive : Transitive bytes_lt.
Proof. intros a b c. apply bytes_lt_trans. Qed.

#[export] Instance bytes_le_reflexive : Reflexive bytes_le.
Proof. intros a. apply bytes_le_lteq. auto. Qed.

#[export] Instance bytes_le_transitive : Transitive bytes_le.
Proof.
  intros a b c. rewrite !bytes_le_lteq.
  intros [?| ->] [?| ->]; eauto using bytes_lt_trans.
Qed.

#[export] Instance bytes_le_antisymm : AntiSymm (=) bytes_le.
Proof.
  intros a b. rewrite !bytes_le_lteq.
  intros [H| ->] [H'|]; auto. destruct (bytes_lt_irrefl a). eauto using bytes_lt_trans.
Qed.

#[export] Instance bytes_le_total : Total bytes_le.
Proof.
  intros a b. destruct (decide (a ≼ b)) as [|H]; [by left|right].
  apply bytes_lt_le, bytes_lt_nle. done.
Qed.

Lemma bytes_le_lt_trans a b c : a ≼ b -> b ≺ c -> a ≺ c.
Proof. rewrite bytes_le_lteq. intros [?| ->]; eauto using bytes_lt_trans. Qed.

Lemma bytes_lt_le_trans a b c : a ≺ b -> b ≼ c -> a ≺ c.
Proof. rewrite bytes_le_lteq. intros ? [?| <-]; eauto using bytes_lt_trans. Qed.

Lemma bytes_nil_le a : [] ≼ a.
Proof. by destruct a. Qed.

Lemma bytes_le_prefix p s : p ≼ p ++ s.
Proof.
  unfold bytes_le. rewrite <- (app_nil_r p) at 1.
  rewrite lex_compare_app. by destruct s.
Qed.

Lemma bytes_lt_app p a b : p ++ a ≺ p ++ b <-> a ≺ b.
Proof. unfold bytes_lt. by rewrite lex_compare_app. Qed.

Lemma bytes_le_app p a b : p ++ a ≼ p ++ b <-> a ≼ b.
Proof. unfold bytes_le. by rewrite lex_compare_app. Qed.

#[export] Hint Resolve bytes_lt_le bytes_le_prefix bytes_nil_le : okm.

(** A key between two keys that carry the prefix [p] carries it too. *)
Lemma between_prefix p a b k :
  p ++ a ≼ k -> k ≺ p ++ b -> exists s, k = p ++ s.
Proof.
  unfold bytes_le, bytes_lt. revert k.
  induction p as [|x p IH]; intros k; simpl; [by exists k|].
  destruct k as [|y k]; simpl; [done|].
  destruct (Z.compare_spec x y) as [->| |]; [|intros _|done].
  - rewrite Z.compare_refl. intros H1 H2. destruct (IH k H1 H2) as [s ->]. by exists s.
  - by rewrite (proj2 (Z.compare_gt_iff _ _)) by lia.
Qed.

(** ** Big-endian words *)

Lemma be_bytes_length n v : length (be_bytes n v) = n.
Proof. induction n; simpl; auto. Qed.

Lemma be_bytes_zlen n v : zlen (be_bytes n v) = Z.of_nat n.
Proof. unfold zlen. by rewrite be_bytes_length. Qed.

#[export] Hint Rewrite be_bytes_zlen : okm.

Lemma be_bytes_ok n v : bytes_ok (be_bytes n v).
Proof.
  unfold bytes_ok. induction n; simpl; constructor; auto.
  unfold byte_ok. apply Z.mod_pos_bound. lia.
Qed.

#[export] Hint Resolve be_bytes_ok : okm.

Lemma pow256_succ n : 256 ^ Z.of_nat (S n) = 256 * 256 ^ Z.of_nat n.
Proof. rewrite Nat2Z.inj_succ, Z.pow_succ_r; lia. Qed.

Lemma pow256_pos n : 0 < 256 ^ Z.of_nat n.
Proof. apply Z.pow_pos_nonneg; lia. Qed.

Lemma be_val_acc l a :
  fold_left (λ a b, a * 256 + b) l a = a * 256 ^ zlen l + be_val l.
Proof.
  revert a. unfold be_val. induction l as [|x l IH]; intros a; simpl.
  - unfold zlen. simpl. lia.
  - rewrite (IH (a * 256 + x)), (IH (0 * 256 + x)). unfold zlen. simpl length.
    rewrite pow256_succ. lia.
Qed.

Lemma be_val_cons x l : be_val (x :: l) = x * 256 ^ zlen l + be_val l.
Proof. unfold be_val at 1. simpl. apply be_val_acc. Qed.

Lemma be_val_app l k : be_val (l ++ k) = be_val l * 256 ^ zlen k + be_val k.
Proof. unfold be_val at 1. rewrite fold_left_app. apply be_val_acc. Qed.

Lemma be_val_snoc l b : be_val (l ++ [b]) = be_val l * 256 + b.
Proof. rewrite be_val_app. change (be_val [b]) with (0 * 256 + b). unfold zlen. simpl. lia. Qed.

Lemma be_val_bound l : bytes_ok l -> 0 <= be_val l < 256 ^ zlen l.
Proof.
  induction 1 as [|x l Hx Hl IH]; [by unfold be_val, zlen; simpl|].
  rewrite be_val_cons. unfold byte_ok in Hx. unfold zlen in *. simpl length.
  rewrite pow256_succ. nia.
Qed.

Lemma be_val_be_bytes n v : be_val (be_bytes n v) = v mod 256 ^ Z.of_nat n.
Proof.
  induction n as [|n IH]; simpl be_bytes.
  - unfold be_val. simpl. by rewrite Z.mod_1_r.
  - rewrite be_val_cons, be_bytes_zlen, IH, pow256_succ.
    pose proof (pow256_pos n).
    rewrite (Z.mul_comm 256 (256 ^ _)).
    rewrite Z.rem_mul_r by lia. lia.
Qed.

Lemma be_val_be_bytes_small n v :
  0 <= v < 256 ^ Z.of_nat n -> be_val (be_bytes n v) = v.
Proof. intros H. rewrite be_val_be_bytes. by apply Z.mod_small. Qed.

(** The low [n] bytes do not see what stands above them. *)
Lemma be_bytes_add n k x v :
  (n <= k)%nat -> be_bytes n (x * 256 ^ Z.of_nat k + v) = be_bytes n v.
Proof.
  revert k. induction n as [|n IH]; intros k Hn; [done|]. simpl. f_equal; [|apply IH; lia].
  replace (Z.of_nat k) with (Z.of_nat (k - S n) + 1 + Z.of_nat n) by lia.
  rewrite !Z.pow_add_r by lia. rewrite !Z.mul_assoc.
  rewrite Z.div_add_l by (pose proof (pow256_pos n); lia).
  rewrite Z.pow_1_r. rewrite Z.add_comm. apply Z.mod_add. lia.
Qed.

Lemma be_bytes_be_val l : bytes_ok l -> be_bytes (length l) (be_val l) = l.
Proof.
  induction 1 as [|x l Hx Hl IH]; [done|]. simpl length. simpl be_bytes.
  pose proof (be_val_bound l Hl) as B. pose proof (pow256_pos (length l)).
  unfold byte_ok in Hx. rewrite be_val_cons. unfold zlen in *. f_equal.
  - rewrite Z.div_add_l, (Z.div_small (be_val l)) by lia.
    rewrite Z.add_0_r. apply Z.mod_small. lia.
  - by rewrite be_bytes_add.
Qed.

Lemma lex_compare_be_val a b :
  length a = length b -> bytes_ok a -> bytes_ok b ->
  lex_compare a b = (be_val a ?= be_val b).
Proof.
  intros Hl Ha. revert b Hl. induction Ha as [|x a Hx Ha IH]; intros [|y b] Hl Hb; try done.
  apply Forall_cons in Hb as [Hy Hb]. injection Hl as Hl. simpl.
  rewrite !be_val_cons. pose proof (be_val_bound a Ha). pose proof (be_val_bound b Hb).
  unfold zlen in *. rewrite <- Hl in *. unfold byte_ok in *.
  pose proof (pow256_pos (length a)).
  destruct (Z.compare_spec x y) as [->| |].
  - rewrite (IH b Hl Hb). destruct (Z.compare_spec (be_val a) (be_val b)); symmetry;
      [apply Z.compare_eq_iff|apply Z.compare_lt_iff|apply Z.compare_gt_iff]; lia.
  - symmetry. apply Z.compare_lt_iff. nia.
  - symmetry. apply Z.compare_gt_iff. nia.
Qed.

(** Fixed-width big-endian encodings compare as their values. *)
Lemma lex_compare_be_bytes n u v :
  0 <= u < 256 ^ Z.of_nat n -> 0 <= v < 256 ^ Z.of_nat n ->
  lex_compare (be_bytes n u) (be_bytes n v) = (u ?= v).
Proof.
  intros Hu Hv. rewrite lex_compare_be_val; auto using be_bytes_ok.
  - by rewrite !be_val_be_bytes_small.
  - by rewrite !be_bytes_length.
Qed.

(** ** Finite case analysis *)

(** A decidable fact about the integers of a small range, by evaluation. *)
Lemma Z_range_forall (f : Z -> bool) a n :
  forallb f (seqZ a n) = true -> forall x, a <= x < a + n -> f x = true.
Proof.
  intros H x Hx. rewrite forallb_forall in H. apply H.
  apply list_elem_of_In. apply elem_of_seqZ. lia.
Qed.

Lemma land_shift_low s h k :
  0 <= k -> 0 <= h < 2 ^ k -> Z.land (Z.shiftl s k) h = 0.
Proof.
  intros Hk Hh. apply Z.bits_inj'. intros n Hn. rewrite Z.land_spec, Z.bits_0.
  destruct (Z.lt_ge_cases n k); [by rewrite Z.shiftl_spec_low by lia|].
  rewrite andb_comm. destruct (decide (h = 0)) as [->|]; [by rewrite Z.bits_0|].
  rewrite (Z.bits_above_log2 h); [done|lia|].
  apply Z.log2_lt_pow2; [lia|]. eapply Z.lt_le_trans; [apply Hh|].
  apply Z.pow_le_mono_r; lia.
Qed.

(** Packing a field above [k] low bits is an addition. *)
Lemma lor_shift_add s h k :
  0 <= k -> 0 <= h < 2 ^ k -> Z.lor (Z.shiftl s k) h = s * 2 ^ k + h.
Proof.
  intros Hk Hh. pose proof (Z.add_lor_land (Z.shiftl s k) h) as E.
  rewrite land_shift_low in E by done. rewrite Z.shiftl_mul_pow2 in * by done. lia.
Qed.


(** ** Cursor readers *)

Lemma reads_bind {A B} (f : bytes -> Z -> option (A * Z))
    (g : A -> bytes -> Z -> option (B * Z)) e1 e2 x y :
  reads f e1 x -> reads (g x) e2 y ->
  reads (λ frame pos, '(a, pos) ← f frame pos; g a frame pos) (e1 ++ e2) y.
Proof.
  intros Hf Hg pre rest F. rewrite <- app_assoc in *. rewrite Hf by done. simpl.
  rewrite <- zlen_app. rewrite app_assoc in *. rewrite Hg by done. do 2 f_equal. zlia.
Qed.

Lemma reads_ret {A B} (f : bytes -> Z -> option (A * Z)) e x (h : A -> B) :
  reads f e x -> reads (λ frame pos, '(a, pos) ← f frame pos; Some (h a, pos)) e (h x).
Proof. intros Hf pre rest F. by rewrite Hf. Qed.

Lemma reads_start {A} (rd : bytes -> Z -> option (A * Z)) enc x rest :
  reads rd enc x -> frame_fits (enc ++ rest) ->
  rd (enc ++ rest) 0 = Some (x, zlen enc).
Proof. intros H F. by apply (H [] rest). Qed.

Lemma byte_at_reads b : reads (λ frame pos, b ← byte_at frame pos; Some (b, pos + 1)) [b] b.
Proof. intros pre rest _. simpl app. by rewrite byte_at_app. Qed.

Lemma slice_reads (mid : bytes) :
  reads (λ frame pos, s ← slice frame pos (pos + zlen mid); Some (s, pos + zlen mid)) mid mid.
Proof. intros pre rest _. by rewrite slice_app. Qed.

Lemma byte_at_Some {A} (l : list A) i x :
  byte_at l i = Some x -> 0 <= i < zlen l /\ l !! Z.to_nat i = Some x.
Proof.
  unfold byte_at. destruct (_ && _) eqn:E; [|done].
  rewrite andb_true_iff, Z.leb_le, Z.ltb_lt in E. done.
Qed.

Lemma byte_at_weaken {A} (l k : list A) i x :
  byte_at l i = Some x -> byte_at (l ++ k) i = Some x.
Proof.
  intros [Hi Hl]%byte_at_Some. unfold byte_at.
  replace (_ && _) with true; [by apply lookup_app_l_Some|].
  symmetry. rewrite andb_true_iff, Z.leb_le, Z.ltb_lt. zlia.
Qed.

Lemma slice_weaken {A} (l k m : list A) a b :
  slice l a b = Some m -> slice (l ++ k) a b = Some m.
Proof.
  intros E. pose proof (slice_length _ _ _ _ E) as (_ & Ha & Hb).
  unfold slice in *. replace (_ && _) with true in E.
  2: { symmetry. rewrite !andb_true_iff, !Z.leb_le. lia. }
  replace (_ && _) with true.
  2: { symmetry. rewrite !andb_true_iff, !Z.leb_le. zlia. }
  injection E as <-. f_equal. unfold zlen in *.
  rewrite drop_app_le by lia. rewrite take_app_le; [done|]. rewrite length_drop. lia.
Qed.

Lemma byte_at_next (pre : bytes) x y rest :
  byte_at (pre ++ x :: y :: rest) (zlen pre + 1) = Some y.
Proof.
  rewrite cons_middle, app_assoc. replace (zlen pre + 1) with (zlen (pre ++ [x])) by zlia.
  apply byte_at_app.
Qed.

Lemma slice_next (pre : bytes) x mid rest n :
  n = zlen mid -> slice (pre ++ x :: mid ++ rest) (zlen pre + 1) (zlen pre + 1 + n) = Some mid.
Proof.
  intros ->. rewrite cons_middle, app_assoc.
  replace (zlen pre + 1) with (zlen (pre ++ [x])) by zlia. apply slice_app.
Qed.

(** Splits an [option] bind that answered into the answers of its parts. *)
Ltac obind :=
  repeat match goal with
  | H : (?m ≫= _) = Some _ |- _ => apply bind_Some in H as (? & ? & ?)
  | H : context [match ?p with pair _ _ => _ end] |- _ => is_var p; destruct p
  | H : Some _ = Some _ |- _ => injection H as H; simplify_eq
  | H : (if ?b then None else _) = Some _ |- _ => destruct b eqn:?; [done|]
  end.

Lemma local_bind {A B} (f : bytes -> Z -> option (A * Z))
    (g : A -> bytes -> Z -> option (B * Z)) :
  local_reader f -> (forall x, local_reader (g x)) ->
  local_reader (λ frame pos, '(a, pos) ← f frame pos; g a frame pos).
Proof.
  intros Hf Hg frame ext pos y p H. apply bind_Some in H as ([a q] & E & H).
  destruct (Hf _ ext _ _ _ E) as [B1 ->]. destruct (Hg a _ ext _ _ _ H) as [B2 E2].
  split; [lia|]. done.
Qed.

Lemma local_ext {A} (f g : bytes -> Z -> option (A * Z)) :
  (forall frame pos, f frame pos = g frame pos) -> local_reader f -> local_reader g.
Proof. intros E H frame ext pos x p. rewrite <- !E. apply H. Qed.

#[global] Arguments be_bytes n v : simpl never.
#[global] Arguments be_val l : simpl never.
#[global] Arguments zlen {A} l : simpl never.
#[global] Arguments byte_at {A} l i : simpl never.
#[global] Arguments slice {A} l a b : simpl never.

Lemma fold_left_concat {A} (f : bytes -> A -> bytes) l buf :
  (forall b x, f b x = b ++ f [] x) ->
  fold_left f l buf = buf ++ concat (map (f []) l).
Proof.
  intros Hf. revert buf. induction l as [|x l IH]; intros buf; simpl.
  - by rewrite app_nil_r.
  - by rewrite IH, Hf, <- app_assoc.
Qed.

(** One step of a sequential reader: the goal reads [enc] at the cursor
    [zlen pre] of [pre ++ enc ++ rest]; [L : reads rd enc x] answers it and the
    cursor moves behind [enc]. *)
Ltac read_step L :=
  lazymatch type of L with
  | reads ?rd ?enc ?x =>
      match goal with
      | F : frame_fits (?pre ++ enc ++ ?rest) |- _ =>
          let E := fresh in
          pose proof (L pre rest F) as E; cbn beta in E; rewrite E; clear E;
          cbn [mbind option_bind];
          rewrite <- ?(zlen_app pre enc); rewrite ?(app_assoc pre enc) in *
      end
  end.

(** The end of a sequential reader's proof: the cursors agree. *)
Ltac read_done := first [done | do 2 f_equal; zlia].

Lemma be_bytes_S n v : be_bytes (S n) v = (v / 256 ^ Z.of_nat n) mod 256 :: be_bytes n v.
Proof. reflexivity. Qed.

Lemma drop_be_bytes k n v : drop k (be_bytes (k + n) v) = be_bytes n v.
Proof. induction k as [|k IH]; [done|]. apply IH. Qed.

Lemma be_bytes_mod n k v :
  (n <= k)%nat -> be_bytes n (v mod 256 ^ Z.of_nat k) = be_bytes n v.
Proof.
  intros H. pose proof (pow256_pos k).
  rewrite (Z.div_mod v (256 ^ Z.of_nat k)) at 2 by lia.
  rewrite (Z.mul_comm (256 ^ _)). by rewrite be_bytes_add.
Qed.

(** Words of one width followed by anything: order is the words' order. *)
Lemma be_bytes_lt_app n u v r s :
  0 <= u < 256 ^ Z.of_nat n -> 0 <= v < 256 ^ Z.of_nat n -> u < v ->
  be_bytes n u ++ r ≺ be_bytes n v ++ s.
Proof.
  intros Hu Hv L. pose proof (lex_compare_be_bytes n u v Hu Hv) as C.
  rewrite (proj2 (Z.compare_lt_iff _ _) L) in C.
  assert (length (be_bytes n u) = length (be_bytes n v)) as L1 by (by rewrite !be_bytes_length).
  revert L1 C. generalize (be_bytes n u) (be_bytes n v). clear.
  unfold bytes_lt. intros l. induction l as [|x l IH]; intros [|y l0] L C; simpl in *; try done.
  destruct (x ?= y); auto.
Qed.

Lemma take_be_bytes n v rest : take n (be_bytes n v ++ rest) = be_bytes n v.
Proof. rewrite take_app_length'; [done|]. by rewrite be_bytes_length. Qed.

(** A word is its high bytes followed by its low bytes. *)
Lemma be_bytes_split k n v : be_bytes (k + n) v = be_bytes k (v / 256 ^ Z.of_nat n) ++ be_bytes n v.
Proof.
  induction k as [|k IH]; [done|]. simpl Nat.add. rewrite !be_bytes_S, IH. simpl. f_equal.
  rewrite Nat2Z.inj_add, Z.add_comm, Z.pow_add_r by lia.
  rewrite Z.div_div; [done|pose proof (pow256_pos n); lia|apply pow256_pos].
Qed.

Lemma existsb_nonzero l : bytes_ok l -> existsb (λ b, negb (b =? 0)) l = negb (be_val l =? 0).
Proof.
  induction 1 as [|x l Hx Hl IH]; [done|]. simpl. rewrite IH, be_val_cons.
  pose proof (be_val_bound l Hl). pose proof (pow256_pos (length l)). unfold byte_ok, zlen in *.
  destruct (Z.eqb_spec x 0) as [->|]; simpl; [by rewrite Z.mul_0_l, Z.add_0_l|].
  symmetry. rewrite negb_true_iff, Z.eqb_neq. nia.
Qed.

Lemma slice_0_app {A} (l k : list A) : slice (l ++ k) 0 (zlen l) = Some l.
Proof. apply (slice_app [] l k). Qed.

Lemma slice_past {A} (l : list A) a b : zlen l < b -> slice l a b = None.
Proof. intros L. unfold slice. by rewrite (proj2 (Z.leb_gt b _)), andb_false_r by done. Qed.

Lemma slice_all_from {A} (l k : list A) : slice (l ++ k) (zlen l) (zlen (l ++ k)) = Some k.
Proof. pose proof (slice_app l k []) as E. rewrite app_nil_r in E. by rewrite zlen_app. Qed.
