(* ===== verification/Errors.v ===== *)
(** * The error type (okm-core, [error.rs])

    What the fallible verbs return, and the text an [Error] displays as: the
    text is what a receiving host puts in a fault frame. *)
From stdpp Require Import strings pretty.
From Stdlib Require Import Ascii.
From S2P Require Import Prelude.

(** The bytes of an ASCII literal. *)
Fixpoint str (s : string) : bytes :=
  match s with
  | EmptyString => []
  | String c s => Z.of_N (N_of_ascii c) :: str s
  end.

Inductive Error : Type :=
| KindMismatch (field want got : bytes)
| ValueOutOfRange (field want got : bytes)
| VocabularyExhausted (width : Z) (next : Z)
| VocabularyRequired (name : bytes)
| LayoutMismatch (stored : option Z) (current : Z)
| EdgeAlreadyLive (edge_id : Z)
| EdgeNotFound (edge_id : Z)
| EdgeNotMember (side : bytes) (ns : Z) (graph_ns : Z)
| Corrupt (what : bytes)
| ScanThroughBatch
| Engine (text : bytes)
| Changelog (what : bytes).

#[export] Instance Error_eq_dec : EqDecision Error.
Proof. solve_decision. Defined.

(** [okm_core::Result] *)
Abbreviation result := (outcome Error).

Definition show_Z (n : Z) : bytes := str (pretty n).

(** [{:?}] of an [Option<u8>] *)
Definition show_opt (o : option Z) : bytes :=
  match o with
  | Some n => str "Some(" ++ show_Z n ++ str ")"
  | None => str "None"
  end.

(** [Display for Error]: the [#[error]] attributes; the em dash is its UTF-8
    bytes. *)
Definition dash : bytes := [0xE2; 0x80; 0x94].

Definition to_string (e : Error) : bytes :=
  match e with
  | KindMismatch field want got =>
      str "from_map: field `" ++ field ++ str "` declares " ++ want
      ++ str "; the map carries " ++ got
  | ValueOutOfRange field want got =>
      str "from_map: field `" ++ field ++ str "` declares " ++ want
      ++ str "; the map carries " ++ got ++ str ", which cannot be represented"
  | VocabularyExhausted width next =>
      str "vocabulary exhausted: id #" ++ show_Z next ++ str " does not fit a "
      ++ show_Z width ++ str "-byte vocabulary (ADR-0032) " ++ dash
      ++ str " widen the field's N or model the value as a String field"
  | VocabularyRequired name =>
      str "nested object requires the vocabulary (name `" ++ name
      ++ str "` unresolved) " ++ dash ++ str " use put_frame_named"
  | LayoutMismatch stored current =>
      str "table layout mismatch: the store is stamped " ++ show_opt stored
      ++ str ", this build writes " ++ show_Z current ++ str " " ++ dash
      ++ str " export the store with the build that stamped it, or delete it (ADR-0042)"
  | EdgeAlreadyLive edge_id => str "edge_id " ++ show_Z edge_id ++ str " already live"
  | EdgeNotFound edge_id => str "unlink: edge_id " ++ show_Z edge_id ++ str " not found"
  | EdgeNotMember side ns graph_ns =>
      side ++ str " ns " ++ show_Z ns ++ str " is not a member of graph ns " ++ show_Z graph_ns
  | Corrupt what => what
  | ScanThroughBatch =>
      str "a BatchStore refuses scans: a batch's pending ops and the store's iterator cannot be          merged into one ordered view. Return to the store, read what you need, then open the          batch"
  | Engine text => text
  | Changelog what => str "changelog: " ++ what
  end.

(** The texts of [engine/nest.rs]. *)
Definition host_panicked : bytes := str "nest: the host panicked while applying the frame".
Definition reply_missing : bytes := str "nest reply missing: receiving on a closed channel".

(** The texts of [model/document.rs] under [Corrupt]. *)
Definition short_primary (n key_len : Z) : Error :=
  Corrupt (str "a primary entry is " ++ show_Z n ++ str " byte(s), shorter than the " ++ show_Z key_len ++ str "-byte key").

Definition primary_length (taken got want : Z) : Error :=
  Corrupt (str "a primary entry under a " ++ show_Z taken ++ str "-byte key prefix is " ++ show_Z got
    ++ str " byte(s) long, but the declaration makes it " ++ show_Z want).

Definition document_length (taken got want : Z) : Error :=
  Corrupt (str "a document entry under a " ++ show_Z taken ++ str "-byte key prefix is " ++ show_Z got
    ++ str " byte(s) long, but the declaration makes it " ++ show_Z want).

(** ** The bridge's texts ([document_encode.rs], [obj_dynamic.rs]) *)

Definition name_UInt : bytes := str "UInt".
Definition name_Int : bytes := str "Int".
Definition name_F64 : bytes := str "F64".
Definition name_Str : bytes := str "Str".
Definition name_Bytes : bytes := str "Bytes".
Definition name_Bool : bytes := str "Bool".
Definition name_Null : bytes := str "Null".
Definition name_Array : bytes := str "Array".
Definition name_Obj : bytes := str "Obj".
Definition name_label : bytes := str "Str (a label) or UInt (an unresolved id)".

(** [stringify!] of a field's type. *)
Definition int_name (signed : bool) (n : nat) : bytes :=
  str (if signed then "i" else "u") ++ show_Z (8 * Z.of_nat n).
Definition array_name (n : nat) : bytes := str "[u8; " ++ show_Z (Z.of_nat n) ++ str "]".
Definition uuid_name (version : Z) : bytes := str "Uuid" ++ show_Z version.

Definition count_bytes (n : Z) : bytes := show_Z n ++ str " bytes".
Definition count_uuid_bytes (n : Z) : bytes := count_bytes n ++ str ", a uuid is 16".

(** The words and the text of [model/graph.rs]. *)
Definition name_src : bytes := str "src".
Definition name_dst : bytes := str "dst".

Definition edge_primary_length (got want : Z) : Error :=
  Corrupt (str "an edge primary entry is " ++ show_Z got ++ str " byte(s) long, but the declaration makes it " ++ show_Z want).

(** The texts of the change log. *)
Definition PARTIAL_EXT : bytes := str "partial".
Definition SEALED_EXT : bytes := str "segment".
Definition path_sep : bytes := str "/".
Definition dot : bytes := str ".".
Definition colon : bytes := str ": ".
Definition log_closed : bytes := str "segment handle is closed".
Definition log_trailing : bytes := str "trailing bytes without a length prefix".
Definition log_past_end : bytes := str "record length runs past the end of the file".
Definition log_bad_frame : bytes := str "record body is not a valid op frame".
(** The renderings of two of the standard library's i/o errors. *)
Definition os_exists : bytes := str "File exists (os error 17)".
Definition os_not_found : bytes := str "No such file or directory (os error 2)".

(** The names of the serialized field types ([model/schema.rs]). *)
Definition ty_U8 : bytes := str "U8".
Definition ty_U16 : bytes := str "U16".
Definition ty_U32 : bytes := str "U32".
Definition ty_U64 : bytes := str "U64".
Definition ty_FixedBytes : bytes := str "FixedBytes".
Definition ty_Str : bytes := str "Str".
Definition ty_Bytes : bytes := str "Bytes".
Definition ty_Uuid4 : bytes := str "Uuid4".
Definition ty_Uuid7 : bytes := str "Uuid7".
Definition ty_VarInt : bytes := str "VarInt".
Definition ty_Quant : bytes := str "Quant".
Definition ty_Vocab : bytes := str "Vocab".
Definition ty_Offset : bytes := str "Offset".
Definition ty_Vector : bytes := str "Vector".
Definition ty_elem : bytes := str "elem".

(** The places the dynamic codec names in an error ([okm-dynamic/src/*.rs]). *)
Definition place_key : bytes := str "<key>".
Definition place_header : bytes := str "<payload header>".
Definition place_hot : bytes := str "<hot segment>".
Definition place_cold_tag : bytes := str "<cold tag>".
Definition place_cold_len : bytes := str "<cold len>".
Definition place_cold_value : bytes := str "<cold value>".

(** The text of an exhausted field vocabulary ([okm-dynamic/src/plan_fields.rs]). *)
Definition mirror_exhausted : bytes :=
  str "vocabulary exhausted: field names fill a 2-byte id (ADR-0032); this name does not fit — model the value as a String field instead".

(** The texts of run-time faces. *)
Definition face_plain : bytes := str "plain".
Definition face_partial : bytes := str "partial".
Definition face_func : bytes := str "func".
Definition face_path : bytes := str "path".
Definition text_field : bytes := str "f:".
Definition text_index : bytes := str "i:".
Definition text_key : bytes := str "k:".
Definition text_arrow : bytes := str " -> ".
Definition text_version : bytes := str " |v".
Definition path_record : bytes := str "path:0x".
Definition paren_open : bytes := str "(".
Definition paren_close : bytes := str ")".
Definition vector_open : bytes := str " { elem: ".
Definition vector_close : bytes := str " }".
