(* ===== verification/Wire.v ===== *)
(** * The wire format of the engine protocol (crate [okm-wire])

    One request frame carries a list of operations, one response frame carries
    the answer; lengths are bucketed by width.  [OpFrame_encode] and
    [OpFrame_decode], [OpResponse_encode], [OpResponse_decode] and
    [OpResponse_decode_chunk] are the codec of [okm-wire/src/lib.rs]; the
    theorems are the round trips, the rejection of malformed input and the bound
    of what a decoded frame may occupy.

    A reader's cursor ([pos: &mut usize]) is passed and returned explicitly. *)
From S2P Require Import Prelude.

(** ** Constants *)

Definition OP_PUT : Z := 0.
Definition OP_DELETE : Z := 1.
Definition OP_GET : Z := 2.
Definition OP_SCAN : Z := 3.
Definition OP_SCAN_STREAM : Z := 4.

Definition TAIL_MORE : Z := 0.
Definition TAIL_FINAL : Z := 1.

Definition LEN_INLINE : Z := 0.
Definition LEN_U8 : Z := 1.
Definition LEN_U16 : Z := 2.
Definition LEN_U32 : Z := 3.

Definition FAULT_CODE : Z := 2.

Definition usize_max : Z := 2 ^ 64 - 1.

(** ** Lengths *)

(** [put_len]: four width buckets chosen by the two high bits of the first
    byte.  The casts truncate, as the release build does. *)
Definition put_len (buf : bytes) (value : Z) : bytes :=
  if value <? Z.shiftl 1 6 then
    buf ++ [Z.lor (Z.shiftl LEN_INLINE 6) (wrap 8 value)]
  else if value <? Z.shiftl 1 14 then
    buf ++ [Z.lor (Z.shiftl LEN_U8 6) (wrap 8 (Z.shiftr value 8))] ++ [wrap 8 value]
  else if value <? Z.shiftl 1 22 then
    buf ++ [Z.lor (Z.shiftl LEN_U16 6) (wrap 8 (Z.shiftr value 16))]
        ++ be_bytes 2 (wrap 16 value)
  else
    buf ++ [Z.shiftl LEN_U32 6] ++ be_bytes 4 (wrap 32 value).

(** [get_len]: the value read and the new cursor. *)
Definition get_len (frame : bytes) (pos : Z) : option (Z * Z) :=
  if zlen frame <=? pos then None else
  first ← byte_at frame pos;
  let pos := pos + 1 in
  let selector := Z.shiftr first 6 in
  if selector =? LEN_INLINE then Some (Z.land first 0x3f, pos)
  else if selector =? LEN_U8 then
    rest ← byte_at frame pos;
    Some (Z.lor (Z.shiftl (Z.land first 0x3f) 8) rest, pos + 1)
  else if selector =? LEN_U16 then
    rest ← slice frame pos (pos + 2);
    Some (Z.lor (Z.shiftl (Z.land first 0x3f) 16) (be_val rest), pos + 2)
  else if selector =? LEN_U32 then
    rest ← slice frame pos (pos + 4);
    Some (be_val rest, pos + 4)
  else None.

(** ** Operation headers *)

Definition put_op_header (buf : bytes) (tag key_len value_len : Z) : bytes :=
  let buf := buf ++ [wrap 8 (Z.shiftl tag 4)] in
  let buf := put_len buf key_len in
  put_len buf value_len.

Definition get_op_header (frame : bytes) (pos : Z) : option (Z * Z * Z * Z) :=
  if zlen frame <=? pos then None else
  byte ← byte_at frame pos;
  let pos := pos + 1 in
  let tag := Z.shiftr byte 4 in
  '(key_len, pos) ← get_len frame pos;
  '(value_len, pos) ← get_len frame pos;
  Some (tag, key_len, value_len, pos).

(** [take]: [n] bytes as an owned vector, with the checked addition. *)
Definition take_bytes (frame : bytes) (pos n : Z) : option (bytes * Z) :=
  if usize_max <? pos + n then None else
  let end_ := pos + n in
  if zlen frame <? end_ then None else
  v ← slice frame pos end_;
  Some (v, end_).

(** ** Request frames *)

(** [Op = (u8, Vec<u8>, Vec<u8>)]: tag, key, value. *)
Definition Op : Type := Z * bytes * bytes.

Record OpFrame : Type := mkOpFrame { frame_ops : list Op }.

Definition OpFrame_one (tag : Z) (key value : bytes) : OpFrame :=
  mkOpFrame [(tag, key, value)].

(** [OpFrame::write_batch]: [None] is a delete. *)
Definition OpFrame_write_batch (ops : list (bytes * option bytes)) : OpFrame :=
  mkOpFrame (map (λ '(k, v),
    match v with
    | Some v => (OP_PUT, k, v)
    | None => (OP_DELETE, k, [])
    end) ops).

Definition encode_op (buf : bytes) (op : Op) : bytes :=
  let '(tag, key, value) := op in
  let buf := put_op_header buf tag (zlen key) (zlen value) in
  buf ++ key ++ value.

Definition OpFrame_encode (f : OpFrame) : bytes :=
  fold_left encode_op (frame_ops f) (put_len [] (zlen (frame_ops f))).

Definition decode_op (frame : bytes) (pos : Z) : option (Op * Z) :=
  '(tag, klen, vlen, pos) ← get_op_header frame pos;
  if OP_SCAN_STREAM <? tag then None else
  '(key, pos) ← take_bytes frame pos klen;
  '(value, pos) ← take_bytes frame pos vlen;
  Some ((tag, key, value), pos).

(** A counted section: [for _ in 0..count], each item read by [item]. *)
Fixpoint decode_items {A} (item : bytes -> Z -> option (A * Z))
    (n : nat) (frame : bytes) (pos : Z) : option (list A * Z) :=
  match n with
  | O => Some ([], pos)
  | S n =>
      '(x, pos) ← item frame pos;
      '(xs, pos) ← decode_items item n frame pos;
      Some (x :: xs, pos)
  end.

Definition OpFrame_decode (frame : bytes) : option OpFrame :=
  '(count, pos) ← get_len frame 0;
  '(ops, _) ← decode_items decode_op (Z.to_nat count) frame pos;
  Some (mkOpFrame ops).

(** ** Response frames *)

Record OpResponse : Type := mkOpResponse {
  value : option bytes;
  suffixes : list bytes;
  hits : list (bytes * bytes);
  tail : option Z;
  fault : option bytes
}.

Definition OpResponse_default : OpResponse := mkOpResponse None [] [] None None.

Definition encode_suffix (buf sfx : bytes) : bytes := put_len buf (zlen sfx) ++ sfx.

Definition encode_hit (buf : bytes) (hit : bytes * bytes) : bytes :=
  let '(k, v) := hit in
  let buf := put_len buf (zlen k) ++ k in
  put_len buf (zlen v) ++ v.

Definition OpResponse_encode (r : OpResponse) : bytes :=
  match fault r with
  | Some fault => put_len [FAULT_CODE] (zlen fault) ++ fault
  | None =>
      let buf :=
        match value r with
        | Some v => put_len [1] (zlen v) ++ v
        | None => [0]
        end in
      match tail r with
      | Some tail =>
          fold_left encode_hit (hits r) (put_len buf (zlen (hits r))) ++ [tail]
      | None =>
          fold_left encode_suffix (suffixes r) (put_len buf (zlen (suffixes r)))
      end
  end.

(** The part [decode] and [decode_chunk] share: a fault frame answers at once,
    a plain head gives the value and the cursor. *)
Definition decode_head (frame : bytes) : option (OpResponse + option bytes * Z) :=
  code ← byte_at frame 0;
  if code =? FAULT_CODE then
    '(len, pos) ← get_len frame 1;
    '(text, pos) ← take_bytes frame pos len;
    if negb (pos =? zlen frame) then None else
    text ← from_utf8 text;
    Some (inl (mkOpResponse None [] [] None (Some text)))
  else if code =? 0 then Some (inr (None, 1))
  else if code =? 1 then
    '(len, pos) ← get_len frame 1;
    '(v, pos) ← take_bytes frame pos len;
    Some (inr (Some v, pos))
  else None.

Definition decode_suffix (frame : bytes) (pos : Z) : option (bytes * Z) :=
  '(len, pos) ← get_len frame pos;
  take_bytes frame pos len.

Definition OpResponse_decode (frame : bytes) : option OpResponse :=
  head ← decode_head frame;
  match head with
  | inl faulted => Some faulted
  | inr (v, pos) =>
      '(count, pos) ← get_len frame pos;
      '(sfx, pos) ← decode_items decode_suffix (Z.to_nat count) frame pos;
      if negb (pos =? zlen frame) then None else
      Some (mkOpResponse v sfx [] None None)
  end.

Definition decode_hit (frame : bytes) (pos : Z) : option (bytes * bytes * Z) :=
  '(klen, pos) ← get_len frame pos;
  '(k, pos) ← take_bytes frame pos klen;
  '(vlen, pos) ← get_len frame pos;
  '(v, pos) ← take_bytes frame pos vlen;
  Some ((k, v), pos).

Definition OpResponse_decode_chunk (frame : bytes) : option OpResponse :=
  head ← decode_head frame;
  match head with
  | inl faulted => Some faulted
  | inr (v, pos) =>
      '(count, pos) ← get_len frame pos;
      '(hs, pos) ← decode_items decode_hit (Z.to_nat count) frame pos;
      tail ← byte_at frame pos;
      if negb ((tail =? TAIL_MORE) || (tail =? TAIL_FINAL))
         || negb (pos + 1 =? zlen frame) then None else
      Some (mkOpResponse v [] hs (Some tail) None)
  end.

(** * Lemmas *)

Lemma put_len_app buf v : put_len buf v = buf ++ put_len [] v.
Proof. unfold put_len. by repeat case_match. Qed.

Lemma shift_selector s h :
  0 <= s < 4 -> 0 <= h < 64 ->
  Z.shiftr (Z.lor (Z.shiftl s 6) h) 6 = s /\ Z.land (Z.lor (Z.shiftl s 6) h) 0x3f = h.
Proof.
  intros Hs Hh. rewrite lor_shift_add by lia. change 0x3f with (Z.ones 6).
  rewrite Z.shiftr_div_pow2, Z.land_ones by lia. change (2 ^ 6) with 64.
  split; [rewrite Z.div_add_l, Z.div_small by lia; lia|].
  rewrite Z.add_comm, Z.mod_add, Z.mod_small; lia.
Qed.

(** The first byte of a length, read back as selector and payload. *)
Lemma get_len_first s h pre rest :
  0 <= s < 4 -> 0 <= h < 64 ->
  get_len (pre ++ Z.lor (Z.shiftl s 6) h :: rest) (zlen pre) =
  let frame := pre ++ Z.lor (Z.shiftl s 6) h :: rest in
  let pos := zlen pre + 1 in
  if s =? LEN_INLINE then Some (h, pos)
  else if s =? LEN_U8 then
    r ← byte_at frame pos; Some (Z.lor (Z.shiftl h 8) r, pos + 1)
  else if s =? LEN_U16 then
    r ← slice frame pos (pos + 2); Some (Z.lor (Z.shiftl h 16) (be_val r), pos + 2)
  else r ← slice frame pos (pos + 4); Some (be_val r, pos + 4).
Proof.
  intros Hs Hh. destruct (shift_selector s h Hs Hh) as [E1 E2].
  unfold get_len. rewrite (proj2 (Z.leb_gt _ _)) by zlia.
  rewrite byte_at_app. simpl. rewrite E1, E2.
  unfold LEN_INLINE, LEN_U8, LEN_U16, LEN_U32. by zcases.
Qed.

Lemma put_len_reads v : 0 <= v < 2 ^ 32 -> reads get_len (put_len [] v) v.
Proof.
  intros Hv pre rest _. unfold put_len. simpl ([] ++ _).
  change (Z.shiftl 1 6) with 64. change (Z.shiftl 1 14) with (2 ^ 14).
  change (Z.shiftl 1 22) with (2 ^ 22).
  destruct (Z.ltb_spec v 64) as [H|H]; [|destruct (Z.ltb_spec v (2 ^ 14)) as [H1|H1];
    [|destruct (Z.ltb_spec v (2 ^ 22)) as [H2|H2]]]; cbn [app].
  - rewrite (wrap_small 8) by lia. rewrite get_len_first by (unfold LEN_INLINE; lia). done.
  - assert (0 <= Z.shiftr v 8 < 64) by (rewrite Z.shiftr_div_pow2 by lia;
      split; [apply Z.div_pos; lia|apply Z.div_lt_upper_bound; lia]).
    rewrite (wrap_small 8 (Z.shiftr v 8)) by lia.
    rewrite get_len_first by (unfold LEN_U8; lia). simpl.
    rewrite byte_at_next. simpl. rewrite lor_shift_add.
    2: lia. 2: apply Z.mod_pos_bound; lia.
    rewrite Z.shiftr_div_pow2 by lia. unfold wrap.
    do 2 f_equal; [|zlia]. pose proof (Z.div_mod v (2 ^ 8)). lia.
  - assert (0 <= Z.shiftr v 16 < 64) by (rewrite Z.shiftr_div_pow2 by lia;
      split; [apply Z.div_pos; lia|apply Z.div_lt_upper_bound; lia]).
    rewrite (wrap_small 8 (Z.shiftr v 16)) by lia.
    rewrite get_len_first by (unfold LEN_U16; lia). cbn -[be_bytes app].
    rewrite slice_next by done. simpl.
    assert (0 <= wrap 16 v < 2 ^ 16) by (apply Z.mod_pos_bound; lia).
    rewrite be_val_be_bytes_small, lor_shift_add by lia.
    rewrite Z.shiftr_div_pow2 by lia. unfold wrap.
    do 2 f_equal; [|zlia]. pose proof (Z.div_mod v (2 ^ 16)). lia.
  -
    replace (Z.shiftl LEN_U32 6) with (Z.lor (Z.shiftl LEN_U32 6) 0) by done.
    rewrite get_len_first by (unfold LEN_U32; lia). cbn -[be_bytes app].
    rewrite slice_next by done. simpl.
    rewrite (wrap_small 32), be_val_be_bytes_small by lia.
    do 2 f_equal. zlia.
Qed.

#[export] Hint Resolve put_len_reads : okm.

Lemma take_bytes_reads (v : bytes) :
  reads (λ frame pos, take_bytes frame pos (zlen v)) v v.
Proof.
  intros pre rest F. unfold take_bytes, usize_max, frame_fits in *.
  rewrite (proj2 (Z.ltb_ge _ _)) by zlia.
  rewrite (proj2 (Z.ltb_ge _ _)) by zlia. by rewrite slice_app.
Qed.

#[export] Hint Resolve take_bytes_reads : okm.

Lemma get_len_local : local_reader get_len.
Proof.
  intros frame ext pos x p. unfold get_len.
  destruct (Z.leb_spec (zlen frame) pos) as [|L]; [done|].
  rewrite (proj2 (Z.leb_gt _ _)) by zlia.
  intros H. apply bind_Some in H as (first & E & H).
  rewrite (byte_at_weaken _ _ _ _ E). simpl. apply byte_at_Some in E as [B _].
  repeat case_match; simplify_eq; try (split; [lia|done]);
    apply bind_Some in H as (r & E1 & [= <- <-]).
  - pose proof (byte_at_Some _ _ _ E1) as [? _]. rewrite (byte_at_weaken _ _ _ _ E1). split; [lia|done].
  - pose proof (slice_length _ _ _ _ E1). rewrite (slice_weaken _ _ _ _ _ E1). split; [lia|done].
  - pose proof (slice_length _ _ _ _ E1). rewrite (slice_weaken _ _ _ _ _ E1). split; [lia|done].
Qed.

Lemma take_bytes_local n : local_reader (λ frame pos, take_bytes frame pos n).
Proof.
  intros frame ext pos x p. unfold take_bytes.
  destruct (Z.ltb_spec usize_max (pos + n)); [done|].
  destruct (Z.ltb_spec (zlen frame) (pos + n)); [done|].
  rewrite (proj2 (Z.ltb_ge _ _)) by zlia.
  intros H1. apply bind_Some in H1 as (r & E1 & [= <- <-]).
  rewrite (slice_weaken _ _ _ _ _ E1). pose proof (slice_length _ _ _ _ E1). split; [lia|done].
Qed.

Lemma decode_items_local {A} (item : bytes -> Z -> option (A * Z)) n frame ext pos xs p :
  local_reader item -> pos <= zlen frame ->
  decode_items item n frame pos = Some (xs, p) ->
  pos <= p <= zlen frame /\ decode_items item n (frame ++ ext) pos = Some (xs, p).
Proof.
  intros Hi. revert pos xs p. induction n as [|n IH]; intros pos xs p Hp; simpl.
  - intros [= <- <-]. split; [lia|done].
  - intros H. apply bind_Some in H as ([x q] & E & H).
    apply bind_Some in H as ([ys r] & E2 & [= <- <-]).
    destruct (Hi _ ext _ _ _ E) as [B ->]. simpl.
    destruct (IH q ys r) as [B2 ->]; [lia|done|]. split; [lia|done].
Qed.

Lemma decode_items_reads {A} (item : bytes -> Z -> option (A * Z)) (enc : A -> bytes) xs :
  Forall (λ x, reads item (enc x) x) xs ->
  reads (decode_items item (length xs)) (concat (map enc xs)) xs.
Proof.
  induction 1 as [|x xs Hx Hxs IH]; intros pre rest F; simpl in *; [read_done|].
  rewrite <- app_assoc in *. read_step Hx. read_step IH. read_done.
Qed.

(** ** Request frames *)

Definition op_ok (op : Op) : Prop :=
  let '(tag, key, value) := op in
  0 <= tag <= OP_SCAN_STREAM /\ zlen key < 2 ^ 32 /\ zlen value < 2 ^ 32.

Definition OpFrame_ok (f : OpFrame) : Prop :=
  Forall op_ok (frame_ops f) /\ zlen (frame_ops f) < 2 ^ 32 /\
  frame_fits (OpFrame_encode f).

#[export] Instance op_ok_dec op : Decision (op_ok op).
Proof. destruct op as [[??]?]. unfold op_ok. apply _. Defined.

Lemma encode_op_app buf op : encode_op buf op = buf ++ encode_op [] op.
Proof.
  destruct op as [[tag key] v]. unfold encode_op, put_op_header.
  rewrite (put_len_app (put_len _ _)), (put_len_app (buf ++ _)).
  rewrite (put_len_app (put_len _ _)), (put_len_app ([] ++ _)).
  by rewrite <- !app_assoc.
Qed.

Lemma op_tag_shift tag : 0 <= tag < 16 -> Z.shiftr (wrap 8 (Z.shiftl tag 4)) 4 = tag.
Proof.
  intros H. rewrite Z.shiftl_mul_pow2 by lia. rewrite wrap_small by lia.
  rewrite Z.shiftr_div_pow2 by lia. apply Z.div_mul. lia.
Qed.

Lemma decode_op_reads op : op_ok op -> reads decode_op (encode_op [] op) op.
Proof.
  destruct op as [[tag key] v]. intros (Ht & Hk & Hv). unfold OP_SCAN_STREAM in Ht.
  unfold encode_op, put_op_header.
  rewrite (put_len_app (put_len _ _)), (put_len_app ([] ++ _)). cbn [app].
  pose proof (zlen_nonneg key). pose proof (zlen_nonneg v).
  pose proof (put_len_reads (zlen key) ltac:(lia)) as R1.
  pose proof (put_len_reads (zlen v) ltac:(lia)) as R2.
  intros pre rest F. unfold decode_op, get_op_header.
  rewrite <- app_comm_cons, <- !app_assoc in *.
  rewrite (proj2 (Z.leb_gt _ _)) by zlia. rewrite byte_at_app.
  cbn [mbind option_bind]. rewrite op_tag_shift by lia.
  rewrite cons_middle, (app_assoc pre) in *.
  replace (zlen pre + 1) with (zlen (pre ++ [wrap 8 (Z.shiftl tag 4)])) by zlia.
  read_step R1. read_step R2.
  rewrite (proj2 (Z.ltb_ge _ _)) by (unfold OP_SCAN_STREAM; lia).
  read_step (take_bytes_reads key). read_step (take_bytes_reads v). read_done.
Qed.

(** A frame decodes from the head of a longer buffer too. *)
Lemma OpFrame_decode_encode f ext :
  OpFrame_ok f -> frame_fits (OpFrame_encode f ++ ext) -> OpFrame_decode (OpFrame_encode f ++ ext) = Some f.
Proof.
  intros (Hops & Hn & _) F. destruct f as [ops]; simpl in *.
  unfold OpFrame_encode, OpFrame_decode in *; simpl in *.
  rewrite (fold_left_concat _ _ _ encode_op_app), <- app_assoc in *.
  pose proof (zlen_nonneg ops).
  rewrite (reads_start _ _ _ _ (put_len_reads (zlen ops) ltac:(lia)) F). simpl.
  assert (reads (decode_items decode_op (length ops)) (concat (map (encode_op []) ops)) ops) as R.
  { apply decode_items_reads. eapply Forall_impl; [done|]. apply decode_op_reads. }
  replace (Z.to_nat (zlen ops)) with (length ops) by (unfold zlen; lia). by read_step R.
Qed.

(** A request frame a sender can build is decoded by the receiver to the
    operations that were framed, in order, with their keys and values; two
    different frames are never encoded alike. *)
Theorem OpFrame_roundtrip f g :
  OpFrame_ok f -> OpFrame_ok g ->
  OpFrame_decode (OpFrame_encode f) = Some f /\ (OpFrame_encode f = OpFrame_encode g -> f = g).
Proof.
  intros Hf Hg.
  assert (forall h, OpFrame_ok h -> OpFrame_decode (OpFrame_encode h) = Some h) as D.
  { intros h Hh. pose proof (OpFrame_decode_encode h [] Hh) as E. rewrite app_nil_r in E. apply E, Hh. }
  split; [by apply D|]. intros E. apply (f_equal OpFrame_decode) in E. rewrite !D in E by done. congruence.
Qed.

Lemma get_op_header_local frame ext pos t k v p :
  get_op_header frame pos = Some (t, k, v, p) ->
  pos <= p <= zlen frame /\ get_op_header (frame ++ ext) pos = Some (t, k, v, p).
Proof.
  unfold get_op_header. destruct (Z.leb_spec (zlen frame) pos) as [|L]; [done|].
  rewrite (proj2 (Z.leb_gt _ _)) by zlia. intros H.
  apply bind_Some in H as (b & E & H). rewrite (byte_at_weaken _ _ _ _ E). simpl.
  apply bind_Some in H as ([kl q] & E1 & H). apply bind_Some in H as ([vl r] & E2 & [= <- <- <- <-]).
  destruct (get_len_local _ ext _ _ _ E1) as [? ->]. simpl.
  destruct (get_len_local _ ext _ _ _ E2) as [? ->]. simpl. split; [lia|done].
Qed.

Lemma decode_op_local : local_reader decode_op.
Proof.
  intros frame ext pos op p H. unfold decode_op in *.
  apply bind_Some in H as ([[[t k] v] q] & E & H).
  destruct (get_op_header_local _ ext _ _ _ _ _ E) as [? ->]. simpl in *.
  destruct (OP_SCAN_STREAM <? t); [done|].
  apply bind_Some in H as ([key r] & E1 & H). apply bind_Some in H as ([vl s] & E2 & [= <- <-]).
  destruct (take_bytes_local _ _ ext _ _ _ E1) as [? ->]. simpl.
  destruct (take_bytes_local _ _ ext _ _ _ E2) as [? ->]. simpl. split; [lia|done].
Qed.

(** A decoded frame, with the bytes its operations occupy at the least. *)
Definition op_weight (op : Op) : Z := let '(_, key, v) := op in 3 + zlen key + zlen v.

Definition frame_weight (f : OpFrame) : Z :=
  fold_right (λ op n, op_weight op + n) 0 (frame_ops f).

Lemma take_bytes_len frame pos n v p : take_bytes frame pos n = Some (v, p) -> zlen v = n /\ p = pos + n.
Proof.
  unfold take_bytes. repeat case_match; try done. intros H1.
  apply bind_Some in H1 as (r & E & [= <- <-]). apply slice_length in E. lia.
Qed.

Lemma get_len_advance frame pos v p : get_len frame pos = Some (v, p) -> pos + 1 <= p.
Proof.
  unfold get_len. destruct (zlen frame <=? pos); [done|]. intros H.
  apply bind_Some in H as (b & _ & H). repeat case_match; simplify_eq; try lia;
  apply bind_Some in H as (r & _ & [= <- <-]); lia.
Qed.

Lemma decode_op_weight frame pos op p :
  decode_op frame pos = Some (op, p) -> pos + op_weight op <= p.
Proof.
  unfold decode_op, get_op_header. intros H.
  apply bind_Some in H as ([[[t k] v] q] & E & H).
  destruct (zlen frame <=? pos); [done|].
  apply bind_Some in E as (b & _ & E). apply bind_Some in E as ([kl q1] & E1 & E).
  apply bind_Some in E as ([vl q2] & E2 & [= <- <- <- <-]).
  apply get_len_advance in E1, E2. destruct (OP_SCAN_STREAM <? _); [done|].
  apply bind_Some in H as ([key r] & E3 & H). apply bind_Some in H as ([vb s] & E4 & [= <- <-]).
  apply take_bytes_len in E3, E4. unfold op_weight. lia.
Qed.

Lemma decode_ops_weight n frame pos ops p :
  decode_items decode_op n frame pos = Some (ops, p) ->
  pos + frame_weight (mkOpFrame ops) <= p.
Proof.
  revert pos ops. unfold frame_weight. induction n as [|n IH]; intros pos ops; simpl.
  - intros [= <- <-]. simpl. lia.
  - intros H. apply bind_Some in H as ([op q] & E & H).
    apply bind_Some in H as ([ops' r] & E2 & [= <- <-]).
    apply decode_op_weight in E. apply IH in E2. simpl in *. lia.
Qed.

(** What a decoded frame makes the receiver hold fits in the bytes received. *)
Theorem OpFrame_decode_bounded frame f :
  OpFrame_decode frame = Some f ->
  Forall (λ op : Op, op.1.1 <= OP_SCAN_STREAM) (frame_ops f) /\ 1 + frame_weight f <= zlen frame.
Proof.
  unfold OpFrame_decode. intros H. apply bind_Some in H as ([count pos] & E & H).
  apply bind_Some in H as ([ops p] & E2 & [= <-]). simpl. split.
  - clear E. revert pos ops E2. induction (Z.to_nat count) as [|n IH]; intros pos ops; simpl.
    + by intros [= <- <-].
    + intros H. apply bind_Some in H as ([op q] & E & H).
      apply bind_Some in H as ([ops' r] & E2 & [= <- <-]). constructor; [|by eapply IH].
      unfold decode_op in E. apply bind_Some in E as ([[[t k] v] q'] & _ & E).
      destruct (Z.ltb_spec OP_SCAN_STREAM t); [done|].
      apply bind_Some in E as ([key r1] & _ & E). by apply bind_Some in E as ([vb s] & _ & [= <- _]).
  - pose proof (decode_ops_weight _ _ _ _ _ E2).
    pose proof (get_len_advance _ _ _ _ E). pose proof (get_len_local _ [] _ _ _ E) as [B _].
    pose proof (decode_items_local _ _ _ [] _ _ _ decode_op_local (proj2 B) E2) as [B2 _]. lia.
Qed.

(** A frame cut short anywhere is rejected. *)
Theorem OpFrame_truncated f frame ext :
  OpFrame_ok f -> ext <> [] -> OpFrame_encode f = frame ++ ext -> OpFrame_decode frame = None.
Proof.
  intros (Hops & Hn & F) Hext E. destruct (OpFrame_decode frame) as [g|] eqn:D; [|done]. exfalso.
  unfold OpFrame_decode in D. apply bind_Some in D as ([count pos] & E1 & D).
  apply bind_Some in D as ([ops p] & E2 & _).
  pose proof (get_len_local _ ext _ _ _ E1) as [B1 E1'].
  pose proof (decode_items_local _ _ _ ext _ _ _ decode_op_local (proj2 B1) E2) as [B2 E2'].
  rewrite <- E in *. unfold OpFrame_encode in *.
  rewrite (fold_left_concat _ _ _ encode_op_app) in *. rewrite <- (app_nil_r (concat _)) in *.
  pose proof (zlen_nonneg (frame_ops f)).
  pose proof (put_len_reads (zlen (frame_ops f)) ltac:(lia)) as R0.
  rewrite (reads_start _ _ _ _ R0 F) in E1'. injection E1' as <- <-.
  replace (Z.to_nat (zlen (frame_ops f))) with (length (frame_ops f)) in E2' by (unfold zlen; lia).
  assert (reads (decode_items decode_op (length (frame_ops f)))
    (concat (map (encode_op []) (frame_ops f))) (frame_ops f)) as R.
  { apply decode_items_reads. eapply Forall_impl; [done|]. apply decode_op_reads. }
  rewrite (R _ _ F) in E2'. injection E2' as _ <-. rewrite app_nil_r in *.
  apply (f_equal zlen) in E. destruct ext; [done|]. zlia.
Qed.

(** ** Response frames *)

Definition short (b : bytes) : Prop := zlen b < 2 ^ 32.

(** The answers a receiver builds: a fault alone, a page, or a plain answer. *)
Definition OpResponse_ok (r : OpResponse) : Prop :=
  frame_fits (OpResponse_encode r) /\
  match fault r, tail r with
  | Some text, _ =>
      utf8_valid text = true /\ short text /\
      r = mkOpResponse None [] [] None (Some text)
  | None, Some t =>
      (t = TAIL_MORE \/ t = TAIL_FINAL) /\ suffixes r = [] /\
      from_option short True (value r) /\ zlen (hits r) < 2 ^ 32 /\
      Forall (λ h, short h.1 /\ short h.2) (hits r)
  | None, None =>
      hits r = [] /\ from_option short True (value r) /\
      zlen (suffixes r) < 2 ^ 32 /\ Forall short (suffixes r)
  end.

(** The sender knows which operation it issued, so it knows which grammar the
    answer is in. *)
Definition decode_answer (chunk : bool) (frame : bytes) : option OpResponse :=
  if chunk then OpResponse_decode_chunk frame else OpResponse_decode frame.

Lemma encode_suffix_app buf s : encode_suffix buf s = buf ++ encode_suffix [] s.
Proof. unfold encode_suffix. by rewrite put_len_app, <- app_assoc. Qed.

Lemma encode_hit_app buf h : encode_hit buf h = buf ++ encode_hit [] h.
Proof.
  destruct h as [k v]. unfold encode_hit.
  rewrite (put_len_app (put_len _ _ ++ _)), (put_len_app buf).
  rewrite (put_len_app (put_len _ _ ++ _) (zlen v)). by rewrite <- !app_assoc.
Qed.

Lemma short_reads b : short b -> reads get_len (put_len [] (zlen b)) (zlen b).
Proof. unfold short. intros. apply put_len_reads. zlia. Qed.

Lemma decode_suffix_reads s : short s -> reads decode_suffix (encode_suffix [] s) s.
Proof.
  intros Hs pre rest F. unfold decode_suffix, encode_suffix in *. rewrite <- app_assoc in *.
  read_step (short_reads s Hs). rewrite (take_bytes_reads s _ _ F). read_done.
Qed.

Lemma decode_hit_reads h : short h.1 /\ short h.2 -> reads decode_hit (encode_hit [] h) h.
Proof.
  destruct h as [k v]. intros [Hk Hv] pre rest F. unfold decode_hit, encode_hit in *.
  rewrite (put_len_app (_ ++ _)) in *. rewrite <- !app_assoc in *. simpl in Hk, Hv.
  read_step (short_reads k Hk). read_step (take_bytes_reads k).
  read_step (short_reads v Hv). read_step (take_bytes_reads v). read_done.
Qed.

(** The plain head: the discriminant, the length and the value. *)
Definition encode_head (v : option bytes) : bytes :=
  match v with Some v => put_len [1] (zlen v) ++ v | None => [0] end.

(** A length-prefixed byte string that follows the discriminant byte. *)
Lemma read_after_code code v rest :
  short v -> frame_fits (code :: put_len [] (zlen v) ++ v ++ rest) ->
  get_len (code :: put_len [] (zlen v) ++ v ++ rest) 1 = Some (zlen v, 1 + zlen (put_len [] (zlen v))) /\
  take_bytes (code :: put_len [] (zlen v) ++ v ++ rest) (1 + zlen (put_len [] (zlen v))) (zlen v)
    = Some (v, 1 + zlen (put_len [] (zlen v)) + zlen v).
Proof.
  intros Hv F. split.
  - apply (short_reads v Hv [code] (v ++ rest) F).
  - pose proof (take_bytes_reads v (code :: put_len [] (zlen v)) rest F) as E.
    rewrite zlen_cons in E. exact E.
Qed.

Lemma decode_head_encode v rest :
  from_option short True v -> frame_fits (encode_head v ++ rest) ->
  decode_head (encode_head v ++ rest) = Some (inr (v, zlen (encode_head v))).
Proof.
  intros Hv F. destruct v as [v|]; simpl in *.
  - rewrite put_len_app, <- !app_assoc in *. cbn [app] in *.
    destruct (read_after_code 1 v rest Hv F) as [E1 E2].
    unfold decode_head. change (byte_at _ 0) with (Some 1). cbn [mbind option_bind].
    change (1 =? FAULT_CODE) with false. change (1 =? 0) with false. change (1 =? 1) with true.
    cbn iota. rewrite E1. cbn [mbind option_bind]. rewrite E2. cbn [mbind option_bind].
    do 3 f_equal. zlia.
  - unfold decode_head. by change (byte_at _ 0) with (Some 0).
Qed.

Lemma decode_head_fault text :
  utf8_valid text = true -> short text ->
  frame_fits (put_len [FAULT_CODE] (zlen text) ++ text) ->
  decode_head (put_len [FAULT_CODE] (zlen text) ++ text)
  = Some (inl (mkOpResponse None [] [] None (Some text))).
Proof.
  intros Hu Hs F. rewrite put_len_app, <- !app_assoc in *. cbn [app] in *.
  rewrite <- (app_nil_r text) in F at 2. destruct (read_after_code FAULT_CODE text [] Hs F) as [E1 E2].
  rewrite app_nil_r in *. unfold decode_head. change (byte_at _ 0) with (Some FAULT_CODE).
  cbn [mbind option_bind]. change (FAULT_CODE =? FAULT_CODE) with true. cbn iota.
  rewrite E1. cbn [mbind option_bind]. rewrite E2. cbn [mbind option_bind].
  rewrite (proj2 (Z.eqb_eq _ _)) by zlia. unfold from_utf8. by rewrite Hu.
Qed.

(** A counted section behind a decoded head. *)
Lemma read_section {A} (item : bytes -> Z -> option (A * Z)) (enc : A -> bytes) xs pre rest :
  Forall (λ x, reads item (enc x) x) xs -> zlen xs < 2 ^ 32 ->
  frame_fits (pre ++ put_len [] (zlen xs) ++ concat (map enc xs) ++ rest) ->
  let frame := pre ++ put_len [] (zlen xs) ++ concat (map enc xs) ++ rest in
  ('(count, pos) ← get_len frame (zlen pre);
   decode_items item (Z.to_nat count) frame pos)
  = Some (xs, zlen frame - zlen rest).
Proof.
  intros Hxs Hn F. simpl. pose proof (zlen_nonneg xs).
  pose proof (put_len_reads (zlen xs) ltac:(lia)) as R. read_step R.
  replace (Z.to_nat (zlen xs)) with (length xs) by (unfold zlen; lia).
  rewrite (decode_items_reads item enc xs Hxs _ _ F). do 2 f_equal. zlia.
Qed.

(** Every answer a receiver builds (a plain answer, a stream page, a
    fault) is read back whole by the decoder of its grammar. *)
Theorem OpResponse_roundtrip r :
  OpResponse_ok r ->
  decode_answer (bool_decide (is_Some (tail r))) (OpResponse_encode r) = Some r.
Proof.
  intros [F H]. destruct r as [v sfx hs tl flt]. unfold OpResponse_encode in *. simpl in *.
  destruct flt as [text|].
  - destruct H as (Hu & Hs & [= -> -> -> ->]). simpl.
    unfold OpResponse_decode. by rewrite decode_head_fault.
  - destruct tl as [t|]; simpl; unfold OpResponse_decode, OpResponse_decode_chunk;
      change (match v with Some v => _ | None => _ end) with (encode_head v) in *.
    + destruct H as (Ht & -> & Hv & Hn & Hh).
      rewrite (fold_left_concat _ _ _ encode_hit_app), put_len_app, <- !app_assoc in *.
      rewrite decode_head_encode by done. cbn [mbind option_bind].
      pose proof (read_section decode_hit (encode_hit []) hs (encode_head v) [t]
        (Forall_impl _ _ _ Hh decode_hit_reads) Hn F) as E. cbv zeta in E.
      destruct (get_len _ _) as [[count pos]|]; cbn [mbind option_bind] in *; [|done].
      rewrite E. cbn [mbind option_bind]. rewrite !app_assoc.
      replace (zlen _ - zlen [t]) with (zlen ((encode_head v ++ put_len [] (zlen hs)) ++
        concat (map (encode_hit []) hs))) by zlia.
      rewrite byte_at_app. cbn [mbind option_bind].
      rewrite (proj2 (Z.eqb_eq (_ + 1) _)) by zlia. by destruct Ht as [-> | ->].
    + destruct H as (-> & Hv & Hn & Hs).
      rewrite (fold_left_concat _ _ _ encode_suffix_app), put_len_app, <- !app_assoc in *.
      rewrite decode_head_encode by done. cbn [mbind option_bind].
      rewrite <- (app_nil_r (concat _)) in F |- *.
      pose proof (read_section decode_suffix (encode_suffix []) sfx (encode_head v) []
        (Forall_impl _ _ _ Hs decode_suffix_reads) Hn F) as E. cbv zeta in E.
      destruct (get_len _ _) as [[count pos]|]; cbn [mbind option_bind] in *; [|done].
      rewrite E. cbn [mbind option_bind]. by rewrite (proj2 (Z.eqb_eq _ _)) by zlia.
Qed.

(** A fault is a fault in both grammars, and nothing else decodes to one. *)
Theorem OpResponse_fault_codes chunk frame r :
  decode_answer chunk frame = Some r ->
  (is_Some (fault r) <-> byte_at frame 0 = Some FAULT_CODE).
Proof.
  assert (forall v sfx hs tl code, byte_at frame 0 = Some code -> code <> FAULT_CODE ->
    (is_Some (fault (mkOpResponse v sfx hs tl None)) <-> byte_at frame 0 = Some FAULT_CODE)) as H0.
  { intros v sfx hs tl code Hc Hne. simpl. rewrite Hc. split; [by intros [? ?]|congruence]. }
  assert (match decode_head frame with
    | Some (inl f) => is_Some (fault f) /\ byte_at frame 0 = Some FAULT_CODE
    | Some (inr _) => exists code, byte_at frame 0 = Some code /\ code <> FAULT_CODE
    | None => True end) as H.
  { unfold decode_head. destruct (byte_at frame 0) as [code|] eqn:E0; simpl; [|done].
    destruct (Z.eqb_spec code FAULT_CODE) as [->|Hne].
    - destruct (_ ≫= _) as [[f|]|] eqn:E; [|..|done];
        apply bind_Some in E as ([? ?] & _ & E); apply bind_Some in E as ([? ?] & _ & E);
        destruct (negb _); try done; apply bind_Some in E as (? & _ & [= <-]); by eauto.
    - destruct (Z.eqb_spec code 0); [by eauto|]. destruct (Z.eqb_spec code 1); [|done].
      destruct (get_len frame 1) as [[? ?]|]; simpl; [|done].
      destruct (take_bytes _ _ _) as [[? ?]|]; simpl; by eauto. }
  intros D. destruct chunk; simpl in D; unfold OpResponse_decode, OpResponse_decode_chunk in D;
    apply bind_Some in D as ([f|[v pos]] & E & D); rewrite E in H;
    try (injection D as <-; naive_solver); destruct H as (code & Hc & Hne);
    apply bind_Some in D as ([? ?] & _ & D); apply bind_Some in D as ([? ?] & _ & D);
    [apply bind_Some in D as (? & _ & D)|]; destruct (_ || _) || destruct (negb _); try done;
    injection D as <-; by eapply H0.
Qed.

(** * Witnesses *)

Definition sample_frame : OpFrame := mkOpFrame [(OP_PUT, [1], [2; 3]); (OP_GET, [4], [])].

Definition sample_page : OpResponse := mkOpResponse (Some [5]) [] [([1], [2])] (Some TAIL_MORE) None.

Lemma sample_frame_ok : OpFrame_ok sample_frame.
Proof.
  split; [|split; [done|by vm_compute]].
  repeat constructor; unfold OP_PUT, OP_GET, OP_SCAN_STREAM; try done; by vm_compute.
Qed.

Lemma OpFrame_roundtrip_witness : OpFrame_decode (OpFrame_encode sample_frame) = Some sample_frame.
Proof. exact (proj1 (OpFrame_roundtrip sample_frame sample_frame sample_frame_ok sample_frame_ok)). Defined.

Lemma OpFrame_decode_bounded_witness : 1 + frame_weight sample_frame <= zlen (OpFrame_encode sample_frame).
Proof. refine (proj2 (OpFrame_decode_bounded (OpFrame_encode sample_frame) sample_frame _)). by vm_compute. Defined.

Lemma OpFrame_truncated_witness : OpFrame_decode (removelast (OpFrame_encode sample_frame)) = None.
Proof.
  refine (OpFrame_truncated sample_frame _ [4] sample_frame_ok _ _); [done|by vm_compute].
Defined.

Lemma OpResponse_roundtrip_witness : decode_answer true (OpResponse_encode sample_page) = Some sample_page.
Proof.
  refine (OpResponse_roundtrip sample_page _). split; [by vm_compute|]. simpl.
  split; [by left|]. split; [done|]. split; [by vm_compute|]. split; [by vm_compute|].
  repeat constructor; by vm_compute.
Defined.

Lemma OpResponse_fault_codes_witness :
  is_Some (fault (mkOpResponse None [] [] None (Some [65]))) <->
  byte_at (OpResponse_encode (mkOpResponse None [] [] None (Some [65]))) 0 = Some FAULT_CODE.
Proof. refine (OpResponse_fault_codes true _ _ _). by vm_compute. Defined.
