(* ===== verification/VarInt.v ===== *)
(** * The prefix-monotonic variable-length integer (okm-core, [wrappers/wire.rs],
    [wrappers/varint.rs])

    The number of leading one bits of the first byte is the width, what follows
    is big-endian.  [put_len] and [take_len] are the frame-length codec,
    [varint_encode] and [varint_decode] the field codec.  The theorems: width and
    value round trip, byte order is value order, and what happens in the width-8
    bucket, where the source shifts a [u8] by its own width. *)
From S2P Require Import Prelude.

(** [0xFF >> w] at type [u8]. *)
Definition shr_u8 (p : profile) (a n : Z) : outcome unit Z :=
  if n <? 8 then Ok (Z.shiftr a n)
  else match p with
       | Debug => Panic
       | Release => Ok (Z.shiftr a (n mod 8))
       end.

(** [u8::leading_ones] *)
Fixpoint leading_ones (n : nat) (b : Z) : Z :=
  match n with
  | O => 0
  | S n => if Z.testbit b (Z.of_nat n) then 1 + leading_ones n b else 0
  end.

Definition prefix_width (first : Z) : Z := leading_ones 8 first + 1.

Definition prefix (w : Z) : Z :=
  if 9 <=? w then 0xFF
  else wrap 8 (Z.shiftr (Z.lxor 0xFFFF (Z.shiftr 0xFFFF (w - 1))) 8).

Definition payload_bits (w : Z) : Z := (w - 1) * 8 + (8 - w).

(** The loop of [width_of]; [fuel] counts the widths left to try, and 8 are
    enough ([width_of_spec]). *)
Fixpoint width_loop (fuel : nat) (w v : Z) : Z :=
  match fuel with
  | O => w
  | S fuel =>
      if v <? Z.shiftl 1 (payload_bits w) then w else width_loop fuel (w + 1) v
  end.

Definition width_of (v : Z) : Z :=
  if Z.shiftl 1 56 <=? v then 9 else width_loop 8 1 v.

(** [lb[8 - (w - 1)..]]: the low [w - 1] bytes of a [u64]. *)
Definition low_bytes (w v : Z) : bytes := drop (Z.to_nat (8 - (w - 1))) (be_bytes 8 v).

(** [put_len]: append the encoding of a length. *)
Definition put_len (p : profile) (buf : bytes) (len : Z) : outcome unit bytes :=
  let v := len in
  let w := width_of v in
  if w =? 9 then Ok (buf ++ [0xFF] ++ be_bytes 8 v)
  else
    mask ← shr_u8 p 0xFF w;
    let buf := buf ++ [Z.lor (prefix w) (Z.land (wrap 8 (Z.shiftr v ((w - 1) * 8))) mask)] in
    let low := Z.land v (Z.shiftl 1 ((w - 1) * 8) - 1) in
    Ok (buf ++ low_bytes w low).

(** The value behind a first byte of width [w]. *)
Definition varint_value (p : profile) (b : bytes) (w : Z) : outcome unit Z :=
  if w =? 9 then
    Ok (be_val (take 8 (drop 1 b)))
  else
    mask ← shr_u8 p 0xFF w;
    let hi := Z.land (nth 0 b 0) mask in
    let low := be_val (take (Z.to_nat (w - 1)) (drop 1 b)) in
    Ok (Z.lor (wrap 64 (Z.shiftl hi (payload_bits w - (8 - w)))) low).

(** [take_len]: the length and the bytes consumed; [None] on truncated input. *)
Definition take_len (p : profile) (b : bytes) : outcome unit (option (Z * Z)) :=
  match b with
  | [] => Ok None
  | first :: _ =>
      let w := prefix_width first in
      if zlen b <? w then Ok None
      else v ← varint_value p b w; Ok (Some (v, w))
  end.

(** [varint_encode] of a value of an unsigned type, widened to [u64]. *)
Definition varint_encode (p : profile) (v : Z) (buf : bytes) : outcome unit bytes :=
  let w := width_of v in
  if w =? 9 then Ok (buf ++ 0xFF :: be_bytes 8 v)
  else
    mask ← shr_u8 p 0xFF w;
    let first := Z.lor (prefix w) (Z.land (wrap 8 (Z.shiftr v ((w - 1) * 8))) mask) in
    let low := Z.land v (Z.shiftl 1 ((w - 1) * 8) - 1) in
    Ok (buf ++ first :: low_bytes w low).

(** [varint_decode] at an unsigned type of [bits] bits: the value and the bytes
    consumed; it panics on truncated input. *)
Definition varint_decode (p : profile) (bits : Z) (b : bytes) : outcome unit (Z * Z) :=
  match b with
  | [] => Panic
  | first :: _ =>
      let w := prefix_width first in
      if zlen b <? w then Panic
      else v ← varint_value p b w; Ok (wrap bits v, w)
  end.

(** * Lemmas *)

(** The width-8 bucket, [2^49 .. 2^56 - 1]. *)
Definition width8 (v : Z) : Prop := 2 ^ 49 <= v < 2 ^ 56.

Lemma width_of_spec v :
  0 <= v < 2 ^ 64 ->
  1 <= width_of v <= 9 /\
  (width_of v = 9 <-> 2 ^ 56 <= v) /\
  (width_of v <= 8 -> 2 ^ (7 * (width_of v - 1)) <= v \/ width_of v = 1) /\
  (width_of v <= 8 -> v < 2 ^ (7 * width_of v)).
Proof.
  intros H. unfold width_of. change (Z.shiftl 1 56) with (2 ^ 56).
  destruct (Z.leb_spec (2 ^ 56) v); [lia|].
  simpl width_loop. unfold payload_bits.
  change (Z.shiftl 1 _) with (2 ^ 7) at 1.
  repeat match goal with
  | |- context [v <? ?b] => let x := eval vm_compute in b in change b with x;
      destruct (Z.ltb_spec v x)
  end; lia.
Qed.

Lemma width8_width v : width8 v -> width_of v = 8.
Proof.
  unfold width8. intros N8. destruct (width_of_spec v ltac:(lia)) as (Hw & H9 & Hl & Hu).
  destruct (Z.eq_dec (width_of v) 8) as [|N]; [done|]. assert (width_of v <= 7) by lia.
  specialize (Hu ltac:(lia)). pose proof (Z.pow_le_mono_r 2 (7 * width_of v) 49). lia.
Qed.

(** The encoding is one big-endian word: the value under the width's prefix. *)
Definition encoded (v : Z) : bytes :=
  let w := width_of v in be_bytes (Z.to_nat w) (prefix w * 256 ^ (w - 1) + v).

Lemma lor_prefix w h :
  1 <= w <= 9 -> 0 <= h < 2 ^ (8 - w) ->
  Z.lor (prefix w) h = prefix w + h /\ prefix_width (prefix w + h) = w /\
  0 <= prefix w + h < 256 /\
  Z.land (prefix w + h) (2 ^ (8 - w) - 1) = h.
Proof.
  intros Hw Hh.
  assert (forall w, 1 <= w < 1 + 9 -> forallb (λ h,
    (Z.lor (prefix w) h =? prefix w + h) && (prefix_width (prefix w + h) =? w)
    && (0 <=? prefix w + h) && (prefix w + h <? 256)
    && (Z.land (prefix w + h) (2 ^ (8 - w) - 1) =? h)) (seqZ 0 (2 ^ (8 - w))) = true) as T.
  { apply Z_range_forall. vm_compute. reflexivity. }
  specialize (T w ltac:(lia)).
  pose proof (Z_range_forall _ _ _ T h ltac:(lia)) as E. simpl in E.
  rewrite !andb_true_iff, !Z.eqb_eq, Z.leb_le, Z.ltb_lt in E. lia.
Qed.

(** The high bits of [v] that share the first byte with the width. *)
Lemma high_bits v :
  0 <= v < 2 ^ 64 ->
  let w := width_of v in
  exists n, w = Z.of_nat (S n) /\ 256 ^ (w - 1) = 256 ^ Z.of_nat n /\
  0 <= v / 256 ^ Z.of_nat n < 2 ^ (8 - w) + (if w =? 9 then 1 else 0).
Proof.
  intros H w. destruct (width_of_spec v H) as (Hw & H9 & _ & Hu). fold w in Hw, H9, Hu.
  exists (Z.to_nat (w - 1)). split; [lia|]. rewrite Z2Nat.id by lia. split; [done|].
  split; [apply Z.div_pos; [lia|apply Z.pow_pos_nonneg; lia]|].
  change 256 with (2 ^ 8). rewrite <- Z.pow_mul_r by lia.
  destruct (Z.eqb_spec w 9) as [->|].
  - simpl. apply Z.div_lt_upper_bound; lia.
  - rewrite Z.add_0_r. apply Z.div_lt_upper_bound; [apply Z.pow_pos_nonneg; lia|].
    rewrite <- Z.pow_add_r by lia. eapply Z.lt_le_trans; [apply Hu; lia|].
    apply Z.pow_le_mono_r; lia.
Qed.

Lemma encoded_cons v :
  0 <= v < 2 ^ 64 ->
  let w := width_of v in
  let n := Z.to_nat (w - 1) in
  encoded v = prefix w + v / 256 ^ Z.of_nat n :: be_bytes n v.
Proof.
  intros H w n. destruct (high_bits v H) as (m & Hm & Hp & Hh).
  fold w in Hm, Hp, Hh. assert (m = n) as -> by lia.
  destruct (width_of_spec v H) as (Hw & H9 & _). fold w in Hw, H9.
  unfold encoded. fold w. rewrite Hp. replace (Z.to_nat w) with (S n) by lia.
  rewrite be_bytes_S, be_bytes_add by lia. f_equal.
  pose proof (pow256_pos n). rewrite Z.div_add_l by lia. apply Z.mod_small.
  destruct (Z.eqb_spec w 9) as [E|].
  - rewrite E in *. change (8 - 9) with (-1) in Hh. change (2 ^ (-1)) with 0 in Hh.
    assert (prefix 9 = 255) by done. lia.
  - apply lor_prefix; lia.
Qed.

(** Masking keeps the high bits whole, except where a debug build panics. *)
Lemma shr_u8_high p v :
  0 <= v < 2 ^ 64 -> width_of v <> 9 -> (p = Debug -> ~ width8 v) ->
  let w := width_of v in
  exists mask, shr_u8 p 0xFF w = Ok mask /\
  Z.land (wrap 8 (Z.shiftr v ((w - 1) * 8))) mask = v / 256 ^ Z.of_nat (Z.to_nat (w - 1)) /\
  (w <= 7 -> mask = 2 ^ (8 - w) - 1).
Proof.
  intros H N9 Hp w. destruct (high_bits v H) as (m & Hm & Hpw & Hh).
  fold w in Hm, Hpw, Hh. assert (m = Z.to_nat (w - 1)) as -> by lia.
  destruct (width_of_spec v H) as (Hw & H9 & Hl & Hu). fold w in Hw, H9, Hl, Hu, N9.
  rewrite (proj2 (Z.eqb_neq _ _) N9), Z.add_0_r in Hh.
  rewrite Z.shiftr_div_pow2, Z.mul_comm, Z.pow_mul_r by lia. change (2 ^ 8) with 256.
  rewrite Hpw. remember (v / _) as h eqn:Eh. clear Eh.
  assert (h < 256) by (pose proof (Z.pow_le_mono_r 2 (8 - w) 7); lia).
  rewrite wrap_small by lia. unfold shr_u8.
  destruct (Z.ltb_spec w 8).
  - exists (Z.shiftr 255 w). split; [done|].
    assert (Z.shiftr 255 w = 2 ^ (8 - w) - 1) as E.
    { assert (w = 1 \/ w = 2 \/ w = 3 \/ w = 4 \/ w = 5 \/ w = 6 \/ w = 7) as C by lia.
      by destruct C as [->|[->|[->|[->|[->|[->| ->]]]]]]. }
    split; [|done]. rewrite E. change (2 ^ (8 - w) - 1) with (Z.pred (2 ^ (8 - w))).
    rewrite <- Z.ones_equiv, Z.land_ones by lia. apply Z.mod_small. lia.
  - assert (w = 8) as -> by lia. destruct p.
    + exfalso. apply Hp; [done|]. unfold width8. lia.
    + exists 255. split; [done|]. assert (h = 0) as -> by lia. split; [done|lia].
Qed.

Lemma low_bytes_mod w v :
  1 <= w <= 8 -> low_bytes w (Z.land v (Z.shiftl 1 ((w - 1) * 8) - 1))
  = be_bytes (Z.to_nat (w - 1)) v.
Proof.
  intros Hw. unfold low_bytes.
  rewrite Z.shiftl_mul_pow2, Z.mul_1_l by lia.
  change (2 ^ ((w - 1) * 8) - 1) with (Z.pred (2 ^ ((w - 1) * 8))).
  rewrite <- Z.ones_equiv, Z.land_ones, Z.mul_comm, Z.pow_mul_r by lia. change (2 ^ 8) with 256.
  replace 8%nat with (Z.to_nat (8 - (w - 1)) + Z.to_nat (w - 1))%nat by lia.
  rewrite drop_be_bytes. replace (w - 1) with (Z.of_nat (Z.to_nat (w - 1))) at 2 by lia.
  by apply be_bytes_mod.
Qed.

Lemma varint_encode_encoded p v buf :
  0 <= v < 2 ^ 64 -> (p = Debug -> ~ width8 v) ->
  varint_encode p v buf = Ok (buf ++ encoded v).
Proof.
  intros H Hp. unfold varint_encode. rewrite encoded_cons by done. cbv zeta.
  destruct (width_of_spec v H) as (Hw & H9 & _).
  destruct (Z.eqb_spec (width_of v) 9) as [E|E].
  - rewrite E. simpl Z.sub. change (Z.to_nat 8) with 8%nat.
    change (256 ^ Z.of_nat 8) with (2 ^ 64). rewrite (Z.div_small v) by (apply H). done.
  - destruct (shr_u8_high p v H E Hp) as (mask & -> & Hm & _). cbn [mbind outcome_bind].
    rewrite Hm, low_bytes_mod by lia. destruct (high_bits v H) as (m & Em & _ & Hh).
    assert (m = Z.to_nat (width_of v - 1)) as -> by lia.
    rewrite (proj2 (Z.eqb_neq _ _) E), Z.add_0_r in Hh.
    destruct (lor_prefix (width_of v) _ ltac:(lia) Hh) as [-> _]. done.
Qed.

Lemma put_len_varint p buf v : put_len p buf v = varint_encode p v buf.
Proof.
  unfold put_len, varint_encode. destruct (_ =? 9); [done|].
  destruct (shr_u8 _ _ _); simpl; [|done..]. by rewrite <- app_assoc.
Qed.

Lemma encoded_zlen v : 0 <= v < 2 ^ 64 -> zlen (encoded v) = width_of v.
Proof.
  intros H. destruct (width_of_spec v H) as (Hw & _). unfold encoded.
  rewrite be_bytes_zlen. lia.
Qed.

Lemma encoded_ok v : bytes_ok (encoded v).
Proof. apply be_bytes_ok. Qed.

(** Whatever is written is bytes. *)
Lemma varint_bytes p v buf e : 0 <= v -> bytes_ok buf -> varint_encode p v buf = Ok e -> bytes_ok e.
Proof.
  intros Hv Hb D. destruct (decide (v < 2 ^ 64)) as [Lt|Ge].
  - destruct p, (decide (width8 v)) as [W|N]; try (rewrite varint_encode_encoded in D by done; injection D as <-;
      apply Forall_app; by split; [|apply encoded_ok]).
    unfold varint_encode in D. by rewrite width8_width in D.
  - unfold varint_encode, width_of in D. change (Z.shiftl 1 56) with (2 ^ 56) in D.
    rewrite (proj2 (Z.leb_le _ _)) in D by lia. injection D as <-. apply Forall_app. split; [done|].
    constructor; [unfold byte_ok; lia|apply be_bytes_ok].
Qed.

Lemma encoded_width v :
  0 <= v < 2 ^ 64 -> prefix_width (prefix (width_of v) + v / 256 ^ (width_of v - 1)) = width_of v.
Proof.
  intros H. destruct (high_bits v H) as (m & Em & -> & Hh).
  destruct (width_of_spec v H) as (Hw & _). destruct (Z.eqb_spec (width_of v) 9) as [E|E].
  - rewrite E in *. change (8 - 9) with (-1) in Hh. change (2 ^ (-1)) with 0 in Hh.
    by replace (v / 256 ^ Z.of_nat m) with 0 by lia.
  - rewrite Z.add_0_r in Hh. by apply lor_prefix.
Qed.

(** The value read back from an encoding, [w] being its width. *)
Lemma varint_value_encoded p v rest :
  0 <= v < 2 ^ 64 -> ~ width8 v ->
  varint_value p (encoded v ++ rest) (width_of v) = Ok v.
Proof.
  intros H N8. rewrite encoded_cons by done. cbv zeta. unfold varint_value.
  destruct (width_of_spec v H) as (Hw & H9 & _).
  destruct (Z.eqb_spec (width_of v) 9) as [E|E].
  - rewrite E. cbn [app drop]. change (Z.to_nat (9 - 1)) with 8%nat.
    rewrite ?drop_0, take_be_bytes, be_val_be_bytes_small; [done|]. change (256 ^ Z.of_nat 8) with (2 ^ 64). lia.
  - destruct (shr_u8_high p v H E ltac:(done)) as (mask & -> & _ & Hm).
    destruct (width_of_spec v H) as (_ & _ & Hl & Hu).
    assert (width_of v <= 7) as H7.
    { destruct (Z.eq_dec (width_of v) 8) as [E8|]; [|lia]. rewrite E8 in *.
      destruct N8. unfold width8. lia. }
    rewrite Hm by done. destruct (high_bits v H) as (m & Em & Hp & Hh).
    assert (m = Z.to_nat (width_of v - 1)) as -> by lia.
    rewrite (proj2 (Z.eqb_neq _ _) E), Z.add_0_r in Hh.
    cbn [mbind outcome_bind app nth drop].
    destruct (lor_prefix (width_of v) _ ltac:(lia) Hh) as (_ & _ & _ & ->).
    rewrite ?drop_0, take_be_bytes, be_val_be_bytes. unfold payload_bits.
    pose proof (pow256_pos (Z.to_nat (width_of v - 1))) as Hpos.
    pose proof (Z.mod_pos_bound v _ Hpos). pose proof (Z.div_mod v (256 ^ Z.of_nat (Z.to_nat (width_of v - 1))) ltac:(lia)) as DM.
    set (h := v / _) in *. set (l := v mod _) in *.
    replace ((width_of v - 1) * 8 + (8 - width_of v) - (8 - width_of v)) with (8 * (width_of v - 1)) by lia.
    assert (2 ^ (8 * (width_of v - 1)) = 256 ^ Z.of_nat (Z.to_nat (width_of v - 1))) as E2.
    { rewrite Z.pow_mul_r by lia. change (2 ^ 8) with 256. f_equal. lia. }
    rewrite wrap_small by (rewrite Z.shiftl_mul_pow2, E2 by lia; nia).
    rewrite lor_shift_add by lia. f_equal. lia.
Qed.

(** ** The codec *)

Lemma take_len_encoded p v rest :
  0 <= v < 2 ^ 64 -> ~ width8 v ->
  take_len p (encoded v ++ rest) = Ok (Some (v, zlen (encoded v))).
Proof.
  intros H N8. unfold take_len.
  pose proof (varint_value_encoded p v rest H N8) as V. pose proof (encoded_zlen v H) as L.
  rewrite encoded_cons in * by done. cbv zeta in *. cbn [app].
  destruct (high_bits v H) as (m & Em & Hp & _). assert (m = Z.to_nat (width_of v - 1)) as -> by lia.
  pose proof (encoded_width v H) as W. rewrite Hp in W. rewrite W.
  rewrite (proj2 (Z.ltb_ge _ _)) by (rewrite zlen_cons, zlen_app in *; zlia).
  cbn [app] in V. rewrite V. cbn [mbind outcome_bind]. by rewrite L.
Qed.

(** A length short of [2 ^ 49] is written in both builds, at most 9 bytes, and
    read back with whatever follows it. *)
Lemma put_take_len p buf n :
  0 <= n < 2 ^ 49 ->
  put_len p buf n = Ok (buf ++ encoded n) /\ 1 <= zlen (encoded n) <= 9 /\
  forall rest, take_len p (encoded n ++ rest) = Ok (Some (n, zlen (encoded n))).
Proof.
  intros Hn. assert (0 <= n < 2 ^ 64) as H by lia. assert (~ width8 n) as N8 by (unfold width8; lia).
  rewrite put_len_varint, varint_encode_encoded by done. split; [done|].
  rewrite encoded_zlen by done. destruct (width_of_spec n H) as (W & _). split; [done|].
  intros rest. rewrite take_len_encoded, encoded_zlen by done. done.
Qed.

(** Whatever the bytes, a length read lies inside them. *)
Lemma take_len_inside p b :
  match take_len p b with
  | Ok (Some (n, w)) => 1 <= w <= zlen b
  | Ok None | Panic => True
  | Err _ => False
  end.
Proof.
  unfold take_len. destruct b as [|x b]; [done|].
  assert (forall n y, 0 <= leading_ones n y) as P.
  { induction n as [|n IH]; intros y; simpl; [lia|]. destruct (Z.testbit y _); [specialize (IH y)|]; lia. }
  specialize (P 8%nat x). unfold prefix_width. generalize dependent (leading_ones 8 x). intros w P. destruct (Z.ltb_spec (zlen (x :: b)) (w + 1)); [done|].
  unfold varint_value, shr_u8. destruct (_ =? 9); simpl; [lia|].
  destruct (_ <? 8); simpl; [lia|]. destruct p; simpl; [done|lia].
Qed.

(** An encoded value comes back and says where it ends. *)
Lemma varint_encode_decode p bits v rest :
  bits <= 64 -> 0 <= v < 2 ^ bits -> ~ width8 v ->
  exists enc, varint_encode p v [] = Ok enc /\ zlen enc = width_of v /\
  varint_decode p bits (enc ++ rest) = Ok (v, zlen enc) /\
  take_len p (enc ++ rest) = Ok (Some (v, zlen enc)).
Proof.
  intros Hb Hv N8.
  assert (0 <= v < 2 ^ 64) as H by (pose proof (Z.pow_le_mono_r 2 bits 64); lia).
  exists (encoded v). rewrite varint_encode_encoded by done. split; [done|].
  rewrite encoded_zlen by done. split; [done|].
  pose proof (take_len_encoded p v rest H N8) as T. rewrite encoded_zlen in T by done. split; [|done].
  unfold take_len in T. unfold varint_decode. destruct (encoded v ++ rest) as [|x b]; [done|].
  destruct (_ <? _); [done|]. destruct (varint_value p (x :: b) _) as [y|?|]; simpl in *; [|done..].
  injection T as -> ->. by rewrite wrap_small.
Qed.

(** C40: outside the width-8 bucket an unsigned value of any declared width comes
    back, in both builds, and the encoding says where it ends. *)
Theorem varint_roundtrip p bits v rest :
  bits <= 64 -> 0 <= v < 2 ^ bits -> ~ width8 v ->
  exists enc, varint_encode p v [] = Ok enc /\ zlen enc = width_of v /\
  varint_decode p bits (enc ++ rest) = Ok (v, zlen enc) /\
  take_len p (enc ++ rest) = Ok (Some (v, zlen enc)).
Proof. apply varint_encode_decode. Qed.

Lemma width_of_mono u v : 0 <= u -> u < v -> v < 2 ^ 64 -> width_of u <= width_of v.
Proof.
  intros Hu L Hv. destruct (width_of_spec u ltac:(lia)) as (Wu & Nu & Lu & Uu).
  destruct (width_of_spec v ltac:(lia)) as (Wv & Nv & Lv & Uv).
  destruct (Z.le_gt_cases (width_of u) (width_of v)) as [|G]; [done|]. exfalso.
  specialize (Uv ltac:(lia)). assert (2 ^ (7 * width_of v) <= 2 ^ (7 * (width_of u - 1))).
  { apply Z.pow_le_mono_r; lia. }
  assert (2 ^ (7 * (width_of u - 1)) <= 2 ^ 56) by (apply Z.pow_le_mono_r; lia).
  destruct (Z.eq_dec (width_of u) 9) as [E|]; [lia|]. lia.
Qed.

Lemma prefix_nonneg w : 1 <= w <= 9 -> 0 <= prefix w.
Proof.
  intros H. assert (forallb (λ w, 0 <=? prefix w) (seqZ 1 9) = true) as T by by vm_compute.
  apply Z.leb_le. apply (Z_range_forall _ _ _ T). lia.
Qed.

(** The encoding, as one big-endian number, fits in its width. *)
Lemma encoded_bound x :
  0 <= x < 2 ^ 64 ->
  0 <= prefix (width_of x) * 256 ^ (width_of x - 1) + x < 256 ^ Z.of_nat (Z.to_nat (width_of x)).
Proof.
  intros Bx. pose proof (encoded_cons x Bx) as EC. pose proof (encoded_ok x) as OK.
  destruct (high_bits x Bx) as (m & Em & Hp & Hh).
  rewrite EC in OK. apply Forall_cons in OK as [OK _]. unfold byte_ok in OK.
  replace (Z.to_nat (width_of x - 1)) with m in OK by lia.
  replace (256 ^ (width_of x - 1)) with (256 ^ Z.of_nat m) by (f_equal; lia).
  replace (Z.to_nat (width_of x)) with (S m) by lia.
  rewrite pow256_succ. pose proof (pow256_pos m).
  pose proof (Z.div_mod x (256 ^ Z.of_nat m) ltac:(lia)).
  pose proof (Z.mod_pos_bound x (256 ^ Z.of_nat m) ltac:(lia)).
  destruct (width_of_spec x Bx) as (Wx & _). pose proof (prefix_nonneg (width_of x) ltac:(lia)). nia.
Qed.

Lemma encoded_lt_same_width u v r s :
  0 <= u -> u < v -> v < 2 ^ 64 -> width_of u = width_of v -> encoded u ++ r ≺ encoded v ++ s.
Proof.
  intros Hu L Hv E. unfold encoded. pose proof (encoded_bound u ltac:(lia)) as Bu.
  pose proof (encoded_bound v ltac:(lia)) as Bv. rewrite E in *.
  apply be_bytes_lt_app; [done|done|lia].
Qed.

Lemma encoded_lt_wider u v r s :
  0 <= u -> u < v -> v < 2 ^ 64 -> width_of u < width_of v -> encoded u ++ r ≺ encoded v ++ s.
Proof.
  intros Hu L Hv W. assert (0 <= u < 2 ^ 64) as Bu by lia. assert (0 <= v < 2 ^ 64) as Bv by lia.
  destruct (width_of_spec u Bu) as (Wu & _). destruct (width_of_spec v Bv) as (Wv & _).
  rewrite !encoded_cons by done. cbv zeta. unfold bytes_lt. cbn [app lex_compare].
  rewrite (proj2 (Z.compare_lt_iff _ _)); [done|].
  destruct (high_bits v Bv) as (m & Em & Hp & Hh). destruct (high_bits u Bu) as (m' & Em' & Hp' & Hh').
  replace (Z.to_nat (width_of u - 1)) with m' by lia. replace (Z.to_nat (width_of v - 1)) with m by lia.
  rewrite (proj2 (Z.eqb_neq (width_of u) 9)), Z.add_0_r in Hh' by lia.
  assert (forallb (λ a, forallb (λ b, negb (a <? b) || (prefix a + 2 ^ (8 - a) <=? prefix b)) (seqZ 1 9)) (seqZ 1 9) = true) as T
    by (vm_compute; reflexivity).
  pose proof (Z_range_forall _ _ _ (Z_range_forall _ _ _ T (width_of u) ltac:(lia)) (width_of v) ltac:(lia)) as T2.
  simpl in T2. rewrite orb_true_iff, negb_true_iff, Z.ltb_ge, Z.leb_le in T2. lia.
Qed.

(** Byte order is value order, whatever follows the encodings, so a
    [VarInt] may lead an index segment. *)
Theorem varint_order u v r s :
  0 <= u -> u < v -> v < 2 ^ 64 ->
  exists eu ev, varint_encode Release u [] = Ok eu /\ varint_encode Release v [] = Ok ev /\
  eu ++ r ≺ ev ++ s.
Proof.
  intros Hu L Hv. exists (encoded u), (encoded v).
  rewrite !varint_encode_encoded by (done || lia). do 2 (split; [done|]).
  pose proof (width_of_mono u v Hu L Hv).
  destruct (Z.eq_dec (width_of u) (width_of v)); [by apply encoded_lt_same_width|].
  apply encoded_lt_wider; (done || lia).
Qed.

(** In the width-8 bucket a debug build panics on encoding, and a release build
    writes bytes it then reads back as another number. *)
Theorem varint_width8_broken v :
  width8 v ->
  varint_encode Debug v [] = Panic /\
  exists enc, varint_encode Release v [] = Ok enc /\
  varint_decode Release 64 enc = Ok (v + 0xFE * 2 ^ 56, 8).
Proof.
  intros N8. pose proof (width8_width v N8) as E. unfold width8 in N8. assert (0 <= v < 2 ^ 64) as H by lia.
  split; [by unfold varint_encode; rewrite E|].
  exists (encoded v). rewrite varint_encode_encoded by done. split; [done|].
  rewrite encoded_cons by done. cbv zeta. rewrite E. change (Z.to_nat (8 - 1)) with 7%nat.
  change (256 ^ Z.of_nat 7) with (2 ^ 56). rewrite Z.div_small by lia.
  unfold varint_decode. change (prefix_width (prefix 8 + 0)) with 8.
  rewrite zlen_cons, be_bytes_zlen. change (1 + Z.of_nat 7 <? 8) with false. cbn iota.
  unfold varint_value. change (8 =? 9) with false. change (shr_u8 Release 255 8) with (@Ok unit Z 255).
  cbn [mbind outcome_bind nth drop]. change (Z.land (prefix 8 + 0) 255) with 0xFE.
  rewrite drop_0, <- (app_nil_r (be_bytes 7 v)). change (Z.to_nat (8 - 1)) with 7%nat.
  rewrite take_be_bytes.
  rewrite be_val_be_bytes_small by (change (256 ^ Z.of_nat 7) with (2 ^ 56); lia).
  change (wrap 64 (Z.shiftl 0xFE (payload_bits 8 - (8 - 8)))) with (Z.shiftl 0xFE 56).
  rewrite lor_shift_add by lia.
  rewrite wrap_small by lia. do 2 f_equal. lia.
Qed.

(** * Witnesses *)

Lemma varint_roundtrip_witness :
  exists enc, varint_encode Debug 300 [] = Ok enc /\ zlen enc = width_of 300 /\
  varint_decode Debug 16 (enc ++ [7]) = Ok (300, zlen enc) /\
  take_len Debug (enc ++ [7]) = Ok (Some (300, zlen enc)).
Proof. apply (varint_roundtrip Debug 16 300 [7]); unfold width8; lia. Defined.

Lemma varint_order_witness :
  exists eu ev, varint_encode Release 127 [] = Ok eu /\ varint_encode Release 128 [] = Ok ev /\
  eu ++ [9] ≺ ev ++ [].
Proof. apply (varint_order 127 128 [9] []); lia. Defined.

Lemma varint_width8_broken_witness : varint_encode Debug (2 ^ 49) [] = Panic.
Proof. apply (varint_width8_broken (2 ^ 49)). unfold width8. lia. Defined.
