(* ===== verification/Storage.v ===== *)
(** * The engine contract (okm-core, [engine/storage.rs])

    [VirtualStorage] is the trait every backend implements, with the bodies of
    its default methods; [Batch] is the write carrier and [BatchStore] the batch
    seen as a writer.  [ReliableStorage] is the abstract contract a healthy
    engine keeps: its contents are a finite map and its scans are the map's keys
    in byte order.

    A method that takes [&self] and mutates the engine passes the engine state
    explicitly, also when it fails. *)
From S2P Require Import Prelude Errors.

(** ** Prefix bounds *)

(** The loop of [prefix_end] over the reversed bytes. *)
Fixpoint increment (rev_bytes : bytes) : option bytes :=
  match rev_bytes with
  | [] => None
  | b :: rest =>
      if b <? 0xFF then Some (b + 1 :: rest)
      else r ← increment rest; Some (0x00 :: r)
  end.

Definition prefix_end (p : bytes) : option bytes := @rev Z <$> increment (rev p).

(** ** Batches *)

Record Batch : Type := mkBatch { ops : list (bytes * option bytes) }.

Definition Batch_default : Batch := mkBatch [].

Definition Batch_put (b : Batch) (key value : bytes) : Batch :=
  mkBatch (ops b ++ [(key, Some value)]).

Definition Batch_del (b : Batch) (key : bytes) : Batch := mkBatch (ops b ++ [(key, None)]).

(** ** The trait *)

Abbreviation pair_item := (result (bytes * bytes)).

Class VirtualStorage (S : Type) : Type := {
  vs_put : S -> bytes -> bytes -> S * result unit;
  vs_get : S -> bytes -> result (option bytes);
  vs_del : S -> bytes -> S * result unit;
  vs_scan_suffix : S -> bytes -> result (list bytes);
  vs_scan_range : S -> bytes -> option bytes -> result (list bytes);
  (** what the returned iterator yields, front to back *)
  vs_scan_range_iter : S -> bytes -> option bytes -> list pair_item;
  vs_commit_batch : S -> Batch -> S * result unit
}.

(** [k.get(n..).unwrap_or(&[])] *)
Definition tail_from (n : Z) (k : bytes) : bytes := default [] (slice k n (zlen k)).

(** The default [scan_suffix]. *)
Definition default_scan_suffix
    (scan_range : bytes -> option bytes -> result (list bytes)) (p : bytes)
    : result (list bytes) :=
  keys ← scan_range p (prefix_end p);
  Ok (map (tail_from (zlen p)) keys).

(** The default [scan_range_iter]: errors ride the items. *)
Fixpoint read_pairs (get : bytes -> result (option bytes)) (keys : list bytes) : list pair_item :=
  match keys with
  | [] => []
  | k :: keys =>
      match get k with
      | Ok (Some v) => Ok (k, v) :: read_pairs get keys
      | Ok None => read_pairs get keys
      | Err e => [Err e]
      | Panic => [Panic]
      end
  end.

Definition default_scan_range_iter
    (scan_range : bytes -> option bytes -> result (list bytes))
    (get : bytes -> result (option bytes)) (begin : bytes) (end_ : option bytes)
    : list pair_item :=
  match scan_range begin end_ with
  | Ok keys => read_pairs get keys
  | Err e => [Err e]
  | Panic => [Panic]
  end.

(** The default [commit_batch]: replay in order, stop at the first refusal. *)
Fixpoint replay {S} (put : S -> bytes -> bytes -> S * result unit)
    (del : S -> bytes -> S * result unit) (s : S) (l : list (bytes * option bytes))
    : S * result unit :=
  match l with
  | [] => (s, Ok tt)
  | (k, v) :: l =>
      let '(s, r) := match v with Some v => put s k v | None => del s k end in
      match r with
      | Ok _ => replay put del s l
      | Err e => (s, Err e)
      | Panic => (s, Panic)
      end
  end.

Definition default_commit_batch {S} (put : S -> bytes -> bytes -> S * result unit)
    (del : S -> bytes -> S * result unit) (s : S) (b : Batch) : S * result unit :=
  replay put del s (ops b).

(** [scan_suffix_kv]: [(suffix, value)] pairs in key order, one pass. *)
Fixpoint collect_suffixes (p : bytes) (items : list pair_item) : result (list (bytes * bytes)) :=
  match items with
  | [] => Ok []
  | item :: items =>
      '(full, v) ← item;
      rest ← collect_suffixes p items;
      Ok ((drop (length p `min` length full)%nat full, v) :: rest)
  end.

Definition scan_suffix_kv {S} `{VirtualStorage S} (store : S) (p : bytes)
    : result (list (bytes * bytes)) :=
  collect_suffixes p (vs_scan_range_iter store p (prefix_end p)).

(** ** A batch as a writer *)

Record BatchStore (S : Type) : Type := mkBatchStore { bs_store : S; bs_batch : Batch }.
Arguments mkBatchStore {S} _ _.
Arguments bs_store {S} _.
Arguments bs_batch {S} _.

(** [ops.iter().rev().find(..)]: the newest pending op of a key. *)
Definition pending (b : Batch) (key : bytes) : option (option bytes) :=
  snd <$> find (λ kv, bool_decide (kv.1 = key)) (rev (ops b)).

Section BatchStore.
Context {S : Type} `{VirtualStorage S}.

Definition BatchStore_put (s : BatchStore S) (key value : bytes) : BatchStore S * result unit :=
  (mkBatchStore (bs_store s) (Batch_put (bs_batch s) key value), Ok tt).

Definition BatchStore_get (s : BatchStore S) (key : bytes) : result (option bytes) :=
  match pending (bs_batch s) key with
  | Some v => Ok v
  | None => vs_get (bs_store s) key
  end.

Definition BatchStore_del (s : BatchStore S) (key : bytes) : BatchStore S * result unit :=
  (mkBatchStore (bs_store s) (Batch_del (bs_batch s) key), Ok tt).

Definition BatchStore_scan_range (s : BatchStore S) (begin : bytes) (end_ : option bytes)
    : result (list bytes) := Err ScanThroughBatch.

#[export] Instance BatchStore_storage : VirtualStorage (BatchStore S) := {
  vs_put := BatchStore_put;
  vs_get := BatchStore_get;
  vs_del := BatchStore_del;
  vs_scan_range := BatchStore_scan_range;
  vs_scan_suffix s := default_scan_suffix (BatchStore_scan_range s);
  vs_scan_range_iter s := default_scan_range_iter (BatchStore_scan_range s) (BatchStore_get s);
  vs_commit_batch := default_commit_batch BatchStore_put BatchStore_del
}.
End BatchStore.

(** ** The abstract contract *)

Definition sorted_keys {V} (m : gmap bytes V) : list bytes :=
  merge_sort bytes_le (map fst (map_to_list m)).

Definition in_range_b (begin : bytes) (end_ : option bytes) (k : bytes) : bool :=
  bool_decide (begin ≼ k) &&
  match end_ with Some e => bool_decide (k ≺ e) | None => true end.

(** The keys of [m] in [[begin, end_)], in byte order. *)
Definition range_keys {V} (m : gmap bytes V) (begin : bytes) (end_ : option bytes) : list bytes :=
  filter (λ k, in_range_b begin end_ k = true) (sorted_keys m).

Definition range_pairs {V} (m : gmap bytes V) (begin : bytes) (end_ : option bytes)
    : list (bytes * V) :=
  omap (λ k, (λ v, (k, v)) <$> m !! k) (range_keys m begin end_).

Definition apply_op {V} (m : gmap bytes V) (op : bytes * option V) : gmap bytes V :=
  match op.2 with Some v => <[op.1 := v]> m | None => delete op.1 m end.

Definition apply_batch {V} (m : gmap bytes V) (l : list (bytes * option V)) : gmap bytes V :=
  fold_left apply_op l m.

(** A healthy engine: [contents] is what it holds, every operation succeeds and
    does on the contents what its documentation says. *)
Class ReliableStorage (S : Type) `{VirtualStorage S} : Type := {
  contents : S -> gmap bytes bytes;
  put_spec s k v : exists s', vs_put s k v = (s', Ok tt) /\ contents s' = <[k := v]> (contents s);
  get_spec s k : vs_get s k = Ok (contents s !! k);
  del_spec s k : exists s', vs_del s k = (s', Ok tt) /\ contents s' = delete k (contents s);
  scan_range_spec s b e : vs_scan_range s b e = Ok (range_keys (contents s) b e);
  scan_suffix_spec s p :
    vs_scan_suffix s p = default_scan_suffix (λ b e, Ok (range_keys (contents s) b e)) p;
  scan_range_iter_spec s b e : vs_scan_range_iter s b e = map Ok (range_pairs (contents s) b e);
  commit_batch_spec s b :
    exists s', vs_commit_batch s b = (s', Ok tt) /\ contents s' = apply_batch (contents s) (ops b)
}.

(** What the point verbs promise on their own: the contract of everything that
    takes writes and answers reads, a pending batch included. *)
Class PointStorage (S : Type) `{VirtualStorage S} : Type := {
  held : S -> gmap bytes bytes;
  held_get s k : vs_get s k = Ok (held s !! k);
  held_put s k v : exists s', vs_put s k v = (s', Ok tt) /\ held s' = <[k := v]> (held s);
  held_del s k : exists s', vs_del s k = (s', Ok tt) /\ held s' = delete k (held s);
  held_commit s b :
    exists s', vs_commit_batch s b = (s', Ok tt) /\ held s' = apply_batch (held s) (ops b)
}.

(** ** The in-memory engine

    An ordered map with the trait's default methods, the smallest instance of
    the contract. *)
Definition MemStore : Type := gmap bytes bytes.

Definition Mem_scan_range (s : MemStore) (b : bytes) (e : option bytes) : result (list bytes) :=
  Ok (range_keys s b e).

#[export] Instance MemStore_storage : VirtualStorage MemStore := {
  vs_put s k v := (<[k := v]> s, Ok tt);
  vs_get s k := Ok (s !! k);
  vs_del s k := (delete k s, Ok tt);
  vs_scan_range := Mem_scan_range;
  vs_scan_suffix s := default_scan_suffix (Mem_scan_range s);
  vs_scan_range_iter s := default_scan_range_iter (Mem_scan_range s) (λ k, Ok (s !! k));
  vs_commit_batch :=
    default_commit_batch (λ s k v, (<[k := v]> s, Ok tt)) (λ s k, (delete k s, Ok tt))
}.

(** * Lemmas *)

(** ** Sorted key lists *)

Lemma elem_of_sorted_keys {V} (m : gmap bytes V) k : k ∈ sorted_keys m <-> is_Some (m !! k).
Proof.
  unfold sorted_keys. rewrite merge_sort_Permutation.
  rewrite (list_elem_of_fmap fst (map_to_list m) k). split.
  - intros ([k' v] & -> & Hm%elem_of_map_to_list). by exists v.
  - intros [v Hv]. exists (k, v). split; [done|]. by apply elem_of_map_to_list.
Qed.

Lemma sorted_keys_sorted {V} (m : gmap bytes V) : StronglySorted bytes_le (sorted_keys m).
Proof. apply Sorted_StronglySorted; [apply _|]. apply Sorted_merge_sort, _. Qed.

Lemma sorted_keys_NoDup {V} (m : gmap bytes V) : NoDup (sorted_keys m).
Proof. unfold sorted_keys. rewrite merge_sort_Permutation. apply NoDup_fst_map_to_list. Qed.

Lemma in_range_b_true b e k :
  in_range_b b e k = true <-> b ≼ k /\ match e with Some e => k ≺ e | None => True end.
Proof.
  unfold in_range_b. rewrite andb_true_iff, bool_decide_eq_true.
  destruct e; [by rewrite bool_decide_eq_true|naive_solver].
Qed.

Lemma elem_of_range_keys {V} (m : gmap bytes V) b e k :
  k ∈ range_keys m b e <->
  is_Some (m !! k) /\ b ≼ k /\ match e with Some e => k ≺ e | None => True end.
Proof.
  unfold range_keys. rewrite list_elem_of_filter, elem_of_sorted_keys, in_range_b_true. naive_solver.
Qed.

Lemma StronglySorted_filter {A} (R : A -> A -> Prop) (P : A -> Prop) `{forall x, Decision (P x)} l :
  StronglySorted R l -> StronglySorted R (filter P l).
Proof.
  induction 1 as [|x l Hl IH Hx]; [constructor|]. rewrite filter_cons. case_decide; [|done].
  constructor; [done|]. apply Forall_forall. intros y [_ Hy]%list_elem_of_filter.
  by eapply Forall_forall in Hx.
Qed.

Lemma range_keys_sorted {V} (m : gmap bytes V) b e : StronglySorted bytes_le (range_keys m b e).
Proof. apply StronglySorted_filter, sorted_keys_sorted. Qed.

Lemma range_keys_NoDup {V} (m : gmap bytes V) b e : NoDup (range_keys m b e).
Proof. apply NoDup_filter, sorted_keys_NoDup. Qed.

(** A list of keys is determined by being sorted, duplicate-free and its members. *)
Lemma sorted_unique (l k : list bytes) :
  StronglySorted bytes_le l -> StronglySorted bytes_le k -> NoDup l -> NoDup k ->
  (forall x, x ∈ l <-> x ∈ k) -> l = k.
Proof.
  intros Sl Sk Nl Nk E. apply (StronglySorted_unique bytes_le); [done..|].
  by apply NoDup_Permutation.
Qed.

(** ** Batches *)

Lemma apply_batch_snoc {V} (m : gmap bytes V) l op :
  apply_batch m (l ++ [op]) = apply_op (apply_batch m l) op.
Proof. unfold apply_batch. by rewrite fold_left_app. Qed.

Lemma apply_batch_app {V} (m : gmap bytes V) l k :
  apply_batch m (l ++ k) = apply_batch (apply_batch m l) k.
Proof. unfold apply_batch. by rewrite fold_left_app. Qed.

Lemma apply_batch_pending m l k :
  apply_batch m l !! k =
  match pending (mkBatch l) k with Some v => v | None => m !! k end.
Proof.
  induction l as [|[k' v] l IH] using rev_ind; [done|].
  rewrite apply_batch_snoc. unfold pending, apply_op in *. simpl in *.
  rewrite rev_app_distr. simpl. case_bool_decide as E; simpl in *.
  - subst. destruct v; [by rewrite lookup_insert_eq|by rewrite lookup_delete_eq].
  - rewrite <- IH. destruct v; [by rewrite lookup_insert_ne|by rewrite lookup_delete_ne].
Qed.

Section Reliable.
Context {S : Type} `{ReliableStorage S}.

(** Replaying the operations one by one is the batch. *)
Lemma replay_spec (s : S) l :
  exists s', replay vs_put vs_del s l = (s', Ok tt) /\
  contents s' = apply_batch (contents s) l.
Proof.
  revert s. induction l as [|[k [v|]] l IH]; intros s; simpl.
  - by exists s.
  - destruct (put_spec s k v) as (s1 & -> & E). destruct (IH s1) as (s2 & -> & E2).
    exists s2. by rewrite E2, E.
  - destruct (del_spec s k) as (s1 & -> & E). destruct (IH s1) as (s2 & -> & E2).
    exists s2. by rewrite E2, E.
Qed.

(** A batch reads its own writes: through a [BatchStore] every key already
    reads as it will once the batch has been committed. *)
Theorem BatchStore_reads_committed (b : BatchStore S) k :
  exists s', vs_commit_batch (bs_store b) (bs_batch b) = (s', Ok tt) /\
  vs_get b k = vs_get s' k.
Proof.
  destruct (commit_batch_spec (bs_store b) (bs_batch b)) as (s' & E & Ec).
  exists s'. split; [done|]. rewrite (get_spec s'), Ec. simpl. unfold BatchStore_get.
  rewrite apply_batch_pending. destruct b as [s [l]]; simpl.
  destruct (pending _ k); [done|]. apply get_spec.
Qed.

#[export] Program Instance Reliable_point : PointStorage S := { held := contents }.
Next Obligation. apply get_spec. Qed.
Next Obligation. apply put_spec. Qed.
Next Obligation. apply del_spec. Qed.
Next Obligation. apply commit_batch_spec. Qed.

Lemma scan_suffix_kv_aux (m : gmap bytes bytes) p keys :
  collect_suffixes p (map Ok (omap (λ k, (λ v, (k, v)) <$> m !! k) keys)) =
  Ok (omap (λ k, (λ v, (drop (length p `min` length k)%nat k, v)) <$> m !! k) keys).
Proof.
  induction keys as [|k keys IH]; [done|]. unfold omap in *. simpl.
  destruct (m !! k); simpl; [|done]. by rewrite IH.
Qed.

Lemma scan_suffix_kv_spec (s : S) p :
  scan_suffix_kv s p =
  Ok (omap (λ k, (λ v, (drop (length p `min` length k)%nat k, v)) <$> contents s !! k)
        (range_keys (contents s) p (prefix_end p))).
Proof. unfold scan_suffix_kv. rewrite scan_range_iter_spec. apply (scan_suffix_kv_aux (contents s)). Qed.
End Reliable.

(** A batch over a store takes writes and answers point reads like a store. *)
Section PendingBatch.
Context {S : Type} `{PointStorage S}.

Lemma BatchStore_replay (s : BatchStore S) l :
  replay BatchStore_put BatchStore_del s l
  = (mkBatchStore (bs_store s) (mkBatch (ops (bs_batch s) ++ l)), Ok tt).
Proof.
  revert s. induction l as [|[k [v|]] l IH]; intros [s [b]]; simpl.
  - by rewrite app_nil_r.
  - rewrite IH. simpl. by rewrite <- app_assoc.
  - rewrite IH. simpl. by rewrite <- app_assoc.
Qed.

#[export] Program Instance BatchStore_point : PointStorage (BatchStore S) :=
  { held s := apply_batch (held (bs_store s)) (ops (bs_batch s)) }.
Next Obligation.
  intros [s [l]] k. simpl. unfold BatchStore_get. simpl. rewrite apply_batch_pending.
  destruct (pending _ k); [done|]. apply held_get.
Qed.
Next Obligation. intros [s [l]] k v. eexists. split; [done|]. simpl. apply (apply_batch_snoc _ l (k, Some v)). Qed.
Next Obligation. intros [s [l]] k. eexists. split; [done|]. simpl. apply (apply_batch_snoc _ l (k, None)). Qed.
Next Obligation.
  intros s b. simpl. unfold default_commit_batch. rewrite BatchStore_replay.
  eexists. split; [done|]. apply apply_batch_app.
Qed.
End PendingBatch.

Lemma read_pairs_Ok (m : gmap bytes bytes) keys :
  read_pairs (λ k, Ok (m !! k)) keys = map Ok (omap (λ k, (λ v, (k, v)) <$> m !! k) keys).
Proof.
  induction keys as [|k keys IH]; [done|]. unfold omap in *. simpl.
  destruct (m !! k); simpl; by rewrite IH.
Qed.

Lemma Mem_replay (s : MemStore) l :
  replay (λ (s : MemStore) k v, (<[k := v]> s, Ok tt)) (λ s k, (delete k s, Ok tt)) s l
  = (apply_batch s l, Ok tt).
Proof.
  revert s. induction l as [|[k [v|]] l IH]; intros s; simpl; [done|..]; by rewrite IH.
Qed.

#[export] Program Instance MemStore_reliable : ReliableStorage MemStore := {
  contents s := s
}.
Next Obligation. intros s k v. by exists (<[k := v]> s). Qed.
Next Obligation. done. Qed.
Next Obligation. intros s k. by exists (delete k s). Qed.
Next Obligation. done. Qed.
Next Obligation. done. Qed.
Next Obligation.
  intros s b e. simpl. unfold default_scan_range_iter, Mem_scan_range. apply read_pairs_Ok.
Qed.
Next Obligation.
  intros s b. exists (apply_batch s (ops b)). split; [|done].
  simpl. unfold default_commit_batch. apply Mem_replay.
Qed.

(** ** The prefix bound *)

Lemma increment_spec l :
  bytes_ok l ->
  match increment l with
  | Some r => length r = length l /\ bytes_ok r /\ be_val (rev r) = be_val (rev l) + 1
  | None => be_val (rev l) + 1 = 256 ^ zlen l
  end.
Proof.
  induction 1 as [|b l Hb Hl IH]; [done|]. simpl. unfold byte_ok in Hb.
  destruct (Z.ltb_spec b 0xFF).
  - split; [done|]. split; [constructor; [unfold byte_ok; lia|done]|].
    simpl. rewrite !be_val_snoc. lia.
  - assert (b = 255) as -> by lia. destruct (increment l) as [r|]; simpl.
    + destruct IH as (L & O & E). split; [by rewrite L|].
      split; [constructor; [unfold byte_ok; lia|done]|].
      rewrite !be_val_snoc, E. lia.
    + rewrite be_val_snoc, zlen_cons, Z.pow_add_r by (try apply zlen_nonneg; lia). lia.
Qed.

(** [prefix_end] is the successor of the prefix read as one big-endian number,
    at the prefix's own length. *)
Lemma prefix_end_spec p :
  bytes_ok p ->
  match prefix_end p with
  | Some e => length e = length p /\ bytes_ok e /\ be_val e = be_val p + 1
  | None => be_val p + 1 = 256 ^ zlen p
  end.
Proof.
  intros Hp. unfold prefix_end. pose proof (increment_spec (rev p)) as I.
  rewrite rev_involutive in I.
  assert (bytes_ok (rev p)) as Hr by (by apply List.Forall_rev).
  specialize (I Hr). destruct (increment (rev p)) as [r|]; simpl.
  - destruct I as (L & O & E). rewrite length_rev, L, length_rev.
    split; [done|]. split; [by apply List.Forall_rev|done].
  - rewrite I. f_equal. unfold zlen. by rewrite length_rev.
Qed.

Lemma lex_app_lt q s p : length q = length p -> (q ++ s ≺ p <-> q ≺ p).
Proof.
  unfold bytes_lt. revert p. induction q as [|x q IH]; intros [|y p] L; simpl in *; try done.
  - by destruct s.
  - destruct (x ?= y); [|done..]. apply IH. lia.
Qed.

Lemma lex_head q s p :
  length q = length p -> bytes_ok q -> bytes_ok p ->
  (p ≼ q ++ s <-> be_val p <= be_val q) /\ (q ++ s ≺ p <-> be_val q < be_val p).
Proof.
  intros L Hq Hp.
  assert ((q ++ s ≺ p) <-> be_val q < be_val p) as A.
  { rewrite lex_app_lt by done. unfold bytes_lt. by rewrite lex_compare_be_val, Z.compare_lt_iff. }
  split; [|done]. rewrite bytes_le_nlt, A. lia.
Qed.

(** For keys at least as long as the prefix the range [[p, prefix_end p)] is
    the prefix, exactly. *)
Lemma in_prefix_range p k :
  bytes_ok p -> bytes_ok k -> (length p <= length k)%nat ->
  (in_range_b p (prefix_end p) k = true <-> exists s, k = p ++ s).
Proof.
  intros Hp Hk L. rewrite in_range_b_true.
  assert (exists q s, k = q ++ s /\ length q = length p) as (q & s & -> & Lq).
  { exists (take (length p) k), (drop (length p) k). rewrite take_drop, length_take. split; [done|lia]. }
  apply Forall_app in Hk as [Hq _].
  assert ((exists s0, q ++ s = p ++ s0) <-> be_val q = be_val p) as ->.
  { split.
    - intros [s0 E]. apply app_inj_1 in E as [-> _]; done.
    - intros E. exists s. f_equal. rewrite <- (be_bytes_be_val q), <- (be_bytes_be_val p) by done.
      by rewrite Lq, E. }
  destruct (lex_head q s p Lq Hq Hp) as [-> _].
  pose proof (prefix_end_spec p Hp) as PE. destruct (prefix_end p) as [e|].
  - destruct PE as (Le & He & E). destruct (lex_head q s e) as [_ ->]; [congruence|done..|]. lia.
  - pose proof (be_val_bound q Hq) as B. unfold zlen in *. rewrite Lq in B. lia.
Qed.

(** A key shorter than the prefix can stand inside the range without carrying
    the prefix: the carry leaves trailing zero bytes in the bound. *)
Theorem prefix_range_short_key :
  prefix_end [0x01; 0xFF] = Some [0x02; 0x00] /\
  in_range_b [0x01; 0xFF] (prefix_end [0x01; 0xFF]) [0x02] = true /\
  default_scan_suffix (Mem_scan_range {[ [0x02] := [] ]}) [0x01; 0xFF] = Ok [[]].
Proof. vm_compute. done. Qed.

(** What stands behind the prefix, for a key that carries it. *)
Definition carried (p k : bytes) : option bytes :=
  if decide (take (length p) k = p) then Some (drop (length p) k) else None.

(** The suffixes of the keys that carry the prefix, with their values, in order. *)
Definition carried_pairs {V} (m : gmap bytes V) (p : bytes) : list (bytes * V) :=
  omap (λ k, s ← carried p k; v ← m !! k; Some (s, v)) (sorted_keys m).

(** No key of the store that stands in the prefix's range is shorter than the
    prefix, and keys are bytes. *)
Definition long_keys {V} (m : gmap bytes V) (p : bytes) : Prop :=
  forall k, is_Some (m !! k) -> bytes_ok k /\
  (in_range_b p (prefix_end p) k = true -> (length p <= length k)%nat).

(** [long_keys] of concrete contents, by evaluation. *)
Lemma long_keys_check {V} (m : gmap bytes V) p :
  forallb (λ k, bool_decide (bytes_ok k) && (negb (in_range_b p (prefix_end p) k) || (length p <=? length k)%nat))
    (sorted_keys m) = true -> long_keys m p.
Proof.
  intros F k Hk. rewrite List.forallb_forall in F. specialize (F k). rewrite <- list_elem_of_In, elem_of_sorted_keys in F.
  apply F, andb_prop in Hk as [Ok%bool_decide_eq_true Hk]. split; [done|]. intros R. rewrite R in Hk. by apply Nat.leb_le.
Qed.

(** A longer key carries the prefix exactly when it stands in the range. *)
Lemma long_keys_range {V} (m : gmap bytes V) p k :
  bytes_ok p -> long_keys m p -> is_Some (m !! k) ->
  (in_range_b p (prefix_end p) k = true <-> exists s, k = p ++ s).
Proof.
  intros Hp Hm Hk. destruct (Hm k Hk) as [Ok Lk]. split.
  - intros R. by apply in_prefix_range; auto.
  - intros [s ->]. apply in_prefix_range; [done|done|rewrite length_app; lia|by exists s].
Qed.

Lemma take_prefix (p k : bytes) : take (length p) k = p <-> exists s, k = p ++ s.
Proof.
  split.
  - intros E. exists (drop (length p) k). rewrite <- E at 1. by rewrite take_drop.
  - intros [s ->]. apply take_app_length.
Qed.

Lemma tail_from_app (p s : bytes) : tail_from (zlen p) (p ++ s) = s.
Proof.
  unfold tail_from. pose proof (slice_app p s []) as E. rewrite app_nil_r in E.
  rewrite zlen_app. by rewrite E.
Qed.

Lemma tail_from_drop n (k : bytes) : tail_from (Z.of_nat n) k = drop n k.
Proof.
  unfold tail_from, slice. destruct (Z.leb_spec (Z.of_nat n) (zlen k)).
  - rewrite (proj2 (Z.leb_le 0 _)), (proj2 (Z.leb_le (zlen k) _)) by lia. simpl.
    rewrite Nat2Z.id. apply firstn_all2. rewrite length_drop. unfold zlen. lia.
  - rewrite andb_false_r. simpl. unfold zlen in *. rewrite drop_ge by lia. done.
Qed.

(** Filtering the range of the prefix is testing for the prefix. *)
Lemma range_keys_carried {V A : Type} (m : gmap bytes V) (p : bytes) (f g : bytes -> option A) :
  bytes_ok p -> long_keys m p ->
  (forall k, is_Some (m !! k) -> take (length p) k = p -> f k = g k) ->
  (forall k, take (length p) k <> p -> g k = None) ->
  omap f (range_keys m p (prefix_end p)) = omap g (sorted_keys m).
Proof.
  intros Hp Hm Hfg Hg. unfold range_keys.
  assert (Forall (λ k, is_Some (m !! k)) (sorted_keys m)) as F.
  { apply Forall_forall. intros k. apply elem_of_sorted_keys. }
  induction F as [|k keys Hk Hkeys IH]; [done|].
  pose proof (long_keys_range m p k Hp Hm Hk) as R. rewrite <- take_prefix in R. rewrite filter_cons. unfold omap in *.
  destruct (decide (in_range_b p (prefix_end p) k = true)) as [T|T]; simpl.
  - rewrite Hfg by (done || by apply R). by rewrite IH.
  - rewrite (Hg k) by (by rewrite <- R). done.
Qed.

Lemma omap_Some {A B} (f : A -> B) l : omap (λ x, Some (f x)) l = map f l.
Proof. induction l as [|x l IH]; [done|]. unfold omap in *. simpl. by rewrite IH. Qed.

Lemma map_omap {A B C} (f : A -> option B) (g : B -> C) l : map g (omap f l) = omap (λ x, g <$> f x) l.
Proof. induction l as [|x l IH]; [done|]. unfold omap in *. simpl. destruct (f x); simpl; by rewrite IH. Qed.

(** The keys of the pairs of a range. *)
Lemma range_pairs_fst {V} (m : gmap bytes V) b e : map fst (range_pairs m b e) = range_keys m b e.
Proof.
  unfold range_pairs. rewrite map_omap.
  assert (Forall (λ k, is_Some (m !! k)) (range_keys m b e)) as F.
  { apply Forall_forall. intros k Hk. by apply elem_of_range_keys in Hk as [? _]. }
  induction F as [|k l [v Hv] F IH]; [done|]. unfold omap in *. simpl. rewrite Hv. simpl. by rewrite IH.
Qed.

(** The two scans of a prefix. *)
Lemma scans_carried {S} `{ReliableStorage S} (s : S) p :
  bytes_ok p -> long_keys (contents s) p ->
  default_scan_suffix (vs_scan_range s) p = Ok (map fst (carried_pairs (contents s) p)) /\
  vs_scan_suffix s p = Ok (map fst (carried_pairs (contents s) p)) /\
  scan_suffix_kv s p = Ok (carried_pairs (contents s) p).
Proof.
  intros Hp Hm. rewrite scan_suffix_kv_spec, scan_suffix_spec. unfold default_scan_suffix.
  rewrite scan_range_spec. unfold carried_pairs. cbn [mbind outcome_bind].
  assert (map (tail_from (zlen p)) (range_keys (contents s) p (prefix_end p)) =
    map fst (omap (λ k, s0 ← carried p k; v ← contents s !! k; Some (s0, v)) (sorted_keys (contents s)))) as E.
  { rewrite <- omap_Some, map_omap. apply range_keys_carried; [done..| |].
    - intros k [v E] T. unfold carried. rewrite decide_True by done. simpl. rewrite E. simpl.
      f_equal. apply tail_from_drop.
    - intros k T. unfold carried. by rewrite decide_False. }
  rewrite E. split; [done|]. split; [done|]. f_equal. apply range_keys_carried; [done..| |].
  - intros k Hk T. unfold carried. rewrite decide_True by done. simpl.
    apply take_prefix in T as [t ->]. rewrite length_app, Nat.min_l by lia. by destruct (contents s !! _).
  - intros k T. unfold carried. by rewrite decide_False.
Qed.

(** A suffix is answered exactly when its key is stored. *)
Lemma elem_of_carried {V} (m : gmap bytes V) p t :
  t ∈ map fst (carried_pairs m p) <-> is_Some (m !! (p ++ t)).
Proof.
  unfold carried_pairs. rewrite map_omap, list_elem_of_omap. split.
  - intros (k & _ & E). unfold carried in E. destruct (decide (take (length p) k = p)) as [T|]; [|done].
    apply take_prefix in T as [t' ->]. rewrite drop_app_length in E. simpl in E.
    destruct (m !! (p ++ t')) eqn:L; [|done]. simpl in E. injection E as ->. by eexists.
  - intros [v Hv]. exists (p ++ t). split; [apply elem_of_sorted_keys; by exists v|].
    unfold carried. rewrite decide_True by apply take_app_length. simpl. rewrite Hv. simpl.
    by rewrite drop_app_length.
Qed.

(** On a store with no short key inside the prefix's range, the default
    [scan_suffix] answers the suffixes of exactly the keys that carry the
    prefix, in key order, and [scan_suffix_kv] answers them with their values. *)
Theorem scan_suffix_exact {S} `{ReliableStorage S} (s : S) p :
  bytes_ok p -> long_keys (contents s) p ->
  default_scan_suffix (vs_scan_range s) p = Ok (map fst (carried_pairs (contents s) p)) /\
  scan_suffix_kv s p = Ok (carried_pairs (contents s) p).
Proof.
  intros Hp Hm. destruct (scans_carried s p Hp Hm) as (A & _ & B). done.
Qed.

(** A batch of deletes adds no key. *)
Lemma only_deletes_shrink (c : gmap bytes bytes) l key : Forall (λ op : bytes * option bytes, op.2 = None) l ->
  is_Some (apply_batch c l !! key) -> is_Some (c !! key).
Proof.
  intros F. revert c. induction F as [|[k v] l E F IH]; intros c; [done|]. simpl in E. subst v.
  intros X. pose proof (proj1 (lookup_delete_is_Some c k key) (IH _ X)) as [_ ?]. done.
Qed.

(** ** Sorted suffixes *)

Lemma sorted_lt l : StronglySorted bytes_le l -> NoDup l -> StronglySorted bytes_lt l.
Proof.
  induction 1 as [|x l Hl IH Hx]; intros ND; [constructor|]. apply NoDup_cons in ND as [N ND]. constructor; [by apply IH|].
  apply Forall_forall. intros y Hy. rewrite Forall_forall in Hx. specialize (Hx y Hy). apply bytes_le_lteq in Hx as [?| ->]; done.
Qed.

Lemma carried_fst {V} (m : gmap bytes V) p :
  map fst (carried_pairs m p) = omap (carried p) (sorted_keys m).
Proof.
  unfold carried_pairs. rewrite map_omap.
  assert (Forall (λ k, is_Some (m !! k)) (sorted_keys m)) as F by (apply Forall_forall; intros k; apply elem_of_sorted_keys).
  induction F as [|k l [v Hv] F IH]; [done|]. unfold omap in *. simpl. rewrite IH. by destruct (carried p k); simpl; rewrite ?Hv.
Qed.

Lemma carried_app p t : carried p (p ++ t) = Some t.
Proof. unfold carried. rewrite decide_True by apply take_app_length. by rewrite drop_app_length. Qed.

Lemma carried_Some p k t : carried p k = Some t -> k = p ++ t.
Proof. unfold carried. case_decide as T; [|done]. intros [= <-]. rewrite <- T at 1. by rewrite take_drop. Qed.

Lemma sorted_NoDup l : StronglySorted bytes_lt l -> NoDup l.
Proof.
  induction 1 as [|x l Hl IH Hx]; constructor; [|done]. intros Hin. rewrite Forall_forall in Hx. by apply (bytes_lt_irrefl x), Hx.
Qed.

(** The suffixes of a scan are in strict order. *)
Lemma carried_sorted {V} (m : gmap bytes V) p : StronglySorted bytes_lt (map fst (carried_pairs m p)).
Proof.
  rewrite carried_fst. pose proof (sorted_lt _ (sorted_keys_sorted m) (sorted_keys_NoDup m)) as S.
  induction S as [|k l S IH Hk]; [constructor|]. unfold omap in *. simpl. destruct (carried p k) as [t|] eqn:E; [|done].
  constructor; [done|]. apply Forall_forall. intros t' (k' & Hk' & E')%list_elem_of_omap.
  rewrite Forall_forall in Hk. specialize (Hk k' Hk'). apply carried_Some in E as ->. apply carried_Some in E' as ->.
  by apply bytes_lt_app in Hk.
Qed.

Lemma elem_of_carried_pairs {V} (m : gmap bytes V) p t v : (t, v) ∈ carried_pairs m p <-> m !! (p ++ t) = Some v.
Proof.
  unfold carried_pairs. rewrite list_elem_of_omap. split.
  - intros (k & _ & E). destruct (carried p k) as [t'|] eqn:C; [|done]. apply carried_Some in C as ->. simpl in E.
    destruct (m !! (p ++ t')) eqn:L; [|done]. by injection E as -> ->.
  - intros Hv. exists (p ++ t). split; [apply elem_of_sorted_keys; by eexists|]. rewrite carried_app. simpl. by rewrite Hv.
Qed.

(** What stands behind a prefix depends on the keys that carry it. *)
Lemma sorted_lt_ext (l k : list bytes) : StronglySorted bytes_lt l -> StronglySorted bytes_lt k -> (forall x, x ∈ l <-> x ∈ k) -> l = k.
Proof.
  intros Sl Sk Mem. apply (StronglySorted_unique bytes_le).
  - clear -Sl. induction Sl as [|x l Sl IH F]; constructor; [done|]. eapply Forall_impl; [exact F|]. intros y. by apply bytes_lt_le.
  - clear -Sk. induction Sk as [|x l Sl IH F]; constructor; [done|]. eapply Forall_impl; [exact F|]. intros y. by apply bytes_lt_le.
  - apply NoDup_Permutation; [by apply sorted_NoDup..|done].
Qed.

Lemma carried_pairs_ext {V} (m m' : gmap bytes V) p : (forall t, m !! (p ++ t) = m' !! (p ++ t)) -> carried_pairs m p = carried_pairs m' p.
Proof.
  intros Eq. assert (map fst (carried_pairs m p) = map fst (carried_pairs m' p)) as Ek.
  { apply sorted_lt_ext; [apply carried_sorted..|]. intros t. by rewrite !elem_of_carried, Eq. }
  apply (list_eq (carried_pairs m p)). intros i. pose proof (f_equal (λ l, l !! i) Ek) as Ei. cbn in Ei. rewrite !list_lookup_fmap in Ei.
  destruct (carried_pairs m p !! i) as [[t v]|] eqn:E1, (carried_pairs m' p !! i) as [[t' v']|] eqn:E2; simpl in Ei; try done.
  injection Ei as <-. apply list_elem_of_lookup_2 in E1, E2. rewrite elem_of_carried_pairs in E1, E2. congruence.
Qed.

(** The keys of a prefix's range, when no short key stands in it. *)
Lemma range_keys_prefix {V} (m : gmap bytes V) q : bytes_ok q -> long_keys m q ->
  range_keys m q (prefix_end q) = map (λ t, q ++ t) (map fst (carried_pairs m q)).
Proof.
  intros Hq L. rewrite carried_fst, map_omap, <- (map_id (range_keys m q (prefix_end q))), <- omap_Some.
  apply range_keys_carried; [done..| |].
  - intros k _ T. apply take_prefix in T as [t ->]. by rewrite carried_app.
  - intros k T. unfold carried. by rewrite decide_False.
Qed.

(** * Witnesses *)

Definition sample_store : MemStore := <[ [1; 2] := [20] ]> (<[ [1; 3] := [30] ]> (<[ [2; 0] := [40] ]> ∅)).

Lemma sample_store_long : long_keys (contents sample_store) [1].
Proof.
  intros k Hk. simpl in Hk. unfold sample_store in Hk.
  repeat (apply lookup_insert_is_Some in Hk as [<-|[_ Hk]];
    [split; [repeat constructor; unfold byte_ok; lia|simpl; lia]|]).
  by destruct Hk.
Qed.

Lemma scan_suffix_exact_witness :
  scan_suffix_kv sample_store [1] = Ok [([2], [20]); ([3], [30])].
Proof.
  refine (eq_trans (proj2 (scan_suffix_exact sample_store [1] _ sample_store_long)) _).
  - repeat constructor; unfold byte_ok; lia.
  - by vm_compute.
Defined.

Lemma BatchStore_reads_committed_witness :
  exists s' : MemStore, vs_commit_batch sample_store (mkBatch [([1; 2], None)]) = (s', Ok tt) /\
  vs_get (mkBatchStore sample_store (mkBatch [([1; 2], None)])) [1; 2] = vs_get s' [1; 2].
Proof. exact (BatchStore_reads_committed (mkBatchStore sample_store (mkBatch [([1; 2], None)])) [1; 2]). Defined.
