(* ===== verification/Nest.v ===== *)
(** * The nested remote store (okm-core, [engine/nest.rs])

    The receiver ([ExecCore], [NestStorage]) executes request frames on an
    engine under a declared prefix; the sender ([RemoteStore],
    [RemoteScanIter]) frames the operations of the engine contract.

    The host serialises every frame on the engine mutex, so an execution is a
    sequence of [apply] steps on one engine state, which is passed explicitly.
    [apply] answers [Ok (Some r)] (a response), [Ok None] (a malformed frame) or
    [Panic]; the pump turns a panic into a fault. *)
From S2P Require Import Prelude Errors Wire Storage.

(** ** The receiver *)

Record ExecCore (S : Type) : Type := mkExecCore { engine : S; core_prefix : option bytes }.
Arguments mkExecCore {S} _ _.
Arguments engine {S} _.
Arguments core_prefix {S} _.

Definition hosted_key (p : option bytes) (sender_key : bytes) : bytes :=
  match p with Some p => p ++ sender_key | None => sender_key end.

(** [self.prefix.as_ref().map_or(0, Vec::len)] *)
Definition plen (p : option bytes) : Z := match p with Some p => zlen p | None => 0 end.

(** [k[n..]]: panics when the key is shorter. *)
Definition strip (n : Z) (k : bytes) : result bytes := or_panic (slice k n (zlen k)).

Definition with_value (r : OpResponse) (v : option bytes) : OpResponse :=
  mkOpResponse v (suffixes r) (hits r) (tail r) (fault r).
Definition with_suffixes (r : OpResponse) (s : list bytes) : OpResponse :=
  mkOpResponse (value r) s (hits r) (tail r) (fault r).
Definition with_page (r : OpResponse) (h : list (bytes * bytes)) (t : Z) : OpResponse :=
  mkOpResponse (value r) (suffixes r) h (Some t) (fault r).
Definition with_fault (r : OpResponse) (e : bytes) : OpResponse :=
  mkOpResponse (value r) (suffixes r) (hits r) (tail r) (Some e).

(** What the op loop does after one operation: go on, or return. *)
Inductive flow : Type :=
| Next (batch : Batch) (resp : OpResponse)
| Return (answer : option OpResponse)
| Unwind.

Section Receiver.
Context {S : Type} `{VirtualStorage S}.

(** [flush_pending]: [None] is success, [Some] the engine's refusal; a panic
    of the engine unwinds. *)
Definition flush_pending (s : S) (b : Batch) : S * outcome unit (option bytes) :=
  match ops b with
  | [] => (s, Ok None)
  | _ =>
      let '(s, r) := vs_commit_batch s b in
      match r with
      | Ok _ => (s, Ok None)
      | Err e => (s, Ok (Some (to_string e)))
      | Panic => (s, Panic)
      end
  end.

(** Flush first, then answer from the engine; a refused flush stops the frame
    with a fault. *)
Definition after_flush (s : S) (b : Batch) (resp : OpResponse) (k : S -> flow) : S * flow :=
  let '(s, r) := flush_pending s b in
  match r with
  | Ok None => (s, k s)
  | Ok (Some fault) => (s, Return (Some (with_fault resp fault)))
  | _ => (s, Unwind)
  end.

Definition apply_get (p : option bytes) (key : bytes) (resp : OpResponse) (s : S) : flow :=
  match vs_get s (hosted_key p key) with
  | Ok v => Next Batch_default (with_value resp v)
  | Err e => Next Batch_default (with_fault resp (to_string e))
  | Panic => Unwind
  end.

(** The three scan requests: [[0x00]] unbounded, [[0x01][end]] bounded,
    anything else a prefix scan. *)
Definition scan_request (p : option bytes) (hk value : bytes) (s : S) : result (list bytes) :=
  match value with
  | [0x00] => ks ← vs_scan_range s hk None; mapM (strip (plen p)) ks
  | 0x01 :: end_ =>
      ks ← vs_scan_range s hk (Some (hosted_key p end_)); mapM (strip (plen p)) ks
  | _ => vs_scan_suffix s hk
  end.

Definition apply_scan (p : option bytes) (key value : bytes) (resp : OpResponse) (s : S) : flow :=
  match scan_request p (hosted_key p key) value s with
  | Ok keys => Next Batch_default (with_suffixes resp keys)
  | Err e => Next Batch_default (with_suffixes (with_fault resp (to_string e)) [])
  | Panic => Unwind
  end.

(** The loop that fills a page: it stops at an error item or when the page
    holds [want] pairs ([None] is [usize::MAX], never reached). *)
Fixpoint fill_page (n : Z) (want : option Z) (items : list pair_item)
    (pairs : list (bytes * bytes)) (resp : OpResponse)
    : outcome unit (list (bytes * bytes) * OpResponse) :=
  match items with
  | [] => Ok (pairs, resp)
  | Ok (k, v) :: items =>
      match strip n k with
      | Ok k =>
          let pairs := pairs ++ [(k, v)] in
          if bool_decide (Some (zlen pairs) = want) then Ok (pairs, resp)
          else fill_page n want items pairs resp
      | _ => Panic
      end
  | Err e :: _ => Ok (pairs, with_fault resp (to_string e))
  | Panic :: _ => Panic
  end.

(** [&value[1..value.len() - 1]] *)
Definition end_span (v : bytes) : outcome unit bytes := or_panic (slice v 1 (zlen v - 1)).

Definition page_want (page : Z) : option Z :=
  if page =? 0xFF then None else if page =? 0 then Some 256 else Some page.

Definition apply_stream (p : option bytes) (key value : bytes) (resp : OpResponse) (s : S) : flow :=
  match last value, value with
  | Some page, flag :: _ =>
      let bounds :=
        if flag =? 0x00 then Some (Ok None, false)
        else if flag =? 0x01 then Some (e ← end_span value; Ok (Some (hosted_key p e)), false)
        else if flag =? 0x02 then Some (e ← end_span value; Ok (Some (hosted_key p e)), true)
        else if flag =? 0x03 then Some (Ok None, true)
        else None in
      match bounds with
      | None => Return None
      | Some (Ok end_, exclusive) =>
          let hk := hosted_key p key in
          match (if exclusive : bool then prefix_end hk else Some hk) with
          | None => Unwind
          | Some begin =>
              let want := page_want page in
              match fill_page (plen p) want (vs_scan_range_iter s begin end_) [] resp with
              | Ok (pairs, resp) =>
                  let tl := if bool_decide (Some (zlen pairs) = want) then TAIL_MORE else TAIL_FINAL in
                  Next Batch_default (with_page resp pairs tl)
              | _ => Unwind
              end
          end
      | Some (_, _) => Unwind
      end
  | _, _ => Return None
  end.

(** The op loop of [ExecCore::apply] with the commit that ends it. *)
Fixpoint apply_ops (p : option bytes) (l : list Op) (s : S) (batch : Batch) (resp : OpResponse)
    : S * outcome unit (option OpResponse) :=
  match l with
  | [] =>
      let '(s, r) := vs_commit_batch s batch in
      match r with
      | Ok _ => (s, Ok (Some resp))
      | Err e => (s, Ok (Some (with_fault resp (to_string e))))
      | Panic => (s, Panic)
      end
  | (tag, key, value) :: l =>
      let '(s, next) :=
        if tag =? OP_PUT then (s, Next (Batch_put batch (hosted_key p key) value) resp)
        else if tag =? OP_DELETE then (s, Next (Batch_del batch (hosted_key p key)) resp)
        else if tag =? OP_GET then after_flush s batch resp (apply_get p key resp)
        else if tag =? OP_SCAN then after_flush s batch resp (apply_scan p key value resp)
        else if tag =? OP_SCAN_STREAM then after_flush s batch resp (apply_stream p key value resp)
        else (s, Return None) in
      match next with
      | Next batch resp => apply_ops p l s batch resp
      | Return answer => (s, Ok answer)
      | Unwind => (s, Panic)
      end
  end.

(** [ExecCore::apply] *)
Definition apply (c : ExecCore S) (frame : bytes) : ExecCore S * outcome unit (option OpResponse) :=
  match OpFrame_decode frame with
  | None => (c, Ok None)
  | Some f =>
      let '(s, r) := apply_ops (core_prefix c) (frame_ops f) (engine c) Batch_default OpResponse_default in
      (mkExecCore s (core_prefix c), r)
  end.

(** One turn of the pump of [NestStorage::serve]. *)
Definition pump (c : ExecCore S) (frame : bytes) : ExecCore S * option OpResponse :=
  let '(c, r) := apply c frame in
  match r with
  | Ok answer => (c, answer)
  | _ => (c, Some (with_fault OpResponse_default host_panicked))
  end.

(** ** The sender *)

(** [RemoteStore::round_trip] on the reference transport. *)
Definition round_trip (c : ExecCore S) (f : OpFrame) : ExecCore S * result OpResponse :=
  let '(c, answer) := pump c (OpFrame_encode f) in
  match answer with
  | None => (c, Err (Engine reply_missing))
  | Some resp =>
      match fault resp with
      | Some text => (c, Err (Engine text))
      | None => (c, Ok resp)
      end
  end.

Definition map_answer {A B} (f : A -> B) (x : ExecCore S * result A) : ExecCore S * result B :=
  (x.1, a ← x.2; Ok (f a)).

Definition RemoteStore_put (c : ExecCore S) (key value : bytes) : ExecCore S * result unit :=
  map_answer (λ _, tt) (round_trip c (OpFrame_one OP_PUT key value)).

Definition RemoteStore_get (c : ExecCore S) (key : bytes) : ExecCore S * result (option bytes) :=
  map_answer value (round_trip c (OpFrame_one OP_GET key [])).

Definition RemoteStore_del (c : ExecCore S) (key : bytes) : ExecCore S * result unit :=
  map_answer (λ _, tt) (round_trip c (OpFrame_one OP_DELETE key [])).

Definition RemoteStore_scan_suffix (c : ExecCore S) (p : bytes) : ExecCore S * result (list bytes) :=
  map_answer suffixes (round_trip c (OpFrame_one OP_SCAN p [])).

Definition RemoteStore_scan_range (c : ExecCore S) (begin : bytes) (end_ : option bytes)
    : ExecCore S * result (list bytes) :=
  let value := match end_ with Some e => 1 :: e | None => [0] end in
  map_answer suffixes (round_trip c (OpFrame_one OP_SCAN begin value)).

Definition RemoteStore_commit_batch (c : ExecCore S) (b : Batch) : ExecCore S * result unit :=
  map_answer (λ _, tt) (round_trip c (OpFrame_write_batch (ops b))).

(** [RemoteStore::stream_page] *)
Definition page_request (begin : bytes) (end_ : option bytes) (exclusive : bool) (page : Z) : OpFrame :=
  let flag := match exclusive, end_ with
              | true, Some _ => 0x02
              | true, None => 0x03
              | false, Some _ => 0x01
              | false, None => 0x00
              end in
  OpFrame_one OP_SCAN_STREAM begin ([flag] ++ default [] end_ ++ [page]).

Definition stream_page (c : ExecCore S) (begin : bytes) (end_ : option bytes) (exclusive : bool) (page : Z)
    : ExecCore S * result OpResponse :=
  round_trip c (page_request begin end_ exclusive page).
End Receiver.

(** ** The paged stream *)

Record RemoteScanIter : Type := mkIter {
  it_begin : bytes;
  it_end : option bytes;
  it_page : Z;
  buf : list (bytes * bytes);
  cursor : option bytes;
  done_ : bool
}.

Definition RemoteStore_scan_range_iter (begin : bytes) (end_ : option bytes) : RemoteScanIter :=
  mkIter begin end_ 0 [] None false.

Section Stream.
Context {S : Type} `{VirtualStorage S}.

Definition refill (c : ExecCore S) (it : RemoteScanIter) : ExecCore S * RemoteScanIter * result unit :=
  if done_ it then (c, it, Ok tt) else
  let '(exclusive, begin, it) :=
    match cursor it with
    | Some last => (true, last, mkIter (it_begin it) (it_end it) (it_page it) (buf it) None (done_ it))
    | None => (false, it_begin it, mkIter [] (it_end it) (it_page it) (buf it) None (done_ it))
    end in
  let '(c, r) := stream_page c begin (it_end it) exclusive (it_page it) in
  match r with
  | Ok resp =>
      (c, mkIter (it_begin it) (it_end it) (it_page it) (buf it ++ hits resp) (cursor it)
            (bool_decide (tail resp <> Some TAIL_MORE)), Ok tt)
  | Err e => (c, it, Err e)
  | Panic => (c, it, Panic)
  end.

Definition set_buf (it : RemoteScanIter) (b : list (bytes * bytes)) (cur : option bytes) : RemoteScanIter :=
  mkIter (it_begin it) (it_end it) (it_page it) b cur (done_ it).

Definition set_done (it : RemoteScanIter) : RemoteScanIter :=
  mkIter (it_begin it) (it_end it) (it_page it) (buf it) (cursor it) true.

Definition consume_front (it : RemoteScanIter) : RemoteScanIter * option (bytes * bytes) :=
  match buf it with
  | [] => (it, None)
  | item :: rest => (set_buf it rest (Some item.1), Some item)
  end.

Definition consume_back (it : RemoteScanIter) : RemoteScanIter * option (bytes * bytes) :=
  match last (buf it) with
  | None => (it, None)
  | Some item => (set_buf it (removelast (buf it)) (Some item.1), Some item)
  end.

(** The refill loop shared by [next] and [next_back]: [Some e] is the error
    item it hands out.  Each turn fills the buffer or ends the walk, so two
    turns of fuel are enough ([refill_loop_enough]). *)
Fixpoint refill_loop (fuel : nat) (c : ExecCore S) (it : RemoteScanIter)
    : ExecCore S * RemoteScanIter * outcome unit (option Error) :=
  if bool_decide (buf it = []) && negb (done_ it) then
    match fuel with
    | O => (c, it, Panic)
    | Datatypes.S fuel =>
        let '(c, it, r) := refill c it in
        match r with
        | Ok _ => refill_loop fuel c it
        | Err e => (c, set_done it, Ok (Some e))
        | Panic => (c, it, Panic)
        end
    end
  else (c, it, Ok None).

Definition next_with (consume : RemoteScanIter -> RemoteScanIter * option (bytes * bytes))
    (c : ExecCore S) (it : RemoteScanIter) : ExecCore S * RemoteScanIter * option pair_item :=
  let '(c, it, r) := refill_loop 2 c it in
  match r with
  | Ok (Some e) => (c, it, Some (Err e))
  | Ok None => let '(it, item) := consume it in (c, it, Ok <$> item)
  | _ => (c, it, Some Panic)
  end.

Definition next := next_with consume_front.
Definition next_back := next_with consume_back.

(** [n] calls of [next] (or of [next_back]), stopping where it answers [None]. *)
Fixpoint take_items (step : ExecCore S -> RemoteScanIter -> ExecCore S * RemoteScanIter * option pair_item)
    (n : nat) (c : ExecCore S) (it : RemoteScanIter) : list pair_item :=
  match n with
  | O => []
  | Datatypes.S n =>
      let '(c, it, item) := step c it in
      match item with
      | None => []
      | Some item => item :: take_items step n c it
      end
  end.
End Stream.

(** * Lemmas *)

(** ** The sender's keyspace

    What an engine's contents look like from behind a hosted prefix. *)
Definition strip_prefix (p : option bytes) (k : bytes) : option bytes :=
  match p with
  | Some p => if decide (take (length p) k = p) then Some (drop (length p) k) else None
  | None => Some k
  end.

Definition view (p : option bytes) (m : gmap bytes bytes) : gmap bytes bytes :=
  list_to_map (omap (λ kv, (λ k, (k, kv.2)) <$> strip_prefix p kv.1) (map_to_list m)).

Lemma strip_prefix_Some p k s : strip_prefix p k = Some s <-> k = hosted_key p s.
Proof.
  destruct p as [p|]; simpl; [|naive_solver]. case_decide as T.
  - apply take_prefix in T as [s' ->]. rewrite drop_app_length. split; [by intros [= ->]|].
    by intros ->%app_inv_head.
  - split; [done|]. intros ->. destruct T. apply take_app_length.
Qed.

Lemma hosted_key_inj p a b : hosted_key p a = hosted_key p b -> a = b.
Proof. destruct p; simpl; [apply app_inv_head|done]. Qed.

Lemma lookup_view p m k : view p m !! k = m !! hosted_key p k.
Proof.
  unfold view. apply option_eq. intros v. rewrite <- elem_of_list_to_map.
  - rewrite list_elem_of_omap. split.
    + intros ([k' v'] & Hm%elem_of_map_to_list & E). simpl in E.
      destruct (strip_prefix p k') as [s|] eqn:Es; simplify_eq/=.
      by apply strip_prefix_Some in Es as ->.
    + intros Hm. exists (hosted_key p k, v). rewrite elem_of_map_to_list. split; [done|].
      simpl. by rewrite (proj2 (strip_prefix_Some p _ k)).
  - generalize (NoDup_fst_map_to_list m). induction (map_to_list m) as [|[k' v'] l IH]; simpl; [constructor|].
    rewrite NoDup_cons. intros [Hk Hl]. unfold omap in *. simpl.
    destruct (strip_prefix p k') as [s|] eqn:Es; simpl; [|by apply IH].
    constructor; [|by apply IH]. intros (y & -> & Hy)%list_elem_of_fmap.
    apply list_elem_of_omap in Hy as ([k2 v2] & Hin & E2). simpl in E2.
    destruct (strip_prefix p k2) as [s2|] eqn:Es2; simplify_eq/=.
    apply strip_prefix_Some in Es, Es2. subst. destruct Hk.
    apply list_elem_of_fmap. by exists (hosted_key p s2, v2).
Qed.

Lemma view_insert p m k v : view p (<[hosted_key p k := v]> m) = <[k := v]> (view p m).
Proof.
  apply map_eq. intros x. rewrite lookup_view. destruct (decide (k = x)) as [->|N].
  - by rewrite !lookup_insert_eq.
  - rewrite !lookup_insert_ne, lookup_view; [done|done|]. by intros ?%hosted_key_inj.
Qed.

Lemma view_delete p m k : view p (delete (hosted_key p k) m) = delete k (view p m).
Proof.
  apply map_eq. intros x. rewrite lookup_view. destruct (decide (k = x)) as [->|N].
  - by rewrite !lookup_delete_eq.
  - rewrite !lookup_delete_ne, lookup_view; [done|done|]. by intros ?%hosted_key_inj.
Qed.

Lemma plen_zlen p : plen p = zlen (hosted_key p []).
Proof. destruct p; simpl; [by rewrite app_nil_r|done]. Qed.

Lemma strip_hosted p k : strip (plen p) (hosted_key p k) = Ok k.
Proof.
  unfold strip. destruct p as [p|]; simpl.
  - pose proof (slice_app p k []) as E. rewrite app_nil_r in E. rewrite zlen_app. by rewrite E.
  - pose proof (slice_app [] k []) as E. rewrite app_nil_r in E. simpl in E.
    change (zlen []) with 0 in E. rewrite Z.add_0_l in E. by rewrite E.
Qed.

Lemma mapM_strip_hosted p ks : mapM (strip (plen p)) (map (hosted_key p) ks) = Ok ks.
Proof. induction ks as [|k ks IH]; [done|]. simpl. rewrite strip_hosted. simpl. by rewrite IH. Qed.

Lemma hosted_le p a b : hosted_key p a ≼ hosted_key p b <-> a ≼ b.
Proof. destruct p; simpl; [apply bytes_le_app|done]. Qed.

Lemma hosted_lt p a b : hosted_key p a ≺ hosted_key p b <-> a ≺ b.
Proof. destruct p; simpl; [apply bytes_lt_app|done]. Qed.

Lemma hosted_map_sorted p l :
  StronglySorted bytes_le l -> StronglySorted bytes_le (map (hosted_key p) l).
Proof.
  induction 1 as [|x l Hl IH Hx]; simpl; constructor; [done|].
  apply Forall_forall. intros y (z & -> & Hz)%list_elem_of_fmap. apply hosted_le.
  by eapply Forall_forall in Hx.
Qed.

(** A range that ends inside the prefix is the sender's own range. *)
Lemma range_keys_hosted p m b e :
  p = None \/ is_Some e ->
  range_keys m (hosted_key p b) (hosted_key p <$> e) =
  map (hosted_key p) (range_keys (view p m) b e).
Proof.
  intros He. apply sorted_unique.
  - apply range_keys_sorted.
  - apply hosted_map_sorted, range_keys_sorted.
  - apply range_keys_NoDup.
  - apply NoDup_fmap_2; [|apply range_keys_NoDup]. intros x y. apply hosted_key_inj.
  - intros x. rewrite elem_of_range_keys, (list_elem_of_fmap (hosted_key p)). split.
    + intros (Hx & Hb & Hlt).
      assert (exists s, x = hosted_key p s) as [s ->].
      { destruct p as [p|]; [|by exists x]. destruct He as [|[e' ->]]; [done|]. simpl in *.
        by eapply between_prefix. }
      exists s. split; [done|]. rewrite elem_of_range_keys, lookup_view.
      split; [done|]. split; [by apply hosted_le in Hb|]. destruct e; simpl in *; [|done].
      by apply hosted_lt in Hlt.
    + intros (s & -> & Hs). rewrite elem_of_range_keys, lookup_view in Hs.
      destruct Hs as (Hx & Hb & Hlt). split; [done|]. split; [by apply hosted_le|].
      destruct e; simpl in *; [|done]. by apply hosted_lt.
Qed.

(** ** Execution of a frame

    The specification: the operations one after another on the sender's own
    keyspace, no batch and no prefix in sight. *)
Definition spec_op (v : gmap bytes bytes) (resp : OpResponse) (op : Op)
    : gmap bytes bytes * OpResponse :=
  let '(tag, key, val) := op in
  if tag =? OP_PUT then (<[key := val]> v, resp)
  else if tag =? OP_DELETE then (delete key v, resp)
  else if tag =? OP_GET then (v, with_value resp (v !! key))
  else match val with
       | 0x01 :: e => (v, with_suffixes resp (range_keys v key (Some e)))
       | _ => (v, with_suffixes resp (range_keys v key None))
       end.

Fixpoint spec_ops (v : gmap bytes bytes) (resp : OpResponse) (l : list Op)
    : gmap bytes bytes * OpResponse :=
  match l with
  | [] => (v, resp)
  | op :: l => let '(v, resp) := spec_op v resp op in spec_ops v resp l
  end.

(** Writes, point reads and ranges whose end the prefix bounds. *)
Definition hostable (p : option bytes) (op : Op) : Prop :=
  let '(tag, key, val) := op in
  tag = OP_PUT \/ tag = OP_DELETE \/ tag = OP_GET \/
  tag = OP_SCAN /\ ((exists e, val = 0x01 :: e) \/ (val = [0x00] /\ p = None)).

Section Proofs.
Context {S : Type} `{ReliableStorage S}.

Lemma flush_spec (s : S) b :
  exists s', flush_pending s b = (s', Ok None) /\
  contents s' = apply_batch (contents s) (ops b).
Proof.
  unfold flush_pending. destruct (ops b) as [|op l] eqn:E; [by exists s|].
  destruct (commit_batch_spec s b) as (s' & -> & Ec). exists s'. by rewrite Ec, E.
Qed.

Lemma after_flush_spec (s : S) b resp k :
  exists s', after_flush s b resp k = (s', k s') /\
  contents s' = apply_batch (contents s) (ops b).
Proof.
  unfold after_flush. destruct (flush_spec s b) as (s' & -> & E). by exists s'.
Qed.

Lemma apply_batch_put m b k v :
  apply_batch m (ops (Batch_put b k v)) = <[k := v]> (apply_batch m (ops b)).
Proof. apply (apply_batch_snoc m (ops b) (k, Some v)). Qed.

Lemma apply_batch_del (m : gmap bytes bytes) b k :
  apply_batch m (ops (Batch_del b k)) = delete k (apply_batch m (ops b)).
Proof. apply (apply_batch_snoc m (ops b) (k, None)). Qed.

(** One hostable operation, with what is still pending in the batch. *)
Lemma apply_scan_hosted p key val resp (s : S) :
  (exists e, val = 0x01 :: e) \/ (val = [0x00] /\ p = None) ->
  apply_scan p key val resp s =
  Next Batch_default (spec_op (view p (contents s)) resp (OP_SCAN, key, val)).2.
Proof.
  intros [[e ->]|[-> ->]]; unfold apply_scan, scan_request; rewrite scan_range_spec; simpl.
  - pose proof (range_keys_hosted p (contents s) key (Some e) (or_intror (ex_intro _ e eq_refl))) as E.
    simpl in E. rewrite E. simpl. by rewrite mapM_strip_hosted.
  - pose proof (range_keys_hosted None (contents s) key None (or_introl eq_refl)) as E.
    simpl in E. rewrite E. simpl. by rewrite (mapM_strip_hosted None).
Qed.

(** Batching, flushing and prefixing are invisible: a frame does to the
    sender's keyspace what its operations do in order, and answers the same. *)
Lemma apply_ops_refines p l : Forall (hostable p) l -> forall (s : S) batch resp,
  exists s', apply_ops p l s batch resp =
    (s', Ok (Some (spec_ops (view p (apply_batch (contents s) (ops batch))) resp l).2)) /\
  view p (contents s') = (spec_ops (view p (apply_batch (contents s) (ops batch))) resp l).1.
Proof.
  induction 1 as [|[[tag key] val] l Hop Hl IH]; intros s batch resp.
  - simpl. destruct (commit_batch_spec s batch) as (s' & -> & E). exists s'. by rewrite E.
  - destruct Hop as [-> | [-> | [-> | [-> Hv]]]].
    + simpl. destruct (IH s (Batch_put batch (hosted_key p key) val) resp) as (s' & E & Ec).
      exists s'. by rewrite E, Ec, apply_batch_put, view_insert.
    + simpl. destruct (IH s (Batch_del batch (hosted_key p key)) resp) as (s' & E & Ec).
      exists s'. by rewrite E, Ec, apply_batch_del, view_delete.
    + cbn [apply_ops]. change (OP_GET =? OP_PUT) with false. change (OP_GET =? OP_DELETE) with false.
      change (OP_GET =? OP_GET) with true. cbn iota.
      destruct (after_flush_spec s batch resp (apply_get p key resp)) as (s1 & -> & E1).
      unfold apply_get. rewrite get_spec.
      destruct (IH s1 Batch_default (with_value resp (contents s1 !! hosted_key p key))) as (s' & E & Ec).
      exists s'. rewrite E, Ec. simpl. by rewrite E1, lookup_view.
    + cbn [apply_ops]. change (OP_SCAN =? OP_PUT) with false. change (OP_SCAN =? OP_DELETE) with false.
      change (OP_SCAN =? OP_GET) with false. change (OP_SCAN =? OP_SCAN) with true. cbn iota.
      destruct (after_flush_spec s batch resp (apply_scan p key val resp)) as (s1 & -> & E1).
      rewrite apply_scan_hosted by done.
      destruct (IH s1 Batch_default (spec_op (view p (contents s1)) resp (OP_SCAN, key, val)).2)
        as (s' & E & Ec).
      exists s'. rewrite E, Ec, E1. cbn [spec_ops].
      destruct Hv as [[e ->]|[-> ->]]; done.
Qed.

Lemma apply_frame_refines (c : ExecCore S) f :
  OpFrame_ok f -> Forall (hostable (core_prefix c)) (frame_ops f) ->
  exists c', apply c (OpFrame_encode f) =
    (c', Ok (Some (spec_ops (view (core_prefix c) (contents (engine c))) OpResponse_default (frame_ops f)).2)) /\
  core_prefix c' = core_prefix c /\
  view (core_prefix c) (contents (engine c')) =
    (spec_ops (view (core_prefix c) (contents (engine c))) OpResponse_default (frame_ops f)).1.
Proof.
  intros Hf Hl. unfold apply. pose proof (OpFrame_decode_encode f [] Hf) as D. rewrite app_nil_r in D. rewrite D by apply Hf.
  destruct (apply_ops_refines (core_prefix c) (frame_ops f) Hl (engine c) Batch_default OpResponse_default)
    as (s' & -> & E). simpl in *. by exists (mkExecCore s' (core_prefix c)).
Qed.

(** C29: batching, flushing before reads and prefixing are invisible: posted
    to the host, a frame of hostable operations does to the sender's keyspace
    what its operations do one after the other on a plain map, and is
    answered what the last reads of that map answer. *)
Theorem nest_frame_refines (c : ExecCore S) f :
  OpFrame_ok f -> Forall (hostable (core_prefix c)) (frame_ops f) ->
  let p := core_prefix c in
  let spec := spec_ops (view p (contents (engine c))) OpResponse_default (frame_ops f) in
  exists c', pump c (OpFrame_encode f) = (c', Some spec.2) /\
  core_prefix c' = p /\ view p (contents (engine c')) = spec.1.
Proof.
  intros Hf Hl p spec. destruct (apply_frame_refines c f Hf Hl) as (c' & E & Ep & Ev).
  exists c'. unfold pump. by rewrite E.
Qed.

(** ** Isolation of writes *)

Definition outside (p : option bytes) (k : bytes) : Prop := strip_prefix p k = None.

Definition same_outside (p : option bytes) (m m' : gmap bytes bytes) : Prop :=
  forall k, outside p k -> m' !! k = m !! k.

Lemma hosted_not_outside p k k' : outside p k -> hosted_key p k' <> k.
Proof.
  unfold outside. intros Ho <-. by rewrite (proj2 (strip_prefix_Some p _ k')) in Ho.
Qed.

Definition batch_hosted (p : option bytes) (b : Batch) : Prop :=
  Forall (λ op : bytes * option bytes, exists k, op.1 = hosted_key p k) (ops b).

Lemma apply_batch_outside p m l :
  Forall (λ op : bytes * option bytes, exists k, op.1 = hosted_key p k) l ->
  same_outside p m (apply_batch m l).
Proof.
  revert m. induction l as [|[k v] l IH]; intros m; [done|].
  intros [[k' E] Hl]%Forall_cons x Hx. simpl in *. subst k.
  rewrite (IH _ Hl x Hx). unfold apply_op. simpl. pose proof (hosted_not_outside p x k' Hx).
  destruct v; [by rewrite lookup_insert_ne|by rewrite lookup_delete_ne].
Qed.

(** A stream page leaves nothing pending. *)
Lemma apply_stream_fresh p key val resp (s : S) :
  match apply_stream p key val resp s with Next b _ => b = Batch_default | _ => True end.
Proof.
  unfold apply_stream. destruct (last val); [|done]. destruct val as [|flag val]; [done|].
  cbv zeta. match goal with |- context [match ?b with Some _ => _ | None => _ end] => generalize b end.
  intros [[[e| |] x]|]; try done.
  destruct (if x then _ else _); [|done]. by destruct (fill_page _ _ _ _ _) as [[? ?]| |].
Qed.

Lemma apply_ops_outside p l : forall (s : S) batch resp s' r,
  batch_hosted p batch -> apply_ops p l s batch resp = (s', r) ->
  same_outside p (contents s) (contents s').
Proof.
  assert (forall (s s' : S) b, contents s' = apply_batch (contents s) (ops b) ->
    batch_hosted p b -> same_outside p (contents s) (contents s')) as F.
  { intros s s' b E Hb x Hx. rewrite E. by apply (apply_batch_outside p). }
  assert (batch_hosted p Batch_default) as D by constructor.
  induction l as [|[[tag key] val] l IH]; intros s batch resp s' r Hb; cbn [apply_ops].
  - destruct (commit_batch_spec s batch) as (s1 & -> & E). intros [= <- <-]. by eapply F.
  - assert (forall k, let '(s0, next) := after_flush s batch resp k in
      contents s0 = apply_batch (contents s) (ops batch) /\ next = k s0) as A.
    { intros k. destruct (after_flush_spec s batch resp k) as (s1 & -> & E). done. }
    assert (forall k, (forall s0, match k s0 with Next b _ => b = Batch_default | _ => True end) ->
      (let '(s, next) := after_flush s batch resp k in
       match next with Next batch resp => apply_ops p l s batch resp
       | Return answer => (s, Ok answer) | Unwind => (s, Panic) end) = (s', r) ->
      same_outside p (contents s) (contents s')) as Q.
    { intros k Hk. specialize (A k). destruct (after_flush s batch resp k) as [s0 nx].
      destruct A as [E ->]. specialize (Hk s0). destruct (k s0) as [b rs|ans|].
      - subst b. intros Hr. specialize (IH s0 Batch_default rs s' r D Hr).
        intros x Hx. rewrite (IH x Hx). by eapply F.
      - intros [= <- _]. by eapply F.
      - intros [= <- _]. by eapply F. }
    destruct (tag =? OP_PUT); [|destruct (tag =? OP_DELETE)].
    + intros Hr. apply (IH s (Batch_put batch (hosted_key p key) val) resp s' r); [|done].
      apply Forall_app. split; [done|]. constructor; [|done]. by eexists.
    + intros Hr. apply (IH s (Batch_del batch (hosted_key p key)) resp s' r); [|done].
      apply Forall_app. split; [done|]. constructor; [|done]. by eexists.
    + destruct (tag =? OP_GET); [|destruct (tag =? OP_SCAN); [|destruct (tag =? OP_SCAN_STREAM)]].
      * apply Q. intros s0. unfold apply_get. by destruct (vs_get _ _).
      * apply Q. intros s0. unfold apply_scan. by destruct (scan_request _ _ _ _).
      * apply Q. intros s0. apply apply_stream_fresh.
      * intros [= <- _]. done.
Qed.

(** Whatever bytes a sender posts, well formed or not, no key outside the
    host's declared prefix changes. *)
Theorem nest_write_isolation (c : ExecCore S) frame k :
  outside (core_prefix c) k ->
  contents (engine (apply c frame).1) !! k = contents (engine c) !! k.
Proof.
  intros Hk. unfold apply. destruct (OpFrame_decode frame) as [f|]; [|done].
  destruct (apply_ops _ _ _ _ _) as [s' r] eqn:E. simpl.
  eapply apply_ops_outside in E; [by apply E|constructor].
Qed.
End Proofs.

(** ** The sender's verbs *)

Section Sender.
Context {S : Type} `{ReliableStorage S}.

(** Keys and values short enough to be framed. *)
Definition frameable (k v : bytes) : Prop := zlen k < 2 ^ 31 /\ zlen v < 2 ^ 31.

Lemma put_len_zlen v : 0 <= v -> zlen (put_len [] v) <= 5.
Proof.
  intros _. unfold put_len. repeat case_match; unfold zlen; simpl; rewrite ?be_bytes_length; lia.
Qed.

Lemma OpFrame_one_ok tag k v :
  0 <= tag <= OP_SCAN_STREAM -> short k -> short v -> OpFrame_ok (OpFrame_one tag k v).
Proof.
  unfold short. intros Ht Hk Hv. split; [|split].
  - constructor; [|constructor]. unfold op_ok. split; [done|lia].
  - done.
  - unfold OpFrame_one, OpFrame_encode, frame_fits. simpl. unfold put_op_header.
    rewrite (put_len_app (put_len _ _)), (put_len_app (_ ++ _)).
    pose proof (put_len_zlen (zlen k) (zlen_nonneg k)).
    pose proof (put_len_zlen (zlen v) (zlen_nonneg v)).
    change (put_len [] (zlen [(tag, k, v)])) with [1]. zlia.
Qed.

(** One framed operation is one step of the specification. *)
Lemma round_trip_spec (c : ExecCore S) tag k v :
  let p := core_prefix c in
  let op := (tag, k, v) in
  hostable p op -> short k -> short v ->
  exists c', round_trip c (OpFrame_one tag k v) =
    (c', Ok (spec_op (view p (contents (engine c))) OpResponse_default op).2) /\
  core_prefix c' = p /\
  view p (contents (engine c')) = (spec_op (view p (contents (engine c))) OpResponse_default op).1.
Proof.
  intros p op Hop Hk Hv.
  assert (0 <= tag <= OP_SCAN_STREAM) as Ht.
  { unfold OP_SCAN_STREAM. destruct Hop as [-> | [-> | [-> | [-> _]]]];
      unfold OP_PUT, OP_DELETE, OP_GET, OP_SCAN; lia. }
  destruct (apply_frame_refines c (OpFrame_one tag k v)) as (c' & E & Ep & Ev).
  - by apply OpFrame_one_ok.
  - by constructor; [|constructor].
  - exists c'. unfold round_trip, pump. rewrite E.
    cbn [OpFrame_one frame_ops spec_ops] in *.
    change (spec_op (view (core_prefix c) (contents (engine c))) OpResponse_default (tag, k, v))
      with (spec_op (view p (contents (engine c))) OpResponse_default op) in *.
    destruct (spec_op _ _ _) as [m r] eqn:Es. simpl in *.
    assert (fault r = None) as ->; [|done].
    unfold op, spec_op in Es. repeat case_match; by simplify_eq/=.
Qed.

(** The remote store is the sender's own keyspace: its point verbs and its
    bounded scan do to it, and answer, what the engine contract says. *)
Theorem RemoteStore_refines (c : ExecCore S) k v :
  let p := core_prefix c in
  let m := view p (contents (engine c)) in
  let after c' m' := core_prefix c' = p /\ view p (contents (engine c')) = m' in
  frameable k v ->
  (exists c', RemoteStore_get c k = (c', Ok (m !! k)) /\ after c' m) /\
  (exists c', RemoteStore_put c k v = (c', Ok tt) /\ after c' (<[k := v]> m)) /\
  (exists c', RemoteStore_del c k = (c', Ok tt) /\ after c' (delete k m)) /\
  (exists c', RemoteStore_scan_range c k (Some v) = (c', Ok (range_keys m k (Some v))) /\ after c' m).
Proof.
  intros p m after [Hk Hv].
  assert (short k) as Sk by (unfold short; lia). assert (short v) as Sv by (unfold short; lia).
  split; [|split; [|split]].
  - destruct (round_trip_spec c OP_GET k []) as (c' & E & Ep & Ev); [unfold hostable; auto|done..|].
    exists c'. split; [|by split]. unfold RemoteStore_get, map_answer. by rewrite E.
  - destruct (round_trip_spec c OP_PUT k v) as (c' & E & Ep & Ev); [unfold hostable; auto|done..|].
    exists c'. split; [|by split]. unfold RemoteStore_put, map_answer. by rewrite E.
  - destruct (round_trip_spec c OP_DELETE k []) as (c' & E & Ep & Ev); [unfold hostable; auto|done..|].
    exists c'. split; [|by split]. unfold RemoteStore_del, map_answer. by rewrite E.
  - destruct (round_trip_spec c OP_SCAN k (1 :: v)) as (c' & E & Ep & Ev); [|done|..].
    + right. right. right. split; [done|]. left. by exists v.
    + unfold short. zlia.
    + exists c'. split; [|by split]. unfold RemoteStore_scan_range, map_answer. by rewrite E.
Qed.

(** A batch ships as one frame and lands as one commit. *)
Theorem RemoteStore_commit_refines (c : ExecCore S) b :
  let p := core_prefix c in
  OpFrame_ok (OpFrame_write_batch (ops b)) ->
  exists c', RemoteStore_commit_batch c b = (c', Ok tt) /\ core_prefix c' = p /\
  view p (contents (engine c')) = apply_batch (view p (contents (engine c))) (ops b).
Proof.
  intros p Hf.
  assert (forall l m r, spec_ops m r (frame_ops (OpFrame_write_batch l)) = (apply_batch m l, r)) as Sp.
  { induction l as [|[k [v|]] l IH]; intros m r; [done|..]; simpl; by rewrite IH. }
  destruct (apply_frame_refines c (OpFrame_write_batch (ops b)) Hf) as (c' & E & Ep & Ev).
  - apply Forall_forall. intros op (kv & -> & _)%list_elem_of_fmap.
    destruct kv as [k [v|]]; unfold hostable; auto.
  - rewrite Sp in *. exists c'. split; [|by split].
    unfold RemoteStore_commit_batch, round_trip, pump, map_answer. by rewrite E.
Qed.
End Sender.

(** ** The paged stream *)

Lemma end_span_framed f l page : end_span (f :: l ++ [page]) = Ok l.
Proof.
  unfold end_span. replace (zlen (f :: l ++ [page]) - 1) with (zlen [f] + zlen l) by zlia.
  change 1 with (zlen [f]) at 1. change (f :: l ++ [page]) with ([f] ++ l ++ [page]).
  by rewrite slice_app.
Qed.

Section Paging.
Context {S : Type} `{ReliableStorage S}.
Variables (p : option bytes) (b : bytes) (e : option bytes) (V : gmap bytes bytes).

Definition host_pair (kv : bytes * bytes) : bytes * bytes := (hosted_key p kv.1, kv.2).

(** The rows of the range, in the sender's keyspace. *)
Definition rows : list (bytes * bytes) := range_pairs V b e.

(** What the cursor protocol needs of the keys of the range: one length, and
    a successor at that length. *)
Definition pageable : Prop :=
  exists L, forall k, k ∈ range_keys V b e ->
  bytes_ok (hosted_key p k) /\ length k = L /\ is_Some (prefix_end (hosted_key p k)) /\ short k.

Hypothesis (Hpage : pageable).
Hypothesis (Hbound : p = None \/ is_Some e).
Hypothesis (Hb : short b).
Hypothesis (He : match e with Some e => zlen e < 2 ^ 31 | None => True end).

Lemma pairs_of_keys (m : gmap bytes bytes) ks :
  V = view p m ->
  omap (λ k, (λ v, (k, v)) <$> m !! k) (map (hosted_key p) ks) =
  map host_pair (omap (λ k, (λ v, (k, v)) <$> V !! k) ks).
Proof.
  intros ->. induction ks as [|k ks IH]; [done|]. unfold omap in *. simpl.
  rewrite lookup_view. destruct (m !! hosted_key p k); simpl; by rewrite IH.
Qed.

Lemma rows_keys : map fst rows = range_keys V b e.
Proof.
  unfold rows, range_pairs.
  assert (Forall (λ k, is_Some (V !! k)) (range_keys V b e)) as F.
  { apply Forall_forall. intros k Hk. by apply elem_of_range_keys in Hk as [? _]. }
  induction F as [|k ks [v Hv] Hks IH]; [done|]. unfold omap in *. simpl.
  rewrite Hv. simpl. by rewrite IH.
Qed.

Lemma first_page (m : gmap bytes bytes) :
  V = view p m -> range_pairs m (hosted_key p b) (hosted_key p <$> e) = map host_pair rows.
Proof.
  intros E. unfold range_pairs. rewrite range_keys_hosted, <- E by done. by apply pairs_of_keys.
Qed.

(** Resuming behind a key of the range gives the rest of the range. *)
Lemma resume_keys (m : gmap bytes bytes) pre k post lo :
  V = view p m -> range_keys V b e = pre ++ k :: post -> prefix_end (hosted_key p k) = Some lo ->
  range_keys m lo (hosted_key p <$> e) = map (hosted_key p) post.
Proof using Hpage Hbound He.
  intros EV ER El. destruct Hpage as [L HL].
  pose proof (range_keys_sorted V b e) as SS. pose proof (range_keys_NoDup V b e) as ND.
  assert (k ∈ range_keys V b e) as Hk by (rewrite ER; apply elem_of_app; right; by left).
  destruct (HL k Hk) as (Ok & Lk & _ & _).
  pose proof (prefix_end_spec _ Ok) as PE. rewrite El in PE. destruct PE as (Ll & Ol & Vl).
  assert (forall s, s ∈ range_keys V b e -> (lo ≼ hosted_key p s <-> k ≺ s)) as Step.
  { intros s Hs. destruct (HL s Hs) as (Os & Ls & _ & _).
    assert (length (hosted_key p s) = length (hosted_key p k)) as LL
      by (destruct p; simpl; rewrite ?length_app; lia).
    rewrite <- (hosted_lt p). unfold bytes_le, bytes_lt.
    rewrite !lex_compare_be_val by (done || congruence).
    rewrite Z.compare_lt_iff. rewrite Z.compare_ngt_iff. lia. }
  assert (forall s, s ∈ range_keys V b e -> (k ≺ s <-> s ∈ post)) as After.
  { rewrite ER in SS, ND |- *. apply StronglySorted_app in SS as (Scross & Spre & Spost).
    inversion Spost as [|? ? Sp Fp]; subst.
    apply NoDup_app in ND as (_ & Nx & [Nk Np]%NoDup_cons).
    intros s Hs. split.
    - intros Lt. apply elem_of_app in Hs as [Hs|[->|Hs]%elem_of_cons]; [..|done].
      + exfalso. apply bytes_lt_nle in Lt. apply Lt. apply Scross; [done|by left].
      + by apply bytes_lt_irrefl in Lt.
    - intros Hp. eapply Forall_forall in Fp as Hle; [|exact Hp].
      apply bytes_le_lteq in Hle as [|<-]; [done|done]. }
  apply sorted_unique.
  - apply range_keys_sorted.
  - apply hosted_map_sorted. rewrite ER in SS. apply StronglySorted_app in SS as (_ & _ & SS).
    by inversion SS.
  - apply range_keys_NoDup.
  - apply NoDup_fmap_2; [intros x y; apply hosted_key_inj|].
    rewrite ER in ND. by apply NoDup_app in ND as (_ & _ & [_ ND]%NoDup_cons).
  - intros x. rewrite elem_of_range_keys, (list_elem_of_fmap (hosted_key p)). split.
    + intros (Hx & Hlo & Hlt).
      assert (hosted_key p k ≼ lo) as Klo.
      { unfold bytes_le. rewrite lex_compare_be_val by (done || congruence).
        apply Z.compare_ngt_iff. lia. }
      assert (exists s, x = hosted_key p s) as [s ->].
      { destruct p as [q|]; [|by exists x]. destruct Hbound as [|[e' ->]]; [done|]. simpl in *.
        eapply between_prefix; [|done]. by etrans. }
      assert (s ∈ range_keys V b e) as Hs.
      { apply elem_of_range_keys. rewrite EV, lookup_view. split; [done|]. split.
        - apply elem_of_range_keys in Hk as (_ & Hbk & _). etrans; [done|].
          apply (hosted_le p). by etrans.
        - destruct e; simpl in *; [|done]. by apply hosted_lt in Hlt. }
      exists s. split; [done|]. apply After; [done|]. by apply Step.
    + intros (s & -> & Hs).
      assert (s ∈ range_keys V b e) as Hs' by (rewrite ER; apply elem_of_app; right; by right).
      pose proof Hs' as Hs2. apply elem_of_range_keys in Hs2 as (Hx & Hbs & Hlt).
      rewrite EV, lookup_view in Hx. split; [done|]. split; [by apply Step, After|].
      destruct e; simpl in *; [|done]. by apply hosted_lt.
Qed.

Lemma resume_rows (m : gmap bytes bytes) pre k v post lo :
  V = view p m -> rows = pre ++ (k, v) :: post -> prefix_end (hosted_key p k) = Some lo ->
  range_pairs m lo (hosted_key p <$> e) = map host_pair post.
Proof using Hpage Hbound He.
  intros EV ER El. pose proof rows_keys as RK. rewrite ER, map_app in RK. simpl in RK.
  unfold range_pairs. rewrite (resume_keys m (map fst pre) k (map fst post) lo) by done.
  rewrite (pairs_of_keys m _ EV). f_equal.
  assert (Forall (λ kv : bytes * bytes, V !! kv.1 = Some kv.2) rows) as F.
  { apply Forall_forall. intros [k' v'] Hin. unfold rows, range_pairs in Hin.
    apply list_elem_of_omap in Hin as (k2 & _ & Hk2).
    destruct (V !! k2) eqn:E2; simplify_eq/=. done. }
  rewrite ER in F. apply Forall_app in F as [_ [_ F]%Forall_cons].
  clear -F. induction F as [|[k' v'] l Hv Hl IH]; [done|]. unfold omap in *. simpl in *.
  rewrite Hv. simpl. by rewrite IH.
Qed.

Lemma fill_page_spec w ps acc resp :
  zlen acc < w ->
  fill_page (plen p) (Some w) (map Ok (map host_pair ps)) acc resp
  = Ok (acc ++ take (Z.to_nat (w - zlen acc)) ps, resp).
Proof.
  revert acc. induction ps as [|[k v] ps IH]; intros acc L; simpl.
  - by rewrite firstn_nil, app_nil_r.
  - rewrite strip_hosted. destruct (Z.to_nat (w - zlen acc)) as [|n] eqn:En; [lia|].
    simpl. case_bool_decide as D.
    + injection D as D. rewrite zlen_app in D. change (zlen [(k, v)]) with 1 in D.
      assert (n = 0%nat) as -> by lia. done.
    + assert (zlen (acc ++ [(k, v)]) < w) as L2.
      { assert (zlen (acc ++ [(k, v)]) <> w) by congruence.
        rewrite zlen_app in *. change (zlen [(k, v)]) with 1 in *. lia. }
      rewrite IH by done. rewrite zlen_app. change (zlen [(k, v)]) with 1.
      replace (Z.to_nat (w - (zlen acc + 1))) with n by lia. by rewrite <- app_assoc.
Qed.

(** The host behind the iterator: its prefix and what the sender sees. *)
Definition hosts (c : ExecCore S) : Prop :=
  core_prefix c = p /\ V = view p (contents (engine c)).

Definition page_of (ps : list (bytes * bytes)) : list (bytes * bytes) := take 256 ps.

(** A page of the default size, from either kind of begin. *)
Lemma stream_page_spec (c : ExecCore S) k x ps lo :
  hosts c -> short k ->
  (if x : bool then prefix_end (hosted_key p k) else Some (hosted_key p k)) = Some lo ->
  range_pairs (contents (engine c)) lo (hosted_key p <$> e) = map host_pair ps ->
  exists c' resp, stream_page c k e x 0 = (c', Ok resp) /\ hosts c' /\
  hits resp = page_of ps /\
  (tail resp = Some TAIL_MORE <-> (256 <= length ps)%nat).
Proof using Hbound He.
  intros [Hc HV] Hk El Er. unfold stream_page, round_trip, pump, apply.
  assert (OpFrame_ok (page_request k e x 0)) as Hf.
  { apply OpFrame_one_ok; [unfold OP_SCAN_STREAM; lia|done|].
    unfold short. destruct e; simpl in *; zlia. }
  pose proof (OpFrame_decode_encode _ [] Hf) as Dec. rewrite app_nil_r in Dec. rewrite Dec by apply Hf. clear Dec.
  cbn [page_request OpFrame_one frame_ops apply_ops].
  change (OP_SCAN_STREAM =? OP_PUT) with false. change (OP_SCAN_STREAM =? OP_DELETE) with false.
  change (OP_SCAN_STREAM =? OP_GET) with false. change (OP_SCAN_STREAM =? OP_SCAN) with false.
  change (OP_SCAN_STREAM =? OP_SCAN_STREAM) with true. cbn iota.
  match goal with |- context [apply_stream _ _ ?v _] => set (val := v) end.
  unfold after_flush, flush_pending. cbn [ops Batch_default].
  assert (exists pairs, apply_stream (core_prefix c) k val OpResponse_default (engine c)
    = Next Batch_default (with_page OpResponse_default pairs
        (if bool_decide (Some (zlen pairs) = Some 256) then TAIL_MORE else TAIL_FINAL)) /\
    pairs = page_of ps) as (pairs & -> & ->).
  { exists (page_of ps). split; [|done]. unfold apply_stream.
    assert (last val = Some 0) as ->.
    { unfold val. rewrite app_assoc. by rewrite last_snoc. }
    unfold val. cbn [app].
    pose proof (fill_page_spec 256 ps [] OpResponse_default ltac:(done)) as FP.
    change (Z.to_nat (256 - zlen [])) with 256%nat in FP. cbn [app] in FP.
    destruct e as [e'|], x; cbn [default] in *; rewrite ?end_span_framed; cbn -[fill_page prefix_end end_span];
      rewrite ?(end_span_framed 1), ?(end_span_framed 2);
      change (id e') with e' in * || idtac;
      rewrite Hc; first [rewrite El | injection El as El; rewrite El];
      rewrite scan_range_iter_spec; simpl in Er; rewrite Er, FP; done. }
  destruct (commit_batch_spec (engine c) Batch_default) as (s' & -> & Es).
  eexists _, _. split; [done|]. split; [|split; [done|]].
  - split; [done|]. simpl. by rewrite Es.
  - simpl. unfold page_of. case_bool_decide as D; simpl.
    + split; [|done]. intros _. injection D as D. unfold zlen in D. rewrite length_take in D. lia.
    + split; [done|]. intros L. destruct D. f_equal. unfold zlen. rewrite length_take. lia.
Qed.

(** Where the iterator stands: [rest] is what it still has to hand out. *)
Definition iter_at (it : RemoteScanIter) (rest : list (bytes * bytes)) : Prop :=
  it_end it = e /\ it_page it = 0 /\
  exists pre later, rows = pre ++ rest /\ rest = buf it ++ later /\
  (done_ it = true -> later = []) /\
  (done_ it = false -> buf it = [] ->
     (cursor it = None /\ it_begin it = b /\ pre = []) \/
     (exists k v pre', cursor it = Some k /\ pre = pre' ++ [(k, v)])).

Lemma iter_at_start : iter_at (RemoteStore_scan_range_iter b e) rows.
Proof. repeat split. exists [], rows. naive_solver. Qed.

Lemma pageable_row pre k v post :
  rows = pre ++ (k, v) :: post -> exists lo, prefix_end (hosted_key p k) = Some lo /\ short k.
Proof using Hpage.
  intros E. destruct Hpage as [L HL]. destruct (HL k) as (_ & _ & [lo ?] & ?); [|by exists lo].
  rewrite <- rows_keys, E, map_app. apply elem_of_app. right. by left.
Qed.

Definition short_page (ps : list (bytes * bytes)) : bool := negb (256 <=? length ps)%nat.

Lemma short_page_last ps : short_page ps = true -> drop 256 ps = [].
Proof.
  unfold short_page. destruct (Nat.leb_spec 256 (length ps)); [done|]. intros _. apply drop_ge. lia.
Qed.

Lemma short_page_more ps : short_page ps = false -> page_of ps <> [].
Proof.
  unfold short_page, page_of. destruct (Nat.leb_spec 256 (length ps)); [|done].
  by destruct ps; [simpl in *; lia|].
Qed.

(** A refill of an empty buffer puts the next page into it. *)
Lemma refill_spec c it rest :
  hosts c -> iter_at it rest -> buf it = [] -> done_ it = false ->
  exists c' it', refill c it = (c', it', Ok tt) /\ hosts c' /\ iter_at it' rest /\
  buf it' = page_of rest /\ done_ it' = short_page rest.
Proof using Hpage Hbound Hb He.
  intros Hc (Ee & Ep & pre & later & Er & El & _ & Hcur) Hbuf Hd.
  unfold refill. rewrite Hd. specialize (Hcur Hd Hbuf).
  assert (exists x k lo, match cursor it with Some l => (true, l) | None => (false, it_begin it) end = (x, k)
    /\ short k /\ (if x : bool then prefix_end (hosted_key p k) else Some (hosted_key p k)) = Some lo /\
    range_pairs (contents (engine c)) lo (hosted_key p <$> e) = map host_pair rest)
    as (x & k & lo & Ek & Sk & Elo & Erp).
  { destruct Hcur as [(-> & Eb & ->)|(k & v & pre' & -> & ->)].
    - exists false, b, (hosted_key p b). simpl in Er. rewrite Eb, <- Er.
      repeat split; [done|]. apply first_page, Hc.
    - rewrite <- app_assoc in Er. destruct (pageable_row _ _ _ _ Er) as (lo & Elo & Sk).
      exists true, k, lo. repeat split; [done..|]. eapply resume_rows; [apply Hc|done..]. }
  destruct (stream_page_spec c k x rest lo Hc Sk Elo Erp) as (c' & resp & Es & Hc' & Eh & Et).
  assert (bool_decide (tail resp ≠ Some TAIL_MORE) = short_page rest) as Ed.
  { unfold short_page. destruct (Nat.leb_spec 256 (length rest)); simpl;
      [apply bool_decide_eq_false|apply bool_decide_eq_true]; rewrite Et; lia. }
  destruct (cursor it); injection Ek as <- <-; simpl; rewrite Ee, Ep, Es, Hbuf, Eh, Ed; simpl;
    (eexists c', _; split; [done|]; split; [done|]; simpl; split; [|done]);
    (split; [done|]); (split; [done|]); simpl;
    exists pre, (drop 256 rest); (split; [done|]); (split; [by unfold page_of; rewrite take_drop|]);
    (split; [apply short_page_last|]); intros D Hnil; by destruct (short_page_more rest).
Qed.

(** One turn is all the refill loop takes. *)
Lemma refill_loop_enough n c it rest :
  hosts c -> iter_at it rest ->
  exists c' it', refill_loop (Datatypes.S n) c it = (c', it', Ok None) /\ hosts c' /\ iter_at it' rest /\
  (buf it' = [] -> done_ it' = true).
Proof using Hpage Hbound Hb He.
  intros Hc Hit. simpl. destruct (bool_decide_reflect (buf it = [])) as [Hbuf|]; simpl.
  2: { by exists c, it. }
  destruct (done_ it) eqn:Hd; simpl; [by exists c, it|].
  destruct (refill_spec c it rest Hc Hit Hbuf Hd) as (c' & it' & -> & Hc' & Hit' & Eb & Ed).
  assert (bool_decide (buf it' = []) && negb (done_ it') = false) as E.
  { rewrite Ed. destruct (short_page rest) eqn:Sp; [apply andb_false_r|].
    rewrite bool_decide_false; [done|]. rewrite Eb. by apply short_page_more. }
  exists c', it'. split; [destruct n; simpl; by rewrite E|]. split; [done|]. split; [done|].
  intros B. rewrite B in E. simpl in E. by destruct (done_ it').
Qed.

Lemma next_spec c it rest :
  hosts c -> iter_at it rest ->
  exists c' it', next c it = (c', it', Ok <$> head rest) /\ hosts c' /\ iter_at it' (drop 1 rest).
Proof using Hpage Hbound Hb He.
  intros Hc Hit. unfold next, next_with.
  destruct (refill_loop_enough 1 c it rest Hc Hit) as (c' & it' & -> & Hc' & Hit' & Hdone).
  exists c'. unfold consume_front.
  destruct Hit' as (Ee & Ep & pre & later & Er & El & Hl & Hcur). destruct (buf it') as [|[k v] l] eqn:Eb.
  - exists it'. rewrite (Hl (Hdone eq_refl)) in El. simpl in El. subst rest. split; [done|]. split; [done|].
    split; [done|]. split; [done|]. exists pre, []. rewrite Eb. split; [done|]. split; [done|]. split; [done|].
    intros Hd. by rewrite (Hdone eq_refl) in Hd.
  - subst rest. simpl. eexists. split; [done|]. split; [done|]. split; [done|]. split; [done|].
    exists (pre ++ [(k, v)]), later. simpl. rewrite <- app_assoc. split; [done|]. split; [done|]. split; [done|].
    intros _ _. right. by exists k, v, pre.
Qed.

Lemma take_items_spec n c it rest :
  hosts c -> iter_at it rest -> take_items next n c it = map Ok (take n rest).
Proof using Hpage Hbound Hb He.
  revert c it rest. induction n as [|n IH]; intros c it rest Hc Hit; [done|]. simpl.
  destruct (next_spec c it rest Hc Hit) as (c' & it' & -> & Hc' & Hit').
  destruct rest as [|kv rest]; simpl; [done|]. f_equal. by apply IH.
Qed.

(** Walked forward, the remote iterator hands out the rows of the range, each
    once, in order, whatever the number of pages it takes to fetch them. *)
Theorem remote_iter_forward n c :
  hosts c -> take_items next n c (RemoteStore_scan_range_iter b e) = map Ok (take n rows).
Proof using Hpage Hbound Hb He. intros Hc. apply take_items_spec, iter_at_start. done. Qed.
End Paging.

(** ** Where the host departs from its documentation *)

(** An unbounded range on a hosted store does not stop at the prefix: with
    another tenant's key in the engine the sender is answered that key, cut by
    the length of its own prefix. *)
Theorem nest_unbounded_range_leaks :
  let c := mkExecCore ({[ [0; 10; 7] := [42] ]} : MemStore) (Some [0; 9]) in
  view (core_prefix c) (contents (engine c)) = ∅ /\
  (RemoteStore_scan_range c [] None).2 = Ok [[7]] /\
  take_items next 2 c (RemoteStore_scan_range_iter [] None) = [Ok ([7], [42])].
Proof.
  split; [|by vm_compute]. apply map_eq. intros k. rewrite lookup_view, lookup_empty.
  change (({[ [0; 10; 7] := [42] ]} : gmap bytes bytes) !! ([0; 9] ++ k) = None).
  by apply lookup_singleton_None.
Qed.

(** A frame whose stream request is malformed answers [None], the answer for
    "nothing stored", after its earlier writes were committed; and a bounded
    request without an end span panics the host. *)
Theorem nest_malformed_stream_stores :
  let c := mkExecCore (∅ : MemStore) None in
  let bad value := OpFrame_encode (mkOpFrame [(OP_PUT, [1], [2]); (OP_SCAN_STREAM, [], value)]) in
  apply c (bad []) = (mkExecCore {[ [1] := [2] ]} None, Ok None) /\
  apply c (bad [9]) = (mkExecCore {[ [1] := [2] ]} None, Ok None) /\
  (apply c (bad [1])).2 = Panic.
Proof. by vm_compute. Qed.

(** The two-byte keys [0, n). *)
Definition two_byte_keys (n : Z) : gmap bytes bytes :=
  fold_left (λ m i, <[be_bytes 2 i := []]> m) (seqZ 0 n) ∅.

(** The resume cursor jumps over every key that extends it: the 257th row of
    this store extends the last key of the first page, and is never handed out. *)
Theorem nest_stream_skips_extensions :
  let m : MemStore := <[ [0; 255; 7] := [1] ]> (two_byte_keys 256) in
  let rows := range_pairs m [] None in
  length rows = 257%nat /\
  take_items next 300 (mkExecCore m None) (RemoteStore_scan_range_iter [] None)
  = map Ok (take 256 rows).
Proof. by vm_compute. Qed.

(** Walking back hands out the last row of the first page, not of the range,
    and then pages forward again over rows it already gave. *)
Theorem nest_next_back_repeats :
  let m : MemStore := two_byte_keys 257 in
  let items := take_items next_back 300 (mkExecCore m None) (RemoteStore_scan_range_iter [] None) in
  last (range_pairs m [] None) = Some ([1; 0], []) /\
  head items = Some (Ok ([0; 255], [])) /\
  length items = 300%nat /\ items !! 0%nat = items !! 257%nat.
Proof. by vm_compute. Qed.

(** * Witnesses *)

(** A host of the prefix [0 9] with two rows of its own and one of a neighbour. *)
Definition sample_host : ExecCore MemStore :=
  mkExecCore (<[ [0; 9; 1] := [10] ]> (<[ [0; 9; 2] := [20] ]> (<[ [0; 8; 1] := [30] ]> ∅))) (Some [0; 9]).

Lemma nest_frame_refines_witness :
  exists c' : ExecCore MemStore,
  pump sample_host (OpFrame_encode sample_frame) = (c', Some (spec_ops
    (view (Some [0; 9]) (contents (engine sample_host))) OpResponse_default (frame_ops sample_frame)).2).
Proof.
  destruct (nest_frame_refines sample_host sample_frame sample_frame_ok) as (c' & E & _).
  - constructor; [unfold hostable; auto|]. constructor; [unfold hostable; auto|constructor].
  - by exists c'.
Defined.

Lemma nest_write_isolation_witness :
  contents (engine (apply sample_host (OpFrame_encode sample_frame)).1) !! [0; 8; 1] = Some [30].
Proof. refine (eq_trans (nest_write_isolation sample_host _ [0; 8; 1] _) _); by vm_compute. Defined.

Lemma RemoteStore_refines_witness :
  exists c' : ExecCore MemStore, RemoteStore_get sample_host [1] = (c', Ok (Some [10])).
Proof.
  destruct (RemoteStore_refines sample_host [1] [2]) as ((c' & E & _) & _).
  - split; by vm_compute.
  - exists c'. exact (eq_trans E (f_equal (λ o, (c', Ok o)) (lookup_view (Some [0; 9]) _ [1]))).
Defined.

Lemma RemoteStore_commit_refines_witness :
  exists c' : ExecCore MemStore, RemoteStore_commit_batch sample_host (mkBatch [([1], None)]) = (c', Ok tt).
Proof.
  destruct (RemoteStore_commit_refines sample_host (mkBatch [([1], None)])) as (c' & E & _).
  - split; [|split; [done|by vm_compute]]. repeat constructor; by vm_compute.
  - by exists c'.
Defined.

Lemma remote_iter_forward_witness :
  take_items next 5 sample_host (RemoteStore_scan_range_iter [0] (Some [9])) = [Ok ([1], [10]); Ok ([2], [20])].
Proof.
  set (V := view (Some [0; 9]) (contents (engine sample_host))).
  refine (eq_trans (remote_iter_forward (Some [0; 9]) [0] (Some [9]) V _ _ _ _ 5 sample_host _) _).
  - exists 1%nat. assert (range_keys V [0] (Some [9]) = [[1]; [2]]) as -> by by vm_compute.
    intros k Hk. repeat (apply elem_of_cons in Hk as [->|Hk]; [split; [repeat constructor; unfold byte_ok; lia|split; [done|split; [by eexists|by vm_compute]]]|]).
    by apply elem_of_nil in Hk.
  - right. by eexists.
  - by vm_compute.
  - by vm_compute.
  - by split.
  - by vm_compute.
Defined.
