(* ===== verification/Slots.v ===== *)
(** * Slots: the face numbers of a collection's key space (okm-core,
    [model/index.rs])

    A slot is a fixed face (one byte) or a member of a counting family (two
    bytes, the family in the high nibble).  The theorems: the two halves of a
    counting slot never run into each other, and no slot's bytes are a prefix of
    another's, so the faces of a collection are disjoint key ranges. *)
From S2P Require Import Prelude.

Definition Slot : Type := Z.

Definition VOCAB_LABEL : Z := 0x1.
Definition VOCAB_ID : Z := 0x2.
Definition INDEX : Z := 0x3.
Definition REDUCE : Z := 0x4.
Definition LEAD : Z := 0x5.

(** [const fn slot] *)
Definition slot {E} (family counter : Z) : outcome E Slot :=
  assert_ (family <=? 0x000F);;
  assert_ (counter <=? 0x0FFF);;
  Ok (Z.lor (wrap 16 (Z.shiftl family 12)) counter).

Definition FIXED_FACE_MAX : Slot := 0x0F.

Definition write_slot {E} (buf : bytes) (slot : Slot) : outcome E bytes :=
  if slot <=? FIXED_FACE_MAX then Ok (buf ++ [wrap 8 slot])
  else assert_ (negb (Z.shiftr slot 12 =? 0));; Ok (buf ++ be_bytes 2 slot).

Definition slot_len (slot : Slot) : Z := if slot <=? FIXED_FACE_MAX then 1 else 2.

Definition PRIMARY_SLOT : Slot := 0x00.
Definition DYNAMIC_SLOT : Slot := 0x01.
Definition FIELD_VOCAB_ID_SLOT : Slot := 0x02.
Definition FIELD_VOCAB_NAME_SLOT : Slot := 0x03.
Definition PREDICATE_VOCAB_ID_SLOT : Slot := 0x04.
Definition PREDICATE_VOCAB_NAME_SLOT : Slot := 0x05.
Definition META_SLOT : Slot := 0x0F.
Definition DECLARED_SLOT_BASE {E} : outcome E Slot := slot INDEX 1.
Definition REDUCE_SLOT_BASE {E} : outcome E Slot := slot REDUCE 1.
Definition LEAD_SLOT_BASE {E} : outcome E Slot := slot LEAD 1.

(** [IndexFuncResult::encode_index] of a [String] and of an unsigned integer of
    [width] bytes. *)
Inductive index_value : Type :=
| IdxString (s : bytes)
| IdxUint (width : nat) (v : Z).

Definition encode_index (v : index_value) (buf : bytes) : bytes :=
  match v with
  | IdxString s => buf ++ s
  | IdxUint width n => buf ++ be_bytes width n
  end.

Definition index_encoded_width (v : index_value) : Z :=
  match v with IdxString s => zlen s | IdxUint width _ => Z.of_nat width end.

Definition result_segments (values : list index_value) : list bytes :=
  map (λ v, encode_index v []) values.

(** * Lemmas *)

(** The numbers [write_slot] accepts. *)
Definition slot_ok (s : Slot) : Prop := 0 <= s <= 0x0F \/ 0x1000 <= s < 0x10000.

#[export] Instance slot_ok_dec s : Decision (slot_ok s).
Proof. unfold slot_ok. apply _. Defined.

(** The bytes of a slot. *)
Definition slot_bytes (s : Slot) : bytes := if s <=? FIXED_FACE_MAX then [s] else be_bytes 2 s.

Lemma write_slot_ok {E} buf s : slot_ok s -> @write_slot E buf s = Ok (buf ++ slot_bytes s).
Proof.
  unfold slot_ok, write_slot, slot_bytes, FIXED_FACE_MAX. intros H.
  destruct (Z.leb_spec s 15); [by rewrite wrap_small by lia|].
  rewrite Z.shiftr_div_pow2 by lia. pose proof (Z.div_le_lower_bound s (2 ^ 12) 1).
  by rewrite (proj2 (Z.eqb_neq _ 0)) by lia.
Qed.

Lemma write_slot_total {E} buf s : 0 <= s < 2 ^ 16 -> slot_ok s \/ @write_slot E buf s = Panic.
Proof.
  unfold slot_ok, write_slot, FIXED_FACE_MAX. intros H.
  destruct (Z.leb_spec s 15); [left; lia|].
  destruct (Z.lt_ge_cases s 0x1000); [right|left; lia].
  by rewrite Z.shiftr_div_pow2, Z.div_small by lia.
Qed.

Lemma slot_bytes_len s : zlen (slot_bytes s) = slot_len s.
Proof. unfold slot_bytes, slot_len. destruct (s <=? FIXED_FACE_MAX); [done|apply be_bytes_zlen]. Qed.

Lemma slot_spec {E} family counter :
  0 <= family <= 0xF -> 0 <= counter <= 0xFFF ->
  @slot E family counter = Ok (family * 2 ^ 12 + counter).
Proof.
  intros Hf Hc. unfold slot. rewrite !(proj2 (Z.leb_le _ _)) by lia. simpl.
  rewrite wrap_small by (rewrite Z.shiftl_mul_pow2; lia). rewrite lor_shift_add by lia. done.
Qed.

Lemma slot_bytes_head s :
  slot_ok s -> exists t, slot_bytes s = (if s <=? FIXED_FACE_MAX then s else s / 256) :: t.
Proof.
  unfold slot_ok, slot_bytes, FIXED_FACE_MAX. intros H. destruct (Z.leb_spec s 15); [by eexists|].
  rewrite be_bytes_S. change (256 ^ Z.of_nat 1) with 256. rewrite Z.mod_small; [by eexists|].
  split; [apply Z.div_pos; lia|apply Z.div_lt_upper_bound; lia].
Qed.

Lemma slot_bytes_inj s t : slot_ok s -> slot_ok t -> slot_bytes s = slot_bytes t -> s = t.
Proof.
  intros Hs Ht E. pose proof (f_equal be_val E) as V. unfold slot_bytes, slot_ok, FIXED_FACE_MAX in *.
  assert (forall x, 0x1000 <= x < 0x10000 -> be_val (be_bytes 2 x) = x) as B.
  { intros x Hx. apply be_val_be_bytes_small. simpl. lia. }
  assert (forall x, be_val [x] = x) as B1 by done.
  destruct (Z.leb_spec s 15), (Z.leb_spec t 15); rewrite ?B1, ?B in V by lia; lia.
Qed.

(** No slot's bytes begin another slot's: what follows a slot in a key cannot
    make it read as another one. *)
Lemma slot_bytes_prefix_free s t x y :
  slot_ok s -> slot_ok t -> slot_bytes s ++ x = slot_bytes t ++ y -> s = t.
Proof.
  intros Hs Ht E. apply slot_bytes_inj; [done..|].
  destruct (slot_bytes_head s Hs) as [ts Es]. destruct (slot_bytes_head t Ht) as [tt Et].
  assert (slot_len s = slot_len t) as L.
  { rewrite Es, Et in E. simpl in E. injection E as E _. unfold slot_ok, slot_len, FIXED_FACE_MAX in *.
    assert (forall z, 0x1000 <= z -> 16 <= z / 256) as D by (intros z Hz; apply Z.div_le_lower_bound; lia).
    destruct (Z.leb_spec s 15), (Z.leb_spec t 15); [done|..|done].
    - pose proof (D t). lia.
    - pose proof (D s). lia. }
  rewrite <- !slot_bytes_len in L. apply app_inj_1 in E as [? _]; [done|]. unfold zlen in L. lia.
Qed.

(** A counter never carries into another family and two slots never share
    a key: for in-range halves [slot] is injective, an out-of-range half panics
    instead of being masked, and behind any header the keys of two different
    slots differ whatever suffixes follow. *)
Theorem slot_faces_disjoint h f c g d x y :
  0 <= f -> 0 <= c -> 1 <= g <= 0xF -> 0 <= d <= 0xFFF -> (f, c) <> (g, d) -> 1 <= f ->
  exists t, @slot unit g d = Ok t /\
  ((0xF < f \/ 0xFFF < c) /\ @slot unit f c = Panic \/
   exists s ks kt, @slot unit f c = Ok s /\ @write_slot unit h s = Ok ks /\ @write_slot unit h t = Ok kt /\
   ks ++ x <> kt ++ y).
Proof.
  intros Hf Hc Hg Hd N Hf1. exists (g * 2 ^ 12 + d). split; [apply slot_spec; lia|].
  destruct (Z.leb_spec f 0xF) as [F|F]; [|left; split; [by left|]].
  2: { unfold slot. by rewrite (proj2 (Z.leb_gt f 0xF)) by lia. }
  destruct (Z.leb_spec c 0xFFF) as [C|C]; [|left; split; [by right|]].
  2: { unfold slot. by rewrite (proj2 (Z.leb_le f 0xF)), (proj2 (Z.leb_gt c 0xFFF)) by lia. }
  right. exists (f * 2 ^ 12 + c), (h ++ slot_bytes (f * 2 ^ 12 + c)), (h ++ slot_bytes (g * 2 ^ 12 + d)).
  assert (forall a b, 1 <= a <= 0xF -> 0 <= b <= 0xFFF -> slot_ok (a * 2 ^ 12 + b)) as O
    by (unfold slot_ok; lia).
  rewrite slot_spec, !write_slot_ok by (try apply O; lia). repeat split; [done..|].
  rewrite <- !app_assoc. intros E%app_inv_head%slot_bytes_prefix_free; [|apply O; lia..].
  apply N. f_equal; lia.
Qed.

(** In an index segment byte order is the declared order: numeric for
    unsigned results of one width, lexicographic for strings. *)
Theorem index_segment_order width u v s t r r' :
  0 <= u < 256 ^ Z.of_nat width -> 0 <= v < 256 ^ Z.of_nat width ->
  (u < v -> encode_index (IdxUint width u) [] ++ r ≺ encode_index (IdxUint width v) [] ++ r') /\
  (encode_index (IdxString s) [] ≺ encode_index (IdxString t) [] <-> s ≺ t) /\
  zlen (encode_index (IdxUint width u) []) = index_encoded_width (IdxUint width u).
Proof.
  intros Hu Hv. split; [|split; [done|apply be_bytes_zlen]]. intros L. by apply be_bytes_lt_app.
Qed.

(** * Witnesses *)

Lemma slot_faces_disjoint_witness :
  exists t, @slot unit 4 1 = Ok t /\
  ((0xF < 3 \/ 0xFFF < 0x1001) /\ @slot unit 3 0x1001 = Panic \/
   exists s ks kt, @slot unit 3 0x1001 = Ok s /\ @write_slot unit [0; 33] s = Ok ks /\
   @write_slot unit [0; 33] t = Ok kt /\ ks ++ [1] <> kt ++ [1]).
Proof. apply (slot_faces_disjoint [0; 33] 3 0x1001 4 1 [1] [1]); lia || done. Defined.

Lemma index_segment_order_witness :
  encode_index (IdxUint 2 255) [] ++ [9] ≺ encode_index (IdxUint 2 256) [] ++ [].
Proof. apply (index_segment_order 2 255 256 [] [] [9] []); simpl; lia. Defined.
