(* ===== verification/Vocab.v ===== *)
(** * Vocabularies (okm-core, [model/vocab.rs], [model/obj_vocab.rs])

    A vocabulary maps labels to numbers and back through two faces of a
    collection.  [Vocab] is one field value, [VocabCache] the allocator.  The
    specification of a vocabulary is a list of labels, the id of a label being
    its position ([vocab_at]); the theorems show that every verb of the cache
    refines the corresponding list operation, on a store and on a pending batch
    alike, that a full width is refused, and that two vocabularies never touch
    each other. *)
From S2P Require Import Prelude Errors Storage Slots.

(** ** Ids

    [VocabId]: an id type of [w] bytes. *)
Definition ZERO : Z := 0.

Definition succ (w : nat) (id : Z) : option Z :=
  if id + 1 <? 256 ^ Z.of_nat w then Some (id + 1) else None.

Definition to_be (w : nat) (id : Z) : bytes := be_bytes w id.

Definition be16 (w : nat) (id : Z) : bytes := replicate (16 - w) 0 ++ be_bytes w id.

Definition from_be (w : nat) (b : bytes) : option Z :=
  if decide (length b = w) then Some (be_val b) else None.

(** ** A field value *)

Record Vocab : Type := mkVocab { name : option bytes; id : option Z }.

Definition Vocab_of (n : bytes) : Vocab := mkVocab (Some n) None.
Definition Vocab_from_id (i : Z) : Vocab := mkVocab None (Some i).
Definition Vocab_set_id (v : Vocab) (i : Z) : Vocab := mkVocab (name v) (Some i).
Definition Vocab_set_name (v : Vocab) (n : bytes) : Vocab :=
  match name v with None => mkVocab (Some n) (id v) | Some _ => v end.

Definition Vocab_wire16 (w : nat) (v : Vocab) : outcome unit bytes :=
  match id v with Some i => Ok (be16 w i) | None => Panic end.

Definition Vocab_to_wire (w : nat) (v : Vocab) : outcome unit bytes :=
  img ← Vocab_wire16 w v; or_panic (slice img (16 - Z.of_nat w) (zlen img)).

Definition Vocab_from_wire (w : nat) (b : bytes) : outcome unit Vocab :=
  assert_ (bool_decide (length b = w));;
  i ← or_panic (from_be w b);
  Ok (Vocab_from_id i).

(** [PartialEq]: by label, by id only between two unresolved values. *)
Definition Vocab_eq (a b : Vocab) : bool :=
  match name a, name b with
  | Some x, Some y => bool_decide (x = y)
  | None, None => bool_decide (id a = id b)
  | _, _ => false
  end.

(** [vocab_id_from_u64] of [model/obj_dynamic.rs] *)
Definition vocab_id_from_u64 (w : nat) (v : Z) : outcome unit (option Z) :=
  let img := replicate 8 0 ++ be_bytes 8 v in
  head_ ← or_panic (slice img 0 (16 - Z.of_nat w));
  if existsb (λ b, negb (b =? 0)) head_ then Ok None
  else tail_ ← or_panic (slice img (16 - Z.of_nat w) 16); Ok (from_be w tail_).

(** ** Faces *)

Record VocabFaces : Type := mkFaces { id_slot : Slot; name_slot : Slot }.

(** [field_index] is a [u16]. *)
Definition data_vocab {E} (p : profile) (field_index : Z) : outcome E VocabFaces :=
  counter ← add_w p 16 1 field_index;
  i ← slot VOCAB_ID counter;
  n ← slot VOCAB_LABEL counter;
  Ok (mkFaces i n).

Definition from_id_slot {E} (s : Slot) : outcome E VocabFaces :=
  let counter := Z.land s 0x0FFF in
  n ← slot VOCAB_LABEL counter;
  Ok (mkFaces s n).

Definition FIELD_VOCAB : VocabFaces := mkFaces FIELD_VOCAB_ID_SLOT FIELD_VOCAB_NAME_SLOT.
Definition PREDICATE_VOCAB : VocabFaces := mkFaces PREDICATE_VOCAB_ID_SLOT PREDICATE_VOCAB_NAME_SLOT.

Definition cursor_key {E} (header : bytes) (faces : VocabFaces) : outcome E bytes :=
  write_slot header (id_slot faces).

(** ** The cache *)

Record VocabCache : Type := mkCache {
  faces : VocabFaces;
  by_id : gmap Z bytes;
  by_name : gmap bytes Z;
  next_id : option Z
}.

Definition VocabCache_new (f : VocabFaces) : VocabCache := mkCache f ∅ ∅ None.

Definition name_key {E} (f : VocabFaces) (header label : bytes) : outcome E bytes :=
  key ← write_slot header (name_slot f); Ok (key ++ label).

Definition id_key {E} (w : nat) (f : VocabFaces) (header : bytes) (i : Z) : outcome E bytes :=
  key ← write_slot header (id_slot f); Ok (key ++ to_be w i).

Definition remember (c : VocabCache) (i : Z) (label : bytes) : VocabCache :=
  mkCache (faces c) (<[i := label]> (by_id c)) (<[label := i]> (by_name c)) (next_id c).

Definition set_next (c : VocabCache) (n : Z) : VocabCache :=
  mkCache (faces c) (by_id c) (by_name c) (Some n).

Section Cache.
Context {S : Type} `{VirtualStorage S}.
Variable w : nat.

Definition scan_max_plus_one (f : VocabFaces) (store : S) (header : bytes) : result Z :=
  prefix ← write_slot header (id_slot f);
  pairs ← scan_suffix_kv store prefix;
  Ok (fold_left (λ next kv,
    match from_be w kv.1 with
    | Some i => match succ w i with Some after => Z.max next after | None => next end
    | None => next
    end) pairs ZERO).

Definition take_next (c : VocabCache) (store : S) (header : bytes) : VocabCache * result Z :=
  match next_id c with
  | Some next => (c, Ok next)
  | None =>
      let r :=
        ck ← cursor_key header (faces c);
        raw ← vs_get store ck;
        match raw ≫= from_be w with
        | Some cursor => Ok cursor
        | None =>
            ik ← id_key w (faces c) header ZERO;
            zero ← vs_get store ik;
            match zero with
            | None => Ok ZERO
            | Some _ => scan_max_plus_one (faces c) store header
            end
        end in
      match r with
      | Ok next => (set_next c next, Ok next)
      | _ => (c, r)
      end
  end.

(** The three point writes of an allocation. *)
Definition allocation (f : VocabFaces) (header label : bytes) (i next : Z) : result Batch :=
  nk ← name_key f header label;
  ik ← id_key w f header i;
  ck ← cursor_key header f;
  Ok (Batch_put (Batch_put (Batch_put Batch_default nk (to_be w i)) ik label) ck (to_be w next)).

Definition id_for (p : profile) (c : VocabCache) (store : S) (header label : bytes)
    : VocabCache * S * result Z :=
  match (nk ← name_key (faces c) header label; raw ← vs_get store nk; Ok (raw ≫= from_be w)) with
  | Ok (Some i) => (remember c i label, store, Ok i)
  | Ok None =>
      let '(c, r) := take_next c store header in
      match r with
      | Ok i =>
          match succ w i with
          | None => (c, store, n ← add_w p 128 i 1; Err (VocabularyExhausted (Z.of_nat w) n))
          | Some next =>
              match allocation (faces c) header label i next with
              | Ok batch =>
                  let '(store, r) := vs_commit_batch store batch in
                  match r with
                  | Ok _ => (remember (set_next c next) i label, store, Ok i)
                  | Err e => (c, store, Err e)
                  | Panic => (c, store, Panic)
                  end
              | Err e => (c, store, Err e)
              | Panic => (c, store, Panic)
              end
          end
      | Err e => (c, store, Err e)
      | Panic => (c, store, Panic)
      end
  | Err e => (c, store, Err e)
  | Panic => (c, store, Panic)
  end.

Definition name_for (c : VocabCache) (store : S) (header : bytes) (i : Z)
    : VocabCache * result (option bytes) :=
  match by_id c !! i with
  | Some n => (c, Ok (Some n))
  | None =>
      match (ik ← id_key w (faces c) header i; vs_get store ik) with
      | Ok (Some raw) =>
          match from_utf8 raw with
          | Some n => (remember c i n, Ok (Some n))
          | None => (c, Ok None)
          end
      | Ok None => (c, Ok None)
      | Err e => (c, Err e)
      | Panic => (c, Panic)
      end
  end.

Definition id_get (c : VocabCache) (store : S) (header label : bytes)
    : VocabCache * result (option Z) :=
  match by_name c !! label with
  | Some i => (c, Ok (Some i))
  | None =>
      match (nk ← name_key (faces c) header label; vs_get store nk) with
      | Ok (Some raw) =>
          match from_be w raw with
          | Some i => (remember c i label, Ok (Some i))
          | None => (c, Ok None)
          end
      | Ok None => (c, Ok None)
      | Err e => (c, Err e)
      | Panic => (c, Panic)
      end
  end.

(** Interning a run of labels through one cache. *)
Fixpoint intern_all (p : profile) (c : VocabCache) (store : S) (header : bytes) (labels : list bytes)
    : VocabCache * S * list (result Z) :=
  match labels with
  | [] => (c, store, [])
  | l :: labels =>
      let '(c, store, r) := id_for p c store header l in
      let '(c, store, rs) := intern_all p c store header labels in
      (c, store, r :: rs)
  end.
End Cache.

(** [vocab_label]: the cacheless reader. *)
Definition vocab_label {S} `{VirtualStorage S} (store : S) (header : bytes) (f : VocabFaces) (id_be : bytes)
    : result (option bytes) :=
  key ← write_slot header (id_slot f);
  raw ← vs_get store (key ++ id_be);
  Ok (raw ≫= from_utf8).

(** [vocab_id]: allocate through a fresh cache of the field's width. *)
Definition vocab_id {S} `{VirtualStorage S} (p : profile) (store : S) (header : bytes) (f : VocabFaces)
    (width : Z) (label : bytes) : S * result (option bytes) :=
  if existsb (Z.eqb width) [1; 2; 4; 8; 16] then
    let w := Z.to_nat width in
    let '(_, store, r) := id_for w p (VocabCache_new f) store header label in
    (store, i ← r; Ok (Some (to_be w i)))
  else (store, Ok None).

(** * The specification *)

(** The position of a label. *)
Definition position (l : bytes) (ls : list bytes) : option nat := fst <$> list_find (λ x, x = l) ls.

(** Interning: a known label answers its position, a new one is appended. *)
Definition intern (ls : list bytes) (l : bytes) : list bytes * Z :=
  match position l ls with
  | Some i => (ls, Z.of_nat i)
  | None => (ls ++ [l], zlen ls)
  end.

Fixpoint intern_list (ls labels : list bytes) : list bytes * list Z :=
  match labels with
  | [] => (ls, [])
  | l :: labels =>
      let '(ls, i) := intern ls l in
      let '(ls, ids) := intern_list ls labels in (ls, i :: ids)
  end.

Definition idk (w : nat) (h : bytes) (f : VocabFaces) (i : Z) : bytes :=
  h ++ slot_bytes (id_slot f) ++ be_bytes w i.

Definition namek (h : bytes) (f : VocabFaces) (l : bytes) : bytes := h ++ slot_bytes (name_slot f) ++ l.

Definition curk (h : bytes) (f : VocabFaces) : bytes := h ++ slot_bytes (id_slot f).

(** The entries of the vocabulary [ls] in a store. *)
Record entries_at (w : nat) (h : bytes) (f : VocabFaces) (m : gmap bytes bytes) (ls : list bytes) : Prop := {
  at_id i : 0 <= i < 256 ^ Z.of_nat w -> m !! idk w h f i = ls !! Z.to_nat i;
  at_name i l : ls !! i = Some l -> m !! namek h f l = Some (be_bytes w (Z.of_nat i));
  at_other l : l ∉ ls -> m !! namek h f l = None;
  at_nodup : NoDup ls;
  at_size : zlen ls < 256 ^ Z.of_nat w;
  at_utf8 : Forall (λ l, utf8_valid l = true) ls
}.

(** With the cursor: the vocabulary as this code writes it. *)
Record vocab_at (w : nat) (h : bytes) (f : VocabFaces) (m : gmap bytes bytes) (ls : list bytes) : Prop := {
  at_entries :> entries_at w h f m ls;
  at_cursor : m !! curk h f = Some (be_bytes w (zlen ls)) \/ ls = [] /\ m !! curk h f = None
}.

(** What a cache may hold of the vocabulary [ls]. *)
Record cache_ok (c : VocabCache) (ls : list bytes) : Prop := {
  ok_id i l : by_id c !! i = Some l -> 0 <= i /\ ls !! Z.to_nat i = Some l;
  ok_name i l : by_name c !! l = Some i -> 0 <= i /\ ls !! Z.to_nat i = Some l;
  ok_next : next_id c = None \/ next_id c = Some (zlen ls)
}.

(** The pair of faces of one vocabulary. *)
Definition faces_ok (f : VocabFaces) : Prop :=
  slot_ok (id_slot f) /\ slot_ok (name_slot f) /\ id_slot f <> name_slot f.

(** The keys of a vocabulary. *)
Definition on_faces (h : bytes) (f : VocabFaces) (k : bytes) : Prop :=
  exists x, k = h ++ slot_bytes (id_slot f) ++ x \/ k = h ++ slot_bytes (name_slot f) ++ x.

(** * Lemmas *)

Lemma position_Some l ls i : position l ls = Some i -> ls !! i = Some l.
Proof.
  unfold position. destruct (list_find _ ls) as [[j x]|] eqn:E; [|done]. intros [= <-].
  by apply list_find_Some in E as (? & -> & _).
Qed.

Lemma position_None l ls : position l ls = None -> l ∉ ls.
Proof.
  unfold position. destruct (list_find _ ls) as [[j x]|] eqn:E; [done|]. intros _ Hin.
  apply list_find_None in E. rewrite Forall_forall in E. by apply (E l).
Qed.

Lemma position_unique l ls i : NoDup ls -> ls !! i = Some l -> position l ls = Some i.
Proof.
  intros ND E. destruct (position l ls) as [j|] eqn:P.
  - apply position_Some in P. f_equal. by eapply NoDup_lookup.
  - destruct (position_None _ _ P). by eapply list_elem_of_lookup_2.
Qed.

Lemma from_be_to_be w i : 0 <= i < 256 ^ Z.of_nat w -> from_be w (be_bytes w i) = Some i.
Proof.
  intros H. unfold from_be. rewrite be_bytes_length, decide_True by done.
  by rewrite be_val_be_bytes_small.
Qed.

Lemma cache_new_ok f ls : cache_ok (VocabCache_new f) ls.
Proof. split; simpl; [done..|by left]. Qed.

Lemma remember_ok c ls i l : cache_ok c ls -> ls !! i = Some l -> cache_ok (remember c (Z.of_nat i) l) ls.
Proof.
  intros [Hi Hn Hx] E. split; simpl; [|..|done].
  - intros j x [[<- <-]|[_ ?]]%lookup_insert_Some; [by rewrite Nat2Z.id; split; [lia|]|by apply Hi].
  - intros j x [[<- <-]|[_ ?]]%lookup_insert_Some; [by rewrite Nat2Z.id; split; [lia|]|by apply Hn].
Qed.

Lemma cache_ok_grow c ls l :
  cache_ok c ls -> cache_ok (set_next c (zlen ls + 1)) (ls ++ [l]).
Proof.
  intros [Hi Hn Hx]. split; simpl.
  - intros i x [? E]%Hi. split; [done|]. by apply lookup_app_l_Some.
  - intros i x [? E]%Hn. split; [done|]. by apply lookup_app_l_Some.
  - right. f_equal. zlia.
Qed.

Section Keys.
Context {E : Type} (w : nat) (h : bytes) (f : VocabFaces) (Hf : faces_ok f).

Lemma name_key_ok l : @name_key E f h l = Ok (namek h f l).
Proof using Hf.
  destruct Hf as (Hi & Hn & _). unfold name_key. rewrite write_slot_ok by done. simpl.
  unfold namek. by rewrite <- app_assoc.
Qed.

Lemma id_key_ok i : @id_key E w f h i = Ok (idk w h f i).
Proof using Hf.
  destruct Hf as (Hi & Hn & _). unfold id_key. rewrite write_slot_ok by done. simpl.
  unfold idk. by rewrite <- app_assoc.
Qed.

Lemma cursor_key_ok : @cursor_key E h f = Ok (curk h f).
Proof using Hf. destruct Hf as (Hi & Hn & _). unfold cursor_key. by rewrite write_slot_ok. Qed.

Lemma idk_namek i l : idk w h f i <> namek h f l.
Proof using Hf.
  destruct Hf as (Hi & Hn & N). unfold idk, namek.
  intros EQ%app_inv_head%slot_bytes_prefix_free; done.
Qed.

Lemma curk_namek l : curk h f <> namek h f l.
Proof using Hf.
  destruct Hf as (Hi & Hn & N). unfold curk, namek. rewrite <- (app_nil_r (slot_bytes (id_slot f))).
  intros EQ%app_inv_head%slot_bytes_prefix_free; done.
Qed.

Lemma idk_curk i : (1 <= w)%nat -> idk w h f i <> curk h f.
Proof.
  intros Hw. unfold idk, curk. rewrite <- (app_nil_r (slot_bytes _)) at 2.
  intros EQ%app_inv_head%app_inv_head. apply (f_equal length) in EQ.
  rewrite be_bytes_length in EQ. simpl in EQ. lia.
Qed.

Lemma idk_inj i j :
  0 <= i < 256 ^ Z.of_nat w -> 0 <= j < 256 ^ Z.of_nat w -> idk w h f i = idk w h f j -> i = j.
Proof.
  intros Hi Hj. unfold idk. intros EQ%app_inv_head%app_inv_head.
  apply (f_equal be_val) in EQ. by rewrite !be_val_be_bytes_small in EQ.
Qed.

Lemma namek_inj l k : namek h f l = namek h f k -> l = k.
Proof. unfold namek. by intros EQ%app_inv_head%app_inv_head. Qed.

(** The writes of an allocation make [ls ++ [l]] of [ls]. *)
Lemma vocab_at_grow m ls l :
  (1 <= w)%nat -> entries_at w h f m ls -> l ∉ ls -> utf8_valid l = true -> zlen ls + 1 < 256 ^ Z.of_nat w ->
  vocab_at w h f (<[curk h f := be_bytes w (zlen ls + 1)]>
    (<[idk w h f (zlen ls) := l]> (<[namek h f l := be_bytes w (zlen ls)]> m))) (ls ++ [l]).
Proof using Hf.
  intros Hw [Vi Vn Vo ND Sz U8] Hl Hu Hs. pose proof (zlen_nonneg ls).
  split; [split|].
  - intros i Hi. rewrite lookup_insert_ne by (by apply not_eq_sym, idk_curk).
    destruct (decide (i = zlen ls)) as [->|N].
    + rewrite lookup_insert_eq. unfold zlen. rewrite Nat2Z.id. by rewrite list_lookup_middle.
    + rewrite lookup_insert_ne by (intros EQ; apply N; symmetry; apply idk_inj in EQ; [done|lia|lia]).
      rewrite lookup_insert_ne by (apply not_eq_sym, idk_namek). rewrite Vi by done.
      destruct (Z.lt_ge_cases i (zlen ls)).
      * rewrite lookup_app_l; [done|]. unfold zlen in *. lia.
      * unfold zlen in *. rewrite !lookup_ge_None_2; [done|rewrite length_app; simpl; lia|lia].
  - intros i x Hx. rewrite lookup_insert_ne by apply curk_namek.
    rewrite lookup_insert_ne by apply idk_namek.
    apply lookup_snoc_Some in Hx as [[Hi Hx]|[-> ->]].
    + rewrite lookup_insert_ne; [by apply Vn|]. intros ->%namek_inj.
      destruct Hl. by eapply list_elem_of_lookup_2.
    + rewrite lookup_insert_eq. done.
  - intros x [Nx Nl]%not_elem_of_app. rewrite list_elem_of_singleton in Nl.
    rewrite lookup_insert_ne by apply curk_namek. rewrite lookup_insert_ne by apply idk_namek.
    rewrite lookup_insert_ne by (by intros ?%namek_inj). by apply Vo.
  - apply NoDup_app. split; [done|]. split; [|apply NoDup_singleton].
    intros x Hx ->%list_elem_of_singleton. done.
  - zlia.
  - apply Forall_app. split; [done|]. by constructor.
  - left. rewrite lookup_insert_eq. do 2 f_equal. zlia.
Qed.
End Keys.

Section Verbs.
Context {S : Type} `{PointStorage S}.
Variables (p : profile) (w : nat) (h : bytes) (f : VocabFaces).
Hypothesis (Hf : faces_ok f).
Hypothesis (Hw : (1 <= w)%nat).

(** Both sides of the cache hold the vocabulary [ls]. *)
Definition holds (c : VocabCache) (s : S) (ls : list bytes) : Prop :=
  faces c = f /\ cache_ok c ls /\ vocab_at w h f (held s) ls.

Lemma get_name (s : S) ls label :
  vocab_at w h f (held s) ls ->
  vs_get s (namek h f label) = Ok (be_bytes w <$> (Z.of_nat <$> position label ls)).
Proof.
  intros V. rewrite held_get. destruct (position label ls) as [i|] eqn:P; simpl.
  - by rewrite (at_name _ _ _ _ _ V i) by (by apply position_Some).
  - by rewrite (at_other _ _ _ _ _ V) by (by apply position_None).
Qed.

Lemma position_bound ls label i :
  zlen ls < 256 ^ Z.of_nat w -> position label ls = Some i -> 0 <= Z.of_nat i < 256 ^ Z.of_nat w.
Proof. intros L P%position_Some%lookup_lt_Some. unfold zlen in L. lia. Qed.

(** The next number is the length of the vocabulary. *)
Lemma take_next_spec c (s : S) ls :
  holds c s ls -> exists c', take_next w c s h = (c', Ok (zlen ls)) /\ holds c' s ls.
Proof using Hf Hw.
  intros (Fc & Ok & V). unfold take_next. rewrite Fc.
  assert (0 <= zlen ls < 256 ^ Z.of_nat w) as B by (pose proof (zlen_nonneg ls); pose proof (at_size _ _ _ _ _ V); lia).
  assert (holds (set_next c (zlen ls)) s ls) as Hset.
  { split; [done|]. split; [|done]. destruct Ok as [Hi Hn _]. split; simpl; [done..|by right]. }
  destruct (ok_next c ls Ok) as [-> | ->]; [|by exists c].
  rewrite cursor_key_ok by done. cbn [mbind outcome_bind]. rewrite held_get. cbn [mbind outcome_bind].
  destruct (at_cursor _ _ _ _ _ V) as [-> | [-> ->]].
  - cbn [mbind option_bind]. rewrite from_be_to_be by done. by eexists.
  - cbn [mbind option_bind]. rewrite id_key_ok by done. cbn [mbind outcome_bind].
    rewrite held_get. cbn [mbind outcome_bind].
    rewrite (at_id _ _ _ _ _ V) by (unfold ZERO; lia). by eexists.
Qed.

Lemma id_for_known c (s : S) ls label i :
  holds c s ls -> position label ls = Some i ->
  exists c', id_for w p c s h label = (c', s, Ok (Z.of_nat i)) /\ holds c' s ls.
Proof using Hf Hw.
  intros (Fc & Ok & V) P. unfold id_for. rewrite Fc, name_key_ok by done. cbn [mbind outcome_bind].
  rewrite (get_name s ls) by done. rewrite P. cbn [mbind outcome_bind fmap option_fmap option_map option_bind].
  rewrite from_be_to_be by (eapply position_bound; [apply V|done]).
  eexists. split; [done|]. split; [done|]. split; [|done].
  apply remember_ok; [done|by apply position_Some].
Qed.

Lemma id_for_new c (s : S) ls label :
  holds c s ls -> position label ls = None -> utf8_valid label = true -> zlen ls + 1 < 256 ^ Z.of_nat w ->
  exists c' s', id_for w p c s h label = (c', s', Ok (zlen ls)) /\ holds c' s' (ls ++ [label]) /\
  held s' = <[curk h f := be_bytes w (zlen ls + 1)]>
    (<[idk w h f (zlen ls) := label]> (<[namek h f label := be_bytes w (zlen ls)]> (held s))).
Proof using Hf Hw.
  intros Hh P Hu Hs. pose proof Hh as (Fc & Ok & V). unfold id_for. rewrite Fc, name_key_ok by done.
  cbn [mbind outcome_bind]. rewrite (get_name s ls) by done. rewrite P.
  cbn [mbind outcome_bind fmap option_fmap option_map option_bind].
  destruct (take_next_spec c s ls Hh) as (c1 & -> & Fc1 & Ok1 & _).
  unfold succ. rewrite (proj2 (Z.ltb_lt _ _)) by done. unfold allocation.
  rewrite Fc1, name_key_ok, id_key_ok, cursor_key_ok by done. cbn [mbind outcome_bind].
  set (b := Batch_put _ _ _).
  destruct (held_commit s b) as (s' & -> & Eh). eexists _, s'. split; [done|].
  split; [|by rewrite Eh]. split; [done|]. split.
  - apply remember_ok; [by apply cache_ok_grow|]. unfold zlen. by rewrite list_lookup_middle.
  - rewrite Eh. apply vocab_at_grow; [done|done|apply V|by apply position_None|done|done].
Qed.

Lemma id_for_full c (s : S) ls label :
  holds c s ls -> position label ls = None -> zlen ls + 1 = 256 ^ Z.of_nat w -> (w < 16)%nat ->
  exists c', id_for w p c s h label
    = (c', s, Err (VocabularyExhausted (Z.of_nat w) (256 ^ Z.of_nat w))) /\ holds c' s ls.
Proof using Hf Hw.
  intros Hh P Hs H16. pose proof Hh as (Fc & Ok & V). unfold id_for. rewrite Fc, name_key_ok by done.
  cbn [mbind outcome_bind]. rewrite (get_name s ls) by done. rewrite P.
  cbn [mbind outcome_bind fmap option_fmap option_map option_bind].
  destruct (take_next_spec c s ls Hh) as (c1 & -> & Hh1).
  unfold succ, add_w. rewrite Hs, Z.ltb_irrefl. rewrite (proj2 (Z.ltb_lt _ _)); [by eexists|].
  change (2 ^ 128) with (256 ^ 16). apply Z.pow_lt_mono_r; lia.
Qed.

Lemma name_for_spec c (s : S) ls i :
  holds c s ls -> 0 <= i < 256 ^ Z.of_nat w ->
  exists c', name_for w c s h i = (c', Ok (ls !! Z.to_nat i)) /\ holds c' s ls.
Proof using Hf Hw.
  intros (Fc & Ok & V) Hi. unfold name_for. destruct (by_id c !! i) as [n|] eqn:E.
  - apply (ok_id c ls Ok) in E as [_ ->]. by exists c.
  - rewrite Fc, id_key_ok by done. cbn [mbind outcome_bind]. rewrite held_get.
    rewrite (at_id _ _ _ _ _ V) by done. destruct (ls !! Z.to_nat i) as [l|] eqn:L; [|by exists c].
    unfold from_utf8. pose proof (at_utf8 _ _ _ _ _ V) as U. rewrite Forall_lookup in U.
    rewrite (U _ _ L). eexists. split; [done|]. split; [done|]. split; [|done].
    rewrite <- (Z2Nat.id i) by lia. by apply remember_ok.
Qed.

Lemma id_get_spec c (s : S) ls label :
  holds c s ls ->
  exists c', id_get w c s h label = (c', Ok (Z.of_nat <$> position label ls)) /\ holds c' s ls.
Proof using Hf Hw.
  intros (Fc & Ok & V). unfold id_get. destruct (by_name c !! label) as [i|] eqn:E.
  - apply (ok_name c ls Ok) in E as [Hi E]. exists c. split; [|done].
    rewrite (position_unique _ _ _ (at_nodup _ _ _ _ _ V) E). simpl. by rewrite Z2Nat.id.
  - rewrite Fc, name_key_ok by done. cbn [mbind outcome_bind]. rewrite (get_name s ls) by done.
    destruct (position label ls) as [i|] eqn:P; [|by exists c].
    cbn [fmap option_fmap option_map]. rewrite from_be_to_be by (eapply position_bound; [apply V|done]).
    eexists. split; [done|]. split; [done|]. split; [|done].
    apply remember_ok; [done|by apply position_Some].
Qed.

(** C32: the vocabulary cache refines interning into a list of labels.  On any
    store, a pending batch included, [id_for] answers a known label's number
    without writing, claims the next number for a new one, and refuses a full
    width by an error that leaves the store untouched; [name_for] and [id_get]
    are the two lookups and never allocate. *)
Theorem vocab_refines c (s : S) ls label i :
  holds c s ls -> utf8_valid label = true -> 0 <= i < 256 ^ Z.of_nat w -> (w < 16)%nat ->
  (exists c' s' r, id_for w p c s h label = (c', s', r) /\
    if decide (position label ls = None /\ zlen ls + 1 = 256 ^ Z.of_nat w)
    then r = Err (VocabularyExhausted (Z.of_nat w) (256 ^ Z.of_nat w)) /\ s' = s /\ holds c' s ls
    else r = Ok (intern ls label).2 /\ holds c' s' (intern ls label).1) /\
  (exists c', name_for w c s h i = (c', Ok (ls !! Z.to_nat i)) /\ holds c' s ls) /\
  (exists c', id_get w c s h label = (c', Ok (Z.of_nat <$> position label ls)) /\ holds c' s ls).
Proof using Hf Hw.
  intros Hh Hu Hi H16. split; [|split; [by apply name_for_spec|by apply id_get_spec]].
  destruct (position label ls) as [j|] eqn:P.
  - destruct (id_for_known c s ls label j Hh P) as (c' & E & Hh').
    exists c', s, (Ok (Z.of_nat j)). split; [done|]. rewrite decide_False by naive_solver.
    unfold intern. by rewrite P.
  - destruct (decide (zlen ls + 1 = 256 ^ Z.of_nat w)) as [F|F].
    + destruct (id_for_full c s ls label Hh P F H16) as (c' & E & Hh').
      eexists c', s, _. split; [done|]. rewrite decide_True by done. done.
    + pose proof (at_size _ _ _ _ _ (proj2 (proj2 Hh))).
      destruct (id_for_new c s ls label Hh P Hu ltac:(lia)) as (c' & s' & E & Hh' & _).
      eexists c', s', _. split; [done|]. rewrite decide_False by naive_solver.
      unfold intern. by rewrite P.
Qed.

Lemma intern_size ls l : zlen (intern ls l).1 <= zlen ls + 1.
Proof. unfold intern. destruct (position l ls); simpl; zlia. Qed.

Lemma intern_keeps ls l i x : ls !! i = Some x -> (intern ls l).1 !! i = Some x.
Proof. unfold intern. intros E. destruct (position l ls); simpl; [done|]. by apply lookup_app_l_Some. Qed.

Lemma intern_list_keeps labels ls i x : ls !! i = Some x -> (intern_list ls labels).1 !! i = Some x.
Proof.
  revert ls. induction labels as [|l labels IH]; intros ls E; [done|]. simpl.
  apply (intern_keeps _ l) in E. destruct (intern ls l) as [ls1 j]. simpl in E. apply IH in E.
  by destruct (intern_list ls1 labels).
Qed.

Lemma intern_all_spec labels : forall c (s : S) ls,
  holds c s ls -> Forall (λ l, utf8_valid l = true) labels ->
  zlen ls + zlen labels < 256 ^ Z.of_nat w ->
  exists c' s', intern_all w p c s h labels = (c', s', map Ok (intern_list ls labels).2) /\
  holds c' s' (intern_list ls labels).1.
Proof using Hf Hw.
  induction labels as [|l labels IH]; intros c s ls Hh Hu Hs; [by exists c, s|].
  apply Forall_cons in Hu as [Hu1 Hu]. simpl.
  assert (exists c1 s1, id_for w p c s h l = (c1, s1, Ok (intern ls l).2) /\ holds c1 s1 (intern ls l).1)
    as (c1 & s1 & -> & Hh1).
  { unfold intern. destruct (position l ls) as [j|] eqn:P.
    - destruct (id_for_known c s ls l j Hh P) as (c1 & E & ?). by exists c1, s.
    - destruct (id_for_new c s ls l Hh P Hu1) as (c1 & s1 & E & ? & _); [zlia|]. by exists c1, s1. }
  pose proof (intern_size ls l). destruct (intern ls l) as [ls1 j] eqn:E. simpl in *.
  destruct (IH c1 s1 ls1 Hh1 Hu) as (c2 & s2 & -> & Hh2); [zlia|].
  exists c2, s2. by destruct (intern_list ls1 labels).
Qed.

Lemma intern_at ls l : exists i, (intern ls l).2 = Z.of_nat i /\ (intern ls l).1 !! i = Some l.
Proof.
  unfold intern. destruct (position l ls) as [j|] eqn:P.
  - exists j. split; [done|]. by apply position_Some.
  - exists (length ls). split; [done|]. by apply list_lookup_middle.
Qed.

Lemma intern_list_at labels : forall k ls, (k < length labels)%nat -> exists i,
  (intern_list ls labels).2 !! k = Some (Z.of_nat i) /\ (intern_list ls labels).1 !! i = labels !! k.
Proof.
  induction labels as [|l labels IH]; intros k ls Hk; [simpl in Hk; lia|]. simpl.
  destruct (intern_at ls l) as (i & Ei & Li). destruct (intern ls l) as [ls1 j]. simpl in Ei, Li. subst j.
  destruct k as [|k].
  - exists i. apply (intern_list_keeps labels) in Li. by destruct (intern_list ls1 labels).
  - destruct (IH k ls1 ltac:(simpl in Hk; lia)) as (i' & ? & ?).
    exists i'. by destruct (intern_list ls1 labels).
Qed.

(** Numbering is first-seen-claims-next and append-only.  Interning a run
    of labels through one cache answers each its position in order of first
    sight, and afterwards a fresh cache on the same store resolves every
    number handed out back to its label. *)
Theorem vocab_append_only c (s : S) ls labels k :
  holds c s ls -> Forall (λ l, utf8_valid l = true) labels ->
  zlen ls + zlen labels < 256 ^ Z.of_nat w -> (k < length labels)%nat ->
  exists c' s' i c2, intern_all w p c s h labels = (c', s', map Ok (intern_list ls labels).2) /\
  (intern_list ls labels).2 !! k = Some i /\
  name_for w (VocabCache_new f) s' h i = (c2, Ok (labels !! k)) /\
  (forall j l, ls !! j = Some l -> held s' !! idk w h f (Z.of_nat j) = Some l).
Proof using Hf Hw.
  intros Hh Hu Hs Hk. destruct (intern_all_spec labels c s ls Hh Hu Hs) as (c' & s' & E & Hh').
  pose proof Hh' as (_ & _ & V). pose proof (at_size _ _ _ _ _ V) as Sz.
  destruct (intern_list_at labels k ls Hk) as (i & Ei & Li).
  assert (is_Some (labels !! k)) as [l Hl] by by apply lookup_lt_is_Some.
  rewrite Hl in Li. pose proof (lookup_lt_Some _ _ _ Li) as Bi. unfold zlen in Sz.
  assert (holds (VocabCache_new f) s' (intern_list ls labels).1) as Hn.
  { split; [done|]. split; [apply cache_new_ok|done]. }
  destruct (name_for_spec (VocabCache_new f) s' _ (Z.of_nat i) Hn ltac:(lia)) as (c2 & En & _).
  rewrite Nat2Z.id, Li, <- Hl in En. exists c', s', (Z.of_nat i), c2. do 3 (split; [done|]).
  intros j x Ej%(intern_list_keeps labels). pose proof (lookup_lt_Some _ _ _ Ej).
  rewrite (at_id _ _ _ _ _ V) by lia. by rewrite Nat2Z.id.
Qed.

(** A vocabulary on other faces does not notice. *)
Lemma id_for_frame c (s : S) ls label k :
  holds c s ls -> utf8_valid label = true -> ~ on_faces h f k ->
  exists c' s' r, id_for w p c s h label = (c', s', r) /\
  ((w < 16)%nat -> held s' !! k = held s !! k).
Proof using Hf Hw.
  intros Hh Hu Hk. destruct (id_for w p c s h label) as [[c' s'] r] eqn:E. exists c', s', r. split; [done|].
  intros H16. destruct (position label ls) as [j|] eqn:P.
  - destruct (id_for_known c s ls label j Hh P) as (c1 & E1 & _). congruence.
  - destruct (decide (zlen ls + 1 = 256 ^ Z.of_nat w)) as [F|F].
    + destruct (id_for_full c s ls label Hh P F H16) as (c1 & E1 & _). congruence.
    + pose proof (at_size _ _ _ _ _ (proj2 (proj2 Hh))).
      destruct (id_for_new c s ls label Hh P Hu ltac:(lia)) as (c1 & s1 & E1 & _ & Eh).
      rewrite E1 in E. injection E as <- <- _. rewrite Eh.
      rewrite !lookup_insert_ne; [done|..].
      * intros <-. apply Hk. eexists. by right.
      * intros <-. apply Hk. eexists. by left.
      * intros <-. apply Hk. exists []. left. by rewrite app_nil_r.
Qed.
End Verbs.

(** ** Stores written before the cursor existed *)

(** The maximum the scan folds out of a list of suffixes. *)
Lemma scan_fold_max {V} (w : nat) (pairs : list (bytes * V)) n a :
  n < 256 ^ Z.of_nat w -> 0 <= a <= n ->
  Forall (λ kv, forall i, from_be w kv.1 = Some i -> i < n) pairs ->
  let r := fold_left (λ next kv,
      match from_be w kv.1 with
      | Some i => match succ w i with Some after => Z.max next after | None => next end
      | None => next
      end) pairs a in
  a <= r <= n /\ (Exists (λ kv, from_be w kv.1 = Some (n - 1)) pairs -> r = n).
Proof.
  intros Hn. revert a. induction pairs as [|kv pairs IH]; intros a Ha F; simpl.
  - split; [lia|]. by intros ?%Exists_nil.
  - apply Forall_cons in F as [F1 F].
    set (a1 := match from_be w kv.1 with Some _ => _ | None => a end).
    assert (a <= a1 <= n /\ (from_be w kv.1 = Some (n - 1) -> a1 = n)) as [B1 B2].
    { unfold a1, succ. destruct (from_be w kv.1) as [i|]; [|split; [lia|done]].
      specialize (F1 i eq_refl). rewrite (proj2 (Z.ltb_lt _ _)) by lia. split; [lia|].
      intros [= ->]. lia. }
    destruct (IH a1 ltac:(lia) F) as [C1 C2]. simpl in C1, C2. split; [lia|].
    intros [E|E]%Exists_cons; [|by apply C2]. specialize (B2 E). lia.
Qed.

Section Legacy.
Context {S : Type} `{ReliableStorage S}.
Variables (p : profile) (w : nat) (h : bytes) (f : VocabFaces).
Hypothesis (Hf : faces_ok f).
Hypothesis (Hw : (1 <= w)%nat).
Hypothesis (Hh : bytes_ok h).

Lemma curk_ok : bytes_ok (curk h f).
Proof using Hf Hh.
  clear Hw. apply Forall_app. split; [done|]. unfold slot_bytes. destruct Hf as ([?|?] & _), (Z.leb_spec (id_slot f) FIXED_FACE_MAX);
    try apply be_bytes_ok; (constructor; [unfold byte_ok, FIXED_FACE_MAX in *; lia|done]).
Qed.

(** A suffix of full width found by the scan is an id of the vocabulary. *)
Lemma legacy_suffix (s : S) ls k i :
  entries_at w h f (contents s) ls -> (forall k, is_Some (contents s !! k) -> bytes_ok k) ->
  k ∈ range_keys (contents s) (curk h f) (prefix_end (curk h f)) ->
  from_be w (drop (length (curk h f) `min` length k)%nat k) = Some i -> i < zlen ls.
Proof using Hf Hw Hh.
  intros V Hb Hk Hi. apply elem_of_range_keys in Hk as (Hin & Hlo & Hhi).
  unfold from_be in Hi. destruct (decide _) as [L|]; [|done]. rewrite length_drop in L.
  assert (in_range_b (curk h f) (prefix_end (curk h f)) k = true) as R by by apply in_range_b_true.
  apply in_prefix_range in R as [x ->]; [|apply curk_ok|by apply Hb|lia].
  rewrite length_app in *. rewrite Nat.min_l in * by lia. rewrite drop_app_length in Hi.
  injection Hi as <-. pose proof (Hb _ Hin) as Hb'. apply Forall_app in Hb' as [_ Hx].
  assert (length x = w) as Lx by lia.
  assert (curk h f ++ x = idk w h f (be_val x)) as EQ.
  { unfold curk, idk. rewrite <- app_assoc. do 2 f_equal. rewrite <- Lx. by rewrite be_bytes_be_val. }
  pose proof (be_val_bound x Hx) as B. unfold zlen in B. rewrite Lx in B.
  rewrite EQ, (at_id _ _ _ _ _ V) in Hin by done. apply lookup_lt_is_Some in Hin. unfold zlen. lia.
Qed.

Lemma legacy_scan (s : S) ls :
  entries_at w h f (contents s) ls -> (forall k, is_Some (contents s !! k) -> bytes_ok k) ->
  scan_max_plus_one w f s h = Ok (zlen ls).
Proof using Hf Hw Hh.
  intros V Hb. unfold scan_max_plus_one. destruct Hf as (Hi & Hn & _).
  rewrite write_slot_ok by done. cbn [mbind outcome_bind]. fold (curk h f).
  rewrite scan_suffix_kv_spec. cbn [mbind outcome_bind]. f_equal.
  pose proof (zlen_nonneg ls). pose proof (at_size _ _ _ _ _ V) as Sz.
  match goal with |- fold_left _ ?l _ = _ => set (pairs := l) end.
  assert (Forall (λ kv : bytes * bytes, forall i, from_be w kv.1 = Some i -> i < zlen ls) pairs) as F.
  { apply Forall_forall. intros [x v] (k & Hk & Ex)%list_elem_of_omap.
    destruct (contents s !! k) eqn:Ek; simplify_eq/=. intros i Hx. by eapply legacy_suffix. }
  destruct (scan_fold_max w pairs (zlen ls) ZERO Sz ltac:(unfold ZERO; lia) F) as [B L].
  destruct (decide (ls = [])) as [->|N]; [unfold ZERO, zlen in *; simpl in *; lia|]. apply L.
  assert (0 < zlen ls) by (unfold zlen in *; destruct ls; [done|simpl; lia]).
  assert (is_Some (ls !! Z.to_nat (zlen ls - 1))) as [l Hl].
  { apply lookup_lt_is_Some. unfold zlen in *. lia. }
  assert (contents s !! idk w h f (zlen ls - 1) = Some l) as Hk by (rewrite (at_id _ _ _ _ _ V) by lia; done).
  apply Exists_exists. exists (be_bytes w (zlen ls - 1), l). split; [|apply from_be_to_be; lia].
  apply list_elem_of_omap. exists (idk w h f (zlen ls - 1)). rewrite Hk. simpl.
  assert (idk w h f (zlen ls - 1) = curk h f ++ be_bytes w (zlen ls - 1)) as EQ
    by (unfold curk, idk; by rewrite <- app_assoc).
  rewrite EQ in *. rewrite length_app, Nat.min_l, drop_app_length by lia. split; [|done].
  apply elem_of_range_keys. split; [by rewrite Hk|]. apply in_range_b_true.
  apply in_prefix_range; [apply curk_ok|apply Hb; by rewrite Hk|rewrite length_app; lia|by eexists].
Qed.

(** A vocabulary written before cursors existed resumes behind its highest
    number, found by one scan; the allocation writes the cursor, and from then
    on the store holds a vocabulary of the current form. *)
Theorem legacy_vocab_resumes (s : S) ls label :
  entries_at w h f (contents s) ls -> contents s !! curk h f = None -> ls <> [] ->
  (forall k, is_Some (contents s !! k) -> bytes_ok k) ->
  label ∉ ls -> utf8_valid label = true -> zlen ls + 1 < 256 ^ Z.of_nat w ->
  exists c' s', id_for w p (VocabCache_new f) s h label = (c', s', Ok (zlen ls)) /\
  vocab_at w h f (contents s') (ls ++ [label]).
Proof using Hf Hw Hh.
  intros V Hc Hne Hb Hl Hu Hs. pose proof (zlen_nonneg ls).
  unfold id_for. cbn [VocabCache_new faces]. rewrite name_key_ok by done. cbn [mbind outcome_bind].
  rewrite get_spec, (at_other _ _ _ _ _ V) by done. cbn [mbind outcome_bind option_bind].
  unfold take_next. cbn [VocabCache_new faces next_id]. rewrite cursor_key_ok by done. cbn [mbind outcome_bind].
  rewrite get_spec, Hc. cbn [mbind outcome_bind option_bind]. rewrite id_key_ok by done. cbn [mbind outcome_bind].
  rewrite get_spec, (at_id _ _ _ _ _ V) by (unfold ZERO; lia). cbn [mbind outcome_bind].
  assert (is_Some (ls !! Z.to_nat ZERO)) as [l0 ->] by (destruct ls; [done|by eexists]).
  rewrite (legacy_scan s ls) by done.
  cbv beta iota zeta. unfold succ. rewrite (proj2 (Z.ltb_lt _ _)) by done. unfold allocation. cbn [set_next faces VocabCache_new].
  rewrite name_key_ok, id_key_ok, cursor_key_ok by done. cbn [mbind outcome_bind].
  set (b := Batch_put _ _ _). destruct (commit_batch_spec s b) as (s' & -> & Es).
  eexists _, s'. split; [done|]. rewrite Es. by apply vocab_at_grow.
Qed.
End Legacy.

(** ** Two vocabularies of one collection *)

Lemma entries_at_same w h f m m' ls :
  (forall k, on_faces h f k -> m' !! k = m !! k) -> vocab_at w h f m ls -> vocab_at w h f m' ls.
Proof.
  intros E [[Vi Vn Vo ND Sz U8] Vc].
  assert (forall i, m' !! idk w h f i = m !! idk w h f i) as Ei by (intros i; apply E; eexists; by left).
  assert (forall l, m' !! namek h f l = m !! namek h f l) as En by (intros l; apply E; eexists; by right).
  assert (m' !! curk h f = m !! curk h f) as Ec
    by (apply E; exists []; left; by rewrite app_nil_r).
  split; [split|]; [intros i Hi; rewrite Ei; auto|intros i l; rewrite En; auto|intros l; rewrite En; auto|done..|].
  by rewrite Ec.
Qed.

Definition faces_apart (f g : VocabFaces) : Prop :=
  id_slot f <> id_slot g /\ id_slot f <> name_slot g /\ name_slot f <> id_slot g /\ name_slot f <> name_slot g.

Lemma on_faces_apart h f g k :
  faces_ok f -> faces_ok g -> faces_apart f g -> on_faces h g k -> ~ on_faces h f k.
Proof.
  intros (Fi & Fn & _) (Gi & Gn & _) (A1 & A2 & A3 & A4) [x Hx] [y Hy].
  destruct Hx as [-> | ->], Hy as [Hy|Hy]; apply app_inv_head, slot_bytes_prefix_free in Hy; done || congruence.
Qed.

Lemma data_vocab_spec {E} p i :
  0 <= i <= 0xFFE -> @data_vocab E p i = Ok (mkFaces (2 * 2 ^ 12 + (1 + i)) (1 * 2 ^ 12 + (1 + i))).
Proof.
  intros Hi. unfold data_vocab, add_w. rewrite (proj2 (Z.ltb_lt _ _)) by lia. cbn [mbind outcome_bind].
  unfold VOCAB_ID, VOCAB_LABEL. rewrite !slot_spec by lia. done.
Qed.

(** Two declared [Vocab] fields never share an id space: interning into one
    leaves the other exactly as it was, whatever header they share; and a reader
    that knows only the id face recovers the pair. *)
Theorem data_vocabs_isolated {S} `{PointStorage S} p w w2 h i j fi fj c (s : S) ls ls2 label :
  0 <= i <= 0xFFE -> 0 <= j <= 0xFFE -> i <> j ->
  @data_vocab unit p i = Ok fi -> @data_vocab unit p j = Ok fj ->
  (1 <= w < 16)%nat -> utf8_valid label = true ->
  holds w h fi c s ls -> vocab_at w2 h fj (held s) ls2 ->
  vocab_at w2 h fj (held (id_for w p c s h label).1.2) ls2 /\ @from_id_slot unit (id_slot fi) = Ok fi.
Proof.
  intros Hi Hj N Ei Ej [Hw H16] Hu Hh V. rewrite data_vocab_spec in Ei, Ej by done.
  injection Ei as <-. injection Ej as <-.
  assert (forall k, 0 <= k <= 0xFFE -> faces_ok (mkFaces (2 * 2 ^ 12 + (1 + k)) (1 * 2 ^ 12 + (1 + k)))) as O.
  { intros k Hk. unfold faces_ok, slot_ok. simpl. lia. }
  split.
  - eapply entries_at_same; [|done]. intros k Hk.
    destruct (id_for_frame p w h _ (O i Hi) Hw c s ls label k Hh Hu) as (c' & s' & r & -> & E).
    + eapply on_faces_apart; [by apply O|by apply (O j)| |done]. unfold faces_apart. simpl. lia.
    + by apply E.
  - unfold from_id_slot. cbn [id_slot]. change 0x0FFF with (Z.ones 12). rewrite Z.land_ones by lia.
    rewrite Z.add_comm, Z.mod_add, Z.mod_small by lia. unfold VOCAB_LABEL. by rewrite slot_spec by lia.
Qed.

(** ** Field values *)

(** A field value once interned survives the wire at every id width, byte
    order being id order; a value never interned panics instead of encoding, and
    a wrong width panics instead of decoding. *)
Theorem Vocab_wire w n i j b :
  (w <= 16)%nat -> 0 <= i < 256 ^ Z.of_nat w -> 0 <= j < 256 ^ Z.of_nat w ->
  Vocab_to_wire w (Vocab_set_id (Vocab_of n) i) = Ok (be_bytes w i) /\
  Vocab_from_wire w (be_bytes w i) = Ok (Vocab_from_id i) /\
  Vocab_eq (Vocab_set_name (Vocab_from_id i) n) (Vocab_of n) = true /\
  Vocab_eq (Vocab_from_id i) (Vocab_of n) = false /\
  (be_bytes w i ≺ be_bytes w j <-> i < j) /\
  Vocab_to_wire w (Vocab_of n) = Panic /\
  (length b <> w -> Vocab_from_wire w b = Panic).
Proof.
  intros Hw Hi Hj. split; [|split; [|split; [|split; [|split; [|split]]]]].
  - unfold Vocab_to_wire, Vocab_wire16, be16. cbn [id Vocab_set_id mbind outcome_bind].
    replace (16 - Z.of_nat w) with (zlen (replicate (16 - w) 0)) by (unfold zlen; rewrite length_replicate; lia).
    by rewrite slice_all_from.
  - unfold Vocab_from_wire. rewrite be_bytes_length, bool_decide_true by done. simpl.
    by rewrite from_be_to_be.
  - unfold Vocab_eq, Vocab_set_name. simpl. by rewrite bool_decide_true.
  - done.
  - unfold bytes_lt. rewrite lex_compare_be_bytes by done. apply Z.compare_lt_iff.
  - done.
  - intros N. unfold Vocab_from_wire. by rewrite bool_decide_false.
Qed.

(** Narrowing a [u64] back into a width answers the id exactly when it fits. *)
Lemma vocab_id_narrows w v :
  (w <= 16)%nat -> 0 <= v < 2 ^ 64 ->
  vocab_id_from_u64 w v = Ok (if v <? 256 ^ Z.of_nat w then Some v else None).
Proof.
  intros Hw Hv. unfold vocab_id_from_u64. set (img := replicate 8 0 ++ be_bytes 8 v).
  assert (length img = 16%nat) as L by done.
  assert (be_val img = v) as V by (unfold img; rewrite be_val_app; change (be_val (replicate 8 0)) with 0; by apply be_val_be_bytes_small).
  assert (bytes_ok img) as B.
  { apply Forall_app. split; [|apply be_bytes_ok]. apply Forall_replicate. unfold byte_ok. lia. }
  clearbody img. rewrite <- (take_drop (16 - w) img) in V, B |- *.
  set (hd := take (16 - w) img) in *. set (tl := drop (16 - w) img) in *.
  assert (length hd = (16 - w)%nat) as Lh by (unfold hd; rewrite length_take; lia).
  assert (length tl = w) as Lt by (unfold tl; rewrite length_drop; lia).
  apply Forall_app in B as [Bh Bt]. pose proof (be_val_bound tl Bt) as Rt. rewrite be_val_app in V.
  assert (zlen tl = Z.of_nat w) as Zt by (unfold zlen; lia). rewrite Zt in V, Rt.
  assert (16 - Z.of_nat w = zlen hd) as -> by (unfold zlen; lia).
  assert (16 = zlen (hd ++ tl)) as -> by (unfold zlen; rewrite length_app; lia).
  rewrite slice_0_app, slice_all_from. cbn [or_panic mbind outcome_bind].
  rewrite existsb_nonzero by done. unfold from_be. rewrite decide_True by done.
  pose proof (be_val_bound hd Bh). destruct (Z.eqb_spec (be_val hd) 0) as [E|E]; cbn [negb].
  - rewrite E in V. rewrite (proj2 (Z.ltb_lt _ _)) by lia. do 2 f_equal. lia.
  - rewrite (proj2 (Z.ltb_ge _ _)) by nia. done.
Qed.

(** * Witnesses *)

Definition sample_faces : VocabFaces := mkFaces 0x2001 0x1001.

Lemma sample_faces_ok : faces_ok sample_faces.
Proof. unfold faces_ok, slot_ok. simpl. lia. Qed.

(** The empty vocabulary of an empty store, through a pending batch. *)
Definition sample_batch : BatchStore MemStore := mkBatchStore (∅ : MemStore) Batch_default.

Lemma sample_holds : holds 1 [0; 33] sample_faces (VocabCache_new sample_faces) sample_batch [].
Proof.
  split; [done|]. split; [apply cache_new_ok|]. split; [split|right; done]; try done; try constructor.
Qed.

Lemma vocab_refines_witness :
  exists c' s' r, id_for 1 Debug (VocabCache_new sample_faces) sample_batch [0; 33] [97] = (c', s', r) /\ r = Ok 0.
Proof.
  destruct (vocab_refines (S := BatchStore MemStore) Debug 1 [0; 33] sample_faces sample_faces_ok ltac:(lia) _ _ _ [97] 0 sample_holds)
    as ((c' & s' & r & E & R) & _); [done|simpl; lia|lia|].
  exists c', s', r. split; [exact E|]. rewrite decide_False in R; [exact (proj1 R)|]. vm_compute. by intros [_ ?].
Defined.

Lemma vocab_append_only_witness :
  exists c' s' i c2, intern_all 1 Debug (VocabCache_new sample_faces) sample_batch [0; 33] [[97]; [98]; [97]]
    = (c', s', [Ok 0; Ok 1; Ok 0]) /\ [0; 1; 0] !! 1%nat = Some i /\
  name_for 1 (VocabCache_new sample_faces) s' [0; 33] i = (c2, Ok (Some [98])).
Proof.
  destruct (vocab_append_only (S := BatchStore MemStore) Debug 1 [0; 33] sample_faces sample_faces_ok ltac:(lia) _ _ _ [[97]; [98]; [97]] 1 sample_holds)
    as (c' & s' & i & c2 & E & Ei & En & _); [by repeat constructor|by vm_compute|simpl; lia|].
  exists c', s', i, c2. split; [exact E|]. split; [exact Ei|exact En].
Defined.

(** One label [a] under number 0, and no cursor. *)
Definition legacy_map : gmap bytes bytes := <[ [0; 33; 32; 1; 0] := [97] ]> (<[ [0; 33; 16; 1; 97] := [0] ]> ∅).

Definition legacy_store : MemStore := legacy_map.

Lemma legacy_store_entries : entries_at 1 [0; 33] sample_faces (contents legacy_store) [[97]].
Proof.
  change (contents legacy_store) with legacy_map. unfold legacy_map. split; simpl.
  - intros i Hi. unfold idk. change (slot_bytes (id_slot sample_faces)) with [32; 1]. simpl.
    destruct (decide (i = 0)) as [->|N]; [by vm_compute|].
    rewrite lookup_insert_ne.
    2: { intros EQ. injection EQ as EQ. change (256 ^ Z.of_nat 0) with 1 in EQ.
         rewrite Z.div_1_r, Z.mod_small in EQ by (simpl in Hi; lia). by destruct N. }
    rewrite lookup_insert_ne by done. rewrite lookup_empty. symmetry. apply lookup_ge_None_2. simpl. lia.
  - intros [|i] l; [|done]. intros [= <-]. by vm_compute.
  - intros l Hl. unfold namek. change (slot_bytes (name_slot sample_faces)) with [16; 1]. simpl.
    rewrite lookup_insert_ne by done. rewrite lookup_insert_ne; [done|].
    intros [= <-]. apply Hl. by left.
  - apply NoDup_singleton.
  - done.
  - by repeat constructor.
Qed.

Lemma legacy_vocab_resumes_witness :
  exists c' s', id_for 1 Debug (VocabCache_new sample_faces) legacy_store [0; 33] [98] = (c', s', Ok 1) /\
  vocab_at 1 [0; 33] sample_faces (contents s') [[97]; [98]].
Proof.
  refine (legacy_vocab_resumes Debug 1 [0; 33] sample_faces sample_faces_ok ltac:(lia) _
    legacy_store [[97]] [98] legacy_store_entries _ _ _ _ _ _); try done.
  - repeat constructor; unfold byte_ok; lia.
  - intros k Hk. change (contents legacy_store) with legacy_map in Hk. unfold legacy_map in Hk.
    repeat (apply lookup_insert_is_Some in Hk as [<-|[_ Hk]]; [repeat constructor; unfold byte_ok; lia|]).
    by destruct Hk.
  - intros [?|?%elem_of_nil]%elem_of_cons; done.
Defined.

Lemma data_vocabs_isolated_witness :
  vocab_at 1 [0; 33] (mkFaces 0x2002 0x1002)
    (held (id_for 1 Debug (VocabCache_new sample_faces) sample_batch [0; 33] [97]).1.2) [].
Proof.
  refine (proj1 (data_vocabs_isolated Debug 1 1 [0; 33] 0 1 sample_faces (mkFaces 0x2002 0x1002)
    (VocabCache_new sample_faces) sample_batch [] [] [97] _ _ _ _ _ _ _ sample_holds _)); try lia; try done.
  split; [split|right; done]; try done; try constructor.
Defined.

Lemma Vocab_wire_witness : Vocab_to_wire 2 (Vocab_set_id (Vocab_of [97]) 300) = Ok [1; 44].
Proof. refine (proj1 (Vocab_wire 2 [97] 300 301 [] _ _ _)); simpl; lia. Defined.
