(* ===== verification/DynValue.v ===== *)
(** * The dynamic segment's frame codec (okm-core, [model/obj_dynamic.rs],
    [wrappers/obj_value.rs])

    A dynamic field is a self-describing frame: id, type byte, length, body;
    nested objects are frame lists whose ids name their keys.  The encoder runs
    against a name resolver and may fail with it; the decoder is total and stops
    at the first malformed frame.  The theorems: round trip of every value the
    encoder keeps, which [Int] values it does not keep, termination on arbitrary
    bytes, and what a torn tail or an unknown type leaves. *)
From S2P Require Import Prelude Errors VarInt.

(** ** Value types *)

Inductive ObjValueType : Type :=
| TUInt | TF64 | TStr | TBytes | TBool | TNull | TArray | TObj | TInt.

Definition from_byte (b : Z) : option ObjValueType :=
  match b with
  | 0 => Some TUInt
  | 1 => Some TF64
  | 2 => Some TStr
  | 3 => Some TBytes
  | 4 => Some TBool
  | 5 => Some TNull
  | 6 => Some TArray
  | 7 => Some TObj
  | 8 => Some TInt
  | _ => None
  end.

Definition to_byte (t : ObjValueType) : Z :=
  match t with
  | TUInt => 0 | TF64 => 1 | TStr => 2 | TBytes => 3 | TBool => 4 | TNull => 5
  | TArray => 6 | TObj => 7 | TInt => 8
  end.

(** An [F64] is its bit pattern; an [Obj] is a [BTreeMap], the list of its
    entries in key order. *)
#[warnings="-register-all"]
Inductive DynamicValue : Type :=
| DUInt (v : Z)
| DInt (v : Z)
| DF64 (bits : Z)
| DStr (s : bytes)
| DBytes (b : bytes)
| DBool (b : bool)
| DNull
| DArray (items : list DynamicValue)
| DObj (m : list (bytes * DynamicValue)).

Record DynamicField : Type := mkField { field_id : Z; field_value : DynamicValue }.

(** [BTreeMap::insert] *)
Fixpoint btree_insert {V} (k : bytes) (v : V) (m : list (bytes * V)) : list (bytes * V) :=
  match m with
  | [] => [(k, v)]
  | (k', v') :: m' =>
      match lex_compare k k' with
      | Lt => (k, v) :: m
      | Eq => (k, v) :: m'
      | Gt => (k', v') :: btree_insert k v m'
      end
  end.

(** ** Scalars *)

(** [be.iter().position(|&b| b != fill)] *)
Fixpoint position_ne (fill : Z) (l : bytes) : option nat :=
  match l with
  | [] => None
  | b :: l => if b =? fill then S <$> position_ne fill l else Some 0%nat
  end.

Definition int_body (v : Z) : bytes :=
  let be := be_bytes 8 (wrap 64 v) in
  let fill := if v <? 0 then 0xFF else 0x00 in
  let first := default 7%nat (position_ne fill be) in
  let start := if (v <? 0) && bool_decide (0 < first)%nat then (first - 1)%nat else first in
  drop start be.

Definition uint_body (v : Z) : bytes :=
  let be := be_bytes 8 v in drop (default 7%nat (position_ne 0 be)) be.

Definition put_id (buf : bytes) (id : Z) : bytes :=
  if id <? 0xFF then buf ++ [wrap 8 id] else buf ++ [0xFF] ++ be_bytes 2 id.

(** ** Encoding *)

(** A fallible step of the encoder, which threads the resolver's state. *)
Definition enc (R A : Type) : Type := R -> R * result A.

#[export] Instance enc_ret {R} : MRet (enc R) := λ A a r, (r, Ok a).

#[export] Instance enc_bind {R} : MBind (enc R) := λ A B f m r,
  let '(r, x) := m r in
  match x with Ok a => f a r | Err e => (r, Err e) | Panic => (r, Panic) end.

Definition lift {R A} (o : outcome unit A) : enc R A := λ r,
  (r, match o with Ok a => Ok a | _ => Panic end).

Section Encode.
Context {R : Type}.
Variables (p : profile) (resolve : bytes -> enc R Z).

(** The type byte, the length and the body behind what the buffer holds. *)
Definition push_body (buf : bytes) (ty : ObjValueType) (body : bytes) : outcome unit bytes :=
  buf ← put_len p (buf ++ [to_byte ty]) (zlen body); Ok (buf ++ body).

Fixpoint encode_value (value : DynamicValue) : enc R (ObjValueType * bytes) :=
  match value with
  | DInt v => mret (TInt, int_body v)
  | DUInt v => mret (TUInt, uint_body v)
  | DF64 v => mret (TF64, be_bytes 8 v)
  | DStr s => mret (TStr, s)
  | DBytes b => mret (TBytes, b)
  | DBool b => mret (TBool, [Z.b2z b])
  | DNull => mret (TNull, [])
  | DArray items =>
      body ← lift (put_len p [] (zlen items));
      body ← (fix elements (l : list DynamicValue) (body : bytes) : enc R bytes :=
         match l with
         | [] => mret body
         | item :: l =>
             '(ty, b) ← encode_value item;
             body ← lift (push_body body ty b);
             elements l body
         end) items body;
      mret (TArray, body)
  | DObj m =>
      body ← (fix fields (m : list (bytes * DynamicValue)) (body : bytes) : enc R bytes :=
         match m with
         | [] => mret body
         | (k, v) :: m =>
             id ← resolve k;
             '(ty, b) ← encode_value v;
             body ← lift (push_body (put_id body id) ty b);
             fields m body
         end) m [];
      mret (TObj, body)
  end.

Fixpoint put_fields (m : list (bytes * DynamicValue)) (buf : bytes) : enc R bytes :=
  match m with
  | [] => mret buf
  | (k, v) :: m =>
      id ← resolve k;
      '(ty, b) ← encode_value v;
      buf ← lift (push_body (put_id buf id) ty b);
      put_fields m buf
  end.

(** [put_frame_named_inner], its two arms as written: an [Obj] encodes its
    entries here, anything else goes through [encode_value]. *)
Definition put_frame_named (buf name : bytes) (value : DynamicValue) : enc R bytes :=
  id ← resolve name;
  let buf := put_id buf id in
  match value with
  | DObj m => body ← put_fields m []; lift (push_body buf TObj body)
  | other => '(ty, body) ← encode_value other; lift (push_body buf ty body)
  end.
End Encode.

(** [put_frame]: no vocabulary, so a nested name is an error. *)
Definition no_vocab (name : bytes) : enc unit Z := λ r, (r, Err (VocabularyRequired name)).

Definition put_frame (p : profile) (buf : bytes) (id : Z) (value : DynamicValue) : result bytes :=
  (('(ty, body) ← encode_value p no_vocab value; lift (push_body p (put_id buf id) ty body)) tt).2.

(** ** Decoding

    A decoder answers in [outcome unit]: [Panic] where the code panics, and
    [Err tt] when the fuel given did not suffice.  The name closure is an
    [FnMut]: decoding threads its state.  [frame_take] is [take]. *)

Definition frame_take (p : profile) (b : bytes) (off n : Z) : outcome unit (option (bytes * Z)) :=
  e ← add_w p 64 off n;
  if zlen b <? e then Ok None else s ← or_panic (slice b off e); Ok (Some (s, e)).

Definition decode_id (p : profile) (b : bytes) (off : Z) : outcome unit (option (Z * Z)) :=
  r ← frame_take p b off 1;
  match r with
  | Some ([first], off) =>
      if first =? 0xFF then
        r ← frame_take p b off 2;
        Ok ('(s, off) ← r; Some (be_val s, off))
      else Ok (Some (first, off))
  | _ => Ok None
  end.

Inductive frame_result : Type :=
| Frame (f : DynamicField) (off : Z)
| UnknownType (off : Z)
| Malformed.

(** A decoding step on the closure's state. *)
Definition dec (N A : Type) : Type := N -> outcome unit (N * A).

#[export] Instance dec_ret {N} : MRet (dec N) := λ A a s, Ok (s, a).

#[export] Instance dec_bind {N} : MBind (dec N) := λ A B f m s,
  match m s with Ok (s, a) => f a s | Err e => Err e | Panic => Panic end.

Definition liftd {N A} (o : outcome unit A) : dec N A := λ s,
  match o with Ok a => Ok (s, a) | Err e => Err e | Panic => Panic end.

Section Decode.
Context {N : Type}.
Variables (p : profile).
(** the largest element count [Vec::with_capacity] does not panic on *)
Variable (capacity : Z).
Variable (name_of : Z -> N -> N * option bytes).

(** [name_of(id).unwrap_or_else(|| id.to_string())] *)
Definition key_of (id : Z) : dec N bytes := λ s,
  let '(s, n) := name_of id s in Ok (s, default (show_Z id) n).

Section Nested.
Variable (decode_value : ObjValueType -> bytes -> dec N (option DynamicValue)).

Definition decode_frame_with (b : bytes) (off : Z) : dec N frame_result :=
  r ← liftd (decode_id p b off);
  match r with
  | None => mret Malformed
  | Some (id, off) =>
      r ← liftd (frame_take p b off 1);
      match r with
      | Some ([ty_byte], off) =>
          rest ← liftd (or_panic (slice b off (zlen b)));
          r ← liftd (take_len p rest);
          match r with
          | None => mret Malformed
          | Some (len, len_n) =>
              r ← liftd (frame_take p b (off + len_n) len);
              match r with
              | None => mret Malformed
              | Some (body, off) =>
                  match from_byte ty_byte with
                  | None => mret (UnknownType off)
                  | Some ty =>
                      v ← decode_value ty body;
                      mret (match v with Some v => Frame (mkField id v) off | None => Malformed end)
                  end
              end
          end
      | _ => mret Malformed
      end
  end.

(** The frames of a nested object. *)
Fixpoint fields_loop (fuel : nat) (body : bytes) (inner : Z) (m : list (bytes * DynamicValue))
    : dec N (option (list (bytes * DynamicValue))) :=
  if inner <? zlen body then
    match fuel with
    | O => liftd (Err tt)
    | S fuel =>
        r ← decode_frame_with body inner;
        match r with
        | Frame nf inner =>
            key ← key_of (field_id nf);
            fields_loop fuel body inner (btree_insert key (field_value nf) m)
        | _ => mret None
        end
    end
  else mret (Some m).

(** The elements of an array. *)
Fixpoint items_loop (fuel : nat) (count : Z) (body : bytes) (off : Z) (acc : list DynamicValue)
    : dec N (option (list DynamicValue)) :=
  if count <=? 0 then mret (Some acc) else
  match fuel with
  | O => liftd (Err tt)
  | S fuel =>
      match byte_at body off with
      | None => mret None
      | Some ty_byte =>
          let off := off + 1 in
          match slice body off (zlen body) with
          | None => mret None
          | Some rest =>
              r ← liftd (take_len p rest);
              match r with
              | None => mret None
              | Some (len, ln) =>
                  let off := off + ln in
                  e ← liftd (add_w p 64 off len);
                  match slice body off e, from_byte ty_byte with
                  | Some item_body, Some ty =>
                      v ← decode_value ty item_body;
                      match v with
                      | Some v => items_loop fuel (count - 1) body e (acc ++ [v])
                      | None => mret None
                      end
                  | _, _ => mret None
                  end
              end
          end
      end
  end.
End Nested.

Definition decode_uint (body : bytes) : option DynamicValue :=
  if 8 <? zlen body then None
  else Some (DUInt (be_val (replicate (8 - length body) 0 ++ body))).

Definition decode_int (body : bytes) : option DynamicValue :=
  match body with
  | [] => None
  | b0 :: _ =>
      if 8 <? zlen body then None
      else
        let fill := if Z.land b0 0x80 =? 0 then 0x00 else 0xFF in
        Some (DInt (to_signed 64 (be_val (replicate (8 - length body) fill ++ body))))
  end.

(** [decode_value_named]; the fuel bounds the nesting, of which a body of [n]
    bytes has less than [n + 1] levels ([decode_value_total]). *)
Fixpoint decode_value (fuel : nat) (ty : ObjValueType) (body : bytes) : dec N (option DynamicValue) :=
  match fuel with
  | O => liftd (Err tt)
  | S fuel =>
      match ty with
      | TUInt => mret (decode_uint body)
      | TInt => mret (decode_int body)
      | TF64 => mret (if zlen body =? 8 then Some (DF64 (be_val body)) else None)
      | TStr => mret (option_map DStr (from_utf8 body))
      | TBytes => mret (Some (DBytes body))
      | TBool => mret (match body with [b] => Some (DBool (negb (b =? 0))) | _ => None end)
      | TNull => mret (match body with [] => Some DNull | _ => None end)
      | TArray =>
          r ← liftd (take_len p body);
          match r with
          | None => mret None
          | Some (count, off) =>
              liftd (assert_ (count <=? capacity));;
              items ← items_loop (decode_value fuel) (S (length body)) count body off [];
              mret (option_map DArray items)
          end
      | TObj =>
          m ← fields_loop (decode_value fuel) (S (length body)) body 0 [];
          mret (option_map DObj m)
      end
  end.

Definition decode_frame_named (b : bytes) (off : Z) : dec N frame_result :=
  decode_frame_with (decode_value (S (length b))) b off.

Fixpoint decode_loop (fuel : nat) (b : bytes) (off : Z) (out : list DynamicField)
    : dec N (list DynamicField) :=
  if off <? zlen b then
    match fuel with
    | O => liftd (Err tt)
    | S fuel =>
        r ← decode_frame_named b off;
        match r with
        | Frame f off => decode_loop fuel b off (out ++ [f])
        | UnknownType off => decode_loop fuel b off out
        | Malformed => mret out
        end
    end
  else mret out.

Definition decode_named (b : bytes) : dec N (list DynamicField) :=
  decode_loop (S (length b)) b 0 [].
End Decode.

(** [decode_frame] and [decode_variants]: no names. *)
Definition no_names (_ : Z) (s : unit) : unit * option bytes := (s, None).

Definition decode_variants (p : profile) (capacity : Z) (b : bytes) : outcome unit (list DynamicField) :=
  '(_, fs) ← decode_named p capacity no_names b tt; Ok fs.

(** * Lemmas *)

(** ** Scalars *)

Lemma position_ne_spec fill l :
  match position_ne fill l with
  | Some k => exists x t, l = replicate k fill ++ x :: t /\ x <> fill
  | None => l = replicate (length l) fill
  end.
Proof.
  induction l as [|b l IH]; [done|]. simpl. destruct (Z.eqb_spec b fill) as [->|N].
  - destruct (position_ne fill l) as [k|]; simpl.
    + destruct IH as (x & t & -> & N). by exists x, t.
    + by rewrite <- IH.
  - exists b, l. done.
Qed.

Lemma be_val_replicate_0 k l : be_val (replicate k 0 ++ l) = be_val l.
Proof. induction k as [|k IH]; [done|]. simpl. rewrite be_val_cons, IH. lia. Qed.

Lemma be_val_replicate_ff k l : be_val (replicate k 255 ++ l) = (256 ^ Z.of_nat k - 1) * 256 ^ zlen l + be_val l.
Proof.
  induction k as [|k IH]; [done|]. simpl replicate. cbn [app]. rewrite be_val_cons, IH, pow256_succ.
  unfold zlen. rewrite length_app, length_replicate, Nat2Z.inj_add, Z.pow_add_r by lia. nia.
Qed.

(** The minimal body of a word: the whole word, or its last byte, behind the
    fill it drops. *)
Lemma minimal_split fill v :
  let be := be_bytes 8 v in
  let first := default 7%nat (position_ne fill be) in
  (first < 8)%nat /\ be = replicate first fill ++ drop first be /\ length (drop first be) = (8 - first)%nat /\
  exists x t, drop first be = x :: t /\ (x <> fill \/ be = replicate 8 fill).
Proof.
  intros be first. assert (length be = 8%nat) as L by apply be_bytes_length. clearbody be.
  pose proof (position_ne_spec fill be) as P. subst first. destruct (position_ne fill be) as [k|]; simpl.
  - destruct P as (x & t & E & N). rewrite E in *.
    rewrite length_app, length_replicate in L. simpl in L.
    assert (drop k (replicate k fill ++ x :: t) = x :: t) as D by (apply drop_app_length'; by rewrite length_replicate).
    rewrite D. split; [lia|]. split; [done|]. split; [simpl; lia|]. exists x, t. split; [done|by left].
  - rewrite L in P. rewrite P. split; [lia|]. split; [done|]. split; [done|]. exists fill, [].
    split; [done|by right].
Qed.

Lemma uint_roundtrip v : 0 <= v < 2 ^ 64 -> decode_uint (uint_body v) = Some (DUInt v) /\ zlen (uint_body v) <= 8.
Proof.
  intros Hv. unfold uint_body, decode_uint. destruct (minimal_split 0 v) as (F & E & L & _).
  set (first := default 7%nat _) in *. unfold zlen. rewrite L.
  rewrite (proj2 (Z.ltb_ge _ _)) by lia. split; [|lia].
  replace (8 - (8 - first))%nat with first by lia. rewrite <- E. by rewrite be_val_be_bytes_small.
Qed.

(** The integers whose minimal body keeps its sign: not those positive numbers
    whose top byte has its high bit set. *)
Definition int_kept (v : Z) : Prop := v <= 0 \/ Z.log2 v mod 8 <> 7.

#[export] Instance int_kept_dec v : Decision (int_kept v).
Proof. unfold int_kept. apply _. Defined.

Lemma land_0x80 x : byte_ok x -> (Z.land x 0x80 =? 0) = (x <? 128).
Proof.
  intros Hx. assert (forallb (λ x, eqb (Z.land x 0x80 =? 0) (x <? 128)) (seqZ 0 256) = true) as T by by vm_compute.
  apply eqb_prop. apply (Z_range_forall _ _ _ T). unfold byte_ok in Hx. lia.
Qed.

(** Decoding a body whose first byte is [x]: what the fill makes of it. *)
Lemma decode_int_cons x t :
  byte_ok x -> bytes_ok t -> zlen (x :: t) <= 8 ->
  decode_int (x :: t) = Some (DInt (be_val (x :: t) - (if x <? 128 then 0 else 256 ^ zlen (x :: t)))).
Proof.
  intros Hx Ht L. unfold decode_int. rewrite (proj2 (Z.ltb_ge _ _)) by lia. rewrite land_0x80 by done.
  assert (bytes_ok (x :: t)) as Hb by by constructor. pose proof (be_val_bound _ Hb) as B.
  pose proof (be_val_bound _ Ht) as Bt. rewrite be_val_cons in *. unfold byte_ok in Hx.
  assert (exists n, zlen t = Z.of_nat n /\ (n <= 7)%nat /\ zlen (x :: t) = Z.of_nat (S n)) as (n & En & Hn & En').
  { exists (length t). unfold zlen in *. simpl in *. lia. }
  rewrite En, En' in *. rewrite pow256_succ in *. pose proof (pow256_pos n).
  assert (256 ^ Z.of_nat n <= 256 ^ 7) by (apply Z.pow_le_mono_r; lia).
  assert (2 ^ 64 = 256 * 256 ^ 7) as E64 by done.
  unfold to_signed, wrap. do 2 f_equal. destruct (Z.ltb_spec x 128).
  - rewrite be_val_replicate_0, be_val_cons, En, Z.mod_small by nia.
    change (2 ^ (64 - 1)) with (128 * 256 ^ 7). rewrite (proj2 (Z.ltb_lt _ _)) by nia. lia.
  - rewrite be_val_replicate_ff, be_val_cons, En, En', pow256_succ.
    assert (256 ^ Z.of_nat (8 - length (x :: t)) * (256 * 256 ^ Z.of_nat n) = 2 ^ 64) as E.
    { rewrite <- pow256_succ, <- Z.pow_add_r by lia. change (2 ^ 64) with (256 ^ 8). f_equal.
      unfold zlen in *. lia. }
    assert (1 <= 256 ^ Z.of_nat (8 - length (x :: t))) by (pose proof (pow256_pos (8 - length (x :: t))); lia).
    assert ((256 ^ Z.of_nat (8 - length (x :: t)) - 1) * (256 * 256 ^ Z.of_nat n) + (x * 256 ^ Z.of_nat n + be_val t)
      = 2 ^ 64 - 256 * 256 ^ Z.of_nat n + (x * 256 ^ Z.of_nat n + be_val t)) as -> by nia.
    rewrite Z.mod_small by nia. change (2 ^ (64 - 1)) with (2 ^ 64 - 128 * 256 ^ 7).
    rewrite (proj2 (Z.ltb_ge _ _)) by nia. lia.
Qed.

Lemma log2_leading x t :
  1 <= x < 256 -> bytes_ok t -> Z.log2 (be_val (x :: t)) = Z.log2 x + 8 * zlen t.
Proof.
  intros Hx Ht. rewrite be_val_cons. pose proof (be_val_bound t Ht) as B. unfold zlen in *.
  assert (256 ^ Z.of_nat (length t) = 2 ^ (8 * Z.of_nat (length t))) as E
    by (rewrite Z.pow_mul_r by lia; done).
  rewrite E in *. apply Z.log2_unique; [pose proof (Z.log2_nonneg x); lia|].
  destruct (Z.log2_spec x ltac:(lia)) as [L1 L2].
  rewrite <- Z.add_succ_l, !Z.pow_add_r by (pose proof (Z.log2_nonneg x); lia).
  split; nia.
Qed.

Lemma byte_high_bit x : 1 <= x < 256 -> (x <? 128) = negb (Z.log2 x =? 7).
Proof.
  intros Hx. assert (forallb (λ x, eqb (x <? 128) (negb (Z.log2 x =? 7))) (seqZ 1 255) = true) as T by by vm_compute.
  apply eqb_prop. apply (Z_range_forall _ _ _ T). lia.
Qed.

(** A non-negative integer comes back, unless its top byte has the high bit. *)
Lemma int_body_nonneg v :
  0 <= v < 2 ^ 63 ->
  decode_int (int_body v)
  = Some (DInt (if decide (int_kept v) then v else v - 2 ^ (Z.log2 v + 1))) /\ zlen (int_body v) <= 8.
Proof.
  intros Hv. unfold int_body. rewrite (proj2 (Z.ltb_ge _ _)) by lia. cbn [andb].
  rewrite wrap_small by lia. destruct (minimal_split 0 v) as (F & E & L & x & t & Ex & N).
  set (first := default 7%nat _) in *. rewrite Ex in *.
  assert (bytes_ok (x :: t)) as Hb by (rewrite <- Ex; apply Forall_drop, be_bytes_ok).
  assert (be_val (x :: t) = v) as V.
  { rewrite <- (be_val_replicate_0 first), <- E. apply be_val_be_bytes_small. simpl. lia. }
  apply Forall_cons in Hb as [Hx Ht].
  assert (zlen (x :: t) <= 8) as L8 by (unfold zlen; simpl in *; lia). split; [|done].
  rewrite decode_int_cons, V by done. do 2 f_equal.
  destruct (Z.eq_dec x 0) as [->|N0].
  - assert (v = 0) as ->.
    { destruct N as [?|E0]; [done|]. rewrite <- (be_val_be_bytes_small 8 v), E0 by (simpl; lia). done. }
    rewrite decide_True by by left. done.
  - unfold byte_ok in Hx. rewrite byte_high_bit by lia.
    pose proof (log2_leading x t ltac:(lia) Ht) as LG. rewrite V in LG.
    assert (0 <= Z.log2 x <= 7) as B.
    { split; [apply Z.log2_nonneg|]. assert (x < 2 ^ 8) as X by lia. apply Z.log2_lt_pow2 in X; lia. }
    assert (Z.log2 v mod 8 = Z.log2 x) as M by (rewrite LG, Z.mul_comm, Z.mod_add by lia; apply Z.mod_small; lia).
    assert (0 < v) by (rewrite <- V, be_val_cons; pose proof (be_val_bound t Ht); pose proof (pow256_pos (length t)); unfold zlen; nia).
    unfold int_kept. destruct (Z.eqb_spec (Z.log2 x) 7) as [E7|E7]; cbn [negb].
    + rewrite decide_False by lia. f_equal. rewrite LG, E7.
      replace (7 + 8 * zlen t + 1) with (8 * (1 + zlen t)) by lia. rewrite Z.pow_mul_r by zlia.
      rewrite zlen_cons. done.
    + rewrite decide_True by lia. lia.
Qed.

(** A negative integer comes back. *)
Lemma int_body_neg v :
  - 2 ^ 63 <= v < 0 -> decode_int (int_body v) = Some (DInt v) /\ zlen (int_body v) <= 8.
Proof.
  intros Hv. unfold int_body. rewrite (proj2 (Z.ltb_lt _ _)) by lia. cbn [andb].
  assert (wrap 64 v = v + 2 ^ 64) as ->.
  { unfold wrap. rewrite <- (Z.mod_add v 1) by lia. apply Z.mod_small. lia. }
  set (u := v + 2 ^ 64). assert (2 ^ 63 <= u < 2 ^ 64) as Hu by (unfold u; lia).
  destruct (minimal_split 255 u) as (F & E & L & x & t & Ex & N).
  pose proof (be_val_be_bytes_small 8 u ltac:(simpl; lia)) as V. pose proof (be_bytes_ok 8 u) as Hb.
  set (first := default 7%nat _) in *. set (be := be_bytes 8 u) in *. clearbody first be.
  assert (exists k y s, drop (if bool_decide (0 < first)%nat then (first - 1)%nat else first) be = y :: s /\
    be = replicate k 255 ++ y :: s /\ length (y :: s) = (8 - k)%nat /\ (k <= 7)%nat /\ 128 <= y) as (k & y & s & -> & Eb & Ly & Hk & Hy).
  { destruct first as [|k].
    - exists 0%nat, x, t. rewrite bool_decide_false by lia. rewrite drop_0 in *. subst be.
      split; [done|]. split; [done|]. split; [done|]. split; [lia|].
      apply Forall_cons in Hb as [Hx Ht]. rewrite be_val_cons in V.
      pose proof (be_val_bound t Ht) as B. simpl in L. unfold zlen in *. injection L as L. rewrite L in *.
      change (256 ^ Z.of_nat 7) with (2 ^ 56) in *. lia.
    - exists k, 255, (drop (S k) be). rewrite bool_decide_true by lia.
      assert (be = replicate k 255 ++ 255 :: drop (S k) be) as EE.
      { rewrite E at 1. rewrite replicate_S_end, <- app_assoc. done. }
      split; [|split; [done|split; [cbn [length]; rewrite L; lia|split; lia]]].
      replace (S k - 1)%nat with k by lia. rewrite EE at 1. apply drop_app_length'. by rewrite length_replicate. }
  rewrite Eb in V, Hb. apply Forall_app in Hb as [_ Hb]. rewrite be_val_replicate_ff in V.
  apply Forall_cons in Hb as [Hyb Hs]. assert (zlen (y :: s) <= 8) as L8 by (unfold zlen; rewrite Ly; lia).
  split; [|done]. rewrite decode_int_cons by done. rewrite (proj2 (Z.ltb_ge _ _)) by lia. do 2 f_equal.
  assert (256 ^ Z.of_nat k * 256 ^ zlen (y :: s) = 2 ^ 64) as P.
  { unfold zlen. rewrite Ly, <- Z.pow_add_r by lia. change (2 ^ 64) with (256 ^ 8). f_equal. lia. }
  unfold u in V. lia.
Qed.

(** A signed integer of the dynamic segment comes back exactly when the top
    byte of its minimal form keeps the sign bit clear; a positive one that does
    not, 128 to begin with, reads back as a negative number. *)
Theorem int_sign v :
  - 2 ^ 63 <= v < 2 ^ 63 ->
  decode_int (int_body v) = Some (DInt (if decide (int_kept v) then v else v - 2 ^ (Z.log2 v + 1))) /\
  (int_kept v \/ v - 2 ^ (Z.log2 v + 1) < 0 < v).
Proof.
  intros Hv. split.
  - destruct (Z.lt_ge_cases v 0).
    + rewrite decide_True by (left; lia). apply int_body_neg. lia.
    + apply int_body_nonneg. lia.
  - destruct (decide (int_kept v)) as [|N]; [by left|right]. unfold int_kept in N.
    assert (0 < v) by lia. destruct (Z.log2_spec v); lia.
Qed.

(** ** Frames *)

Lemma from_byte_to_byte t : from_byte (to_byte t) = Some t.
Proof. by destruct t. Qed.

(** [le ++ b] is a length followed by that many bytes. *)
Definition sized (p : profile) (b le : bytes) : Prop :=
  1 <= zlen le /\ forall rest, take_len p (le ++ rest) = Ok (Some (zlen b, zlen le)).

(** [chunk] is a type byte, a length and a body. *)
Definition framed (p : profile) (ty_byte : Z) (b chunk : bytes) : Prop :=
  exists le, chunk = ty_byte :: le ++ b /\ sized p b le.

Lemma framed_len p t b chunk : framed p t b chunk -> 2 + zlen b <= zlen chunk.
Proof. intros (le & -> & L & _). zlia. Qed.

Lemma push_body_framed p buf ty b :
  zlen b < 2 ^ 49 -> exists chunk, push_body p buf ty b = Ok (buf ++ chunk) /\
  framed p (to_byte ty) b chunk /\ zlen chunk <= zlen b + 10.
Proof.
  intros Hb. pose proof (zlen_nonneg b).
  destruct (put_take_len p (buf ++ [to_byte ty]) (zlen b) ltac:(lia)) as (E & L & T).
  exists (to_byte ty :: encoded (zlen b) ++ b). unfold push_body. rewrite E. cbn [mbind outcome_bind].
  split; [by rewrite <- !app_assoc|]. split; [|zlia]. exists (encoded (zlen b)). split; [done|].
  split; [lia|done].
Qed.

Lemma frame_take_app p (pre mid rest : bytes) :
  frame_fits (pre ++ mid ++ rest) ->
  frame_take p (pre ++ mid ++ rest) (zlen pre) (zlen mid) = Ok (Some (mid, zlen pre + zlen mid)).
Proof.
  unfold frame_fits, frame_take, add_w. intros F.
  rewrite (proj2 (Z.ltb_lt _ _)) by zlia. cbn [mbind outcome_bind].
  rewrite (proj2 (Z.ltb_ge _ _)) by zlia. rewrite slice_app. done.
Qed.

Lemma frame_take_1 p (pre : bytes) x rest :
  frame_fits (pre ++ x :: rest) ->
  frame_take p (pre ++ x :: rest) (zlen pre) 1 = Ok (Some ([x], zlen pre + 1)).
Proof. apply (frame_take_app p pre [x] rest). Qed.

Lemma put_id_app buf id : put_id buf id = buf ++ put_id [] id.
Proof. unfold put_id. by destruct (id <? 0xFF). Qed.

Lemma put_id_len id : 1 <= zlen (put_id [] id) <= 3.
Proof. unfold put_id, zlen. destruct (id <? 0xFF); simpl; rewrite ?be_bytes_length; lia. Qed.

Lemma decode_id_put p pre id rest :
  0 <= id < 2 ^ 16 -> frame_fits (pre ++ put_id [] id ++ rest) ->
  decode_id p (pre ++ put_id [] id ++ rest) (zlen pre) = Ok (Some (id, zlen pre + zlen (put_id [] id))).
Proof.
  intros Hid F. unfold decode_id, put_id in *. destruct (Z.ltb_spec id 0xFF); cbn [app] in *.
  - rewrite wrap_small in * by lia. rewrite frame_take_1 by done. cbn [mbind outcome_bind].
    rewrite (proj2 (Z.eqb_neq _ _)) by lia. done.
  - rewrite frame_take_1 by done. cbn [mbind outcome_bind]. change (0xFF =? 0xFF) with true. cbn iota.
    rewrite cons_middle, app_assoc in *. replace (zlen pre + 1) with (zlen (pre ++ [0xFF])) by zlia.
    change 2 with (zlen (be_bytes 2 id)). rewrite frame_take_app by done.
    cbn [mbind outcome_bind option_bind]. rewrite be_val_be_bytes_small by (simpl; lia).
    do 3 f_equal. zlia.
Qed.

Lemma dec_bindE {N A B} (f : A -> dec N B) (m : dec N A) s :
  (m ≫= f) s = match m s with Ok (s, a) => f a s | Err e => Err e | Panic => Panic end.
Proof. reflexivity. Qed.

Lemma liftdE {N A} (o : outcome unit A) (s : N) :
  liftd o s = match o with Ok a => Ok (s, a) | Err e => Err e | Panic => Panic end.
Proof. reflexivity. Qed.

Lemma dec_retE {N A} (a : A) (s : N) : (mret a : dec N A) s = Ok (s, a).
Proof. reflexivity. Qed.

(** One step of a decoder's run. *)
Ltac dstep :=
  repeat first [rewrite dec_bindE | rewrite liftdE | rewrite dec_retE];
  cbn [mbind outcome_bind or_panic option_map].

(** A frame at the cursor, whatever its type byte. *)
Lemma decode_frame_at {N} p (dv : ObjValueType -> bytes -> dec N (option DynamicValue)) pre id ty_byte b chunk rest s :
  0 <= id < 2 ^ 16 -> framed p ty_byte b chunk ->
  frame_fits (pre ++ put_id [] id ++ chunk ++ rest) ->
  decode_frame_with p dv (pre ++ put_id [] id ++ chunk ++ rest) (zlen pre) s =
  let off := zlen (pre ++ put_id [] id ++ chunk) in
  match from_byte ty_byte with
  | None => Ok (s, UnknownType off)
  | Some ty =>
      (v ← dv ty b; mret (match v with Some v => Frame (mkField id v) off | None => Malformed end)) s
  end.
Proof.
  intros Hid (le & -> & Ll & T) F. unfold decode_frame_with. dstep. rewrite decode_id_put by done.
  dstep. rewrite <- zlen_app. rewrite app_assoc in *. set (pre1 := pre ++ put_id [] id) in *.
  cbn [app] in *. rewrite frame_take_1 by done. dstep.
  rewrite cons_middle, app_assoc in *. replace (zlen pre1 + 1) with (zlen (pre1 ++ [ty_byte])) by zlia.
  rewrite slice_all_from. dstep. rewrite <- (app_assoc le b rest) in *. rewrite T.
  dstep. rewrite <- zlen_app. rewrite (app_assoc (pre1 ++ [ty_byte])) in *.
  rewrite frame_take_app by done. dstep. cbv zeta.
  replace (zlen (pre ++ put_id [] id ++ ty_byte :: le ++ b)) with (zlen ((pre1 ++ [ty_byte]) ++ le) + zlen b)
    by (unfold pre1; zlia).
  by destruct (from_byte ty_byte).
Qed.

(** From a state of [J] the step answers [x] and stays in [J]. *)
Definition answers {N A} (J : N -> Prop) (m : dec N A) (x : A) : Prop :=
  forall s, J s -> exists s', m s = Ok (s', x) /\ J s'.

(** The name closure answers [k] for [id]. *)
Definition names {N} (J : N -> Prop) (name_of : Z -> N -> N * option bytes) (id : Z) (k : bytes) : Prop :=
  forall s, J s -> exists s', name_of id s = (s', Some k) /\ J s'.

Lemma answers_ret {N A} (J : N -> Prop) (x : A) : answers J (mret x) x.
Proof. intros s Hs. by exists s. Qed.

Lemma btree_insert_last {V} (m : list (bytes * V)) k v :
  Forall (λ kv, kv.1 ≺ k) m -> btree_insert k v m = m ++ [(k, v)].
Proof.
  induction 1 as [|[k' v'] m Hk Hm IH]; [done|]. simpl in *.
  unfold bytes_lt in Hk. rewrite lex_compare_antisym, Hk. simpl. by rewrite IH.
Qed.

Section Chunks.
Context {N : Type}.
Variables (p : profile) (J : N -> Prop) (name_of : Z -> N -> N * option bytes).
Implicit Types (dv : ObjValueType -> bytes -> dec N (option DynamicValue)).

(** A value decoder [dv] reads [x] from [chunk], an element or a frame's tail. *)
Definition chunk_of dv (x : DynamicValue) (chunk : bytes) : Prop :=
  exists ty b, framed p (to_byte ty) b chunk /\ answers J (dv ty b) (Some x).

Lemma items_loop_spec dv items chunks : Forall2 (chunk_of dv) items chunks ->
  forall fuel pre acc, (length items <= fuel)%nat -> frame_fits (pre ++ concat chunks) ->
  answers J (items_loop p dv fuel (zlen items) (pre ++ concat chunks) (zlen pre) acc) (Some (acc ++ items)).
Proof.
  induction 1 as [|x chunk items chunks Hx Hxs IH]; intros fuel pre acc Hfuel F s Hs.
  - rewrite !app_nil_r. exists s. by destruct fuel.
  - destruct fuel as [|fuel]; simpl in Hfuel; [lia|]. cbn [items_loop].
    rewrite (proj2 (Z.leb_gt _ _)) by zlia. destruct Hx as (ty & b & (le & -> & Ll & T) & D).
    cbn [concat app] in *. rewrite byte_at_app. cbv zeta.
    rewrite cons_middle, app_assoc in *. replace (zlen pre + 1) with (zlen (pre ++ [to_byte ty])) by zlia.
    rewrite <- (app_assoc le b) in *. rewrite slice_all_from, T. dstep.
    rewrite <- zlen_app. rewrite (app_assoc (pre ++ _)) in *. unfold add_w, frame_fits in *.
    rewrite (proj2 (Z.ltb_lt _ _)) by zlia. dstep. rewrite slice_app, from_byte_to_byte.
    destruct (D s Hs) as (s1 & E & Hs1). dstep. rewrite E. rewrite <- zlen_app. rewrite app_assoc in *.
    replace (zlen (x :: items) - 1) with (zlen items) by zlia.
    destruct (IH fuel (((pre ++ [to_byte ty]) ++ le) ++ b) (acc ++ [x]) ltac:(lia) F s1 Hs1) as (s2 & -> & Hs2).
    exists s2. by rewrite <- app_assoc.
Qed.

(** The entries of an object, the chunk of each behind its name's id. *)
Definition entry_of (T : Z -> bytes -> Prop) dv (kv : bytes * DynamicValue) (chunk : bytes) : Prop :=
  exists id c, 0 <= id < 2 ^ 16 /\ T id kv.1 /\ chunk = put_id [] id ++ c /\ chunk_of dv kv.2 c.

Lemma fields_loop_spec T dv m chunks :
  (forall id k, T id k -> names J name_of id k) -> Forall2 (entry_of T dv) m chunks ->
  forall fuel pre acc, (length m <= fuel)%nat -> frame_fits (pre ++ concat chunks) ->
  StronglySorted bytes_lt (map fst (acc ++ m)) ->
  answers J (fields_loop p name_of dv fuel (pre ++ concat chunks) (zlen pre) acc) (Some (acc ++ m)).
Proof.
  intros HT. induction 1 as [|[k v] chunk m chunks Hx Hxs IH]; intros fuel pre acc Hfuel F Hsort s Hs.
  - simpl. rewrite !app_nil_r. exists s. destruct fuel; simpl; by rewrite Z.ltb_irrefl.
  - destruct fuel as [|fuel]; simpl in Hfuel; [lia|]. cbn [fields_loop].
    destruct Hx as (id & c & Hid & Hname & -> & ty & b & Hf & D). pose proof (framed_len _ _ _ _ Hf).
    cbn [concat] in *. pose proof (put_id_len id). rewrite <- app_assoc in *.
    rewrite (proj2 (Z.ltb_lt _ _)) by zlia. dstep.
    rewrite (decode_frame_at p dv pre id (to_byte ty) b c (concat chunks)) by done.
    rewrite from_byte_to_byte. cbv zeta. dstep. destruct (D s Hs) as (s1 & -> & Hs1).
    dstep. cbn [field_id field_value]. unfold key_of. destruct (HT _ _ Hname s1 Hs1) as (s2 & -> & Hs2).
    cbn [default fst snd] in *. unfold Datatypes.id.
    rewrite btree_insert_last.
    + replace (pre ++ put_id [] id ++ c ++ concat chunks) with ((pre ++ put_id [] id ++ c) ++ concat chunks) in *
        by (by rewrite <- !app_assoc).
      destruct (IH fuel (pre ++ put_id [] id ++ c) (acc ++ [(k, v)])) with (s := s2) as (s3 & -> & Hs3);
        [lia|done|by rewrite <- app_assoc|done|]. exists s3. by rewrite <- app_assoc.
    + apply Forall_forall. intros [k' v'] Hin. rewrite map_app in Hsort. simpl in Hsort.
      apply StronglySorted_app in Hsort as (Hc & _ & _). apply Hc; [|by left].
      apply list_elem_of_fmap. by exists (k', v').
Qed.
End Chunks.

(** ** Round trip *)

(** Nesting depth, and a bound on the size of the encoding. *)
Fixpoint height (v : DynamicValue) : nat :=
  match v with
  | DArray items => S (list_max (map height items))
  | DObj m => S (list_max (map (λ kv, height kv.2) m))
  | _ => 1
  end.

Fixpoint weight (v : DynamicValue) : Z :=
  match v with
  | DStr s => zlen s
  | DBytes b => zlen b
  | DArray items => 9 + fold_right (λ x n, weight x + 10 + n) 0 items
  | DObj m => fold_right (λ kv n, weight kv.2 + 13 + n) 0 m
  | _ => 8
  end.

(** The values the encoder keeps: integers in range and [int_kept], strings that
    are strings, arrays the decoder can allocate, objects in key order whose
    names the vocabulary knows. *)
#[warnings="-register-all"]
Inductive value_ok (capacity : Z) (P : bytes -> Prop) : DynamicValue -> Prop :=
| ok_uint v : 0 <= v < 2 ^ 64 -> value_ok capacity P (DUInt v)
| ok_int v : - 2 ^ 63 <= v < 2 ^ 63 -> int_kept v -> value_ok capacity P (DInt v)
| ok_f64 v : 0 <= v < 2 ^ 64 -> value_ok capacity P (DF64 v)
| ok_str s : utf8_valid s = true -> value_ok capacity P (DStr s)
| ok_bytes b : value_ok capacity P (DBytes b)
| ok_bool b : value_ok capacity P (DBool b)
| ok_null : value_ok capacity P DNull
| ok_array items : zlen items <= capacity -> Forall (value_ok capacity P) items -> value_ok capacity P (DArray items)
| ok_obj m : StronglySorted bytes_lt (map fst m) -> Forall (λ kv, P kv.1) m ->
    Forall (λ kv, value_ok capacity P kv.2) m -> value_ok capacity P (DObj m).

Lemma list_max_cons a l n : (list_max (a :: l) <= n)%nat <-> (a <= n)%nat /\ (list_max l <= n)%nat.
Proof. unfold list_max. simpl. lia. Qed.

Lemma weight_nonneg_aux n : forall v, (height v <= n)%nat -> 0 <= weight v.
Proof.
  induction n as [|n IH]; intros v Hh; [by destruct v; simpl in Hh; lia|].
  destruct v as [| | |s|b| | |items|m]; cbn [weight height] in *; try lia; try apply zlen_nonneg.
  - assert (0 <= fold_right (λ x n, weight x + 10 + n) 0 items); [|lia].
    apply le_S_n in Hh. induction items as [|x items IHl]; simpl in *; [lia|].
    pose proof (IH x ltac:(lia)). specialize (IHl ltac:(lia)). lia.
  - apply le_S_n in Hh. induction m as [|[k v] m IHl]; simpl in *; [lia|].
    pose proof (IH v ltac:(lia)). specialize (IHl ltac:(lia)). lia.
Qed.

Lemma weight_nonneg v : 0 <= weight v.
Proof. by apply (weight_nonneg_aux (height v)). Qed.

Section Encoder.
Context {R : Type}.
Variables (p : profile) (resolve : bytes -> enc R Z).

(** The element loop of an array. *)
Fixpoint put_elements (l : list DynamicValue) (body : bytes) : enc R bytes :=
  match l with
  | [] => mret body
  | item :: l =>
      '(ty, b) ← encode_value p resolve item;
      body ← lift (push_body p body ty b);
      put_elements l body
  end.

Lemma encode_array items :
  encode_value p resolve (DArray items) =
  (body ← lift (put_len p [] (zlen items)); body ← put_elements items body; mret (TArray, body)).
Proof. reflexivity. Qed.

Lemma encode_obj m :
  encode_value p resolve (DObj m) = (body ← put_fields p resolve m []; mret (TObj, body)).
Proof. reflexivity. Qed.

Context {N : Type}.
Variables (capacity : Z) (name_of : Z -> N -> N * option bytes) (J : N -> Prop).
Variables (P : bytes -> Prop) (I : (Z -> bytes -> Prop) -> R -> Prop).

(** A table of numbered names, and the tables that extend it. *)
Definition extends (T T' : Z -> bytes -> Prop) : Prop := forall id k, T id k -> T' id k.

(** The resolver numbers the names of [P]; its table only grows. *)
Definition resolver_ok : Prop :=
  forall T r k, I T r -> P k -> exists T' r' id,
  resolve k r = (r', Ok id) /\ I T' r' /\ extends T T' /\ 0 <= id < 2 ^ 16 /\ T' id k.

(** The reader's closure answers what the table says. *)
Definition realizes (T : Z -> bytes -> Prop) : Prop := forall id k, T id k -> names J name_of id k.

Lemma realizes_extends T T' : extends T T' -> realizes T' -> realizes T.
Proof. intros E H id k Hk. by apply H, E. Qed.

Hypothesis Hres : resolver_ok.

(** What encoding [v] promises, for values of at most [n] levels. *)
Definition encodes (n : nat) (v : DynamicValue) : Prop :=
  weight v < 2 ^ 49 -> forall T r, I T r -> exists T' r' ty b,
  encode_value p resolve v r = (r', Ok (ty, b)) /\ I T' r' /\ extends T T' /\
  zlen b <= weight v /\ (height v <= S (length b))%nat /\
  forall fuel, (n <= fuel)%nat -> realizes T' -> answers J (decode_value p capacity name_of fuel ty b) (Some v).

Lemma put_elements_spec n items :
  Forall (encodes n) items ->
  fold_right (λ x n, weight x + 10 + n) 0 items < 2 ^ 49 -> forall T r buf, I T r -> exists T' r' chunks,
  put_elements items buf r = (r', Ok (buf ++ concat chunks)) /\ I T' r' /\ extends T T' /\
  zlen (concat chunks) <= fold_right (λ x n, weight x + 10 + n) 0 items /\
  (list_max (map height items) <= length (concat chunks))%nat /\
  forall fuel, (n <= fuel)%nat -> realizes T' -> Forall2 (chunk_of p J (decode_value p capacity name_of fuel)) items chunks.
Proof.
  induction 1 as [|x items Hx Hxs IH]; intros Hw T r buf Hr; simpl in *.
  - exists T, r, []. rewrite app_nil_r. split; [done|]. split; [done|]. split; [by intros ? ?|]. split; [by unfold zlen|]. split; [done|]. constructor.
  - pose proof (weight_nonneg x).
    assert (0 <= fold_right (λ x n, weight x + 10 + n) 0 items) as H0.
    { clear. induction items as [|y l IHl]; simpl; [lia|]. pose proof (weight_nonneg y). lia. }
    destruct (Hx ltac:(lia) T r Hr) as (T1 & r1 & ty & b & E & Hr1 & X1 & Lb & Hb & D).
    destruct (push_body_framed p buf ty b ltac:(lia)) as (chunk & Ep & Hc & Lc).
    destruct (IH ltac:(lia) T1 r1 (buf ++ chunk) Hr1) as (T2 & r2 & chunks & Ei & Hr2 & X2 & Lt & Ht & Dt).
    pose proof (framed_len _ _ _ _ Hc) as Lf.
    exists T2, r2, (chunk :: chunks). unfold mbind, enc_bind, lift. rewrite E, Ep, Ei. simpl. rewrite <- app_assoc.
    split; [done|]. split; [done|]. split; [by intros i k ?%X1%X2|]. split; [zlia|].
    split; [apply list_max_cons; rewrite ?length_app in *; unfold zlen in *; simpl; lia|].
    intros fuel Hfuel Hreal. constructor; [|by apply Dt].
    exists ty, b. split; [done|]. apply D; [done|]. by apply (realizes_extends T1 T2).
Qed.

Lemma put_fields_spec n m :
  Forall (λ kv, encodes n kv.2) m -> Forall (λ kv, P kv.1) m ->
  fold_right (λ kv n, weight kv.2 + 13 + n) 0 m < 2 ^ 49 -> forall T r buf, I T r -> exists T' r' chunks,
  put_fields p resolve m buf r = (r', Ok (buf ++ concat chunks)) /\ I T' r' /\ extends T T' /\
  zlen (concat chunks) <= fold_right (λ kv n, weight kv.2 + 13 + n) 0 m /\
  (list_max (map (λ kv, height kv.2) m) <= length (concat chunks))%nat /\
  forall fuel, (n <= fuel)%nat -> realizes T' ->
  Forall2 (entry_of p J (λ id k, T' id k /\ names J name_of id k) (decode_value p capacity name_of fuel)) m chunks.
Proof using Hres.
  induction 1 as [|[k v] m Hx Hxs IH]; intros HP Hw T r buf Hr; simpl in *.
  - exists T, r, []. rewrite app_nil_r. split; [done|]. split; [done|]. split; [by intros ? ?|]. split; [by unfold zlen|]. split; [done|]. constructor.
  - apply Forall_cons in HP as [Hk HP]. pose proof (weight_nonneg v).
    assert (0 <= fold_right (λ kv n, weight kv.2 + 13 + n) 0 m) as H0.
    { clear. induction m as [|[y z] l IHl]; simpl; [lia|]. pose proof (weight_nonneg z). lia. }
    destruct (Hres T r k Hr Hk) as (T0 & r0 & id & Er & Hr0 & X0 & Hid & Hname).
    destruct (Hx ltac:(lia) T0 r0 Hr0) as (T1 & r1 & ty & b & E & Hr1 & X1 & Lb & Hb & D).
    destruct (push_body_framed p (put_id buf id) ty b ltac:(lia)) as (chunk & Ep & Hc & Lc).
    destruct (IH HP ltac:(lia) T1 r1 (put_id buf id ++ chunk) Hr1) as (T2 & r2 & chunks & Ei & Hr2 & X2 & Lt & Ht & Dt).
    pose proof (framed_len _ _ _ _ Hc) as Lf.
    pose proof (put_id_len id).
    exists T2, r2, ((put_id [] id ++ chunk) :: chunks). unfold mbind, enc_bind, lift. rewrite Er, E, Ep, Ei.
    simpl. rewrite put_id_app, <- !app_assoc.
    split; [done|]. split; [done|]. split; [by intros i x ?%X0%X1%X2|]. split; [zlia|].
    split; [apply list_max_cons; rewrite ?length_app in *; unfold zlen in *; simpl; lia|].
    intros fuel Hfuel Hreal. constructor; [|by apply Dt].
    assert (T2 id k) as Hk2 by by apply X2, X1.
    exists id, chunk. split; [done|]. split; [split; [done|by apply Hreal]|]. split; [done|].
    exists ty, b. split; [done|]. apply D; [done|]. by apply (realizes_extends T1 T2).
Qed.

Lemma chunks_length {A} (Q : A -> bytes -> Prop) l chunks :
  (forall x c, Q x c -> 1 <= zlen c) -> Forall2 Q l chunks -> (length l <= length (concat chunks))%nat.
Proof.
  intros HQ. induction 1 as [|x c l chunks Hx Hl IH]; simpl; [lia|].
  apply HQ in Hx. rewrite length_app. unfold zlen in Hx. lia.
Qed.

Lemma decode_array n items chunks fuel :
  Forall2 (chunk_of p J (decode_value p capacity name_of fuel)) items chunks ->
  zlen items <= capacity -> zlen items < 2 ^ 49 -> n = encoded (zlen items) ->
  frame_fits (n ++ concat chunks) ->
  answers J (decode_value p capacity name_of (S fuel) TArray (n ++ concat chunks)) (Some (DArray items)).
Proof.
  intros Hc Hcap Hl -> F s Hs. cbn [decode_value]. pose proof (zlen_nonneg items).
  destruct (put_take_len p [] (zlen items) ltac:(lia)) as (_ & _ & T). rewrite T. dstep.
  unfold assert_. rewrite (proj2 (Z.leb_le _ _)) by done. dstep.
  destruct (items_loop_spec p J _ items chunks Hc (S (length (encoded (zlen items) ++ concat chunks)))
    (encoded (zlen items)) []) with (s := s) as (s1 & -> & Hs1); [|done|done|by exists s1].
  apply chunks_length in Hc; [rewrite length_app; lia|].
  intros x c (ty & b & Hf & _). apply framed_len in Hf. pose proof (zlen_nonneg b). lia.
Qed.

Lemma decode_obj T m chunks fuel :
  (forall id k, T id k -> names J name_of id k) ->
  Forall2 (entry_of p J T (decode_value p capacity name_of fuel)) m chunks ->
  StronglySorted bytes_lt (map fst m) -> frame_fits (concat chunks) ->
  answers J (decode_value p capacity name_of (S fuel) TObj (concat chunks)) (Some (DObj m)).
Proof.
  intros HT Hc Hsort F s Hs. cbn [decode_value]. dstep.
  destruct (fields_loop_spec p J name_of T _ m chunks HT Hc (S (length (concat chunks))) [] []) with (s := s)
    as (s1 & E & Hs1); [|done|done|done|cbn [app] in E; change (zlen (@nil Z)) with 0 in E; rewrite E; by exists s1].
  apply chunks_length in Hc; [simpl; lia|].
  intros x c (i & c' & _ & _ & -> & ty & b & Hf & _). apply framed_len in Hf.
  pose proof (zlen_nonneg b). pose proof (put_id_len i). zlia.
Qed.

Definition scalar (v : DynamicValue) : bool :=
  match v with DArray _ | DObj _ => false | _ => true end.

Lemma encodes_scalar n v : scalar v = true -> value_ok capacity P v -> encodes (S n) v.
Proof.
  intros Hsc Hv Hw T r Hr.
  assert (exists ty b, encode_value p resolve v r = (r, Ok (ty, b)) /\ zlen b <= weight v /\
    forall fuel, answers J (decode_value p capacity name_of (S fuel) ty b) (Some v)) as (ty & b & E & L & D).
  { destruct Hv as [v Hb|v Hb Hk|v Hb|s Hu|b|b| | |]; try done; eexists _, _; (split; [done|]).
    - destruct (uint_roundtrip v Hb) as [E L]. split; [done|]. intros fuel s Hs. exists s. cbn [decode_value]. dstep. by rewrite E.
    - assert (decode_int (int_body v) = Some (DInt v) /\ zlen (int_body v) <= 8) as [E L].
      { destruct (Z.lt_ge_cases v 0); [apply int_body_neg; lia|].
        pose proof (int_body_nonneg v ltac:(lia)) as E. by rewrite decide_True in E. }
      split; [done|]. intros fuel s Hs. exists s. cbn [decode_value]. dstep. by rewrite E.
    - split; [by rewrite be_bytes_zlen|]. intros fuel s Hs. exists s. cbn [decode_value]. rewrite be_bytes_zlen. simpl. dstep.
      by rewrite be_val_be_bytes_small.
    - split; [done|]. intros fuel t Ht. exists t. cbn [decode_value]. unfold from_utf8. by rewrite Hu.
    - split; [done|]. intros fuel s Hs. by exists s.
    - split; [done|]. intros fuel s Hs. exists s. by destruct b.
    - split; [done|]. intros fuel s Hs. by exists s. }
  exists T, r, ty, b. split; [done|]. split; [done|]. split; [by intros ? ?|]. split; [done|].
  split; [destruct v; simpl in *; done || lia|]. intros [|fuel] Hf _; [lia|apply D].
Qed.

Lemma children_encode {A} (g : A -> DynamicValue) n l :
  (forall v, (height v <= n)%nat -> value_ok capacity P v -> encodes n v) ->
  (list_max (map (λ x, height (g x)) l) <= n)%nat -> Forall (λ x, value_ok capacity P (g x)) l ->
  Forall (λ x, encodes n (g x)) l.
Proof.
  intros IH Hh Hv. induction Hv as [|x l Hx Hl IHl]; [constructor|].
  cbn [map] in Hh. apply list_max_cons in Hh as [Hx' Hh]. constructor; [by apply IH|by apply IHl].
Qed.

Lemma items_weight items : zlen items <= fold_right (λ x n, weight x + 10 + n) 0 items.
Proof. induction items as [|x l IHl]; simpl; [done|]. pose proof (weight_nonneg x). zlia. Qed.

Lemma encodes_all n : forall v, (height v <= n)%nat -> value_ok capacity P v -> encodes n v.
Proof using Hres.
  induction n as [|n IH]; intros v Hh Hv; [by destruct v; simpl in Hh; lia|].
  destruct (scalar v) eqn:Hsc; [by apply encodes_scalar|].
  intros Hw T r Hr. destruct Hv as [| | | | | | |items Hcap Hi|m Hs HP Hm]; try done.
  - cbn [weight height] in *. apply le_S_n in Hh. pose proof (children_encode (λ x, x) n items IH Hh Hi) as He.
    pose proof (zlen_nonneg items). pose proof (items_weight items).
    destruct (put_take_len p [] (zlen items) ltac:(lia)) as (El & Ll & _).
    destruct (put_elements_spec n items He ltac:(lia) T r (encoded (zlen items)) Hr)
      as (T' & r' & chunks & E & Hr' & X & Lc & Hc & D).
    exists T', r', TArray, (encoded (zlen items) ++ concat chunks). rewrite encode_array.
    unfold mbind, enc_bind, lift. rewrite El. cbn [app]. rewrite E. split; [done|]. split; [done|]. split; [done|].
    split; [cbn [weight]; zlia|]. split; [cbn [height]; rewrite length_app; lia|].
    intros [|fuel] Hf Hreal; [lia|]. apply decode_array; [by apply D; [lia|]|done|lia|done|].
    unfold frame_fits. zlia.
  - cbn [weight height] in *. apply le_S_n in Hh. pose proof (children_encode snd n m IH Hh Hm) as He.
    destruct (put_fields_spec n m He HP ltac:(lia) T r [] Hr) as (T' & r' & chunks & E & Hr' & X & Lc & Hc & D).
    exists T', r', TObj, (concat chunks). rewrite encode_obj.
    unfold mbind, enc_bind. rewrite E. split; [done|]. split; [done|]. split; [done|]. split; [done|].
    split; [cbn [height]; lia|].
    intros [|fuel] Hf Hreal; [lia|]. eapply decode_obj; [|by apply D; [lia|]|done|]; [by intros ? ? []|]. unfold frame_fits. lia.
Qed.
End Encoder.

(** ** Segments *)

(** What a stored segment is made of, for a reader that may be older than the
    writer. *)
Inductive piece : Type := Known (f : DynamicField) | Unknown.

Definition known (x : piece) : option DynamicField := match x with Known f => Some f | Unknown => None end.

Definition piece_of {N} (p : profile) (J : N -> Prop) (dv : ObjValueType -> bytes -> dec N (option DynamicValue))
    (x : piece) (chunk : bytes) : Prop :=
  exists id c, 0 <= id < 2 ^ 16 /\ chunk = put_id [] id ++ c /\
  match x with
  | Known f => field_id f = id /\ chunk_of p J dv (field_value f) c
  | Unknown => exists ty_byte b, framed p ty_byte b c /\ from_byte ty_byte = None
  end.

Lemma piece_len {N} p J (dv : _ -> _ -> dec N _) x chunk : piece_of p J dv x chunk -> 1 <= zlen chunk.
Proof.
  intros (id & c & _ & -> & _). pose proof (put_id_len id). zlia.
Qed.

Lemma decode_loop_pieces {N} p capacity name_of (J : N -> Prop) ps chunks post : forall fuel pre out,
  let whole := pre ++ concat chunks ++ post in
  Forall2 (piece_of p J (decode_value p capacity name_of (S (length whole)))) ps chunks ->
  frame_fits whole -> (length ps <= fuel)%nat -> forall s, J s -> exists s', J s' /\
  decode_loop p capacity name_of fuel whole (zlen pre) out s =
  decode_loop p capacity name_of (fuel - length ps) whole (zlen (pre ++ concat chunks)) (out ++ omap known ps) s'.
Proof.
  intros fuel pre out whole Hps. unfold whole in *. clear whole.
  remember (decode_value p capacity name_of (S (length (pre ++ concat chunks ++ post)))) as dv eqn:Edv.
  revert fuel pre out Edv.
  induction Hps as [|x chunk ps chunks Hx Hps IH]; intros fuel pre out Edv F Hfuel s Hs.
  - exists s. simpl. by rewrite !app_nil_r, Nat.sub_0_r.
  - destruct fuel as [|fuel]; simpl in Hfuel; [lia|]. pose proof (piece_len _ _ _ _ _ Hx).
    cbn [decode_loop concat] in *. rewrite <- app_assoc in *. rewrite (proj2 (Z.ltb_lt _ _)) by zlia. dstep.
    unfold decode_frame_named. rewrite <- Edv. destruct Hx as (id & c & Hid & -> & Hc).
    rewrite <- app_assoc in *. simpl Nat.sub.
    assert (pre ++ put_id [] id ++ c ++ concat chunks ++ post
      = (pre ++ put_id [] id ++ c) ++ concat chunks ++ post) as EW by (by rewrite <- !app_assoc).
    destruct x as [[i v]|]; simpl in Hc.
    + destruct Hc as [-> (ty & b & Hf & D)]. rewrite (decode_frame_at p dv _ _ (to_byte ty) b c) by done.
      rewrite from_byte_to_byte. cbv zeta. dstep. destruct (D s Hs) as (s1 & -> & Hs1). dstep.
      rewrite EW in *.
      destruct (IH fuel (pre ++ put_id [] id ++ c) (out ++ [mkField id v]) Edv F ltac:(lia) s1 Hs1) as (s2 & Hs2 & ->).
      exists s2. split; [done|].
      f_equal; [f_equal; by rewrite <- !app_assoc|]. unfold omap. simpl. by rewrite <- app_assoc.
    + destruct Hc as (ty & b & Hf & Nt). rewrite (decode_frame_at p dv _ _ ty b c) by done.
      rewrite Nt. cbv zeta. rewrite EW in *.
      destruct (IH fuel (pre ++ put_id [] id ++ c) out Edv F ltac:(lia) s Hs) as (s2 & Hs2 & ->).
      exists s2. split; [done|]. f_equal. f_equal. by rewrite <- !app_assoc.
Qed.

(** A length read says how many bytes the length itself takes, from its first. *)
Lemma sized_prefix p b le l m :
  sized p b le -> le = l ++ m -> m <> [] -> take_len p l = Ok None.
Proof.
  intros [L T] -> Hm. destruct l as [|x l]; [done|]. specialize (T []). rewrite app_nil_r in T.
  unfold take_len in *. cbn [app] in T. destruct (_ <? prefix_width x); [done|].
  destruct (varint_value _ _ _) as [v|?|]; simpl in T; try done. injection T as _ ->.
  assert (0 < zlen m) by (destruct m; [done|zlia]).
  by rewrite (proj2 (Z.ltb_lt _ _)) by zlia.
Qed.

Lemma frame_take_short p b off n : 0 <= n -> off <= zlen b -> zlen b < off + n -> off + n < 2 ^ 64 ->
  frame_take p b off n = Ok None.
Proof.
  intros. unfold frame_take, add_w. rewrite (proj2 (Z.ltb_lt _ _)) by lia. cbn [mbind outcome_bind].
  by rewrite (proj2 (Z.ltb_lt _ _)) by lia.
Qed.

Lemma app_cut (l m a b : bytes) : l ++ m = a ++ b -> (exists k, l = a ++ k /\ k ++ m = b) \/ (exists k, a = l ++ k /\ k <> []).
Proof.
  intros E. destruct (decide (length a <= length l)%nat).
  - left. assert (take (length a) l = a) as Ta.
    { rewrite <- (take_app_le l m) by done. rewrite E. apply take_app_length. }
    exists (drop (length a) l). split; [by rewrite <- Ta at 1; rewrite take_drop|].
    rewrite <- (take_drop (length a) l), Ta, <- app_assoc in E. by apply app_inv_head in E.
  - right. assert (take (length l) a = l) as Tl.
    { rewrite <- (take_app_le a b) by lia. rewrite <- E. apply take_app_length. }
    exists (drop (length l) a). split; [by rewrite <- Tl at 1; rewrite take_drop|].
    intros D. apply (f_equal length) in D. rewrite length_drop in D. simpl in D. lia.
Qed.

(** A frame cut short anywhere is malformed. *)
Lemma decode_frame_torn {N} p (dv : _ -> _ -> dec N _) pre torn ext id ty_byte b c s :
  0 <= id < 2 ^ 16 -> framed p ty_byte b c -> torn ++ ext = put_id [] id ++ c -> ext <> [] ->
  zlen pre + zlen (put_id [] id ++ c) < 2 ^ 63 ->
  decode_frame_with p dv (pre ++ torn) (zlen pre) s = Ok (s, Malformed).
Proof.
  intros Hid (le & -> & Ll & T) E Hext F. unfold decode_frame_with. dstep.
  destruct (app_cut _ _ _ _ E) as [(k & -> & Ek)|(k & Ek & Nk)].
  - rewrite decode_id_put by (done || unfold frame_fits; apply (f_equal zlen) in Ek; zlia).
    dstep. rewrite app_assoc, <- zlen_app. set (pre1 := pre ++ put_id [] id) in *.
    destruct k as [|y k]; [rewrite app_nil_r; rewrite frame_take_short by (unfold pre1; zlia); done|].
    injection Ek as -> Ek. assert (zlen (pre1 ++ ty_byte :: k) < 2 ^ 63) as F1
      by (apply (f_equal zlen) in Ek; unfold pre1; zlia).
    rewrite frame_take_1 by done. dstep.
    rewrite cons_middle, app_assoc. replace (zlen pre1 + 1) with (zlen (pre1 ++ [ty_byte])) by zlia.
    rewrite slice_all_from. dstep.
    destruct (app_cut _ _ _ _ Ek) as [(q & -> & Eq)|(q & Eq & Nq)].
    + rewrite T. dstep. rewrite frame_take_short; [done|apply zlen_nonneg|..].
      * zlia.
      * apply (f_equal zlen) in Eq. assert (0 < zlen ext) by (destruct ext; [done|zlia]). zlia.
      * unfold pre1. zlia.
    + by rewrite (sized_prefix p b le k q).
  - assert (decode_id p (pre ++ torn) (zlen pre) = Ok None) as ->; [|done].
    unfold put_id in Ek. unfold decode_id.
    destruct (id <? 0xFF) in Ek; cbn [app] in Ek.
    + destruct torn as [|y torn]; [rewrite app_nil_r; rewrite frame_take_short by zlia; done|].
      injection Ek as _ Ek. destruct torn; [by simpl in Ek; subst k|done].
    + destruct torn as [|y torn]; [rewrite app_nil_r; rewrite frame_take_short by zlia; done|].
      injection Ek as <- Ek. assert (zlen torn < 2) as Lt.
      { apply (f_equal zlen) in Ek. assert (0 < zlen k) by (destruct k; [done|zlia]).
        rewrite be_bytes_zlen in Ek. zlia. }
      rewrite frame_take_1 by (unfold frame_fits; zlia). cbn [mbind outcome_bind].
      change (0xFF =? 0xFF) with true. cbn iota. rewrite frame_take_short by zlia. done.
Qed.

(** A segment read by a decoder that does not know every type it holds, and
    torn anywhere inside a later frame: the frames of unknown type are skipped
    by their length, and everything before the tear comes back. *)
Theorem decode_skips_and_stops {N} p capacity name_of (J : N -> Prop) ps chunks id ty_byte b c torn ext s :
  let whole := concat chunks ++ torn in
  Forall2 (piece_of p J (decode_value p capacity name_of (S (length whole)))) ps chunks ->
  0 <= id < 2 ^ 16 -> framed p ty_byte b c -> torn ++ ext = put_id [] id ++ c -> ext <> [] ->
  zlen whole + zlen ext < 2 ^ 63 -> J s ->
  exists s', decode_named p capacity name_of whole s = Ok (s', omap known ps) /\ J s'.
Proof.
  intros whole Hps Hid Hf E Hext F Hs. unfold decode_named.
  assert (length ps <= length (concat chunks))%nat as Lp.
  { eapply chunks_length; [|exact Hps]. intros x y Hx. by eapply piece_len. }
  assert (zlen whole = zlen (concat chunks) + zlen torn) as Lw by (unfold whole; zlia).
  destruct (decode_loop_pieces p capacity name_of J ps chunks torn (S (length whole)) [] [] Hps) with (s := s)
    as (s' & Hs' & Eq); [unfold frame_fits; zlia|unfold whole; rewrite length_app; lia|done|].
  exists s'. split; [|done]. cbn [app] in Eq. change (zlen (@nil Z)) with 0 in Eq. fold whole in Eq. rewrite Eq.
  assert (exists k, (S (length whole) - length ps)%nat = S k) as [k ->]
    by (exists (length whole - length ps)%nat; unfold whole; rewrite length_app; lia).
  cbn [decode_loop]. destruct (Z.ltb_spec (zlen (concat chunks)) (zlen whole)); [|done].
  dstep. unfold decode_frame_named, whole.
  rewrite (decode_frame_torn p _ _ torn ext id ty_byte b c) by (done || apply (f_equal zlen) in E; zlia).
  done.
Qed.

(** ** Termination *)

(** Where a reader's answer leaves the cursor. *)
Lemma frame_take_inside p b off n :
  match frame_take p b off n with
  | Ok (Some (s, e)) => zlen s = e - off /\ 0 <= off /\ off <= e <= zlen b
  | Ok None | Panic => True
  | Err _ => False
  end.
Proof.
  unfold frame_take, add_w.
  destruct (off + n <? 2 ^ 64); [|destruct p; [done|]]; dstep; destruct (zlen b <? _); try done;
    match goal with |- context [slice b ?x ?y] => destruct (slice b x y) as [s|] eqn:E; [|done] end;
    apply slice_length in E; simpl; lia.
Qed.

Lemma decode_id_inside p b off :
  match decode_id p b off with
  | Ok (Some (_, e)) => 0 <= off /\ off < e <= zlen b
  | Ok None | Panic => True
  | Err _ => False
  end.
Proof.
  unfold decode_id. pose proof (frame_take_inside p b off 1) as F.
  destruct (frame_take p b off 1) as [[[s e]|]|?|]; try done. dstep.
  destruct s as [|x [|]]; try done. destruct F as (L & ? & ?). change (zlen [x]) with 1 in L.
  destruct (x =? 0xFF); [|lia]. pose proof (frame_take_inside p b e 2) as F2.
  destruct (frame_take p b e 2) as [[[s2 e2]|]|?|]; simpl; try done. lia.
Qed.

Section Total.
Context {N : Type}.
Variables (p : profile) (capacity : Z) (name_of : Z -> N -> N * option bytes).

Definition never_starves {A} (m : dec N A) : Prop := forall s e, m s <> Err e.

(** A frame read moves the cursor forward, and only ever decodes a body
    shorter than the buffer. *)
Lemma decode_frame_progress (dv : ObjValueType -> bytes -> dec N (option DynamicValue)) b off s :
  (forall ty body, zlen body < zlen b -> never_starves (dv ty body)) ->
  match decode_frame_with p dv b off s with
  | Ok (_, Frame _ e) | Ok (_, UnknownType e) => off < e <= zlen b
  | Ok (_, Malformed) | Panic => True
  | Err _ => False
  end.
Proof.
  intros Hdv. unfold decode_frame_with. dstep. pose proof (decode_id_inside p b off) as F1.
  destruct (decode_id p b off) as [[[id e1]|]|?|]; try done. dstep.
  pose proof (frame_take_inside p b e1 1) as F2.
  destruct (frame_take p b e1 1) as [[[t e2]|]|?|]; try done. dstep.
  destruct t as [|x [|]]; try done. dstep.
  destruct (slice b e2 (zlen b)) as [rest|] eqn:Er; [|done]. cbn [or_panic]. dstep.
  apply slice_length in Er. pose proof (take_len_inside p rest) as F3.
  destruct (take_len p rest) as [[[len n]|]|?|]; try done. dstep.
  pose proof (frame_take_inside p b (e2 + n) len) as F4.
  destruct (frame_take p b (e2 + n) len) as [[[body e3]|]|?|]; try done. dstep.
  destruct (from_byte x) as [ty|]; [|dstep; lia]. dstep. assert (zlen body < zlen b) as L by lia.
  pose proof (Hdv ty body L s) as D. destruct (dv ty body s) as [[s1 [v|]]|e|]; try done; [dstep; lia|by destruct (D e)].
Qed.

Lemma fields_loop_total (dv : ObjValueType -> bytes -> dec N (option DynamicValue)) body :
  (forall ty b, zlen b < zlen body -> never_starves (dv ty b)) ->
  forall fuel inner m, zlen body < inner + Z.of_nat fuel -> never_starves (fields_loop p name_of dv fuel body inner m).
Proof.
  intros Hdv. induction fuel as [|fuel IH]; intros inner m L s e; cbn [fields_loop].
  - by rewrite (proj2 (Z.ltb_ge _ _)) by lia.
  - destruct (inner <? zlen body); [|done]. dstep. pose proof (decode_frame_progress dv body inner s Hdv) as F.
    destruct (decode_frame_with p dv body inner s) as [[s1 [nf e1|e1|]]|?|]; try done. dstep.
    unfold key_of. destruct (name_of _ s1) as [s2 n]. apply IH. lia.
Qed.

Lemma items_loop_total (dv : ObjValueType -> bytes -> dec N (option DynamicValue)) body :
  (forall ty b, zlen b < zlen body -> never_starves (dv ty b)) ->
  forall fuel count off acc, (0 < fuel)%nat -> 0 <= off -> zlen body < off + Z.of_nat fuel ->
  never_starves (items_loop p dv fuel count body off acc).
Proof.
  intros Hdv. induction fuel as [|fuel IH]; intros count off acc Hf Ho L s e; [lia|]. cbn [items_loop].
  destruct (count <=? 0); [done|]. destruct (byte_at body off) as [x|]; [|done]. cbv zeta.
  destruct (slice body (off + 1) (zlen body)) as [rest|] eqn:Er; [|done]. dstep.
  apply slice_length in Er. pose proof (take_len_inside p rest) as F.
  destruct (take_len p rest) as [[[len n]|]|?|]; try done. dstep.
  assert (match (add_w p 64 (off + 1 + n) len : outcome unit Z) with Err _ => False | _ => True end) as A.
  { unfold add_w. destruct (_ <? 2 ^ 64); [done|]. by destruct p. }
  destruct (add_w p 64 (off + 1 + n) len) as [e1|?|]; [|done..]. dstep.
  destruct (slice body (off + 1 + n) e1) as [ib|] eqn:Ei; [|done]. apply slice_length in Ei.
  destruct (from_byte x) as [ty|]; [|done]. dstep. assert (zlen ib < zlen body) as Lb by lia.
  pose proof (Hdv ty ib Lb s) as D. destruct (dv ty ib s) as [[s1 [v|]]|e2|]; try done; [|by destruct (D e2)].
  apply IH; lia.
Qed.

(** Nesting deeper than the fuel would need a longer body. *)
Lemma decode_value_total fuel : forall ty body,
  zlen body < Z.of_nat fuel -> never_starves (decode_value p capacity name_of fuel ty body).
Proof.
  induction fuel as [|fuel IH]; intros ty body L s e; [zlia|].
  assert (forall ty b, zlen b < zlen body -> never_starves (decode_value p capacity name_of fuel ty b)) as Hdv
    by (intros; apply IH; lia).
  destruct ty; cbn [decode_value]; try done; dstep.
  - pose proof (take_len_inside p body) as F. destruct (take_len p body) as [[[count n]|]|?|]; try done. dstep.
    unfold assert_. destruct (count <=? capacity); [|done]. dstep.
    pose proof (items_loop_total _ body Hdv (S (length body)) count n [] ltac:(lia) ltac:(lia)
      ltac:(unfold zlen in *; lia) s) as D.
    destruct (items_loop _ _ _ _ _ _ _ s) as [[s1 r]|e1|]; [done|by destruct (D e1)|done].
  - pose proof (fields_loop_total _ body Hdv (S (length body)) 0 [] ltac:(unfold zlen in *; lia) s) as D.
    destruct (fields_loop _ _ _ _ _ _ _ s) as [[s1 r]|e1|]; [done|by destruct (D e1)|done].
Qed.

Lemma decode_loop_total b fuel : forall off out,
  zlen b < off + Z.of_nat fuel -> never_starves (decode_loop p capacity name_of fuel b off out).
Proof.
  induction fuel as [|fuel IH]; intros off out L s e; cbn [decode_loop].
  - by rewrite (proj2 (Z.ltb_ge _ _)) by lia.
  - destruct (off <? zlen b); [|done]. dstep. unfold decode_frame_named.
    pose proof (decode_frame_progress (decode_value p capacity name_of (S (length b))) b off s) as F.
    assert (forall ty body, zlen body < zlen b ->
      never_starves (decode_value p capacity name_of (S (length b)) ty body)) as Hdv.
    { intros ty body Lb. apply decode_value_total. unfold zlen in *. lia. }
    specialize (F Hdv). destruct (decode_frame_with _ _ b off s) as [[s1 [f e1|e1|]]|?|]; try done; apply IH; lia.
Qed.
End Total.

(** C39: decoding ends on every byte string, however malformed or deeply nested,
    whatever the name closure answers: the fuel of the model is never used up. *)
Theorem decode_terminates {N} p capacity (name_of : Z -> N -> N * option bytes) b s :
  decode_named p capacity name_of b s <> Err tt /\ decode_variants p capacity b <> Err tt.
Proof.
  assert (forall M (nm : Z -> M -> M * option bytes) t, decode_named p capacity nm b t <> Err tt) as T.
  { intros M nm t. apply decode_loop_total. unfold zlen. lia. }
  split; [apply T|]. unfold decode_variants. pose proof (T _ no_names tt) as D.
  by destruct (decode_named p capacity no_names b tt) as [[? ?]|[]|].
Qed.

(** ** A whole segment *)

Section PutAll.
Context {R : Type}.
Variables (p : profile) (resolve : bytes -> enc R Z).

(** The loop of [slot1_into]: one frame per entry. *)
Fixpoint put_all (m : list (bytes * DynamicValue)) (buf : bytes) : enc R bytes :=
  match m with
  | [] => mret buf
  | (name, value) :: m => buf ← put_frame_named p resolve buf name value; put_all m buf
  end.

(** The two arms of [put_frame_named] are one. *)
Lemma put_frame_named_eq buf name v r :
  put_frame_named p resolve buf name v r =
  (id ← resolve name; '(ty, b) ← encode_value p resolve v; lift (push_body p (put_id buf id) ty b)) r.
Proof.
  unfold put_frame_named, mbind, enc_bind. destruct (resolve name r) as [r1 [id|?|]]; try done.
  destruct v; try done. rewrite encode_obj. unfold mbind, enc_bind.
  by destruct (put_fields p resolve m [] r1) as [r2 [?|?|]].
Qed.

Lemma put_all_fields m : forall buf r, put_all m buf r = put_fields p resolve m buf r.
Proof.
  induction m as [|[k v] m IH]; intros buf r; [done|]. simpl.
  unfold mbind, enc_bind. rewrite put_frame_named_eq. unfold mbind, enc_bind.
  destruct (resolve k r) as [r1 [id|?|]]; try done.
  destruct (encode_value p resolve v r1) as [r2 [[ty b]|?|]]; try done.
  unfold lift. destruct (push_body p (put_id buf id) ty b); try done; apply IH.
Qed.
End PutAll.

Lemma entry_piece {N} p (J : N -> Prop) T dv m chunks :
  Forall2 (entry_of p J T dv) m chunks ->
  exists fs : list DynamicField, map field_value fs = map snd m /\
  Forall2 (λ f (kv : bytes * DynamicValue), 0 <= field_id f < 2 ^ 16 /\ T (field_id f) kv.1) fs m /\
  Forall2 (piece_of p J dv) (map Known fs) chunks.
Proof.
  induction 1 as [|[k v] chunk m chunks (id & c & Hid & Hn & -> & Hc) He (fs & E & F1 & F2)].
  - by exists [].
  - exists (mkField id v :: fs). simpl. split; [by rewrite E|]. split; [by constructor|]. constructor; [|done].
    by exists id, c.
Qed.

(** A segment written by the loop is read back whole. *)
Lemma segment_roundtrip {R N} p (resolve : bytes -> enc R Z) capacity (name_of : Z -> N -> N * option bytes) J P I l T r :
  resolver_ok resolve P I ->
  Forall (λ kv, value_ok capacity P kv.2) l -> Forall (λ kv, P kv.1) l ->
  fold_right (λ kv n, weight kv.2 + 13 + n) 0 l < 2 ^ 49 -> I T r ->
  exists T' r' buf, put_all p resolve l [] r = (r', Ok buf) /\ I T' r' /\ extends T T' /\
  (l <> [] -> buf <> []) /\
  (realizes name_of J T' -> forall s, J s -> exists s' fs, decode_named p capacity name_of buf s = Ok (s', fs) /\ J s' /\
   map field_value fs = map snd l /\
   Forall2 (λ f (kv : bytes * DynamicValue), 0 <= field_id f < 2 ^ 16 /\ T' (field_id f) kv.1) fs l).
Proof.
  intros Hres Hv HP Hw Hr. set (n := list_max (map (λ kv : bytes * DynamicValue, height kv.2) l)).
  assert (Forall (λ kv : bytes * DynamicValue, encodes p resolve capacity name_of J I n kv.2) l) as He.
  { apply (children_encode p resolve capacity name_of J P I snd n l); [|done|done].
    intros v Hh Hok. by apply (encodes_all p resolve capacity name_of J P I Hres n). }
  destruct (put_fields_spec p resolve capacity name_of J P I Hres n l He HP Hw T r [] Hr)
    as (T' & r' & chunks & E & Hr' & X & Lc & Hc & D).
  exists T', r', (concat chunks). rewrite put_all_fields, E. cbn [app]. do 3 (split; [done|]).
  assert (n <= S (length (concat chunks)))%nat as Ln by (unfold n; lia). split.
  { intros Hl Hnil. rewrite Hnil in Hc. destruct l as [|[k v] l']; [done|]. simpl in Hc.
    assert (1 <= height v)%nat by (destruct v; simpl; lia). lia. }
  intros Hreal s Hs.
  destruct (entry_piece p J _ _ l chunks (D (S (length (concat chunks))) Ln Hreal)) as (fs & Ef & F1 & F2).
  destruct (decode_loop_pieces p capacity name_of J (map Known fs) chunks [] (S (length (concat chunks))) [] [])
    with (s := s) as (s' & Hs' & Eq).
  - cbn [app]. by rewrite app_nil_r.
  - unfold frame_fits. cbn [app]. rewrite app_nil_r. lia.
  - transitivity (length (concat chunks)); [|lia]. eapply chunks_length; [|exact F2].
    intros x y Hx. by eapply piece_len.
  - done.
  - cbn [app] in Eq. rewrite app_nil_r in Eq. change (zlen (@nil Z)) with 0 in Eq.
    exists s', fs. split; [|split; [done|split; [done|]]].
    + unfold decode_named. rewrite Eq.
      assert (omap known (map Known fs) = fs) as ->.
      { clear. induction fs as [|x fs IH]; [done|]. unfold omap in *. simpl. by rewrite IH. }
      destruct (S (length (concat chunks)) - length (map Known fs))%nat; simpl; by rewrite Z.ltb_irrefl.
    + eapply Forall2_impl; [exact F1|]. by intros f kv (? & ? & _).
Qed.

(** Encoding is undone by decoding, nested names included.  Whatever fields
    a caller stores, the encoder runs to the end against a resolver that numbers
    their names, and a decoder whose closure answers the resolver's final table
    gives every value back, in order, each under a number of its own name. *)
Theorem dynamic_roundtrip {R N} p (resolve : bytes -> enc R Z) capacity (name_of : Z -> N -> N * option bytes) J P I l T r s :
  resolver_ok resolve P I ->
  Forall (λ kv, value_ok capacity P kv.2) l -> Forall (λ kv, P kv.1) l ->
  fold_right (λ kv n, weight kv.2 + 13 + n) 0 l < 2 ^ 49 -> I T r -> J s ->
  exists T' r' buf, put_all p resolve l [] r = (r', Ok buf) /\ I T' r' /\ extends T T' /\
  (realizes name_of J T' -> exists s' fs, decode_named p capacity name_of buf s = Ok (s', fs) /\
   map field_value fs = map snd l /\
   Forall2 (λ f (kv : bytes * DynamicValue), 0 <= field_id f < 2 ^ 16 /\ T' (field_id f) kv.1) fs l).
Proof.
  intros Hres Hv HP Hw Hr Hs.
  destruct (segment_roundtrip p resolve capacity name_of J P I l T r Hres Hv HP Hw Hr)
    as (T' & r' & buf & E & Hr' & X & _ & D).
  exists T', r', buf. do 3 (split; [done|]). intros Hreal.
  destruct (D Hreal s Hs) as (s' & fs & Ed & _ & V & F). by exists s', fs.
Qed.

(** Without a vocabulary [put_frame] still encodes every value that holds no
    object, and its frame decodes back; the first nested name is reported as
    [VocabularyRequired], never guessed. *)
Theorem put_frame_no_vocab p capacity id v k m :
  0 <= id < 2 ^ 16 -> value_ok capacity (λ _, False) v -> weight v < 2 ^ 49 ->
  (exists buf, put_frame p [] id v = Ok buf /\ decode_variants p capacity buf = Ok [mkField id v]) /\
  put_frame p [] id (DObj ((k, v) :: m)) = Err (VocabularyRequired k) /\
  put_frame p [] id (DObj []) <> Err (VocabularyRequired k).
Proof.
  intros Hid Hv Hw. split; [|split; [done|]].
  - assert (resolver_ok no_vocab (λ _ : bytes, False) (λ T _, forall id k, ~ T id k)) as Hres by by intros ? ? ? ? [].
    destruct (encodes_all p no_vocab capacity no_names (λ _, True) (λ _, False) (λ T _, forall id k, ~ T id k) Hres
      (height v) v ltac:(done) Hv Hw (λ _ _, False) tt) as (T' & r' & ty & b & E & HT' & _ & Lb & Hb & D); [by intros ? ? []|].
    pose proof (zlen_nonneg b).
    destruct (push_body_framed p (put_id [] id) ty b ltac:(lia)) as (c & Ep & Hc & Lc).
    exists (put_id [] id ++ c). unfold put_frame, mbind, enc_bind, lift. rewrite E, Ep. split; [done|].
    pose proof (framed_len _ _ _ _ Hc). pose proof (put_id_len id).
    assert (Forall2 (piece_of p (λ _ : unit, True) (decode_value p capacity no_names (S (length (put_id [] id ++ c)))))
      [Known (mkField id v)] [put_id [] id ++ c]) as Hp.
    { constructor; [|constructor]. exists id, c. split; [done|]. split; [done|]. split; [done|].
      exists ty, b. split; [done|]. apply D; [rewrite length_app; unfold zlen in *; lia|].
      by intros i x ?%HT'. }
    unfold decode_variants, decode_named.
    destruct (decode_loop_pieces p capacity no_names (λ _, True) [Known (mkField id v)] [put_id [] id ++ c] []
      (S (length (put_id [] id ++ c))) [] []) with (s := tt) as (s' & _ & Eq).
    + cbn [app concat]. by rewrite !app_nil_r.
    + unfold frame_fits. cbn [app concat]. rewrite !app_nil_r. zlia.
    + rewrite length_app. unfold zlen in *. simpl. lia.
    + done.
    + cbn [app concat] in Eq. rewrite !app_nil_r in Eq. change (zlen (@nil Z)) with 0 in Eq. rewrite Eq.
      destruct (S (length (put_id [] id ++ c)) - length [Known (mkField id v)])%nat; simpl; by rewrite Z.ltb_irrefl.
  - unfold put_frame, mbind, enc_bind, lift. simpl. destruct (push_body p (put_id [] id) TObj []); done.
Qed.

(** * Witnesses *)

(** A two-name vocabulary: 0 is [a], 300 is [b]. *)
Definition sample_resolve (k : bytes) : enc unit Z := λ r, (r, Ok (if decide (k = [97]) then 0 else 300)).

Definition sample_name (id : Z) (s : unit) : unit * option bytes := (s, Some (if id =? 0 then [97] else [98])).

Definition sample_fields : list (bytes * DynamicValue) :=
  [([97], DArray [DInt (-300); DInt 127; DNull; DObj [([97], DUInt 7); ([98], DStr [104; 105])]]); ([98], DBool true)].

Lemma int_sign_witness : decode_int (int_body 200) = Some (DInt (-56)).
Proof. refine (eq_trans (proj1 (int_sign 200 _)) _); [lia|by vm_compute]. Defined.

(** The table behind it. *)
Definition sample_table (id : Z) (k : bytes) : Prop := id = 0 /\ k = [97] \/ id = 300 /\ k = [98].

Lemma sample_resolver_ok : resolver_ok sample_resolve (λ k, k ∈ [[97]; [98]]) (λ T _, T = sample_table).
Proof.
  intros T r k -> Hk. exists sample_table, r, (if decide (k = [97]) then 0 else 300).
  do 2 (split; [done|]). split; [by intros ? ?|]. split; [case_decide; lia|].
  unfold sample_table. apply elem_of_cons in Hk as [->|Hk%list_elem_of_singleton]; [|subst k]; simpl; auto.
Qed.

Lemma sample_realizes : realizes sample_name (λ _, True) sample_table.
Proof. intros id k [[-> ->]|[-> ->]] s _; by exists s. Qed.

Lemma sample_fields_ok :
  Forall (λ kv, value_ok 100 (λ k, k ∈ [[97]; [98]]) kv.2) sample_fields.
Proof.
  constructor; [|constructor; [constructor|constructor]].
  apply ok_array; [by vm_compute|].
  constructor; [apply ok_int; [lia|left; lia]|].
  constructor; [apply ok_int; [lia|right; by vm_compute]|].
  constructor; [apply ok_null|]. constructor; [|constructor].
  apply ok_obj.
  - by repeat constructor.
  - constructor; [set_solver|]. constructor; [set_solver|constructor].
  - constructor; [constructor; lia|]. constructor; [by constructor|constructor].
Qed.

Lemma dynamic_roundtrip_witness :
  exists r' buf s' fs, put_all Debug sample_resolve sample_fields [] tt = (r', Ok buf) /\
  decode_named Debug 100 sample_name buf tt = Ok (s', fs) /\ map field_value fs = map snd sample_fields.
Proof.
  destruct (dynamic_roundtrip Debug sample_resolve 100 sample_name (λ _, True) (λ k, k ∈ [[97]; [98]])
    (λ T _, T = sample_table) sample_fields sample_table tt tt sample_resolver_ok) as (T' & r' & buf & E & -> & _ & D).
  - exact sample_fields_ok.
  - constructor; [set_solver|]. constructor; [set_solver|constructor].
  - by vm_compute.
  - done.
  - done.
  - destruct (D sample_realizes) as (s' & fs & Ed & V & _).
    exists r', buf, s', fs. split; [exact E|]. split; [exact Ed|exact V].
Defined.

Lemma put_frame_no_vocab_witness :
  put_frame Debug [] 7 (DObj [([97], DBool true)]) = Err (VocabularyRequired [97]).
Proof.
  refine (proj1 (proj2 (put_frame_no_vocab Debug 100 7 (DBool true) [97] [] _ _ _))); [lia|constructor|by vm_compute].
Defined.

(** A boolean, a frame of the unknown type 99 and a torn number. *)
Lemma decode_skips_and_stops_witness :
  exists s', decode_named Debug 100 no_names ([1; 4; 1; 1] ++ [2; 99; 1; 5] ++ [3; 0; 1]) tt
    = Ok (s', [mkField 1 (DBool true)]).
Proof.
  destruct (decode_skips_and_stops Debug 100 no_names (λ _, True) [Known (mkField 1 (DBool true)); Unknown]
    [[1; 4; 1; 1]; [2; 99; 1; 5]] 3 0 [9] [0; 1; 9] [3; 0; 1] [9] tt) as (s' & E & _); try done.
  - assert (forall b : Z, sized Debug [b] [1]) as Hsz.
    { intros b. split; [by vm_compute|]. intros rest. destruct (put_take_len Debug [] 1 ltac:(lia)) as (_ & _ & T).
      exact (T rest). }
    constructor; [|constructor; [|constructor]].
    + exists 1, [4; 1; 1]. split; [lia|]. split; [done|]. split; [done|]. exists TBool, [1].
      split; [by exists [1]|]. intros s _. exists s. by vm_compute.
    + exists 2, [99; 1; 5]. split; [lia|]. split; [done|]. exists 99, [5]. split; [by exists [1]|done].
  - exists [1]. split; [done|]. split; [by vm_compute|]. intros rest.
    destruct (put_take_len Debug [] 1 ltac:(lia)) as (_ & _ & T). exact (T rest).
  - exists s'. exact E.
Defined.
