(* ===== verification/Segment.v ===== *)
(** * The dynamic segment of a row (okm-core, [model/document.rs])

    Slot 1 of a row holds its undeclared fields: the frames of [DynValue], their
    names numbered by the collection's field vocabulary of [Vocab].  [slot1_into]
    writes the segment and the vocabulary growth into one batch, [slot1_map]
    reads it back.  The theorem composes the three components: after the batch
    is committed the segment reads back as the map that was stored. *)
From S2P Require Import Prelude Errors Storage Slots Vocab VarInt DynValue.

(** [Collection::fields_key]; [key] is the encoded key. *)
Definition fields_key {E} (header key : bytes) : outcome E bytes :=
  buf ← write_slot header DYNAMIC_SLOT; Ok (buf ++ key).

(** The closure [|name| d.id_for(&mut store, &header, name)]. *)
Definition field_id_for {T} `{VirtualStorage T} (p : profile) (header name : bytes) : enc (VocabCache * T) Z := λ '(d, st),
  let '(d, st, r) := id_for 2 p d st header name in ((d, st), r).

Section Slot1.
Context {S : Type} `{VirtualStorage S}.
Variables (p : profile) (capacity : Z).

Definition slot1_into (store : S) (batch : Batch) (header key : bytes) (variants : list (bytes * DynamicValue))
    : Batch * result unit :=
  match fields_key header key with
  | Ok k =>
      let '(d, st, r) :=
        put_all p (field_id_for p header) variants [] (VocabCache_new FIELD_VOCAB, mkBatchStore store batch) in
      match r with
      | Ok body =>
          let '(st, r) := match body with [] => vs_del st k | _ => vs_put st k body end in
          (bs_batch st, r)
      | Err e => (bs_batch st, Err e)
      | Panic => (bs_batch st, Panic)
      end
  | Err e => (batch, Err e)
  | Panic => (batch, Panic)
  end.

(** The closure over the vocabulary; a refused read is parked. *)
Definition parked_name (store : S) (header : bytes) (id : Z) (st : VocabCache * result unit)
    : (VocabCache * result unit) * option bytes :=
  let '(d, failed) := st in
  let '(d, r) := name_for 2 d store header id in
  match r with
  | Ok name => ((d, failed), name)
  | Err e => ((d, Err e), None)
  | Panic => ((d, Panic), None)
  end.

(** The loop over the top-level frames. *)
Fixpoint named_fields (store : S) (header : bytes) (d : VocabCache) (frames : list DynamicField)
    (out : list (bytes * DynamicValue)) : result (list (bytes * DynamicValue)) :=
  match frames with
  | [] => Ok out
  | f :: frames =>
      let '(d, r) := name_for 2 d store header (field_id f) in
      name ← r;
      named_fields store header d frames
        (match name with Some name => btree_insert name (field_value f) out | None => out end)
  end.

Definition slot1_map (store : S) (header key : bytes) : result (option (list (bytes * DynamicValue))) :=
  k ← fields_key header key;
  raw ← vs_get store k;
  match raw with
  | None => Ok None
  | Some raw =>
      match decode_named p capacity (parked_name store header) raw (VocabCache_new FIELD_VOCAB, Ok tt) with
      | Ok ((d, failed), frames) =>
          failed;;
          match frames with
          | [] => Ok None
          | _ => out ← named_fields store header d frames []; Ok (Some out)
          end
      | _ => Panic
      end
  end.
End Slot1.

(** * Lemmas *)

Lemma FIELD_VOCAB_ok : faces_ok FIELD_VOCAB.
Proof. unfold faces_ok, slot_ok. simpl. unfold FIELD_VOCAB_ID_SLOT, FIELD_VOCAB_NAME_SLOT. lia. Qed.

Lemma fields_key_ok {E} header key : @fields_key E header key = Ok (header ++ slot_bytes DYNAMIC_SLOT ++ key).
Proof.
  unfold fields_key. rewrite write_slot_ok by (unfold slot_ok, DYNAMIC_SLOT; lia).
  cbn [mbind outcome_bind]. by rewrite <- app_assoc.
Qed.

(** The segment is on none of the vocabulary's keys. *)
Lemma fields_key_apart header key :
  ~ on_faces header FIELD_VOCAB (header ++ slot_bytes DYNAMIC_SLOT ++ key).
Proof.
  intros [x [E|E]]; apply app_inv_head, slot_bytes_prefix_free in E; try done;
    unfold slot_ok, DYNAMIC_SLOT; simpl; unfold FIELD_VOCAB_ID_SLOT, FIELD_VOCAB_NAME_SLOT; lia.
Qed.

(** A batch writer never touches the store behind it. *)
Lemma id_for_bs_store {S} `{PointStorage S} w p d (st : BatchStore S) header name d' st' r :
  id_for w p d st header name = (d', st', r) -> bs_store st' = bs_store st.
Proof.
  unfold id_for. destruct (nk ← _; _) as [[i|]|?|]; [by intros [= <- <- <-]|..|by intros [= <- <- <-]|by intros [= <- <- <-]].
  destruct (take_next w d st header) as [c [i|?|]]; [|by intros [= <- <- <-]..].
  destruct (succ w i) as [next|]; [|by intros [= <- <- <-]].
  destruct (allocation w (faces c) header name i next) as [b|?|]; [|by intros [= <- <- <-]..].
  simpl. unfold default_commit_batch. rewrite BatchStore_replay. by intros [= <- <- <-].
Qed.

(** A store holds one vocabulary. *)
Lemma vocab_at_unique w h f m ls ls' : vocab_at w h f m ls -> vocab_at w h f m ls' -> ls = ls'.
Proof.
  intros V V'. pose proof (at_size _ _ _ _ _ V) as L. pose proof (at_size _ _ _ _ _ V') as L'.
  apply list_eq. intros i. destruct (Z.lt_ge_cases (Z.of_nat i) (256 ^ Z.of_nat w)).
  - pose proof (at_id _ _ _ _ _ V (Z.of_nat i) ltac:(lia)) as E.
    pose proof (at_id _ _ _ _ _ V' (Z.of_nat i) ltac:(lia)) as E'. rewrite Nat2Z.id in *. congruence.
  - unfold zlen in *. rewrite !lookup_ge_None_2 by lia. done.
Qed.

Section Grown.
Context {W : Type} `{PointStorage W}.
Variables (p : profile) (capacity : Z) (header : bytes) (ls nms : list bytes).
Hypothesis (Hnms : Forall (λ k, utf8_valid k = true) nms).
Hypothesis (Hroom : zlen ls + zlen nms < 2 ^ 16).

(** What the writer promises besides: an allocation keeps [Inv]. *)
Variable Inv : W -> Prop.
Hypothesis Hinv : forall d st ls' name d' st' r, holds 2 header FIELD_VOCAB d st ls' -> utf8_valid name = true -> Inv st ->
  id_for 2 p d st header name = (d', st', r) -> Inv st'.

(** The resolver's state: a vocabulary grown out of [ls] by names of [nms]. *)
Definition grown (T : Z -> bytes -> Prop) (st : VocabCache * W) : Prop :=
  exists ls', holds 2 header FIELD_VOCAB st.1 st.2 ls' /\ Inv st.2 /\
  ls' ⊆ ls ++ nms /\ (exists more, ls' = ls ++ more) /\
  (forall id k, T id k <-> 0 <= id /\ ls' !! Z.to_nat id = Some k).

Lemma grown_room ls' : NoDup ls' -> ls' ⊆ ls ++ nms -> zlen ls' < 2 ^ 16.
Proof using Hroom.
  intros ND Sub. pose proof (NoDup_submseteq _ _ ND Sub) as L%submseteq_length.
  rewrite length_app in L. unfold zlen in *. lia.
Qed.

Lemma field_id_for_ok : resolver_ok (field_id_for p header) (λ k, k ∈ nms) grown.
Proof using Hnms Hroom Hinv.
  intros T [d st] k (ls' & Hh & Es & Sub & (more & El) & HT) Hk. simpl in *.
  pose proof Hh as (Fc & Hc & V). pose proof (at_nodup _ _ _ _ _ V) as ND.
  assert (exists d' st' i ls2, id_for 2 p d st header k = (d', st', Ok (Z.of_nat i)) /\
    holds 2 header FIELD_VOCAB d' st' ls2 /\ ls2 !! i = Some k /\ ls2 ⊆ ls ++ nms /\
    exists more2, ls2 = ls' ++ more2) as (d' & st' & i & ls2 & E & Hh' & Ei & Sub' & more2 & El2).
  { destruct (position k ls') as [i|] eqn:P.
    - destruct (id_for_known (S := W) p 2 header FIELD_VOCAB FIELD_VOCAB_ok ltac:(lia) d st ls' k i Hh P) as (d' & E & Hh').
      exists d', st, i, ls'. split; [done|]. split; [done|]. split; [by apply position_Some|]. split; [done|].
      exists []. by rewrite app_nil_r.
    - pose proof (position_None _ _ P) as Nk.
      assert (ls' ++ [k] ⊆ ls ++ nms) as Sub'.
      { intros x [Hx| ->%list_elem_of_singleton]%elem_of_app; [by apply Sub|]. apply elem_of_app. by right. }
      assert (zlen (ls' ++ [k]) < 2 ^ 16) as L.
      { apply grown_room; [|done]. apply NoDup_app. split; [done|]. split; [|apply NoDup_singleton].
        by intros x Hx ->%list_elem_of_singleton. }
      rewrite Forall_forall in Hnms.
      destruct (id_for_new (S := W) p 2 header FIELD_VOCAB FIELD_VOCAB_ok ltac:(lia) d st ls' k Hh P (Hnms k Hk))
        as (d' & st' & E & Hh' & _); [change (256 ^ Z.of_nat 2) with (2 ^ 16); zlia|].
      exists d', st', (length ls'), (ls' ++ [k]). split; [done|]. split; [done|].
      split; [by apply list_lookup_middle|]. split; [done|]. by eexists. }
  exists (λ id x, 0 <= id /\ ls2 !! Z.to_nat id = Some x), (d', st'), (Z.of_nat i).
  unfold field_id_for. rewrite E. split; [done|]. split; [|split; [|split]].
  - exists ls2. simpl. split; [done|]. split; [eapply Hinv; [exact Hh| |exact Es|exact E]; rewrite Forall_forall in Hnms; by apply Hnms|].
    split; [done|]. split; [|done]. exists (more ++ more2). by rewrite El2, El, <- app_assoc.
  - intros id x [? Hx]%HT. split; [done|]. rewrite El2. by apply lookup_app_l_Some.
  - pose proof (at_size _ _ _ _ _ (proj2 (proj2 Hh'))) as Sz. change (256 ^ Z.of_nat 2) with (2 ^ 16) in Sz.
    apply lookup_lt_Some in Ei. unfold zlen in Sz. lia.
  - split; [lia|]. by rewrite Nat2Z.id.
Qed.

(** The table of a vocabulary. *)
Definition numbered (l : list bytes) (id : Z) (k : bytes) : Prop := 0 <= id /\ l !! Z.to_nat id = Some k.

(** The whole segment, written by [put_all] and read by [decode_named]. *)
Lemma put_all_grown l st :
  Forall (λ kv, value_ok capacity (λ k, k ∈ nms) kv.2) l -> Forall (λ kv, kv.1 ∈ nms) l ->
  fold_right (λ kv n, weight kv.2 + 13 + n) 0 l < 2 ^ 49 -> grown (numbered ls) st ->
  exists d' st' body more, put_all p (field_id_for p header) l [] st = ((d', st'), Ok body) /\
  vocab_at 2 header FIELD_VOCAB (held st') (ls ++ more) /\ Inv st' /\ (l <> [] -> body <> []) /\
  forall N name_of (J : N -> Prop) x, realizes name_of J (numbered (ls ++ more)) -> J x ->
  exists x' fs, decode_named p capacity name_of body x = Ok (x', fs) /\ J x' /\
  map field_value fs = map snd l /\
  Forall2 (λ f (kv : bytes * DynamicValue), 0 <= field_id f < 2 ^ 16 /\
    (ls ++ more) !! Z.to_nat (field_id f) = Some kv.1) fs l.
Proof using Hnms Hroom Hinv.
  intros Hok HP Hw G.
  destruct (segment_roundtrip p (field_id_for p header) capacity no_names (λ _, True) _ _ l _ st field_id_for_ok Hok HP Hw G)
    as (T & [d' st'] & body & E & (ls' & (_ & _ & V) & Es & _ & (more & El) & _) & _ & Hne & _).
  simpl in *. subst ls'. exists d', st', body, more. do 4 (split; [done|]). intros N name_of J x Hreal Hx.
  destruct (segment_roundtrip p (field_id_for p header) capacity name_of J _ _ l _ st field_id_for_ok Hok HP Hw G)
    as (T2 & st2 & body2 & E2 & (ls2 & (_ & _ & V2) & _ & _ & _ & HT) & _ & _ & D).
  rewrite E2 in E. injection E as -> ->. simpl in V2.
  assert (ls2 = ls ++ more) as -> by by eapply vocab_at_unique.
  destruct (D) with (s := x) as (x' & fs & Ed & Hx' & Ev & F); [|done|].
  { intros id k Hk. apply Hreal. by apply HT. }
  exists x', fs. do 3 (split; [done|]). eapply Forall2_impl; [exact F|].
  intros f kv [? Hk]. apply HT in Hk as [_ Hk]. done.
Qed.
End Grown.

Section Compose.
Context {S : Type} `{ReliableStorage S}.
Variables (p : profile) (capacity : Z) (s : S) (header : bytes) (ls nms : list bytes).

Hypothesis (Hv : vocab_at 2 header FIELD_VOCAB (contents s) ls).
Hypothesis (Hnms : Forall (λ k, utf8_valid k = true) nms).
Hypothesis (Hroom : zlen ls + zlen nms < 2 ^ 16).

(** What the reader's closure answers on a store that holds [ls']. *)
Definition reads_vocab (s' : S) (ls' : list bytes) (st : VocabCache * result unit) : Prop :=
  holds 2 header FIELD_VOCAB st.1 s' ls' /\ st.2 = Ok tt.

Lemma parked_name_ok (s' : S) ls' T :
  (forall id k, T id k -> 0 <= id /\ ls' !! Z.to_nat id = Some k) ->
  realizes (parked_name s' header) (reads_vocab s' ls') T.
Proof.
  intros HT id k [Hid Hk]%HT [d f] [Hh Hf]. simpl in *. subst f.
  pose proof (at_size _ _ _ _ _ (proj2 (proj2 Hh))) as Sz. pose proof (lookup_lt_Some _ _ _ Hk).
  destruct (name_for_spec 2 header FIELD_VOCAB FIELD_VOCAB_ok ltac:(lia) d s' ls' id Hh) as (d' & E & Hh');
    [unfold zlen in *; lia|].
  exists (d', Ok tt). unfold parked_name. rewrite E, Hk. done.
Qed.

Lemma named_fields_ok (s' : S) ls' fs l : forall d out,
  holds 2 header FIELD_VOCAB d s' ls' ->
  Forall2 (λ f (kv : bytes * DynamicValue), 0 <= field_id f < 2 ^ 16 /\ ls' !! Z.to_nat (field_id f) = Some kv.1) fs l ->
  map field_value fs = map snd l -> StronglySorted bytes_lt (map fst (out ++ l)) ->
  named_fields s' header d fs out = Ok (out ++ l).
Proof.
  intros d out Hh F. revert d out Hh. induction F as [|f [k v] fs l [Hid Hk] F IH]; intros d out Hh Ev Hs; simpl.
  - by rewrite app_nil_r.
  - simpl in *. injection Ev as Ev1 Ev.
    destruct (name_for_spec 2 header FIELD_VOCAB FIELD_VOCAB_ok ltac:(lia) d s' ls' (field_id f) Hh) as (d' & -> & Hh');
      [simpl; lia|].
    rewrite Hk. simpl. rewrite Ev1, btree_insert_last.
    + rewrite (IH d' _ Hh' Ev); [by rewrite <- app_assoc|by rewrite <- app_assoc].
    + apply Forall_forall. intros [k' v'] Hin. rewrite map_app in Hs. simpl in Hs.
      apply StronglySorted_app in Hs as (Hc & _ & _). apply Hc; [|by left].
      apply list_elem_of_fmap. by exists (k', v').
Qed.

(** The write: the frames, the vocabulary's growth, and the segment behind them. *)
Lemma slot1_written key l :
  Forall (λ kv, kv.1 ∈ nms) l -> Forall (λ kv, value_ok capacity (λ k, k ∈ nms) kv.2) l ->
  fold_right (λ kv n, weight kv.2 + 13 + n) 0 l < 2 ^ 49 ->
  exists d st body more,
  put_all p (field_id_for p header) l [] (VocabCache_new FIELD_VOCAB, mkBatchStore s Batch_default) = ((d, st), Ok body) /\
  slot1_into p s Batch_default header key l =
    (mkBatch (ops (bs_batch st) ++ [(header ++ slot_bytes DYNAMIC_SLOT ++ key, match body with [] => None | _ => Some body end)]), Ok tt) /\
  bs_store st = s /\ vocab_at 2 header FIELD_VOCAB (held st) (ls ++ more) /\ (l <> [] -> body <> []) /\
  forall N name_of (J : N -> Prop) x, realizes name_of J (numbered (ls ++ more)) -> J x ->
  exists x' fs, decode_named p capacity name_of body x = Ok (x', fs) /\ J x' /\
  map field_value fs = map snd l /\
  Forall2 (λ f (kv : bytes * DynamicValue), 0 <= field_id f < 2 ^ 16 /\
    (ls ++ more) !! Z.to_nat (field_id f) = Some kv.1) fs l.
Proof using Hv Hnms Hroom.
  intros HP Hok Hw. set (Inv := λ st : BatchStore S, bs_store st = s).
  assert (grown header ls nms Inv (numbered ls) (VocabCache_new FIELD_VOCAB, mkBatchStore s Batch_default)) as G0.
  { exists ls. split; [split; [done|]; split; [apply cache_new_ok|done]|]. split; [done|].
    split; [set_solver|]. split; [|done]. exists []. by rewrite app_nil_r. }
  assert (forall d st ls' name d' st' r, holds 2 header FIELD_VOCAB d st ls' -> utf8_valid name = true -> Inv st ->
    id_for 2 p d st header name = (d', st', r) -> Inv st') as Hinv.
  { intros d st ls' name d' st' r _ _ Es E. unfold Inv in *. by rewrite (id_for_bs_store _ _ _ _ _ _ _ _ _ E). }
  destruct (put_all_grown p capacity header ls nms Hnms Hroom Inv Hinv l _ Hok HP Hw G0) as (d & st & body & more & E & V & Es & Hne & D).
  exists d, st, body, more. split; [done|]. split; [|done]. unfold slot1_into. rewrite fields_key_ok, E. by destruct body.
Qed.

(** C28: what a row's dynamic segment stores is what it reads back.  Written
    through a batch over any reliable store whose field vocabulary has room,
    every map of keepable values lands in one commit together with the
    vocabulary growth, which only appends, and [slot1_map] then answers that
    map; the empty map removes the segment. *)
Theorem slot1_roundtrip key l :
  StronglySorted bytes_lt (map fst l) -> Forall (λ kv, kv.1 ∈ nms) l ->
  Forall (λ kv, value_ok capacity (λ k, k ∈ nms) kv.2) l ->
  fold_right (λ kv n, weight kv.2 + 13 + n) 0 l < 2 ^ 49 ->
  exists b s' more, slot1_into p s Batch_default header key l = (b, Ok tt) /\
  vs_commit_batch s b = (s', Ok tt) /\
  slot1_map p capacity s' header key = Ok (match l with [] => None | _ => Some l end) /\
  vocab_at 2 header FIELD_VOCAB (contents s') (ls ++ more).
Proof using Hv Hnms Hroom.
  intros Hs HP Hok Hw. destruct (slot1_written key l HP Hok Hw) as (d & st & body & more & E & Ew & Es & V & Hne & D).
  rewrite Ew. set (k := header ++ slot_bytes DYNAMIC_SLOT ++ key) in *.
  set (op := (k, match body with [] => None | _ => Some body end) : bytes * option bytes) in *.
  destruct (commit_batch_spec s (mkBatch (ops (bs_batch st) ++ [op]))) as (s' & Ec & Hs').
  exists (mkBatch (ops (bs_batch st) ++ [op])), s', more. split; [done|]. split; [done|].
  simpl in V. rewrite Es in V. simpl in Hs'. rewrite apply_batch_snoc in Hs'.
  assert (vocab_at 2 header FIELD_VOCAB (contents s') (ls ++ more)) as V'.
  { eapply entries_at_same; [|exact V]. intros x Hx. rewrite Hs'. unfold apply_op, op. cbn [fst snd].
    assert (k <> x) as N by (intros <-; by apply (fields_key_apart header key)).
    destruct body; [by rewrite lookup_delete_ne|by rewrite lookup_insert_ne]. }
  split; [|done]. unfold slot1_map. rewrite fields_key_ok. cbn [mbind outcome_bind]. fold k.
  rewrite get_spec, Hs'. unfold apply_op, op. cbn [fst snd mbind outcome_bind].
  destruct l as [|kv l].
  { simpl in E. injection E as _ _ <-. by rewrite lookup_delete_eq. }
  destruct body as [|y body]; [by destruct Hne|]. rewrite lookup_insert_eq. cbn [mbind outcome_bind].
  destruct (D _ (parked_name s' header) (reads_vocab s' (ls ++ more)) (VocabCache_new FIELD_VOCAB, Ok tt))
    as ([d' failed] & fs & -> & [Hh' Hf] & Ev & F).
  { by apply parked_name_ok. }
  { split; [|done]. split; [done|]. split; [apply cache_new_ok|done]. }
  simpl in Hf, Hh'. subst failed. cbn [mbind outcome_bind].
  destruct fs as [|f fs]; [by inversion F|].
  by rewrite (named_fields_ok s' (ls ++ more) (f :: fs) (kv :: l) d' [] Hh' F Ev Hs).
Qed.
End Compose.

(** * Witness *)

Lemma slot1_roundtrip_witness :
  exists b s' more, slot1_into Debug (∅ : MemStore) Batch_default [0; 33] [7] sample_fields = (b, Ok tt) /\
  vs_commit_batch (∅ : MemStore) b = (s', Ok tt) /\
  slot1_map Debug 100 s' [0; 33] [7] = Ok (Some sample_fields) /\
  vocab_at 2 [0; 33] FIELD_VOCAB (contents s') ([] ++ more).
Proof.
  apply (slot1_roundtrip Debug 100 (∅ : MemStore) [0; 33] [] [[97]; [98]]).
  - split; [split|right; done]; try done; try constructor.
  - by repeat constructor.
  - by vm_compute.
  - by repeat constructor.
  - constructor; [set_solver|]. constructor; [set_solver|constructor].
  - exact sample_fields_ok.
  - by vm_compute.
Defined.
