(* ===== verification/Quant.v ===== *)
(** * Fixed-point floats (okm-core, [model/wrappers/quant.rs])

    [Quant<P>] stores an [f64] as the 64-bit integer nearest to [x * 10^P].  An
    [f64] is its bit pattern; the arithmetic is the Standard Library's
    specification of binary floats at 53 bits of precision, rounding to nearest
    even.  [round] ties away from zero and is exact; the cast to [i64] saturates. *)
From Stdlib Require Import SpecFloat.
From S2P Require Import Prelude.

(** ** Bit patterns *)

Definition f64_of_bits (b : Z) : spec_float :=
  let s := Z.testbit b 63 in
  let e := Z.land (Z.shiftr b 52) 0x7FF in
  let m := Z.land b (2 ^ 52 - 1) in
  if e =? 0x7FF then (if m =? 0 then S754_infinity s else S754_nan)
  else if e =? 0 then match m with Zpos m => S754_finite s m (-1074) | _ => S754_zero s end
  else S754_finite s (Z.to_pos (m + 2 ^ 52)) (e - 1075).

(** The bits below the sign. *)
Definition magnitude_bits (f : spec_float) : Z :=
  match f with
  | S754_zero _ => 0
  | S754_infinity _ => Z.shiftl 0x7FF 52
  | S754_nan => Z.shiftl 0xFFF 51
  | S754_finite _ m e =>
      if Zpos m <? 2 ^ 52 then Zpos m else Z.shiftl (e + 1075) 52 + (Zpos m - 2 ^ 52)
  end.

Definition f64_sign (f : spec_float) : bool :=
  match f with S754_zero s | S754_infinity s | S754_finite s _ _ => s | S754_nan => false end.

Definition f64_to_bits (f : spec_float) : Z := wrap 64 (Z.shiftl (Z.b2z (f64_sign f)) 63 + magnitude_bits f).

(** ** Arithmetic *)

Definition f64_mul : spec_float -> spec_float -> spec_float := SFmul 53 1024.
Definition f64_div : spec_float -> spec_float -> spec_float := SFdiv 53 1024.

(** [v as f64] of an integer *)
Definition f64_of_int (v : Z) : spec_float := binary_normalize 53 1024 v 0 false.

(** The integer a float with a fraction is nearest to, halves away from zero. *)
Definition round_magnitude (m : positive) (e : Z) : Z := (Zpos m + 2 ^ (- e - 1)) / 2 ^ (- e).

(** [f64::round] *)
Definition f64_round (f : spec_float) : spec_float :=
  match f with
  | S754_finite s m e =>
      if 0 <=? e then f
      else match round_magnitude m e with
           | 0 => S754_zero s
           | n => f64_of_int (if s then - n else n)
           end
  | f => f
  end.

Definition is_finite (f : spec_float) : bool :=
  match f with S754_zero _ | S754_finite _ _ _ => true | _ => false end.

(** The value towards zero. *)
Definition f64_trunc (f : spec_float) : Z :=
  match f with
  | S754_finite s m e =>
      let n := if 0 <=? e then Zpos m * 2 ^ e else Zpos m / 2 ^ (- e) in if s then - n else n
  | _ => 0
  end.

(** [r as i64]: out of range saturates, NaN is zero. *)
Definition f64_as_i64 (f : spec_float) : Z :=
  match f with
  | S754_infinity s => if s then - 2 ^ 63 else 2 ^ 63 - 1
  | f => Z.max (- 2 ^ 63) (Z.min (2 ^ 63 - 1) (f64_trunc f))
  end.

(** ** The codec *)

Definition pow10 (p : Z) : outcome unit spec_float :=
  match p with
  | 0 => Ok (f64_of_int 1)
  | 1 => Ok (f64_of_int 10)
  | 2 => Ok (f64_of_int 100)
  | 3 => Ok (f64_of_int 1000)
  | 4 => Ok (f64_of_int 10000)
  | 5 => Ok (f64_of_int 100000)
  | 6 => Ok (f64_of_int 1000000)
  | 7 => Ok (f64_of_int 10000000)
  | 8 => Ok (f64_of_int 100000000)
  | _ => Panic
  end.

Definition quantize (f p : Z) : outcome unit Z :=
  scale ← pow10 p;
  let scaled := f64_mul (f64_of_bits f) scale in
  let r := f64_round scaled in
  assert_ (is_finite r && SFleb (f64_of_int (- 2 ^ 63)) r && SFleb r (f64_of_int (2 ^ 63 - 1)));;
  Ok (f64_as_i64 r).

Definition dequantize (w p : Z) : outcome unit Z :=
  scale ← pow10 p; Ok (f64_to_bits (f64_div (f64_of_int w) scale)).

Definition wire_to_be_bytes (w : Z) : bytes := be_bytes 8 (wrap 64 w).

Definition Quant_encode (p v : Z) : outcome unit bytes := w ← quantize v p; Ok (wire_to_be_bytes w).

Definition Quant_decode (p : Z) (b : bytes) : outcome unit Z :=
  wire ← or_panic (slice b 0 8); dequantize (to_signed 64 (be_val wire)) p.


(** What a field holds after a round trip. *)
Definition rounded (p v : Z) : Z :=
  match w ← quantize v p; dequantize w p with Ok v' => v' | _ => v end.

(** * Lemmas *)

Lemma f64_to_bits_range f : 0 <= f64_to_bits f < 2 ^ 64.
Proof. apply Z.mod_pos_bound. lia. Qed.

Lemma f64_as_i64_range r : - 2 ^ 63 <= f64_as_i64 r < 2 ^ 63.
Proof.
  unfold f64_as_i64. assert (forall n, - 2 ^ 63 <= Z.max (- 2 ^ 63) (Z.min (2 ^ 63 - 1) n) < 2 ^ 63) as B by (intros n; lia).
  destruct r as [|[]| |]; try apply B; split; lia.
Qed.

(** What [quantize] answers is the cast of a float. *)
Lemma quantize_cast f p w : quantize f p = Ok w -> exists r, w = f64_as_i64 r.
Proof.
  unfold quantize. destruct (pow10 p) as [scale| |]; [|done..]. cbn [mbind outcome_bind].
  generalize (f64_round (f64_mul (f64_of_bits f) scale)). intros r.
  destruct (_ && _); [|done]. intros E. exists r. by injection E.
Qed.

Lemma quantize_range f p w : quantize f p = Ok w -> - 2 ^ 63 <= w < 2 ^ 63.
Proof. intros H. apply quantize_cast in H as [r ->]. apply f64_as_i64_range. Qed.

Lemma dequantize_range w p v : dequantize w p = Ok v -> 0 <= v < 2 ^ 64.
Proof. unfold dequantize. destruct (pow10 p); [|done..]. intros [= <-]. apply f64_to_bits_range. Qed.

(** A precision that encodes also decodes, whatever the integer. *)
Lemma dequantize_total f p w v : quantize f p = Ok w -> exists d, dequantize v p = Ok d.
Proof. unfold quantize, dequantize. destruct (pow10 p); [|done..]. intros _. by eexists. Qed.
