(* ===== verification/Fields.v ===== *)
(** * Field values and their encodings (okm-core, [model/reverse.rs],
    [model/wrappers/*.rs]; okm-derive, [schema.rs])

    The wrapper codecs ([Reverse], [Offset], [Vector], [Option]; [Quant] has its own file) and the table of
    [field_encoders]: for every payload field type the derive accepts, the code
    it emits to write the field, to read it back and to state its length.  A
    field's Rust type is [rust_type], so a document is typed as its struct is.

    The theorems: what is written is read back with whatever follows it, the
    stated length is the written length, and descending order of [Reverse]. *)
From S2P Require Import Prelude VarInt Slots Vocab Quant.

(** ** Signed and little-endian words *)

Definition le_bytes (n : nat) (v : Z) : bytes := rev (be_bytes n v).

Definition le_val (b : bytes) : Z := be_val (rev b).

Definition bits (n : nat) : Z := 8 * Z.of_nat n.

(** [!v] at an unsigned type of [w] bits. *)
Definition not_w (w v : Z) : Z := wrap w (Z.lnot v).

(** The value an [n]-byte pattern has at a signed or an unsigned type. *)
Definition word_value (n : nat) (signed : bool) (v : Z) : Z :=
  if signed then to_signed (bits n) v else v.

(** [b.try_into().expect(..)] into an [n]-byte array *)
Definition array_of (n : nat) (b : bytes) : outcome unit bytes :=
  assert_ (bool_decide (length b = n));; Ok b.

(** [a + b] at [i64]. *)
Definition i64_ok (v : Z) : bool := in_range (- 2 ^ 63) (2 ^ 63 - 1) v.

Definition add_i64 (p : profile) (a b : Z) : outcome unit Z :=
  if i64_ok (a + b) then Ok (a + b)
  else match p with Debug => Panic | Release => Ok (to_signed 64 (a + b)) end.

(** ** Reverse

    [rev_encode] of an unsigned and of a signed type of [n] bytes. *)
Definition rev_encode (n : nat) (signed : bool) (v : Z) : bytes :=
  if signed then
    let biased := Z.lxor (wrap (bits n) v) (Z.shiftl 1 (bits n - 1)) in
    be_bytes n (not_w (bits n) biased)
  else be_bytes n (not_w (bits n) v).

Definition rev_decode (n : nat) (signed : bool) (b : bytes) : outcome unit Z :=
  b ← array_of n b;
  let flipped := not_w (bits n) (be_val b) in
  Ok (if signed then to_signed (bits n) (Z.lxor flipped (Z.shiftl 1 (bits n - 1))) else flipped).

(** ** Offset *)

Definition offset_encode (value base : Z) : outcome unit bytes :=
  let off := value - base in
  if i64_ok off && in_range 0 (2 ^ 32 - 1) off then Ok (be_bytes 4 off) else Panic.

Definition offset_decode (p : profile) (b : bytes) (base : Z) : outcome unit Z :=
  b ← array_of 4 b; add_i64 p base (be_val b).

(** ** Vector

    An element of [n] bytes; an [f32] is its bit pattern. *)
Definition decode_le (n : nat) (signed : bool) (b : bytes) : outcome unit Z :=
  b ← array_of n b; Ok (word_value n signed (le_val b)).

Definition Vector_encode_payload (n : nat) (elems : list Z) : bytes :=
  fold_left (λ buf e, buf ++ le_bytes n e) elems (be_bytes 4 (wrap 32 (zlen elems))).

Fixpoint elems_loop (n : nat) (signed : bool) (payload : bytes) (count : nat) (p : Z)
    : outcome unit (list Z) :=
  match count with
  | O => Ok []
  | S count =>
      s ← or_panic (slice payload p (p + Z.of_nat n));
      e ← decode_le n signed s;
      rest ← elems_loop n signed payload count (p + Z.of_nat n);
      Ok (e :: rest)
  end.

Definition Vector_decode_payload (n : nat) (signed : bool) (payload : bytes) : outcome unit (list Z) :=
  c ← or_panic (slice payload 0 4);
  elems_loop n signed payload (Z.to_nat (be_val c)) 4.

(** ** Option

    [OptionalEnc]: the contract of a value inside the presence wrapper. *)
Class OptionalEnc (T : Type) : Type := {
  WIDTH : nat;
  enc_wire : T -> bytes;
  dec_wire : Z -> bytes -> outcome unit T
}.

#[export] Instance Optional_enc {T} `{OptionalEnc T} : OptionalEnc (option T) := {
  WIDTH := 1 + WIDTH (T := T);
  enc_wire o :=
    match o with
    | Some v => 1 :: enc_wire v
    | None => 0 :: replicate (WIDTH (T := T)) 0
    end;
  dec_wire present wire :=
    if present =? 0 then Ok None else v ← dec_wire (T := T) 1 wire; Ok (Some v)
}.

(** [impl_optional_prim!]: an unsigned integer of [n] bytes. *)
Record uint (n : nat) : Type := mkUint { uval : Z }.
Arguments mkUint {n} _.
Arguments uval {n} _.

#[export] Instance uint_enc n : OptionalEnc (uint n) := {
  WIDTH := n;
  enc_wire v := be_bytes n (uval v);
  dec_wire _ wire := b ← array_of n wire; Ok (mkUint (be_val b))
}.

(** [[u8; N]] *)
Record barray (n : nat) : Type := mkArray { abytes : bytes }.
Arguments mkArray {n} _.
Arguments abytes {n} _.

#[export] Instance barray_enc n : OptionalEnc (barray n) := {
  WIDTH := n;
  enc_wire v := abytes v;
  dec_wire _ wire := b ← array_of n wire; Ok (mkArray b)
}.

(** ** The field table

    The payload field types of [field_encoders]; a [Ref] names another document's
    key and is left out.  A [Quant] value is the bit pattern of its [f64].  A
    [Vector<String>] has arms too, but no document can have one: the document-map
    bridge needs [VectorElem] of the element type, which [String] lacks. *)
Inductive FieldKind : Type :=
| KUInt (n : nat)
| KSInt (n : nat)
| KUuid (version : Z)
| KFixedBytes (n : nat)
| KReverse (n : nat) (signed : bool)
| KVarInt (n : nat)
| KVector (n : nat) (signed : bool) (ok_len : option Z)
| KVocab (n : nat)
| KOffset (base : Z)
| KQuant (precision : Z)
| KString
| KBytes.

Definition rust_type (k : FieldKind) : Type :=
  match k with
  | KUInt _ | KSInt _ | KReverse _ _ | KVarInt _ | KOffset _ | KQuant _ => Z
  | KUuid _ | KFixedBytes _ | KString | KBytes => bytes
  | KVector _ _ _ => list Z
  | KVocab _ => Vocab
  end.

(** The [width] column; [0] marks variable length. *)
Definition field_width (k : FieldKind) : Z :=
  match k with
  | KUInt n | KSInt n | KFixedBytes n | KReverse n _ | KVocab n => Z.of_nat n
  | KUuid _ => 16
  | KOffset _ => 4
  | KQuant _ => 8
  | KVarInt _ | KVector _ _ _ | KString | KBytes => 0
  end.

(** [hot]: the width text is not [0]. *)
Definition hot (k : FieldKind) : bool := negb (field_width k =? 0).

(** The [#[ok_len]] contract of a [Vector]. *)
Definition ok_len_check (ok_len : option Z) (n : Z) : outcome unit unit :=
  match ok_len with Some want => assert_ (n =? want) | None => Ok tt end.

(** The [enc] column: append the field to the buffer. *)
Definition field_enc (p : profile) (k : FieldKind) : rust_type k -> bytes -> outcome unit bytes :=
  match k return rust_type k -> bytes -> outcome unit bytes with
  | KUInt n | KSInt n => λ v buf, Ok (buf ++ be_bytes n (wrap (bits n) v))
  | KUuid _ | KFixedBytes _ | KString | KBytes => λ v buf, Ok (buf ++ v)
  | KReverse n signed => λ v buf, Ok (buf ++ rev_encode n signed v)
  | KVarInt _ => λ v buf, e ← varint_encode p v []; Ok (buf ++ e)
  | KVector n _ ok_len => λ v buf,
      ok_len_check ok_len (zlen v);;
      Ok (fold_left (λ buf e, buf ++ le_bytes n e) v (buf ++ be_bytes 4 (wrap 32 (zlen v))))
  | KVocab n => λ v buf,
      img ← Vocab_wire16 n v;
      s ← or_panic (slice img (16 - Z.of_nat n) (zlen img));
      Ok (buf ++ s)
  | KOffset base => λ v buf, e ← offset_encode v base; Ok (buf ++ e)
  | KQuant precision => λ v buf, e ← Quant_encode precision v; Ok (buf ++ e)
  end.

(** The [len_expr] column. *)
Definition field_len (p : profile) (k : FieldKind) : rust_type k -> outcome unit Z :=
  match k return rust_type k -> outcome unit Z with
  | KVarInt _ => λ v, e ← varint_encode p v []; Ok (zlen e)
  | KVector n _ _ => λ v, Ok (4 + zlen v * Z.of_nat n)
  | KString | KBytes => λ v, Ok (zlen v)
  | k => λ _, Ok (field_width k)
  end.

(** [b[offset..offset + n]] *)
Definition cut (b : bytes) (offset n : Z) : outcome unit bytes := or_panic (slice b offset (offset + n)).

(** The [dec] column: read the field at [offset] of [b]; [len] is the length of
    the frame around a variable-width field. *)
Definition field_dec (p : profile) (k : FieldKind) (b : bytes) (offset len : Z)
    : outcome unit (rust_type k * Z) :=
  match k return outcome unit (rust_type k * Z) with
  | KUInt n => s ← cut b offset (Z.of_nat n); Ok (be_val s, offset + Z.of_nat n)
  | KSInt n => s ← cut b offset (Z.of_nat n); Ok (to_signed (bits n) (be_val s), offset + Z.of_nat n)
  | KUuid _ => s ← cut b offset 16; Ok (s, offset + 16)
  | KFixedBytes n => s ← cut b offset (Z.of_nat n); Ok (s, offset + Z.of_nat n)
  | KReverse n signed =>
      s ← cut b offset (Z.of_nat n); v ← rev_decode n signed s; Ok (v, offset + Z.of_nat n)
  | KVarInt n =>
      tl ← or_panic (slice b offset (zlen b)); '(v, w) ← varint_decode p (bits n) tl; Ok (v, offset + w)
  | KVector n signed _ =>
      c ← cut b offset 4;
      payload ← or_panic (slice b (offset + 4) (offset + 4 + len - 4));
      v ← elems_loop n signed payload (Z.to_nat (be_val c)) 0;
      Ok (v, offset + 4 + (len - 4))
  | KVocab n => s ← cut b offset (Z.of_nat n); v ← Vocab_from_wire n s; Ok (v, offset + Z.of_nat n)
  | KOffset base => s ← cut b offset 4; v ← offset_decode p s base; Ok (v, offset + 4)
  | KQuant precision => s ← cut b offset 8; v ← Quant_decode precision s; Ok (v, offset + 8)
  | KString => s ← cut b offset len; v ← or_panic (from_utf8 s); Ok (v, offset + len)
  | KBytes => s ← cut b offset len; Ok (s, offset + len)
  end.

(** * Lemmas *)

Lemma bits_pow n : 2 ^ bits n = 256 ^ Z.of_nat n.
Proof. unfold bits. rewrite Z.pow_mul_r by lia. done. Qed.

Lemma bits_half n : (0 < n)%nat -> 2 ^ bits n = 2 * 2 ^ (bits n - 1) /\ 0 < 2 ^ (bits n - 1).
Proof.
  unfold bits. intros H. split; [|apply Z.pow_pos_nonneg; lia].
  rewrite <- Z.pow_succ_r by lia. f_equal. lia.
Qed.

Lemma not_w_spec w v : 0 <= w -> not_w w v = 2 ^ w - 1 - wrap w v.
Proof.
  intros Hw. unfold not_w, wrap. pose proof (Z.pow_pos_nonneg 2 w ltac:(lia) Hw).
  pose proof (Z.mod_pos_bound v (2 ^ w) ltac:(lia)).
  replace (Z.lnot v) with (2 ^ w - 1 - v mod 2 ^ w + (- (v / 2 ^ w) - 1) * 2 ^ w).
  - rewrite Z.mod_add by lia. apply Z.mod_small. lia.
  - unfold Z.lnot. pose proof (Z.div_mod v (2 ^ w) ltac:(lia)). lia.
Qed.

(** Flipping the sign bit is moving by half the range. *)
Lemma lxor_sign w x :
  0 < w -> 0 <= x < 2 ^ w ->
  Z.lxor x (Z.shiftl 1 (w - 1)) = if x <? 2 ^ (w - 1) then x + 2 ^ (w - 1) else x - 2 ^ (w - 1).
Proof.
  intros Hw Hx. assert (2 ^ w = 2 * 2 ^ (w - 1)) as E by (rewrite <- Z.pow_succ_r by lia; f_equal; lia).
  assert (forall y, 0 <= y < 2 ^ (w - 1) -> Z.lxor y (Z.shiftl 1 (w - 1)) = y + 2 ^ (w - 1)) as L.
  { intros y Hy. rewrite Z.lxor_comm, <- Z.add_nocarry_lxor by (apply land_shift_low; lia).
    rewrite Z.shiftl_mul_pow2 by lia. lia. }
  destruct (Z.ltb_spec x (2 ^ (w - 1))); [apply L; lia|].
  pose proof (L (x - 2 ^ (w - 1)) ltac:(lia)) as L2. rewrite Z.sub_add in L2. rewrite <- L2 at 1.
  rewrite Z.lxor_assoc, Z.lxor_nilpotent, Z.lxor_0_r. done.
Qed.

(** The values of an [n]-byte integer type. *)
Definition word_ok (n : nat) (signed : bool) (v : Z) : Prop :=
  if signed then (0 < n)%nat /\ - 2 ^ (bits n - 1) <= v < 2 ^ (bits n - 1) else 0 <= v < 2 ^ bits n.

#[export] Instance word_ok_dec n s v : Decision (word_ok n s v).
Proof. destruct s; unfold word_ok; apply _. Defined.

(** The pattern of a value. *)
Lemma wrap_word n signed v :
  word_ok n signed v ->
  0 <= wrap (bits n) v < 2 ^ bits n /\ word_value n signed (wrap (bits n) v) = v /\
  wrap (bits n) v = if signed && (v <? 0) then v + 2 ^ bits n else v.
Proof.
  intros H. assert (0 < 2 ^ bits n) as P by (rewrite bits_pow; apply pow256_pos).
  split; [apply Z.mod_pos_bound; lia|]. unfold word_value, to_signed, word_ok, wrap in *. destruct signed; simpl.
  - destruct H as [Hn H]. destruct (bits_half n Hn) as [E _].
    rewrite Z.mod_mod by lia.
    assert (v mod 2 ^ bits n = if v <? 0 then v + 2 ^ bits n else v) as ->.
    { destruct (Z.ltb_spec v 0); [|apply Z.mod_small; lia].
      rewrite <- (Z.mod_small (v + 2 ^ bits n) (2 ^ bits n)) by lia.
      rewrite <- (Z.mul_1_l (2 ^ bits n)) at 2. by rewrite Z.mod_add by lia. }
    split; [|done]. destruct (Z.ltb_spec v 0); zcases.
  - rewrite Z.mod_small by lia. done.
Qed.

Lemma word_value_signed n v : word_value n true (wrap (bits n) v) = to_signed (bits n) (wrap (bits n) v).
Proof. done. Qed.

(** What [rev_encode] writes, as a number: descending in the value. *)
Definition rev_rank (n : nat) (signed : bool) (v : Z) : Z :=
  2 ^ bits n - 1 - (if signed then v + 2 ^ (bits n - 1) else v).

Lemma rev_encode_rank n signed v :
  word_ok n signed v -> rev_encode n signed v = be_bytes n (rev_rank n signed v) /\
  0 <= rev_rank n signed v < 256 ^ Z.of_nat n.
Proof.
  intros H. pose proof (wrap_word _ _ _ H) as (B & _ & E). unfold rev_encode, rev_rank.
  assert (0 <= bits n) by (unfold bits; lia). rewrite <- bits_pow. destruct signed; simpl in *.
  - destruct H as [Hn H]. destruct (bits_half n Hn) as [E2 P]. rewrite lxor_sign by (unfold bits in *; lia).
    rewrite not_w_spec by done. split; [|lia]. f_equal. rewrite E.
    destruct (Z.ltb_spec v 0); zcases; rewrite wrap_small; lia.
  - rewrite not_w_spec, wrap_small by done. split; [done|lia].
Qed.

Lemma array_of_ok n b : length b = n -> array_of n b = Ok b.
Proof. intros H. unfold array_of. rewrite bool_decide_true by done. done. Qed.

Lemma rev_roundtrip n signed v : word_ok n signed v -> rev_decode n signed (rev_encode n signed v) = Ok v.
Proof.
  intros H. destruct (rev_encode_rank n signed v H) as [-> B]. unfold rev_decode.
  rewrite array_of_ok by apply be_bytes_length. cbn [mbind outcome_bind]. rewrite be_val_be_bytes_small by done.
  rewrite not_w_spec by (unfold bits; lia). unfold rev_rank in *. rewrite <- bits_pow in B.
  rewrite wrap_small by lia. unfold word_ok in H. destruct signed; [|f_equal; lia].
  destruct H as [Hn H]. destruct (bits_half n Hn) as [E P]. rewrite lxor_sign by (unfold bits in *; lia).
  f_equal. unfold to_signed. zcases; rewrite wrap_small in * by lia; lia.
Qed.

Lemma offset_roundtrip p v base :
  0 <= v - base < 2 ^ 32 -> i64_ok v = true ->
  exists e, offset_encode v base = Ok e /\ zlen e = 4 /\ offset_decode p e base = Ok v.
Proof.
  intros H Hv. exists (be_bytes 4 (v - base)). unfold offset_encode, i64_ok, in_range in *.
  rewrite andb_true_iff, !Z.leb_le in Hv.
  rewrite !(proj2 (Z.leb_le _ _)) by lia. split; [done|]. split; [apply be_bytes_zlen|].
  unfold offset_decode. rewrite array_of_ok by apply be_bytes_length. cbn [mbind outcome_bind].
  rewrite be_val_be_bytes_small by (simpl; lia). unfold add_i64, i64_ok, in_range.
  rewrite !(proj2 (Z.leb_le _ _)) by lia. simpl. f_equal. lia.
Qed.

Lemma le_bytes_zlen n v : zlen (le_bytes n v) = Z.of_nat n.
Proof. unfold le_bytes, zlen. rewrite length_rev, be_bytes_length. done. Qed.

#[export] Hint Rewrite le_bytes_zlen : okm.

Lemma decode_le_word n signed v :
  word_ok n signed v -> decode_le n signed (le_bytes n v) = Ok v.
Proof.
  intros H. unfold decode_le, le_val, le_bytes. rewrite array_of_ok by (rewrite length_rev; apply be_bytes_length).
  cbn [mbind outcome_bind]. rewrite rev_involutive, be_val_be_bytes, <- bits_pow.
  f_equal. apply (wrap_word n signed v H).
Qed.

Lemma be_bytes_wrap n v : be_bytes n (wrap (bits n) v) = be_bytes n v.
Proof. unfold wrap. rewrite bits_pow. by apply be_bytes_mod. Qed.

Lemma cut_app pre mid rest n : n = zlen mid -> cut (pre ++ mid ++ rest) (zlen pre) n = Ok mid.
Proof. intros ->. unfold cut. by rewrite slice_app. Qed.

(** The elements of a [Vector], one after the other. *)
Definition elems_bytes (n : nat) (v : list Z) : bytes := concat (map (le_bytes n) v).

Lemma elems_fold n v buf : fold_left (λ buf e, buf ++ le_bytes n e) v buf = buf ++ elems_bytes n v.
Proof. unfold elems_bytes. by rewrite (fold_left_concat (λ buf e, buf ++ le_bytes n e)) by done. Qed.

Lemma elems_zlen n v : zlen (elems_bytes n v) = zlen v * Z.of_nat n.
Proof. induction v as [|e v IH]; [done|]. unfold elems_bytes in *. simpl. zlia. Qed.

Lemma elems_loop_ok n signed v : forall pre rest, Forall (word_ok n signed) v ->
  elems_loop n signed (pre ++ elems_bytes n v ++ rest) (length v) (zlen pre) = Ok v.
Proof.
  induction v as [|e v IH]; intros pre rest H; [done|]. apply Forall_cons in H as [He H].
  unfold elems_bytes. simpl. rewrite <- app_assoc.
  rewrite <- (le_bytes_zlen n e), slice_app. cbn [or_panic mbind outcome_bind]. rewrite decode_le_word by done.
  cbn [mbind outcome_bind]. rewrite <- zlen_app, app_assoc. fold (elems_bytes n v). by rewrite IH.
Qed.

(** ** Words read *)

Lemma slice_ok (l s : bytes) a b : bytes_ok l -> slice l a b = Some s -> bytes_ok s.
Proof. unfold slice. destruct (_ && _); [|done]. intros H [= <-]. by apply Forall_take, Forall_drop. Qed.

Lemma slice_split {A} (l k : list A) a b : slice l a b = Some k -> drop (Z.to_nat a) l = k ++ drop (Z.to_nat b) l.
Proof.
  intros E. pose proof (slice_length _ _ _ _ E) as (_ & Ha & Hb & _). unfold slice in E. destruct (_ && _); [|done]. injection E as <-.
  rewrite <- (take_drop (Z.to_nat (b - a)) (drop (Z.to_nat a) l)) at 1. f_equal. rewrite drop_drop. f_equal. lia.
Qed.

(** [n] bytes are the pattern of a word. *)
Lemma be_word n s : bytes_ok s -> zlen s = Z.of_nat n -> word_ok n false (be_val s).
Proof. intros H L. pose proof (be_val_bound s H) as B. by rewrite L, <- bits_pow in B. Qed.

Lemma to_signed_word n v : (0 < n)%nat -> 0 <= v < 2 ^ bits n -> word_ok n true (to_signed (bits n) v).
Proof.
  intros Hn H. split; [done|]. destruct (bits_half n Hn) as [E P]. unfold to_signed.
  rewrite wrap_small by lia. zcases.
Qed.

Lemma array_of_Ok n b c : array_of n b = Ok c -> c = b /\ length b = n.
Proof. unfold array_of. case_bool_decide; [by intros [= <-]|done]. Qed.

Lemma decode_le_typed n signed s e : (0 < n)%nat -> bytes_ok s -> decode_le n signed s = Ok e -> word_ok n signed e.
Proof.
  intros Hn Hs D. unfold decode_le in D. destruct (array_of n s) as [c| |] eqn:E; [|done..]. cbn [mbind outcome_bind] in D. injection D as <-. apply array_of_Ok in E as [-> L].
  assert (word_ok n false (le_val s)) as W.
  { apply be_word; [by apply Forall_rev|]. unfold zlen. rewrite length_rev. lia. }
  unfold word_value. destruct signed; [|done]. by apply to_signed_word.
Qed.

Lemma le_word n signed s : length s = n -> bytes_ok s -> le_bytes n (word_value n signed (le_val s)) = s.
Proof.
  intros L Hs. unfold le_bytes. assert (be_bytes n (word_value n signed (le_val s)) = be_bytes n (le_val s)) as ->.
  { rewrite <- (be_bytes_wrap n (word_value _ _ _)), <- (be_bytes_wrap n (le_val s)). f_equal. unfold word_value. destruct signed; [|done].
    unfold to_signed. cbv zeta. destruct (_ <? _); unfold wrap; [by rewrite Zmod_mod|]. rewrite Zminus_mod_idemp_l.
    replace (le_val s - 2 ^ bits n) with (le_val s + (-1) * 2 ^ bits n) by lia. by apply Z_mod_plus_full. }
  unfold le_val. rewrite <- L, <- (length_rev s), be_bytes_be_val by by apply Forall_rev. apply rev_involutive.
Qed.

Lemma decode_le_bytes n signed s e : bytes_ok s -> decode_le n signed s = Ok e -> le_bytes n e = s.
Proof.
  intros Hs D. unfold decode_le in D. destruct (array_of n s) as [c| |] eqn:E; [|done..]. cbn [mbind outcome_bind] in D. injection D as <-. apply array_of_Ok in E as [-> L]. by apply le_word.
Qed.

(** The elements read are those the bytes hold. *)
Lemma elems_loop_reads n signed b count : forall pos v, (0 < n)%nat -> bytes_ok b -> elems_loop n signed b count pos = Ok v ->
  length v = count /\ Forall (word_ok n signed) v /\ drop (Z.to_nat pos) b = elems_bytes n v ++ drop (Z.to_nat (pos + Z.of_nat n * Z.of_nat count)) b.
Proof.
  induction count as [|count IH]; intros pos v Hn Hb E; cbn [elems_loop] in E; [injection E as <-; split_and!; [done|constructor|by rewrite Z.mul_0_r, Z.add_0_r]|].
  destruct (slice b pos (pos + Z.of_nat n)) as [s|] eqn:Es; [|done]. cbn [or_panic mbind outcome_bind] in E. pose proof (slice_ok _ _ _ _ Hb Es) as Hs.
  destruct (decode_le n signed s) as [e| |] eqn:D; [|done..]. cbn [mbind outcome_bind] in E. pose proof (decode_le_typed _ _ _ _ Hn Hs D) as We.
  destruct (elems_loop n signed b count (pos + Z.of_nat n)) as [rest| |] eqn:Er; [|done..]. cbn [mbind outcome_bind] in E. injection E as <-.
  destruct (IH _ _ Hn Hb Er) as (Lr & Wr & Dr). split; [cbn; by rewrite Lr|]. split; [by constructor|]. apply slice_split in Es as Ds. rewrite Ds, Dr. unfold elems_bytes at 2. cbn [map concat].
  rewrite (decode_le_bytes _ _ _ _ Hs D), <- app_assoc. do 3 f_equal. lia.
Qed.

Lemma elems_loop_typed n signed b count pos v : (0 < n)%nat -> bytes_ok b -> elems_loop n signed b count pos = Ok v -> Forall (word_ok n signed) v.
Proof. intros Hn Hb E. by destruct (elems_loop_reads _ _ _ _ _ _ Hn Hb E) as (_ & W & _). Qed.

(** ** A field round trips *)

Definition contract_ok (ok_len : option Z) (n : Z) : Prop :=
  match ok_len with Some want => n = want | None => True end.

(** The values a field of a kind can hold that its codec keeps. *)
Definition value_ok (k : FieldKind) : rust_type k -> Prop :=
  match k return rust_type k -> Prop with
  | KUInt n => word_ok n false
  | KSInt n => word_ok n true
  | KUuid _ => λ v, length v = 16%nat
  | KFixedBytes n => λ v, length v = n
  | KReverse n signed => word_ok n signed
  | KVarInt n => λ v, bits n <= 64 /\ 0 <= v < 2 ^ bits n /\ ~ width8 v
  | KVector n signed ok_len => λ v,
      (n <= 8)%nat /\ Forall (word_ok n signed) v /\ zlen v < 2 ^ 32 /\ contract_ok ok_len (zlen v)
  | KVocab n => λ v, exists i, id v = Some i /\ 0 <= i < 256 ^ Z.of_nat n /\ (n <= 16)%nat
  | KOffset base => λ v, 0 <= v - base < 2 ^ 32 /\ i64_ok v = true
  | KQuant precision => λ v, exists w, quantize v precision = Ok w
  | KString => λ v, utf8_valid v = true /\ zlen v < 2 ^ 49
  | KBytes => λ v, zlen v < 2 ^ 49
  end.

(** What a decoder hands back: a [Vocab] loses its label, a [Quant] the digits
    past its precision, nothing else changes. *)
Definition stored (k : FieldKind) : rust_type k -> rust_type k :=
  match k return rust_type k -> rust_type k with
  | KVocab _ => λ v, mkVocab None (id v)
  | KQuant precision => λ v, rounded precision v
  | _ => λ v, v
  end.

Lemma quant_decodes v w precision :
  quantize v precision = Ok w -> Quant_decode precision (wire_to_be_bytes w) = Ok (rounded precision v).
Proof.
  intros E. unfold rounded. rewrite E. cbn [mbind outcome_bind].
  destruct (dequantize_total _ _ _ w E) as [d Ed]. rewrite Ed. unfold Quant_decode, wire_to_be_bytes.
  assert (slice (be_bytes 8 (wrap 64 w)) 0 8 = Some (be_bytes 8 (wrap 64 w))) as ->.
  { pose proof (slice_app [] (be_bytes 8 (wrap 64 w)) []) as S. by rewrite app_nil_r, be_bytes_zlen in S. }
  cbn [or_panic mbind outcome_bind]. destruct (wrap_word 8 true w) as (B & V & _).
  { split; [lia|]. by apply (quantize_range v precision). }
  change 64 with (bits 8). rewrite be_val_be_bytes_small by (by rewrite <- bits_pow).
  cbn [word_value] in V. by rewrite V.
Qed.

(** [writes p k v e]: the field's code writes, measures and reads back [e]. *)
Record writes (p : profile) (k : FieldKind) (v : rust_type k) (e : bytes) : Prop := {
  w_enc buf : field_enc p k v buf = Ok (buf ++ e);
  w_len : field_len p k v = Ok (zlen e);
  w_width : hot k = true -> zlen e = field_width k;
  w_size : hot k = false -> zlen e < 2 ^ 49;
  w_dec pre rest : field_dec p k (pre ++ e ++ rest) (zlen pre) (zlen e) = Ok (stored k v, zlen pre + zlen e)
}.

Lemma ok_len_ok ok_len n : contract_ok ok_len n -> ok_len_check ok_len n = Ok tt.
Proof. destruct ok_len; simpl; [|done]. intros ->. by rewrite Z.eqb_refl. Qed.

(** The count prefix of a [Vector]. *)
Lemma count_prefix {A} (v : list A) :
  zlen v < 2 ^ 32 ->
  be_bytes 4 (wrap 32 (zlen v)) = be_bytes 4 (zlen v) /\ Z.to_nat (be_val (be_bytes 4 (zlen v))) = length v.
Proof.
  intros H. pose proof (zlen_nonneg v). rewrite (wrap_small 32) by lia. split; [done|].
  rewrite be_val_be_bytes_small by (simpl; lia). unfold zlen. lia.
Qed.

(** A kind of fixed width that cuts its bytes and converts them. *)
Lemma writes_fixed p k v e (f : bytes -> outcome unit (rust_type k)) :
  (forall buf, field_enc p k v buf = Ok (buf ++ e)) -> field_len p k v = Ok (field_width k) ->
  zlen e = field_width k ->
  (forall b offset len, field_dec p k b offset len
    = (s ← cut b offset (field_width k); v ← f s; Ok (v, offset + field_width k))) ->
  f e = Ok (stored k v) -> writes p k v e.
Proof.
  intros He Hl Hw Hd Hf. split; [done|by rewrite Hl, Hw|done|..].
  - unfold hot. rewrite negb_false_iff, Z.eqb_eq. lia.
  - intros pre rest. rewrite Hd, cut_app by done. cbn [mbind outcome_bind]. rewrite Hf, Hw. done.
Qed.

Lemma writes_vector p n signed ok_len (v : list Z) :
  value_ok (KVector n signed ok_len) v ->
  writes p (KVector n signed ok_len) v (be_bytes 4 (zlen v) ++ elems_bytes n v).
Proof.
  intros (Hn & Hv & Hz & Hc). pose proof (zlen_nonneg v). destruct (count_prefix v Hz) as [E1 E2].
  split; cbn [field_enc field_len field_dec rust_type stored].
  - intros buf. rewrite ok_len_ok, elems_fold, E1, <- app_assoc by done. done.
  - rewrite zlen_app, be_bytes_zlen, elems_zlen. done.
  - done.
  - intros _. rewrite zlen_app, be_bytes_zlen, elems_zlen. nia.
  - intros pre rest. rewrite <- app_assoc, cut_app by (by rewrite be_bytes_zlen). cbn [mbind outcome_bind].
    rewrite zlen_app, be_bytes_zlen, E2.
    replace (zlen pre + 4) with (zlen (pre ++ be_bytes 4 (zlen v))) by zlia.
    replace (_ + (_ + _) - 4) with (zlen (pre ++ be_bytes 4 (zlen v)) + zlen (elems_bytes n v)) by lia.
    rewrite app_assoc, slice_app. cbn [or_panic mbind outcome_bind].
    pose proof (elems_loop_ok n signed v [] [] Hv) as L. rewrite app_nil_r in L. cbn [app] in L. rewrite zlen_nil in L.
    rewrite L. cbn [mbind outcome_bind]. do 2 f_equal. zlia.
Qed.

(** What is written is measured exactly and read back, whatever stands around. *)
Lemma field_roundtrip p k v : value_ok k v -> exists e, writes p k v e.
Proof.
  destruct k; cbn [value_ok]; intros H.
  - exists (be_bytes n (wrap (bits n) v)). apply (writes_fixed p (KUInt n) _ _ (λ s, Ok (be_val s))); try done.
    { apply be_bytes_zlen. } simpl. rewrite be_bytes_wrap, be_val_be_bytes_small; [done|]. by rewrite <- bits_pow.
  - exists (be_bytes n (wrap (bits n) v)).
    apply (writes_fixed p (KSInt n) _ _ (λ s, Ok (to_signed (bits n) (be_val s)))); try done.
    { apply be_bytes_zlen. } simpl. destruct (wrap_word _ _ _ H) as (B & E & _).
    rewrite be_val_be_bytes_small by (by rewrite <- bits_pow). f_equal. exact E.
  - exists v. apply (writes_fixed p (KUuid version) _ _ (λ s, Ok s)); try done. unfold zlen. simpl. by rewrite H.
  - exists v. apply (writes_fixed p (KFixedBytes n) _ _ (λ s, Ok s)); try done. unfold zlen. simpl. by rewrite H.
  - exists (rev_encode n signed v). apply (writes_fixed p (KReverse n signed) _ _ (rev_decode n signed)); try done.
    + destruct (rev_encode_rank n signed v H) as [-> _]. apply be_bytes_zlen.
    + simpl. by apply rev_roundtrip.
  - destruct H as (Hb & Hv & N8). destruct (varint_encode_decode p (bits n) v [] Hb Hv N8) as (e & E & L & _).
    exists e. split; simpl; [by rewrite E..|done| |].
    + intros _. rewrite L. pose proof (Z.pow_le_mono_r 2 (bits n) 64). destruct (width_of_spec v); lia.
    + intros pre rest. rewrite slice_all_from. cbn [or_panic mbind outcome_bind].
      destruct (varint_encode_decode p (bits n) v rest Hb Hv N8) as (e' & E' & _ & D & _).
      rewrite E in E'. injection E' as <-. rewrite D. done.
  - eexists. by apply writes_vector.
  - destruct H as (i & Ei & Hi & Hn). exists (be_bytes n i).
    assert (field_enc p (KVocab n) v = λ buf, Ok (buf ++ be_bytes n i)) as E.
    { simpl. unfold Vocab_wire16. rewrite Ei. cbn [mbind outcome_bind]. unfold be16.
      replace (16 - Z.of_nat n) with (zlen (replicate (16 - n) 0)) by (unfold zlen; rewrite length_replicate; lia).
      rewrite slice_all_from. done. }
    apply (writes_fixed p (KVocab n) _ _ (Vocab_from_wire n)); try done.
    { by rewrite E. } { apply be_bytes_zlen. }
    unfold Vocab_from_wire, from_be. rewrite bool_decide_true, decide_True by apply be_bytes_length.
    rewrite be_val_be_bytes_small by done. simpl. by rewrite Ei.
  - destruct H as [H Hv]. destruct (offset_roundtrip p v base H Hv) as (e & E & L & D). exists e.
    apply (writes_fixed p (KOffset base) _ _ (λ s, offset_decode p s base)); try done. intros buf. simpl. by rewrite E.
  - destruct H as [w E]. exists (wire_to_be_bytes w).
    apply (writes_fixed p (KQuant precision) _ _ (Quant_decode precision)); try done.
    { intros buf. cbn [field_enc]. unfold Quant_encode. by rewrite E. }
    by apply quant_decodes.
  - destruct H as [Hu Hz]. exists v. split; simpl; try done. intros pre rest. rewrite cut_app by done.
    cbn [mbind outcome_bind]. unfold from_utf8. by rewrite Hu.
  - exists v. split; simpl; try done. intros pre rest. by rewrite cut_app.
Qed.

(** ** Theorems *)

(** A [Reverse] field sorts in descending value order, at every width and
    signedness and whatever follows it, and the value comes back. *)
Theorem reverse_descends n signed u v r r' :
  word_ok n signed u -> word_ok n signed v -> u < v ->
  rev_encode n signed v ++ r ≺ rev_encode n signed u ++ r' /\
  rev_decode n signed (rev_encode n signed u) = Ok u /\ zlen (rev_encode n signed u) = Z.of_nat n.
Proof.
  intros Hu Hv L. destruct (rev_encode_rank n signed u Hu) as [Eu Bu]. destruct (rev_encode_rank n signed v Hv) as [Ev Bv].
  split; [|split; [by apply rev_roundtrip|rewrite Eu; apply be_bytes_zlen]].
  rewrite Eu, Ev. apply be_bytes_lt_app; [done|done|]. unfold rev_rank. destruct signed; lia.
Qed.

(** An optional field of a plain value is one byte longer than the value,
    tells absence from zero, and comes back; wrapped twice, every present value
    panics on reading. *)
Theorem optional_wire n (o : option (uint n)) (oo : option (option (uint n))) :
  match o with Some v => 0 <= uval v < 256 ^ Z.of_nat n | None => True end ->
  (exists b w, enc_wire o = b :: w /\ length w = n /\ dec_wire b w = Ok o /\ (b = 0 <-> o = None)) /\
  (exists b w, enc_wire oo = b :: w /\ length w = (1 + n)%nat /\
    @dec_wire (option (option (uint n))) _ b w = match oo with None => Ok None | Some _ => Panic end).
Proof.
  intros Ho. split.
  - destruct o as [[v]|]; simpl in *.
    + exists 1, (be_bytes n v). split; [done|]. split; [apply be_bytes_length|]. simpl.
      rewrite array_of_ok by apply be_bytes_length. cbn [mbind outcome_bind].
      by rewrite be_val_be_bytes_small.
    + exists 0, (replicate n 0). split; [done|]. split; [apply length_replicate|]. done.
  - destruct oo as [[[v]|]|]; simpl.
    1,2: eexists 1, (_ :: _); split; [done|]; simpl; rewrite ?be_bytes_length, ?length_replicate; split; [done|];
      unfold array_of; rewrite bool_decide_false; [done|]; simpl; rewrite ?be_bytes_length, ?length_replicate; apply Nat.neq_succ_diag_l.
    exists 0, (0 :: replicate n 0). split; [done|]. split; [simpl; by rewrite length_replicate|done].
Qed.

(** * Witnesses *)

Lemma reverse_descends_witness :
  rev_encode 2 true 3 ++ [9] ≺ rev_encode 2 true (-2) ++ [] /\
  rev_decode 2 true (rev_encode 2 true (-2)) = Ok (-2) /\ zlen (rev_encode 2 true (-2)) = 2.
Proof. apply (reverse_descends 2 true (-2) 3 [9] []); vm_compute; (done || lia || (repeat split; done || lia)). Defined.

Lemma optional_wire_witness :
  (exists b w, enc_wire (Some (mkUint 7 : uint 2)) = b :: w /\ length w = 2%nat /\
    dec_wire b w = Ok (Some (mkUint 7 : uint 2)) /\ (b = 0 <-> Some (mkUint 7 : uint 2) = None)) /\
  (exists b w, enc_wire (Some (Some (mkUint 7 : uint 2))) = b :: w /\ length w = 3%nat /\
    @dec_wire (option (option (uint 2))) _ b w = Panic).
Proof. apply (optional_wire 2 (Some (mkUint 7)) (Some (Some (mkUint 7)))). simpl. lia. Defined.
