(* ===== verification/Payload.v ===== *)
(** * The payload of a declared document (okm-derive, [document_encode.rs])

    What [#[derive(DocumentEncode)]] emits for a declaration: the two-segment
    payload [[version][hot_len][hot fields][cold frames]], its decoder with the
    defaults of fields an older layout lacks, the walks by field name that build
    index segments and reduce groups, and the decoder of a covering entry.  A
    declaration is a list of [FieldSchema]; a document of it is a [row].

    The theorems: a payload written under any earlier version of a declaration
    decodes under a later one with the appended fields at their defaults, a
    newer payload is refused, and a covering entry reads back the fields it
    includes. *)
From S2P Require Import Prelude VarInt Slots Vocab Fields.

(** ** Declarations *)

Record FieldSchema : Type := mkField {
  ident : bytes;
  kind : FieldKind;
  default_expr : rust_type kind
}.

Record DocumentSchema : Type := mkSchema { layout_version : Z; fields : list FieldSchema }.

(** The struct: one value for each declared field. *)
Fixpoint row (fs : list FieldSchema) : Type :=
  match fs with
  | [] => unit
  | f :: fs => (rust_type (kind f) * row fs)%type
  end.

(** ** Encoding *)

(** [hot_enc]: the fixed-width fields, in declaration order. *)
Fixpoint hot_enc (p : profile) (fs : list FieldSchema) : row fs -> bytes -> outcome unit bytes :=
  match fs return row fs -> bytes -> outcome unit bytes with
  | [] => λ _ buf, Ok buf
  | f :: fs => λ r buf,
      buf ← (if hot (kind f) then field_enc p (kind f) r.1 buf else Ok buf);
      hot_enc p fs r.2 buf
  end.

(** [cold_enc]: a frame for each variable-width field; its tag is the field's
    position among all fields, as a [u8]. *)
Fixpoint cold_enc (p : profile) (pos : Z) (fs : list FieldSchema) : row fs -> bytes -> outcome unit bytes :=
  match fs return row fs -> bytes -> outcome unit bytes with
  | [] => λ _ buf, Ok buf
  | f :: fs => λ r buf,
      buf ← (if hot (kind f) then Ok buf
             else
               len ← field_len p (kind f) r.1;
               buf ← put_len p (buf ++ [wrap 8 pos]) len;
               field_enc p (kind f) r.1 buf);
      cold_enc p (pos + 1) fs r.2 buf
  end.

Definition encode_payload (p : profile) (s : DocumentSchema) (r : row (fields s)) : outcome unit bytes :=
  let buf := [layout_version s] ++ be_bytes 2 0 in
  match fields s as fs return row fs -> outcome unit bytes with
  | [] => λ _, Ok buf
  | fs => λ r,
      let hot_start := zlen buf in
      buf ← hot_enc p fs r buf;
      let hot_len := wrap 16 (zlen buf - hot_start) in
      cold_enc p 0 fs r (take 1 buf ++ be_bytes 2 hot_len ++ drop 3 buf)
  end r.

(** [HOT_WIDTH] *)
Definition HOT_WIDTH (s : DocumentSchema) : Z :=
  fold_right (λ f n, (if hot (kind f) then field_width (kind f) else 0) + n) 0 (fields s).

(** ** Decoding *)

(** The locals the decoder binds, hot ones first. *)
Fixpoint locals (fs : list FieldSchema) : Type :=
  match fs with
  | [] => unit
  | f :: fs => (option (rust_type (kind f)) * locals fs)%type
  end.

Fixpoint hot_dec (p : profile) (b : bytes) (hot_end offset : Z) (fs : list FieldSchema)
    : outcome unit (locals fs) :=
  match fs return outcome unit (locals fs) with
  | [] => Ok tt
  | f :: fs =>
      if hot (kind f) then
        '(v, offset) ← (if offset + field_width (kind f) <? hot_end + 1
                        then field_dec p (kind f) b offset 0
                        else Ok (default_expr f, offset));
        l ← hot_dec p b hot_end offset fs; Ok (Some v, l)
      else l ← hot_dec p b hot_end offset fs; Ok (None, l)
  end.

(** One cold field: its frame when the next tag is its own, else its default. *)
Definition cold_field (p : profile) (b : bytes) (pos cold_pos : Z) (f : FieldSchema)
    : outcome unit (rust_type (kind f) * Z) :=
  if cold_pos <? zlen b then
    tag ← or_panic (byte_at b cold_pos);
    if tag =? wrap 8 pos then
      tl ← or_panic (slice b (cold_pos + 1) (zlen b));
      lw ← take_len p tl;
      '(len, len_n) ← or_panic lw;
      field_dec p (kind f) b (cold_pos + 1 + len_n) len
    else Ok (default_expr f, cold_pos)
  else Ok (default_expr f, cold_pos).

Fixpoint cold_dec (p : profile) (b : bytes) (pos cold_pos : Z) (fs : list FieldSchema)
    : locals fs -> outcome unit (row fs) :=
  match fs return locals fs -> outcome unit (row fs) with
  | [] => λ _, Ok tt
  | f :: fs => λ l,
      '(v, cold_pos) ← (if hot (kind f) then v ← or_panic l.1; Ok (v, cold_pos)
                        else cold_field p b pos cold_pos f);
      r ← cold_dec p b (pos + 1) cold_pos fs l.2; Ok (v, r)
  end.

Definition decode_payload (p : profile) (s : DocumentSchema) (b : bytes) : outcome unit (row (fields s)) :=
  ver ← or_panic (byte_at b 0);
  assert_ (ver <=? layout_version s);;
  h ← or_panic (slice b 1 3);
  let hot_end := 3 + be_val h in
  l ← hot_dec p b hot_end 3 (fields s);
  cold_dec p b 0 hot_end (fields s) l.

(** ** Walks by name *)

Definition dyn : Type := {k : FieldKind & rust_type k}.

(** The match over the declared names. *)
Fixpoint lookup_field (fs : list FieldSchema) : row fs -> bytes -> option dyn :=
  match fs return row fs -> bytes -> option dyn with
  | [] => λ _ _, None
  | f :: fs => λ r n,
      if bool_decide (ident f = n) then Some (existT (kind f) r.1) else lookup_field fs r.2 n
  end.

(** [__okm_encode_named] *)
Fixpoint encode_named (p : profile) (fs : list FieldSchema) (r : row fs) (names : list bytes) (buf : bytes)
    : outcome unit bytes :=
  match names with
  | [] => Ok buf
  | n :: names =>
      v ← or_panic (lookup_field fs r n);
      buf ← field_enc p (projT1 v) (projT2 v) buf;
      encode_named p fs r names buf
  end.

(** [__okm_encoded_width] *)
Fixpoint encoded_width (p : profile) (fs : list FieldSchema) (r : row fs) (names : list bytes)
    : outcome unit Z :=
  match names with
  | [] => Ok 0
  | n :: names =>
      v ← or_panic (lookup_field fs r n);
      w ← field_len p (projT1 v) (projT2 v);
      rest ← encoded_width p fs r names;
      Ok (w + rest)
  end.

(** The offsets of a key's fields; [key_fields] is the key's [FIELDS]. *)
Fixpoint key_slice (key_fields : list (bytes * Z)) (off : Z) (n : bytes) : option (Z * Z) :=
  match key_fields with
  | [] => None
  | (name, w) :: key_fields =>
      if bool_decide (name = n) then Some (off, off + w) else key_slice key_fields (off + w) n
  end.

(** [__okm_encode_group_named]: the key's name wins. *)
Fixpoint encode_group_named (p : profile) (key_bytes : bytes) (key_fields : list (bytes * Z))
    (fs : list FieldSchema) (r : row fs) (names : list bytes) (buf : bytes) : outcome unit bytes :=
  match names with
  | [] => Ok buf
  | n :: names =>
      buf ← match key_slice key_fields 0 n with
            | Some (a, b) => s ← or_panic (slice key_bytes a b); Ok (buf ++ s)
            | None => encode_named p fs r [n] buf
            end;
      encode_group_named p key_bytes key_fields fs r names buf
  end.

(** ** Covering entries *)

Definition field_of (fs : list FieldSchema) (n : bytes) : option FieldSchema :=
  find (λ f, bool_decide (ident f = n)) fs.

(** [decode_covered]: a variable-width field takes the remainder. *)
Fixpoint covered_loop (p : profile) (fs : list FieldSchema) (includes : list bytes) (b : bytes) (offset : Z)
    : outcome unit (list dyn * Z) :=
  match includes with
  | [] => Ok ([], offset)
  | n :: includes =>
      f ← or_panic (field_of fs n);
      '(v, offset) ← field_dec p (kind f) b offset (zlen b - offset);
      '(vs, offset) ← covered_loop p fs includes b offset;
      Ok (existT (kind f) v :: vs, offset)
  end.

Definition decode_covered (p : profile) (fs : list FieldSchema) (includes : list bytes) (b : bytes)
    : outcome unit (list dyn) :=
  match includes with
  | [] => Ok []
  | _ =>
      '(vs, offset) ← covered_loop p fs includes b 0;
      assert_ (offset =? zlen b);;
      Ok vs
  end.

(** * Lemmas *)

Fixpoint row_ok (fs : list FieldSchema) : row fs -> Prop :=
  match fs return row fs -> Prop with
  | [] => λ _, True
  | f :: fs => λ r, value_ok (kind f) r.1 /\ row_ok fs r.2
  end.

Fixpoint stored_row (fs : list FieldSchema) : row fs -> row fs :=
  match fs return row fs -> row fs with
  | [] => λ _, tt
  | f :: fs => λ r, (stored (kind f) r.1, stored_row fs r.2)
  end.

Fixpoint defaults (fs : list FieldSchema) : row fs :=
  match fs return row fs with
  | [] => tt
  | f :: fs => (default_expr f, defaults fs)
  end.

Fixpoint row_app (fs gs : list FieldSchema) : row fs -> row gs -> row (fs ++ gs) :=
  match fs return row fs -> row gs -> row (fs ++ gs) with
  | [] => λ _ s, s
  | f :: fs => λ r s, (r.1, row_app fs gs r.2 s)
  end.

(** The locals after the hot walk: the hot fields of a row are bound. *)
Fixpoint hot_locals (fs : list FieldSchema) : row fs -> locals fs :=
  match fs return row fs -> locals fs with
  | [] => λ _, tt
  | f :: fs => λ r, (if hot (kind f) then Some r.1 else None, hot_locals fs r.2)
  end.

Fixpoint locals_app (fs gs : list FieldSchema) : locals fs -> locals gs -> locals (fs ++ gs) :=
  match fs return locals fs -> locals gs -> locals (fs ++ gs) with
  | [] => λ _ s, s
  | f :: fs => λ r s, (r.1, locals_app fs gs r.2 s)
  end.

Lemma hot_positive k : hot k = true -> 0 < field_width k.
Proof. unfold hot. destruct k; cbn [field_width]; rewrite negb_true_iff, Z.eqb_neq; lia. Qed.

(** A fixed-width decoder does not look at the frame length. *)
Lemma hot_no_len p k b o len len' : hot k = true -> field_dec p k b o len = field_dec p k b o len'.
Proof. by destruct k. Qed.

(** Fields appended after the hot segment was written take their defaults. *)
Lemma hot_dec_defaults p b e fs : hot_dec p b e e fs = Ok (hot_locals fs (defaults fs)).
Proof.
  induction fs as [|f fs IH]; [done|]. simpl. destruct (hot (kind f)) eqn:H.
  - pose proof (hot_positive _ H). rewrite (proj2 (Z.ltb_ge _ _)) by lia.
    cbn [mbind outcome_bind]. rewrite IH. done.
  - rewrite IH. done.
Qed.

Lemma hot_enc_spec p fs : forall r, row_ok fs r ->
  exists h, (forall buf, hot_enc p fs r buf = Ok (buf ++ h)) /\
  zlen h = fold_right (λ f n, (if hot (kind f) then field_width (kind f) else 0) + n) 0 fs /\
  (forall pre rest extra, hot_dec p (pre ++ h ++ rest) (zlen pre + zlen h) (zlen pre) (fs ++ extra)
  = Ok (locals_app fs extra (hot_locals fs (stored_row fs r)) (hot_locals extra (defaults extra)))) /\
  forall pre rest, hot_dec p (pre ++ h ++ rest) (zlen pre + zlen h) (zlen pre) fs = Ok (hot_locals fs (stored_row fs r)).
Proof.
  induction fs as [|f fs IH]; intros r Hr.
  - exists []. split; [intros buf; by rewrite app_nil_r|]. split; [done|]. split; [|done]. intros pre rest extra.
    rewrite zlen_nil, Z.add_0_r. apply hot_dec_defaults.
  - destruct Hr as [Hv Hr]. destruct (IH r.2 Hr) as (h & E & L & D & D0). simpl. destruct (hot (kind f)) eqn:H.
    + destruct (field_roundtrip p (kind f) r.1 Hv) as [e W]. exists (e ++ h).
      split; [intros buf; rewrite (w_enc _ _ _ _ W); cbn [mbind outcome_bind]; by rewrite E, app_assoc|].
      pose proof (w_width _ _ _ _ W H) as Lw. split; [rewrite zlen_app, L, Lw; done|].
      assert (forall pre rest, (if zlen pre + field_width (kind f) <? zlen pre + (zlen e + zlen h) + 1
          then field_dec p (kind f) (pre ++ e ++ h ++ rest) (zlen pre) 0 else Ok (default_expr f, zlen pre))
        = Ok (stored (kind f) r.1, zlen pre + zlen e)) as Step.
      { intros pre rest. pose proof (zlen_nonneg h). rewrite (proj2 (Z.ltb_lt _ _)) by lia.
        rewrite (hot_no_len p (kind f) _ _ 0 (zlen e) H). apply W. }
      split; [intros pre rest extra|intros pre rest]; rewrite zlen_app, <- (app_assoc e h rest), Step;
        cbn [mbind outcome_bind]; rewrite app_assoc, Z.add_assoc, <- zlen_app; [by rewrite D|by rewrite D0].
    + exists h. split; [intros buf; cbn [mbind outcome_bind]; apply E|]. split; [lia|].
      split; [intros pre rest extra; by rewrite D|intros pre rest; by rewrite D0].
Qed.

Lemma cold_dec_defaults p b fs : forall pos,
  cold_dec p b pos (zlen b) fs (hot_locals fs (defaults fs)) = Ok (defaults fs).
Proof.
  induction fs as [|f fs IH]; intros pos; [done|]. simpl. unfold cold_field.
  rewrite Z.ltb_irrefl. destruct (hot (kind f)); cbn [or_panic mbind outcome_bind]; by rewrite IH.
Qed.

(** One frame, read where it stands. *)
Lemma cold_frame p pos f v e :
  hot (kind f) = false -> writes p (kind f) v e ->
  exists c, (forall buf, (len ← field_len p (kind f) v; buf ← put_len p (buf ++ [wrap 8 pos]) len;
                          field_enc p (kind f) v buf) = Ok (buf ++ c)) /\
  forall pre rest, cold_field p (pre ++ c ++ rest) pos (zlen pre) f = Ok (stored (kind f) v, zlen (pre ++ c)).
Proof.
  intros H W. pose proof (w_size _ _ _ _ W H) as Sz. pose proof (zlen_nonneg e).
  exists ([wrap 8 pos] ++ encoded (zlen e) ++ e). split.
  - intros buf. rewrite (w_len _ _ _ _ W). cbn [mbind outcome_bind].
    destruct (put_take_len p (buf ++ [wrap 8 pos]) (zlen e) ltac:(lia)) as (-> & _). cbn [mbind outcome_bind].
    rewrite (w_enc _ _ _ _ W). by rewrite <- !app_assoc.
  - intros pre rest. unfold cold_field. rewrite <- !app_assoc. cbn [app].
    pose proof (zlen_nonneg (encoded (zlen e) ++ e ++ rest)). rewrite (proj2 (Z.ltb_lt _ _)) by zlia.
    rewrite byte_at_app. cbn [or_panic mbind outcome_bind]. rewrite Z.eqb_refl.
    rewrite cons_middle, app_assoc. replace (zlen pre + 1) with (zlen (pre ++ [wrap 8 pos])) by zlia.
    rewrite slice_all_from. cbn [or_panic mbind outcome_bind].
    destruct (put_take_len p [] (zlen e) ltac:(lia)) as (_ & _ & T). rewrite T. cbn [or_panic mbind outcome_bind].
    rewrite <- zlen_app, app_assoc, (w_dec _ _ _ _ W). do 2 f_equal. zlia.
Qed.

Lemma cold_enc_spec p fs : forall r pos, row_ok fs r ->
  exists c, (forall buf, cold_enc p pos fs r buf = Ok (buf ++ c)) /\
  (forall pre extra, cold_dec p (pre ++ c) pos (zlen pre) (fs ++ extra)
    (locals_app fs extra (hot_locals fs (stored_row fs r)) (hot_locals extra (defaults extra)))
  = Ok (row_app fs extra (stored_row fs r) (defaults extra))) /\
  forall pre, cold_dec p (pre ++ c) pos (zlen pre) fs (hot_locals fs (stored_row fs r)) = Ok (stored_row fs r).
Proof.
  induction fs as [|f fs IH]; intros r pos Hr.
  - exists []. split; [intros buf; by rewrite app_nil_r|]. split; [|done]. intros pre extra. rewrite app_nil_r. apply cold_dec_defaults.
  - destruct Hr as [Hv Hr]. destruct (IH r.2 (pos + 1) Hr) as (c & E & D & D0). simpl. destruct (hot (kind f)) eqn:H.
    + exists c. split; [intros buf; cbn [mbind outcome_bind]; apply E|].
      split; [intros pre extra|intros pre]; cbn [or_panic mbind outcome_bind]; [by rewrite D|by rewrite D0].
    + destruct (field_roundtrip p (kind f) r.1 Hv) as [e W]. destruct (cold_frame p pos f r.1 e H W) as (x & Ex & Dx).
      exists (x ++ c). split; [intros buf; rewrite Ex; cbn [mbind outcome_bind]; by rewrite E, app_assoc|].
      split; [intros pre extra|intros pre]; rewrite Dx; cbn [mbind outcome_bind]; rewrite app_assoc; [by rewrite D|by rewrite D0].
Qed.

(** What [encode_payload] writes, and how any decoder starts on it. *)
Definition payload_of (v : Z) (h c : bytes) : bytes := ([v] ++ be_bytes 2 (zlen h)) ++ h ++ c.

Lemma encode_payload_shape p v fs (r : row fs) h c :
  zlen h < 2 ^ 16 -> (forall buf, hot_enc p fs r buf = Ok (buf ++ h)) -> (forall buf, cold_enc p 0 fs r buf = Ok (buf ++ c)) ->
  encode_payload p (mkSchema v fs) r = Ok (payload_of v h c).
Proof.
  intros Hw Eh Ec. pose proof (zlen_nonneg h) as Hh. unfold encode_payload, payload_of. cbn [fields layout_version].
  destruct fs as [|f fs].
  - specialize (Eh []). specialize (Ec []). injection Eh as <-. injection Ec as <-. done.
  - rewrite Eh. cbn [mbind outcome_bind]. rewrite Ec. f_equal.
    replace (zlen (([v] ++ be_bytes 2 0) ++ h) - zlen ([v] ++ be_bytes 2 0)) with (zlen h) by zlia.
    rewrite wrap_small by lia. rewrite <- !app_assoc. done.
Qed.

Lemma decode_payload_shape p s v h c :
  zlen h < 2 ^ 16 ->
  decode_payload p s (payload_of v h c) =
    if v <=? layout_version s then
      let pre := [v] ++ be_bytes 2 (zlen h) in
      l ← hot_dec p (pre ++ h ++ c) (zlen pre + zlen h) (zlen pre) (fields s);
      cold_dec p ((pre ++ h) ++ c) 0 (zlen (pre ++ h)) (fields s) l
    else Panic.
Proof.
  intros Hw. pose proof (zlen_nonneg h) as Hh. unfold payload_of, decode_payload.
  assert (byte_at (([v] ++ be_bytes 2 (zlen h)) ++ h ++ c) 0 = Some v) as -> by apply (byte_at_app []).
  cbn [or_panic mbind outcome_bind]. destruct (v <=? layout_version s); cbn [assert_ mbind outcome_bind]; [|done].
  assert (slice (([v] ++ be_bytes 2 (zlen h)) ++ h ++ c) 1 3 = Some (be_bytes 2 (zlen h))) as ->.
  { rewrite <- app_assoc. pose proof (slice_app [v] (be_bytes 2 (zlen h)) (h ++ c)) as S1.
    by rewrite be_bytes_zlen in S1. }
  cbn [or_panic mbind outcome_bind]. rewrite be_val_be_bytes_small by (simpl; lia).
  assert (zlen ([v] ++ be_bytes 2 (zlen h)) = 3) as L3 by zlia. cbv zeta. rewrite L3, (zlen_app _ h), L3, <- (app_assoc _ h c). done.
Qed.

(** A payload round trips under its own declaration. *)
Lemma payload_roundtrip p s (r : row (fields s)) :
  HOT_WIDTH s < 2 ^ 16 -> row_ok (fields s) r ->
  exists b, encode_payload p s r = Ok b /\ decode_payload p s b = Ok (stored_row (fields s) r).
Proof.
  destruct s as [v fs]. unfold HOT_WIDTH. cbn [fields] in *. intros Hw Hr.
  destruct (hot_enc_spec p fs r Hr) as (h & Eh & Lh & _ & Dh). destruct (cold_enc_spec p fs r 0 Hr) as (c & Ec & _ & Dc).
  rewrite <- Lh in Hw. exists (payload_of v h c). split; [by apply encode_payload_shape|].
  rewrite decode_payload_shape by done. cbn [layout_version fields]. rewrite Z.leb_refl. cbv zeta. rewrite Dh.
  cbn [mbind outcome_bind]. apply Dc.
Qed.

(** C27: append-only evolution.  A document written under a declaration decodes
    under every later version of it that appends fields of any kind: the fields
    written come back as stored, the appended ones take their declared defaults.
    A payload whose version is newer than the declaration's panics. *)
Theorem payload_evolution p s extra v' (r : row (fields s)) :
  0 <= layout_version s <= v' -> HOT_WIDTH s < 2 ^ 16 -> row_ok (fields s) r ->
  exists b, encode_payload p s r = Ok b /\
  decode_payload p (mkSchema v' (fields s ++ extra)) b
    = Ok (row_app (fields s) extra (stored_row (fields s) r) (defaults extra)) /\
  forall s', layout_version s' < layout_version s -> decode_payload p s' b = Panic.
Proof.
  destruct s as [v fs]. cbn [fields layout_version] in *. unfold HOT_WIDTH. cbn [fields]. intros Hver Hw Hr.
  destruct (hot_enc_spec p fs r Hr) as (h & Eh & Lh & Dh & _). destruct (cold_enc_spec p fs r 0 Hr) as (c & Ec & Dc & _).
  rewrite <- Lh in Hw. exists (payload_of v h c). split; [by apply encode_payload_shape|]. split.
  - rewrite decode_payload_shape by done. cbn [layout_version fields]. rewrite (proj2 (Z.leb_le _ _)) by lia.
    cbv zeta. rewrite Dh. cbn [mbind outcome_bind]. apply Dc.
  - intros s' Hs'. rewrite decode_payload_shape by done. by rewrite (proj2 (Z.leb_gt _ _)) by lia.
Qed.

(** ** Walks by name *)

Lemma lookup_field_spec fs n : forall r,
  match field_of fs n with
  | Some f => exists v, lookup_field fs r n = Some (existT (kind f) v) /\
      (row_ok fs r -> value_ok (kind f) v) /\
      lookup_field fs (stored_row fs r) n = Some (existT (kind f) (stored (kind f) v))
  | None => lookup_field fs r n = None
  end.
Proof.
  induction fs as [|f fs IH]; intros r; [done|]. simpl. case_bool_decide.
  - exists r.1. split; [done|]. split; [by intros [? _]|done].
  - specialize (IH r.2). destruct (field_of fs n) as [g|]; [|done].
    destruct IH as (v & ? & Hv & ?). exists v. split; [done|]. split; [|done]. intros [_ Hr]. by apply Hv.
Qed.

(** Fields can be located inside a bare concatenation when only the last one has
    variable width: the rule the declaration is checked for. *)
Fixpoint located (fs : list FieldSchema) (names : list bytes) : Prop :=
  match names with
  | [] => True
  | n :: names =>
      exists f, field_of fs n = Some f /\ (names <> [] -> hot (kind f) = true) /\ located fs names
  end.

Lemma encode_named_spec p fs r names :
  row_ok fs r -> located fs names ->
  exists b vs, (forall buf, encode_named p fs r names buf = Ok (buf ++ b)) /\
  encoded_width p fs r names = Ok (zlen b) /\
  Forall2 (λ n v, lookup_field fs (stored_row fs r) n = Some v) names vs /\
  forall pre, covered_loop p fs names (pre ++ b) (zlen pre) = Ok (vs, zlen (pre ++ b)).
Proof.
  intros Hr. induction names as [|n names IH]; intros Hl.
  - exists [], []. split; [intros buf; by rewrite app_nil_r|]. split; [done|]. split; [constructor|].
    intros pre. by rewrite app_nil_r.
  - destruct Hl as (f & Ef & Hhot & Hl). destruct (IH Hl) as (b & vs & E & Ew & F & D).
    pose proof (lookup_field_spec fs n r) as L. rewrite Ef in L. destruct L as (v & Lv & Hv & Ls).
    destruct (field_roundtrip p (kind f) v (Hv Hr)) as [e W].
    exists (e ++ b), (existT (kind f) (stored (kind f) v) :: vs). simpl. rewrite Lv. cbn [or_panic mbind outcome_bind projT1 projT2].
    split; [intros buf; rewrite (w_enc _ _ _ _ W); cbn [mbind outcome_bind]; by rewrite E, app_assoc|].
    split; [rewrite (w_len _ _ _ _ W); cbn [mbind outcome_bind]; rewrite Ew; cbn [mbind outcome_bind]; by rewrite zlen_app|].
    split; [by constructor|]. intros pre. rewrite Ef. cbn [or_panic mbind outcome_bind].
    assert (field_dec p (kind f) (pre ++ e ++ b) (zlen pre) (zlen (pre ++ e ++ b) - zlen pre)
      = Ok (stored (kind f) v, zlen pre + zlen e)) as ->.
    { destruct names as [|n' names].
      - specialize (E []). simpl in E. injection E as <-. pose proof (w_dec _ _ _ _ W pre []) as Dw.
        rewrite app_nil_r in *. replace (zlen (pre ++ e) - zlen pre) with (zlen e) by zlia. done.
      - rewrite (hot_no_len p (kind f) _ _ _ (zlen e)) by by apply Hhot. apply W. }
    cbn [mbind outcome_bind]. rewrite app_assoc, <- zlen_app, D. done.
Qed.

(** A covering entry answers without the row.  For every list of included
    fields the declaration accepts, the value written is as long as the stated
    width and decodes to exactly the included fields of the document, in order
    and as stored; a byte left over or missing a field panics. *)
Theorem covered_roundtrip p fs r includes :
  row_ok fs r -> located fs includes -> includes <> [] ->
  exists b vs, encode_named p fs r includes [] = Ok b /\ encoded_width p fs r includes = Ok (zlen b) /\
  decode_covered p fs includes b = Ok vs /\
  Forall2 (λ n v, lookup_field fs (stored_row fs r) n = Some v) includes vs.
Proof.
  intros Hr Hl Hne. destruct (encode_named_spec p fs r includes Hr Hl) as (b & vs & E & W & F & D).
  exists b, vs. specialize (E []). specialize (D []). cbn [app] in *. rewrite zlen_nil in D.
  do 2 (split; [done|]). split; [|done]. unfold decode_covered. destruct includes; [done|].
  rewrite D. cbn [mbind outcome_bind]. by rewrite Z.eqb_refl.
Qed.

(** The key's own bytes answer a group name the key declares. *)
Lemma key_slice_spec key_fields n : forall off a b,
  Forall (λ f, 0 <= f.2) key_fields -> key_slice key_fields off n = Some (a, b) ->
  off <= a <= b /\ b <= off + fold_right (λ f s, f.2 + s) 0 key_fields.
Proof.
  induction key_fields as [|[m w] l IH]; intros off a b H E; simpl in *; [done|].
  apply Forall_cons in H as [Hw H]. simpl in Hw.
  assert (0 <= fold_right (λ f s, f.2 + s) 0 l) by (clear -H; induction H; simpl; lia).
  case_bool_decide; [injection E as <- <-; lia|]. apply IH in E; [lia|done].
Qed.

(** * Witnesses *)

(** A declaration with a fixed-width and a variable-width field. *)
Definition sample_schema : DocumentSchema :=
  mkSchema 1 [mkField [97] (KUInt 2) 0; mkField [98] KString []; mkField [99] (KReverse 1 true) 0].

Definition sample_row : row (fields sample_schema) := (300, ([104; 105], (-3, tt))).

Lemma sample_row_ok : row_ok (fields sample_schema) sample_row.
Proof. simpl. unfold word_ok, bits. simpl. repeat split; first [lia | by vm_compute]. Qed.

Lemma payload_evolution_witness :
  exists b, encode_payload Debug sample_schema sample_row = Ok b /\
  decode_payload Debug (mkSchema 2 (fields sample_schema ++ [mkField [100] (KUInt 4) 7; mkField [101] KBytes [1]])) b
    = Ok (300, ([104; 105], (-3, (7, ([1], tt))))) /\
  forall s', layout_version s' < 1 -> decode_payload Debug s' b = Panic.
Proof.
  refine (payload_evolution Debug sample_schema _ 2 sample_row _ _ sample_row_ok); [simpl; lia|by vm_compute].
Defined.

Lemma covered_roundtrip_witness :
  exists b vs, encode_named Release (fields sample_schema) sample_row [[99]; [98]] [] = Ok b /\
  encoded_width Release (fields sample_schema) sample_row [[99]; [98]] = Ok (zlen b) /\
  decode_covered Release (fields sample_schema) [[99]; [98]] b = Ok vs /\
  Forall2 (λ n v, lookup_field (fields sample_schema) sample_row n = Some v) [[99]; [98]] vs.
Proof.
  refine (covered_roundtrip Release (fields sample_schema) sample_row [[99]; [98]] sample_row_ok _ _); [|done].
  eexists. split; [done|]. split; [done|]. eexists. split; [done|]. split; [done|done].
Defined.
