(* ===== verification/Keys.v ===== *)
(** * Keys (okm-core, [model/key.rs], [model/field.rs], [model/prefix.rs],
    [model/wrappers/uuid.rs]; okm-derive, [key_encode.rs])

    [KeyEncode] is the contract of an identity: a fixed-width big-endian
    encoding with its field table, and the default methods over it.  [krow] is
    the struct of a declaration and [derived_key] the implementation
    [#[derive(KeyEncode)]] emits; a [Uuid] is the second implementation.  A
    [PrefixProbe] is the bytes a typed prefix builder collects.

    The theorems: keys of one declaration round trip, have one width, and sort
    as their fields do in declaration order; every prefix walk writes leading
    bytes of the key; the compile-time check of a lead face accepts exactly the
    declared fields; a version-7 uuid sorts by its millisecond. *)
From S2P Require Import Prelude VarInt Slots Vocab Fields.

(** ** Field descriptors *)

Inductive FieldType : Type :=
| TU8 | TU16 | TU32 | TU64
| TFixedBytes | TStr | TBytes | TVarInt
| TQuant (precision : Z)
| TVocab (id_face : Z)
| TOffset (base : Z)
| TUuid4 | TUuid7
| TVector (elem : bytes).

Record FieldDesc : Type := mkDesc { fd_name : bytes; fd_ty : FieldType; fd_width : Z }.

Definition kind_matches (a b : FieldType) : bool :=
  match a, b with
  | TU8, TU8 | TU16, TU16 | TU32, TU32 | TU64, TU64
  | TFixedBytes, TFixedBytes | TUuid4, TUuid4 | TUuid7, TUuid7
  | TVocab _, TVocab _ => true
  | _, _ => false
  end.

(** The byte loop of [str_eq], [i] counting up. *)
Fixpoint str_eq_loop (a b : bytes) : bool :=
  match a, b with
  | x :: a, y :: b => if negb (x =? y) then false else str_eq_loop a b
  | _, _ => true
  end.

Definition str_eq (a b : bytes) : bool :=
  if negb (zlen a =? zlen b) then false else str_eq_loop a b.

Fixpoint key_field_matches (fields : list FieldDesc) (name : bytes) (kind : FieldType) (width : Z) : bool :=
  match fields with
  | [] => false
  | f :: fields =>
      if str_eq (fd_name f) name then kind_matches (fd_ty f) kind && (fd_width f =? width)
      else key_field_matches fields name kind width
  end.

Fixpoint key_field_exists (fields : list FieldDesc) (name : bytes) : bool :=
  match fields with
  | [] => false
  | f :: fields => if str_eq (fd_name f) name then true else key_field_exists fields name
  end.

(** ** The contract *)

Class KeyEncode (K : Type) : Type := {
  KEY_LEN : Z;
  FIELDS : list FieldDesc;
  encode : K -> outcome unit bytes;
  decode : bytes -> outcome unit K;
  encode_prefix_named : K -> bytes -> list bytes -> outcome unit (bytes * Z);
  prefix_width_named : list bytes -> outcome unit Z
}.

Section Defaults.
Context {K : Type} `{KeyEncode K}.

(** [encode_into] *)
Definition encode_into (k : K) (buf : bytes) : outcome unit bytes := e ← encode k; Ok (buf ++ e).

(** The inner loop of [encode_field_named]: one name over the field table. *)
Fixpoint write_named (full : bytes) (fields : list FieldDesc) (off : Z) (n : bytes) (buf : bytes) (written : Z)
    : outcome unit (bytes * Z) :=
  match fields with
  | [] => Ok (buf, written)
  | f :: fields =>
      if bool_decide (fd_name f = n) then
        s ← or_panic (slice full off (off + fd_width f)); Ok (buf ++ s, written + fd_width f)
      else write_named full fields (off + fd_width f) n buf written
  end.

Fixpoint names_loop (full : bytes) (names : list bytes) (buf : bytes) (written : Z)
    : outcome unit (bytes * Z) :=
  match names with
  | [] => Ok (buf, written)
  | n :: names =>
      '(buf, written) ← write_named full FIELDS 0 n buf written; names_loop full names buf written
  end.

Definition encode_field_named (k : K) (buf : bytes) (names : list bytes) : outcome unit (bytes * Z) :=
  full ← encode k; names_loop full names buf 0.

Definition width_of_name (n : bytes) : Z :=
  match find (λ f, bool_decide (fd_name f = n)) FIELDS with Some f => fd_width f | None => 0 end.

Definition field_width_named (names : list bytes) : Z :=
  fold_left (λ total n, total + width_of_name n) names 0.
End Defaults.

(** ** The derived implementation

    The field types [field_encoders] of [key_encode.rs] accepts; every other
    type is a declaration error. *)
Inductive KeyKind : Type :=
| KeyUInt (n : nat)
| KeyVocab (n : nat)
| KeyUuid (version : Z)
| KeyFixed (n : nat).

Definition key_type (k : KeyKind) : Type :=
  match k with KeyUInt _ => Z | KeyVocab _ => Vocab | KeyUuid _ | KeyFixed _ => bytes end.

Definition key_width (k : KeyKind) : Z :=
  match k with KeyUInt n | KeyVocab n | KeyFixed n => Z.of_nat n | KeyUuid _ => 16 end.

Definition key_field_type (k : KeyKind) : FieldType :=
  match k with
  | KeyUInt n => if (n =? 1)%nat then TU8 else if (n =? 2)%nat then TU16 else if (n =? 4)%nat then TU32 else TU64
  | KeyVocab _ => TVocab 0
  | KeyUuid v => if v =? 4 then TUuid4 else TUuid7
  | KeyFixed _ => TFixedBytes
  end.

Definition key_enc (k : KeyKind) : key_type k -> bytes -> outcome unit bytes :=
  match k return key_type k -> bytes -> outcome unit bytes with
  | KeyUInt n => λ v buf, Ok (buf ++ be_bytes n (wrap (bits n) v))
  | KeyVocab n => λ v buf,
      img ← Vocab_wire16 n v; s ← or_panic (slice img (16 - Z.of_nat n) (zlen img)); Ok (buf ++ s)
  | KeyUuid _ | KeyFixed _ => λ v buf, Ok (buf ++ v)
  end.

Definition key_dec (k : KeyKind) (b : bytes) (offset : Z) : outcome unit (key_type k * Z) :=
  match k return outcome unit (key_type k * Z) with
  | KeyUInt n => s ← cut b offset (Z.of_nat n); Ok (be_val s, offset + Z.of_nat n)
  | KeyVocab n => s ← cut b offset (Z.of_nat n); v ← Vocab_from_wire n s; Ok (v, offset + Z.of_nat n)
  | KeyUuid _ => s ← cut b offset 16; Ok (s, offset + 16)
  | KeyFixed n => s ← cut b offset (Z.of_nat n); Ok (s, offset + Z.of_nat n)
  end.

Record KeyField : Type := mkKeyField { kf_name : bytes; kf_kind : KeyKind }.

Fixpoint krow (ks : list KeyField) : Type :=
  match ks with [] => unit | k :: ks => (key_type (kf_kind k) * krow ks)%type end.

(** The emitted [encode_into]. *)
Fixpoint krow_encode (ks : list KeyField) : krow ks -> bytes -> outcome unit bytes :=
  match ks return krow ks -> bytes -> outcome unit bytes with
  | [] => λ _ buf, Ok buf
  | k :: ks => λ r buf, buf ← key_enc (kf_kind k) r.1 buf; krow_encode ks r.2 buf
  end.

Fixpoint krow_decode (ks : list KeyField) (b : bytes) (offset : Z) : outcome unit (krow ks) :=
  match ks return outcome unit (krow ks) with
  | [] => Ok tt
  | k :: ks => '(v, offset) ← key_dec (kf_kind k) b offset; r ← krow_decode ks b offset; Ok (v, r)
  end.

(** One arm of the match over the declared names. *)
Fixpoint krow_arm (ks : list KeyField) : krow ks -> bytes -> bytes -> outcome unit bytes :=
  match ks return krow ks -> bytes -> bytes -> outcome unit bytes with
  | [] => λ _ _ _, Panic
  | k :: ks => λ r n buf,
      if bool_decide (kf_name k = n) then key_enc (kf_kind k) r.1 buf else krow_arm ks r.2 n buf
  end.

Fixpoint krow_prefix_loop (ks : list KeyField) (r : krow ks) (names : list bytes) (buf : bytes)
    : outcome unit bytes :=
  match names with
  | [] => Ok buf
  | n :: names => buf ← krow_arm ks r n buf; krow_prefix_loop ks r names buf
  end.

Definition krow_prefix_named (ks : list KeyField) (r : krow ks) (buf : bytes) (names : list bytes)
    : outcome unit (bytes * Z) :=
  let before := zlen buf in
  buf ← krow_prefix_loop ks r names buf; Ok (buf, zlen buf - before).

Fixpoint krow_prefix_width (ks : list KeyField) (names : list bytes) : outcome unit Z :=
  match names with
  | [] => Ok 0
  | n :: names =>
      k ← or_panic (find (λ k, bool_decide (kf_name k = n)) ks);
      w ← krow_prefix_width ks names; Ok (key_width (kf_kind k) + w)
  end.

#[export] Instance derived_key (ks : list KeyField) : KeyEncode (krow ks) := {
  KEY_LEN := fold_right (λ k n, key_width (kf_kind k) + n) 0 ks;
  FIELDS := map (λ k, mkDesc (kf_name k) (key_field_type (kf_kind k)) (key_width (kf_kind k))) ks;
  encode r := krow_encode ks r [];
  decode b := krow_decode ks b 0;
  encode_prefix_named := krow_prefix_named ks;
  prefix_width_named := krow_prefix_width ks
}.

(** [encode_prefix_n]: the first [n] fields. *)
Fixpoint krow_prefix_n (ks : list KeyField) (n : nat) : krow ks -> bytes -> outcome unit bytes :=
  match ks, n return krow ks -> bytes -> outcome unit bytes with
  | k :: ks, S n => λ r buf, buf ← key_enc (kf_kind k) r.1 buf; krow_prefix_n ks n r.2 buf
  | _, _ => λ _ buf, Ok buf
  end.

(** ** Typed prefix probes *)

Record PrefixProbe : Type := mkProbe { probe_bytes : bytes }.

Definition PrefixProbe_new (b : bytes) : PrefixProbe := mkProbe b.
Definition PrefixProbe_empty : PrefixProbe := mkProbe [].
Definition taken (p : PrefixProbe) : Z := zlen (probe_bytes p).

(** The emitted builder: a probe grows by the next declared field only. *)
Inductive builds (ks : list KeyField) : nat -> PrefixProbe -> Prop :=
| build_start : builds ks 0 PrefixProbe_empty
| build_field i probe k (v : key_type (kf_kind k)) b :
    builds ks i probe -> ks !! i = Some k -> key_enc (kf_kind k) v (probe_bytes probe) = Ok b ->
    builds ks (S i) (PrefixProbe_new b).

(** ** Uuids

    [rnd] is what the OS source fills a buffer with. *)
Definition set_byte (i : nat) (f : Z -> Z) (b : bytes) : bytes := alter f i b.

Definition version_bits (v : Z) (b : bytes) : bytes :=
  set_byte 8 (λ x, Z.lor (Z.land x 0x3f) 0x80) (set_byte 6 (λ x, Z.lor (Z.land x 0x0f) v) b).

Definition Uuid4_new (rnd : bytes) : bytes := version_bits 0x40 rnd.

Definition Uuid7_with_millis (rnd : bytes) (ms : Z) : bytes :=
  version_bits 0x70 (drop 2 (be_bytes 8 ms) ++ rnd).

Definition Uuid7_millis (b : bytes) : Z := be_val ([0; 0] ++ take 6 b).

(** A character of a text form, as its code point. *)
Definition hex_nibble (c : Z) : option Z :=
  if in_range 48 57 c then Some (c - 48)
  else if in_range 97 102 c then Some (c - 97 + 10)
  else if in_range 65 70 c then Some (c - 65 + 10)
  else None.

(** The loop of [from_text]; [out] is the array being filled. *)
Fixpoint from_text_loop (s : list Z) (out : bytes) (n : nat) (hi : option Z)
    : option (bytes * nat * option Z) :=
  match s with
  | [] => Some (out, n, hi)
  | c :: s =>
      if c =? 45 then from_text_loop s out n hi
      else
        v ← hex_nibble c;
        match hi with
        | None => from_text_loop s out n (Some v)
        | Some h =>
            if (n =? 16)%nat then None
            else from_text_loop s (<[n := Z.lor (wrap 8 (Z.shiftl h 4)) v]> out) (S n) None
        end
  end.

Definition from_text (s : list Z) : option bytes :=
  '(out, n, hi) ← from_text_loop s (replicate 16 0) 0 None;
  if (n =? 16)%nat && bool_decide (hi = None) then Some out else None.

Definition hex_digit (x : Z) : Z := if x <? 10 then 48 + x else 87 + x.

Fixpoint write_text_from (i : nat) (b : bytes) : list Z :=
  match b with
  | [] => []
  | x :: b =>
      (if existsb (Nat.eqb i) [4; 6; 8; 10]%nat then [45] else [])
      ++ [hex_digit (x / 16); hex_digit (x mod 16)] ++ write_text_from (S i) b
  end.

Definition write_text (b : bytes) : list Z := write_text_from 0 b.

Record Uuid : Type := mkUuid { as_bytes : bytes }.

#[export] Instance uuid_key : KeyEncode Uuid := {
  KEY_LEN := 16;
  FIELDS := [mkDesc [117; 117; 105; 100] TFixedBytes 16];
  encode u := Ok (as_bytes u);
  decode b := s ← or_panic (slice b 0 16); Ok (mkUuid s);
  encode_prefix_named u buf names :=
    match names with [] => Ok (buf, 0) | _ => Ok (buf ++ as_bytes u, 16) end;
  prefix_width_named names := match names with [] => Ok 0 | _ => Ok 16 end
}.

(** * Lemmas *)

(** A key field is encoded like the payload field of its type. *)
Definition as_field (k : KeyKind) : FieldKind :=
  match k with KeyUInt n => KUInt n | KeyVocab n => KVocab n | KeyUuid v => KUuid v | KeyFixed n => KFixedBytes n end.

Definition as_value (k : KeyKind) : key_type k -> rust_type (as_field k) :=
  match k return key_type k -> rust_type (as_field k) with
  | KeyUInt _ | KeyVocab _ | KeyUuid _ | KeyFixed _ => λ v, v
  end.

Definition key_value_ok (k : KeyKind) (v : key_type k) : Prop := value_ok (as_field k) (as_value k v).

Definition key_stored (k : KeyKind) : key_type k -> key_type k :=
  match k return key_type k -> key_type k with KeyVocab _ => λ v, mkVocab None (id v) | _ => λ v, v end.

(** The order of field values. *)
Definition key_compare (k : KeyKind) : key_type k -> key_type k -> comparison :=
  match k return key_type k -> key_type k -> comparison with
  | KeyUInt _ => Z.compare
  | KeyVocab _ => λ u v, default 0 (id u) ?= default 0 (id v)
  | KeyUuid _ | KeyFixed _ => lex_compare
  end.

(** [key_writes k v e]: [e] is the field's encoding. *)
Record key_writes (k : KeyKind) (v : key_type k) (e : bytes) : Prop := {
  kw_enc buf : key_enc k v buf = Ok (buf ++ e);
  kw_width : zlen e = key_width k;
  kw_dec pre rest : key_dec k (pre ++ e ++ rest) (zlen pre) = Ok (key_stored k v, zlen pre + zlen e)
}.

Lemma key_field_roundtrip k v : key_value_ok k v -> exists e, key_writes k v e.
Proof.
  intros H. destruct (field_roundtrip Debug (as_field k) (as_value k v) H) as [e W]. exists e.
  pose proof (w_len _ _ _ _ W) as L. split.
  - intros buf. rewrite <- (w_enc _ _ _ _ W buf). by destruct k.
  - by destruct k; injection L as L.
  - intros pre rest. pose proof (w_dec _ _ _ _ W pre rest) as D. destruct k; exact D.
Qed.

Lemma key_field_order k u v eu ev :
  key_value_ok k u -> key_value_ok k v -> key_writes k u eu -> key_writes k v ev ->
  lex_compare eu ev = key_compare k u v.
Proof.
  intros Hu Hv Wu Wv. pose proof (kw_enc _ _ _ Wu []) as Eu. pose proof (kw_enc _ _ _ Wv []) as Ev.
  destruct k; unfold key_value_ok in *; simpl in *.
  - injection Eu as <-. injection Ev as <-. rewrite !be_bytes_wrap.
    apply lex_compare_be_bytes; by rewrite <- bits_pow.
  - destruct Hu as (i & Ei & Hi & Hn), Hv as (j & Ej & Hj & _).
    assert (forall x y, id x = Some y -> key_enc (KeyVocab n) x [] = Ok (be_bytes n y)) as A.
    { intros x y Ex. simpl. unfold Vocab_wire16. rewrite Ex. cbn [mbind outcome_bind]. unfold be16.
      replace (16 - Z.of_nat n) with (zlen (replicate (16 - n) 0)) by (unfold zlen; rewrite length_replicate; lia).
      by rewrite slice_all_from. }
    pose proof (A u i Ei) as Au. pose proof (A v j Ej) as Av. simpl in Au, Av. rewrite Eu in Au. rewrite Ev in Av.
    injection Au as ->. injection Av as ->. rewrite Ei, Ej. by apply lex_compare_be_bytes.
  - by injection Eu as <-; injection Ev as <-.
  - by injection Eu as <-; injection Ev as <-.
Qed.

Lemma lex_compare_app_len a1 a2 b1 b2 :
  length a1 = length b1 ->
  lex_compare (a1 ++ a2) (b1 ++ b2) = match lex_compare a1 b1 with Eq => lex_compare a2 b2 | c => c end.
Proof.
  revert b1. induction a1 as [|x a1 IH]; intros [|y b1] L; simpl in *; try done.
  destruct (x ?= y); auto.
Qed.

Fixpoint krow_ok (ks : list KeyField) : krow ks -> Prop :=
  match ks return krow ks -> Prop with
  | [] => λ _, True
  | k :: ks => λ r, key_value_ok (kf_kind k) r.1 /\ krow_ok ks r.2
  end.

Fixpoint krow_stored (ks : list KeyField) : krow ks -> krow ks :=
  match ks return krow ks -> krow ks with
  | [] => λ _, tt
  | k :: ks => λ r, (key_stored (kf_kind k) r.1, krow_stored ks r.2)
  end.

(** Declaration order, first difference first. *)
Fixpoint krow_compare (ks : list KeyField) : krow ks -> krow ks -> comparison :=
  match ks return krow ks -> krow ks -> comparison with
  | [] => λ _ _, Eq
  | k :: ks => λ a b, match key_compare (kf_kind k) a.1 b.1 with Eq => krow_compare ks a.2 b.2 | c => c end
  end.

(** What a declared key is written as. *)
Fixpoint krow_writes (ks : list KeyField) : krow ks -> list bytes -> Prop :=
  match ks return krow ks -> list bytes -> Prop with
  | [] => λ _ es, es = []
  | k :: ks => λ r es,
      match es with e :: es => key_writes (kf_kind k) r.1 e /\ krow_writes ks r.2 es | [] => False end
  end.

Lemma krow_roundtrip ks : forall r, krow_ok ks r -> exists es, krow_writes ks r es /\
  (forall buf, krow_encode ks r buf = Ok (buf ++ concat es)) /\
  zlen (concat es) = KEY_LEN (K := krow ks) /\
  forall pre rest, krow_decode ks (pre ++ concat es ++ rest) (zlen pre) = Ok (krow_stored ks r).
Proof.
  induction ks as [|k ks IH]; intros r Hr.
  - exists []. split; [done|]. split; [intros buf; by rewrite app_nil_r|]. split; done.
  - destruct r as [v r], Hr as [Hv Hr]. destruct (key_field_roundtrip _ _ Hv) as [e W].
    destruct (IH r Hr) as (es & Ws & E & L & D). exists (e :: es). split; [done|]. simpl.
    split; [intros buf; rewrite (kw_enc _ _ _ W); cbn [mbind outcome_bind]; by rewrite E, app_assoc|].
    split; [rewrite zlen_app, (kw_width _ _ _ W), L; done|].
    intros pre rest. rewrite <- app_assoc, (kw_dec _ _ _ W). cbn [mbind outcome_bind].
    rewrite <- zlen_app, app_assoc, D. done.
Qed.

Lemma krow_order ks a b es fs :
  krow_ok ks a -> krow_ok ks b -> krow_writes ks a es -> krow_writes ks b fs ->
  lex_compare (concat es) (concat fs) = krow_compare ks a b.
Proof.
  revert es fs. induction ks as [|k ks IH]; intros es fs Ha Hb Wa Wb; simpl in *; [by subst|].
  destruct es as [|e es], fs as [|f fs]; try done. destruct Ha as [Hv Ha], Hb as [Hv' Hb], Wa as [W Wa], Wb as [W' Wb].
  simpl. rewrite lex_compare_app_len.
  - rewrite (key_field_order _ _ _ _ _ Hv Hv' W W'). destruct (key_compare _ _ _); [|done..]. by apply IH.
  - pose proof (kw_width _ _ _ W). pose proof (kw_width _ _ _ W'). unfold zlen in *. lia.
Qed.

(** C30: the encoding of a declared key is its identity: it has the declared
    width, decodes back with whatever follows it, and byte order of two keys is
    the order of their fields in declaration order. *)
Theorem key_roundtrip_order ks a b rest :
  krow_ok ks a -> krow_ok ks b ->
  exists ea eb, encode a = Ok ea /\ encode b = Ok eb /\
  zlen ea = KEY_LEN (K := krow ks) /\ zlen eb = KEY_LEN (K := krow ks) /\
  decode (ea ++ rest) = Ok (krow_stored ks a) /\
  lex_compare ea eb = krow_compare ks a b.
Proof.
  intros Ha Hb. destruct (krow_roundtrip ks a Ha) as (es & Wa & Ea & La & Da).
  destruct (krow_roundtrip ks b Hb) as (fs & Wb & Eb & Lb & _).
  exists (concat es), (concat fs). split; [apply (Ea [])|]. split; [apply (Eb [])|]. do 2 (split; [done|]). split; [apply (Da [] rest)|]. by apply krow_order.
Qed.

(** ** Prefixes *)

Lemma krow_prefix_n_spec ks : forall n r es, krow_writes ks r es ->
  (forall buf, krow_prefix_n ks n r buf = Ok (buf ++ concat (take n es))) /\
  zlen (concat (take n es)) = fold_right (λ k n, key_width (kf_kind k) + n) 0 (take n ks).
Proof.
  induction ks as [|k ks IH]; intros [|n] r [|e es] W; try done; simpl.
  1-3: split; [intros buf; by rewrite app_nil_r|done].
  destruct W as [W Ws]. destruct (IH n r.2 es Ws) as [E L]. split.
  - intros buf. rewrite (kw_enc _ _ _ W). cbn [mbind outcome_bind]. by rewrite E, app_assoc.
  - by rewrite zlen_app, L, (kw_width _ _ _ W).
Qed.

Lemma krow_prefix_skip k ks (r : krow (k :: ks)) names : forall buf,
  kf_name k ∉ names -> krow_prefix_loop (k :: ks) r names buf = krow_prefix_loop ks r.2 names buf.
Proof.
  induction names as [|n names IH]; intros buf H; [done|]. apply not_elem_of_cons in H as [N H]. simpl.
  rewrite bool_decide_false by done. destruct (krow_arm ks r.2 n buf); [|done..]. cbn [mbind outcome_bind]. by apply IH.
Qed.

Lemma krow_width_skip k ks names :
  kf_name k ∉ names -> krow_prefix_width (k :: ks) names = krow_prefix_width ks names.
Proof.
  induction names as [|n names IH]; intros H; [done|]. apply not_elem_of_cons in H as [N H]. simpl.
  rewrite bool_decide_false by done. destruct (find _ ks); [|done]. cbn [or_panic mbind outcome_bind]. by rewrite IH.
Qed.

Lemma krow_prefix_named_spec ks : forall n r es, krow_writes ks r es -> NoDup (map kf_name ks) ->
  let names := map kf_name (take n ks) in
  (forall buf, krow_prefix_loop ks r names buf = Ok (buf ++ concat (take n es))) /\
  krow_prefix_width ks names = Ok (zlen (concat (take n es))).
Proof.
  induction ks as [|k ks IH]; intros [|n] r [|e es] W ND; try done; simpl.
  1-3: split; [intros buf; by rewrite app_nil_r|done].
  destruct W as [W Ws]. apply NoDup_cons in ND as [Nk ND]. destruct (IH n r.2 es Ws ND) as [E L].
  assert (kf_name k ∉ map kf_name (take n ks)) as Nt.
  { intros H. apply Nk. apply list_elem_of_fmap in H as (x & -> & Hx%elem_of_take). apply list_elem_of_fmap.
    exists x. split; [done|]. destruct Hx as (i & Hi & _). by eapply list_elem_of_lookup_2. }
  split.
  - intros buf. rewrite bool_decide_true by done. rewrite (kw_enc _ _ _ W). cbn [mbind outcome_bind].
    rewrite krow_prefix_skip by done. by rewrite E, app_assoc.
  - rewrite bool_decide_true by done. cbn [or_panic mbind outcome_bind]. rewrite krow_width_skip by done.
    rewrite L. cbn [mbind outcome_bind]. by rewrite zlen_app, (kw_width _ _ _ W).
Qed.

Lemma krow_prefix_n_next ks : forall n r k, ks !! n = Some k -> krow_ok ks r ->
  exists v, key_value_ok (kf_kind k) v /\
  forall buf, krow_prefix_n ks (S n) r buf = (b ← krow_prefix_n ks n r buf; key_enc (kf_kind k) v b).
Proof.
  induction ks as [|k0 ks IH]; intros [|n] r k Hk Hr; try done; simpl in Hk.
  - injection Hk as ->. destruct Hr as [Hv _]. exists r.1. split; [done|]. intros buf. simpl.
    destruct (key_enc (kf_kind k) r.1 buf); by destruct ks.
  - destruct Hr as [_ Hr]. destruct (IH n r.2 k Hk Hr) as (v & Hv & E). exists v. split; [done|]. intros buf. simpl.
    destruct (key_enc (kf_kind k0) r.1 buf); [|done..]. cbn [mbind outcome_bind]. apply E.
Qed.

(** Every way to ask for a leading part of a key writes the same leading
    bytes of its encoding: [encode_prefix_n], [encode_prefix_named] over the
    first names, and the typed builder, whose probes are exactly the
    declaration-order prefixes; the width is the one [prefix_width] states. *)
Theorem key_prefixes_agree ks r n buf :
  krow_ok ks r -> NoDup (map kf_name ks) -> (n <= length ks)%nat ->
  exists probe s, builds ks n probe /\ encode r = Ok (probe_bytes probe ++ s) /\
  krow_prefix_n ks n r buf = Ok (buf ++ probe_bytes probe) /\
  encode_prefix_named r buf (map kf_name (take n ks)) = Ok (buf ++ probe_bytes probe, taken probe) /\
  prefix_width_named (K := krow ks) (map kf_name (take n ks)) = Ok (taken probe).
Proof.
  intros Hr ND Hn. destruct (krow_roundtrip ks r Hr) as (es & W & E & _ & _).
  destruct (krow_prefix_n_spec ks n r es W) as [En _]. destruct (krow_prefix_named_spec ks n r es W ND) as [Em Ew].
  exists (mkProbe (concat (take n es))), (concat (drop n es)).
  assert (builds ks n (mkProbe (concat (take n es)))) as B.
  { clear buf En Em Ew E ND. induction n as [|n IH]; [constructor|].
    destruct (lookup_lt_is_Some_2 ks n Hn) as [k Hk]. destruct (krow_prefix_n_next ks n r k Hk Hr) as (v & _ & Ev).
    specialize (Ev []). destruct (krow_prefix_n_spec ks n r es W) as [En _].
    destruct (krow_prefix_n_spec ks (S n) r es W) as [En' _]. rewrite En, En' in Ev. cbn [mbind outcome_bind app] in Ev.
    eapply (build_field ks n (mkProbe (concat (take n es))) k v); [apply IH; lia|done|symmetry; exact Ev]. }
  split; [done|]. split; [simpl; rewrite E, <- concat_app, take_drop; done|]. split; [apply En|].
  split; [|exact Ew]. simpl. unfold krow_prefix_named. rewrite Em. cbn [mbind outcome_bind].
  do 2 f_equal. unfold taken. simpl. zlia.
Qed.

(** ** Fields by name *)

Lemma str_eq_spec a b : str_eq a b = bool_decide (a = b).
Proof.
  assert (forall a b, length a = length b -> str_eq_loop a b = bool_decide (a = b)) as L.
  { clear. induction a as [|x a IH]; intros [|y b] L; simpl in *; try done.
    destruct (Z.eqb_spec x y) as [->|N]; simpl.
    - rewrite IH by lia. apply bool_decide_ext. split; [by intros ->|by intros [= ->]].
    - symmetry. apply bool_decide_false. by intros [= ? _]. }
  unfold str_eq. destruct (Z.eqb_spec (zlen a) (zlen b)) as [E|N]; simpl.
  - apply L. unfold zlen in E. lia.
  - symmetry. apply bool_decide_false. by intros ->.
Qed.

(** The bytes of a declared field inside a key's encoding. *)
Fixpoint named_bytes (ks : list KeyField) (es : list bytes) (n : bytes) : bytes :=
  match ks, es with
  | k :: ks, e :: es => if bool_decide (kf_name k = n) then e else named_bytes ks es n
  | _, _ => []
  end.

Lemma write_named_spec ks n : forall r es pre rest buf w, krow_writes ks r es ->
  write_named (pre ++ concat es ++ rest) (FIELDS (K := krow ks)) (zlen pre) n buf w
  = Ok (buf ++ named_bytes ks es n, w + zlen (named_bytes ks es n)).
Proof.
  induction ks as [|k ks IH]; intros r [|e es] pre rest buf w W; try done; simpl.
  - by rewrite app_nil_r, zlen_nil, Z.add_0_r.
  - destruct W as [W Ws]. case_bool_decide.
    + rewrite <- app_assoc, <- (kw_width _ _ _ W), slice_app. done.
    + rewrite <- app_assoc, <- (kw_width _ _ _ W), <- zlen_app, app_assoc. by eapply (IH r.2).
Qed.

Lemma width_of_name_spec ks n : forall r es, krow_writes ks r es ->
  width_of_name (K := krow ks) n = zlen (named_bytes ks es n).
Proof.
  unfold width_of_name. induction ks as [|k ks IH]; intros r [|e es] W; try done. destruct W as [W Ws]. simpl.
  case_bool_decide; [by rewrite (kw_width _ _ _ W)|]. by eapply (IH r.2).
Qed.

Lemma fold_left_add {A} (f : A -> Z) l a : fold_left (λ t n, t + f n) l a = a + fold_right (λ n s, f n + s) 0 l.
Proof. revert a. induction l as [|x l IH]; intros a; simpl; [lia|]. rewrite IH. lia. Qed.

(** What [encode_field_named] writes. *)
Lemma encode_field_named_spec ks (r : krow ks) es names buf :
  krow_writes ks r es -> encode r = Ok (concat es) ->
  encode_field_named r buf names
  = Ok (buf ++ concat (map (named_bytes ks es) names), zlen (concat (map (named_bytes ks es) names))).
Proof.
  intros W E. unfold encode_field_named. rewrite E. cbn [mbind outcome_bind].
  assert (forall w, names_loop (K := krow ks) (concat es) names buf w
    = Ok (buf ++ concat (map (named_bytes ks es) names), w + zlen (concat (map (named_bytes ks es) names)))) as G.
  { revert buf. induction names as [|n names IH]; intros buf w; simpl; [by rewrite app_nil_r, zlen_nil, Z.add_0_r|].
    pose proof (write_named_spec ks n r es [] [] buf w W) as Wn. rewrite app_nil_r in Wn. cbn [app] in Wn.
    rewrite zlen_nil in Wn. simpl in Wn. rewrite Wn. cbn [mbind outcome_bind]. rewrite IH.
    do 2 f_equal; [by rewrite <- app_assoc|zlia]. }
  by rewrite G.
Qed.

(** What a client of an identity relies on: an accepted key has one encoding, of
    the declared width, that decodes back with whatever follows it.  [key_norm]
    is the key as it decodes. *)
Class KeyLaws (K : Type) `{KeyEncode K} : Type := {
  key_ok : K -> Prop;
  key_norm : K -> K;
  key_encodes k : key_ok k -> exists b, encode k = Ok b /\ zlen b = KEY_LEN (K := K) /\
    forall rest, decode (b ++ rest) = Ok (key_norm k);
  key_norm_encode k : key_ok k -> encode (key_norm k) = encode k;
  key_field_named k buf names : key_ok k -> exists x w, encode_field_named k buf names = Ok (buf ++ x, w)
}.

Lemma krow_stored_encode ks : forall r buf, krow_encode ks (krow_stored ks r) buf = krow_encode ks r buf.
Proof.
  induction ks as [|k ks IH]; intros r buf; [done|]. simpl.
  assert (key_enc (kf_kind k) (key_stored (kf_kind k) r.1) buf = key_enc (kf_kind k) r.1 buf) as ->
    by (destruct k as [? []]; done).
  destruct (key_enc (kf_kind k) r.1 buf); [|done..]. apply IH.
Qed.

#[export] Program Instance derived_key_laws ks : KeyLaws (krow ks) := { key_ok := krow_ok ks; key_norm := krow_stored ks }.
Next Obligation.
  intros ks k Hk. destruct (krow_roundtrip ks k Hk) as (es & _ & E & L & D).
  exists (concat es). split; [apply (E [])|]. split; [done|]. intros rest. apply (D [] rest).
Qed.
Next Obligation. intros ks k _. apply krow_stored_encode. Qed.
Next Obligation.
  intros ks k buf names Hk. destruct (krow_roundtrip ks k Hk) as (es & W & E & _).
  rewrite (encode_field_named_spec ks k es names buf W (E [])). by eexists _, _.
Qed.

#[export] Program Instance uuid_key_laws : KeyLaws Uuid :=
  { key_ok u := length (as_bytes u) = 16%nat; key_norm u := u }.
Next Obligation.
  intros [b] L. simpl in *. exists b. assert (zlen b = 16) as Z by (unfold zlen; rewrite L; done).
  split; [done|]. split; [done|]. intros rest. rewrite <- Z, slice_0_app. done.
Qed.
Next Obligation. done. Qed.
Next Obligation.
  intros [b] buf names L. unfold encode_field_named. cbn [encode uuid_key mbind outcome_bind as_bytes] in *.
  assert (zlen b = 16) as Z by (unfold zlen; rewrite L; done). generalize 0 as w. revert buf.
  induction names as [|n names IH]; intros buf w; simpl; [exists [], w; by rewrite app_nil_r|].
  case_bool_decide; cbn [mbind outcome_bind]; [|apply IH].
  pose proof (slice_0_app b []) as S. rewrite app_nil_r, Z in S. change (0 + 16) with 16. rewrite S. cbn [or_panic mbind outcome_bind].
  destruct (IH (buf ++ b) (w + 16)) as (x & w' & ->). exists (b ++ x), w'. by rewrite app_assoc.
Qed.

(** The segment of a lead face is a permutation of the key's own bytes: for
    any list of names, in any order, [encode_field_named] writes the bytes the
    key has for each of them, as many as [field_width_named] states; a name
    passes the compile-time check exactly when the key declares it. *)
Theorem lead_segment ks r names buf :
  krow_ok ks r ->
  exists es, krow_writes ks r es /\ encode r = Ok (concat es) /\
  encode_field_named r buf names
    = Ok (buf ++ concat (map (named_bytes ks es) names), field_width_named (K := krow ks) names) /\
  field_width_named (K := krow ks) names = zlen (concat (map (named_bytes ks es) names)) /\
  forall n, key_field_exists (FIELDS (K := krow ks)) n = true <-> n ∈ map kf_name ks.
Proof.
  intros Hr. destruct (krow_roundtrip ks r Hr) as (es & W & E & _ & _). exists es. split; [done|].
  split; [apply (E [])|].
  assert (field_width_named (K := krow ks) names = zlen (concat (map (named_bytes ks es) names))) as Lw.
  { unfold field_width_named. rewrite (fold_left_add (width_of_name (K := krow ks))), Z.add_0_l.
    induction names as [|n names IH]; [done|]. simpl. rewrite IH, (width_of_name_spec ks n r es W). zlia. }
  split; [|split; [done|]].
  - rewrite Lw. apply encode_field_named_spec; [done|apply (E [])].
  - intros n. clear. simpl. induction ks as [|k ks IH]; [simpl; rewrite elem_of_nil; done|]. simpl. rewrite str_eq_spec.
    rewrite elem_of_cons. case_bool_decide as B; [naive_solver|]. rewrite IH. naive_solver.
Qed.

(** ** Uuids *)

Lemma hex_nibble_digit x : 0 <= x < 16 -> hex_nibble (hex_digit x) = Some x /\ hex_digit x <> 45.
Proof.
  intros H. assert (forallb (λ x, bool_decide (hex_nibble (hex_digit x) = Some x) && negb (hex_digit x =? 45)) (seqZ 0 16) = true) as T
    by (vm_compute; reflexivity).
  pose proof (Z_range_forall _ _ _ T x ltac:(lia)) as E. simpl in E.
  rewrite andb_true_iff, bool_decide_eq_true, negb_true_iff, Z.eqb_neq in E. done.
Qed.

Lemma from_text_digits b : forall i pre m,
  bytes_ok b -> (length pre + m = 16)%nat -> (length b <= m)%nat ->
  from_text_loop (write_text_from i b) (pre ++ replicate m 0) (length pre) None
  = Some (pre ++ b ++ replicate (m - length b) 0, (length pre + length b)%nat, None).
Proof.
  induction b as [|x b IH]; intros i pre m Hb Hm Hl; [by rewrite Nat.add_0_r, Nat.sub_0_r|].
  apply Forall_cons in Hb as [Hx Hb]. unfold byte_ok in Hx. simpl in Hl.
  assert (0 <= x / 16 < 16) as H1 by (split; [apply Z.div_pos; lia|apply Z.div_lt_upper_bound; lia]).
  assert (0 <= x mod 16 < 16) as H2 by (apply Z.mod_pos_bound; lia).
  destruct (hex_nibble_digit _ H1) as [E1 N1]. destruct (hex_nibble_digit _ H2) as [E2 N2].
  assert (from_text_loop ([hex_digit (x / 16); hex_digit (x mod 16)] ++ write_text_from (S i) b)
    (pre ++ replicate m 0) (length pre) None
    = Some (pre ++ (x :: b) ++ replicate (m - length (x :: b)) 0, (length pre + length (x :: b))%nat, None)) as G.
  { cbn [app from_text_loop]. rewrite (proj2 (Z.eqb_neq _ _) N1), E1. cbn [mbind option_bind].
    rewrite (proj2 (Z.eqb_neq _ _) N2), E2. cbn [mbind option_bind].
    destruct (Nat.eqb_spec (length pre) 16); [lia|].
    replace (Z.lor (wrap 8 (Z.shiftl (x / 16) 4)) (x mod 16)) with x.
    - destruct m as [|m]; [lia|]. simpl replicate.
      replace (<[length pre:=x]> (pre ++ 0 :: replicate m 0)) with ((pre ++ [x]) ++ replicate m 0).
      + replace (S (length pre)) with (length (pre ++ [x])) by (rewrite length_app; simpl; lia).
        rewrite IH; [|done|rewrite length_app; simpl; lia|lia].
        rewrite length_app. simpl. rewrite <- app_assoc. do 3 f_equal. lia.
      + rewrite <- app_assoc. rewrite <- (Nat.add_0_r (length pre)). by rewrite insert_app_r.
    - rewrite wrap_small by (rewrite Z.shiftl_mul_pow2 by lia; lia). rewrite lor_shift_add by lia.
      pose proof (Z.div_mod x 16). lia. }
  cbn [write_text_from]. destruct (existsb (Nat.eqb i) [4%nat; 6%nat; 8%nat; 10%nat]); exact G.
Qed.

Lemma version_bits_app v ms tl :
  length ms = 6%nat -> exists tl', version_bits v (ms ++ tl) = ms ++ tl' /\ length tl' = length tl.
Proof.
  intros L. unfold version_bits, set_byte.
  assert (forall (f : Z -> Z) i l, alter f (6 + i)%nat (ms ++ l) = ms ++ alter f i l) as A
    by (intros f i l; rewrite <- L; apply alter_app_r).
  rewrite (A _ 0%nat). rewrite (A _ 2%nat). eexists. split; [done|]. by rewrite !length_alter.
Qed.

(** A version-7 uuid is sixteen bytes that sort by the millisecond it was
    minted at, whatever the random tail, and answer it back; past 2^48 the
    millisecond is cut.  The text form of any uuid parses back to its bytes. *)
Theorem uuid_identity rnd rnd' ms ms' b :
  length rnd = 10%nat -> length rnd' = 10%nat -> 0 <= ms < ms' -> ms' < 2 ^ 48 ->
  bytes_ok b -> length b = 16%nat ->
  Uuid7_with_millis rnd ms ≺ Uuid7_with_millis rnd' ms' /\
  length (Uuid7_with_millis rnd ms) = 16%nat /\ Uuid7_millis (Uuid7_with_millis rnd ms) = ms /\
  Uuid7_with_millis rnd (ms + 2 ^ 48) = Uuid7_with_millis rnd ms /\
  from_text (write_text b) = Some b.
Proof.
  intros L L' H H48 Hb Lb.
  assert (Uuid7_with_millis rnd (ms + 2 ^ 48) = Uuid7_with_millis rnd ms) as W.
  { unfold Uuid7_with_millis. change 8%nat with (2 + 6)%nat. rewrite !drop_be_bytes, <- (Z.mul_1_l (2 ^ 48)), Z.add_comm.
    change (2 ^ 48) with (256 ^ Z.of_nat 6). by rewrite be_bytes_add by lia. }
  unfold Uuid7_with_millis, Uuid7_millis in *. change 8%nat with (2 + 6)%nat in *. rewrite !drop_be_bytes in *.
  destruct (version_bits_app 0x70 (be_bytes 6 ms) rnd (be_bytes_length _ _)) as (t & E & Lt). rewrite E in *.
  destruct (version_bits_app 0x70 (be_bytes 6 ms') rnd' (be_bytes_length _ _)) as (t' & -> & Lt').
  split; [apply be_bytes_lt_app; simpl; lia|].
  split; [rewrite length_app, be_bytes_length; lia|].
  split.
  { rewrite take_be_bytes. change ([0; 0] ++ be_bytes 6 ms) with (0 :: 0 :: be_bytes 6 ms). rewrite !be_val_cons, !Z.mul_0_l.
    rewrite be_val_be_bytes_small by (simpl; lia). lia. }
  split; [done|].
  unfold from_text, write_text. pose proof (from_text_digits b 0 [] 16 Hb) as T. cbn [app length] in T.
  rewrite T by lia. rewrite Lb. cbn [mbind option_bind Nat.eqb Nat.add]. simpl. by rewrite app_nil_r.
Qed.

(** * Witnesses *)

Definition sample_key : list KeyField :=
  [mkKeyField [111] (KeyUInt 4); mkKeyField [117] (KeyUInt 2); mkKeyField [104] (KeyFixed 2)].

Definition sample_id : krow sample_key := (7, (300, ([9; 8], tt))).

Lemma sample_id_ok : krow_ok sample_key sample_id.
Proof. simpl. unfold key_value_ok, word_ok, bits. simpl. repeat split; first [lia | by vm_compute]. Qed.

Lemma key_roundtrip_order_witness :
  exists ea eb, encode sample_id = Ok ea /\ encode ((7, (301, ([0; 0], tt))) : krow sample_key) = Ok eb /\
  zlen ea = 8 /\ zlen eb = 8 /\ decode (ea ++ [1; 2; 3]) = Ok sample_id /\ lex_compare ea eb = Lt.
Proof.
  apply (key_roundtrip_order sample_key sample_id (7, (301, ([0; 0], tt))) [1; 2; 3] sample_id_ok).
  simpl. unfold key_value_ok, word_ok, bits. simpl. repeat split; first [lia | by vm_compute].
Defined.

Lemma key_prefixes_agree_witness :
  exists probe s, builds sample_key 2 probe /\ encode sample_id = Ok (probe_bytes probe ++ s) /\
  krow_prefix_n sample_key 2 sample_id [5] = Ok ([5] ++ probe_bytes probe) /\
  encode_prefix_named sample_id [5] [[111]; [117]] = Ok ([5] ++ probe_bytes probe, taken probe) /\
  prefix_width_named (K := krow sample_key) [[111]; [117]] = Ok (taken probe).
Proof.
  apply (key_prefixes_agree sample_key sample_id 2 [5] sample_id_ok); [|simpl; lia].
  apply (bool_decide_unpack _). by vm_compute.
Defined.

Lemma lead_segment_witness :
  exists es, krow_writes sample_key sample_id es /\ encode sample_id = Ok (concat es) /\
  encode_field_named sample_id [] [[104]; [111]]
    = Ok ([] ++ concat (map (named_bytes sample_key es) [[104]; [111]]), field_width_named (K := krow sample_key) [[104]; [111]]) /\
  field_width_named (K := krow sample_key) [[104]; [111]] = zlen (concat (map (named_bytes sample_key es) [[104]; [111]])) /\
  forall n, key_field_exists (FIELDS (K := krow sample_key)) n = true <-> n ∈ map kf_name sample_key.
Proof. apply (lead_segment sample_key sample_id [[104]; [111]] [] sample_id_ok). Defined.

Lemma uuid_identity_witness :
  Uuid7_with_millis (replicate 10 255) 1000 ≺ Uuid7_with_millis (replicate 10 0) 2000 /\
  from_text (write_text (replicate 16 171)) = Some (replicate 16 171).
Proof.
  destruct (uuid_identity (replicate 10 255) (replicate 10 0) 1000 2000 (replicate 16 171)) as (A & _ & _ & _ & B);
    try done; try lia.
  apply (bool_decide_unpack _). by vm_compute.
Defined.
