(* ===== verification/Index.v ===== *)
(** * Access methods (okm-core, [model/index.rs]; okm-derive,
    [document_encode.rs])

    [KvIndex] is the trait of one access method, with its default methods: the
    entry key [[ns][slot][fields][key tail]], the entry value, the fan-out of a
    function index, and the scans.  [derived_index] and [derived_lead] are the
    implementations the derive emits for a declaration, [index_entries] the list
    of everything a document contributes.

    The theorems: entries are where scans look for them and name their row, an
    equality scan answers exactly the rows whose segment is the probe and a
    prefix scan exactly those whose segment extends it, although the engine sees
    only key bytes; no two rows share an entry. *)
From S2P Require Import Prelude Errors Storage Slots Vocab Fields Payload Keys.

(** A call that can only panic, among calls that can fail. *)
Definition liftp {E A} (o : outcome unit A) : outcome E A :=
  match o with Ok a => Ok a | _ => Panic end.

(** ** The trait *)

Record KvIndex (K R : Type) : Type := mkIndex {
  SLOT : Slot;
  ix_fields : list bytes;
  INCLUDES : list bytes;
  KEY_PREFIX : list bytes;
  ix_encode_named : K -> R -> list bytes -> bytes -> outcome unit bytes;
  admits : R -> bool;
  (** the declared function of a function index *)
  FUNC : option (R -> list index_value)
}.
Arguments SLOT {K R} _.
Arguments ix_fields {K R} _.
Arguments INCLUDES {K R} _.
Arguments KEY_PREFIX {K R} _.
Arguments ix_encode_named {K R} _.
Arguments admits {K R} _.
Arguments FUNC {K R} _.

Record PrefixKey (K : Type) : Type := mkPrefixKey { pk_decoded : K; pk_taken : Z }.
Arguments mkPrefixKey {K} _ _.
Arguments pk_decoded {K} _.
Arguments pk_taken {K} _.

Section Index.
Context {K R : Type} `{KeyEncode K}.

Definition fields_bytes (ix : KvIndex K R) (key : K) (document : R) : outcome unit bytes :=
  ix_encode_named ix key document (ix_fields ix) [].

Definition key_prefix_width (ix : KvIndex K R) : outcome unit Z :=
  match KEY_PREFIX ix with [] => Ok (KEY_LEN (K := K)) | names => prefix_width_named (K := K) names end.

Definition write_key_prefix (ix : KvIndex K R) (key : K) (buf : bytes) : outcome unit bytes :=
  match KEY_PREFIX ix with
  | [] => encode_into key buf
  | names => '(buf, _) ← encode_prefix_named key buf names; Ok buf
  end.

Definition entry_key_with (ix : KvIndex K R) (ns_prefix : bytes) (key : K)
    (write_segment : bytes -> outcome unit bytes) : outcome unit bytes :=
  buf ← write_slot ns_prefix (SLOT ix);
  buf ← write_segment buf;
  write_key_prefix ix key buf.

Definition entry_key (ix : KvIndex K R) (ns_prefix : bytes) (key : K) (document : R) : outcome unit bytes :=
  entry_key_with ix ns_prefix key (ix_encode_named ix key document (ix_fields ix)).

Definition entry_value (ix : KvIndex K R) (key : K) (document : R) : outcome unit bytes :=
  match INCLUDES ix with [] => Ok [] | names => ix_encode_named ix key document names [] end.

(** The fan-out of a function index. *)
Fixpoint func_entries (ix : KvIndex K R) (ns_prefix : bytes) (key : K) (value : bytes) (segs : list bytes)
    : outcome unit (list (bytes * bytes)) :=
  match segs with
  | [] => Ok []
  | seg :: segs =>
      k ← write_slot ns_prefix (SLOT ix);
      k ← write_key_prefix ix key (k ++ seg);
      rest ← func_entries ix ns_prefix key value segs;
      Ok ((k, value) :: rest)
  end.

(** [entry_pairs]: the trait's body, and the override of a function index. *)
Definition entry_pairs (ix : KvIndex K R) (ns_prefix : bytes) (key : K) (document : R)
    : outcome unit (list (bytes * bytes)) :=
  if negb (admits ix document) then Ok []
  else
    match FUNC ix with
    | None =>
        k ← entry_key ix ns_prefix key document; v ← entry_value ix key document; Ok [(k, v)]
    | Some func =>
        let segs := result_segments (func document) in
        value ← entry_value ix key document;
        func_entries ix ns_prefix key value segs
    end.

(** The segments a row is entered under. *)
Definition segments_of (ix : KvIndex K R) (k : K) (r : R) : list bytes :=
  if negb (admits ix r) then []
  else match FUNC ix with
       | None => match fields_bytes ix k r with Ok b => [b] | _ => [] end
       | Some func => result_segments (func r)
       end.

Definition entry_prefix (ix : KvIndex K R) (ns_prefix encoded : bytes) : outcome unit bytes :=
  buf ← write_slot ns_prefix (SLOT ix); Ok (buf ++ encoded).

(** ** Scans *)

(** The identity behind an entry's tail; a truncated one is zero-filled. *)
Definition decode_tail (taken : Z) (suffix : bytes) : outcome unit K :=
  tl ← or_panic (slice suffix (zlen suffix - taken) (zlen suffix));
  if taken =? KEY_LEN (K := K) then decode tl
  else decode (tl ++ replicate (Z.to_nat (KEY_LEN (K := K) - taken)) 0).

Fixpoint filter_suffixes (exact : bool) (taken : Z) (suffixes : list bytes)
    : outcome unit (list (PrefixKey K)) :=
  match suffixes with
  | [] => Ok []
  | suffix :: suffixes =>
      if (if exact then zlen suffix =? taken else taken <=? zlen suffix) then
        d ← decode_tail taken suffix;
        rest ← filter_suffixes exact taken suffixes;
        Ok (mkPrefixKey d taken :: rest)
      else filter_suffixes exact taken suffixes
  end.

Definition scan_index_filtered {S} `{VirtualStorage S} (store : S) (ix : KvIndex K R)
    (ns_prefix encoded : bytes) (exact : bool) : result (list (PrefixKey K)) :=
  p ← liftp (entry_prefix ix ns_prefix encoded);
  taken ← liftp (key_prefix_width ix);
  suffixes ← vs_scan_suffix store p;
  liftp (filter_suffixes exact taken suffixes).

Definition scan_index {S} `{VirtualStorage S} (store : S) (ix : KvIndex K R) (ns_prefix encoded : bytes) :=
  scan_index_filtered store ix ns_prefix encoded false.

Definition scan_index_exact {S} `{VirtualStorage S} (store : S) (ix : KvIndex K R) (ns_prefix encoded : bytes) :=
  scan_index_filtered store ix ns_prefix encoded true.
End Index.

(** ** What the derive emits

    One [#[ok_index]] or [#[ok_lead]] declaration. *)
Record IdxDecl (R : Type) : Type := mkIdx {
  idx_name : bytes;
  idx_fields : list bytes;
  idx_includes : list bytes;
  idx_key : list bytes;
  (** the function, and its text in the declaration *)
  idx_func : option (R -> list index_value);
  idx_func_text : bytes;
  idx_filter : option (R -> bool);
  idx_deprecated : bool
}.
Arguments idx_name {R} _.
Arguments idx_func_text {R} _.
Arguments idx_fields {R} _.
Arguments idx_includes {R} _.
Arguments idx_key {R} _.
Arguments idx_func {R} _.
Arguments idx_filter {R} _.
Arguments idx_deprecated {R} _.

(** [declared_slot]: [None] is the expansion error. *)
Definition declared_slot (base : Slot) (n : Z) : option Slot :=
  if 0x0FFF <=? n then None else Some (base + n).

Definition INDEX_BASE : Slot := 0x3001.
Definition REDUCE_BASE : Slot := 0x4001.
Definition LEAD_BASE : Slot := 0x5001.

Section Derived.
Context {K : Type} `{KeyEncode K}.
Variables (p : profile) (fs : list FieldSchema).

Definition derived_index (slot : Slot) (d : IdxDecl (row fs)) : KvIndex K (row fs) := {|
  SLOT := slot;
  ix_fields := idx_fields d;
  INCLUDES := idx_includes d;
  KEY_PREFIX := idx_key d;
  ix_encode_named _ document names buf :=
    match idx_func d with
    | None => encode_named p fs document names buf
    | Some f =>
        match result_segments (f document) with seg :: _ => Ok (buf ++ seg) | [] => Ok buf end
    end;
  admits document := match idx_filter d with Some f => f document | None => true end;
  FUNC := idx_func d
|}.

Definition derived_lead {R} (slot : Slot) (d : IdxDecl R) : KvIndex K R := {|
  SLOT := slot;
  ix_fields := idx_fields d;
  INCLUDES := [];
  KEY_PREFIX := idx_key d;
  ix_encode_named key _ names buf := '(buf, _) ← encode_field_named key buf names; Ok buf;
  admits _ := true;
  FUNC := None
|}.

(** [entry_pairs_key_only] of a lead face. *)
Definition entry_pairs_key_only {R} (slot : Slot) (d : IdxDecl R) (ns_prefix : bytes) (key : K)
    : outcome unit (list (bytes * bytes)) :=
  entry ← entry_key_with (derived_lead slot d) ns_prefix key
            (λ buf, '(buf, _) ← encode_field_named key buf (idx_fields d); Ok buf);
  Ok [(entry, [])].

(** The declarations of one family with their slots, deprecated ones included;
    [None] is the expansion error of too many declarations. *)
Fixpoint slotted {R} (base : Slot) (n : Z) (ds : list (IdxDecl R)) : option (list (Slot * IdxDecl R)) :=
  match ds with
  | [] => Some []
  | d :: ds => slot ← declared_slot base n; rest ← slotted base (n + 1) ds; Some ((slot, d) :: rest)
  end.

(** The declarations that write entries. *)
Definition live {R} (ds : list (Slot * IdxDecl R)) : list (Slot * IdxDecl R) :=
  List.filter (λ sd, negb (idx_deprecated sd.2)) ds.

(** The entries one after the other, over the live declarations. *)
Fixpoint entries_of {A} (f : A -> outcome unit (list (bytes * bytes))) (l : list A)
    : outcome unit (list (bytes * bytes)) :=
  match l with
  | [] => Ok []
  | x :: l => e ← f x; rest ← entries_of f l; Ok (e ++ rest)
  end.

(** [Document::key_entries] and [Document::index_entries]. *)
Definition key_entries {R} (leads : list (Slot * IdxDecl R)) (key : K) (ns : bytes)
    : outcome unit (list (bytes * bytes)) :=
  entries_of (λ sd, entry_pairs_key_only sd.1 sd.2 ns key) leads.

Definition index_entries (leads indexes : list (Slot * IdxDecl (row fs))) (key : K) (document : row fs)
    (ns : bytes) : outcome unit (list (bytes * bytes)) :=
  out ← key_entries leads key ns;
  more ← entries_of (λ sd, entry_pairs (derived_index sd.1 sd.2) ns key document) indexes;
  Ok (out ++ more).
End Derived.

(** * Lemmas *)

Section Laws.
Context {K R : Type} `{KeyLaws K}.

(** The tail of an entry that carries the whole key. *)
Lemma decode_tail_spec seg k b :
  key_ok k -> encode k = Ok b ->
  decode_tail (K := K) (KEY_LEN (K := K)) (seg ++ b) = Ok (key_norm k) /\ zlen b = KEY_LEN (K := K).
Proof.
  intros Hk Eb. destruct (key_encodes k Hk) as (b' & E & L & D). rewrite Eb in E. injection E as <-.
  split; [|done]. unfold decode_tail. rewrite zlen_app, L.
  replace (zlen seg + KEY_LEN (K := K) - KEY_LEN (K := K)) with (zlen seg) by lia. rewrite <- L, <- zlen_app, slice_all_from.
  cbn [or_panic mbind outcome_bind]. rewrite L, Z.eqb_refl. specialize (D []). by rewrite app_nil_r in D.
Qed.

(** A store whose entries under one slot all name accepted keys. *)
Definition indexed (m : gmap bytes bytes) (prefix : bytes) : Prop :=
  forall t, is_Some (m !! (prefix ++ t)) -> exists seg k b, key_ok k /\ encode k = Ok b /\ t = seg ++ b.

(** What passes the length test of a scan, decoded. *)
Lemma filter_suffixes_spec (exact : bool) (l : list bytes) :
  (forall t, t ∈ l -> (if exact then zlen t =? KEY_LEN (K := K) else KEY_LEN (K := K) <=? zlen t) = true ->
    exists ext k b, key_ok k /\ encode k = Ok b /\ t = ext ++ b) ->
  exists pks, filter_suffixes (K := K) exact (KEY_LEN (K := K)) l = Ok pks /\
  forall pk, pk ∈ pks <-> exists ext k b, key_ok k /\ encode k = Ok b /\ ext ++ b ∈ l /\
    (exact = true -> ext = []) /\ pk = mkPrefixKey (key_norm k) (KEY_LEN (K := K)).
Proof.
  induction l as [|t l IH]; intros Hl; simpl.
  - exists []. split; [done|]. intros pk. rewrite elem_of_nil. split; [done|]. by intros (? & ? & ? & _ & _ & ?%elem_of_nil & _).
  - destruct IH as (pks & E & Hpks); [intros t' Ht'; apply Hl; by right|].
    destruct (if exact then _ else _) eqn:T.
    + destruct (Hl t) as (ext & k & b & Hk & Eb & ->); [by left|done|].
      destruct (decode_tail_spec ext k b Hk Eb) as [Ed Lb]. rewrite Ed. cbn [mbind outcome_bind]. rewrite E.
      cbn [mbind outcome_bind]. eexists. split; [done|]. intros pk. rewrite elem_of_cons, Hpks. split.
      * intros [->|(e & k' & b' & ? & ? & ? & ?)].
        -- exists ext, k, b. do 2 (split; [done|]). split; [by left|]. split; [|done]. intros ->.
           rewrite zlen_app, Lb in T. apply Z.eqb_eq in T. assert (zlen ext = 0) as Z0 by lia.
           destruct ext; [done|]. rewrite zlen_cons in Z0. pose proof (zlen_nonneg ext). lia.
        -- exists e, k', b'. do 2 (split; [done|]). split; [by right|done].
      * intros (e & k' & b' & Hk' & Eb' & Hin & Hex & ->). apply elem_of_cons in Hin as [EQ|Hin].
        -- left. destruct (decode_tail_spec e k' b' Hk' Eb') as [Ed' _]. rewrite EQ, Ed in Ed'. by injection Ed' as ->.
        -- right. by exists e, k', b'.
    + exists pks. split; [done|]. intros pk. rewrite Hpks. split.
      * intros (e & k' & b' & ? & ? & ? & ?). exists e, k', b'. do 2 (split; [done|]). split; [by right|done].
      * intros (e & k' & b' & Hk' & Eb' & Hin & Hex & ->). apply elem_of_cons in Hin as [EQ|Hin]; [|by exists e, k', b'].
        exfalso. destruct (decode_tail_spec e k' b' Hk' Eb') as [_ Lb]. subst t. rewrite zlen_app, Lb in T.
        destruct exact; [rewrite Hex in T by done; apply Z.eqb_neq in T; rewrite zlen_nil in T; lia|].
        apply Z.leb_gt in T. pose proof (zlen_nonneg e). lia.
Qed.

(** Among the suffixes behind a probe, those the length test keeps end with an
    accepted key that stands wholly behind the probe. *)
Lemma indexed_hits (m : gmap bytes bytes) pre probe (exact : bool) t :
  indexed m pre -> t ∈ map fst (carried_pairs m (pre ++ probe)) ->
  (if exact then zlen t =? KEY_LEN (K := K) else KEY_LEN (K := K) <=? zlen t) = true ->
  exists ext k b, key_ok k /\ encode k = Ok b /\ t = ext ++ b.
Proof.
  intros Hix Ht T. apply elem_of_carried in Ht. rewrite <- app_assoc in Ht.
  destruct (Hix _ Ht) as (seg & k & b & Hk & Eb & Et). destruct (decode_tail_spec seg k b Hk Eb) as [_ Lb].
  assert (length b <= length t)%nat as L.
  { unfold zlen in *. destruct exact; [apply Z.eqb_eq in T|apply Z.leb_le in T]; lia. }
  exists (take (length t - length b) t), k, b. do 2 (split; [done|]).
  rewrite <- (take_drop (length t - length b) t) at 1. f_equal.
  pose proof (f_equal length Et) as LE. rewrite !length_app in LE.
  pose proof (f_equal (drop (length probe + (length t - length b))) Et) as DE.
  rewrite drop_app_ge in DE by lia. rewrite drop_app_length' in DE by lia. etransitivity; [|exact DE]. f_equal. lia.
Qed.

(** What a scan answers: the rows that have an entry whose segment starts with
    the probe, or is the probe. *)
Lemma scan_filtered_spec {S} `{ReliableStorage S} (store : S) (ix : KvIndex K R) ns probe (exact : bool) :
  slot_ok (SLOT ix) -> KEY_PREFIX ix = [] -> bytes_ok (ns ++ slot_bytes (SLOT ix) ++ probe) ->
  long_keys (contents store) (ns ++ slot_bytes (SLOT ix) ++ probe) ->
  indexed (contents store) (ns ++ slot_bytes (SLOT ix)) ->
  exists pks, scan_index_filtered store ix ns probe exact = Ok pks /\
  forall pk, pk ∈ pks <-> exists ext k b, key_ok k /\ encode k = Ok b /\ (exact = true -> ext = []) /\
    is_Some (contents store !! (ns ++ slot_bytes (SLOT ix) ++ probe ++ ext ++ b)) /\
    pk = mkPrefixKey (key_norm k) (KEY_LEN (K := K)).
Proof.
  intros Hs Hp Hb Hlong Hix. set (pre := ns ++ slot_bytes (SLOT ix)) in *. rewrite app_assoc in Hb, Hlong. fold pre in Hb, Hlong.
  set (m := contents store) in *. destruct (scans_carried store (pre ++ probe) Hb Hlong) as (_ & Sc & _). fold m in Sc.
  destruct (filter_suffixes_spec exact (map fst (carried_pairs m (pre ++ probe)))) as (pks & E & Hpks).
  { intros t Ht T. by apply (indexed_hits m pre probe exact t). }
  exists pks. split.
  - unfold scan_index_filtered, entry_prefix, key_prefix_width. rewrite Hp, write_slot_ok by done.
    cbn [mbind outcome_bind liftp]. fold pre. rewrite Sc. cbn [mbind outcome_bind]. rewrite E. done.
  - intros pk. rewrite Hpks. unfold pre. split.
    + intros (ext & k & b & Hk & Eb & Hin & Hex & ->). exists ext, k, b. do 3 (split; [done|]). split; [|done].
      apply elem_of_carried in Hin. by rewrite <- !app_assoc in Hin.
    + intros (ext & k & b & Hk & Eb & Hex & Hin & ->). exists ext, k, b. do 2 (split; [done|]). split; [|done].
      apply elem_of_carried. by rewrite <- !app_assoc.
Qed.

(** The scans of an access method answer by value although the engine sees
    only bytes.  On a store whose entries under the slot name accepted keys, the
    equality scan answers exactly the rows that have an entry whose segment is
    the probe, and the prefix scan exactly the rows that have an entry whose
    segment starts with it: an entry whose probe bytes were met by the bytes of
    its primary key is never answered. *)
Theorem scan_index_sound_complete {S} `{ReliableStorage S} (store : S) (ix : KvIndex K R) ns probe (exact : bool) :
  slot_ok (SLOT ix) -> KEY_PREFIX ix = [] -> bytes_ok (ns ++ slot_bytes (SLOT ix) ++ probe) ->
  long_keys (contents store) (ns ++ slot_bytes (SLOT ix) ++ probe) ->
  indexed (contents store) (ns ++ slot_bytes (SLOT ix)) ->
  exists pks, (if exact then scan_index_exact store ix ns probe else scan_index store ix ns probe) = Ok pks /\
  forall k b, key_ok k -> encode k = Ok b ->
  (mkPrefixKey (key_norm k) (KEY_LEN (K := K)) ∈ pks <->
   exists ext, (exact = true -> ext = []) /\
   is_Some (contents store !! (ns ++ slot_bytes (SLOT ix) ++ probe ++ ext ++ b))).
Proof.
  intros Hs Hp Hb Hlong Hix. destruct (scan_filtered_spec store ix ns probe exact Hs Hp Hb Hlong Hix) as (pks & E & Hpks).
  exists pks. split; [by destruct exact|]. intros k b Hk Eb. rewrite Hpks. split.
  - intros (ext & k' & b' & Hk' & Eb' & Hex & Hin & [= EN]). exists ext. split; [done|].
    pose proof (key_norm_encode k Hk) as N. rewrite EN, key_norm_encode in N by done.
    assert (b' = b) as -> by congruence. done.
  - intros (ext & Hex & Hin). by exists ext, k, b.
Qed.
End Laws.

(** ** Entries of a derived document *)

Section Shape.
Context {K : Type} `{KeyLaws K}.
Variables (p : profile) (fs : list FieldSchema).

(** An entry of the row [k]: a declared slot, a segment, the whole key. *)
Definition entry_of (slots : list Slot) (h : bytes) (k : K) (e : bytes * bytes) : Prop :=
  exists s x b, s ∈ slots /\ encode k = Ok b /\ e.1 = h ++ slot_bytes s ++ x ++ b.

(** A declaration whose entries carry the whole key and whose fields the payload
    declares; [func] and [includes] exclude each other. *)
Definition decl_ok (sd : Slot * IdxDecl (row fs)) : Prop :=
  slot_ok sd.1 /\ 0x1000 <= sd.1 /\ idx_key sd.2 = [] /\
  match idx_func sd.2 with
  | None => located fs (idx_fields sd.2) /\ located fs (idx_includes sd.2)
  | Some _ => idx_includes sd.2 = []
  end.

Definition lead_ok {R} (sd : Slot * IdxDecl R) : Prop :=
  slot_ok sd.1 /\ 0x1000 <= sd.1 /\ idx_key sd.2 = [].

Lemma entries_of_shape {A} (f : A -> outcome unit (list (bytes * bytes))) (P : bytes * bytes -> Prop) l :
  (forall x, x ∈ l -> exists es, f x = Ok es /\ Forall P es) ->
  exists es, entries_of f l = Ok es /\ Forall P es.
Proof.
  induction l as [|x l IH]; intros Hl; [by exists []|]. destruct (Hl x) as (e & E & Pe); [by left|].
  destruct IH as (es & Es & Pes); [intros y Hy; apply Hl; by right|]. simpl. rewrite E. cbn [mbind outcome_bind].
  rewrite Es. exists (e ++ es). split; [done|]. by apply Forall_app.
Qed.

Lemma whole_key_tail {R} (ix : KvIndex K R) k b buf :
  KEY_PREFIX ix = [] -> encode k = Ok b -> write_key_prefix ix k buf = Ok (buf ++ b).
Proof. intros Hp E. unfold write_key_prefix, encode_into. by rewrite Hp, E. Qed.

Lemma key_entries_shape {R} (leads : list (Slot * IdxDecl R)) k h :
  key_ok k -> Forall lead_ok leads ->
  exists es, key_entries leads k h = Ok es /\ Forall (entry_of (map fst leads) h k) es.
Proof.
  intros Hk Hl. apply entries_of_shape. intros [s d] Hin. rewrite Forall_forall in Hl.
  destruct (Hl _ Hin) as (Hs & Hc & Hkey). simpl in *. destruct (key_encodes k Hk) as (b & E & _).
  unfold entry_pairs_key_only, entry_key_with. cbn [SLOT derived_lead]. rewrite write_slot_ok by done.
  cbn [mbind outcome_bind]. destruct (key_field_named k (h ++ slot_bytes s) (idx_fields d) Hk) as (x & w & ->).
  cbn [mbind outcome_bind]. rewrite (whole_key_tail _ k b) by done. cbn [mbind outcome_bind].
  eexists. split; [done|]. repeat constructor. exists s, x, b. split; [apply list_elem_of_fmap; by exists (s, d)|].
  simpl. by rewrite <- !app_assoc.
Qed.

Lemma func_entries_shape (ix : KvIndex K (row fs)) slots h k b v segs :
  slot_ok (SLOT ix) -> SLOT ix ∈ slots -> KEY_PREFIX ix = [] -> encode k = Ok b ->
  exists es, func_entries ix h k v segs = Ok es /\ Forall (entry_of slots h k) es.
Proof.
  intros Hs Hc Hp E. induction segs as [|seg segs (es & Es & F)]; [by exists []|]. simpl.
  rewrite write_slot_ok by done. cbn [mbind outcome_bind]. rewrite (whole_key_tail ix k b) by done.
  cbn [mbind outcome_bind]. rewrite Es. eexists. split; [done|]. constructor; [|done].
  exists (SLOT ix), seg, b. simpl. by rewrite <- !app_assoc.
Qed.

Lemma entry_value_ok s d (k : K) r :
  row_ok fs r -> idx_func d = None -> located fs (idx_includes d) ->
  exists v, entry_value (derived_index p fs s d) k r = Ok v.
Proof.
  intros Hr Ef Li. unfold entry_value. simpl. rewrite Ef. destruct (encode_named_spec p fs r _ Hr Li) as (y & ws & Ey & _).
  destruct (idx_includes d); [by exists []|]. exists y. apply (Ey []).
Qed.

Lemma elem_of_entries {A} (f : A -> outcome unit (list (bytes * bytes))) e l : forall es,
  entries_of f l = Ok es -> (e ∈ es <-> exists x ea, x ∈ l /\ f x = Ok ea /\ e ∈ ea).
Proof.
  induction l as [|x l IH]; intros es E; simpl in E.
  - injection E as <-. split; [by intros ?%elem_of_nil|]. by intros (x & ea & ?%elem_of_nil & _).
  - destruct (f x) as [ex| |] eqn:Ex; [|done..]. cbn [mbind outcome_bind] in E.
    destruct (entries_of f l) as [rest| |]; [|done..]. injection E as <-. rewrite elem_of_app, (IH rest eq_refl). split.
    + intros [Hin|(y & ea & Hy & Ey & Hin)]; [exists x, ex; split; [by left|done]|exists y, ea; split; [by right|done]].
    + intros (y & ea & [->|Hy]%elem_of_cons & Ey & Hin); [left; congruence|right; by exists y, ea].
Qed.

Lemma func_entries_keys (ix : KvIndex K (row fs)) h k b v segs : forall es,
  slot_ok (SLOT ix) -> KEY_PREFIX ix = [] -> encode k = Ok b -> func_entries ix h k v segs = Ok es ->
  map fst es = map (λ seg, h ++ slot_bytes (SLOT ix) ++ seg ++ b) segs.
Proof.
  induction segs as [|seg segs IH]; intros es Hs Hp E Es; simpl in Es; [by injection Es as <-|].
  rewrite write_slot_ok in Es by done. cbn [mbind outcome_bind] in Es. rewrite (whole_key_tail ix k b) in Es by done.
  cbn [mbind outcome_bind] in Es. destruct (func_entries ix h k v segs) as [rest| |] eqn:Er; [|done..].
  injection Es as <-. simpl. rewrite (IH rest) by done. by rewrite <- !app_assoc.
Qed.

(** The keys of a row's entries under one index. *)
Lemma entry_pairs_keys s d k r b h es :
  decl_ok (s, d) -> row_ok fs r -> encode k = Ok b -> entry_pairs (derived_index p fs s d) h k r = Ok es ->
  map fst es = map (λ seg, h ++ slot_bytes s ++ seg ++ b) (segments_of (derived_index p fs s d) k r).
Proof.
  intros (Hs & _ & Hkey & Hd) Hr Eb E. cbn [fst snd] in *. unfold entry_pairs, segments_of in *.
  destruct (negb _); [by injection E as <-|]. simpl FUNC in *. destruct (idx_func d) as [f|] eqn:Ef.
  - destruct (entry_value _ k r) as [v| |]; [|done..]. cbn [mbind outcome_bind] in E.
    by apply (func_entries_keys _ h k b) in E.
  - destruct Hd as [Lf _]. destruct (encode_named_spec p fs r _ Hr Lf) as (x & vs & Ex & _).
    unfold entry_key, entry_key_with, fields_bytes in *. simpl SLOT in *. rewrite write_slot_ok in E by done.
    cbn [mbind outcome_bind] in E. simpl ix_encode_named in *. simpl ix_fields in *. rewrite Ef in *. rewrite Ex in *.
    cbn [mbind outcome_bind] in E. rewrite (whole_key_tail _ k b) in E by done. cbn [mbind outcome_bind] in E.
    destruct (entry_value _ k r) as [v| |]; [|done..]. injection E as <-. simpl. by rewrite <- !app_assoc.
Qed.

(** Every entry a document contributes is one of its row's. *)
Lemma index_entries_shape leads indexes k r h :
  key_ok k -> row_ok fs r -> Forall lead_ok leads -> Forall decl_ok indexes ->
  exists es, index_entries p fs leads indexes k r h = Ok es /\
  Forall (entry_of (map fst leads ++ map fst indexes) h k) es.
Proof.
  intros Hk Hr Hl Hi. destruct (key_entries_shape leads k h Hk Hl) as (es & E & F).
  destruct (key_encodes k Hk) as (b & Eb & _). unfold index_entries. rewrite E. cbn [mbind outcome_bind].
  destruct (entries_of_shape (λ sd, entry_pairs (derived_index p fs sd.1 sd.2) h k r) (entry_of (map fst indexes) h k) indexes)
    as (es' & E' & F').
  2:{ rewrite E'. eexists. split; [done|]. apply Forall_app. split.
      - eapply Forall_impl; [exact F|]. intros e (s & x & b' & ? & ?). exists s, x, b'. split; [|done]. apply elem_of_app. by left.
      - eapply Forall_impl; [exact F'|]. intros e (s & x & b' & ? & ?). exists s, x, b'. split; [|done]. apply elem_of_app. by right. }
  intros [s d] Hin. rewrite Forall_forall in Hi. destruct (Hi _ Hin) as (Hs & Hc & Hkey & Hd).
  assert (s ∈ map fst indexes) as Hslot by (apply list_elem_of_fmap; by exists (s, d)). simpl in *.
  unfold entry_pairs. destruct (admits _ _); [|by exists []]. cbn [negb]. simpl FUNC.
  destruct (idx_func d) as [f|] eqn:Ef.
  - unfold entry_value. simpl INCLUDES. rewrite Hd. cbn [mbind outcome_bind]. by apply (func_entries_shape _ _ h k b).
  - destruct Hd as [Lf Li]. unfold entry_key, entry_key_with. simpl SLOT. rewrite write_slot_ok by done.
    cbn [mbind outcome_bind]. simpl ix_encode_named. simpl ix_fields. rewrite Ef.
    destruct (encode_named_spec p fs r _ Hr Lf) as (x & vs & Ex & _). rewrite Ex. cbn [mbind outcome_bind].
    rewrite (whole_key_tail _ k b) by done. cbn [mbind outcome_bind].
    destruct (entry_value_ok s d k r Hr Ef Li) as [v ->]. cbn [mbind outcome_bind].
    eexists. split; [done|]. repeat constructor. exists s, x, b. split; [done|]. simpl. by rewrite <- !app_assoc.
Qed.
End Shape.

(** * Witness

    One row, indexed by its string under slot 0x3001. *)
Definition sample_decl : IdxDecl (row (fields sample_schema)) :=
  mkIdx _ [105] [[98]] [[97]] [] None [] None false.

Definition sample_index : KvIndex (krow sample_key) (row (fields sample_schema)) :=
  derived_index Debug (fields sample_schema) 0x3001 sample_decl.

Definition sample_entry : bytes := [0; 33; 0x30; 1] ++ [104; 105] ++ [0; 0; 0; 7; 1; 44; 9; 8].

Definition sample_indexed : MemStore := <[ sample_entry := [1; 44] ]> (∅ : gmap bytes bytes).

Lemma sample_indexed_long : long_keys (contents sample_indexed) ([0; 33] ++ slot_bytes (SLOT sample_index) ++ [104; 105]).
Proof.
  intros k Hk. change (contents sample_indexed) with (<[ sample_entry := [1; 44] ]> (∅ : gmap bytes bytes)) in Hk.
  apply lookup_insert_is_Some in Hk as [<-|[_ Hk]]; [|by destruct Hk].
  split; [apply (bool_decide_unpack _); by vm_compute|]. intros _. apply Nat.leb_le. by vm_compute.
Qed.

Lemma sample_indexed_names : indexed (K := krow sample_key) (contents sample_indexed) ([0; 33] ++ slot_bytes (SLOT sample_index)).
Proof.
  intros t Ht. change (contents sample_indexed) with (<[ sample_entry := [1; 44] ]> (∅ : gmap bytes bytes)) in Ht.
  apply lookup_insert_is_Some in Ht as [EQ|[_ Ht]]; [|by destruct Ht].
  exists [104; 105], sample_id, [0; 0; 0; 7; 1; 44; 9; 8]. split; [exact sample_id_ok|]. split; [by vm_compute|].
  unfold sample_entry in EQ. change (SLOT sample_index) with 0x3001 in EQ.
  change (slot_bytes 0x3001) with [0x30; 1] in EQ. injection EQ as <-. done.
Qed.

Lemma scan_index_sound_complete_witness :
  entry_pairs sample_index [0; 33] sample_id sample_row = Ok [(sample_entry, [1; 44])] /\
  scan_index_exact sample_indexed sample_index [0; 33] [104; 105] = Ok [mkPrefixKey sample_id 8] /\
  exists pks, scan_index_exact sample_indexed sample_index [0; 33] [104; 105] = Ok pks /\
  forall k b, key_ok k -> encode k = Ok b ->
  (mkPrefixKey (key_norm k) (KEY_LEN (K := krow sample_key)) ∈ pks <->
   exists ext, (true = true -> ext = []) /\
   is_Some (contents sample_indexed !! ([0; 33] ++ slot_bytes (SLOT sample_index) ++ [104; 105] ++ ext ++ b))).
Proof.
  split; [by vm_compute|]. split; [by vm_compute|].
  apply (scan_index_sound_complete sample_indexed sample_index [0; 33] [104; 105] true).
  - right. simpl. lia.
  - done.
  - apply (bool_decide_unpack _). by vm_compute.
  - exact sample_indexed_long.
  - exact sample_indexed_names.
Defined.
