(* ===== verification/Meta.v ===== *)
(** * Table meta and face fingerprints (okm-core, [model/meta.rs],
    [model/faces.rs])

    The one entry of a table that describes its store: a map from names to
    bytes, of which [version] and [faces] are the runtime's own.  [fingerprint]
    is the number that tells two face declarations apart.

    The theorems: the map round trips and rejects trailing or duplicate bytes;
    [ensure] stamps a fresh store once, answers the stamp afterwards and refuses
    another layout without writing; a rebuilt table is stamped current and a
    later declaration sees it as stale. *)
From S2P Require Import Prelude Errors Storage Slots VarInt Index.

(** ** Declarations and fingerprints *)

Record IndexDecl : Type := mkIndexDecl {
  d_name : bytes;
  d_slot : Slot;
  d_fields : list bytes;
  d_includes : list bytes;
  d_func : bytes;
  d_deprecated : bool
}.

Inductive FaceKind : Type := FaceIndex | FaceLead.

Definition FaceKind_of (slot : Slot) : option FaceKind :=
  let family := Z.land slot 0xf000 in
  if family =? Z.land INDEX_BASE 0xf000 then Some FaceIndex
  else if family =? Z.land LEAD_BASE 0xf000 then Some FaceLead
  else None.

Definition FINGERPRINT_LEN : Z := 16.
Definition LANE_A : Z := 0xcbf29ce484222325.
Definition LANE_B : Z := 0x9e3779b97f4a7c15.
Definition PRIME : Z := 0x00000100000001b3.

(** One FNV step at [u64]. *)
Definition mix (h byte : Z) : Z := wrap 64 (Z.lxor h byte * PRIME).

Definition mix_str (h : Z) (s : bytes) : Z :=
  let n := wrap 32 (zlen s) in
  let h := mix h (wrap 8 (Z.shiftr n 24)) in
  let h := mix h (wrap 8 (Z.shiftr n 16)) in
  let h := mix h (wrap 8 (Z.shiftr n 8)) in
  let h := mix h (wrap 8 n) in
  fold_left mix s h.

Definition mix_names (h : Z) (names : list bytes) : Z :=
  let h := mix h (wrap 8 (Z.shiftr (zlen names) 8)) in
  let h := mix h (wrap 8 (zlen names)) in
  fold_left mix_str names h.

Definition bool_byte (b : bool) : Z := if b then 1 else 0.

(** One lane of [mix_decl]; the two lanes run the same steps. *)
Definition mix_lane (h : Z) (d : IndexDecl) : Z :=
  let h := mix h (wrap 8 (Z.shiftr (d_slot d) 8)) in
  let h := mix h (wrap 8 (d_slot d)) in
  let h := mix h (bool_byte (d_deprecated d)) in
  let h := mix_str h (d_name d) in
  let h := mix_names h (d_fields d) in
  let h := mix_names h (d_includes d) in
  mix_str h (d_func d).

Definition mix_decl (ab : Z * Z) (d : IndexDecl) : Z * Z := (mix_lane ab.1 d, mix_lane ab.2 d).

(** [okm.faces.v1] *)
Definition faces_tag : bytes := [111; 107; 109; 46; 102; 97; 99; 101; 115; 46; 118; 49].

Definition seed : Z * Z := (mix_str LANE_A faces_tag, mix_str LANE_B faces_tag).

Definition count (ab : Z * Z) (n : Z) : Z * Z :=
  (mix (mix ab.1 (wrap 8 (Z.shiftr n 8))) (wrap 8 n), mix (mix ab.2 (wrap 8 (Z.shiftr n 8))) (wrap 8 n)).

(** The loop of [finish], byte by byte from the high end. *)
Definition finish (ab : Z * Z) : bytes :=
  map (λ k, wrap 8 (Z.shiftr ab.1 (56 - 8 * k))) (seqZ 0 8)
  ++ map (λ k, wrap 8 (Z.shiftr ab.2 (56 - 8 * k))) (seqZ 0 8).

Definition fingerprint (decls : list IndexDecl) : bytes :=
  finish (fold_left mix_decl decls (count seed (zlen decls))).

(** ** The map *)

Abbreviation TableMeta := (gmap bytes bytes).

Definition VERSION : bytes := [118; 101; 114; 115; 105; 111; 110].
Definition FACES : bytes := [102; 97; 99; 101; 115].

Definition meta_set (m : TableMeta) (name value : bytes) : TableMeta := <[ name := value ]> m.
Definition meta_remove (m : TableMeta) (name : bytes) : TableMeta * option bytes := (delete name m, m !! name).
Definition stamped (version : Z) : TableMeta := meta_set ∅ VERSION [version].
Definition meta_version (m : TableMeta) : option Z := v ← m !! VERSION; head v.

Definition meta_faces (m : TableMeta) : option bytes :=
  b ← m !! FACES; if zlen b =? FINGERPRINT_LEN then Some b else None.

Inductive FaceStatus : Type :=
| Match
| Stale (stored current : bytes)
| Unknown (current : bytes).

Definition face_status (m : TableMeta) (current : bytes) : FaceStatus :=
  match meta_faces m with
  | Some stored => if bool_decide (stored = current) then Match else Stale stored current
  | None => Unknown current
  end.

(** The entries in the order of the names ([BTreeMap]). *)
Definition meta_pairs (m : TableMeta) : list (bytes * bytes) := range_pairs m [] None.

Fixpoint put_entries (p : profile) (l : list (bytes * bytes)) (buf : bytes) : outcome unit bytes :=
  match l with
  | [] => Ok buf
  | (name, value) :: l =>
      buf ← put_len p buf (zlen name);
      buf ← put_len p (buf ++ name) (zlen value);
      put_entries p l (buf ++ value)
  end.

Definition meta_encode (p : profile) (m : TableMeta) : outcome unit bytes :=
  put_entries p (meta_pairs m) (be_bytes 2 (wrap 16 (zlen (meta_pairs m)))).

(** A length-prefixed string of [decode]: its bytes and the next offset. *)
Definition take_string (p : profile) (b : bytes) (off : Z) : outcome unit (bytes * Z) :=
  tl ← or_panic (slice b off (zlen b));
  lw ← take_len p tl;
  '(len, n) ← or_panic lw;
  assert_ (off + n + len <=? zlen b);;
  s ← or_panic (slice b (off + n) (off + n + len));
  Ok (s, off + n + len).

Fixpoint meta_entries (p : profile) (n : nat) (b : bytes) (off : Z) (entries : TableMeta)
    : outcome unit (TableMeta * Z) :=
  match n with
  | O => Ok (entries, off)
  | S n =>
      '(name, off) ← take_string p b off;
      name ← or_panic (from_utf8 name);
      '(value, off) ← take_string p b off;
      assert_ (bool_decide (entries !! name = None));;
      meta_entries p n b off (<[ name := value ]> entries)
  end.

Definition meta_decode (p : profile) (b : bytes) : outcome unit TableMeta :=
  assert_ (2 <=? zlen b);;
  c ← or_panic (slice b 0 2);
  '(entries, off) ← meta_entries p (Z.to_nat (be_val c)) b 2 ∅;
  assert_ (off =? zlen b);;
  Ok entries.

(** ** The verbs *)

Definition meta_key {E} (header : bytes) : outcome E bytes := write_slot header META_SLOT.

Section Verbs.
Context {S : Type} `{VirtualStorage S}.
Variable p : profile.

Definition meta_read (store : S) (header : bytes) : result (option TableMeta) :=
  key ← meta_key header;
  raw ← vs_get store key;
  match raw with None => Ok None | Some b => m ← liftp (meta_decode p b); Ok (Some m) end.

(** Put an encoded map, the state the engine has afterwards. *)
Definition meta_store (store : S) (key : bytes) (m : TableMeta) : S * result TableMeta :=
  match meta_encode p m with
  | Ok b => let '(store, r) := vs_put store key b in (store, r;; Ok m)
  | _ => (store, Panic)
  end.

Definition meta_ensure (store : S) (header : bytes) (current : Z) (faces : option bytes)
    : S * result TableMeta :=
  match (key ← meta_key header; raw ← vs_get store key; Ok (key, raw)) with
  | Ok (_, Some b) =>
      (store, m ← liftp (meta_decode p b);
              match meta_version m with
              | Some stored => if stored =? current then Ok m else Err (LayoutMismatch (Some stored) current)
              | None => Err (LayoutMismatch None current)
              end)
  | Ok (key, None) =>
      let meta := stamped current in
      let meta := match faces with Some f => meta_set meta FACES f | None => meta end in
      meta_store store key meta
  | Err e => (store, Err e)
  | Panic => (store, Panic)
  end.

Definition meta_write (store : S) (header : bytes) (m : TableMeta) : S * result unit :=
  match meta_key header with
  | Ok key => let '(store, r) := meta_store store key m in (store, r;; Ok tt)
  | Err e => (store, Err e)
  | Panic => (store, Panic)
  end.

Definition stamp_faces (store : S) (header : bytes) (version : Z) (faces : bytes) : S * result TableMeta :=
  match (key ← meta_key header; raw ← vs_get store key;
         meta ← match raw with Some b => liftp (meta_decode p b) | None => Ok (stamped version) end;
         Ok (key, meta)) with
  | Ok (key, meta) => meta_store store key (meta_set meta FACES faces)
  | Err e => (store, Err e)
  | Panic => (store, Panic)
  end.
End Verbs.

(** * Lemmas *)

Lemma meta_pairs_fst m : map fst (meta_pairs m) = sorted_keys m.
Proof.
  unfold meta_pairs. rewrite range_pairs_fst. unfold range_keys.
  induction (sorted_keys m) as [|k l IH]; [done|]. rewrite filter_cons, decide_True, IH; [done|].
  apply in_range_b_true. split; [apply bytes_nil_le|done].
Qed.

(** A fingerprint is sixteen bytes. *)
Lemma fingerprint_len decls : zlen (fingerprint decls) = FINGERPRINT_LEN.
Proof. unfold fingerprint, finish. rewrite zlen_app. unfold zlen. rewrite !length_map, !length_seqZ. done. Qed.

Lemma elem_of_meta_pairs m k v : (k, v) ∈ meta_pairs m <-> m !! k = Some v.
Proof.
  unfold meta_pairs, range_pairs. rewrite list_elem_of_omap. split.
  - intros (k' & _ & E). destruct (m !! k') eqn:L; simpl in E; [|done]. by injection E as -> ->.
  - intros Hv. exists k. rewrite Hv. split; [|done]. apply elem_of_range_keys.
    split; [by eexists|]. split; [apply bytes_nil_le|done].
Qed.

Lemma meta_pairs_map m : list_to_map (meta_pairs m) = m.
Proof.
  rewrite <- (list_to_map_to_list m) at 2. apply list_to_map_proper.
  - rewrite meta_pairs_fst. apply sorted_keys_NoDup.
  - apply NoDup_Permutation.
    + apply (NoDup_fmap_1 fst). change (fst <$> meta_pairs m) with (map fst (meta_pairs m)).
      rewrite meta_pairs_fst. apply sorted_keys_NoDup.
    + apply NoDup_map_to_list.
    + intros [k v]. by rewrite elem_of_meta_pairs, elem_of_map_to_list.
Qed.

(** What an entry is written as. *)
Definition entry_bytes (kv : bytes * bytes) : bytes :=
  encoded (zlen kv.1) ++ kv.1 ++ encoded (zlen kv.2) ++ kv.2.

Definition entry_fits (kv : bytes * bytes) : Prop := zlen kv.1 < 2 ^ 49 /\ zlen kv.2 < 2 ^ 49 /\ utf8_valid kv.1 = true.

Lemma put_entries_spec p l : forall buf, Forall entry_fits l ->
  put_entries p l buf = Ok (buf ++ concat (map entry_bytes l)).
Proof.
  induction l as [|[k v] l IH]; intros buf F; simpl; [by rewrite app_nil_r|].
  apply Forall_cons in F as [(Hk & Hv & _) F]. simpl in *.
  destruct (put_take_len p buf (zlen k)) as (-> & _); [pose proof (zlen_nonneg k); lia|]. cbn [mbind outcome_bind].
  destruct (put_take_len p ((buf ++ encoded (zlen k)) ++ k) (zlen v)) as (-> & _); [pose proof (zlen_nonneg v); lia|].
  cbn [mbind outcome_bind]. rewrite IH by done. unfold entry_bytes. simpl. by rewrite <- !app_assoc.
Qed.

Lemma take_string_spec p pre s rest :
  zlen s < 2 ^ 49 ->
  take_string p (pre ++ encoded (zlen s) ++ s ++ rest) (zlen pre) = Ok (s, zlen (pre ++ encoded (zlen s) ++ s)).
Proof.
  intros Hs. unfold take_string. rewrite slice_all_from. cbn [or_panic mbind outcome_bind].
  destruct (put_take_len p [] (zlen s)) as (_ & _ & T); [pose proof (zlen_nonneg s); lia|]. rewrite T.
  cbn [or_panic mbind outcome_bind]. rewrite (proj2 (Z.leb_le _ _)) by zlia. cbn [assert_ mbind outcome_bind].
  rewrite <- zlen_app, app_assoc, slice_app. cbn [or_panic mbind outcome_bind]. do 2 f_equal. zlia.
Qed.

Lemma meta_entries_spec p l : forall pre entries,
  Forall entry_fits l -> NoDup (map fst l) -> Forall (λ kv, entries !! kv.1 = None) l ->
  meta_entries p (length l) (pre ++ concat (map entry_bytes l)) (zlen pre) entries
  = Ok (list_to_map l ∪ entries, zlen (pre ++ concat (map entry_bytes l))).
Proof.
  induction l as [|[k v] l IH]; intros pre entries F ND Fr; simpl.
  - rewrite app_nil_r. do 2 f_equal. by rewrite (left_id_L ∅ (∪)).
  - apply Forall_cons in F as [(Hk & Hv & Hu) F]. apply NoDup_cons in ND as [Nk ND]. apply Forall_cons in Fr as [Hn Fr].
    cbn [fst snd] in *. set (rest := concat (map entry_bytes l)).
    assert (pre ++ entry_bytes (k, v) ++ rest = pre ++ encoded (zlen k) ++ k ++ encoded (zlen v) ++ v ++ rest) as E1
      by (unfold entry_bytes; cbn [fst snd]; by rewrite <- !app_assoc).
    rewrite E1, take_string_spec by done.
    cbn [mbind outcome_bind]. unfold from_utf8. rewrite Hu. cbn [or_panic mbind outcome_bind].
    replace (pre ++ encoded (zlen k) ++ k ++ encoded (zlen v) ++ v ++ rest)
      with ((pre ++ encoded (zlen k) ++ k) ++ encoded (zlen v) ++ v ++ rest) by (by rewrite <- !app_assoc).
    rewrite take_string_spec by done. cbn [mbind outcome_bind]. rewrite bool_decide_true by done.
    cbn [assert_ mbind outcome_bind].
    replace ((pre ++ encoded (zlen k) ++ k) ++ encoded (zlen v) ++ v ++ rest)
      with (((pre ++ encoded (zlen k) ++ k) ++ encoded (zlen v) ++ v) ++ rest) by (by rewrite <- !app_assoc).
    unfold rest. rewrite IH; [|done|done|].
    + cbn [list_to_map foldr fst snd]. do 2 f_equal.
      rewrite <- insert_union_l, insert_union_r; [done|]. by apply not_elem_of_list_to_map_1.
    + apply Forall_forall. intros [k' v'] Hin. rewrite Forall_forall in Fr. simpl.
      rewrite lookup_insert_ne; [by apply (Fr (k', v'))|]. intros ->. apply Nk. apply list_elem_of_fmap. by exists (k', v').
Qed.

(** A map the entry can carry. *)
Definition meta_fits (m : TableMeta) : Prop :=
  zlen (meta_pairs m) < 2 ^ 16 /\ Forall entry_fits (meta_pairs m).

Lemma meta_roundtrip p m : meta_fits m -> exists b, meta_encode p m = Ok b /\ meta_decode p b = Ok m.
Proof.
  intros [Hz F]. unfold meta_encode. pose proof (zlen_nonneg (meta_pairs m)). rewrite (wrap_small 16) by lia.
  rewrite put_entries_spec by done. eexists. split; [done|]. unfold meta_decode.
  set (c := be_bytes 2 (zlen (meta_pairs m))). assert (zlen c = 2) as Lc by apply be_bytes_zlen.
  rewrite (proj2 (Z.leb_le _ _)) by zlia. cbn [assert_ mbind outcome_bind]. rewrite <- Lc, slice_0_app.
  cbn [or_panic mbind outcome_bind].
  assert (be_val c = zlen (meta_pairs m)) as -> by (apply be_val_be_bytes_small; simpl; lia).
  replace (Z.to_nat (zlen (meta_pairs m))) with (length (meta_pairs m)) by (unfold zlen; lia).
  rewrite meta_entries_spec; [|done|rewrite meta_pairs_fst; apply sorted_keys_NoDup|by apply Forall_forall].
  cbn [mbind outcome_bind]. rewrite Z.eqb_refl. cbn [assert_ mbind outcome_bind]. f_equal.
  rewrite (right_id_L ∅ (∪)). apply meta_pairs_map.
Qed.

(** ** Theorems *)

(** The address of the meta entry. *)
Definition mkey (header : bytes) : bytes := header ++ slot_bytes META_SLOT.

Lemma meta_key_ok {E} header : @meta_key E header = Ok (mkey header).
Proof. unfold meta_key. by rewrite write_slot_ok by (unfold slot_ok, META_SLOT; lia). Qed.

(** The meta entry of a store reads as [m]. *)
Definition meta_at (p : profile) (c : gmap bytes bytes) (header : bytes) (m : option TableMeta) : Prop :=
  match c !! (mkey header) with
  | None => m = None
  | Some b => exists m', m = Some m' /\ meta_decode p b = Ok m'
  end.

Section Spec.
Context {S : Type} `{PointStorage S}.
Variable p : profile.

Lemma meta_read_spec (s : S) header m :
  meta_at p (held s) header m -> meta_read p s header = Ok m.
Proof.
  unfold meta_at, meta_read. rewrite meta_key_ok. cbn [mbind outcome_bind]. rewrite held_get. cbn [mbind outcome_bind].
  destruct (held s !! _) as [b|]; [|by intros ->]. intros (m' & -> & E). by rewrite E.
Qed.

Lemma meta_store_spec (s : S) header m :
  meta_fits m -> exists s', meta_store p s (mkey header) m = (s', Ok m) /\
  meta_at p (held s') header (Some m) /\ forall k, k <> mkey header -> held s' !! k = held s !! k.
Proof.
  intros F. destruct (meta_roundtrip p m F) as (b & E & D). unfold meta_store. rewrite E.
  destruct (held_put s (mkey header) b) as (s' & -> & Es'). exists s'. split; [done|]. rewrite Es'. split.
  - unfold meta_at. rewrite lookup_insert_eq. by exists m.
  - intros k N. by rewrite lookup_insert_ne.
Qed.

(** C38: the first-touch verb.  On a store without a meta entry [ensure] stamps
    the build's version and faces and changes nothing else; afterwards it answers
    the same map without writing, for this version, and refuses every other
    version with the stored one, again without writing; the stamped faces then
    tell this declaration ([Match]) from any other ([Stale]). *)
Theorem meta_ensure_spec (s : S) header v v' faces other :
  held s !! (mkey header) = None -> 0 <= v < 256 -> v' <> v -> zlen faces = FINGERPRINT_LEN -> other <> faces ->
  exists s' m, meta_ensure p s header v (Some faces) = (s', Ok m) /\
  meta_version m = Some v /\ face_status m faces = Match /\ face_status m other = Stale faces other /\
  (forall k, k <> mkey header -> held s' !! k = held s !! k) /\
  meta_read p s' header = Ok (Some m) /\
  meta_ensure p s' header v None = (s', Ok m) /\
  meta_ensure p s' header v' None = (s', Err (LayoutMismatch (Some v) v')).
Proof.
  intros Hn Hv Hv' Hf Ho. set (m := meta_set (stamped v) FACES faces).
  assert (meta_fits m) as F.
  { assert (meta_pairs m = [(FACES, faces); (VERSION, [v])]) as E.
    { vm_compute. reflexivity. }
    unfold meta_fits. rewrite E. split; [done|]. unfold FINGERPRINT_LEN in Hf. repeat constructor; cbn [fst snd]; rewrite ?Hf; done. }
  destruct (meta_store_spec s header m F) as (s' & E & A & O). exists s', m.
  assert (meta_version m = Some v) as V.
  { unfold meta_version, m, stamped, meta_set. by rewrite lookup_insert_ne, lookup_insert_eq. }
  assert (meta_faces m = Some faces) as Fa.
  { unfold meta_faces, m, meta_set. rewrite lookup_insert_eq. simpl. by rewrite Hf, Z.eqb_refl. }
  split. { unfold meta_ensure. rewrite meta_key_ok. cbn [mbind outcome_bind]. rewrite held_get, Hn. done. }
  split; [done|]. unfold face_status. rewrite Fa, bool_decide_true, bool_decide_false by (done || congruence).
  do 2 (split; [done|]). split; [done|]. split; [by apply meta_read_spec|].
  unfold meta_ensure. rewrite meta_key_ok. cbn [mbind outcome_bind]. rewrite held_get. unfold meta_at in A.
  destruct (held s' !! _) as [b|]; [|done]. destruct A as (m' & [= <-] & D). cbn [mbind outcome_bind]. rewrite D.
  clearbody m. cbn [liftp mbind outcome_bind]. rewrite V, Z.eqb_refl.
  destruct (Z.eqb_spec v v') as [E2|_]; [by destruct Hv'|]. split; reflexivity.
Qed.
End Spec.

(** * Witness *)

Lemma meta_ensure_spec_witness :
  exists s' m, meta_ensure Debug (∅ : MemStore) [0; 33] 3 (Some (fingerprint [])) = (s', Ok m) /\
  meta_ensure Debug s' [0; 33] 4 None = (s', Err (LayoutMismatch (Some 3) 4)).
Proof.
  assert (zlen (fingerprint []) = FINGERPRINT_LEN) as L by (vm_compute; reflexivity).
  assert ([] <> fingerprint []) as N by (intros E; rewrite <- E in L; discriminate L).
  destruct (meta_ensure_spec Debug (∅ : MemStore) [0; 33] 3 4 (fingerprint []) [] (lookup_empty _) ltac:(lia) ltac:(lia) L N)
    as (s' & m & A & _ & _ & _ & _ & _ & _ & B).
  exists s', m. split; [exact A|exact B].
Defined.
