(* ===== verification/Reduces.v ===== *)
(** * Reduces (okm-core, [model/reduce.rs], [model/presets.rs]; okm-derive,
    [document_encode.rs])

    A reduce keeps one accumulator for each group of rows, at
    [[ns][slot][group]], read, changed and written back by every put and delete
    of a row: [Reduce] is one declaration, [apply_reduces] the hook the derive
    emits, [Count], [Sum], [HighWater] and [LowWater] the preset logics.

    What a logic owes its reduce is [reduce_law]: a relation between the rows of
    a group and the accumulator that folding and unfolding keep.  The theorems:
    under that law the hook keeps every group's accumulator true to its rows over
    any history of writes, and what the presets then answer. *)
From S2P Require Import Prelude Errors Storage Slots Vocab Fields Payload Keys Index.

(** ** Accumulators *)

Record ReduceCodec (A : Type) : Type := mkCodec {
  acc_default : A;
  encode_acc : A -> bytes;
  decode_acc : bytes -> outcome unit A
}.
Arguments mkCodec {A} _ _ _.
Arguments acc_default {A} _.
Arguments encode_acc {A} _.
Arguments decode_acc {A} _.

Definition u64_codec : ReduceCodec Z :=
  mkCodec 0 (be_bytes 8) (λ b, assert_ (zlen b =? 8);; Ok (be_val b)).

Definition i64_codec : ReduceCodec Z :=
  mkCodec 0 (λ v, be_bytes 8 (wrap 64 v)) (λ b, assert_ (zlen b =? 8);; Ok (to_signed 64 (be_val b))).

Definition vec_codec : ReduceCodec bytes := mkCodec [] (λ b, b) Ok.

Definition LowAcc_codec : ReduceCodec Z :=
  mkCodec (2 ^ 64 - 1) (be_bytes 8) (λ b, b ← array_of 8 b; Ok (be_val b)).

(** [a - b] at [u64] and at [i64]. *)
Definition sub_u64 (p : profile) (a b : Z) : outcome unit Z :=
  if b <=? a then Ok (a - b)
  else match p with Debug => Panic | Release => Ok (wrap 64 (a - b)) end.

Definition sub_i64 (p : profile) (a b : Z) : outcome unit Z :=
  if i64_ok (a - b) then Ok (a - b)
  else match p with Debug => Panic | Release => Ok (to_signed 64 (a - b)) end.

(** ** Logics *)

Record ReduceLogic (K R : Type) : Type := mkLogic {
  Acc : Type;
  codec : ReduceCodec Acc;
  fold : Acc -> K -> R -> outcome unit Acc;
  unfold : Acc -> K -> R -> outcome unit Acc
}.
Arguments Acc {K R} _.
Arguments codec {K R} _.
Arguments fold {K R} _ _ _ _.
Arguments unfold {K R} _ _ _ _.

(** The accumulator type of a field source is [i64] when [src_signed]. *)
Record ReduceFieldSource (K R : Type) : Type := mkSource {
  src_signed : bool;
  reduce_field_acc : K -> R -> outcome unit Z;
  reduce_field_u64 : K -> R -> outcome unit Z
}.
Arguments src_signed {K R} _.
Arguments reduce_field_acc {K R} _ _ _.
Arguments reduce_field_u64 {K R} _ _ _.

Section Presets.
Context {K R : Type}.
Variable p : profile.

Definition Count : ReduceLogic K R := {|
  codec := u64_codec;
  fold acc _ _ := add_w p 64 acc 1;
  unfold acc _ _ := sub_u64 p acc 1
|}.

Definition Sum (src : ReduceFieldSource K R) : ReduceLogic K R := {|
  codec := if src_signed src then i64_codec else u64_codec;
  fold acc key item :=
    v ← reduce_field_acc src key item;
    if src_signed src then add_i64 p acc v else add_w p 64 acc v;
  unfold acc key item :=
    v ← reduce_field_acc src key item;
    if src_signed src then sub_i64 p acc v else sub_u64 p acc v
|}.

Definition HighWater (src : ReduceFieldSource K R) : ReduceLogic K R := {|
  codec := u64_codec;
  fold acc key item := v ← reduce_field_u64 src key item; Ok (acc `max` v);
  unfold acc _ _ := Ok acc
|}.

Definition LowWater (src : ReduceFieldSource K R) : ReduceLogic K R := {|
  codec := LowAcc_codec;
  fold acc key item := v ← reduce_field_u64 src key item; Ok (acc `min` v);
  unfold acc _ _ := Ok acc
|}.
End Presets.

(** ** Declarations *)

Record Reduce (K R : Type) : Type := mkReduce {
  red_slot : Slot;
  GROUP : list bytes;
  logic : ReduceLogic K R;
  group_bytes : K -> R -> outcome unit bytes
}.
Arguments red_slot {K R} _.
Arguments GROUP {K R} _.
Arguments logic {K R} _.
Arguments group_bytes {K R} _ _ _.

Section Hook.
Context {K R : Type}.

Definition reduce_entry_key (red : Reduce K R) (ns_prefix : bytes) (key : K) (document : R)
    : result bytes :=
  g ← liftp (group_bytes red key document);
  buf ← write_slot ns_prefix (red_slot red);
  Ok (buf ++ g).

Definition reduce_get {S} `{VirtualStorage S} (store : S) (red : Reduce K R) (ns_prefix : bytes)
    (key : K) (document : R) : result (option (Acc (logic red))) :=
  k ← reduce_entry_key red ns_prefix key document;
  raw ← vs_get store k;
  match raw with
  | None => Ok None
  | Some b => acc ← liftp (decode_acc (codec (logic red)) b); Ok (Some acc)
  end.

Fixpoint decode_groups {A} (c : ReduceCodec A) (l : list (bytes * bytes)) : outcome unit (list (bytes * A)) :=
  match l with
  | [] => Ok []
  | (suffix, value) :: l => acc ← decode_acc c value; rest ← decode_groups c l; Ok ((suffix, acc) :: rest)
  end.

Definition scan_reduces {S} `{VirtualStorage S} (store : S) (red : Reduce K R) (ns_prefix : bytes)
    : result (list (bytes * Acc (logic red))) :=
  prefix ← write_slot ns_prefix (red_slot red);
  pairs ← scan_suffix_kv store prefix;
  liftp (decode_groups (codec (logic red)) pairs).

(** One declaration's read-modify-write. *)
Definition apply_reduce {S} `{VirtualStorage S} (store : S) (red : Reduce K R) (key : K) (document : R)
    (ns : bytes) (add : bool) : S * result unit :=
  match (ek ← reduce_entry_key red ns key document;
         raw ← vs_get store ek;
         acc ← liftp (match raw with
                      | Some b => decode_acc (codec (logic red)) b
                      | None => Ok (acc_default (codec (logic red)))
                      end);
         acc ← liftp (if add then fold (logic red) acc key document else unfold (logic red) acc key document);
         Ok (ek, encode_acc (codec (logic red)) acc)) with
  | Ok (ek, b) => vs_put store ek b
  | Err e => (store, Err e)
  | Panic => (store, Panic)
  end.

(** [__okm_apply_reduces] *)
Fixpoint apply_reduces {S} `{VirtualStorage S} (reds : list (Reduce K R)) (store : S) (key : K) (document : R)
    (ns : bytes) (add : bool) : S * result unit :=
  match reds with
  | [] => (store, Ok tt)
  | red :: reds =>
      match apply_reduce store red key document ns add with
      | (store, Ok _) => apply_reduces reds store key document ns add
      | (store, r) => (store, r)
      end
  end.
End Hook.

(** ** What the derive emits *)

Section Derived.
Context {K : Type} `{KeyEncode K}.
Variables (p : profile) (fs : list FieldSchema).

(** [__okm_encode_group_named] over the key's own fields. *)
Definition group_named (key : K) (document : row fs) (names : list bytes) : outcome unit bytes :=
  key_bytes ← encode key;
  encode_group_named p key_bytes (map (λ f, (fd_name f, fd_width f)) (FIELDS (K := K))) fs document names [].

(** The readback branch of the accumulator type. *)
Definition readback (signed : bool) (buf : bytes) : outcome unit Z :=
  if existsb (Nat.eqb (length buf)) [1; 2; 4; 8]%nat then
    Ok (if signed then to_signed (bits (length buf)) (be_val buf) else be_val buf)
  else Panic.

(** The readback of a [Quant] field: the sum is of its wire integers. *)
Definition readback_quant (buf : bytes) : outcome unit Z :=
  if Nat.eqb (length buf) 8 then Ok (to_signed (bits (length buf)) (be_val buf)) else Panic.

(** The marker of a field-based preset; [None] is the expansion error. *)
Definition derived_source (field : bytes) : option (ReduceFieldSource K (row fs)) :=
  let source signed read := {|
    src_signed := signed;
    reduce_field_acc key document := buf ← group_named key document [field]; read buf;
    reduce_field_u64 key document :=
      if signed then Panic else buf ← group_named key document [field]; read buf |} in
  match kind <$> field_of fs field with
  | None => Some (source false (readback false))
  | Some (KUInt n) => if existsb (Nat.eqb n) [1; 2; 4; 8]%nat then Some (source false (readback false)) else None
  | Some (KSInt n) => if existsb (Nat.eqb n) [1; 2; 4; 8]%nat then Some (source true (readback true)) else None
  | Some (KQuant _) => Some (source true readback_quant)
  | Some _ => None
  end.

Definition derived_reduce (slot : Slot) (l : ReduceLogic K (row fs)) (group : list bytes)
    : Reduce K (row fs) := {|
  red_slot := slot;
  GROUP := group;
  logic := l;
  group_bytes key document := group_named key document group
|}.
End Derived.

(** * The contract of a logic *)

Section Laws.
Context {K R : Type}.
Abbreviation rows := (list (K * R)).

(** [J] relates the rows of a group to its accumulator; [room] says which groups
    the accumulator can describe. *)
Record reduce_law (l : ReduceLogic K R) (room : rows -> Prop) (J : rows -> Acc l -> Prop) : Prop := {
  law_codec g acc : J g acc -> decode_acc (codec l) (encode_acc (codec l) acc) = Ok acc;
  law_empty : J [] (acc_default (codec l));
  law_perm g g' acc : g ≡ₚ g' -> J g acc -> J g' acc;
  law_fold k r g acc : J g acc -> room ((k, r) :: g) ->
    exists acc', fold l acc k r = Ok acc' /\ J ((k, r) :: g) acc';
  law_unfold k r g acc : J ((k, r) :: g) acc -> room g ->
    exists acc', unfold l acc k r = Ok acc' /\ J g acc'
}.

Record LawfulReduce : Type := mkLawful {
  lr_reduce : Reduce K R;
  lr_room : rows -> Prop;
  lr_J : rows -> Acc (logic lr_reduce) -> Prop;
  lr_law : reduce_law (logic lr_reduce) lr_room lr_J
}.

(** The rows of one group. *)
Definition in_group (red : Reduce K R) (g : bytes) (kr : K * R) : bool :=
  match group_bytes red kr.1 kr.2 with Ok g' => bool_decide (g' = g) | _ => false end.

Definition group (red : Reduce K R) (g : bytes) (l : rows) : rows := filter (λ kr, in_group red g kr = true) l.

Definition acc_key (h : bytes) (red : Reduce K R) (g : bytes) : bytes := h ++ slot_bytes (red_slot red) ++ g.

(** Every accumulator of a reduce is true to the rows of its group; a group
    without an entry has no row. *)
Definition accs_at (c : gmap bytes bytes) (h : bytes) (l : rows) (lr : LawfulReduce) : Prop :=
  forall g, match c !! acc_key h (lr_reduce lr) g with
            | None => group (lr_reduce lr) g l = []
            | Some b => exists acc, decode_acc (codec (logic (lr_reduce lr))) b = Ok acc /\
                lr_J lr (group (lr_reduce lr) g l) acc
            end.

Definition tracked (c : gmap bytes bytes) (h : bytes) (l : rows) (reds : list LawfulReduce) : Prop :=
  Forall (accs_at c h l) reds.

(** Distinct slots, as the declaration order gives them. *)
Definition slots_apart (reds : list LawfulReduce) : Prop :=
  NoDup (map (λ lr, red_slot (lr_reduce lr)) reds) /\ Forall (λ lr, slot_ok (red_slot (lr_reduce lr))) reds.

(** Each reduce has a group for the row, and room for what the group becomes. *)
Definition has_room (reds : list LawfulReduce) (k : K) (r : R) (l : rows) : Prop :=
  Forall (λ lr, exists g, group_bytes (lr_reduce lr) k r = Ok g /\ lr_room lr (group (lr_reduce lr) g l)) reds.

(** The rows before and after a call of the hook. *)
Definition before (add : bool) (x : K * R) (l : rows) : rows := if add then l else x :: l.
Definition after (add : bool) (x : K * R) (l : rows) : rows := if add then x :: l else l.

Lemma in_group_true red g kr : in_group red g kr = true <-> group_bytes red kr.1 kr.2 = Ok g.
Proof.
  unfold in_group. destruct (group_bytes red kr.1 kr.2); [|done..]. rewrite bool_decide_eq_true. split; congruence.
Qed.

Lemma group_cons red g k r l :
  group red g ((k, r) :: l) = if in_group red g (k, r) then (k, r) :: group red g l else group red g l.
Proof. unfold group. rewrite filter_cons. destruct (in_group red g (k, r)) eqn:E; by case_decide. Qed.

Lemma accs_at_perm c h l l' lr : l ≡ₚ l' -> accs_at c h l lr -> accs_at c h l' lr.
Proof.
  intros P A g. specialize (A g). assert (group (lr_reduce lr) g l ≡ₚ group (lr_reduce lr) g l') as Pg
    by (unfold group; by rewrite P).
  destruct (c !! _) as [b|].
  - destruct A as (acc & D & HJ). exists acc. split; [done|]. eapply law_perm; [apply lr_law|exact Pg|done].
  - rewrite A in Pg. by apply Permutation_nil_l in Pg.
Qed.

Lemma tracked_perm c h l l' reds : l ≡ₚ l' -> tracked c h l reds -> tracked c h l' reds.
Proof. intros P T. eapply Forall_impl; [exact T|]. intros lr. by apply accs_at_perm. Qed.

(** What a reduce's groups hold is decided by the keys under its slot. *)
Lemma accs_at_frame c c' h l lr :
  (forall g, c' !! acc_key h (lr_reduce lr) g = c !! acc_key h (lr_reduce lr) g) ->
  accs_at c h l lr -> accs_at c' h l lr.
Proof. intros F A g. rewrite F. apply A. Qed.

Lemma tracked_frame c c' h l reds :
  (forall lr g, lr ∈ reds -> c' !! acc_key h (lr_reduce lr) g = c !! acc_key h (lr_reduce lr) g) ->
  tracked c h l reds -> tracked c' h l reds.
Proof.
  unfold tracked. rewrite !Forall_forall. intros F A lr Hin. apply (accs_at_frame c); [|by apply A].
  intros g. by apply F.
Qed.

Lemma acc_key_apart h red red' g g' :
  slot_ok (red_slot red) -> slot_ok (red_slot red') -> red_slot red <> red_slot red' ->
  acc_key h red g <> acc_key h red' g'.
Proof. unfold acc_key. intros Hs Hs' N E%app_inv_head%slot_bytes_prefix_free; done. Qed.

(** One turn of a reduce over a map: the accumulator it reads, the one it writes. *)
Lemma acc_step c lr k r h l g add :
  accs_at c h (before add (k, r) l) lr -> group_bytes (lr_reduce lr) k r = Ok g ->
  lr_room lr (group (lr_reduce lr) g (after add (k, r) l)) ->
  let red := lr_reduce lr in
  exists acc acc', match c !! acc_key h red g with
    | Some b => decode_acc (codec (logic red)) b | None => Ok (acc_default (codec (logic red))) end = Ok acc /\
  lr_J lr (group red g (before add (k, r) l)) acc /\
  (c !! acc_key h red g = None -> add = true) /\
  (if add then fold (logic red) acc k r else unfold (logic red) acc k r) = Ok acc' /\
  decode_acc (codec (logic red)) (encode_acc (codec (logic red)) acc') = Ok acc' /\
  forall b, decode_acc (codec (logic red)) b = Ok acc' -> accs_at (<[acc_key h red g := b]> c) h (after add (k, r) l) lr.
Proof.
  intros A Hg Hroom red. pose proof (A g) as Ag. fold red in Ag, Hg, Hroom.
  assert (in_group red g (k, r) = true) as Gx by by apply in_group_true.
  set (from := group red g (before add (k, r) l)) in *. set (to := group red g (after add (k, r) l)) in *.
  assert (exists acc, match c !! acc_key h red g with
      | Some b => decode_acc (codec (logic red)) b | None => Ok (acc_default (codec (logic red))) end = Ok acc /\ lr_J lr from acc /\
      (c !! acc_key h red g = None -> add = true)) as (acc & D & HJ & Hn).
  { destruct (c !! acc_key h red g) as [b|].
    - destruct Ag as (acc & -> & HJ). by exists acc.
    - exists (acc_default (codec (logic red))). split; [done|]. split; [rewrite Ag; apply lr_law|]. intros _.
      unfold from in Ag. destruct add; [done|]. cbn [before] in Ag. by rewrite group_cons, Gx in Ag. }
  assert (exists acc', (if add then fold (logic red) acc k r else unfold (logic red) acc k r) = Ok acc' /\ lr_J lr to acc') as (acc' & F & HJ').
  { unfold from, to in *. destruct add; cbn [before after] in *; rewrite group_cons, Gx in *.
    - by destruct (law_fold _ _ _ (lr_law lr) k r _ acc HJ Hroom) as (acc' & E & ?); exists acc'.
    - by destruct (law_unfold _ _ _ (lr_law lr) k r _ acc HJ Hroom) as (acc' & E & ?); exists acc'. }
  exists acc, acc'. do 4 (split; [done|]). split; [by apply (law_codec _ _ _ (lr_law lr) to)|]. intros b Hb g'. fold red. destruct (decide (g' = g)) as [->|N].
  - rewrite lookup_insert_eq. by exists acc'.
  - rewrite lookup_insert_ne by (intros E; apply N; by repeat apply app_inv_head in E).
    assert (in_group red g' (k, r) = false) as Gx'.
    { apply not_true_iff_false. intros E%in_group_true. simpl in E. congruence. }
    specialize (A g'). fold red in A. destruct add; cbn [before after] in *; rewrite group_cons, Gx' in *; done.
Qed.

Section Verbs.
Context {S : Type} `{PointStorage S}.

(** One read-modify-write. *)
Lemma apply_reduce_spec (s : S) lr k r h l g add :
  slot_ok (red_slot (lr_reduce lr)) -> accs_at (held s) h (before add (k, r) l) lr ->
  group_bytes (lr_reduce lr) k r = Ok g -> lr_room lr (group (lr_reduce lr) g (after add (k, r) l)) ->
  exists s', apply_reduce s (lr_reduce lr) k r h add = (s', Ok tt) /\
  accs_at (held s') h (after add (k, r) l) lr /\
  forall key, key <> acc_key h (lr_reduce lr) g -> held s' !! key = held s !! key.
Proof.
  intros Hs A Hg Hroom. destruct (acc_step (held s) lr k r h l g add A Hg Hroom) as (acc & acc' & D & _ & _ & F & C & A').
  set (red := lr_reduce lr) in *.
  destruct (held_put s (acc_key h red g) (encode_acc (codec (logic red)) acc')) as (s' & Ep & Es').
  exists s'. split; [|split].
  - unfold apply_reduce, reduce_entry_key. rewrite Hg. cbn [liftp mbind outcome_bind]. rewrite write_slot_ok by done.
    cbn [mbind outcome_bind]. rewrite <- app_assoc. fold (acc_key h red g). rewrite held_get. cbn [mbind outcome_bind].
    rewrite D. cbn [liftp mbind outcome_bind]. rewrite F. cbn [liftp mbind outcome_bind]. done.
  - rewrite Es'. by apply A'.
  - intros key N. rewrite Es'. by apply lookup_insert_ne.
Qed.

(** The keys a document's reduces may write. *)
Definition red_keys (h : bytes) (reds : list LawfulReduce) (key : bytes) : Prop :=
  exists lr g, lr ∈ reds /\ key = acc_key h (lr_reduce lr) g.

(** The hook. *)
Lemma apply_reduces_spec reds : forall (s : S) k r h l add,
  slots_apart reds -> tracked (held s) h (before add (k, r) l) reds -> has_room reds k r (after add (k, r) l) ->
  exists s', apply_reduces (map lr_reduce reds) s k r h add = (s', Ok tt) /\
  tracked (held s') h (after add (k, r) l) reds /\
  forall key, ~ red_keys h reds key -> held s' !! key = held s !! key.
Proof.
  induction reds as [|lr reds IH]; intros s k r h l add [ND Sl] T Room; [exists s; split; [done|split; [constructor|done]]|].
  unfold tracked, has_room in *. apply NoDup_cons in ND as [Nin ND]. apply Forall_cons in Sl as [Hs Sl]. apply Forall_cons in T as [A T].
  apply Forall_cons in Room as [(g & Hg & Hroom) Room].
  assert (forall lr' g', lr' ∈ reds -> acc_key h (lr_reduce lr') g' <> acc_key h (lr_reduce lr) g) as Apart.
  { intros lr' g' Hin. rewrite Forall_forall in Sl. apply acc_key_apart; [by apply Sl|done|]. intros E. apply Nin.
    rewrite <- E. apply list_elem_of_fmap. by exists lr'. }
  destruct (apply_reduce_spec s lr k r h l g add Hs A Hg Hroom) as (s1 & E1 & A1 & F1).
  destruct (IH s1 k r h l add) as (s2 & E2 & T2 & F2).
  { done. }
  { apply (tracked_frame (held s)); [|exact T]. intros lr' g' Hin. apply F1. by apply Apart. }
  { done. }
  exists s2. split; [|split].
  - simpl. by rewrite E1.
  - constructor; [|done]. apply (accs_at_frame (held s1)); [|done]. intros g'. apply F2.
    intros (lr' & g2 & Hin & E). rewrite Forall_forall in Sl.
    assert (red_slot (lr_reduce lr) <> red_slot (lr_reduce lr')) as N.
    { intros E'. apply Nin. rewrite E'. apply list_elem_of_fmap. by exists lr'. }
    by apply (acc_key_apart h _ _ g' g2 Hs (Sl _ Hin)) in N.
  - intros key N. rewrite F2; [apply F1|].
    + intros ->. apply N. exists lr, g. split; [by left|done].
    + intros (lr' & g' & Hin & E). apply N. exists lr', g'. split; [by right|done].
Qed.
End Verbs.
End Laws.
Arguments LawfulReduce : clear implicits.

(** ** The presets are lawful *)

Lemma u64_codec_spec v : 0 <= v < 2 ^ 64 -> decode_acc u64_codec (encode_acc u64_codec v) = Ok v.
Proof.
  intros H. change ((assert_ (zlen (be_bytes 8 v) =? 8);; Ok (be_val (be_bytes 8 v))) = @Ok unit Z v).
  rewrite be_bytes_zlen, be_val_be_bytes_small by (simpl; lia). done.
Qed.

Lemma i64_codec_spec v : i64_ok v = true -> decode_acc i64_codec (encode_acc i64_codec v) = Ok v.
Proof.
  unfold i64_ok, in_range. intros [H1%Z.leb_le H2%Z.leb_le]%andb_prop.
  change ((assert_ (zlen (be_bytes 8 (wrap 64 v)) =? 8);; Ok (to_signed 64 (be_val (be_bytes 8 (wrap 64 v))))) = @Ok unit Z v).
  rewrite be_bytes_zlen. cbn [Z.of_nat]. change (_ =? 8) with true. cbn [assert_ mbind outcome_bind].
  assert (word_ok 8 true v) as W by (unfold word_ok, bits; simpl; lia).
  destruct (wrap_word _ _ _ W) as (B & E & _). change (bits 8) with 64 in *. rewrite be_val_be_bytes_small by (simpl in *; lia).
  f_equal. exact E.
Qed.

Lemma LowAcc_codec_spec v : 0 <= v < 2 ^ 64 -> decode_acc LowAcc_codec (encode_acc LowAcc_codec v) = Ok v.
Proof.
  intros H. change ((b ← array_of 8 (be_bytes 8 v); Ok (be_val b)) = @Ok unit Z v). rewrite array_of_ok by apply be_bytes_length.
  cbn [mbind outcome_bind]. by rewrite be_val_be_bytes_small by (simpl; lia).
Qed.

Section Lawful.
Context {K R : Type}.
Variable p : profile.

(** The value a source has for a row. *)
Definition value (f : K -> R -> outcome unit Z) (kr : K * R) : Z :=
  match f kr.1 kr.2 with Ok v => v | _ => 0 end.

Definition total (f : K -> R -> outcome unit Z) (l : list (K * R)) : Z := fold_right (λ kr n, value f kr + n) 0 l.

(** A source that answers on every row of [l] with a value of [ok]. *)
Definition answers (f : K -> R -> outcome unit Z) (ok : Z -> Prop) (l : list (K * R)) : Prop :=
  Forall (λ kr, f kr.1 kr.2 = Ok (value f kr) /\ ok (value f kr)) l.

Definition acc_fits (signed : bool) (v : Z) : Prop := if signed then i64_ok v = true else 0 <= v < 2 ^ 64.

Lemma total_perm f l l' : l ≡ₚ l' -> total f l = total f l'.
Proof. induction 1; simpl; lia. Qed.

Definition Count_room (l : list (K * R)) : Prop := zlen l < 2 ^ 64.

Definition Count_J (l : list (K * R)) (acc : Acc (@Count K R p)) : Prop := acc = zlen l /\ zlen l < 2 ^ 64.

Lemma Count_law : reduce_law (Count p) Count_room Count_J.
Proof.
  unfold Count_room, Count_J. split.
  - intros g acc [-> H]. apply u64_codec_spec. pose proof (zlen_nonneg g). lia.
  - done.
  - intros g g' acc P. unfold zlen. by rewrite (Permutation_length P).
  - intros k r g acc [-> H] Room. exists (zlen g + 1). cbn [fold Count].
    unfold add_w. rewrite (proj2 (Z.ltb_lt _ _)) by zlia. split; [done|]. split; zlia.
  - intros k r g acc [-> H] _. exists (zlen g). cbn [unfold Count]. unfold sub_u64.
    pose proof (zlen_nonneg g). rewrite (proj2 (Z.leb_le _ _)) by zlia. split; [f_equal; zlia|]. split; [done|zlia].
Qed.

Section Source.
Variable src : ReduceFieldSource K R.

Definition sign_ok (v : Z) : Prop := if src_signed src then True else 0 <= v.

Definition Sum_room (l : list (K * R)) : Prop :=
  answers (reduce_field_acc src) sign_ok l /\ acc_fits (src_signed src) (total (reduce_field_acc src) l).

Definition Sum_J (l : list (K * R)) (acc : Acc (Sum p src)) : Prop :=
  acc = total (reduce_field_acc src) l /\ Sum_room l.

Lemma Sum_law : reduce_law (Sum p src) Sum_room Sum_J.
Proof.
  unfold Sum_J, Sum_room. split.
  - intros g acc [-> [_ H]]. cbn [codec Sum]. destruct (src_signed src); [by apply i64_codec_spec|by apply u64_codec_spec].
  - cbn [codec Sum]. unfold acc_fits. destruct (src_signed src); (split; [done|split; [constructor|]]); simpl; done.
  - intros g g' acc P (E & A & F). rewrite <- (total_perm _ g g' P). split; [done|]. split; [|done].
    unfold answers in *. by rewrite <- P.
  - intros k r g acc (-> & A & F) [A' F']. pose proof A' as [[Ev Sv] _]%Forall_cons. simpl in Ev, Sv.
    exists (total (reduce_field_acc src) ((k, r) :: g)). split; [|done]. cbn [fold Sum]. rewrite Ev.
    cbn [mbind outcome_bind]. simpl in F'. unfold acc_fits, sign_ok in *. simpl total. rewrite Z.add_comm in F'.
    destruct (src_signed src).
    + unfold add_i64. rewrite F'. f_equal. lia.
    + unfold add_w. rewrite (proj2 (Z.ltb_lt _ _)) by lia. f_equal. lia.
  - intros k r g acc (-> & A & F) [A' F']. pose proof A as [[Ev Sv] _]%Forall_cons. simpl in Ev, Sv.
    exists (total (reduce_field_acc src) g). split; [|done]. cbn [unfold Sum]. rewrite Ev. cbn [mbind outcome_bind].
    simpl total. unfold acc_fits, sign_ok in *. set (v := value _ _) in *. set (t := total _ g) in *.
    replace (v + t - v) with t by lia. destruct (src_signed src).
    + unfold sub_i64. replace (v + t - v) with t by lia. by rewrite F'.
    + unfold sub_u64. rewrite (proj2 (Z.leb_le _ _)) by lia. f_equal. lia.
Qed.

Definition Water_room (l : list (K * R)) : Prop := answers (reduce_field_u64 src) (λ v, 0 <= v < 2 ^ 64) l.

(** The watermark is on the far side of every row, and it was some row's value
    or the start. *)
Definition High_J (l : list (K * R)) (acc : Acc (HighWater src)) : Prop :=
  0 <= acc < 2 ^ 64 /\ answers (reduce_field_u64 src) (λ v, 0 <= v <= acc) l.

Definition Low_J (l : list (K * R)) (acc : Acc (LowWater src)) : Prop :=
  0 <= acc < 2 ^ 64 /\ answers (reduce_field_u64 src) (λ v, acc <= v) l.

Lemma answers_weaken f (P Q : Z -> Prop) l : (forall v, P v -> Q v) -> answers f P l -> answers f Q l.
Proof. intros H A. eapply Forall_impl; [exact A|]. intros kr [? ?]. auto. Qed.

Lemma answers_perm f P l l' : l ≡ₚ l' -> answers f P l -> answers f P l'.
Proof. intros E. unfold answers. by rewrite E. Qed.

Lemma HighWater_law : reduce_law (HighWater src) Water_room High_J.
Proof.
  unfold High_J. split.
  - intros g acc [H _]. by apply u64_codec_spec.
  - split; [cbn; lia|constructor].
  - intros g g' acc P [B A]. split; [done|]. by eapply answers_perm.
  - intros k r g acc [B A] Room. apply Forall_cons in Room as [[Ev Hv] _]. simpl in Ev, Hv.
    exists (acc `max` value (reduce_field_u64 src) (k, r)). cbn [fold HighWater]. rewrite Ev.
    split; [done|]. split; [lia|]. constructor; [split; [done|lia]|].
    apply (answers_weaken _ _ (λ v, 0 <= v <= acc `max` value (reduce_field_u64 src) (k, r)) _) in A; [exact A|]. intros v Hv'. simpl in Hv'. lia.
  - intros k r g acc [B A] _. exists acc. apply Forall_cons in A as [_ A]. done.
Qed.

Lemma LowWater_law : reduce_law (LowWater src) Water_room Low_J.
Proof.
  unfold Low_J. split.
  - intros g acc [H _]. by apply LowAcc_codec_spec.
  - split; [cbn; lia|constructor].
  - intros g g' acc P [B A]. split; [done|]. by eapply answers_perm.
  - intros k r g acc [B A] Room. apply Forall_cons in Room as [[Ev Hv] _]. simpl in Ev, Hv.
    exists (acc `min` value (reduce_field_u64 src) (k, r)). cbn [fold LowWater]. rewrite Ev.
    split; [done|]. split; [lia|]. constructor; [split; [done|lia]|].
    apply (answers_weaken _ _ (λ v, acc `min` value (reduce_field_u64 src) (k, r) <= v) _) in A; [exact A|]. intros v Hv'. simpl in Hv'. lia.
  - intros k r g acc [B A] _. exists acc. apply Forall_cons in A as [_ A]. done.
Qed.

(** A declaration with each of the presets. *)
Definition lawful (slot : Slot) (names : list bytes) (g : K -> R -> outcome unit bytes)
    (l : ReduceLogic K R) room J (law : reduce_law l room J) : LawfulReduce K R :=
  mkLawful (mkReduce K R slot names l g) room J law.
End Source.
End Lawful.

(** ** Theorems *)

Section Theorems.
Context {K R : Type}.

(** Writes to the rows behind a set of reduces: each inserts a row or removes
    one that is there, and every group keeps room. *)
Inductive row_history (reds : list (LawfulReduce K R))
    : list (K * R) -> list (bool * (K * R)) -> list (K * R) -> Prop :=
| history_nil l l' : l ≡ₚ l' -> row_history reds l [] l'
| history_cons l1 add k r l hist l' :
    l1 ≡ₚ before add (k, r) l -> has_room reds k r (after add (k, r) l) ->
    row_history reds (after add (k, r) l) hist l' -> row_history reds l1 ((add, (k, r)) :: hist) l'.

(** The calls of the hook, one after the other. *)
Fixpoint run_history {S} `{VirtualStorage S} (reds : list (Reduce K R)) (s : S) (h : bytes)
    (hist : list (bool * (K * R))) : S * result unit :=
  match hist with
  | [] => (s, Ok tt)
  | (add, (k, r)) :: hist =>
      match apply_reduces reds s k r h add with
      | (s, Ok _) => run_history reds s h hist
      | (s, r) => (s, r)
      end
  end.

(** C26: the reduce hook keeps precomputed aggregates true.  For any set of lawful
    reduces under distinct slots, over any engine or pending batch, and for any
    history that inserts rows and removes rows that are there, every call
    succeeds, every group's accumulator describes exactly the rows of that group
    that are left, groups never leak into each other although their entries share
    the key space, and no key outside the reduces' slots is touched. *)
Theorem reduces_refine {S} `{PointStorage S} (s : S) h (reds : list (LawfulReduce K R)) l hist l' :
  slots_apart reds -> tracked (held s) h l reds -> row_history reds l hist l' ->
  exists s', run_history (map lr_reduce reds) s h hist = (s', Ok tt) /\ tracked (held s') h l' reds /\
  forall key, ~ red_keys h reds key -> held s' !! key = held s !! key.
Proof.
  intros Sl T Hist. revert s T. induction Hist as [l l' P|l1 add k r l hist l' P Room _ IH]; intros s T.
  - exists s. split; [done|]. split; [by eapply tracked_perm|done].
  - destruct (apply_reduces_spec (S := S) reds s k r h l add Sl) as (s1 & E & T1 & F1); [by eapply tracked_perm|done|].
    destruct (IH s1 T1) as (s2 & E2 & T2 & F2). exists s2. simpl. rewrite E. split; [done|]. split; [done|].
    intros key N. by rewrite F2, F1.
Qed.

(** What a tracked store answers for the group of a row that is there. *)
Lemma reduce_get_tracked {S} `{PointStorage S} (s : S) h (l : list (K * R)) (lr : LawfulReduce K R) k r :
  slot_ok (red_slot (lr_reduce lr)) -> accs_at (held s) h l lr -> (k, r) ∈ l ->
  (exists g, group_bytes (lr_reduce lr) k r = Ok g) ->
  exists g acc, group_bytes (lr_reduce lr) k r = Ok g /\
  reduce_get s (lr_reduce lr) h k r = Ok (Some acc) /\ lr_J lr (group (lr_reduce lr) g l) acc.
Proof.
  intros Hs A Hin [g Hg]. specialize (A g). exists g.
  assert (held s !! acc_key h (lr_reduce lr) g <> None) as NN.
  { intros E. rewrite E in A. assert ((k, r) ∈ group (lr_reduce lr) g l) as Hx.
    { apply list_elem_of_filter. split; [by apply in_group_true|done]. } rewrite A in Hx. by apply elem_of_nil in Hx. }
  destruct (held s !! acc_key h (lr_reduce lr) g) as [b|] eqn:L; [|done]. destruct A as (acc & D & HJ).
  exists acc. split; [done|]. split; [|done]. unfold reduce_get, reduce_entry_key. rewrite Hg. cbn [liftp mbind outcome_bind].
  rewrite write_slot_ok by done. cbn [mbind outcome_bind]. rewrite <- app_assoc. fold (acc_key h (lr_reduce lr) g).
  rewrite held_get, L. cbn [mbind outcome_bind]. by rewrite D.
Qed.

(** What the presets answer.  On a tracked store, for the group of a row that
    is there: [Count] is the number of rows of the group, [Sum] their exact total
    (signed or unsigned, in both builds), [HighWater] at least every row's value
    and [LowWater] at most every row's value. *)
Theorem presets_answer {S} `{PointStorage S} p (s : S) h (l : list (K * R)) k r src i1 i2 i3 i4 n1 n2 n3 n4 g1 g2 g3 g4 g :
  let count := lawful i1 n1 g1 _ _ _ (Count_law p) in
  let sum := lawful i2 n2 g2 _ _ _ (Sum_law p src) in
  let high := lawful i3 n3 g3 _ _ _ (HighWater_law src) in
  let low := lawful i4 n4 g4 _ _ _ (LowWater_law src) in
  let reds := [count; sum; high; low] in
  let rows_of lr := group (lr_reduce lr) g l in
  slots_apart reds -> tracked (held s) h l reds -> (k, r) ∈ l ->
  Forall (λ lr, group_bytes (lr_reduce lr) k r = Ok g) reds ->
  reduce_get s (lr_reduce count) h k r = Ok (Some (zlen (rows_of count))) /\
  reduce_get s (lr_reduce sum) h k r = Ok (Some (total (reduce_field_acc src) (rows_of sum))) /\
  (exists m, reduce_get s (lr_reduce high) h k r = Ok (Some m) /\
    forall kr, kr ∈ rows_of high -> exists v, reduce_field_u64 src kr.1 kr.2 = Ok v /\ v <= m) /\
  (exists m, reduce_get s (lr_reduce low) h k r = Ok (Some m) /\
    forall kr, kr ∈ rows_of low -> exists v, reduce_field_u64 src kr.1 kr.2 = Ok v /\ m <= v).
Proof.
  intros count sum high low reds rows_of [_ Sl] T Hin Hg.
  assert (forall lr, lr ∈ reds -> exists acc, reduce_get s (lr_reduce lr) h k r = Ok (Some acc) /\ lr_J lr (rows_of lr) acc) as Get.
  { intros lr Hlr. rewrite Forall_forall in Hg, Sl. unfold tracked in T. rewrite Forall_forall in T.
    destruct (reduce_get_tracked s h l lr k r) as (g' & acc & Eg & ? & ?); [by apply Sl|by apply T|done|by exists g; apply Hg|].
    assert (g' = g) as -> by (rewrite (Hg lr Hlr) in Eg; congruence). by exists acc. }
  destruct (Get count) as (a1 & E1 & J1); [by left|]. destruct (Get sum) as (a2 & E2 & J2); [by right; left|].
  destruct (Get high) as (a3 & E3 & J3); [by do 2 right; left|]. destruct (Get low) as (a4 & E4 & J4); [by do 3 right; left|].
  clear Get T Hg Sl. split; [|split; [|split]].
  - rewrite E1. by destruct J1 as [-> _].
  - rewrite E2. by destruct J2 as [-> _].
  - exists a3. split; [done|]. intros kr Hkr. destruct J3 as [_ J]. unfold answers in J. rewrite Forall_forall in J.
    destruct (J kr Hkr) as [E ?]. exists (value (reduce_field_u64 src) kr). split; [done|lia].
  - exists a4. split; [done|]. intros kr Hkr. destruct J4 as [_ J]. unfold answers in J. rewrite Forall_forall in J.
    destruct (J kr Hkr) as [E ?]. exists (value (reduce_field_u64 src) kr). split; [done|lia].
Qed.
End Theorems.

(** * Witnesses

    Two rows of one group, counted and summed. *)
Definition sample_group (k : krow sample_key) (r : row (fields sample_schema)) : outcome unit bytes :=
  group_named Debug (fields sample_schema) k r [[98]].

Definition sample_source : ReduceFieldSource (krow sample_key) (row (fields sample_schema)) := {|
  src_signed := false;
  reduce_field_acc k r := buf ← group_named Debug (fields sample_schema) k r [[97]]; readback false buf;
  reduce_field_u64 k r := buf ← group_named Debug (fields sample_schema) k r [[97]]; readback false buf
|}.

Lemma sample_source_derived : derived_source Debug (fields sample_schema) [97] = Some sample_source.
Proof. reflexivity. Qed.

Definition sample_reds : list (LawfulReduce (krow sample_key) (row (fields sample_schema))) :=
  [lawful 0x4001 [[98]] sample_group _ _ _ (Count_law Debug);
   lawful 0x4002 [[98]] sample_group _ _ _ (Sum_law Debug sample_source);
   lawful 0x4003 [[98]] sample_group _ _ _ (HighWater_law sample_source);
   lawful 0x4004 [[98]] sample_group _ _ _ (LowWater_law sample_source)].

Definition sample_id2 : krow sample_key := (7, (301, ([9; 8], tt))).

Lemma sample_reds_apart : slots_apart sample_reds.
Proof.
  split; [apply (bool_decide_unpack _); by vm_compute|].
  repeat (apply Forall_cons; split; [right; simpl; lia|]). constructor.
Qed.

Lemma tracked_empty h : tracked ∅ h [] sample_reds.
Proof. repeat constructor; intros g; rewrite lookup_empty; reflexivity. Qed.

Definition sample_rows : list (krow sample_key * row (fields sample_schema)) := [(sample_id2, sample_row)].

(** Rows whose field reads 300; a few of them fit every accumulator. *)
Definition fine (kr : krow sample_key * row (fields sample_schema)) : bool :=
  match reduce_field_acc sample_source kr.1 kr.2 with Ok v => v =? 300 | _ => false end.

Lemma fine_rooms l : Forall (λ kr, fine kr = true) l -> (length l < 4)%nat ->
  Count_room l /\ Sum_room sample_source l /\ Water_room sample_source l.
Proof.
  intros F L. assert (answers (reduce_field_acc sample_source) (λ v, v = 300) l) as A.
  { eapply Forall_impl; [exact F|]. intros kr E. unfold fine in E. unfold value.
    destruct (reduce_field_acc sample_source kr.1 kr.2); [|done..]. by apply Z.eqb_eq in E as ->. }
  split; [unfold Count_room, zlen; lia|]. split; [split|].
  - eapply Forall_impl; [exact A|]. intros kr [E V]. split; [exact E|]. rewrite V. unfold sign_ok. simpl. lia.
  - assert (total (reduce_field_acc sample_source) l = 300 * zlen l) as ->; [|unfold acc_fits, zlen; cbn [src_signed sample_source]; lia].
    clear L F. induction A as [|kr l [_ E] _ IH]; [done|].
    unfold total in *. cbn [fold_right]. rewrite E, IH. zlia.
  - eapply Forall_impl; [exact A|]. intros kr [E V]. unfold value in *. cbn [reduce_field_u64 reduce_field_acc sample_source] in *.
    rewrite V. split; [by rewrite E, V|lia].
Qed.

Lemma sample_room k r l :
  sample_group k r = Ok [104; 105] -> forallb fine l && (length l <? 4)%nat = true -> has_room sample_reds k r l.
Proof.
  intros Hg [F L%Nat.ltb_lt]%andb_prop. rewrite List.forallb_forall in F.
  assert (forall red, Forall (λ kr, fine kr = true) (group red [104; 105] l) /\
    Nat.lt (length (group red [104; 105] l)) 4) as G.
  { intros red. split.
    - apply Forall_forall. intros kr [_ Hin]%list_elem_of_filter. by apply F, list_elem_of_In.
    - pose proof (length_filter (λ kr, in_group red [104; 105] kr = true) l). unfold group. lia. }
  repeat (apply Forall_cons; split; [exists [104; 105]; split; [done|]; by apply fine_rooms; apply G|]). constructor.
Qed.

Lemma sample_history :
  row_history sample_reds [] [(true, (sample_id, sample_row)); (true, (sample_id2, sample_row)); (false, (sample_id, sample_row))]
    sample_rows.
Proof.
  apply (history_cons _ _ true sample_id sample_row []); [done|apply sample_room; by vm_compute|].
  apply (history_cons _ _ true sample_id2 sample_row [(sample_id, sample_row)]); [done|apply sample_room; by vm_compute|].
  apply (history_cons _ _ false sample_id sample_row sample_rows); [apply Permutation_swap|apply sample_room; by vm_compute|].
  by apply history_nil.
Qed.

Lemma reduces_refine_witness :
  exists s' : MemStore, run_history (map lr_reduce sample_reds) (∅ : MemStore) [0; 33]
    [(true, (sample_id, sample_row)); (true, (sample_id2, sample_row)); (false, (sample_id, sample_row))] = (s', Ok tt) /\
  tracked (held s') [0; 33] sample_rows sample_reds /\
  forall key, ~ red_keys [0; 33] sample_reds key -> held s' !! key = (∅ : gmap bytes bytes) !! key.
Proof. exact (reduces_refine (∅ : MemStore) [0; 33] sample_reds [] _ _ sample_reds_apart (tracked_empty _) sample_history). Defined.

(** The store that history leaves. *)
Definition sample_reduced : MemStore :=
  (run_history (map lr_reduce sample_reds) (∅ : MemStore) [0; 33]
    [(true, (sample_id, sample_row)); (true, (sample_id2, sample_row)); (false, (sample_id, sample_row))]).1.

Lemma sample_tracked : tracked (held sample_reduced) [0; 33] sample_rows sample_reds.
Proof.
  assert (tracked (held (∅ : MemStore)) [0; 33] (before true (sample_id, sample_row) []) sample_reds) as T0
    by exact (tracked_empty _).
  destruct (apply_reduces_spec (S := MemStore) sample_reds (∅ : MemStore) sample_id sample_row [0; 33] [] true sample_reds_apart
    T0) as (s1 & E1 & T1 & _); [apply sample_room; by vm_compute|].
  destruct (apply_reduces_spec (S := MemStore) sample_reds s1 sample_id2 sample_row [0; 33] _ true sample_reds_apart T1)
    as (s2 & E2 & T2 & _); [apply sample_room; by vm_compute|].
  destruct (apply_reduces_spec (S := MemStore) sample_reds s2 sample_id sample_row [0; 33] sample_rows false sample_reds_apart)
    as (s3 & E3 & T3 & _); [eapply tracked_perm; [|exact T2]; apply Permutation_swap|apply sample_room; by vm_compute|].
  unfold sample_reduced. cbn [run_history]. rewrite E1. cbn [run_history]. rewrite E2. cbn [run_history]. rewrite E3. exact T3.
Qed.

Lemma presets_answer_witness :
  reduce_get sample_reduced (lr_reduce (lawful 0x4002 [[98]] sample_group _ _ _ (Sum_law Debug sample_source))) [0; 33]
    sample_id2 sample_row = Ok (Some 300).
Proof.
  refine (proj1 (proj2 (presets_answer Debug sample_reduced [0; 33] sample_rows sample_id2 sample_row sample_source
    0x4001 0x4002 0x4003 0x4004 _ _ _ _ _ _ _ _ [104; 105] sample_reds_apart sample_tracked _ _))).
  - by left.
  - repeat constructor; vm_compute; reflexivity.
Defined.
