(* ===== verification/Collection.v ===== *)
(** * Collections (okm-core, [model/document.rs]; the [Document] trait of
    [model/index.rs])

    A collection binds an engine to a declared document: [Document] is the trait
    the derive implements, [Collection] the assembly point with its verbs.  A
    write builds its whole write set in a [Batch] through a [BatchStore] and
    commits once; the verbs that join a caller's batch stop before the commit.

    Subscription events are not modelled, and a collection with a change log is in
    [Changelog]; an iterator is the list of what it yields, front to back.
    [Table], [Rebuild], [Documents] and [Verbs] hold the theorems. *)
From S2P Require Import Prelude Errors Storage Slots VarInt Vocab DynValue Segment Keys Index Meta.

(** ** The trait *)

Class Document (K R : Type) `{KeyEncode K} : Type := {
  PARTITION_PREFIX : bytes;
  NS_PREFIX : bytes;
  LAYOUT_VERSION : Z;
  (** the names of [FIELDS] *)
  FIELD_NAMES : list bytes;
  INDEX_DECLS : list IndexDecl;
  DEPRECATED_SLOTS : list Slot;
  HAS_VOCAB : bool;
  encode_payload : R -> outcome unit bytes;
  decode_payload : bytes -> outcome unit R;
  key_entries : K -> bytes -> outcome unit (list (bytes * bytes));
  index_entries : K -> R -> bytes -> outcome unit (list (bytes * bytes));
  okm_apply_reduces : forall {S} `{VirtualStorage S}, S -> K -> R -> bytes -> bool -> S * result unit;
  okm_intern : forall {S} `{VirtualStorage S}, S -> bytes -> R -> S * result R;
  okm_deref_vocab : forall {S} `{VirtualStorage S}, S -> R -> result R;
  okm_embed_deref : forall {S} `{VirtualStorage S}, S -> R -> result R;
  okm_embed_entries : R -> outcome unit (list (bytes * bytes));
  okm_embed_keys : R -> outcome unit (list bytes)
}.

(** The document-map bridge of the trait. *)
Class DocumentMap (R : Type) : Type := {
  to_map : R -> outcome unit (list (bytes * DynamicValue));
  try_from_map : list (bytes * DynamicValue) -> result R
}.

(** [Document::FACES] *)
Definition faces_of (K R : Type) `{Document K R} : bytes := fingerprint (INDEX_DECLS (K := K) (R := R)).

(** ** Steps of a write *)

Definition reading {S A} (f : S -> result A) : enc S A := λ s, (s, f s).

Section Steps.
Context {S : Type} `{VirtualStorage S}.

Fixpoint write_entries (l : list (bytes * bytes)) : enc S unit :=
  match l with
  | [] => mret tt
  | (k, v) :: l => (λ s : S, vs_put s k v);; write_entries l
  end.

Fixpoint delete_keys (l : list bytes) : enc S unit :=
  match l with
  | [] => mret tt
  | k :: l => (λ s : S, vs_del s k);; delete_keys l
  end.
End Steps.

(** The elements of [l] that are not in [keep]. *)
Definition minus (l keep : list bytes) : list bytes := filter (λ k, k ∉ keep) l.

Section Document.
Context {K R : Type} `{Document K R}.
Variable p : profile.

Definition header : bytes := PARTITION_PREFIX (K := K) (R := R) ++ NS_PREFIX (K := K) (R := R).

Definition primary_key {E} (key : K) : outcome E bytes :=
  buf ← write_slot header PRIMARY_SLOT; k ← liftp (encode key); Ok (buf ++ k).

Definition segment_key {E} (key : K) : outcome E bytes := k ← liftp (encode key); fields_key header k.

Section Writes.
Context {S : Type} `{VirtualStorage S}.

(** The unfold and fold of the reduces. *)
Definition unfold_row (key : K) (document : R) : enc (BatchStore S) unit :=
  λ st, okm_apply_reduces st key document header false.

Definition unfold_prev (key : K) (prev : option R) : enc (BatchStore S) unit :=
  match prev with Some old => unfold_row key old | None => mret tt end.

Definition fold_new (key : K) (document : R) : enc (BatchStore S) unit :=
  λ st, okm_apply_reduces st key document header true.

Definition interned (document : R) : enc (BatchStore S) R :=
  if HAS_VOCAB (K := K) (R := R) then λ st, okm_intern st header document else mret document.

(** Embedded children: written when carried, released when dropped. *)
Definition embed_writes (document : R) (prev : option R) : enc (BatchStore S) unit :=
  entries ← lift (okm_embed_entries document);
  write_entries entries;;
  match prev with
  | Some old =>
      new_keys ← lift (okm_embed_keys document);
      old_keys ← lift (okm_embed_keys old);
      delete_keys (minus old_keys new_keys)
  | None => mret tt
  end.

(** The write set of [put]; it answers the interned document. *)
Definition put_body (key : K) (document : R) : enc (BatchStore S) R :=
  pkey ← lift (primary_key key);
  document ← interned document;
  raw ← reading (λ st : BatchStore S, vs_get st pkey);
  prev ← match raw with Some v => old ← lift (decode_payload v); mret (Some old) | None => mret None end;
  unfold_prev key prev;;
  payload ← lift (encode_payload document);
  (λ st : BatchStore S, vs_put st pkey payload);;
  entries ← lift (index_entries key document header);
  write_entries entries;;
  embed_writes document prev;;
  fold_new key document;;
  mret document.

(** The old row of [save_with_prev_into]: the caller's, or read through the
    batch and named. *)
Definition old_row (pkey : bytes) (prev : option R) : enc (BatchStore S) (option R) :=
  match prev with
  | Some _ => mret prev
  | None =>
      raw ← reading (λ st : BatchStore S, vs_get st pkey);
      match raw with
      | None => mret None
      | Some v =>
          old ← lift (decode_payload v);
          old ← reading (λ st : BatchStore S, okm_deref_vocab (bs_store st) old);
          mret (Some old)
      end
  end.

(** The faces: the new set is written, the old set's leftovers deleted. *)
Definition face_writes (key : K) (document : R) (prev : option R) : enc (BatchStore S) unit :=
  new_faces ← lift (index_entries key document header);
  match prev with
  | Some old =>
      old_faces ← lift (index_entries key old header);
      delete_keys (minus (map fst old_faces) (map fst new_faces))
  | None => mret tt
  end;;
  write_entries new_faces.

Definition save_body (key : K) (document : R) (prev : option R) : enc (BatchStore S) unit :=
  pkey ← lift (primary_key key);
  prev ← old_row pkey prev;
  document ← interned document;
  unfold_prev key prev;;
  payload ← lift (encode_payload document);
  (λ st : BatchStore S, vs_put st pkey payload);;
  face_writes key document prev;;
  embed_writes document prev;;
  fold_new key document.

(** A body run over a batch. *)
Definition into {A} (body : enc (BatchStore S) A) (store : S) : enc Batch A := λ batch,
  let '(st, r) := body (mkBatchStore store batch) in (bs_batch st, r).

Definition save_with_prev_into (store : S) (key : K) (document : R) (prev : option R) : enc Batch unit :=
  into (save_body key document prev) store.

Definition delete_body (key : K) (document : R) : enc (BatchStore S) unit :=
  pkey ← lift (primary_key key);
  (λ st : BatchStore S, vs_del st pkey);;
  entries ← lift (index_entries key document header);
  delete_keys (map fst entries);;
  unfold_row key document.

Definition delete_into (store : S) (key : K) (document : R) : enc Batch unit := into (delete_body key document) store.

(** A stored document, decoded and named. *)
Definition load (store : S) (raw : option bytes) : result (option R) :=
  match raw with
  | None => Ok None
  | Some v =>
      document ← liftp (decode_payload v);
      document ← okm_embed_deref store document;
      document ← okm_deref_vocab store document;
      Ok (Some document)
  end.
End Writes.

Definition removal_reads {V} `{VirtualStorage V} (store : V) (key : K) : result (option R * bool) :=
  pkey ← primary_key key;
  raw ← vs_get store pkey;
  document ← load store raw;
  sk ← segment_key key;
  segment ← vs_get store sk;
  Ok (document, bool_decide (is_Some segment)).

Section Purge.
Context {S : Type} `{VirtualStorage S}.

(** [batch.del(&self.fields_key(key))] *)
Definition drop_segment (key : K) : enc Batch unit := λ b,
  match segment_key (E := Error) key with Ok sk => (Batch_del b sk, Ok tt) | _ => (b, Panic) end.

(** The deletes both purges build. *)
Definition purge_writes (store : S) (key : K) (prev : option R) (has_segment : bool) : enc Batch unit :=
  match prev with Some document => delete_into store key document | None => mret tt end;;
  if has_segment then drop_segment key else mret tt.

Definition purge_into (store : S) (key : K) : enc Batch bool :=
  reads ← reading (λ b, removal_reads (mkBatchStore store b) key);
  let '(prev, has_segment) := reads in
  if negb (bool_decide (is_Some prev)) && negb has_segment then mret false
  else purge_writes store key prev has_segment;; mret true.
End Purge.

(** ** The assembly point *)

Record Collection (S : Type) : Type := mkCollection { store : S; epoch : Z }.
Arguments mkCollection {S} _ _.
Arguments store {S} _.
Arguments epoch {S} _.

Definition Collection_new {S} (s : S) : Collection S := mkCollection s 0.

Section Verbs.
Context {S : Type} `{VirtualStorage S}.

Definition commit (c : Collection S) (batch : Batch) : Collection S * result unit :=
  let '(s, r) := vs_commit_batch (store c) batch in
  match r with
  | Ok _ =>
      match add_w (E := Error) p 64 (epoch c) 1 with
      | Ok e => (mkCollection s e, Ok tt)
      | _ => (mkCollection s (epoch c), Panic)
      end
  | r => (mkCollection s (epoch c), r)
  end.

Definition commit_batch (c : Collection S) (batch : Batch) : Collection S * result unit := commit c batch.

(** Build a batch, then commit it. *)
Definition commit_built {A} (c : Collection S) (build : enc Batch A) : Collection S * result A :=
  match build Batch_default with
  | (batch, Ok a) => let '(c, r) := commit c batch in (c, r;; Ok a)
  | (_, Err e) => (c, Err e)
  | (_, Panic) => (c, Panic)
  end.

Definition put (c : Collection S) (key : K) (document : R) : Collection S * result unit :=
  let '(c, r) := commit_built c (into (put_body key document) (store c)) in (c, r;; Ok tt).

Definition get (c : Collection S) (key : K) : result (option R) :=
  k ← primary_key key; raw ← vs_get (store c) k; load (store c) raw.

Definition upsert_with (c : Collection S) (key : K) (f : option R -> R) : Collection S * result R :=
  match get c key with
  | Ok old => let new := f old in let '(c, r) := put c key new in (c, r;; Ok new)
  | Err e => (c, Err e)
  | Panic => (c, Panic)
  end.

Definition purge (c : Collection S) (key : K) : Collection S * result bool :=
  match removal_reads (store c) key with
  | Ok (prev, has_segment) =>
      if negb (bool_decide (is_Some prev)) && negb has_segment then (c, Ok false)
      else let '(c, r) := commit_built c (purge_writes (store c) key prev has_segment) in (c, r;; Ok true)
  | Err e => (c, Err e)
  | Panic => (c, Panic)
  end.

(** The meta verbs. *)
Definition meta (c : Collection S) : result (option TableMeta) := meta_read p (store c) header.

Definition on_store {A} (c : Collection S) (r : S * result A) : Collection S * result A :=
  (mkCollection r.1 (epoch c), r.2).

Definition ensure_layout (c : Collection S) : Collection S * result TableMeta :=
  on_store c (meta_ensure p (store c) header (LAYOUT_VERSION (K := K) (R := R)) (Some (faces_of K R))).

Definition faces_status (c : Collection S) : result FaceStatus :=
  m ← meta_read p (store c) header;
  Ok (match m with Some m => face_status m (faces_of K R) | None => Unknown (faces_of K R) end).

Definition set_meta (c : Collection S) (name value : bytes) : Collection S * result TableMeta :=
  match ensure_layout c with
  | (c, Ok m) =>
      let m := meta_set (meta_set m name value) VERSION [LAYOUT_VERSION (K := K) (R := R)] in
      on_store c (let '(s, r) := meta_write p (store c) header m in (s, r;; Ok m))
  | (c, r) => (c, r)
  end.

(** ** Whole-document verbs *)

Definition extend {V} (m new : list (bytes * V)) : list (bytes * V) :=
  fold_left (λ m kv, btree_insert kv.1 kv.2 m) new m.

Definition declared (kv : bytes * DynamicValue) : bool := bool_decide (kv.1 ∈ FIELD_NAMES (K := K) (R := R)).

Definition split_names (object : list (bytes * DynamicValue))
    : list (bytes * DynamicValue) * list (bytes * DynamicValue) :=
  (List.filter declared object, List.filter (λ kv, negb (declared kv)) object).

Variable capacity : Z.

Definition slot1_of (c : Collection S) (key : K) : result (option (list (bytes * DynamicValue))) :=
  k ← liftp (encode key); slot1_map p capacity (store c) header k.

Definition slot1_writes (c : Collection S) (key : K) (variants : list (bytes * DynamicValue)) : enc Batch unit := λ b,
  match encode key with Ok k => slot1_into p (store c) b header k variants | _ => (b, Panic) end.

Context `{DocumentMap R}.

Definition fetch (c : Collection S) (key : K) : result (option (list (bytes * DynamicValue))) :=
  row ← get c key;
  stored ← slot1_of c key;
  match row, stored with
  | None, None => Ok None
  | _, _ =>
      out ← match row with Some r => liftp (to_map r) | None => Ok [] end;
      Ok (Some (match stored with Some fields => extend out fields | None => out end))
  end.

Definition merge_body (c : Collection S) (key : K) (object : list (bytes * DynamicValue)) : enc Batch unit :=
  let '(typed, dynamic) := split_names object in
  match typed with
  | [] => mret tt
  | _ =>
      prev ← reading (λ _, get c key);
      merged ← match prev with Some r => lift (to_map r) | None => mret [] end;
      document ← reading (λ _, try_from_map (extend merged typed));
      save_with_prev_into (store c) key document prev
  end;;
  match dynamic with
  | [] => mret tt
  | _ =>
      stored ← reading (λ _, slot1_of c key);
      slot1_writes c key (extend (default [] stored) dynamic)
  end.

Definition merge (c : Collection S) (key : K) (object : list (bytes * DynamicValue)) : Collection S * result unit :=
  commit_built c (merge_body c key object).

Definition replace_body (c : Collection S) (key : K) (object : list (bytes * DynamicValue)) : enc Batch unit :=
  let '(typed, dynamic) := split_names object in
  prev ← reading (λ _, get c key);
  match typed with
  | [] => match prev with Some old => delete_into (store c) key old | None => mret tt end
  | _ =>
      document ← reading (λ _, try_from_map typed);
      save_with_prev_into (store c) key document prev
  end;;
  slot1_writes c key dynamic.

Definition replace (c : Collection S) (key : K) (object : list (bytes * DynamicValue)) : Collection S * result unit :=
  commit_built c (replace_body c key object).
End Verbs.

(** ** Scans *)

Section Scans.
Context {S : Type} `{VirtualStorage S}.

(** Fetch the document behind each hit whose entry carries the whole key. *)
Fixpoint fetch_back (c : Collection S) (hits : list (PrefixKey K)) : result (list (PrefixKey K * option R)) :=
  match hits with
  | [] => Ok []
  | pk :: hits =>
      document ← if pk_taken pk =? KEY_LEN (K := K) then get c (pk_decoded pk) else Ok None;
      rest ← fetch_back c hits;
      Ok ((pk, document) :: rest)
  end.

Definition scan (c : Collection S) (ix : KvIndex K R) (encoded : bytes) : result (list (PrefixKey K * option R)) :=
  hits ← scan_index (store c) ix header encoded; fetch_back c hits.

Definition scan_exact (c : Collection S) (ix : KvIndex K R) (encoded : bytes) : result (list (PrefixKey K * option R)) :=
  hits ← scan_index_exact (store c) ix header encoded; fetch_back c hits.

(** [&full[n..]] *)
Definition cut_from {E} (full : bytes) (n : Z) : outcome E bytes := or_panic (slice full n (zlen full)).

(** The entries of a range: the identity is read off what stands after the
    begin bound. *)
Fixpoint range_hits (c : Collection S) (b_len taken : Z) (keys : list bytes) : result (list (PrefixKey K * option R)) :=
  match keys with
  | [] => Ok []
  | full :: keys =>
      suffix ← cut_from full b_len;
      if zlen suffix <? taken then range_hits c b_len taken keys
      else
        decoded ← liftp (decode_tail taken suffix);
        document ← if taken =? KEY_LEN (K := K) then get c decoded else Ok None;
        rest ← range_hits c b_len taken keys;
        Ok ((mkPrefixKey decoded taken, document) :: rest)
  end.

Definition scan_range (c : Collection S) (ix : KvIndex K R) (begin : bytes) (end_ : option bytes)
    : result (list (PrefixKey K * option R)) :=
  b ← liftp (entry_prefix ix header begin);
  e ← match end_ with Some end_ => e ← liftp (entry_prefix ix header end_); Ok (Some e) | None => Ok None end;
  taken ← liftp (key_prefix_width ix);
  keys ← vs_scan_range (store c) b e;
  range_hits c (zlen b) taken keys.

(** One step of the lazy walk: [None] is an entry it passes over. *)
Definition entry_item (c : Collection S) (b_len taken : Z) (item : pair_item)
    : option (result (PrefixKey K * option R)) :=
  match item with
  | Ok (full, _) =>
      match cut_from (E := Error) full b_len with
      | Ok suffix =>
          if zlen suffix <? taken then None
          else Some (
            decoded ← liftp (decode_tail taken suffix);
            document ← if taken =? KEY_LEN (K := K) then get c decoded else Ok None;
            Ok (mkPrefixKey decoded taken, document))
      | _ => Some Panic
      end
  | Err e => Some (Err e)
  | Panic => Some Panic
  end.

Definition entry_iter (c : Collection S) (taken : Z) (b : bytes) (e : option bytes)
    : list (result (PrefixKey K * option R)) :=
  omap (entry_item c (zlen b) taken) (vs_scan_range_iter (store c) b e).

Definition scan_range_iter (c : Collection S) (ix : KvIndex K R) (begin : bytes) (end_ : option bytes)
    : result (list (result (PrefixKey K * option R))) :=
  b ← liftp (entry_prefix ix header begin);
  e ← match end_ with Some end_ => e ← liftp (entry_prefix ix header end_); Ok (Some e) | None => Ok None end;
  taken ← liftp (key_prefix_width ix);
  Ok (entry_iter c taken b e).

Definition scan_prefix_iter (c : Collection S) (ix : KvIndex K R) (probe : bytes)
    : result (list (result (PrefixKey K * option R))) :=
  b ← liftp (entry_prefix ix header probe);
  taken ← liftp (key_prefix_width ix);
  Ok (entry_iter c taken b (prefix_end b)).

(** [covered] is the index's [decode_covered]. *)
Fixpoint covered_hits {C} (covered : bytes -> outcome unit C) (taken : Z) (pairs : list (bytes * bytes))
    : outcome unit (list (PrefixKey K * C)) :=
  match pairs with
  | [] => Ok []
  | (suffix, v) :: pairs =>
      if zlen suffix <? taken then covered_hits covered taken pairs
      else
        decoded ← decode_tail taken suffix;
        fields ← covered v;
        rest ← covered_hits covered taken pairs;
        Ok ((mkPrefixKey decoded taken, fields) :: rest)
  end.

Definition scan_covered {C} (c : Collection S) (ix : KvIndex K R) (covered : bytes -> outcome unit C) (encoded : bytes)
    : result (list (PrefixKey K * C)) :=
  b ← liftp (entry_prefix ix header encoded);
  taken ← liftp (key_prefix_width ix);
  pairs ← scan_suffix_kv (store c) b;
  liftp (covered_hits covered taken pairs).

(** The two-pointer merge of the row and the segment suffixes; [fuel] is the
    number of entries left. *)
Fixpoint merge_slots {V} (fuel : nat) (rows : list (bytes * V)) (segs : list bytes) : list (bytes * option V) :=
  match fuel, rows, segs with
  | O, _, _ | _, [], [] => []
  | Datatypes.S fuel, (r, v) :: rows', s :: segs' =>
      if bool_decide (r ≼ s) then (r, Some v) :: merge_slots fuel rows' (if bool_decide (s = r) then segs' else segs)
      else (s, None) :: merge_slots fuel rows segs'
  | Datatypes.S fuel, (r, v) :: rows', [] => (r, Some v) :: merge_slots fuel rows' []
  | Datatypes.S fuel, [], s :: segs' => (s, None) :: merge_slots fuel [] segs'
  end.

Definition scan_documents_raw (c : Collection S) : result (list (bytes * option bytes)) :=
  rows ← write_slot header PRIMARY_SLOT;
  segs ← write_slot header DYNAMIC_SLOT;
  rows ← scan_suffix_kv (store c) rows;
  segs ← vs_scan_suffix (store c) segs;
  Ok (merge_slots (length rows + length segs) rows segs).

Definition key_item (head_len taken : Z) (item : pair_item) : result K :=
  '(full, _) ← item;
  let want := head_len + (KEY_LEN (K := K) - taken) in
  if negb (zlen full =? want) then Err (primary_length taken (zlen full) want)
  else k ← cut_from full (zlen full - KEY_LEN (K := K)); liftp (decode k).

Definition scan_keys (c : Collection S) (probe : PrefixProbe) : result (list (result K)) :=
  begin ← write_slot header PRIMARY_SLOT;
  let begin := begin ++ probe_bytes probe in
  Ok (map (key_item (zlen begin) (taken probe)) (vs_scan_range_iter (store c) begin (prefix_end begin))).

Definition document_key (probe : PrefixProbe) (suffix : bytes) : result K :=
  if negb (taken probe + zlen suffix =? KEY_LEN (K := K)) then
    Err (document_length (taken probe) (taken probe + zlen suffix) (KEY_LEN (K := K)))
  else liftp (decode (probe_bytes probe ++ suffix)).

Fixpoint document_keys (probe : PrefixProbe) (l : list (bytes * option unit)) : result (list K) :=
  match l with
  | [] => Ok []
  | (suffix, _) :: l => k ← document_key probe suffix; rest ← document_keys probe l; Ok (k :: rest)
  end.

Definition scan_document_keys (c : Collection S) (probe : PrefixProbe) : result (list K) :=
  rows ← write_slot header PRIMARY_SLOT;
  segs ← write_slot header DYNAMIC_SLOT;
  rows ← vs_scan_suffix (store c) (rows ++ probe_bytes probe);
  segs ← vs_scan_suffix (store c) (segs ++ probe_bytes probe);
  document_keys probe (merge_slots (length rows + length segs) (map (λ r, (r, tt)) rows) segs).

(** ** Deprecated slots *)

(** The deletes of one sweep, and how many. *)
Fixpoint prune_slots (c : Collection S) (slots : list Slot) (batch : Batch) (removed : Z) : result (Batch * Z) :=
  match slots with
  | [] => Ok (batch, removed)
  | slot :: slots =>
      b ← write_slot header slot;
      suffixes ← vs_scan_suffix (store c) b;
      prune_slots c slots (fold_left (λ batch sfx, Batch_del batch (b ++ sfx)) suffixes batch)
        (removed + zlen suffixes)
  end.

Definition prune_deprecated_slots (c : Collection S) : Collection S * result Z :=
  match prune_slots c (DEPRECATED_SLOTS (K := K) (R := R)) Batch_default 0 with
  | Ok (batch, removed) =>
      if 0 <? removed then let '(c, r) := commit c batch in (c, r;; Ok removed) else (c, Ok removed)
  | Err e => (c, Err e)
  | Panic => (c, Panic)
  end.

(** ** Rebuilding the faces *)

Record RebuildReport : Type := mkReport {
  faces_swept : Z;
  entries_deleted : Z;
  documents : Z;
  entries_written : Z;
  chunks : Z
}.

(** The loop's variables. *)
Record Rebuild : Type := mkRebuild { rb_store : S; rb_batch : Batch; rb_report : RebuildReport }.

Definition rb_stage (f : Batch -> Batch) (g : RebuildReport -> RebuildReport) : enc Rebuild unit := λ s,
  (mkRebuild (rb_store s) (f (rb_batch s)) (g (rb_report s)), Ok tt).

(** [self.store.commit_batch(std::mem::take(&mut batch))?; report.chunks += 1] *)
Definition rb_commit : enc Rebuild unit := λ s,
  let '(st, r) := vs_commit_batch (rb_store s) (rb_batch s) in
  let rep := rb_report s in
  match r with
  | Ok _ => (mkRebuild st Batch_default
      (mkReport (faces_swept rep) (entries_deleted rep) (documents rep) (entries_written rep) (chunks rep + 1)), Ok tt)
  | r => (mkRebuild st Batch_default rep, r)
  end.

Definition rb_full (chunk : Z) : enc Rebuild unit := λ s,
  if chunk <=? zlen (ops (rb_batch s)) then rb_commit s else (s, Ok tt).

Definition rb_flush : enc Rebuild unit := λ s,
  match ops (rb_batch s) with [] => (s, Ok tt) | _ => rb_commit s end.

Definition count_deleted (r : RebuildReport) : RebuildReport :=
  mkReport (faces_swept r) (entries_deleted r + 1) (documents r) (entries_written r) (chunks r).
Definition count_swept (r : RebuildReport) : RebuildReport :=
  mkReport (faces_swept r + 1) (entries_deleted r) (documents r) (entries_written r) (chunks r).
Definition count_document (n : Z) (r : RebuildReport) : RebuildReport :=
  mkReport (faces_swept r) (entries_deleted r) (documents r + 1) (entries_written r + n) (chunks r).

Fixpoint sweep_items (chunk : Z) (items : list pair_item) : enc Rebuild unit :=
  match items with
  | [] => mret tt
  | item :: items =>
      kv ← reading (λ _, item);
      rb_stage (λ b, Batch_del b kv.1) count_deleted;;
      rb_full chunk;;
      sweep_items chunk items
  end.

Fixpoint sweep_faces (chunk : Z) (decls : list IndexDecl) : enc Rebuild unit :=
  match decls with
  | [] => mret tt
  | d :: decls =>
      prefix ← reading (λ _, write_slot header (d_slot d));
      items ← reading (λ s, Ok (vs_scan_range_iter (rb_store s) prefix (prefix_end prefix)));
      sweep_items chunk items;;
      rb_stage (λ b, b) count_swept;;
      sweep_faces chunk decls
  end.

(** Whether an entry can be derived from the key alone. *)
Definition needs_payload : bool :=
  existsb (λ d, negb (d_deprecated d) && match FaceKind_of (d_slot d) with Some FaceIndex => true | _ => false end)
    (INDEX_DECLS (K := K) (R := R)).

Definition derive_entries (n : Z) (key value : bytes) : result (list (bytes * bytes)) :=
  suffix ← cut_from key n;
  if zlen suffix <? KEY_LEN (K := K) then Err (short_primary (zlen suffix) (KEY_LEN (K := K)))
  else
    tail ← cut_from suffix (zlen suffix - KEY_LEN (K := K));
    decoded ← liftp (decode tail);
    if needs_payload then
      document ← liftp (decode_payload value); liftp (index_entries decoded document header)
    else liftp (key_entries (R := R) decoded header).

Fixpoint derive_items (chunk n : Z) (items : list pair_item) : enc Rebuild unit :=
  match items with
  | [] => mret tt
  | item :: items =>
      kv ← reading (λ _, item);
      entries ← reading (λ _, derive_entries n kv.1 kv.2);
      rb_stage (λ b, fold_left (λ b e, Batch_put b e.1 e.2) entries b) (count_document (zlen entries));;
      rb_full chunk;;
      derive_items chunk n items
  end.

Definition rebuild_body (chunk : Z) : enc Rebuild unit :=
  sweep_faces chunk (List.filter (λ d, negb (d_deprecated d)) (INDEX_DECLS (K := K) (R := R)));;
  rb_flush;;
  prefix ← reading (λ _, write_slot header PRIMARY_SLOT);
  items ← reading (λ s, Ok (vs_scan_range_iter (rb_store s) prefix (prefix_end prefix)));
  derive_items chunk (zlen prefix) items;;
  rb_flush.

Definition rebuild_faces (c : Collection S) (chunk : Z) : Collection S * result RebuildReport :=
  match rebuild_body (chunk `max` 1) (mkRebuild (store c) Batch_default (mkReport 0 0 0 0 0)) with
  | (s, Ok _) =>
      on_store c (let '(st, r) := stamp_faces p (rb_store s) header (LAYOUT_VERSION (K := K) (R := R)) (faces_of K R) in
                  (st, r;; Ok (rb_report s)))
  | (s, Err e) => (mkCollection (rb_store s) (epoch c), Err e)
  | (s, Panic) => (mkCollection (rb_store s) (epoch c), Panic)
  end.
End Scans.
End Document.
Arguments Collection S : clear implicits.
Arguments mkCollection {S} _ _.
Arguments store {S} _.
Arguments epoch {S} _.

(** * Proof rules

    [runs m s Q]: the step answers a value and leaves a state that [Q] accepts. *)
Definition runs {S A} (m : enc S A) (s : S) (Q : A -> S -> Prop) : Prop :=
  exists s' a, m s = (s', Ok a) /\ Q a s'.

Lemma runs_ret {S A} (a : A) (s : S) Q : Q a s -> runs (mret a) s Q.
Proof. intros H. by exists s, a. Qed.

Lemma runs_bind {S A B} (m : enc S A) (f : A -> enc S B) s Q :
  runs m s (λ a s', runs (f a) s' Q) -> runs (x ← m; f x) s Q.
Proof.
  intros (s1 & a & E & s2 & b & E2 & H). exists s2, b. split; [|done].
  unfold mbind, enc_bind. by rewrite E.
Qed.

Lemma runs_weaken {S A} (m : enc S A) s (P Q : A -> S -> Prop) :
  runs m s P -> (forall a s', P a s' -> Q a s') -> runs m s Q.
Proof. intros (s' & a & E & H) W. exists s', a. auto. Qed.

Lemma runs_lift {S A} (o : outcome unit A) a (s : S) Q : o = Ok a -> Q a s -> runs (lift o) s Q.
Proof. intros -> H. by exists s, a. Qed.

Lemma runs_reading {S A} (f : S -> result A) a s Q : f s = Ok a -> Q a s -> runs (reading f) s Q.
Proof. intros E H. exists s, a. split; [|done]. unfold reading. by rewrite E. Qed.

(** What a batch of puts and a list of deletes do to the contents. *)
Definition overlay (c : gmap bytes bytes) (l : list (bytes * bytes)) : gmap bytes bytes :=
  fold_left (λ c kv, <[kv.1 := kv.2]> c) l c.

Definition without (c : gmap bytes bytes) (l : list bytes) : gmap bytes bytes :=
  fold_left (λ c k, delete k c) l c.

(** The newest value an entry list has for a key. *)
Definition newest (l : list (bytes * bytes)) (k : bytes) : option bytes :=
  snd <$> find (λ kv, bool_decide (kv.1 = k)) (rev l).

Lemma newest_snoc l a v k : newest (l ++ [(a, v)]) k = if decide (a = k) then Some v else newest l k.
Proof.
  unfold newest. rewrite rev_app_distr. simpl. case_bool_decide; [by rewrite decide_True|by rewrite decide_False].
Qed.

Lemma lookup_overlay c l k : overlay c l !! k = match newest l k with Some v => Some v | None => c !! k end.
Proof.
  induction l as [|[a v] l IH] using rev_ind; [done|]. unfold overlay in *. rewrite fold_left_app, newest_snoc. simpl.
  case_decide as E; [subst; by rewrite lookup_insert_eq|by rewrite lookup_insert_ne].
Qed.

Lemma newest_Some l k v : newest l k = Some v -> (k, v) ∈ l.
Proof.
  induction l as [|[a w] l IH] using rev_ind; [done|]. rewrite newest_snoc, elem_of_app. case_decide as E.
  - intros [= ->]. subst. right. by left.
  - auto.
Qed.

Lemma newest_None l k : newest l k = None <-> k ∉ map fst l.
Proof.
  induction l as [|[a w] l IH] using rev_ind.
  - split; [intros _ H%elem_of_nil; done|done].
  - rewrite newest_snoc, map_app, elem_of_app. simpl. rewrite list_elem_of_singleton. case_decide as E; [naive_solver|].
    rewrite IH. naive_solver.
Qed.

Lemma lookup_without c l k : without c l !! k = if decide (k ∈ l) then None else c !! k.
Proof.
  induction l as [|a l IH] using rev_ind; [done|]. unfold without in *. rewrite fold_left_app. simpl.
  destruct (decide (a = k)) as [->|N].
  - rewrite lookup_delete_eq, decide_True; [done|]. apply elem_of_app. right. by left.
  - rewrite lookup_delete_ne, IH by done. destruct (decide (k ∈ l)) as [H|H].
    + rewrite decide_True; [done|]. apply elem_of_app. by left.
    + rewrite decide_False; [done|]. rewrite elem_of_app, list_elem_of_singleton. naive_solver.
Qed.

Section BatchSteps.
Context {S : Type} `{PointStorage S}.

(** The state of a batch writer after a step: the store behind it is untouched,
    its contents are [c]. *)
Definition at_contents (st : BatchStore S) (c : gmap bytes bytes) (st' : BatchStore S) : Prop :=
  bs_store st' = bs_store st /\ held st' = c.

Lemma runs_put (st : BatchStore S) k v (Q : unit -> BatchStore S -> Prop) :
  (forall st', at_contents st (<[k := v]> (held st)) st' -> Q tt st') ->
  runs (λ st : BatchStore S, vs_put st k v) st Q.
Proof.
  intros HQ. eexists _, tt. split; [done|]. apply HQ. split; [done|]. destruct st as [s [l]].
  apply (apply_batch_snoc _ l (k, Some v)).
Qed.

Lemma runs_del (st : BatchStore S) k (Q : unit -> BatchStore S -> Prop) :
  (forall st', at_contents st (delete k (held st)) st' -> Q tt st') ->
  runs (λ st : BatchStore S, vs_del st k) st Q.
Proof.
  intros HQ. eexists _, tt. split; [done|]. apply HQ. split; [done|]. destruct st as [s [l]].
  apply (apply_batch_snoc _ l (k, None)).
Qed.

Lemma at_contents_trans st c st1 c2 st2 :
  at_contents st c st1 -> at_contents st1 c2 st2 -> at_contents st c2 st2.
Proof. intros [E _] [E2 ?]. split; [by rewrite E2|done]. Qed.

Lemma runs_write_entries l : forall (st : BatchStore S) (Q : unit -> BatchStore S -> Prop),
  (forall st', at_contents st (overlay (held st) l) st' -> Q tt st') -> runs (write_entries l) st Q.
Proof.
  induction l as [|[k v] l IH]; intros st Q HQ; simpl.
  - apply runs_ret, HQ. done.
  - apply runs_bind, runs_put. intros st1 A. apply IH. intros st2 A2. apply HQ.
    destruct A as [E Ec]. rewrite Ec in A2. by eapply at_contents_trans.
Qed.

Lemma runs_delete_keys l : forall (st : BatchStore S) (Q : unit -> BatchStore S -> Prop),
  (forall st', at_contents st (without (held st) l) st' -> Q tt st') -> runs (delete_keys l) st Q.
Proof.
  induction l as [|k l IH]; intros st Q HQ; simpl.
  - apply runs_ret, HQ. done.
  - apply runs_bind, runs_del. intros st1 A. apply IH. intros st2 A2. apply HQ.
    destruct A as [E Ec]. rewrite Ec in A2. by eapply at_contents_trans.
Qed.

Lemma runs_get (st : BatchStore S) k (Q : option bytes -> BatchStore S -> Prop) :
  Q (held st !! k) st -> runs (reading (λ st : BatchStore S, vs_get st k)) st Q.
Proof. intros HQ. eapply runs_reading; [apply held_get|done]. Qed.
End BatchSteps.

Lemma elem_of_minus l keep k : k ∈ minus l keep <-> k ∈ l /\ k ∉ keep.
Proof. unfold minus. rewrite list_elem_of_filter. naive_solver. Qed.
