(* ===== verification/Declared.v ===== *)
(** * Declared documents (okm-derive, [document_encode.rs])

    [DocumentLaws] is what a collection relies on in its documents: payloads come
    back, every face entry stands under a declared slot and ends with the row's
    key, the reduces are lawful, and nothing is interned or embedded.
    [derived_document] is what the derive emits for a declaration; documents of
    declarations without categorical fields keep the laws, whatever fields,
    indexes, lead faces and reduces they declare. *)
From S2P Require Import Prelude Errors Storage Slots Vocab DynValue Fields Payload Keys Index Meta Reduces Collection.

(** ** The contract *)

(** The slots a declaration writes entries under. *)
Definition live_faces (K R : Type) `{Document K R} : list Slot :=
  map d_slot (List.filter (λ d, negb (d_deprecated d)) (INDEX_DECLS (K := K) (R := R))).

(** A key that reads back as itself. *)
Definition id_ok {K} `{KeyLaws K} (k : K) : Prop := key_ok k /\ key_norm k = k.

Class DocumentLaws (K R : Type) `{HK : KeyEncode K} `{HL : !KeyLaws K} `{HD : !Document K R} : Type := {
  doc_ok : R -> Prop;
  doc_reds : list (LawfulReduce K R);
  doc_payload r : doc_ok r -> exists b, encode_payload r = Ok b /\ decode_payload b = Ok r;
  doc_entries (k : K) (r : R) h : id_ok k -> doc_ok r ->
    exists es, index_entries k r h = Ok es /\ Forall (entry_of (live_faces K R) h k) es;
  doc_key_entries (k : K) h : id_ok k ->
    exists es, key_entries (R := R) k h = Ok es /\
    (needs_payload (K := K) (R := R) = false -> forall r : R, doc_ok r -> index_entries k r h = Ok es);
  doc_apply {S} `{VirtualStorage S} (s : S) (k : K) (r : R) h add :
    okm_apply_reduces s k r h add = apply_reduces (map lr_reduce doc_reds) s k r h add;
  doc_faces_slots : Forall (λ s, slot_ok s /\ 0x1000 <= s) (live_faces K R);
  doc_reds_apart : slots_apart doc_reds;
  doc_reds_slots : Forall (λ lr, 0x1000 <= red_slot (lr_reduce lr) /\ red_slot (lr_reduce lr) ∉ live_faces K R) doc_reds;
  doc_no_vocab : HAS_VOCAB (K := K) (R := R) = false;
  doc_deref {S} `{VirtualStorage S} (s : S) (r : R) : okm_deref_vocab s r = Ok r;
  doc_embed_deref {S} `{VirtualStorage S} (s : S) (r : R) : okm_embed_deref s r = Ok r;
  doc_embed_entries (r : R) : okm_embed_entries r = Ok [];
  doc_embed_keys (r : R) : okm_embed_keys r = Ok []
}.

(** An access method of the document: its slot is a live face, its entries carry
    the whole key, and a row's entries under the slot are its segments. *)
Record method_ok {K R : Type} `{HK : KeyEncode K} `{HL : !KeyLaws K} `{HD : !Document K R} `{HDL : !DocumentLaws K R}
    (ix : KvIndex K R) : Prop := {
  mo_slot : SLOT ix ∈ live_faces K R;
  mo_whole : KEY_PREFIX ix = [];
  mo_entries kb k r h es t :
    id_ok k -> encode k = Ok kb -> doc_ok (K := K) r -> index_entries k r h = Ok es ->
    (h ++ slot_bytes (SLOT ix) ++ t ∈ map fst es <-> exists seg, seg ∈ segments_of ix k r /\ t = seg ++ kb)
}.

(** ** What the derive emits *)

(** A declaration after its slots have been numbered. *)
Record Declaration (K : Type) : Type := mkDeclaration {
  dc_partition : bytes;
  dc_ns : bytes;
  dc_schema : DocumentSchema;
  dc_indexes : list (Slot * IdxDecl (row (fields dc_schema)));
  dc_leads : list (Slot * IdxDecl (row (fields dc_schema)));
  dc_reduces : list (Reduce K (row (fields dc_schema)))
}.
Arguments mkDeclaration {K} _ _ _ _ _ _.
Arguments dc_partition {K} _.
Arguments dc_ns {K} _.
Arguments dc_schema {K} _.
Arguments dc_indexes {K} _.
Arguments dc_leads {K} _.
Arguments dc_reduces {K} _.

(** [INDEX_DECLS]: indexes first, then lead faces. *)
Definition index_decls {K} (d : Declaration K) : list IndexDecl :=
  map (λ si, mkIndexDecl (idx_name si.2) si.1 (idx_fields si.2) (idx_includes si.2) (idx_func_text si.2)
               (idx_deprecated si.2)) (dc_indexes d)
  ++ map (λ si, mkIndexDecl (idx_name si.2) si.1 (idx_fields si.2) [] [] (idx_deprecated si.2)) (dc_leads d).

(** [DEPRECATED_SLOTS] *)
Definition deprecated_slots {K} (d : Declaration K) : list Slot :=
  map fst (List.filter (λ si, idx_deprecated si.2) (dc_indexes d))
  ++ map fst (List.filter (λ si, idx_deprecated si.2) (dc_leads d)).

Definition is_vocab (k : FieldKind) : bool := match k with KVocab _ => true | _ => false end.

Section Hooks.
Context {S : Type} `{VirtualStorage S}.
Variable p : profile.

(** [cache.id_for(&mut *store, header, &label)] on a fresh cache *)
Definition intern_label (n : nat) (faces : VocabFaces) (header label : bytes) : enc S Z := λ s,
  let '(_, s, r) := id_for n p (VocabCache_new faces) s header label in (s, r).

(** One arm of [__okm_intern]; [vi] counts the categorical fields. *)
Definition intern_value (vi : Z) (k : FieldKind) (header : bytes) : rust_type k -> enc S (rust_type k) :=
  match k return rust_type k -> enc S (rust_type k) with
  | KVocab n => λ v,
      match name v with
      | None => mret v
      | Some label =>
          faces ← lift (data_vocab p (wrap 16 vi));
          i ← intern_label n faces header label;
          mret (Vocab_set_id v i)
      end
  | _ => λ v, mret v
  end.

Fixpoint intern_fields (vi : Z) (fs : list FieldSchema) (header : bytes) : row fs -> enc S (row fs) :=
  match fs return row fs -> enc S (row fs) with
  | [] => λ _, mret tt
  | f :: fs => λ r,
      v ← intern_value vi (kind f) header r.1;
      rest ← intern_fields (if is_vocab (kind f) then vi + 1 else vi) fs header r.2;
      mret (v, rest)
  end.

(** One arm of [__okm_deref_vocab]. *)
Definition deref_value (vi : Z) (k : FieldKind) (header : bytes) (store : S) : rust_type k -> result (rust_type k) :=
  match k return rust_type k -> result (rust_type k) with
  | KVocab n => λ v,
      match name v, id v with
      | None, Some i =>
          faces ← data_vocab p (wrap 16 vi);
          let '(_, r) := name_for n (VocabCache_new faces) store header i in
          label ← r;
          Ok (match label with Some l => Vocab_set_name v l | None => v end)
      | _, _ => Ok v
      end
  | _ => λ v, Ok v
  end.

Fixpoint deref_fields (vi : Z) (fs : list FieldSchema) (header : bytes) (store : S) : row fs -> result (row fs) :=
  match fs return row fs -> result (row fs) with
  | [] => λ _, Ok tt
  | f :: fs => λ r,
      v ← deref_value vi (kind f) header store r.1;
      rest ← deref_fields (if is_vocab (kind f) then vi + 1 else vi) fs header store r.2;
      Ok (v, rest)
  end.
End Hooks.

(** The [Document] implementation; embedded fields are left out, so nothing is
    embedded. *)
Definition derived_document {K} `{KeyEncode K} (p : profile) (d : Declaration K)
    : Document K (row (fields (dc_schema d))) := {|
  PARTITION_PREFIX := dc_partition d;
  NS_PREFIX := dc_ns d;
  LAYOUT_VERSION := layout_version (dc_schema d);
  FIELD_NAMES := map ident (fields (dc_schema d));
  INDEX_DECLS := index_decls d;
  DEPRECATED_SLOTS := deprecated_slots d;
  HAS_VOCAB := existsb (λ f, is_vocab (kind f)) (fields (dc_schema d));
  encode_payload := Payload.encode_payload p (dc_schema d);
  decode_payload := Payload.decode_payload p (dc_schema d);
  key_entries := Index.key_entries (live (dc_leads d));
  index_entries := Index.index_entries p (fields (dc_schema d)) (live (dc_leads d)) (live (dc_indexes d));
  okm_apply_reduces _ _ s k r h add := apply_reduces (dc_reduces d) s k r h add;
  okm_intern _ _ s header r := intern_fields p 0 (fields (dc_schema d)) header r s;
  okm_deref_vocab _ _ s r := deref_fields p 0 (fields (dc_schema d)) (dc_partition d ++ dc_ns d) s r;
  okm_embed_deref _ _ _ r := Ok r;
  okm_embed_entries _ := Ok [];
  okm_embed_keys _ := Ok []
|}.

(** * The derived document keeps the laws *)

(** The faces of a declaration carry whole keys. *)
Record declaration_ok {K} (d : Declaration K) (reds : list (LawfulReduce K (row (fields (dc_schema d))))) : Prop := {
  do_width : HOT_WIDTH (dc_schema d) < 2 ^ 16;
  do_plain : Forall (λ f, is_vocab (kind f) = false) (fields (dc_schema d));
  do_indexes : slotted INDEX_BASE 0 (map snd (dc_indexes d)) = Some (dc_indexes d);
  do_leads : slotted LEAD_BASE 0 (map snd (dc_leads d)) = Some (dc_leads d);
  do_index_live : Forall (λ si, idx_key si.2 = [] /\
    match idx_func si.2 with
    | None => located (fields (dc_schema d)) (idx_fields si.2) /\ located (fields (dc_schema d)) (idx_includes si.2)
    | Some _ => idx_includes si.2 = []
    end) (live (dc_indexes d));
  do_lead_live : Forall (λ si, idx_key si.2 = []) (live (dc_leads d));
  do_reds : map lr_reduce reds = dc_reduces d;
  do_red_slots i red : dc_reduces d !! i = Some red -> declared_slot REDUCE_BASE (Z.of_nat i) = Some (red_slot red)
}.

Lemma slotted_range {R} base ds : forall n l sd, 0 <= n ->
  slotted (R := R) base n ds = Some l -> sd ∈ l -> base + n <= sd.1 < base + 0x0FFF.
Proof.
  induction ds as [|d ds IH]; intros n l sd Hn E Hin; simpl in E; [injection E as <-; by apply elem_of_nil in Hin|].
  unfold declared_slot in E. destruct (Z.leb_spec 0x0FFF n); [done|]. simpl in E.
  destruct (slotted base (n + 1) ds) as [rest|] eqn:Er; [|done]. simpl in E. injection E as <-.
  apply elem_of_cons in Hin as [->|Hin]; simpl; [lia|]. apply IH with (sd := sd) in Er; [lia|lia|done].
Qed.

Lemma slotted_at {R} base ds : forall n l i sd,
  slotted (R := R) base n ds = Some l -> l !! i = Some sd -> sd.1 = base + n + Z.of_nat i.
Proof.
  induction ds as [|d ds IH]; intros n l i sd E Hi; simpl in E; [injection E as <-; done|].
  unfold declared_slot in E. destruct (0x0FFF <=? n); [done|]. simpl in E.
  destruct (slotted base (n + 1) ds) as [rest|] eqn:Er; [|done]. simpl in E. injection E as <-.
  destruct i as [|i]; simpl in Hi; [injection Hi as <-; simpl; lia|].
  rewrite (IH (n + 1) rest i sd Er Hi). lia.
Qed.

(** A slot belongs to one declaration. *)
Lemma slotted_functional {R} base ds l (a b : Slot * IdxDecl R) :
  slotted base 0 ds = Some l -> a ∈ l -> b ∈ l -> a.1 = b.1 -> a = b.
Proof.
  intros E [i Hi]%list_elem_of_lookup [j Hj]%list_elem_of_lookup Ef.
  pose proof (slotted_at _ _ _ _ _ _ E Hi). pose proof (slotted_at _ _ _ _ _ _ E Hj).
  assert (i = j) as -> by (unfold Slot in *; lia). congruence.
Qed.

Lemma elem_of_live {R} (sd : Slot * IdxDecl R) l : sd ∈ live l <-> sd ∈ l /\ idx_deprecated sd.2 = false.
Proof. unfold live. rewrite !list_elem_of_In, filter_In, negb_true_iff. done. Qed.

(** The slot family of an index. *)
Lemma FaceKind_index s : 0x3000 <= s < 0x4000 -> FaceKind_of s = Some FaceIndex.
Proof.
  intros H. assert (Z.land s 0xf000 = 0x3000) as E.
  { assert (forallb (λ x, Z.land x 0xf000 =? 0x3000) (seqZ 0x3000 0x1000) = true) as F by by vm_compute.
    rewrite List.forallb_forall in F. apply Z.eqb_eq, F, list_elem_of_In, elem_of_seqZ. lia. }
  unfold FaceKind_of. rewrite E. done.
Qed.

Lemma has_no_vocab fs : Forall (λ f, is_vocab (kind f) = false) fs -> existsb (λ f, is_vocab (kind f)) fs = false.
Proof. induction 1 as [|f fs Hf _ IH]; [done|]. simpl. by rewrite Hf. Qed.

Lemma intern_plain {S} `{VirtualStorage S} p fs vi h (s : S) :
  Forall (λ f, is_vocab (kind f) = false) fs -> forall r, deref_fields p vi fs h s r = Ok r.
Proof.
  intros F. revert vi. induction F as [|f fs Hf _ IH]; intros vi r; [by destruct r|]. destruct r as [v r]. simpl.
  assert (deref_value p vi (kind f) h s v = Ok v) as -> by by destruct (kind f). cbn [mbind outcome_bind].
  by rewrite Hf, IH.
Qed.

(** A row its payload keeps: every [Quant] is at its precision. *)
Definition row_exact (fs : list FieldSchema) (r : row fs) : Prop := row_ok fs r /\ stored_row fs r = r.

Section Laws.
Context {K : Type} `{KeyLaws K}.
Variables (p : profile) (d : Declaration K) (reds : list (LawfulReduce K (row (fields (dc_schema d))))).
Hypothesis (Hd : declaration_ok d reds).

#[local] Instance the_document : Document K (row (fields (dc_schema d))) := derived_document p d.

Lemma live_faces_derived s :
  s ∈ live_faces K (row (fields (dc_schema d))) <-> s ∈ map fst (live (dc_indexes d)) \/ s ∈ map fst (live (dc_leads d)).
Proof.
  unfold live_faces. cbn [INDEX_DECLS the_document derived_document]. unfold index_decls.
  rewrite List.filter_app, map_app, elem_of_app. unfold live.
  assert (forall {R} (f : Slot * IdxDecl R -> IndexDecl) (l : list (Slot * IdxDecl R)),
    (forall x, d_slot (f x) = x.1 /\ d_deprecated (f x) = idx_deprecated x.2) ->
    map d_slot (List.filter (λ d, negb (d_deprecated d)) (map f l))
    = map fst (List.filter (λ sd, negb (idx_deprecated sd.2)) l)) as G.
  { intros R f l Hf. induction l as [|x l IH]; [done|]. simpl. destruct (Hf x) as [E1 E2]. rewrite E2.
    destruct (negb _); simpl; by rewrite IH, ?E1. }
  by rewrite !G by done.
Qed.

Lemma index_slots s : s ∈ map fst (live (dc_indexes d)) -> 0x3001 <= s < 0x4000.
Proof using Hd.
  intros (si & -> & Hin)%list_elem_of_fmap. apply elem_of_live in Hin as [Hin _].
  pose proof (slotted_range _ _ _ _ _ (Z.le_refl 0) (do_indexes _ _ Hd) Hin) as B. unfold INDEX_BASE, Slot in *. simpl in *. lia.
Qed.

Lemma lead_slots s : s ∈ map fst (live (dc_leads d)) -> 0x5001 <= s < 0x6000.
Proof using Hd.
  intros (si & -> & Hin)%list_elem_of_fmap. apply elem_of_live in Hin as [Hin _].
  pose proof (slotted_range _ _ _ _ _ (Z.le_refl 0) (do_leads _ _ Hd) Hin) as B. unfold LEAD_BASE, Slot in *. simpl in *. lia.
Qed.

Lemma red_slot_at i lr : reds !! i = Some lr -> red_slot (lr_reduce lr) = 0x4001 + Z.of_nat i /\ Z.of_nat i < 0x0FFF.
Proof using Hd.
  intros E. pose proof (do_red_slots _ _ Hd i (lr_reduce lr)) as B. rewrite <- (do_reds _ _ Hd), list_lookup_fmap, E in B.
  specialize (B eq_refl). unfold declared_slot, REDUCE_BASE in B. destruct (Z.leb_spec 0x0FFF (Z.of_nat i)); [done|].
  injection B as <-. done.
Qed.

Lemma derived_lead_ok : Forall lead_ok (live (dc_leads d)).
Proof using Hd.
  apply Forall_forall. intros sd Hin. pose proof (do_lead_live _ _ Hd) as L. rewrite Forall_forall in L.
  assert (sd.1 ∈ map fst (live (dc_leads d))) as Hs by (apply list_elem_of_fmap; by exists sd).
  apply lead_slots in Hs. split; [right; lia|]. split; [lia|]. by apply L.
Qed.

Lemma derived_decl_ok : Forall (decl_ok (fields (dc_schema d))) (live (dc_indexes d)).
Proof using Hd.
  apply Forall_forall. intros sd Hin. pose proof (do_index_live _ _ Hd) as L. rewrite Forall_forall in L.
  assert (sd.1 ∈ map fst (live (dc_indexes d))) as Hs by (apply list_elem_of_fmap; by exists sd).
  apply index_slots in Hs. split; [right; lia|]. split; [lia|]. by apply L.
Qed.

(** No live index, no payload needed. *)
Lemma needs_payload_derived : needs_payload (K := K) (R := row (fields (dc_schema d))) = false -> live (dc_indexes d) = [].
Proof using Hd.
  intros N. destruct (live (dc_indexes d)) as [|sd l] eqn:E; [done|]. exfalso.
  assert (sd ∈ live (dc_indexes d)) as Hin by (rewrite E; by left).
  assert (sd.1 ∈ map fst (live (dc_indexes d))) as Hs by (apply list_elem_of_fmap; by exists sd).
  apply index_slots in Hs. apply elem_of_live in Hin as [Hin Hdep]. apply not_true_iff_false in N. apply N.
  unfold needs_payload. apply existsb_exists.
  exists (mkIndexDecl (idx_name sd.2) sd.1 (idx_fields sd.2) (idx_includes sd.2) (idx_func_text sd.2) (idx_deprecated sd.2)).
  split.
  - apply list_elem_of_In. cbn [INDEX_DECLS the_document derived_document]. unfold index_decls. apply elem_of_app. left.
    apply list_elem_of_fmap. by exists sd.
  - cbn [d_deprecated d_slot]. rewrite Hdep, FaceKind_index by lia. done.
Qed.

Program Definition derived_laws : DocumentLaws K (row (fields (dc_schema d))) :=
  {| doc_ok := row_exact (fields (dc_schema d)); doc_reds := reds |}.
Next Obligation.
  intros r [Hr Hs]. destruct (payload_roundtrip p (dc_schema d) r (do_width _ _ Hd) Hr) as (b & E & D).
  exists b. split; [done|]. cbn [decode_payload the_document derived_document]. by rewrite D, Hs.
Qed.
Next Obligation.
  intros k r h [Hk _] [Hr _].
  destruct (index_entries_shape p (fields (dc_schema d)) (live (dc_leads d)) (live (dc_indexes d)) k r h Hk Hr
    derived_lead_ok derived_decl_ok) as (es & E & F).
  exists es. split; [done|]. eapply Forall_impl; [exact F|]. intros e (s & x & b & Hs & Eb & Ee).
  exists s, x, b. split; [|done]. apply live_faces_derived. apply elem_of_app in Hs. tauto.
Qed.
Next Obligation.
  intros k h [Hk _]. destruct (key_entries_shape (live (dc_leads d)) k h Hk derived_lead_ok) as (es & E & _).
  exists es. split; [done|]. intros N r _. apply needs_payload_derived in N. simpl. unfold Index.index_entries.
  rewrite E, N. simpl. by rewrite app_nil_r.
Qed.
Next Obligation. intros S VS s k r h add. simpl. by rewrite (do_reds _ _ Hd). Qed.
Next Obligation.
  apply Forall_forall. intros s Hs. apply live_faces_derived in Hs as [Hs%index_slots|Hs%lead_slots];
    (split; [right; lia|lia]).
Qed.
Next Obligation.
  split.
  - apply NoDup_alt. intros i j x Hi Hj. rewrite list_lookup_fmap in Hi, Hj.
    destruct (reds !! i) as [lr|] eqn:Ei; [|done]. destruct (reds !! j) as [lr'|] eqn:Ej; [|done].
    injection Hi as <-. injection Hj as E. pose proof (red_slot_at _ _ Ei) as []. pose proof (red_slot_at _ _ Ej) as []. lia.
  - apply Forall_lookup. intros i lr E. pose proof (red_slot_at _ _ E) as []. right. lia.
Qed.
Next Obligation.
  apply Forall_lookup. intros i lr E. pose proof (red_slot_at _ _ E) as []. split; [lia|].
  intros [Hs%index_slots|Hs%lead_slots]%live_faces_derived; lia.
Qed.
Next Obligation.
  apply has_no_vocab, (do_plain _ _ Hd).
Qed.
Next Obligation. intros S VS s r. apply intern_plain, (do_plain _ _ Hd). Qed.
Next Obligation. done. Qed.
Next Obligation. done. Qed.
Next Obligation. done. Qed.

(** The declared indexes are access methods of the document. *)
Lemma derived_method s i :
  (s, i) ∈ live (dc_indexes d) -> method_ok (HDL := derived_laws) (derived_index p (fields (dc_schema d)) s i).
Proof.
  intros Hin. pose proof derived_decl_ok as DO. rewrite Forall_forall in DO. pose proof (DO _ Hin) as Ho.
  assert (s ∈ map fst (live (dc_indexes d))) as Hs by (apply list_elem_of_fmap; by exists (s, i)).
  split.
  - apply live_faces_derived. by left.
  - by destruct Ho as (_ & _ & ? & _).
  - intros kb k r h es t [Hk _] Ek [Hr _] E. simpl in E. unfold Index.index_entries in E.
    destruct (Index.key_entries _ k h) as [ks| |] eqn:Eks; [|done..]. cbn [mbind outcome_bind] in E.
    destruct (entries_of _ (live (dc_indexes d))) as [xs| |] eqn:Exs; [|done..]. injection E as <-.
    rewrite map_app, elem_of_app. change (SLOT (derived_index p (fields (dc_schema d)) s i)) with s.
    assert (slot_ok s) as Hso by by destruct Ho.
    assert (h ++ slot_bytes s ++ t ∉ map fst ks) as Nk.
    { intros (e & Ee & He)%list_elem_of_fmap. destruct (key_entries_shape (live (dc_leads d)) k h Hk derived_lead_ok) as (ks' & Eks' & F).
      rewrite Eks in Eks'. injection Eks' as <-. rewrite Forall_forall in F. destruct (F e He) as (s' & x & b & Hs' & _ & E').
      rewrite E' in Ee. apply lead_slots in Hs'. apply app_inv_head, slot_bytes_prefix_free in Ee; [|done|right; lia].
      apply index_slots in Hs. lia. }
    assert (h ++ slot_bytes s ++ t ∈ map fst xs <-> exists seg, seg ∈ segments_of (derived_index p (fields (dc_schema d)) s i) k r /\ t = seg ++ kb) as G;
      [|tauto].
    split.
    + intros (e & Ee & He)%list_elem_of_fmap. apply (elem_of_entries _ e _ _ Exs) in He as ([s' i'] & ea & Hin' & Ea & He). simpl in Ea.
      pose proof (entry_pairs_keys p (fields (dc_schema d)) s' i' k r kb h ea (DO _ Hin') Hr Ek Ea) as Keys.
      assert (e.1 ∈ map fst ea) as Hk1 by (apply list_elem_of_fmap; by exists e). rewrite Keys in Hk1.
      apply list_elem_of_fmap in Hk1 as (seg & E1 & Hseg). rewrite E1 in Ee. pose proof (DO _ Hin') as (Hs' & _).
      apply app_inv_head in Ee. pose proof Ee as Es. apply slot_bytes_prefix_free in Es; [|done|done]. simpl in Es. subst s'.
      apply app_inv_head in Ee as ->. apply elem_of_live in Hin as [Hin _]. apply elem_of_live in Hin' as [Hin' _].
      pose proof (slotted_functional _ _ _ _ _ (do_indexes _ _ Hd) Hin Hin' eq_refl) as [= <-]. by exists seg.
    + intros (seg & Hseg & ->).
      assert (exists ea, entry_pairs (derived_index p (fields (dc_schema d)) s i) h k r = Ok ea) as [ea Ea].
      { clear - Exs Hin. revert xs Exs. induction (live (dc_indexes d)) as [|x l IH]; intros xs Exs; [by apply elem_of_nil in Hin|].
        simpl in Exs. destruct (entry_pairs (derived_index p _ x.1 x.2) h k r) as [ea| |] eqn:E; [|done..].
        apply elem_of_cons in Hin as [<-|Hin]; [by exists ea|]. cbn [mbind outcome_bind] in Exs.
        destruct (entries_of _ l) as [rest| |]; [|done..]. by eapply IH. }
      pose proof (entry_pairs_keys p (fields (dc_schema d)) s i k r kb h ea Ho Hr Ek Ea) as Keys.
      assert (h ++ slot_bytes s ++ seg ++ kb ∈ map fst ea) as Hk1 by (rewrite Keys; apply list_elem_of_fmap; by exists seg).
      apply list_elem_of_fmap in Hk1 as (e & E1 & He). apply list_elem_of_fmap. exists e. split; [done|].
      apply (elem_of_entries _ e _ _ Exs). by exists (s, i), ea.
Qed.
End Laws.

(** * A declared document

    The sample row, indexed by its string, led by a key field and counted. *)
Definition sample_lead : IdxDecl (row (fields sample_schema)) := mkIdx _ [108] [[104]] [] [] None [] None false.

Definition sample_counts : list (LawfulReduce (krow sample_key) (row (fields sample_schema))) :=
  [lawful 0x4001 [[98]] sample_group _ _ _ (Count_law Debug)].

Definition sample_declaration : Declaration (krow sample_key) := {|
  dc_partition := [];
  dc_ns := [0; 33];
  dc_schema := sample_schema;
  dc_indexes := [(0x3001, sample_decl)];
  dc_leads := [(0x5001, sample_lead)];
  dc_reduces := [derived_reduce Debug (fields sample_schema) 0x4001 (Count Debug) [[98]]]
|}.

Lemma sample_declaration_ok : declaration_ok sample_declaration sample_counts.
Proof.
  split; try reflexivity.
  - repeat constructor.
  - apply Forall_singleton. split; [done|]. split; (eexists; split; [reflexivity|split; [done|exact I]]).
  - by apply Forall_singleton.
  - intros [|i] red E; [injection E as <-; reflexivity|by destruct i].
Qed.

#[export] Instance sample_document : Document (krow sample_key) (row (fields sample_schema)) :=
  derived_document Debug sample_declaration.

#[export] Instance sample_laws : DocumentLaws (krow sample_key) (row (fields sample_schema)) :=
  derived_laws Debug sample_declaration sample_counts sample_declaration_ok.

Lemma sample_row_exact : row_exact (fields sample_schema) sample_row.
Proof. split; [exact sample_row_ok|reflexivity]. Qed.

(** Groups are counted, whatever they hold. *)
Lemma sample_count_room (k : krow sample_key) r l :
  is_Some (match sample_group k r with Ok g => Some g | _ => None end) -> zlen l < 2 ^ 64 ->
  has_room (doc_reds (K := krow sample_key) (R := row (fields sample_schema))) k r l.
Proof.
  intros [g Hg] L. destruct (sample_group k r) as [g'| |] eqn:E; [|done..]. injection Hg as ->.
  apply Forall_singleton. exists g. split; [exact E|]. unfold lr_room, lawful, Count_room.
  pose proof (length_filter (λ kr, in_group (lr_reduce (lawful 0x4001 [[98]] sample_group _ _ _ (Count_law Debug))) g kr = true) l).
  unfold group, zlen in *. simpl in *. lia.
Qed.
