(* ===== verification/Table.v ===== *)
(** * Collections refine tables (okm-core, [model/document.rs])

    The specification of a collection is a finite map from key bytes to rows.
    [table_at] says that the contents of an engine represent such a table: every
    row stands under the primary slot, the declared slots hold exactly the
    entries the rows produce, and every accumulator is true to the rows of its
    group.

    The theorems: any sequence of [save_with_prev_into] and [purge_into] in one
    batch is the same sequence of insertions and deletions on the table, in one
    commit; an equality scan then answers exactly the rows whose entry is the
    probe; [put] keeps the table for a fresh key but not when it overwrites. *)
From S2P Require Import Prelude Errors Storage Slots Vocab DynValue Segment Fields Payload Keys Index Meta Reduces Collection Declared.

Section Table.
Context {K R : Type} `{HK : KeyEncode K} `{HL : !KeyLaws K} `{HD : !Document K R} `{HDL : !DocumentLaws K R}.

Abbreviation h := (header (K := K) (R := R)).
Abbreviation reds := (doc_reds (K := K) (R := R)).
Abbreviation table := (gmap bytes (K * R)).

Implicit Types (k : K) (r : R) (M : table) (kb : bytes) (prev : option R).

Definition is_Ok {A} (o : outcome unit A) : Prop := match o with Ok _ => True | _ => False end.

(** ** The representation *)

Definition payload_b (r : R) : bytes := match encode_payload (K := K) r with Ok b => b | _ => [] end.

Definition pkey (kb : bytes) : bytes := h ++ slot_bytes PRIMARY_SLOT ++ kb.

(** What a row's entries hold under a key. *)
Definition face_of (kr : K * R) (key : bytes) : option bytes :=
  match index_entries kr.1 kr.2 h with Ok es => newest es key | _ => None end.

Definition face_key (key : bytes) : Prop :=
  exists s t, s ∈ live_faces K R /\ key = h ++ slot_bytes s ++ t.

Definition rows_of (M : table) : list (K * R) := (map_to_list M).*2.

Definition row_fits (kb : bytes) (kr : K * R) : Prop :=
  id_ok kr.1 /\ encode kr.1 = Ok kb /\ doc_ok (K := K) kr.2.

Record table_at (c : gmap bytes bytes) (M : table) : Prop := {
  ta_rows kb kr : M !! kb = Some kr -> row_fits kb kr;
  ta_primary kb : c !! pkey kb = (λ kr, payload_b kr.2) <$> M !! kb;
  ta_faces key v : face_key key ->
    (c !! key = Some v <-> exists kb kr, M !! kb = Some kr /\ face_of kr key = Some v);
  ta_reduces : tracked c h (rows_of M) reds
}.

(** ** Keys of a table *)

Lemma DYNAMIC_ok : slot_ok DYNAMIC_SLOT.
Proof. left. unfold DYNAMIC_SLOT. lia. Qed.

Lemma PRIMARY_ok : slot_ok PRIMARY_SLOT.
Proof. left. unfold PRIMARY_SLOT. lia. Qed.

Lemma primary_key_ok {E} k kb : encode k = Ok kb -> primary_key (E := E) (R := R) k = Ok (pkey kb).
Proof.
  intros Ek. unfold primary_key. rewrite write_slot_ok by apply PRIMARY_ok. cbn [mbind outcome_bind].
  rewrite Ek. cbn [liftp mbind outcome_bind]. unfold pkey. by rewrite app_assoc.
Qed.

Lemma pkey_inj kb kb' : pkey kb = pkey kb' -> kb = kb'.
Proof. unfold pkey. intros E. by repeat apply app_inv_head in E. Qed.

Lemma live_slot s : s ∈ live_faces K R -> slot_ok s /\ 0x1000 <= s.
Proof using HDL. pose proof doc_faces_slots as F. rewrite Forall_forall in F. apply F. Qed.

Lemma pkey_not_face kb : ~ face_key (pkey kb).
Proof using HDL.
  intros (s & t & Hs & E). unfold pkey in E. apply app_inv_head, slot_bytes_prefix_free in E;
    [|apply PRIMARY_ok|by apply live_slot]. apply live_slot in Hs as [_ Hs]. rewrite <- E in Hs. by unfold PRIMARY_SLOT in Hs.
Qed.

Lemma red_slot_ok lr : lr ∈ reds ->
  slot_ok (red_slot (lr_reduce lr)) /\ 0x1000 <= red_slot (lr_reduce lr) /\ red_slot (lr_reduce lr) ∉ live_faces K R.
Proof.
  intros Hin. destruct (doc_reds_apart (K := K) (R := R)) as [_ A]. pose proof (doc_reds_slots (K := K) (R := R)) as B.
  rewrite Forall_forall in A, B. split; [by apply A|by apply B].
Qed.

Lemma red_not_pkey kb : ~ red_keys h reds (pkey kb).
Proof.
  intros (lr & g & Hin & E). apply red_slot_ok in Hin as (Hs & Hc & _). unfold pkey, acc_key in E.
  apply app_inv_head, slot_bytes_prefix_free in E; [|apply PRIMARY_ok|done]. rewrite <- E in Hc. by unfold PRIMARY_SLOT in Hc.
Qed.

Lemma red_not_face key : face_key key -> ~ red_keys h reds key.
Proof.
  intros (s & t & Hs & ->) (lr & g & Hin & E). apply red_slot_ok in Hin as (Ho & _ & Hn). unfold acc_key in E.
  apply app_inv_head, slot_bytes_prefix_free in E; [|by apply live_slot|done]. by subst s.
Qed.

(** The bytes of a key determine it. *)
Lemma encode_inj (k k' : K) kb : id_ok k -> id_ok k' -> encode k = Ok kb -> encode k' = Ok kb -> k = k'.
Proof.
  intros [Ok Nk] [Ok' Nk'] E E'. destruct (key_encodes k Ok) as (b & Eb & _ & D). destruct (key_encodes k' Ok') as (b' & Eb' & _ & D').
  rewrite E in Eb. rewrite E' in Eb'. injection Eb as <-. injection Eb' as <-. specialize (D []). specialize (D' []).
  rewrite Nk in D. rewrite Nk' in D'. congruence.
Qed.

Lemma id_len k kb : id_ok k -> encode k = Ok kb -> zlen kb = KEY_LEN (K := K).
Proof. intros [Ok _] E. destruct (key_encodes k Ok) as (b & Eb & L & _). rewrite E in Eb. by injection Eb as <-. Qed.

(** Where the entries of a row stand. *)
Lemma row_entries kb kr : row_fits kb kr ->
  exists es, index_entries kr.1 kr.2 h = Ok es /\
  forall key, key ∈ map fst es -> face_key key /\ exists s x, s ∈ live_faces K R /\ key = h ++ slot_bytes s ++ x ++ kb.
Proof.
  intros (Hk & Ek & Hr). destruct (doc_entries kr.1 kr.2 h Hk Hr) as (es & E & F). exists es. split; [done|].
  intros key (e & -> & He)%list_elem_of_fmap. rewrite Forall_forall in F.
  destruct (F e He) as (s & x & b & Hs & Eb & Ee). rewrite Ek in Eb. injection Eb as <-.
  split; [by exists s, (x ++ kb)|by exists s, x].
Qed.

(** Two rows never share an entry. *)
Lemma entry_owner kb kr kb' kr' es es' key :
  row_fits kb kr -> row_fits kb' kr' -> index_entries kr.1 kr.2 h = Ok es -> index_entries kr'.1 kr'.2 h = Ok es' ->
  key ∈ map fst es -> key ∈ map fst es' -> kb = kb'.
Proof.
  intros Hf Hf' E E' Hin Hin'. destruct (row_entries _ _ Hf) as (es1 & E1 & P). destruct (row_entries _ _ Hf') as (es2 & E2 & P').
  rewrite E in E1. injection E1 as <-. rewrite E' in E2. injection E2 as <-.
  destruct (P key Hin) as (_ & s & x & Hs & ->). destruct (P' _ Hin') as (_ & s' & x' & Hs' & Ek).
  apply app_inv_head in Ek. pose proof Ek as Es. apply slot_bytes_prefix_free in Es; [|by apply live_slot..]. subst s'.
  apply app_inv_head in Ek. apply app_inj_2 in Ek as [_ ?]; [done|].
  destruct Hf as (Hk & Eb & _), Hf' as (Hk' & Eb' & _). pose proof (id_len _ _ Hk Eb). pose proof (id_len _ _ Hk' Eb').
  unfold zlen in *. lia.
Qed.

Lemma face_of_entries kr es key : index_entries kr.1 kr.2 h = Ok es -> face_of kr key = newest es key.
Proof. unfold face_of. by intros ->. Qed.

(** ** Rows as a list *)

Lemma rows_of_insert (M : table) kb x : rows_of (<[kb := x]> M) ≡ₚ x :: rows_of (delete kb M).
Proof.
  unfold rows_of. rewrite <- insert_delete_eq, map_to_list_insert by apply lookup_delete_eq. done.
Qed.

Lemma rows_of_delete (M : table) kb x : M !! kb = Some x -> rows_of M ≡ₚ x :: rows_of (delete kb M).
Proof. intros E. rewrite <- (insert_id M kb x E) at 1. apply rows_of_insert. Qed.

Lemma elem_of_rows (M : table) kr : kr ∈ rows_of M <-> exists kb, M !! kb = Some kr.
Proof.
  unfold rows_of. rewrite list_elem_of_fmap. split.
  - intros ([kb x] & -> & Hin%elem_of_map_to_list). by exists kb.
  - intros [kb E]. exists (kb, kr). split; [done|]. by apply elem_of_map_to_list.
Qed.

(** The empty contents represent the empty table. *)
Lemma table_empty : table_at ∅ ∅.
Proof.
  split; [done|done|..].
  - intros key v _. split; [done|]. by intros (kb & kr & ? & _).
  - apply Forall_forall. intros lr _ g. unfold rows_of. by rewrite lookup_empty, map_to_list_empty.
Qed.

(** ** The hook inside a write *)

Section Steps.
Context {S : Type} `{PointStorage S}.

Lemma apply_reduces_store (l : list (Reduce K R)) : forall (st : BatchStore S) k r hd add,
  bs_store (apply_reduces l st k r hd add).1 = bs_store st.
Proof.
  induction l as [|red l IH]; intros st k r hd add; [done|]. simpl.
  assert (bs_store (apply_reduce st red k r hd add).1 = bs_store st) as E.
  { unfold apply_reduce. destruct (ek ← _; _) as [[]| |]; done. }
  destruct (apply_reduce st red k r hd add) as [st1 [?|?|]]; simpl in *; [by rewrite IH|done..].
Qed.

Lemma runs_reduces (st : BatchStore S) (k : K) (r : R) l add (Q : unit -> BatchStore S -> Prop) :
  tracked (held st) h (before add (k, r) l) reds -> has_room reds k r (after add (k, r) l) ->
  (forall st', bs_store st' = bs_store st -> tracked (held st') h (after add (k, r) l) reds ->
    (forall key, ~ red_keys h reds key -> held st' !! key = held st !! key) -> Q tt st') ->
  runs (λ st : BatchStore S, okm_apply_reduces st k r h add) st Q.
Proof.
  intros T Room HQ. destruct (apply_reduces_spec reds st k r h l add doc_reds_apart T Room) as (st' & E & T' & F).
  exists st', tt. rewrite doc_apply, E. split; [done|]. apply HQ; [|done..].
  pose proof (apply_reduces_store (map lr_reduce reds) st k r h add) as Es. by rewrite E in Es.
Qed.

(** Writes outside the reduces' slots keep them tracked. *)
Lemma tracked_outside c c' l :
  (forall key, red_keys h reds key -> c' !! key = c !! key) -> tracked c h l reds -> tracked c' h l reds.
Proof. intros F. apply tracked_frame. intros lr g Hin. apply F. by exists lr, g. Qed.

(** ** Saving a row *)

Definition old_of (M : table) (kb : bytes) : option R := snd <$> M !! kb.

(** The keys of the entries an old row has. *)
Definition old_keys (k : K) (prev : option R) : list bytes :=
  match prev with
  | Some old => match index_entries k old h with Ok es => map fst es | _ => [] end
  | None => []
  end.

(** The accumulators can describe the rows before and after the write. *)
Definition save_room (M : table) (kb : bytes) (k : K) (r : R) : Prop :=
  match old_of M kb with Some old => has_room reds k old (rows_of (delete kb M)) | None => True end /\
  has_room reds k r ((k, r) :: rows_of (delete kb M)).

Definition purge_room (M : table) (kb : bytes) (k : K) : Prop :=
  match old_of M kb with Some old => has_room reds k old (rows_of (delete kb M)) | None => True end.

(** A row of the table under the key's bytes is the key's. *)
Lemma old_row_key c M k kb kr :
  table_at c M -> id_ok k -> encode k = Ok kb -> M !! kb = Some kr -> kr = (k, kr.2) /\ old_of M kb = Some kr.2.
Proof.
  intros T Hk Ek E. destruct (ta_rows _ _ T kb kr E) as (Hk' & Ek' & _). destruct kr as [k' r']. simpl in *.
  unfold old_of. rewrite E. by rewrite (encode_inj k' k kb).
Qed.

(** The rows without the written one, whether it was there or not. *)
Lemma rows_without c M k kb :
  table_at c M -> id_ok k -> encode k = Ok kb ->
  match old_of M kb with
  | Some old => rows_of M ≡ₚ (k, old) :: rows_of (delete kb M)
  | None => delete kb M = M
  end.
Proof.
  intros T Hk Ek. destruct (M !! kb) as [kr|] eqn:E.
  - destruct (old_row_key _ _ _ _ _ T Hk Ek E) as [Ekr ->]. rewrite Ekr in E. by apply rows_of_delete.
  - unfold old_of. rewrite E. by apply delete_id.
Qed.

(** What a save leaves under a face key. *)
Definition saved_face (c : gmap bytes bytes) (stale : list bytes) (new : list (bytes * bytes)) (key : bytes) : option bytes :=
  match newest new key with
  | Some w => Some w
  | None => if decide (key ∈ minus stale (map fst new)) then None else c !! key
  end.

(** The faces of the table after the write set of a save, key by key. *)
Lemma faces_saved c M k kb r new key v :
  table_at c M -> row_fits kb (k, r) -> index_entries k r h = Ok new -> face_key key ->
  saved_face c (old_keys k (old_of M kb)) new key = Some v <->
  exists kb' kr, <[kb := (k, r)]> M !! kb' = Some kr /\ face_of kr key = Some v.
Proof.
  intros T Hf En Hface. unfold saved_face. pose proof Hf as (Hk & Ek & _). simpl in Hk, Ek.
  assert (forall kb' kr, kb' <> kb -> M !! kb' = Some kr -> forall w, face_of kr key = Some w ->
    (key ∉ map fst new) /\ (key ∉ old_keys k (old_of M kb))) as Apart.
  { intros kb' kr N E w Ew. pose proof (ta_rows _ _ T kb' kr E) as Hf'. destruct (row_entries kb' kr Hf') as (es & Ee & _).
    rewrite (face_of_entries _ _ _ Ee) in Ew. apply newest_Some in Ew.
    assert (key ∈ map fst es) as Hin by (apply list_elem_of_fmap; by exists (key, w)). split; intros Hin'.
    - apply N. symmetry. by eapply (entry_owner kb (k, r) kb' kr).
    - destruct (M !! kb) as [kr0|] eqn:E0; [|unfold old_of in Hin'; rewrite E0 in Hin'; by apply elem_of_nil in Hin'].
      destruct (old_row_key _ _ _ _ _ T Hk Ek E0) as [Ekr Eo]. rewrite Eo in Hin'. simpl in Hin'.
      pose proof (ta_rows _ _ T kb kr0 E0) as Hf0. destruct (row_entries kb kr0 Hf0) as (es0 & Ee0 & _).
      rewrite Ekr in Ee0. simpl in Ee0. rewrite Ee0 in Hin'. apply N. symmetry.
      eapply (entry_owner kb kr0 kb' kr); [done|done| |done|done|done]. by rewrite Ekr. }
  destruct (newest new key) as [w|] eqn:Nw.
  - split.
    + intros [= <-]. exists kb, (k, r). rewrite lookup_insert_eq, (face_of_entries (k, r) new key En). done.
    + intros (kb' & kr & E & Ef). destruct (decide (kb' = kb)) as [->|N].
      * rewrite lookup_insert_eq in E. injection E as <-. rewrite (face_of_entries (k, r) new key En) in Ef. congruence.
      * rewrite lookup_insert_ne in E by done. destruct (Apart kb' kr N E v Ef) as [Nn _].
        apply newest_None in Nn. congruence.
  - assert ((exists kb' kr, <[kb := (k, r)]> M !! kb' = Some kr /\ face_of kr key = Some v) <->
      (exists kb' kr, kb' <> kb /\ M !! kb' = Some kr /\ face_of kr key = Some v)) as ->.
    { split; intros (kb' & kr & H1).
      - destruct H1 as [E Ef]. destruct (decide (kb' = kb)) as [->|N].
        + rewrite lookup_insert_eq in E. injection E as <-. rewrite (face_of_entries (k, r) new key En) in Ef. congruence.
        + rewrite lookup_insert_ne in E by done. by exists kb', kr.
      - destruct H1 as (N & E & Ef). exists kb', kr. by rewrite lookup_insert_ne. }
    apply newest_None in Nw. case_decide as Hm.
    + apply elem_of_minus in Hm as [Ho _]. split; [done|]. intros (kb' & kr & N & E & Ef).
      by destruct (Apart kb' kr N E v Ef) as [_ ?].
    + rewrite (ta_faces _ _ T key v Hface). split.
      * intros (kb' & kr & E & Ef). exists kb', kr. split; [|done]. intros ->.
        destruct (old_row_key _ _ _ _ _ T Hk Ek E) as [Ekr Eo]. apply Hm, elem_of_minus. split; [|done].
        destruct (row_entries kb kr (ta_rows _ _ T _ _ E)) as (es & Ee & _).
        rewrite (face_of_entries _ _ _ Ee) in Ef. apply newest_Some in Ef. rewrite Eo. simpl. rewrite Ekr in Ee. simpl in Ee.
        rewrite Ee. apply list_elem_of_fmap. by exists (key, v).
      * intros (kb' & kr & _ & E & Ef). by exists kb', kr.
Qed.

Lemma decode_payload_b r : doc_ok (K := K) r -> encode_payload (K := K) r = Ok (payload_b r) /\ decode_payload (K := K) (payload_b r) = Ok r.
Proof. intros Hr. destruct (doc_payload (K := K) r Hr) as (b & E & D). unfold payload_b. by rewrite E. Qed.

Lemma runs_old_row (st : BatchStore S) M k kb prev (Q : option R -> BatchStore S -> Prop) :
  table_at (held st) M -> prev = None \/ prev = old_of M kb -> Q (old_of M kb) st ->
  runs (old_row (K := K) (R := R) (pkey kb) prev) st Q.
Proof.
  intros T Hp HQ. unfold old_row. destruct prev as [old|].
  - destruct Hp as [?| ->]; [done|]. by apply runs_ret.
  - apply runs_bind, runs_get. rewrite (ta_primary _ _ T). unfold old_of in *. destruct (M !! kb) as [kr|] eqn:E; simpl.
    + destruct (ta_rows _ _ T kb kr E) as (_ & _ & Hr). destruct (decode_payload_b kr.2 Hr) as [_ D].
      apply runs_bind. eapply runs_lift; [exact D|]. apply runs_bind. eapply runs_reading; [apply doc_deref|].
      by apply runs_ret.
    + by apply runs_ret.
Qed.

Lemma runs_unfold (st : BatchStore S) M k kb (Q : unit -> BatchStore S -> Prop) :
  table_at (held st) M -> id_ok k -> encode k = Ok kb -> purge_room M kb k ->
  (forall st', bs_store st' = bs_store st -> tracked (held st') h (rows_of (delete kb M)) reds ->
    (forall key, ~ red_keys h reds key -> held st' !! key = held st !! key) -> Q tt st') ->
  runs (unfold_prev k (old_of M kb)) st Q.
Proof.
  intros T Hk Ek Room HQ. pose proof (rows_without _ _ _ _ T Hk Ek) as P. unfold purge_room in Room.
  destruct (old_of M kb) as [old|]; simpl.
  - apply (runs_reduces _ _ _ (rows_of (delete kb M)) false); [|done|done].
    eapply tracked_perm; [exact P|]. apply T.
  - apply runs_ret, HQ; [done| |done]. rewrite P. apply T.
Qed.

Lemma runs_face_writes (st : BatchStore S) k r prev new (Q : unit -> BatchStore S -> Prop) :
  index_entries k r h = Ok new -> match prev with Some old => is_Ok (index_entries k old h) | None => True end ->
  (forall st', at_contents st (overlay (without (held st) (minus (old_keys k prev) (map fst new))) new) st' -> Q tt st') ->
  runs (face_writes k r prev) st Q.
Proof.
  intros En Ho HQ. unfold face_writes. apply runs_bind. eapply runs_lift; [exact En|]. apply runs_bind.
  assert (runs (match prev with
    | Some old => old_faces ← lift (index_entries k old h); delete_keys (minus (map fst old_faces) (map fst new))
    | None => mret tt end) st (λ _ st1, at_contents st (without (held st) (minus (old_keys k prev) (map fst new))) st1)) as D.
  { destruct prev as [old|]; simpl.
    - destruct (index_entries k old h) as [es| |] eqn:Eo; [|done..]. apply runs_bind. eapply runs_lift; [done|].
      by apply runs_delete_keys.
    - by apply runs_ret. }
  eapply runs_weaken; [exact D|]. intros u st1 A1. apply runs_write_entries. intros st2 A2. apply HQ.
  pose proof A1 as [_ Ec]. rewrite Ec in A2. eapply at_contents_trans; [exact A1|exact A2].
Qed.

Lemma runs_embed (st : BatchStore S) r prev (Q : unit -> BatchStore S -> Prop) : Q tt st -> runs (embed_writes (K := K) r prev) st Q.
Proof.
  intros HQ. unfold embed_writes. apply runs_bind. eapply runs_lift; [apply doc_embed_entries|]. apply runs_bind, runs_ret.
  destruct prev as [old|]; [|by apply runs_ret].
  apply runs_bind. eapply runs_lift; [apply doc_embed_keys|]. apply runs_bind. eapply runs_lift; [apply doc_embed_keys|].
  by apply runs_ret.
Qed.

(** The keys a write of the row may touch. *)
Definition touches (kb key : bytes) : Prop := key = pkey kb \/ face_key key \/ red_keys h reds key.

(** The contents a save leaves represent the table with the row. *)
Lemma table_saved c M c' k kb r new :
  table_at c M -> row_fits kb (k, r) -> index_entries k r h = Ok new ->
  (forall key, ~ red_keys h reds key ->
    c' !! key = overlay (without (<[pkey kb := payload_b r]> c) (minus (old_keys k (old_of M kb)) (map fst new))) new !! key) ->
  tracked c' h ((k, r) :: rows_of (delete kb M)) reds ->
  table_at c' (<[kb := (k, r)]> M) /\ forall key, ~ touches kb key -> c' !! key = c !! key.
Proof.
  intros T Hf En Hc Tr. pose proof Hf as (Hk & Ek & _). simpl in Hk, Ek.
  destruct (row_entries kb (k, r) Hf) as (new' & En' & Pn). simpl in En'. rewrite En in En'. injection En' as <-.
  assert (forall key, ~ face_key key -> newest new key = None /\ key ∉ minus (old_keys k (old_of M kb)) (map fst new)) as NF.
  { intros key N. split; [apply newest_None; intros Hin; by apply Pn in Hin as [? _]|].
    intros [Hin _]%elem_of_minus. apply N. destruct (M !! kb) as [kr|] eqn:E.
    - destruct (old_row_key _ _ _ _ _ T Hk Ek E) as [Ekr Eo]. destruct (row_entries kb kr (ta_rows _ _ T _ _ E)) as (es & Ee & P).
      rewrite Eo in Hin. simpl in Hin. rewrite Ekr in Ee. simpl in Ee. rewrite Ee in Hin. by apply P in Hin as [? _].
    - unfold old_of in Hin. rewrite E in Hin. by apply elem_of_nil in Hin. }
  assert (forall key, ~ red_keys h reds key -> ~ face_key key -> c' !! key = <[pkey kb := payload_b r]> c !! key) as Plain.
  { intros key N1 N2. rewrite Hc by done. destruct (NF key N2) as [Nn Nm].
    by rewrite lookup_overlay, Nn, lookup_without, decide_False. }
  split; [split|].
  - intros kb' kr E. destruct (decide (kb' = kb)) as [->|N].
    + rewrite lookup_insert_eq in E. by injection E as <-.
    + rewrite lookup_insert_ne in E by done. by apply (ta_rows _ _ T).
  - intros kb'. rewrite Plain by (apply red_not_pkey || apply pkey_not_face). destruct (decide (kb' = kb)) as [->|N].
    + by rewrite !lookup_insert_eq.
    + rewrite !lookup_insert_ne by (done || intros E; by apply pkey_inj in E). apply T.
  - intros key v Hface. rewrite Hc by by apply red_not_face. rewrite lookup_overlay, lookup_without, lookup_insert_ne.
    + apply (faces_saved c M k kb r new key v T Hf En Hface).
    + intros <-. by apply pkey_not_face in Hface.
  - eapply tracked_perm; [symmetry; apply rows_of_insert|done].
  - intros key N. rewrite Plain by (intros X; apply N; unfold touches; tauto). apply lookup_insert_ne.
    intros <-. apply N. by left.
Qed.

(** [save_with_prev_into]'s body is the insertion. *)
Lemma runs_save (st : BatchStore S) M k kb r prev (Q : unit -> BatchStore S -> Prop) :
  table_at (held st) M -> row_fits kb (k, r) -> save_room M kb k r -> prev = None \/ prev = old_of M kb ->
  (forall st', bs_store st' = bs_store st -> table_at (held st') (<[kb := (k, r)]> M) ->
    (forall key, ~ touches kb key -> held st' !! key = held st !! key) -> Q tt st') ->
  runs (save_body k r prev) st Q.
Proof.
  intros T Hf [Room1 Room2] Hp HQ. pose proof Hf as (Hk & Ek & Hr). simpl in Hk, Ek, Hr.
  destruct (row_entries kb (k, r) Hf) as (new & En & _). simpl in En.
  destruct (decode_payload_b r Hr) as [Ep _].
  unfold save_body. apply runs_bind. eapply runs_lift; [by apply primary_key_ok|].
  apply runs_bind, (runs_old_row st M k kb prev); [done|done|].
  apply runs_bind. unfold interned. rewrite doc_no_vocab. apply runs_ret.
  apply runs_bind, (runs_unfold st M k kb); [done|done|done|done|]. intros st1 Es1 T1 F1.
  apply runs_bind. eapply runs_lift; [exact Ep|]. apply runs_bind, runs_put. intros st2 [Es2 Ec2].
  apply runs_bind, (runs_face_writes st2 k r _ new); [done| |].
  { destruct (M !! kb) as [kr|] eqn:E; [|unfold old_of; by rewrite E].
    destruct (old_row_key _ _ _ _ _ T Hk Ek E) as [Ekr ->]. destruct (row_entries kb kr (ta_rows _ _ T _ _ E)) as (es & Ee & _).
    rewrite Ekr in Ee. simpl in Ee. by rewrite Ee. }
  intros st3 [Es3 Ec3]. apply runs_bind, runs_embed.
  set (stale := minus (old_keys k (old_of M kb)) (map fst new)) in *.
  assert (forall key, face_key key \/ key = pkey kb -> ~ red_keys h reds key) as NR.
  { intros key [Hface| ->]; [by apply red_not_face|apply red_not_pkey]. }
  assert (forall key, red_keys h reds key -> held st3 !! key = held st1 !! key) as R3.
  { intros key Hred. rewrite Ec3, lookup_overlay, lookup_without, Ec2.
    assert (forall e, e ∈ map fst new \/ e ∈ stale -> face_key e) as FK.
    { intros e [He|He].
      - destruct (row_entries kb (k, r) Hf) as (es & Ee & P). simpl in Ee. rewrite En in Ee. injection Ee as <-.
        by apply P in He as [? _].
      - apply elem_of_minus in He as [He _]. destruct (M !! kb) as [kr|] eqn:E.
        + destruct (old_row_key _ _ _ _ _ T Hk Ek E) as [Ekr Eo]. rewrite Eo in He. simpl in He.
          destruct (row_entries kb kr (ta_rows _ _ T _ _ E)) as (es & Ee & P). rewrite Ekr in Ee. simpl in Ee.
          rewrite Ee in He. by apply P in He as [? _].
        + unfold old_of in He. rewrite E in He. by apply elem_of_nil in He. }
    assert (newest new key = None) as -> by (apply newest_None; intros Hin; apply (NR key); auto).
    rewrite decide_False by (intros Hin; apply (NR key); auto). apply lookup_insert_ne. intros <-. apply (NR (pkey kb)); auto. }
  apply (runs_reduces _ _ _ (rows_of (delete kb M)) true).
  - by apply (tracked_outside (held st1)).
  - done.
  - intros st4 Es4 T4 F4. destruct (table_saved (held st) M (held st4) k kb r new T Hf En) as [T' F']; [|done|].
    + intros key N. rewrite F4, Ec3, !lookup_overlay, !lookup_without, Ec2 by done.
      destruct (newest new key); [done|]. fold stale. case_decide; [done|].
      destruct (decide (key = pkey kb)) as [->|N2]; [by rewrite !lookup_insert_eq|]. rewrite !lookup_insert_ne by done. by apply F1.
    + apply HQ; [congruence|done|done].
Qed.

(** ** Removing a row *)

Lemma face_without c M k kb key v :
  table_at c M -> id_ok k -> encode k = Ok kb -> face_key key ->
  (if decide (key ∈ old_keys k (old_of M kb)) then None else c !! key) = Some v <->
  exists kb' kr, delete kb M !! kb' = Some kr /\ face_of kr key = Some v.
Proof.
  intros T Hk Ek Hface.
  assert (forall kb' kr, M !! kb' = Some kr -> face_of kr key = Some v ->
    (kb' = kb <-> key ∈ old_keys k (old_of M kb))) as Own.
  { intros kb' kr E Ef. pose proof (ta_rows _ _ T kb' kr E) as Hf. destruct (row_entries kb' kr Hf) as (es & Ee & _).
    rewrite (face_of_entries _ _ _ Ee) in Ef. apply newest_Some in Ef.
    assert (key ∈ map fst es) as Hin by (apply list_elem_of_fmap; by exists (key, v)). split.
    - intros ->. destruct (old_row_key _ _ _ _ _ T Hk Ek E) as [Ekr ->]. simpl. rewrite Ekr in Ee. simpl in Ee. by rewrite Ee.
    - intros Ho. destruct (M !! kb) as [kr0|] eqn:E0; [|unfold old_of in Ho; rewrite E0 in Ho; by apply elem_of_nil in Ho].
      destruct (old_row_key _ _ _ _ _ T Hk Ek E0) as [Ekr Eo]. rewrite Eo in Ho. simpl in Ho.
      pose proof (ta_rows _ _ T kb kr0 E0) as Hf0. destruct (row_entries kb kr0 Hf0) as (es0 & Ee0 & _).
      pose proof Ee0 as Ee1. rewrite Ekr in Ee1. simpl in Ee1. rewrite Ee1 in Ho.
      eapply (entry_owner kb' kr kb kr0); done. }
  case_decide as Hm.
  - split; [done|]. intros (kb' & kr & E & Ef). apply lookup_delete_Some in E as [N E]. by apply (Own kb' kr E Ef) in Hm as ->.
  - rewrite (ta_faces _ _ T key v Hface). split; intros (kb' & kr & E & Ef); exists kb', kr.
    + split; [|done]. rewrite lookup_delete_ne; [done|]. intros <-. by apply Hm, (Own kb kr E Ef).
    + by apply lookup_delete_Some in E as [_ E].
Qed.

(** The contents a deletion leaves represent the table without the row. *)
Lemma table_deleted c M c' k kb r es :
  table_at c M -> id_ok k -> encode k = Ok kb -> M !! kb = Some (k, r) -> index_entries k r h = Ok es ->
  (forall key, ~ red_keys h reds key -> c' !! key = without (delete (pkey kb) c) (map fst es) !! key) ->
  tracked c' h (rows_of (delete kb M)) reds ->
  table_at c' (delete kb M) /\ forall key, ~ touches kb key -> c' !! key = c !! key.
Proof.
  intros T Hk Ek E Ee Hc Tr. pose proof (ta_rows _ _ T kb _ E) as Hf. destruct (row_entries kb _ Hf) as (es' & Ee' & P).
  cbn [fst snd] in Ee'. rewrite Ee in Ee'. injection Ee' as <-.
  assert (old_keys k (old_of M kb) = map fst es) as Eold by (unfold old_of; rewrite E; simpl; by rewrite Ee).
  split; [split|].
  - intros kb' kr E'. apply lookup_delete_Some in E' as [_ E']. by apply (ta_rows _ _ T).
  - intros kb'. rewrite Hc, lookup_without, decide_False; [|intros Hin; apply P in Hin as [Hin _]; by apply pkey_not_face in Hin|apply red_not_pkey].
    destruct (decide (kb' = kb)) as [->|N]; [by rewrite !lookup_delete_eq|].
    rewrite !lookup_delete_ne by (done || intros X; by apply pkey_inj in X). apply T.
  - intros key v Hface. rewrite Hc by by apply red_not_face.
    rewrite lookup_without, lookup_delete_ne by (intros <-; by apply pkey_not_face in Hface). rewrite <- Eold. by apply face_without.
  - exact Tr.
  - intros key N. unfold touches in N. rewrite Hc, lookup_without, decide_False, lookup_delete_ne; [done|intros <-; tauto| |tauto].
    intros Hin. apply P in Hin as [? _]. tauto.
Qed.

(** [delete_into]'s body is the deletion. *)
Lemma runs_delete (st : BatchStore S) M k kb r (Q : unit -> BatchStore S -> Prop) :
  table_at (held st) M -> id_ok k -> encode k = Ok kb -> M !! kb = Some (k, r) -> purge_room M kb k ->
  (forall st', bs_store st' = bs_store st -> table_at (held st') (delete kb M) ->
    (forall key, ~ touches kb key -> held st' !! key = held st !! key) -> Q tt st') ->
  runs (delete_body k r) st Q.
Proof.
  intros T Hk Ek E Room HQ. pose proof (ta_rows _ _ T kb _ E) as Hf. destruct (row_entries kb _ Hf) as (es & Ee & P).
  cbn [fst snd] in Ee. assert (old_of M kb = Some r) as Eo by (unfold old_of; by rewrite E). unfold purge_room in Room.
  rewrite Eo in Room.
  unfold delete_body. apply runs_bind. eapply runs_lift; [by apply primary_key_ok|]. apply runs_bind, runs_del.
  intros st1 [Es1 Ec1]. apply runs_bind. eapply runs_lift; [exact Ee|]. apply runs_bind, runs_delete_keys.
  intros st2 [Es2 Ec2]. rewrite Ec1 in Ec2.
  apply (runs_reduces _ _ _ (rows_of (delete kb M)) false); [|done|].
  - apply (tracked_outside (held st)); [|eapply tracked_perm; [exact (rows_of_delete M kb _ E)|apply T]].
    intros key Hred. rewrite Ec2, lookup_without, decide_False, lookup_delete_ne; [done| |].
    + intros <-. by apply red_not_pkey in Hred.
    + intros Hin. apply P in Hin as [X _]. by apply red_not_face in X.
  - intros st3 Es3 T3 F3. destruct (table_deleted (held st) M (held st3) k kb r es) as [T' F']; try done.
    { intros key N. by rewrite F3, Ec2. }
    apply HQ; [congruence|done|done].
Qed.

(** ** Reading *)

Lemma load_row {V} `{VirtualStorage V} (s : V) r : doc_ok (K := K) r -> load (K := K) s (Some (payload_b r)) = Ok (Some r).
Proof.
  intros Hr. destruct (decode_payload_b r Hr) as [_ D]. unfold load. rewrite D. cbn [liftp mbind outcome_bind].
  rewrite doc_embed_deref. cbn [mbind outcome_bind]. rewrite doc_deref. done.
Qed.

Lemma load_table {V} `{VirtualStorage V} (s : V) c M kb :
  table_at c M -> load (K := K) s (c !! pkey kb) = Ok (old_of M kb).
Proof.
  intros T. rewrite (ta_primary _ _ T). unfold old_of. destruct (M !! kb) as [kr|] eqn:E; [|done].
  destruct (ta_rows _ _ T kb kr E) as (_ & _ & Hr). by apply load_row.
Qed.

Lemma get_table (c : Collection S) M k kb :
  table_at (held (store c)) M -> encode k = Ok kb -> get c k = Ok (old_of M kb).
Proof.
  intros T Ek. unfold get. rewrite (primary_key_ok k kb Ek). cbn [mbind outcome_bind]. rewrite held_get. cbn [mbind outcome_bind].
  by apply load_table.
Qed.

Definition skey (kb : bytes) : bytes := h ++ slot_bytes DYNAMIC_SLOT ++ kb.

Lemma segment_key_ok {E} k kb : encode k = Ok kb -> segment_key (E := E) (R := R) k = Ok (skey kb).
Proof. intros Ek. unfold segment_key. rewrite Ek. cbn [liftp mbind outcome_bind]. apply fields_key_ok. Qed.

Lemma removal_reads_table {V} `{PointStorage V} (s : V) M k kb :
  table_at (held s) M -> encode k = Ok kb ->
  removal_reads s k = Ok (old_of M kb, bool_decide (is_Some (held s !! skey kb))).
Proof.
  intros T Ek. unfold removal_reads. rewrite (primary_key_ok k kb Ek). cbn [mbind outcome_bind]. rewrite held_get.
  cbn [mbind outcome_bind]. rewrite (load_table s _ M kb T). cbn [mbind outcome_bind]. rewrite (segment_key_ok k kb Ek).
  cbn [mbind outcome_bind]. by rewrite held_get.
Qed.

(** ** Whole writes *)

(** A table is decided by the keys of its regions. *)
Lemma table_at_frame c c' M :
  (forall key, (exists kb, key = pkey kb) \/ face_key key \/ red_keys h reds key -> c' !! key = c !! key) ->
  table_at c M -> table_at c' M.
Proof.
  intros F T. split; [apply T|..].
  - intros kb. rewrite F by eauto. apply T.
  - intros key v Hface. rewrite F by eauto. by apply T.
  - eapply tracked_outside; [|apply T]. intros key Hred. apply F. auto.
Qed.

Lemma skey_apart kb :
  (forall kb', skey kb <> pkey kb') /\ ~ face_key (skey kb) /\ ~ red_keys h reds (skey kb).
Proof.
  assert (slot_ok DYNAMIC_SLOT) as Ds by (left; unfold DYNAMIC_SLOT; lia). unfold skey, pkey. split; [|split].
  - intros kb' E. apply app_inv_head, slot_bytes_prefix_free in E; [done|done|apply PRIMARY_ok].
  - intros (s & t & Hs & E). apply live_slot in Hs as [Ho Hc]. apply app_inv_head, slot_bytes_prefix_free in E; [|done|done].
    subst s. by unfold DYNAMIC_SLOT in Hc.
  - intros (lr & g & Hin & E). apply red_slot_ok in Hin as (Ho & Hc & _). unfold acc_key in E.
    apply app_inv_head, slot_bytes_prefix_free in E; [|done|done]. rewrite <- E in Hc. by unfold DYNAMIC_SLOT in Hc.
Qed.

Lemma runs_into {A} (body : enc (BatchStore S) A) (s : S) b (P : A -> Batch -> Prop) :
  runs body (mkBatchStore s b) (λ a st', bs_store st' = s /\ P a (bs_batch st')) -> runs (into body s) b P.
Proof. intros (st' & a & E & _ & HP). exists (bs_batch st'), a. unfold into. by rewrite E. Qed.

(** The batch [b] over [s] represents the table. *)
Definition batch_table (s : S) (b : Batch) (M : table) : Prop := table_at (held (mkBatchStore s b)) M.

(** Nothing outside the collection's own keys differs. *)
Definition same_outside (c c' : gmap bytes bytes) : Prop :=
  forall key, ~ (exists t, key = h ++ t) -> c' !! key = c !! key.

Lemma touches_header kb key : touches kb key -> exists t, key = h ++ t.
Proof.
  intros [->|[(s & t & _ & ->)|(lr & g & _ & ->)]]; unfold pkey, acc_key; by eexists.
Qed.

Lemma same_outside_trans c1 c2 c3 : same_outside c1 c2 -> same_outside c2 c3 -> same_outside c1 c3.
Proof. intros A B key N. by rewrite B, A. Qed.

Lemma bs_eta (st : BatchStore S) s : bs_store st = s -> st = mkBatchStore s (bs_batch st).
Proof. destruct st. by intros <-. Qed.

Lemma runs_save_into (s : S) b M k kb r prev :
  batch_table s b M -> row_fits kb (k, r) -> save_room M kb k r -> prev = None \/ prev = old_of M kb ->
  runs (save_with_prev_into s k r prev) b (λ _ b', batch_table s b' (<[kb := (k, r)]> M) /\
    same_outside (held (mkBatchStore s b)) (held (mkBatchStore s b'))).
Proof.
  intros T Hf Room Hp. apply runs_into. apply (runs_save (mkBatchStore s b) M k kb); [done..|]. intros st' Es T' F.
  simpl in Es. split; [done|]. rewrite (bs_eta st' s Es) in T', F. split; [done|]. intros key N. apply F.
  intros Ht. by apply touches_header, N in Ht.
Qed.

(** Deleting a row's dynamic segment leaves the table alone. *)
Lemma segment_dropped (s : S) b M kb :
  batch_table s b M ->
  batch_table s (Batch_del b (skey kb)) M /\ held (mkBatchStore s (Batch_del b (skey kb))) !! skey kb = None /\
  same_outside (held (mkBatchStore s b)) (held (mkBatchStore s (Batch_del b (skey kb)))).
Proof.
  intros T. assert (forall key, held (mkBatchStore s (Batch_del b (skey kb))) !! key = delete (skey kb) (held (mkBatchStore s b)) !! key) as Hd.
  { intros key. simpl. by rewrite apply_batch_snoc. }
  destruct (skey_apart kb) as (A1 & A2 & A3). split; [|split].
  - apply (table_at_frame (held (mkBatchStore s b))); [|done]. intros key Hkey. rewrite Hd. apply lookup_delete_ne.
    intros <-. destruct Hkey as [[kb' E]|[?|?]]; [by apply (A1 kb')|done|done].
  - rewrite Hd. apply lookup_delete_eq.
  - intros key N. rewrite Hd. apply lookup_delete_ne. intros <-. apply N. by eexists.
Qed.

Lemma runs_purge_writes (s : S) b M k kb seg :
  batch_table s b M -> id_ok k -> encode k = Ok kb -> purge_room M kb k ->
  runs (purge_writes s k (old_of M kb) seg) b (λ _ b', batch_table s b' (delete kb M) /\
    held (mkBatchStore s b') !! skey kb = (if seg then None else held (mkBatchStore s b) !! skey kb) /\
    same_outside (held (mkBatchStore s b)) (held (mkBatchStore s b'))).
Proof.
  intros T Hk Ek Room. unfold purge_writes. apply runs_bind.
  assert (runs (match old_of M kb with Some document => delete_into s k document | None => mret tt end) b
    (λ _ b', batch_table s b' (delete kb M) /\ held (mkBatchStore s b') !! skey kb = held (mkBatchStore s b) !! skey kb /\
      same_outside (held (mkBatchStore s b)) (held (mkBatchStore s b')))) as D.
  { destruct (M !! kb) as [kr|] eqn:E.
    - destruct (old_row_key _ _ _ _ _ T Hk Ek E) as [Ekr ->]. apply runs_into.
      apply (runs_delete (mkBatchStore s b) M k kb); [done|done|done|by rewrite E, Ekr|done|]. intros st' Es T' F. simpl in Es.
      split; [done|]. rewrite (bs_eta st' s Es) in T', F. split; [done|]. split.
      + apply F. destruct (skey_apart kb) as (A1 & A2 & A3). intros [X|[X|X]]; [by apply A1 in X|done|done].
      + intros key N. apply F. intros Ht. by apply touches_header, N in Ht.
    - unfold old_of. rewrite E. apply runs_ret. split; [by rewrite delete_id|done]. }
  eapply runs_weaken; [exact D|]. intros u b1 (T1 & K1 & S1). destruct seg; [|by apply runs_ret].
  exists (Batch_del b1 (skey kb)), tt. unfold drop_segment. rewrite (segment_key_ok k kb Ek). split; [done|].
  destruct (segment_dropped s b1 (delete kb M) kb T1) as (T2 & K2 & S2). do 2 (split; [done|]). by eapply same_outside_trans.
Qed.

Lemma runs_purge_into (s : S) b M k kb :
  batch_table s b M -> id_ok k -> encode k = Ok kb -> purge_room M kb k ->
  runs (purge_into s k) b (λ found b', batch_table s b' (delete kb M) /\
    found = bool_decide (is_Some (M !! kb) \/ is_Some (held (mkBatchStore s b) !! skey kb)) /\
    held (mkBatchStore s b') !! skey kb = None /\
    same_outside (held (mkBatchStore s b)) (held (mkBatchStore s b'))).
Proof.
  intros T Hk Ek Room. unfold purge_into. apply runs_bind. eapply runs_reading; [by apply removal_reads_table|].
  assert (is_Some (old_of M kb) <-> is_Some (M !! kb)) as OM by (unfold old_of; by rewrite fmap_is_Some).
  destruct (decide (is_Some (M !! kb) \/ is_Some (held (mkBatchStore s b) !! skey kb))) as [F|F].
  - assert (negb (bool_decide (is_Some (old_of M kb))) && negb (bool_decide (is_Some (held (mkBatchStore s b) !! skey kb))) = false) as ->.
    { apply not_true_iff_false. rewrite andb_true_iff, !negb_true_iff, !bool_decide_eq_false, OM. tauto. }
    rewrite (bool_decide_true (_ \/ _)) by done. apply runs_bind. eapply runs_weaken; [by apply runs_purge_writes|].
    intros u b' (T' & D & So). apply runs_ret. do 2 (split; [done|]). split; [|done]. rewrite D.
    case_bool_decide as X; [done|]. by apply eq_None_not_Some.
  - assert (negb (bool_decide (is_Some (old_of M kb))) && negb (bool_decide (is_Some (held (mkBatchStore s b) !! skey kb))) = true) as ->.
    { rewrite andb_true_iff, !negb_true_iff, !bool_decide_eq_false, OM. tauto. }
    rewrite (bool_decide_false (_ \/ _)) by done. apply runs_ret. unfold batch_table in *.
    assert (M !! kb = None) as E by (apply eq_None_not_Some; tauto).
    rewrite delete_id by done. do 2 (split; [done|]). split; [apply eq_None_not_Some; tauto|done].
Qed.

(** [put]'s body is the insertion when no entry of the old row is lost. *)
Lemma runs_put_body (st : BatchStore S) M k kb r new (Q : R -> BatchStore S -> Prop) :
  table_at (held st) M -> row_fits kb (k, r) -> save_room M kb k r ->
  index_entries k r h = Ok new -> minus (old_keys k (old_of M kb)) (map fst new) = [] ->
  (forall st', bs_store st' = bs_store st -> table_at (held st') (<[kb := (k, r)]> M) -> Q r st') ->
  runs (put_body k r) st Q.
Proof.
  intros T Hf [Room1 Room2] En Hst HQ. pose proof Hf as (Hk & Ek & Hr). simpl in Hk, Ek, Hr.
  destruct (decode_payload_b r Hr) as [Ep _].
  unfold put_body. apply runs_bind. eapply runs_lift; [by apply primary_key_ok|].
  apply runs_bind. unfold interned. rewrite doc_no_vocab. apply runs_ret. apply runs_bind, runs_get. apply runs_bind.
  assert (runs (match held st !! pkey kb with
    | Some v => old ← lift (decode_payload v); mret (Some old) | None => mret None end) st
    (λ prev st', prev = old_of M kb /\ st' = st)) as D.
  { rewrite (ta_primary _ _ T). unfold old_of. destruct (M !! kb) as [kr|] eqn:E; [|by apply runs_ret].
    destruct (ta_rows _ _ T kb kr E) as (_ & _ & Hr'). destruct (decode_payload_b kr.2 Hr') as [_ D].
    apply runs_bind. eapply runs_lift; [exact D|]. by apply runs_ret. }
  eapply runs_weaken; [exact D|]. intros prev st0 [-> ->].
  apply runs_bind, (runs_unfold st M k kb); [done|done|done|done|]. intros st1 Es1 T1 F1.
  apply runs_bind. eapply runs_lift; [exact Ep|]. apply runs_bind, runs_put. intros st2 [Es2 Ec2].
  apply runs_bind. eapply runs_lift; [exact En|]. apply runs_bind, runs_write_entries. intros st3 [Es3 Ec3].
  apply runs_bind, runs_embed. apply runs_bind.
  destruct (row_entries kb (k, r) Hf) as (es & Ee & P). simpl in Ee. rewrite En in Ee. injection Ee as <-.
  apply (runs_reduces _ _ _ (rows_of (delete kb M)) true).
  - apply (tracked_outside (held st1)); [|done]. intros key Hred. rewrite Ec3, lookup_overlay, Ec2.
    assert (newest new key = None) as -> by (apply newest_None; intros Hin; apply P in Hin as [X _]; by apply red_not_face in X).
    apply lookup_insert_ne. intros <-. by apply red_not_pkey in Hred.
  - done.
  - intros st4 Es4 T4 F4. apply runs_ret. apply HQ; [congruence|].
    apply (table_saved (held st) M (held st4) k kb r new T Hf En); [|done].
    intros key N. rewrite F4, Ec3, !lookup_overlay, Hst, Ec2 by done.
    destruct (newest new key); [done|]. simpl.
    destruct (decide (key = pkey kb)) as [->|N2]; [by rewrite !lookup_insert_eq|]. rewrite !lookup_insert_ne by done. by apply F1.
Qed.
End Steps.

(** ** Theorems *)

Section Theorems.
Context {S : Type} `{PointStorage S}.

(** The writes a caller collects in one batch. *)
Inductive write : Type :=
| Save (k : K) (r : R) (prev : option R)
| Purge (k : K).

Definition run_write (s : S) (w : write) : enc Batch unit :=
  match w with Save k r prev => save_with_prev_into s k r prev | Purge k => purge_into s k;; mret tt end.

Fixpoint run_writes (s : S) (ws : list write) : enc Batch unit :=
  match ws with [] => mret tt | w :: ws => run_write s w;; run_writes s ws end.

(** The same writes on the table; a caller that passes the old row passes the
    row the table has. *)
Inductive table_steps : table -> list write -> table -> Prop :=
| steps_nil M : table_steps M [] M
| steps_save M kb k r prev ws M' :
    row_fits kb (k, r) -> save_room M kb k r -> prev = None \/ prev = old_of M kb ->
    table_steps (<[kb := (k, r)]> M) ws M' -> table_steps M (Save k r prev :: ws) M'
| steps_purge M kb k ws M' :
    id_ok k -> encode k = Ok kb -> purge_room M kb k ->
    table_steps (delete kb M) ws M' -> table_steps M (Purge k :: ws) M'.

Lemma runs_writes (s : S) ws : forall b M M',
  batch_table s b M -> table_steps M ws M' ->
  runs (run_writes s ws) b (λ _ b', batch_table s b' M' /\ same_outside (held (mkBatchStore s b)) (held (mkBatchStore s b'))).
Proof.
  induction ws as [|w ws IH]; intros b M M' T St; inversion St; subst; simpl.
  - by apply runs_ret.
  - apply runs_bind. eapply runs_weaken; [by eapply runs_save_into|]. intros u b1 [T1 S1].
    eapply runs_weaken; [by eapply IH|]. intros u2 b2 [T2 S2]. split; [done|]. by eapply same_outside_trans.
  - apply runs_bind, runs_bind. eapply runs_weaken; [by eapply runs_purge_into|]. intros f b1 (T1 & _ & _ & S1).
    apply runs_ret. eapply runs_weaken; [by eapply IH|]. intros u2 b2 [T2 S2]. split; [done|]. by eapply same_outside_trans.
Qed.

(** C1: a collection is a finite map from keys to rows.  Over any engine, any
    sequence of [save_with_prev_into] and [purge_into] collected in one batch,
    with the old row passed or left to be read through the batch, succeeds; its
    single commit turns a store that represents a table into one that represents
    the table after the same insertions and deletions: the rows, exactly the
    entries the rows produce under every declared face, and the accumulators of
    every reduce.  Reads then answer the table, and no key outside the
    collection's header is touched. *)
Theorem collection_refines (s : S) M ws M' :
  table_at (held s) M -> table_steps M ws M' ->
  exists b s', run_writes s ws Batch_default = (b, Ok tt) /\ vs_commit_batch s b = (s', Ok tt) /\
  table_at (held s') M' /\ same_outside (held s) (held s') /\
  forall k kb e, encode k = Ok kb -> get (mkCollection s' e) k = Ok (old_of M' kb).
Proof.
  intros T St. destruct (runs_writes s ws Batch_default M M' T St) as (b & [] & E & T' & So).
  destruct (held_commit s b) as (s' & Ec & Es'). exists b, s'. split; [done|]. split; [done|].
  unfold batch_table in T'. simpl in T', So. rewrite <- Es' in T', So. do 2 (split; [done|]).
  intros k kb e Ek. by apply get_table.
Qed.

Lemma commit_held p (c : Collection S) b : 0 <= epoch c < 2 ^ 64 - 1 ->
  exists s', commit p c b = (mkCollection s' (epoch c + 1), Ok tt) /\ held s' = held (mkBatchStore (store c) b).
Proof.
  intros Ep. destruct (held_commit (store c) b) as (s' & Ec & Es'). exists s'. split; [|done]. unfold commit. rewrite Ec.
  unfold add_w. by rewrite (proj2 (Z.ltb_lt _ _)) by lia.
Qed.

Lemma put_refines p (c : Collection S) M k kb r new :
  table_at (held (store c)) M -> 0 <= epoch c < 2 ^ 64 - 1 -> row_fits kb (k, r) -> save_room M kb k r ->
  index_entries k r h = Ok new -> minus (old_keys k (old_of M kb)) (map fst new) = [] ->
  exists s', put p c k r = (mkCollection s' (epoch c + 1), Ok tt) /\ table_at (held s') (<[kb := (k, r)]> M).
Proof.
  intros T Ep Hf Room En Hst.
  assert (runs (into (put_body k r) (store c)) Batch_default (λ _ b, batch_table (store c) b (<[kb := (k, r)]> M))) as (b & a & E & T').
  { apply runs_into. eapply runs_put_body; [exact T|done..|]. intros st' Es T'. split; [done|].
    simpl in Es. by rewrite (bs_eta st' _ Es) in T'. }
  destruct (commit_held p c b Ep) as (s' & Ec & Es'). exists s'. unfold put, commit_built. rewrite E, Ec. split; [done|].
  by rewrite Es'.
Qed.

Lemma purge_refines p (c : Collection S) M k kb :
  table_at (held (store c)) M -> 0 <= epoch c < 2 ^ 64 - 1 -> id_ok k -> encode k = Ok kb -> purge_room M kb k ->
  let found := bool_decide (is_Some (M !! kb) \/ is_Some (held (store c) !! skey kb)) in
  exists s', purge p c k = (mkCollection s' (if found then epoch c + 1 else epoch c), Ok found) /\
    table_at (held s') (delete kb M) /\ held s' !! skey kb = None.
Proof.
  intros T Ep Hk Ek Room found.
  assert (is_Some (old_of M kb) <-> is_Some (M !! kb)) as OM by (unfold old_of; by rewrite fmap_is_Some).
  unfold purge. rewrite (removal_reads_table (store c) M k kb T Ek). destruct (negb _ && negb _) eqn:N.
  - rewrite andb_true_iff, !negb_true_iff, !bool_decide_eq_false, OM in N. unfold found. rewrite bool_decide_false by tauto.
    destruct c as [s e]. exists s. split; [done|]. rewrite delete_id by (apply eq_None_not_Some; tauto). split; [done|].
    apply eq_None_not_Some. tauto.
  - assert (found = true) as ->.
    { unfold found. apply bool_decide_eq_true. apply not_true_iff_false in N. rewrite andb_true_iff, !negb_true_iff, !bool_decide_eq_false, OM in N.
      destruct (decide (is_Some (M !! kb))), (decide (is_Some (held (store c) !! skey kb))); tauto. }
    destruct (runs_purge_writes (store c) Batch_default M k kb (bool_decide (is_Some (held (store c) !! skey kb))) T Hk Ek Room)
      as (b & [] & E & T' & Kb & _).
    destruct (commit_held p c b Ep) as (s' & Ec & Es'). exists s'. unfold commit_built. rewrite E, Ec. split; [done|].
    rewrite Es'. split; [done|]. rewrite Kb. case_bool_decide as X; [done|]. by apply eq_None_not_Some.
Qed.

(** The committing verbs.  [put] is the insertion whenever the new row still
    produces every entry of the row it replaces, in particular for a fresh key;
    [purge] is the deletion, answers whether there was a row or a dynamic
    segment, and leaves neither; each write is one commit and one tick of the
    epoch. *)
Theorem verbs_refine p (c : Collection S) M k kb r new :
  table_at (held (store c)) M -> 0 <= epoch c < 2 ^ 64 - 1 -> row_fits kb (k, r) -> save_room M kb k r ->
  index_entries k r h = Ok new -> minus (old_keys k (old_of M kb)) (map fst new) = [] ->
  (exists s', put p c k r = (mkCollection s' (epoch c + 1), Ok tt) /\ table_at (held s') (<[kb := (k, r)]> M)) /\
  let found := bool_decide (is_Some (M !! kb) \/ is_Some (held (store c) !! skey kb)) in
  exists s', purge p c k = (mkCollection s' (if found then epoch c + 1 else epoch c), Ok found) /\
    table_at (held s') (delete kb M) /\ held s' !! skey kb = None.
Proof.
  intros T Ep Hf Room En Hst. split; [by eapply put_refines|]. destruct Hf as (Hk & Ek & _), Room as [Room _].
  by apply purge_refines.
Qed.
End Theorems.

(** ** Scans answer the table *)

Section Scan.
Context {S : Type} `{ReliableStorage S}.

Lemma fetch_back_spec (c : Collection S) M hits :
  table_at (contents (store c)) M ->
  Forall (λ pk, exists kb, pk_taken pk = KEY_LEN (K := K) /\ encode (pk_decoded pk) = Ok kb) hits ->
  exists out, fetch_back c hits = Ok out /\
  forall pk d, (pk, d) ∈ out <-> pk ∈ hits /\ forall kb, encode (pk_decoded pk) = Ok kb -> d = old_of M kb.
Proof.
  intros T F. assert (table_at (held (store c)) M) as T' by exact T.
  induction F as [|pk hits (kb & Et & Ek) F (out & E & Hout)].
  - exists []. split; [done|]. intros pk d. rewrite !elem_of_nil. tauto.
  - exists ((pk, old_of M kb) :: out). simpl. rewrite Et, Z.eqb_refl, (get_table c M _ kb T' Ek). cbn [mbind outcome_bind].
    rewrite E. split; [done|]. intros pk' d. rewrite !elem_of_cons, Hout. split.
    + intros [[= -> ->]|[? ?]]; [|tauto]. split; [by left|]. intros kb' Ek'. congruence.
    + intros [[->|Hin] Hd]; [left; by rewrite (Hd kb Ek)|by right].
Qed.

(** The keys under an access method's slot are the segments of the rows. *)
Lemma method_entries c M ix kb k r seg :
  table_at c M -> method_ok (R := R) ix -> M !! kb = Some (k, r) -> seg ∈ segments_of ix k r ->
  is_Some (c !! (h ++ slot_bytes (SLOT ix) ++ seg ++ kb)).
Proof.
  intros T [_ _ Hent] EM Hseg. pose proof (ta_rows _ _ T _ _ EM) as Hf. pose proof Hf as (Hk & Ek & Hr). simpl in Hk, Ek, Hr.
  destruct (row_entries kb (k, r) Hf) as (es & Ee & P).
  assert (h ++ slot_bytes (SLOT ix) ++ seg ++ kb ∈ map fst es) as Hin by (apply (Hent kb k r h es _ Hk Ek Hr Ee); by eexists).
  destruct (newest es (h ++ slot_bytes (SLOT ix) ++ seg ++ kb)) as [v|] eqn:Nw; [|by apply newest_None in Nw].
  exists v. apply (ta_faces _ _ T); [by apply P|]. exists kb, (k, r). split; [done|].
  by rewrite (face_of_entries (k, r) es _ Ee).
Qed.

Lemma entries_method c M ix t :
  table_at c M -> method_ok (R := R) ix -> is_Some (c !! (h ++ slot_bytes (SLOT ix) ++ t)) ->
  exists kb k r seg, M !! kb = Some (k, r) /\ seg ∈ segments_of ix k r /\ t = seg ++ kb.
Proof.
  intros T [Hslot _ Hent] [v Hv]. assert (face_key (h ++ slot_bytes (SLOT ix) ++ t)) as Hface by by exists (SLOT ix), t.
  apply (ta_faces _ _ T _ v Hface) in Hv as (kb & [k r] & E & Ef). pose proof (ta_rows _ _ T _ _ E) as Hf.
  destruct (row_entries kb (k, r) Hf) as (es & Ee & _). rewrite (face_of_entries (k, r) es _ Ee) in Ef.
  apply newest_Some in Ef. assert (h ++ slot_bytes (SLOT ix) ++ t ∈ map fst es) as Hin by (apply list_elem_of_fmap; by eexists (_, v)).
  destruct Hf as (Hk & Ek & Hr). apply (Hent kb k r h es t Hk Ek Hr Ee) in Hin as (seg & Hseg & ->). by exists kb, k, r, seg.
Qed.

(** A hit of the index is a row with the probe as a segment. *)
Lemma scan_hits (c : Collection S) M ix probe (exact : bool) :
  table_at (contents (store c)) M -> method_ok (R := R) ix ->
  bytes_ok (h ++ slot_bytes (SLOT ix) ++ probe) -> long_keys (contents (store c)) (h ++ slot_bytes (SLOT ix) ++ probe) ->
  exists pks, scan_index_filtered (store c) ix h probe exact = Ok pks /\
  forall pk, pk ∈ pks <-> exists kb k r ext, M !! kb = Some (k, r) /\ (exact = true -> ext = []) /\
    probe ++ ext ∈ segments_of ix k r /\ pk = mkPrefixKey k (KEY_LEN (K := K)).
Proof.
  intros T Hix Hb Hlong. set (m := contents (store c)) in *.
  destruct (scan_filtered_spec (store c) ix h probe exact) as (pks & E & Hpks);
    [by apply live_slot, Hix|by apply Hix|done|done|..].
  { intros t Ht. rewrite <- app_assoc in Ht. destruct (entries_method m M ix t T Hix Ht) as (kb & k & r & seg & EM & _ & ->).
    destruct (ta_rows _ _ T _ _ EM) as ([Hk _] & Ek & _). by exists seg, k, kb. }
  exists pks. split; [done|]. intros pk. rewrite Hpks. split.
  - intros (ext & k & b & Hk & Eb & Hex & Hin & ->).
    destruct (entries_method m M ix _ T Hix Hin) as (kb & k' & r & seg & EM & Hseg & Et).
    pose proof (ta_rows _ _ T _ _ EM) as (Hk' & Ek' & _). simpl in Hk', Ek'.
    destruct (key_encodes k Hk) as (b' & Eb' & Lb & D). rewrite Eb in Eb'. injection Eb' as <-.
    rewrite (app_assoc probe) in Et. apply app_inj_2 in Et as [<- ->].
    2:{ pose proof (id_len _ _ Hk' Ek'). unfold zlen in *. lia. }
    exists kb, k', r, ext. do 3 (split; [done|]). f_equal.
    destruct Hk' as [Ok' Nk']. destruct (key_encodes k' Ok') as (b' & Eb' & _ & D'). rewrite Ek' in Eb'. injection Eb' as <-.
    specialize (D []). specialize (D' []). rewrite Nk' in D'. congruence.
  - intros (kb & k & r & ext & EM & Hex & Hseg & ->). pose proof (ta_rows _ _ T _ _ EM) as ([Hk Nk] & Ek & Hr).
    simpl in Hk, Nk, Ek. exists ext, k, kb. do 3 (split; [done|]). split; [|by rewrite Nk].
    rewrite (app_assoc probe). by apply (method_entries m M ix kb k r).
Qed.

(** C2: index scans answer the rows.  On a store that represents a table, the
    equality scan of an access method answers exactly the rows that have the
    probe among their segments, each with its document, and the prefix scan
    exactly the rows with a segment that starts with the probe; no row is missed,
    none is stale, none is matched through the bytes of its key. *)
Theorem scan_rows (c : Collection S) M ix probe (exact : bool) :
  table_at (contents (store c)) M -> method_ok (R := R) ix ->
  bytes_ok (h ++ slot_bytes (SLOT ix) ++ probe) -> long_keys (contents (store c)) (h ++ slot_bytes (SLOT ix) ++ probe) ->
  exists out, (if exact then scan_exact c ix probe else scan c ix probe) = Ok out /\
  forall pk d, (pk, d) ∈ out <-> exists kb k r ext, M !! kb = Some (k, r) /\ (exact = true -> ext = []) /\
    probe ++ ext ∈ segments_of ix k r /\ pk = mkPrefixKey k (KEY_LEN (K := K)) /\ d = Some r.
Proof.
  intros T Hix Hb Hlong. destruct (scan_hits c M ix probe exact T Hix Hb Hlong) as (pks & E & Hits).
  destruct (fetch_back_spec c M pks T) as (out & Eo & Hout).
  { apply Forall_forall. intros pk Hpk. apply Hits in Hpk as (kb & k & r & ext & EM & _ & _ & ->).
    destruct (ta_rows _ _ T _ _ EM) as (_ & Ek & _). by exists kb. }
  exists out. split.
  - unfold scan_exact, scan, scan_index_exact, scan_index. destruct exact; rewrite E; exact Eo.
  - intros pk d. rewrite Hout, Hits. split.
    + intros [(kb & k & r & ext & EM & Hex & Hseg & ->) Hd]. exists kb, k, r, ext. do 4 (split; [done|]).
      destruct (ta_rows _ _ T _ _ EM) as (_ & Ek & _). rewrite (Hd kb Ek). unfold old_of. by rewrite EM.
    + intros (kb & k & r & ext & EM & Hex & Hseg & -> & ->). split; [by exists kb, k, r, ext|].
      intros kb' Ek'. destruct (ta_rows _ _ T _ _ EM) as (_ & Ek & _). simpl in *. assert (kb' = kb) as -> by congruence.
      unfold old_of. by rewrite EM.
Qed.

(** ** Ranges *)

Lemma cut_from_app {E} (a b : bytes) n : 0 <= n <= zlen a ->
  cut_from (E := E) (a ++ b) n = Ok (drop (Z.to_nat n) a ++ b).
Proof.
  intros Hn. unfold cut_from. assert (zlen (take (Z.to_nat n) a) = n) as L by (unfold zlen in *; rewrite length_take; lia).
  pose proof (take_drop (Z.to_nat n) a) as Ea. revert L Ea. generalize (take (Z.to_nat n) a) (drop (Z.to_nat n) a).
  intros x y L Ea. rewrite <- Ea, <- app_assoc, <- L. by rewrite slice_all_from.
Qed.

(** An entry of a row under an access method, no shorter than [n] without its key. *)
Definition row_entry (M : gmap bytes (K * R)) (ix : KvIndex K R) (n : nat) (full : bytes) (hit : PrefixKey K * option R) : Prop :=
  exists kb k r seg, M !! kb = Some (k, r) /\ seg ∈ segments_of ix k r /\ (n <= length seg)%nat /\
    full = h ++ slot_bytes (SLOT ix) ++ seg ++ kb /\ hit = (mkPrefixKey k (KEY_LEN (K := K)), Some r).

Lemma row_entry_hit (c : Collection S) M (ix : KvIndex K R) (begin full : bytes) hit :
  table_at (contents (store c)) M -> row_entry M ix (length begin) full hit ->
  exists suffix, cut_from (E := Error) full (zlen (h ++ slot_bytes (SLOT ix) ++ begin)) = Ok suffix /\
  (zlen suffix <? KEY_LEN (K := K)) = false /\ decode_tail (KEY_LEN (K := K)) suffix = Ok (pk_decoded hit.1) /\
  get c (pk_decoded hit.1) = Ok hit.2 /\ hit.1 = mkPrefixKey (pk_decoded hit.1) (KEY_LEN (K := K)).
Proof.
  intros T (kb & k & r & seg & EM & _ & L & -> & ->). cbn [fst snd pk_decoded].
  pose proof (ta_rows _ _ T _ _ EM) as ([Hk Nk] & Ek & _). simpl in Hk, Nk, Ek.
  rewrite !(app_assoc h). set (P := h ++ slot_bytes (SLOT ix)). rewrite (app_assoc P seg).
  set (pre := drop (Z.to_nat (zlen (P ++ begin))) (P ++ seg)). exists (pre ++ kb).
  split; [apply cut_from_app; unfold zlen; rewrite !length_app; lia|].
  destruct (decode_tail_spec pre k kb Hk Ek) as [D Lb].
  split; [rewrite zlen_app, Lb; pose proof (zlen_nonneg pre); apply Z.ltb_ge; lia|].
  split; [by rewrite D, Nk|]. split; [|done].
  assert (table_at (held (store c)) M) as T' by exact T. rewrite (get_table c M k kb T' Ek). unfold old_of. by rewrite EM.
Qed.

Lemma range_hits_spec (c : Collection S) M (ix : KvIndex K R) (begin : bytes) keys hits :
  table_at (contents (store c)) M -> Forall2 (row_entry M ix (length begin)) keys hits ->
  range_hits c (zlen (h ++ slot_bytes (SLOT ix) ++ begin)) (KEY_LEN (K := K)) keys = Ok hits.
Proof.
  intros T. induction 1 as [|full [pk d] keys hits Hrow F IH]; [done|]. cbn [range_hits].
  destruct (row_entry_hit c M ix begin full _ T Hrow) as (suffix & -> & E1 & E2 & E3 & E4). cbn [fst snd] in *.
  cbn [mbind outcome_bind]. rewrite E1, E2. cbn [liftp mbind outcome_bind]. rewrite Z.eqb_refl, E3. cbn [mbind outcome_bind].
  rewrite IH. cbn [mbind outcome_bind]. by rewrite <- E4.
Qed.

Lemma entry_iter_spec (c : Collection S) M (ix : KvIndex K R) (begin : bytes) (m : gmap bytes bytes) keys hits :
  table_at (contents (store c)) M -> Forall2 (row_entry M ix (length begin)) keys hits ->
  Forall (λ full, is_Some (m !! full)) keys ->
  omap (entry_item c (zlen (h ++ slot_bytes (SLOT ix) ++ begin)) (KEY_LEN (K := K)))
    (map Ok (omap (λ full, (λ v : bytes, (full, v)) <$> m !! full) keys)) = map Ok hits.
Proof.
  intros T. induction 1 as [|full [pk d] keys hits Hrow F IH]; [done|]. intros [[v Ev] Fk]%Forall_cons.
  cbn [omap list_omap]. rewrite Ev. cbn [fmap option_fmap option_map map omap list_omap entry_item].
  destruct (row_entry_hit c M ix begin full _ T Hrow) as (suffix & -> & E1 & E2 & E3 & E4). cbn [fst snd] in *.
  rewrite E1, E2. cbn [liftp mbind outcome_bind]. rewrite Z.eqb_refl, E3. cbn [mbind outcome_bind].
  rewrite <- E4. f_equal. by apply IH.
Qed.

(** The entries of a range under an access method are those of the rows in it. *)
Lemma range_entries (m : gmap bytes bytes) M (ix : KvIndex K R) (begin end_ : bytes) :
  table_at m M -> method_ok (R := R) ix ->
  (forall kb k r seg, M !! kb = Some (k, r) -> seg ∈ segments_of ix k r -> begin ≼ seg ++ kb -> (length begin <= length seg)%nat) ->
  exists hits, Forall2 (row_entry M ix (length begin))
    (range_keys m (h ++ slot_bytes (SLOT ix) ++ begin) (Some (h ++ slot_bytes (SLOT ix) ++ end_))) hits /\
  forall pk d, (pk, d) ∈ hits <-> exists kb k r seg, M !! kb = Some (k, r) /\ seg ∈ segments_of ix k r /\
    begin ≼ seg ++ kb /\ seg ++ kb ≺ end_ /\ pk = mkPrefixKey k (KEY_LEN (K := K)) /\ d = Some r.
Proof.
  intros T Hix Hlen. set (P := h ++ slot_bytes (SLOT ix)). set (keys := range_keys _ _ _).
  assert (forall full, full ∈ keys <-> exists t, full = P ++ t /\ is_Some (m !! full) /\ begin ≼ t /\ t ≺ end_) as Hkeys.
  { intros full. unfold keys. rewrite elem_of_range_keys, !(app_assoc h). fold P. split.
    - intros (Hm & Hb & He). destruct (between_prefix P begin end_ full Hb He) as [t ->]. exists t.
      by rewrite bytes_le_app, bytes_lt_app in *.
    - intros (t & -> & Hm & Hb & He). by rewrite bytes_le_app, bytes_lt_app. }
  assert (Forall (λ full, exists hit, row_entry M ix (length begin) full hit) keys) as F.
  { apply Forall_forall. intros full (t & -> & Hm & Hb & _)%Hkeys. unfold P in Hm. rewrite <- app_assoc in Hm.
    destruct (entries_method m M ix t T Hix Hm) as (kb & k & r & seg & EM & Hseg & ->).
    eexists. exists kb, k, r, seg. do 2 (split; [done|]). split; [by apply (Hlen kb k r)|].
    split; [unfold P; by rewrite <- !app_assoc|done]. }
  apply Forall_exists_Forall2_l in F as [hits F]. exists hits. split; [done|]. intros pk d. split.
  - intros Hin. destruct (proj1 (list_elem_of_lookup _ _) Hin) as [i Ei].
    destruct (Forall2_lookup_r _ _ _ _ _ F Ei) as (full & Ek & kb & k & r & seg & EM & Hseg & _ & -> & [= -> ->]).
    apply list_elem_of_lookup_2, Hkeys in Ek as (t & Et & _ & Hb & He). unfold P in Et. rewrite <- app_assoc in Et.
    do 2 apply app_inv_head in Et. subst t. by exists kb, k, r, seg.
  - intros (kb & k & r & seg & EM & Hseg & Hb & He & -> & ->).
    assert (P ++ seg ++ kb ∈ keys) as Hin.
    { apply Hkeys. exists (seg ++ kb). split; [done|]. split; [|done]. unfold P. rewrite <- app_assoc. by apply (method_entries m M ix kb k r). }
    destruct (proj1 (list_elem_of_lookup _ _) Hin) as [i Ei].
    destruct (Forall2_lookup_l _ _ _ _ _ F Ei) as (hit & Eh & kb' & k' & r' & seg' & EM' & _ & _ & Ef & ->).
    unfold P in Ef. rewrite <- app_assoc in Ef. do 2 apply app_inv_head in Ef.
    pose proof (ta_rows _ _ T _ _ EM) as (Hk & Ek & _). pose proof (ta_rows _ _ T _ _ EM') as (Hk' & Ek' & _).
    apply app_inj_2 in Ef as [_ <-].
    2:{ pose proof (id_len _ _ Hk Ek). pose proof (id_len _ _ Hk' Ek'). unfold zlen in *. lia. }
    rewrite EM in EM'. injection EM' as <- <-. by eapply list_elem_of_lookup_2.
Qed.

(** Range scans answer the rows.  On a store that represents a table, with
    bounds no longer than the segments of the rows at or above the begin, the
    range scan of an access method answers, in entry order, exactly the rows with an entry
    in [[begin, end)], each with its document; the lazy walk yields the same. *)
Theorem scan_range_rows (c : Collection S) M (ix : KvIndex K R) (begin end_ : bytes) :
  table_at (contents (store c)) M -> method_ok (R := R) ix ->
  (forall kb k r seg, M !! kb = Some (k, r) -> seg ∈ segments_of ix k r -> begin ≼ seg ++ kb -> (length begin <= length seg)%nat) ->
  exists out, scan_range c ix begin (Some end_) = Ok out /\ scan_range_iter c ix begin (Some end_) = Ok (map Ok out) /\
  forall pk d, (pk, d) ∈ out <-> exists kb k r seg, M !! kb = Some (k, r) /\ seg ∈ segments_of ix k r /\
    begin ≼ seg ++ kb /\ seg ++ kb ≺ end_ /\ pk = mkPrefixKey k (KEY_LEN (K := K)) /\ d = Some r.
Proof.
  intros T Hix Hlen. destruct (range_entries _ M ix begin end_ T Hix Hlen) as (hits & F & Hhits). exists hits.
  assert (slot_ok (SLOT ix)) as Hs by apply live_slot, Hix.
  assert (forall t, entry_prefix ix h t = Ok (h ++ slot_bytes (SLOT ix) ++ t)) as Ep.
  { intros t. unfold entry_prefix. rewrite write_slot_ok by done. cbn [mbind outcome_bind]. by rewrite app_assoc. }
  assert (key_prefix_width (K := K) (R := R) ix = Ok (KEY_LEN (K := K))) as Ew by (unfold key_prefix_width; by rewrite (mo_whole _ Hix)).
  unfold scan_range, scan_range_iter. rewrite !Ep, Ew. cbn [liftp mbind outcome_bind].
  rewrite scan_range_spec. cbn [mbind outcome_bind]. split; [by eapply range_hits_spec|]. split; [|exact Hhits].
  unfold entry_iter. rewrite scan_range_iter_spec. unfold range_pairs. f_equal.
  eapply entry_iter_spec; [done..|]. apply Forall_forall. by intros full [? _]%elem_of_range_keys.
Qed.
End Scan.
End Table.

(** * Witnesses *)

Abbreviation sample_row_type := (row (fields sample_schema)).
Abbreviation sample_table := (gmap bytes (krow sample_key * sample_row_type)).
Definition sample_kb : bytes := [0; 0; 0; 7; 1; 44; 9; 8].
Definition sample_kb2 : bytes := [0; 0; 0; 7; 1; 45; 9; 8].

Lemma sample_fits : row_fits sample_kb (sample_id, sample_row) /\ row_fits sample_kb2 (sample_id2, sample_row).
Proof.
  assert (id_ok sample_id2).
  { split; [|by vm_compute]. simpl. unfold key_value_ok, word_ok, bits. simpl. repeat split; first [lia | by vm_compute]. }
  assert (id_ok sample_id) by (split; [exact sample_id_ok|by vm_compute]).
  split; (split; [done|]; split; [by vm_compute|exact sample_row_exact]).
Qed.

(** The sample rows are grouped, and a small table is counted. *)
Lemma sample_save_room (M : sample_table) k : (size M < 8)%nat ->
  has_room (doc_reds (K := krow sample_key) (R := sample_row_type)) k sample_row (rows_of M) /\
  has_room (doc_reds (K := krow sample_key) (R := sample_row_type)) k sample_row ((k, sample_row) :: rows_of M).
Proof.
  intros L. assert (length (rows_of M) = size M) as Lr by (unfold rows_of; by rewrite length_fmap, length_map_to_list).
  assert (is_Some (match sample_group k sample_row with Ok g => Some g | _ => None end)) as G
    by (exists [104; 105]; vm_compute; reflexivity).
  split; (apply sample_count_room; [exact G|]; unfold zlen; cbn [length]; rewrite ?Lr; lia).
Qed.

Definition sample_writes : list (write (K := krow sample_key) (R := sample_row_type)) :=
  [Save sample_id sample_row None; Save sample_id2 sample_row None; Purge sample_id].

Lemma sample_row_grouped (k : krow sample_key) : is_Some (match sample_group k sample_row with Ok g => Some g | _ => None end).
Proof. exists [104; 105]. vm_compute. reflexivity. Qed.

Lemma sample_steps : table_steps (∅ : sample_table) sample_writes {[ sample_kb2 := (sample_id2, sample_row) ]}.
Proof.
  destruct sample_fits as [F F2].
  apply (steps_save _ sample_kb); [done| |by left|].
  { split; [exact I|]. rewrite delete_empty. refine (proj2 (sample_save_room ∅ _ _)). rewrite map_size_empty. lia. }
  apply (steps_save _ sample_kb2); [done| |by left|].
  { unfold save_room, old_of. rewrite lookup_insert_ne, lookup_empty, delete_insert_ne, delete_empty by done.
    split; [exact I|]. rewrite insert_empty. refine (proj2 (sample_save_room {[ sample_kb := (sample_id, sample_row) ]} _ _)). rewrite map_size_singleton. lia. }
  apply (steps_purge _ sample_kb); [apply F|apply F| |].
  { unfold purge_room, old_of. rewrite lookup_insert_ne, lookup_insert_eq, delete_insert_ne, delete_insert_id by done.
    rewrite insert_empty. refine (proj1 (sample_save_room {[ sample_kb2 := (sample_id2, sample_row) ]} _ _)). rewrite map_size_singleton. lia. }
  rewrite delete_insert_ne, delete_insert_id by done. rewrite insert_empty. apply steps_nil.
Qed.

(** The empty engine is the empty table. *)
Lemma sample_start : table_at (K := krow sample_key) (R := sample_row_type) (held (∅ : MemStore)) ∅.
Proof. exact table_empty. Qed.

Lemma collection_refines_witness :
  exists b (s' : MemStore), run_writes (∅ : MemStore) sample_writes Batch_default = (b, Ok tt) /\
  vs_commit_batch (∅ : MemStore) b = (s', Ok tt) /\
  table_at (K := krow sample_key) (R := sample_row_type) (held s') {[ sample_kb2 := (sample_id2, sample_row) ]} /\
  get (R := sample_row_type) (mkCollection s' 0) sample_id2 = Ok (Some sample_row) /\
  get (R := sample_row_type) (mkCollection s' 0) sample_id = Ok None.
Proof.
  destruct (collection_refines (∅ : MemStore) (∅ : sample_table) sample_writes _ sample_start sample_steps)
    as (b & s' & E & Ec & T & _ & G).
  exists b, s'. do 3 (split; [assumption|]).
  assert (encode sample_id2 = Ok sample_kb2) as E2 by apply sample_fits.
  assert (encode sample_id = Ok sample_kb) as E1 by apply sample_fits.
  split; [rewrite (G sample_id2 sample_kb2 0 E2)|rewrite (G sample_id sample_kb 0 E1)]; by vm_compute.
Defined.

(** The collection after [put sample_id sample_row]. *)
Definition sample_saved : Collection MemStore :=
  (put Debug (Collection_new (∅ : MemStore)) sample_id sample_row).1.

Lemma verbs_refine_witness :
  put Debug (Collection_new (∅ : MemStore)) sample_id sample_row = (sample_saved, Ok tt) /\
  table_at (K := krow sample_key) (R := sample_row_type) (held (store sample_saved)) {[ sample_kb := (sample_id, sample_row) ]} /\
  epoch sample_saved = 1.
Proof.
  destruct sample_fits as [F _].
  destruct (verbs_refine (S := MemStore) Debug (Collection_new (∅ : MemStore)) (∅ : sample_table) sample_id sample_kb sample_row
    (match index_entries sample_id sample_row (header (K := krow sample_key) (R := sample_row_type)) with Ok l => l | _ => [] end))
    as [(s' & E & T) _]; [exact sample_start|simpl; lia|done| |by vm_compute|done|].
  { split; [exact I|]. rewrite delete_empty. refine (proj2 (sample_save_room ∅ _ _)). rewrite map_size_empty. lia. }
  unfold sample_saved. rewrite E. rewrite insert_empty in T. done.
Defined.

Lemma sample_saved_at :
  table_at (K := krow sample_key) (R := sample_row_type) (contents (store sample_saved)) {[ sample_kb := (sample_id, sample_row) ]}.
Proof.
  destruct sample_fits as [F _].
  destruct (put_refines (S := MemStore) Debug (Collection_new (∅ : MemStore)) (∅ : sample_table) sample_id sample_kb sample_row
    (match index_entries sample_id sample_row (header (K := krow sample_key) (R := sample_row_type)) with Ok l => l | _ => [] end))
    as (s' & E & T); [exact sample_start|simpl; lia|done| |by vm_compute|done|].
  { split; [exact I|]. rewrite delete_empty. refine (proj2 (sample_save_room ∅ _ _)). rewrite map_size_empty. lia. }
  unfold sample_saved. rewrite E. rewrite insert_empty in T. exact T.
Qed.

Lemma sample_method : method_ok (R := sample_row_type) sample_index.
Proof. apply (derived_method Debug sample_declaration sample_counts sample_declaration_ok). by left. Qed.

Lemma sample_segments seg : seg ∈ segments_of sample_index sample_id sample_row <-> seg = [104; 105].
Proof.
  assert (segments_of sample_index sample_id sample_row = [[104; 105]]) as -> by (vm_compute; reflexivity).
  apply list_elem_of_singleton.
Qed.

Lemma scan_rows_witness :
  scan_exact sample_saved sample_index [104; 105] = Ok [(mkPrefixKey sample_id 8, Some sample_row)] /\
  exists out, scan_exact sample_saved sample_index [104; 105] = Ok out /\
  (mkPrefixKey sample_id 8, Some sample_row) ∈ out.
Proof.
  split; [by vm_compute|].
  destruct (scan_rows sample_saved {[ sample_kb := (sample_id, sample_row) ]} sample_index [104; 105] true sample_saved_at sample_method)
    as (out & E & H).
  - apply (bool_decide_unpack _). by vm_compute.
  - apply long_keys_check. by vm_compute.
  - exists out. split; [exact E|]. apply H. exists sample_kb, sample_id, sample_row, [].
    split; [apply lookup_singleton_eq|]. split; [done|]. split; [by apply sample_segments|]. by split.
Defined.

Lemma scan_range_rows_witness :
  exists out, scan_range sample_saved sample_index [104] (Some [105]) = Ok out /\
  scan_range_iter sample_saved sample_index [104] (Some [105]) = Ok (map Ok out) /\
  (mkPrefixKey sample_id 8, Some sample_row) ∈ out.
Proof.
  destruct (scan_range_rows sample_saved {[ sample_kb := (sample_id, sample_row) ]} sample_index [104] [105] sample_saved_at sample_method)
    as (out & E & Ei & H).
  - intros kb k r seg [<- [= <- <-]]%lookup_singleton_Some Hin%sample_segments _. subst seg. simpl. lia.
  - exists out. do 2 (split; [assumption|]). apply H. exists sample_kb, sample_id, sample_row, [104; 105].
    split; [apply lookup_singleton_eq|]. split; [by apply sample_segments|].
    split; [done|]. split; [done|]. by split.
Defined.

(** * Boundaries *)

(** The sample row with another string. *)
Definition sample_moved : sample_row_type := (300, ([104], (-3, tt))).

(** [put] over a row whose indexed field changes leaves the old entry, as its
    documentation says; a scan for the old value then answers the new row.  The
    documentation also says that this is what [purge] is for, but [purge] deletes
    the entries of the stored row only: the stale one stays, now without a
    document.  [save_with_prev_into] leaves none. *)
Theorem put_overwrite_leaves_stale :
  let c := (put Debug sample_saved sample_id sample_moved).1 in
  scan_exact c sample_index [104; 105] = Ok [(mkPrefixKey sample_id 8, Some sample_moved)] /\
  (purge (R := sample_row_type) Debug c sample_id).2 = Ok true /\
  scan_exact (purge (R := sample_row_type) Debug c sample_id).1 sample_index [104; 105] = Ok [(mkPrefixKey sample_id 8, None)] /\
  scan_exact (commit_built Debug sample_saved (save_with_prev_into (store sample_saved) sample_id sample_moved None)).1
    sample_index [104; 105] = Ok [].
Proof. repeat split; vm_compute; reflexivity. Qed.

(** Range scans at their boundaries.  A begin longer than an entry's segment
    drops the entry although it stands in the range, or panics when it is longer
    than the whole entry; a scan without an end does not stop at the access
    method's slot: here it answers the row a second time, decoded from the entry
    of another face. *)
Theorem scan_range_boundaries :
  scan_range sample_saved sample_index [104; 104] (Some [106]) = Ok [(mkPrefixKey sample_id 8, Some sample_row)] /\
  [104; 104; 97] ≺ [104; 105] /\
  scan_range sample_saved sample_index [104; 104; 97] (Some [106]) = Ok [] /\
  scan_range sample_saved sample_index ([104; 104] ++ replicate 9 97) (Some [106]) = Panic /\
  scan_range sample_saved sample_index [104] None
    = Ok [(mkPrefixKey sample_id 8, Some sample_row); (mkPrefixKey sample_id 8, Some sample_row)] /\
  scan_range sample_saved sample_index [120] None = Ok [(mkPrefixKey sample_id 8, Some sample_row)].
Proof. repeat split; vm_compute; reflexivity. Qed.
