(* ===== verification/Rebuild.v ===== *)
(** * Rebuilding the faces of a table (okm-core, [model/document.rs],
    [rebuild_faces])

    The faces are derived structure: whatever stands under the declared slots,
    the rows decide what should.  [rebuild_faces] sweeps the faces and derives
    them again in chunks; the theorem says that it establishes the table of
    [Table] from the rows alone, for every chunk size, and stamps it. *)
From S2P Require Import Prelude Errors Storage Slots Vocab DynValue Segment Fields Payload Keys Index Meta Reduces Collection Declared Table.

Section Rebuild.
Context {K R : Type} `{HK : KeyEncode K} `{HL : !KeyLaws K} `{HD : !Document K R} `{HDL : !DocumentLaws K R}.
Context {S : Type} `{ReliableStorage S}.

Implicit Types (k : K) (r : R) (kb : bytes) (M : gmap bytes (K * R)).
Abbreviation h := (header (K := K) (R := R)).
Abbreviation Rb := (Rebuild (S := S)).

(** ** The loop's state *)

(** The contents once the pending batch has been committed. *)
Definition ahead (s : Rb) : gmap bytes bytes := apply_batch (contents (rb_store s)) (ops (rb_batch s)).

Definition only_deletes (s : Rb) : Prop := Forall (λ op, op.2 = None) (ops (rb_batch s)).

(** What committing early does not change. *)
Record step (s s' : Rb) : Prop := {
  st_ahead : ahead s' = ahead s;
  st_docs : documents (rb_report s') = documents (rb_report s);
  st_dels : only_deletes s -> only_deletes s' /\
    forall key, is_Some (contents (rb_store s') !! key) -> is_Some (contents (rb_store s) !! key)
}.

Lemma step_refl s : step s s.
Proof. by split. Qed.

Lemma runs_rb_commit (s : Rb) (Q : unit -> Rb -> Prop) :
  (forall s', step s s' -> ops (rb_batch s') = [] -> Q tt s') -> runs rb_commit s Q.
Proof.
  intros HQ. destruct (commit_batch_spec (rb_store s) (rb_batch s)) as (st & E & Ec).
  eexists _, tt. unfold rb_commit. rewrite E. split; [done|]. apply HQ; [|done]. split; cbn.
  - unfold ahead. cbn. by rewrite Ec.
  - done.
  - intros D. split; [constructor|]. intros key. rewrite Ec. by apply only_deletes_shrink.
Qed.

Lemma runs_rb_full chunk (s : Rb) (Q : unit -> Rb -> Prop) : (forall s', step s s' -> Q tt s') -> runs (rb_full chunk) s Q.
Proof.
  intros HQ. unfold rb_full. destruct (chunk <=? zlen (ops (rb_batch s))) eqn:E.
  - destruct (runs_rb_commit s Q) as (s' & a & Ec & P); [auto|]. exists s', a. by rewrite E.
  - exists s, tt. rewrite E. split; [done|]. apply HQ, step_refl.
Qed.

Lemma runs_rb_flush (s : Rb) (Q : unit -> Rb -> Prop) :
  (forall s', step s s' -> ops (rb_batch s') = [] -> Q tt s') -> runs rb_flush s Q.
Proof.
  intros HQ. unfold rb_flush. destruct (ops (rb_batch s)) eqn:E.
  - exists s, tt. rewrite E. split; [done|]. apply HQ; [apply step_refl|done].
  - destruct (runs_rb_commit s Q HQ) as (s' & a & Ec & P). exists s', a. by rewrite E.
Qed.

Lemma runs_rb_stage f g (s : Rb) (Q : unit -> Rb -> Prop) :
  Q tt (mkRebuild (rb_store s) (f (rb_batch s)) (g (rb_report s))) -> runs (rb_stage f g) s Q.
Proof. intros HQ. by eexists _, tt. Qed.

(** ** The sweep *)

(** [s'] is [s] with the keys that [P] accepts gone. *)
Record swept (P : bytes -> Prop) (s s' : Rb) : Prop := {
  sw_gone key : P key -> ahead s' !! key = None;
  sw_kept key : ~ P key -> ahead s' !! key = ahead s !! key;
  sw_docs : documents (rb_report s') = documents (rb_report s);
  sw_dels : only_deletes s';
  sw_shrink key : is_Some (contents (rb_store s') !! key) -> is_Some (contents (rb_store s) !! key)
}.

Lemma ahead_del (s : Rb) key g : ahead (mkRebuild (rb_store s) (Batch_del (rb_batch s) key) g) = delete key (ahead s).
Proof. unfold ahead. apply (apply_batch_snoc _ _ (key, None)). Qed.

Lemma ahead_shrink (s : Rb) key : only_deletes s -> is_Some (ahead s !! key) -> is_Some (contents (rb_store s) !! key).
Proof. apply only_deletes_shrink. Qed.

Lemma runs_sweep_items chunk (l : list (bytes * bytes)) : forall (s : Rb) (Q : unit -> Rb -> Prop),
  only_deletes s -> (forall s', swept (λ key, key ∈ map fst l) s s' -> Q tt s') ->
  runs (sweep_items chunk (map Ok l)) s Q.
Proof.
  induction l as [|[key v] l IH]; intros s Q D HQ; simpl.
  - apply runs_ret, HQ. split; try done. intros key Hin. by apply elem_of_nil in Hin.
  - apply runs_bind. eapply runs_reading; [done|]. apply runs_bind, runs_rb_stage. cbn [fst].
    set (s1 := mkRebuild _ _ _). assert (only_deletes s1) as D1 by (apply Forall_app; split; [done|by apply Forall_singleton]).
    assert (ahead s1 = delete key (ahead s)) as A1 by apply ahead_del.
    apply runs_bind, runs_rb_full. intros s2 [A2 R2 D2]. specialize (D2 D1) as [D2 C2].
    apply (IH s2); [done|]. intros s3 [G3 K3 R3 D3 C3]. apply HQ. split; [..|done|by intros k' ?%C3%C2].
    + intros key' Hin. destruct (decide (key' ∈ map fst l)) as [?|N]; [by apply G3|]. rewrite K3 by done.
      apply elem_of_cons in Hin as [->|?]; [|done]. rewrite A2, A1. apply lookup_delete_eq.
    + intros key' [N ?]%not_elem_of_cons. rewrite K3, A2, A1 by done. by apply lookup_delete_ne.
    + by rewrite R3, R2.
Qed.

(** The keys behind a prefix. *)
Definition under (prefix key : bytes) : Prop := exists t, key = prefix ++ t.

#[local] Instance under_dec prefix key : Decision (under prefix key).
Proof. destruct (decide (take (length prefix) key = prefix)) as [E|E]; [left|right]; unfold under; by rewrite <- take_prefix. Defined.

Definition face_prefix (d : IndexDecl) : bytes := h ++ slot_bytes (d_slot d).

(** A scan of a prefix meets exactly the keys that carry it. *)
Lemma prefix_pairs (s : S) prefix key v : bytes_ok prefix -> long_keys (contents s) prefix ->
  (key, v) ∈ range_pairs (contents s) prefix (prefix_end prefix) <-> contents s !! key = Some v /\ under prefix key.
Proof.
  intros Hp L. unfold range_pairs. rewrite list_elem_of_omap. split.
  - intros (k' & Hin & E). destruct (contents s !! k') as [w|] eqn:Ew; [|done]. injection E as -> ->. split; [done|].
    unfold range_keys in Hin. apply list_elem_of_filter in Hin as [Hr _].
    apply (long_keys_range (contents s) prefix key); [done..|by eexists|done].
  - intros [E U]. exists key. rewrite E. split; [|done]. unfold range_keys. rewrite list_elem_of_filter, elem_of_sorted_keys.
    split; [|by eexists]. apply (long_keys_range (contents s) prefix key); [done..|by eexists|done].
Qed.

Lemma long_keys_shrink (c c' : gmap bytes bytes) prefix :
  (forall key, is_Some (c' !! key) -> is_Some (c !! key)) -> long_keys c prefix -> long_keys c' prefix.
Proof. intros F L key Hk. by apply L, F. Qed.

Lemma runs_sweep_faces chunk decls : forall (s : Rb) (Q : unit -> Rb -> Prop),
  only_deletes s -> Forall (λ d, slot_ok (d_slot d) /\ bytes_ok (face_prefix d) /\ long_keys (contents (rb_store s)) (face_prefix d)) decls ->
  (forall s', swept (λ key, exists d, d ∈ decls /\ under (face_prefix d) key) s s' -> Q tt s') ->
  runs (sweep_faces (K := K) (R := R) chunk decls) s Q.
Proof.
  induction decls as [|d decls IH]; intros s Q D F HQ; simpl.
  - apply runs_ret, HQ. split; try done. by intros key (d & Hd%elem_of_nil & _).
  - apply Forall_cons in F as [(Hs & Hb & L) F]. apply runs_bind. eapply runs_reading; [by rewrite write_slot_ok|].
    fold (face_prefix d). apply runs_bind. eapply runs_reading; [by rewrite scan_range_iter_spec|].
    apply runs_bind. apply runs_sweep_items; [done|]. intros s1 [G1 K1 R1 D1 C1]. apply runs_bind, runs_rb_stage.
    apply (IH (mkRebuild (rb_store s1) (rb_batch s1) (count_swept (rb_report s1)))); [done|..].
    { eapply Forall_impl; [exact F|]. intros d' (? & ? & L'). do 2 (split; [done|]). by eapply long_keys_shrink. }
    intros s2 [G2 K2 R2 D2 C2]. apply HQ.
    assert (forall key, under (face_prefix d) key -> ahead s1 !! key = None) as Gone.
    { intros key U. destruct (ahead s !! key) as [v|] eqn:E.
      - assert (is_Some (ahead s !! key)) as X by by eexists. apply (ahead_shrink s key D) in X as [w Ew].
        apply G1, list_elem_of_fmap. exists (key, w). split; [done|]. by apply prefix_pairs.
      - destruct (decide (key ∈ map fst (range_pairs (contents (rb_store s)) (face_prefix d) (prefix_end (face_prefix d))))) as [?|N];
          [by apply G1|]. by rewrite K1. }
    assert (forall key, ~ under (face_prefix d) key -> ahead s1 !! key = ahead s !! key) as Kept.
    { intros key N. apply K1. intros ([k' w] & Ek & Hin)%list_elem_of_fmap. simpl in Ek. subst k'. by apply prefix_pairs in Hin as [_ ?]. }
    split; [..|done|by intros key ?%C2%C1].
    + intros key (d' & [->|Hd]%elem_of_cons & U); [|by apply G2; exists d'].
      destruct (decide (Exists (λ d', under (face_prefix d') key) decls)) as [X|X].
      * apply Exists_exists in X as (d' & Hd & U'). apply G2. by exists d'.
      * rewrite K2 by (intros (d' & Hd & U'); apply X, Exists_exists; by exists d'). by apply Gone.
    + intros key N. rewrite K2 by (intros (d' & Hd & U); apply N; exists d'; split; [by right|done]).
      apply Kept. intros U. apply N. exists d. split; [by left|done].
    + by rewrite R2.
Qed.

(** ** Deriving the faces *)

(** The faces are those of the rows under [kbs]. *)
Definition derived M (kbs : list bytes) (c : gmap bytes bytes) : Prop :=
  forall key v, face_key (K := K) (R := R) key ->
  (c !! key = Some v <-> exists kb kr, kb ∈ kbs /\ M !! kb = Some kr /\ face_of kr key = Some v).

Definition row_pair M (kv : bytes * bytes) (kb : bytes) : Prop :=
  exists k r, M !! kb = Some (k, r) /\ kv = (pkey (K := K) (R := R) kb, payload_b (K := K) r).

Lemma derive_row kb k r : row_fits kb (k, r) -> exists es, index_entries k r h = Ok es /\
  derive_entries (K := K) (R := R) (zlen (h ++ slot_bytes PRIMARY_SLOT)) (pkey (K := K) (R := R) kb) (payload_b (K := K) r) = Ok es.
Proof.
  intros (Hk & Ek & Hr). simpl in Hk, Ek, Hr. destruct (doc_entries k r h Hk Hr) as (es & Ee & _). exists es. split; [done|].
  destruct Hk as [Hk Nk]. destruct (key_encodes k Hk) as (b & Eb & L & D). rewrite Ek in Eb. injection Eb as <-.
  specialize (D []). rewrite app_nil_r, Nk in D.
  unfold derive_entries, pkey. rewrite app_assoc, cut_from_app by (pose proof (zlen_nonneg (h ++ slot_bytes PRIMARY_SLOT)); lia).
  rewrite drop_ge by (unfold zlen; lia). cbn [mbind outcome_bind app]. rewrite L, Z.ltb_irrefl, Z.sub_diag.
  pose proof (cut_from_app (E := Error) [] kb 0 ltac:(done)) as C. change (cut_from (E := Error) kb 0 = Ok kb) in C. rewrite C.
  cbn [mbind outcome_bind]. rewrite D. cbn [liftp mbind outcome_bind].
  destruct (needs_payload (K := K) (R := R)) eqn:N.
  - destruct (decode_payload_b r Hr) as [_ Dp]. rewrite Dp. cbn [liftp mbind outcome_bind]. by rewrite Ee.
  - destruct (doc_key_entries (R := R) k h) as (ks & Eks & Same); [by split|]. rewrite (Same N r Hr) in Ee. injection Ee as <-. by rewrite Eks.
Qed.

Lemma ahead_puts (s : Rb) es g :
  ahead (mkRebuild (rb_store s) (fold_left (λ b e, Batch_put b e.1 e.2) es (rb_batch s)) g) = overlay (ahead s) es.
Proof.
  unfold ahead. cbn [rb_store rb_batch]. generalize (contents (rb_store s)). intros c. generalize (rb_batch s). clear g.
  induction es as [|[key v] es IH]; intros b; [done|]. cbn [fold_left]. rewrite IH. unfold overlay. cbn [fold_left fst snd].
  f_equal. apply (apply_batch_snoc _ _ (key, Some v)).
Qed.

(** One more row. *)
Lemma derived_row M kbs c kb k r es :
  (forall kb kr, M !! kb = Some kr -> row_fits kb kr) -> derived M kbs c -> kb ∉ kbs -> M !! kb = Some (k, r) -> index_entries k r h = Ok es ->
  derived M (kbs ++ [kb]) (overlay c es) /\ forall key, ~ face_key (K := K) (R := R) key -> overlay c es !! key = c !! key.
Proof.
  intros Fit Dv N EM Ee. pose proof (Fit _ _ EM) as Hf. destruct (row_entries kb (k, r) Hf) as (es' & Ee' & P). cbn [fst snd] in Ee'.
  rewrite Ee in Ee'. injection Ee' as <-. pose proof (face_of_entries (k, r) es) as FE. specialize (λ key, FE key Ee) as FE. split.
  - intros key v Hface. rewrite lookup_overlay. destruct (newest es key) as [w|] eqn:Nw.
    + split.
      * intros [= <-]. exists kb, (k, r). rewrite FE. split; [apply elem_of_app; right; by left|done].
      * intros (kb' & kr & [Hin|Hin]%elem_of_app & EM' & Ef).
        -- exfalso. apply N. pose proof (Fit _ _ EM') as Hf'. destruct (row_entries kb' kr Hf') as (es' & Ee' & _).
           rewrite (face_of_entries kr es' key Ee') in Ef. apply newest_Some in Ef, Nw.
           assert (kb = kb') as ->; [|done]. eapply (entry_owner kb (k, r) kb' kr); [done..| |].
           ++ apply list_elem_of_fmap. by exists (key, w).
           ++ apply list_elem_of_fmap. by exists (key, v).
        -- apply list_elem_of_singleton in Hin as ->. rewrite EM in EM'. injection EM' as <-. rewrite FE in Ef. congruence.
    + rewrite (Dv key v Hface). split.
      * intros (kb' & kr & Hin & X). exists kb', kr. split; [apply elem_of_app; by left|done].
      * intros (kb' & kr & [Hin|Hin]%elem_of_app & EM' & Ef); [by exists kb', kr|].
        apply list_elem_of_singleton in Hin as ->. rewrite EM in EM'. injection EM' as <-. rewrite FE in Ef. congruence.
  - intros key Nf. rewrite lookup_overlay. destruct (newest es key) as [w|] eqn:Nw; [|done]. exfalso. apply Nf.
    apply P, list_elem_of_fmap. exists (key, w). split; [done|]. by apply newest_Some.
Qed.

Lemma runs_derive_items chunk M pairs kbs : Forall2 (row_pair M) pairs kbs ->
  (forall kb kr, M !! kb = Some kr -> row_fits kb kr) ->
  forall (s : Rb) before (Q : unit -> Rb -> Prop), NoDup (before ++ kbs) -> derived M before (ahead s) ->
  (forall s', derived M (before ++ kbs) (ahead s') ->
     (forall key, ~ face_key (K := K) (R := R) key -> ahead s' !! key = ahead s !! key) ->
     documents (rb_report s') = documents (rb_report s) + zlen kbs -> Q tt s') ->
  runs (derive_items (K := K) (R := R) chunk (zlen (h ++ slot_bytes PRIMARY_SLOT)) (map Ok pairs)) s Q.
Proof.
  intros F Fit. induction F as [|kv kb pairs kbs Hrow F IH]; intros s before Q ND Dv HQ; simpl.
  - apply runs_ret, HQ; rewrite ?app_nil_r; [done|done|zlia].
  - destruct Hrow as (k & r & EM & ->). destruct (derive_row kb k r (Fit _ _ EM)) as (es & Ee & Ed).
    apply runs_bind. eapply runs_reading; [done|]. apply runs_bind. eapply runs_reading; [exact Ed|].
    apply runs_bind, runs_rb_stage. set (s1 := mkRebuild _ _ _).
    assert (ahead s1 = overlay (ahead s) es) as A1 by apply ahead_puts.
    apply runs_bind, runs_rb_full. intros s2 [A2 R2 _].
    assert (kb ∉ before) as N. { apply NoDup_app in ND as (_ & X & _). intros Hin. apply (X kb Hin). by left. }
    destruct (derived_row M before (ahead s) kb k r es Fit Dv N EM Ee) as [Dv1 K1].
    apply (IH s2 (before ++ [kb])).
    + by rewrite <- app_assoc.
    + by rewrite A2, A1.
    + intros s3 Dv3 K3 R3. rewrite <- app_assoc in Dv3. apply HQ; [done|..].
      * intros key Nf. rewrite K3, A2, A1 by done. by apply K1.
      * rewrite R3, R2. cbn. zlia.
Qed.

(** ** The whole verb *)

(** Rows and accumulators, whatever stands under the faces. *)
Record rows_at (c : gmap bytes bytes) M : Prop := {
  ra_rows kb kr : M !! kb = Some kr -> row_fits kb kr;
  ra_primary kb : c !! pkey (K := K) (R := R) kb = (λ kr, payload_b (K := K) kr.2) <$> M !! kb;
  ra_reduces : tracked c h (rows_of M) (doc_reds (K := K) (R := R))
}.

(** The prefixes the verb scans. *)
Definition scanned : list bytes := map (λ s, h ++ slot_bytes s) (PRIMARY_SLOT :: live_faces K R).

Definition live_decls : list IndexDecl := List.filter (λ d, negb (d_deprecated d)) (INDEX_DECLS (K := K) (R := R)).

Lemma live_under key : (exists d, d ∈ live_decls /\ under (face_prefix d) key) <-> face_key (K := K) (R := R) key.
Proof.
  unfold face_key, live_faces. fold live_decls. split.
  - intros (d & Hd & t & ->). exists (d_slot d), t. split; [apply list_elem_of_fmap; by exists d|]. unfold face_prefix. by rewrite app_assoc.
  - intros (s & t & (d & -> & Hd)%list_elem_of_fmap & ->). exists d. split; [done|]. exists t. unfold face_prefix. by rewrite app_assoc.
Qed.

(** The rows of a store, as a scan of the primary slot meets them. *)
Lemma primary_pairs (s : S) M :
  (forall kb, contents s !! pkey (K := K) (R := R) kb = (λ kr, payload_b (K := K) kr.2) <$> M !! kb) ->
  bytes_ok (h ++ slot_bytes PRIMARY_SLOT) -> long_keys (contents s) (h ++ slot_bytes PRIMARY_SLOT) ->
  exists kbs, Forall2 (row_pair M) (range_pairs (contents s) (h ++ slot_bytes PRIMARY_SLOT) (prefix_end (h ++ slot_bytes PRIMARY_SLOT))) kbs /\
  NoDup kbs /\ forall kb, kb ∈ kbs <-> is_Some (M !! kb).
Proof.
  intros Prim Hb L. set (P := h ++ slot_bytes PRIMARY_SLOT) in *. set (pairs := range_pairs _ _ _).
  assert (forall kb, pkey (K := K) (R := R) kb = P ++ kb) as Ep by (intros kb; unfold pkey, P; by rewrite app_assoc).
  assert (Forall (λ kv, exists kb, row_pair M kv kb) pairs) as F.
  { apply Forall_forall. intros [key v] Hin. unfold pairs in Hin. apply prefix_pairs in Hin as [E [t ->]]; [|done..].
    exists t. pose proof (Prim t) as Et. rewrite Ep, E in Et. destruct (M !! t) as [[k r]|] eqn:EM; [|done]. injection Et as ->.
    exists k, r. by rewrite Ep. }
  apply Forall_exists_Forall2_l in F as [kbs F]. exists kbs. split; [done|].
  assert (map (P ++.) kbs = map fst pairs) as Ek.
  { clear -F Ep. induction F as [|kv kb pairs kbs (k & r & _ & ->) F IH]; [done|]. simpl. by rewrite IH, Ep. }
  split.
  - apply (NoDup_fmap_1 (P ++.)). unfold fmap. change (list_fmap bytes bytes (P ++.) kbs) with (map (P ++.) kbs). rewrite Ek.
    unfold pairs. rewrite range_pairs_fst. apply range_keys_NoDup.
  - intros kb. split.
    + intros Hin. destruct (proj1 (list_elem_of_lookup _ _) Hin) as [i Ei].
      destruct (Forall2_lookup_r _ _ _ _ _ F Ei) as (kv & _ & k & r & EM & _). by eexists.
    + intros [[k r] EM]. assert (P ++ kb ∈ map (P ++.) kbs) as Hin.
      { rewrite Ek. apply list_elem_of_fmap. exists (P ++ kb, payload_b (K := K) r). split; [done|]. unfold pairs.
        apply prefix_pairs; [done..|]. split; [|by exists kb]. rewrite <- Ep, Prim, EM. done. }
      apply list_elem_of_fmap in Hin as (kb' & E & Hin). apply app_inv_head in E as ->. done.
Qed.

(** A table whose faces were tampered with still has its rows. *)
Lemma rows_of_tampered c c' M :
  table_at c M -> (forall key, ~ face_key (K := K) (R := R) key -> c' !! key = c !! key) -> rows_at c' M.
Proof.
  intros [Fit Prim _ Red] F. split; [done|..].
  - intros kb. rewrite F by apply pkey_not_face. apply Prim.
  - eapply tracked_outside; [|exact Red]. intros key Hred. apply F. intros Hface. by apply red_not_face in Hface.
Qed.

(** The address of the stamp is no row, entry or accumulator. *)
Lemma mkey_apart : (forall kb, mkey h <> pkey (K := K) (R := R) kb) /\ ~ face_key (K := K) (R := R) (mkey h) /\
  ~ red_keys h (doc_reds (K := K) (R := R)) (mkey h).
Proof.
  assert (slot_ok META_SLOT) as Ms by (left; unfold META_SLOT; lia). unfold mkey, pkey.
  rewrite <- (app_nil_r (slot_bytes META_SLOT)). split; [|split].
  - intros kb E. apply app_inv_head, slot_bytes_prefix_free in E; [done|done|apply PRIMARY_ok].
  - intros (s & t & Hs & E). apply live_slot in Hs as [Ho Hc]. apply app_inv_head, slot_bytes_prefix_free in E; [|done|done].
    subst s. by unfold META_SLOT in Hc.
  - intros (lr & g & Hin & E). apply red_slot_ok in Hin as (Ho & Hc & _). unfold acc_key in E.
    apply app_inv_head, slot_bytes_prefix_free in E; [|done|done]. rewrite <- E in Hc. by unfold META_SLOT in Hc.
Qed.

(** Stamping the faces leaves the table alone. *)
Lemma stamp_faces_spec p (s : S) M version m0 :
  table_at (contents s) M -> meta_at p (contents s) h m0 -> meta_fits (meta_set (default (stamped version) m0) FACES (faces_of K R)) ->
  exists s', stamp_faces p s h version (faces_of K R) = (s', Ok (meta_set (default (stamped version) m0) FACES (faces_of K R))) /\
  table_at (contents s') M /\ meta_read p s' h = Ok (Some (meta_set (default (stamped version) m0) FACES (faces_of K R))).
Proof.
  intros T A Fit. destruct (meta_store_spec p s h _ Fit) as (s' & E & A' & O). exists s'. split; [|split; [|by apply meta_read_spec]].
  - unfold stamp_faces. rewrite meta_key_ok. cbn [mbind outcome_bind]. rewrite get_spec. cbn [mbind outcome_bind].
    unfold meta_at in A. destruct (contents s !! mkey h) as [b|]; [|by subst m0]. destruct A as (m' & -> & D).
    rewrite D. cbn [liftp mbind outcome_bind]. exact E.
  - apply (table_at_frame (contents s)); [|done]. intros key Hkey. apply O. intros ->.
    destruct mkey_apart as (A1 & A2 & A3). destruct Hkey as [[kb X]|[X|X]]; [by apply (A1 kb)|done|done].
Qed.

Lemma runs_rebuild chunk (s : Rb) M :
  rows_at (contents (rb_store s)) M -> ops (rb_batch s) = [] ->
  Forall (λ prefix, bytes_ok prefix /\ long_keys (contents (rb_store s)) prefix) scanned ->
  runs (rebuild_body (K := K) (R := R) chunk) s (λ _ s', table_at (contents (rb_store s')) M /\
    contents (rb_store s') !! mkey h = contents (rb_store s) !! mkey h /\
    documents (rb_report s') = documents (rb_report s) + Z.of_nat (size M)).
Proof.
  intros [Fit Prim Red] E0 [[Hb0 L0] F]%Forall_cons. unfold rebuild_body. fold live_decls.
  assert (ahead s = contents (rb_store s)) as A0 by (unfold ahead; by rewrite E0).
  apply runs_bind, runs_sweep_faces; [unfold only_deletes; by rewrite E0| |].
  { apply Forall_forall. intros d Hd. assert (d_slot d ∈ live_faces K R) as Hs by (apply list_elem_of_fmap; by exists d).
    split; [by apply live_slot|]. rewrite Forall_forall in F. apply F, list_elem_of_fmap. by exists (d_slot d). }
  intros s1 [G1 K1 R1 D1 C1]. apply runs_bind, runs_rb_flush. intros s2 [A2 R2 D2] E2. destruct (D2 D1) as [_ C2].
  assert (ahead s2 = contents (rb_store s2)) as A2' by (unfold ahead; by rewrite E2).
  assert (forall key, ~ face_key (K := K) (R := R) key -> contents (rb_store s2) !! key = contents (rb_store s) !! key) as Keep.
  { intros key N. rewrite <- A2', A2, K1 by by rewrite live_under. by rewrite A0. }
  apply runs_bind. eapply runs_reading; [by rewrite write_slot_ok by apply PRIMARY_ok|].
  apply runs_bind. eapply runs_reading; [by rewrite scan_range_iter_spec|].
  destruct (primary_pairs (rb_store s2) M) as (kbs & Fp & ND & Hkbs);
    [intros kb; rewrite Keep by apply pkey_not_face; apply Prim|done|by eapply long_keys_shrink; [|exact L0]; intros key ?%C2%C1|].
  apply runs_bind. eapply (runs_derive_items chunk M _ kbs Fp Fit s2 []); [done| |].
  { intros key v Hface. rewrite A2, G1 by by apply live_under. split; [done|]. by intros (kb & kr & ?%elem_of_nil & _). }
  intros s3 Dv3 K3 R3. apply runs_rb_flush. intros s4 [A4 R4 _] E4.
  assert (ahead s4 = contents (rb_store s4)) as A4' by (unfold ahead; by rewrite E4).
  assert (forall key, ~ face_key (K := K) (R := R) key -> contents (rb_store s4) !! key = contents (rb_store s) !! key) as Keep4.
  { intros key N. rewrite <- A4', A4, K3, A2' by done. by apply Keep. }
  split; [split|split].
  - done.
  - intros kb. rewrite Keep4 by apply pkey_not_face. apply Prim.
  - intros key v Hface. rewrite <- A4', A4, (Dv3 key v Hface). split.
    + intros (kb & kr & _ & X). by exists kb, kr.
    + intros (kb & kr & EM & X). exists kb, kr. split; [apply Hkbs; by eexists|done].
  - eapply tracked_outside; [|exact Red]. intros key Hred. apply Keep4. intros Hface. by apply red_not_face in Hface.
  - apply Keep4, mkey_apart.
  - rewrite R4, R3, R2, R1. do 2 f_equal. unfold zlen. f_equal. rewrite <- length_map_to_list, <- (length_fmap fst).
    apply Permutation_length, NoDup_Permutation; [done|apply NoDup_fst_map_to_list|]. intros kb. rewrite Hkbs, list_elem_of_fmap. split.
    + intros [kr EM]. exists (kb, kr). split; [done|]. by apply elem_of_map_to_list.
    + intros ([kb' kr] & -> & Hin%elem_of_map_to_list). by eexists.
Qed.

(** C5: a rebuild restores the table from its rows.  Whatever stands under the
    declared faces (stale entries, missing ones, entries of another declaration),
    and whatever the chunk size, [rebuild_faces] succeeds: afterwards the
    store represents the table of its rows again, every row was visited once, and
    the stamp matches the declaration, so [faces_status] answers [Match]. *)
Theorem rebuild_faces_refines p (c : Collection S) M chunk m0 :
  rows_at (contents (store c)) M ->
  Forall (λ prefix, bytes_ok prefix /\ long_keys (contents (store c)) prefix) scanned ->
  meta_at p (contents (store c)) h m0 ->
  meta_fits (meta_set (default (stamped (LAYOUT_VERSION (K := K) (R := R))) m0) FACES (faces_of K R)) ->
  exists s' report, rebuild_faces (K := K) (R := R) p c chunk = (mkCollection s' (epoch c), Ok report) /\
  table_at (contents s') M /\ documents report = Z.of_nat (size M) /\
  faces_status (K := K) (R := R) p (mkCollection s' (epoch c)) = Ok Match.
Proof.
  intros Rows Long A Fit. unfold rebuild_faces.
  destruct (runs_rebuild (chunk `max` 1) (mkRebuild (store c) Batch_default (mkReport 0 0 0 0 0)) M Rows eq_refl Long)
    as (s1 & [] & E & T & Em & Ed). rewrite E.
  destruct (stamp_faces_spec p (rb_store s1) M (LAYOUT_VERSION (K := K) (R := R)) m0 T) as (s' & Es & T' & Er); [|done|].
  { unfold meta_at. cbn in Em. rewrite Em. exact A. }
  exists s', (rb_report s1). unfold on_store. rewrite Es. split; [done|]. split; [done|]. split; [by rewrite Ed|].
  unfold faces_status. cbn [store]. rewrite Er. cbn [mbind outcome_bind]. unfold face_status, meta_faces, meta_set.
  rewrite lookup_insert_eq. cbn [mbind option_bind]. unfold faces_of. rewrite fingerprint_len, Z.eqb_refl. by rewrite bool_decide_true.
Qed.
End Rebuild.

(** * Witness

    The sample collection, its index entry lost and another in its place. *)
Definition sample_lost : bytes := [0; 33; 48; 1; 104; 105] ++ sample_kb.
Definition sample_stray : bytes := [0; 33; 48; 1; 122] ++ sample_kb.
Definition sample_tampered : MemStore :=
  <[ sample_stray := [] ]> (delete sample_lost (contents (store sample_saved))).

Lemma rebuild_faces_refines_witness :
  scan_exact (mkCollection sample_tampered 1) sample_index [122] = Ok [(mkPrefixKey sample_id 8, Some sample_row)] /\
  exists s' report, rebuild_faces (K := krow sample_key) (R := sample_row_type) Debug (mkCollection sample_tampered 1) 1
    = (mkCollection s' 1, Ok report) /\
  table_at (K := krow sample_key) (R := sample_row_type) (contents s') {[ sample_kb := (sample_id, sample_row) ]} /\
  documents report = 1.
Proof.
  split; [by vm_compute|].
  destruct (rebuild_faces_refines (R := sample_row_type) Debug (mkCollection sample_tampered 1) {[ sample_kb := (sample_id, sample_row) ]} 1 None)
    as (s' & report & E & T & D & _).
  - apply (rows_of_tampered (contents (store sample_saved)) _ _ sample_saved_at). intros key N.
    change (contents (store (mkCollection sample_tampered 1))) with
      (<[ sample_stray := [] ]> (delete sample_lost (contents (store sample_saved))) : gmap bytes bytes).
    assert (forall t, face_key (K := krow sample_key) (R := sample_row_type) ([0; 33] ++ slot_bytes 0x3001 ++ t)) as Face.
    { intros t. exists 0x3001, t. split; [by left|done]. }
    rewrite lookup_insert_ne, lookup_delete_ne; [done|..]; intros <-; apply N.
    + apply (Face ([104; 105] ++ sample_kb)).
    + apply (Face ([122] ++ sample_kb)).
  - repeat (apply Forall_cons; split; [split; [apply (bool_decide_unpack _); by vm_compute|apply long_keys_check; by vm_compute]|]). done.
  - done.
  - apply (bool_decide_unpack _). by vm_compute.
  - exists s', report. do 2 (split; [assumption|]). rewrite D. by rewrite map_size_singleton.
Defined.
