(* ===== verification/Documents.v ===== *)
(** * Documents of a collection (okm-core, [model/document.rs])

    A document is the pair of its slots: a row under the primary slot, a dynamic
    segment under the dynamic one, or both.  The theorems: the two-pointer merge
    behind [scan_documents_raw] and [scan_document_keys] enumerates the union,
    each document once and in key order; [prune_deprecated_slots] removes the
    entries of the deprecated faces and nothing else. *)
From S2P Require Import Prelude Errors Storage Slots Segment Fields Payload Keys Index Meta Reduces Collection Declared Table.

(** ** The merge *)

Lemma Forall_lt_trans x y l : x ≺ y -> Forall (bytes_lt y) l -> Forall (bytes_lt x) l.
Proof. intros Hxy F. eapply Forall_impl; [exact F|]. intros z. by apply bytes_lt_trans. Qed.

(** Rows and segments united: each key once, a row where there is one. *)
Lemma merge_slots_spec {V} fuel : forall (rows : list (bytes * V)) segs,
  (length rows + length segs <= fuel)%nat -> StronglySorted bytes_lt (map fst rows) -> StronglySorted bytes_lt segs ->
  StronglySorted bytes_lt (map fst (merge_slots fuel rows segs)) /\
  forall k d, (k, d) ∈ merge_slots fuel rows segs <->
    match d with Some v => (k, v) ∈ rows | None => k ∈ segs /\ k ∉ map fst rows end.
Proof.
  induction fuel as [|fuel IH]; intros rows segs Hf Sr Ss.
  { destruct rows, segs; simpl in Hf; try lia. split; [constructor|]. intros k [v|]; simpl; rewrite ?elem_of_nil; tauto. }
  assert (forall (rows' : list (bytes * V)) segs' x, (length rows' + length segs' <= fuel)%nat -> StronglySorted bytes_lt (map fst rows') ->
    StronglySorted bytes_lt segs' -> Forall (bytes_lt x) (map fst rows') -> Forall (bytes_lt x) segs' ->
    StronglySorted bytes_lt (x :: map fst (merge_slots fuel rows' segs'))) as Cons.
  { intros rows' segs' x Hf' Sr' Ss' Fr Fs. destruct (IH rows' segs' Hf' Sr' Ss') as [S M]. constructor; [done|].
    apply Forall_forall. intros y ([k d] & -> & Hin)%list_elem_of_fmap. apply M in Hin. rewrite Forall_forall in Fr, Fs.
    destruct d as [v|]; [apply Fr, list_elem_of_fmap; by exists (k, v)|apply Fs, Hin]. }
  destruct rows as [|[r v] rows], segs as [|s segs]; cbn [map fst] in *.
  - split; [constructor|]. intros k [v|]; simpl; rewrite ?elem_of_nil; tauto.
  - cbn [merge_slots]. apply StronglySorted_inv in Ss as [Ss Fs]. destruct (IH [] segs) as [S M]; [simpl in *; lia|constructor|done|].
    split; [apply (Cons [] segs); [simpl in *; lia|constructor|done|constructor|done]|].
    intros k [w|]; rewrite elem_of_cons, M; simpl; rewrite ?elem_of_nil, ?elem_of_cons; naive_solver.
  - cbn [merge_slots]. apply StronglySorted_inv in Sr as [Sr Fr]. destruct (IH rows []) as [S M]; [simpl in *; lia|done|constructor|].
    split; [apply (Cons rows []); [simpl in *; lia|done|constructor|done|constructor]|].
    intros k [w|]; rewrite elem_of_cons, M; rewrite ?elem_of_nil, ?elem_of_cons; naive_solver.
  - cbn [merge_slots]. pose proof Sr as Sr0. pose proof Ss as Ss0. apply StronglySorted_inv in Sr as [Sr Fr], Ss as [Ss Fs].
    case_bool_decide as Hle.
    + assert (forall segs', segs' = segs \/ segs' = s :: segs -> (length rows + length segs' <= fuel)%nat) as Len
        by (intros segs' [->| ->]; simpl in *; lia).
      case_bool_decide as Heq.
      * subst s. destruct (IH rows segs) as [S M]; [auto..|]. split; [by apply (Cons rows segs); auto|].
        rewrite Forall_forall in Fs. intros k [w|]; rewrite elem_of_cons, M, ?elem_of_cons; [naive_solver|].
        split; [intros [?|[Hk N]]; [done|]|intros [[->|Hk] N]; [by destruct N; left|right; split; [done|]; intros X; apply N; by right]].
        split; [by right|]. intros [->|X]; [|done]. apply (bytes_lt_irrefl r), Fs, Hk.
      * assert (r ≺ s) as Hlt by (apply bytes_le_lteq in Hle as [?| ->]; [done|done]).
        destruct (IH rows (s :: segs)) as [S M]; [auto..|].
        assert (Forall (bytes_lt r) (s :: segs)) as Frs by (constructor; [done|by eapply Forall_lt_trans]).
        split; [by apply (Cons rows (s :: segs)); auto|].
        rewrite Forall_forall in Frs. intros k [w|]; rewrite elem_of_cons, M, ?elem_of_cons; [naive_solver|].
        split; [intros [?|[Hk N]]; [done|]|intros [Hk N]; right; split; [done|]; intros X; apply N; by right].
        split; [done|]. intros [->|X]; [|done]. apply (bytes_lt_irrefl r), Frs, elem_of_cons, Hk.
    + assert (s ≺ r) as Hlt by by apply bytes_lt_nle.
      destruct (IH ((r, v) :: rows) segs) as [S M]; [simpl in *; lia|done|done|].
      assert (Forall (bytes_lt s) (map fst ((r, v) :: rows))) as Fsr by (constructor; [done|by eapply Forall_lt_trans]).
      split; [apply (Cons ((r, v) :: rows) segs); [simpl in *; lia|done..]|].
      rewrite Forall_forall in Fsr. cbn [map fst] in *. intros k [w|]; rewrite elem_of_cons, M, !elem_of_cons; [naive_solver|].
      split; [intros [[= ->]|[Hk N]]; [split; [by left|]; intros X; apply (bytes_lt_irrefl s), Fsr; by apply elem_of_cons|split; [by right|done]]|].
      intros [[->|Hk] N]; [by left|right; by split].
Qed.

Lemma merge_rows_segs {V} (rows : gmap bytes V) (segs : gmap bytes bytes) p q :
  let l := carried_pairs rows p in let k := map fst (carried_pairs segs q) in
  StronglySorted bytes_lt (map fst (merge_slots (length l + length k) l k)) /\
  forall t d, (t, d) ∈ merge_slots (length l + length k) l k <->
    match d with Some v => rows !! (p ++ t) = Some v | None => is_Some (segs !! (q ++ t)) /\ rows !! (p ++ t) = None end.
Proof.
  cbv zeta. destruct (merge_slots_spec (length (carried_pairs rows p) + length (map fst (carried_pairs segs q)))
    (carried_pairs rows p) (map fst (carried_pairs segs q))) as [S M]; [done|apply carried_sorted..|].
  split; [done|]. intros t [v|]; rewrite M; [apply elem_of_carried_pairs|]. rewrite !elem_of_carried.
  by rewrite <- eq_None_not_Some.
Qed.

Section Documents.
Context {K R : Type} `{HK : KeyEncode K} `{HL : !KeyLaws K} `{HD : !Document K R}.
Context {S : Type} `{ReliableStorage S}.

Implicit Types (k : K) (kb : bytes).
Abbreviation h := (header (K := K) (R := R)).
Abbreviation row_key := (pkey (K := K) (R := R)).
Abbreviation seg_key := (skey (K := K) (R := R)).

(** A prefix a scan handles exactly. *)
Definition scannable (m : gmap bytes bytes) (prefix : bytes) : Prop := bytes_ok prefix /\ long_keys m prefix.

Lemma slot_prefix {E} s : slot_ok s -> write_slot (E := E) h s = Ok (h ++ slot_bytes s).
Proof. apply write_slot_ok. Qed.

(** C36: the raw scan of a collection enumerates its documents.  Every row stands
    in it once with its payload, every dynamic segment without a row once without
    one, nothing else does, and the keys are in strict byte order; the merge
    never runs out of steps. *)
Theorem scan_documents_exact (c : Collection S) :
  scannable (contents (store c)) (h ++ slot_bytes PRIMARY_SLOT) ->
  scannable (contents (store c)) (h ++ slot_bytes DYNAMIC_SLOT) ->
  exists out, scan_documents_raw (K := K) (R := R) c = Ok out /\ StronglySorted bytes_lt (map fst out) /\
  forall t d, (t, d) ∈ out <->
    match d with
    | Some v => contents (store c) !! row_key t = Some v
    | None => is_Some (contents (store c) !! seg_key t) /\ contents (store c) !! row_key t = None
    end.
Proof.
  intros [Pb Pl] [Db Dl]. unfold scan_documents_raw. rewrite !slot_prefix by (apply PRIMARY_ok || apply DYNAMIC_ok).
  cbn [mbind outcome_bind]. destruct (scans_carried (store c) _ Pb Pl) as (_ & _ & ->), (scans_carried (store c) _ Db Dl) as (_ & -> & _).
  cbn [mbind outcome_bind]. eexists. split; [done|].
  destruct (merge_rows_segs (contents (store c)) (contents (store c)) (h ++ slot_bytes PRIMARY_SLOT) (h ++ slot_bytes DYNAMIC_SLOT)) as [Ss M].
  split; [exact Ss|]. intros t d. rewrite M. unfold pkey, skey. by rewrite !app_assoc.
Qed.

(** The keys behind a merged scan. *)
Lemma document_keys_spec (probe : PrefixProbe) (l : list (bytes * option unit)) :
  Forall (λ td, exists k, id_ok k /\ encode k = Ok (probe_bytes probe ++ td.1)) l ->
  exists ks, document_keys (K := K) probe l = Ok ks /\
  Forall2 (λ td k, id_ok k /\ encode k = Ok (probe_bytes probe ++ td.1)) l ks.
Proof.
  induction 1 as [|[t d] l (k & Hk & Ek) F (ks & E & F2)]; [by exists []|]. exists (k :: ks). cbn [document_keys fst] in *.
  unfold document_key, taken. rewrite <- zlen_app, (id_len k _ Hk Ek), Z.eqb_refl. cbn [negb].
  destruct Hk as [Hk Nk]. destruct (key_encodes k Hk) as (b & Eb & _ & D). rewrite Ek in Eb. injection Eb as <-.
  specialize (D []). rewrite app_nil_r, Nk in D. rewrite D. cbn [liftp mbind outcome_bind]. rewrite E. cbn [mbind outcome_bind].
  split; [done|]. constructor; [|done]. split; [by split|done].
Qed.

(** The keys of a collection's documents.  Under a probe, the scan answers
    exactly the keys that start with it and have a row or a dynamic segment, each
    once. *)
Theorem scan_document_keys_exact (c : Collection S) (probe : PrefixProbe) :
  let m := contents (store c) in
  scannable m (h ++ slot_bytes PRIMARY_SLOT ++ probe_bytes probe) ->
  scannable m (h ++ slot_bytes DYNAMIC_SLOT ++ probe_bytes probe) ->
  (forall t, is_Some (m !! row_key (probe_bytes probe ++ t)) \/ is_Some (m !! seg_key (probe_bytes probe ++ t)) ->
    exists k, id_ok k /\ encode k = Ok (probe_bytes probe ++ t)) ->
  exists ks, scan_document_keys (K := K) (R := R) c probe = Ok ks /\ NoDup ks /\
  forall k kb t, id_ok k -> encode k = Ok kb -> kb = probe_bytes probe ++ t ->
    (k ∈ ks <-> is_Some (m !! row_key kb) \/ is_Some (m !! seg_key kb)).
Proof.
  intros m [Pb Pl] [Db Dl] Keys. unfold scan_document_keys. rewrite !slot_prefix by (apply PRIMARY_ok || apply DYNAMIC_ok).
  cbn [mbind outcome_bind]. rewrite <- !app_assoc.
  destruct (scans_carried (store c) _ Pb Pl) as (_ & -> & _), (scans_carried (store c) _ Db Dl) as (_ & -> & _).
  cbn [mbind outcome_bind]. fold m. set (P := h ++ slot_bytes PRIMARY_SLOT ++ probe_bytes probe) in *.
  set (D := h ++ slot_bytes DYNAMIC_SLOT ++ probe_bytes probe) in *.
  assert (forall t, row_key (probe_bytes probe ++ t) = P ++ t /\ seg_key (probe_bytes probe ++ t) = D ++ t) as Ek.
  { intros t. unfold pkey, skey, P, D. by rewrite <- !app_assoc. }
  set (rows := map fst (carried_pairs m P)). set (segs := map fst (carried_pairs m D)).
  assert (map fst (map (λ r, (r, tt)) rows) = rows) as Er by (rewrite map_map; apply map_id).
  destruct (merge_slots_spec (length rows + length segs) (map (λ r, (r, tt)) rows) segs) as [Ss M];
    [by rewrite length_map|rewrite Er; apply carried_sorted|apply carried_sorted|].
  set (docs := merge_slots (length rows + length segs) (map (λ r, (r, tt)) rows) segs) in *.
  assert (forall t, t ∈ map fst docs <-> is_Some (m !! (P ++ t)) \/ is_Some (m !! (D ++ t))) as Hdocs.
  { intros t. rewrite <- (elem_of_carried m P), <- (elem_of_carried m D). fold rows segs. split.
    - intros ([t' d] & -> & Hin)%list_elem_of_fmap. apply M in Hin. destruct d as [[]|]; [left|right; apply Hin].
      apply list_elem_of_fmap in Hin as (x & [= ->] & Hx). done.
    - intros Ht. apply list_elem_of_fmap. destruct (decide (t ∈ rows)) as [Hr|Nr].
      + exists (t, Some tt). split; [done|]. apply M, list_elem_of_fmap. by exists t.
      + exists (t, None). split; [done|]. apply M. rewrite Er. tauto. }
  destruct (document_keys_spec probe docs) as (ks & E & F).
  { apply Forall_forall. intros td Htd. apply Keys. destruct (Ek td.1) as [-> ->]. apply Hdocs, list_elem_of_fmap. by exists td. }
  exists ks. split; [exact E|]. split.
  - apply NoDup_alt. intros i j k Hi Hj. destruct (Forall2_lookup_r _ _ _ _ _ F Hi) as (td & Ti & _ & Ei).
    destruct (Forall2_lookup_r _ _ _ _ _ F Hj) as (td' & Tj & _ & Ej). rewrite Ei in Ej. injection Ej as Ej%app_inv_head.
    eapply (NoDup_lookup (map fst docs)); [by apply sorted_NoDup|rewrite list_lookup_fmap, Ti; reflexivity|].
    rewrite list_lookup_fmap, Tj, Ej. done.
  - intros k kb t Hk Ekb ->. destruct (Ek t) as [-> ->]. rewrite <- Hdocs. split.
    + intros Hin. destruct (proj1 (list_elem_of_lookup _ _) Hin) as [i Hi].
      destruct (Forall2_lookup_r _ _ _ _ _ F Hi) as (td & Ti & _ & Ei). rewrite Ekb in Ei. injection Ei as Ei%app_inv_head. subst t.
      apply list_elem_of_fmap. exists td. split; [done|]. by eapply list_elem_of_lookup_2.
    + intros (td & -> & Hin)%list_elem_of_fmap. destruct (proj1 (list_elem_of_lookup _ _) Hin) as [i Ti].
      destruct (Forall2_lookup_l _ _ _ _ _ F Ti) as (k' & Hi & Hk' & Ek'). rewrite (encode_inj k k' _ Hk Hk' Ekb Ek').
      by eapply list_elem_of_lookup_2.
Qed.

(** ** Deprecated slots *)

Definition slot_prefixes (slots : list Slot) : list bytes := map (λ s, h ++ slot_bytes s) slots.

Definition behind (prefixes : list bytes) (key : bytes) : Prop := exists prefix t, prefix ∈ prefixes /\ key = prefix ++ t.

Lemma dels_ops (l : list bytes) prefix : forall b,
  ops (fold_left (λ b sfx, Batch_del b (prefix ++ sfx)) l b) = ops b ++ map (λ sfx, (prefix ++ sfx, None)) l.
Proof.
  induction l as [|t l IH]; intros b; simpl; [by rewrite app_nil_r|]. rewrite IH. unfold Batch_del. cbn [ops].
  by rewrite <- app_assoc.
Qed.

Lemma prune_slots_spec (c : Collection S) slots : forall batch removed,
  Forall (λ s, slot_ok s /\ scannable (contents (store c)) (h ++ slot_bytes s)) slots ->
  exists dels, prune_slots (K := K) (R := R) c slots batch removed
    = Ok (mkBatch (ops batch ++ map (λ key, (key, None)) dels), removed + zlen dels) /\
  forall key, key ∈ dels <-> is_Some (contents (store c) !! key) /\ behind (slot_prefixes slots) key.
Proof.
  induction slots as [|s slots IH]; intros batch removed F.
  - exists []. split; [destruct batch; cbn; by rewrite app_nil_r, Z.add_0_r|]. intros key. rewrite elem_of_nil. split; [done|].
    by intros [_ (p & t & Hp%elem_of_nil & _)].
  - apply Forall_cons in F as [(Hs & Hb & L) F]. cbn [prune_slots]. rewrite slot_prefix by done. cbn [mbind outcome_bind].
    destruct (scans_carried (store c) _ Hb L) as (_ & -> & _). cbn [mbind outcome_bind].
    set (P := h ++ slot_bytes s). set (l := map fst (carried_pairs (contents (store c)) P)).
    destruct (IH (fold_left (λ b sfx, Batch_del b (P ++ sfx)) l batch) (removed + zlen l) F) as (dels & E & Hd).
    exists (map (P ++.) l ++ dels). rewrite E, dels_ops. split.
    + rewrite map_app, map_map, app_assoc. do 2 f_equal. rewrite zlen_app. unfold zlen. rewrite length_map. lia.
    + intros key. rewrite elem_of_app, Hd. unfold behind, slot_prefixes. cbn [map]. fold P. split.
      * intros [(t & -> & Ht)%list_elem_of_fmap|[Hk (p & t & Hp & ->)]].
        -- apply elem_of_carried in Ht. split; [done|]. exists P, t. split; [by left|done].
        -- split; [done|]. exists p, t. split; [by right|done].
      * intros [Hk (p & t & [->|Hp]%elem_of_cons & ->)]; [left|right; split; [done|by exists p, t]].
        apply list_elem_of_fmap. exists t. split; [done|]. by apply elem_of_carried.
Qed.

Lemma apply_dels (m : gmap bytes bytes) dels key :
  apply_batch m (map (λ key, (key, None)) dels) !! key = if decide (key ∈ dels) then None else m !! key.
Proof.
  revert m. induction dels as [|d dels IH]; intros m; [done|].
  assert (forall m' : gmap bytes bytes, m' = delete d m -> apply_batch m' (map (λ key, (key, None)) dels) !! key =
    if decide (key ∈ d :: dels) then None else m !! key) as Step; [|by apply Step].
  intros m' ->. rewrite IH. destruct (decide (key ∈ dels)) as [Hin|N]; [by rewrite decide_True by by right|].
  destruct (decide (d = key)) as [->|Ne]; [rewrite lookup_delete_eq; by rewrite decide_True by (by left)|].
  rewrite lookup_delete_ne by done. rewrite decide_False; [done|]. intros [->|?]%elem_of_cons; done.
Qed.

(** Pruning.  [prune_deprecated_slots] removes every entry under the
    deprecated slots and no other key, in one commit that happens only when there
    is something to remove; a second call finds nothing and changes nothing. *)
Theorem prune_deprecated_exact p (c : Collection S) :
  0 <= epoch c < 2 ^ 64 - 1 ->
  Forall (λ s, slot_ok s /\ scannable (contents (store c)) (h ++ slot_bytes s)) (DEPRECATED_SLOTS (K := K) (R := R)) ->
  let gone key := behind (slot_prefixes (DEPRECATED_SLOTS (K := K) (R := R))) key in
  exists c' n, prune_deprecated_slots (K := K) (R := R) p c = (c', Ok n) /\
  (forall key, gone key -> contents (store c') !! key = None) /\
  (forall key, ~ gone key -> contents (store c') !! key = contents (store c) !! key) /\
  (n = 0 <-> forall key, gone key -> contents (store c) !! key = None) /\
  prune_deprecated_slots (K := K) (R := R) p c' = (c', Ok 0).
Proof.
  intros Ep F gone. destruct (prune_slots_spec c _ Batch_default 0 F) as (dels & E & Hd).
  assert (forall c', (forall key, gone key -> contents (store c') !! key = None) ->
    (forall key, is_Some (contents (store c') !! key) -> is_Some (contents (store c) !! key)) ->
    prune_deprecated_slots (K := K) (R := R) p c' = (c', Ok 0)) as Again.
  { intros c' Gone Shrink. destruct (prune_slots_spec c' (DEPRECATED_SLOTS (K := K) (R := R)) Batch_default 0) as (dels' & E' & Hd').
    - eapply Forall_impl; [exact F|]. intros s (Hs & Hb & L). do 2 (split; [done|]). intros key Hk. by apply L, Shrink.
    - unfold prune_deprecated_slots. rewrite E'. destruct dels' as [|d dels']; [done|]. exfalso.
      destruct (proj1 (Hd' d) ltac:(by left)) as [[v Ev] G]. rewrite (Gone d G) in Ev. done. }
  unfold prune_deprecated_slots at 1. rewrite E. rewrite Z.add_0_l. destruct (Z.ltb_spec 0 (zlen dels)) as [Pos|Zero].
  - destruct (commit_batch_spec (store c) (mkBatch (ops Batch_default ++ map (λ key, (key, None)) dels))) as (s' & Ec & Es').
    exists (mkCollection s' (epoch c + 1)), (zlen dels). unfold commit. rewrite Ec. unfold add_w.
    rewrite (proj2 (Z.ltb_lt _ _)) by lia. split; [done|]. cbn [store]. cbn [ops Batch_default app] in Es'.
    assert (forall key, gone key -> contents s' !! key = None) as Gone.
    { intros key G. rewrite Es', apply_dels. case_decide as X; [done|]. apply eq_None_not_Some. intros Hk. by apply X, Hd. }
    assert (forall key, ~ gone key -> contents s' !! key = contents (store c) !! key) as Kept.
    { intros key N. rewrite Es', apply_dels. rewrite decide_False; [done|]. intros X. by apply Hd in X as [_ ?]. }
    do 2 (split; [done|]). split.
    + split; [lia|]. intros X. destruct dels as [|d dels]; [done|]. destruct (proj1 (Hd d) ltac:(by left)) as [[v Ev] G].
      rewrite (X d G) in Ev. done.
    + apply Again; [done|]. intros key. cbn [store]. rewrite Es', apply_dels. by case_decide.
  - assert (dels = []) as ->. { destruct dels; [done|]. unfold zlen in Zero. simpl in Zero. lia. }
    assert (forall key, gone key -> contents (store c) !! key = None) as Gone.
    { intros key G. apply eq_None_not_Some. intros Hk. assert (key ∈ @nil bytes) as X by by apply Hd. by apply elem_of_nil in X. }
    exists c, 0. split; [done|]. do 2 (split; [done|]). split; [done|]. by apply Again.
Qed.
End Documents.

(** * Witnesses

    The sample row, and a document that is a segment only. *)
Definition sample_docs : Collection MemStore :=
  mkCollection (<[ [0; 33; 1] ++ sample_kb2 := [1; 8; 1; 65] ]> (contents (store sample_saved)) : gmap bytes bytes) 1.

Lemma sample_scannable m prefix :
  bool_decide (bytes_ok prefix) = true ->
  forallb (λ k, bool_decide (bytes_ok k) && (negb (in_range_b prefix (prefix_end prefix) k) || (length prefix <=? length k)%nat))
    (sorted_keys m) = true -> scannable m prefix.
Proof. intros B L. split; [by apply bool_decide_eq_true in B|by apply long_keys_check]. Qed.

Lemma scan_documents_exact_witness :
  scan_documents_raw (K := krow sample_key) (R := sample_row_type) sample_docs
    = Ok [(sample_kb, Some (payload_b (K := krow sample_key) sample_row)); (sample_kb2, None)] /\
  exists out, scan_documents_raw (K := krow sample_key) (R := sample_row_type) sample_docs = Ok out /\ (sample_kb2, None) ∈ out.
Proof.
  split; [by vm_compute|].
  destruct (scan_documents_exact (K := krow sample_key) (R := sample_row_type) sample_docs) as (out & E & _ & M);
    [apply sample_scannable; by vm_compute..|].
  exists out. split; [exact E|]. apply M. split; [eexists|]; vm_compute; reflexivity.
Defined.

Definition sample_probe : PrefixProbe := PrefixProbe_new [0; 0; 0; 7].

Definition sample_doc_key (k : bytes) : bool :=
  negb (bool_decide (take 3 k = [0; 33; 0]) || bool_decide (take 3 k = [0; 33; 1]))
  || bool_decide (drop 3 k = sample_kb) || bool_decide (drop 3 k = sample_kb2).

Lemma sample_documents t :
  is_Some (contents (store sample_docs) !! ([0; 33; 0] ++ t)) \/ is_Some (contents (store sample_docs) !! ([0; 33; 1] ++ t)) ->
  t = sample_kb \/ t = sample_kb2.
Proof.
  assert (forallb sample_doc_key (sorted_keys (contents (store sample_docs))) = true) as F by (vm_compute; reflexivity).
  rewrite List.forallb_forall in F. rewrite <- !elem_of_sorted_keys, !list_elem_of_In.
  intros [X%F|X%F]; unfold sample_doc_key in X; cbn [take drop app] in X;
    rewrite !orb_true_iff, negb_true_iff, orb_false_iff, !bool_decide_eq_false, !bool_decide_eq_true in X; naive_solver.
Qed.

Lemma scan_document_keys_exact_witness :
  scan_document_keys (R := sample_row_type) sample_docs sample_probe = Ok [sample_id; sample_id2] /\
  exists ks, scan_document_keys (R := sample_row_type) sample_docs sample_probe = Ok ks /\ sample_id2 ∈ ks.
Proof.
  split; [by vm_compute|]. destruct sample_fits as [(I1 & E1 & _) (I2 & E2 & _)].
  destruct (scan_document_keys_exact (R := sample_row_type) sample_docs sample_probe) as (ks & E & _ & M).
  - apply sample_scannable; by vm_compute.
  - apply sample_scannable; by vm_compute.
  - intros t Ht. destruct (sample_documents ([0; 0; 0; 7] ++ t) Ht) as [X|X].
    + exists sample_id. split; [done|]. change (probe_bytes sample_probe) with [0; 0; 0; 7]. by rewrite X.
    + exists sample_id2. split; [done|]. change (probe_bytes sample_probe) with [0; 0; 0; 7]. by rewrite X.
  - exists ks. split; [exact E|]. apply (M sample_id2 sample_kb2 [1; 45; 9; 8]); [done|done|done|]. right.
    eexists. vm_compute. reflexivity.
Defined.

(** The sample declaration with its index retired. *)
Definition sample_retired : Document (krow sample_key) sample_row_type :=
  derived_document Debug {|
    dc_partition := [];
    dc_ns := [0; 33];
    dc_schema := sample_schema;
    dc_indexes := [(0x3001, mkIdx _ [105] [[98]] [[97]] [] None [] None true)];
    dc_leads := dc_leads sample_declaration;
    dc_reduces := dc_reduces sample_declaration
  |}.

Lemma prune_deprecated_exact_witness :
  (prune_deprecated_slots (H0 := sample_retired) Debug sample_saved).2 = Ok 1 /\
  exists c' n, prune_deprecated_slots (H0 := sample_retired) Debug sample_saved = (c', Ok n) /\
  contents (store c') !! ([0; 33; 48; 1; 104; 105] ++ sample_kb) = None.
Proof.
  split; [by vm_compute|].
  destruct (prune_deprecated_exact (HD := sample_retired) Debug sample_saved) as (c' & n & E & Gone & _).
  - by vm_compute.
  - apply Forall_singleton. split; [apply (bool_decide_unpack _); by vm_compute|]. apply sample_scannable; by vm_compute.
  - exists c', n. split; [exact E|]. apply Gone. exists [0; 33; 48; 1], ([104; 105] ++ sample_kb). split; [by left|done].
Defined.
