(* ===== verification/Bridge.v ===== *)
(** * The document-map bridge (okm-derive, [document_encode.rs])

    [to_map] lifts every declared field of a document into a [DynamicValue];
    [try_from_map] builds a document from a map, with the declared default for a
    name the map does not carry and a refusal for a value of the wrong kind or
    out of range.  The whole-document verbs of a collection go through it.

    The theorems: a document comes back from its map; what a field gets from a map
    that names it, which is what the map carries for every kind but two ([VarInt]
    takes a number modulo its width, [Vector] what its bytes begin with); and the
    values that do not come back ([Reverse] of a signed integer not negative). *)
From S2P Require Import Prelude Errors Slots Vocab DynValue Fields Payload Keys Index Collection.

(** [BTreeMap::get] *)
Fixpoint btree_get {V} (k : bytes) (m : list (bytes * V)) : option V :=
  match m with
  | [] => None
  | (k', v) :: m => if decide (k' = k) then Some v else btree_get k m
  end.

(** [dyn_kind] *)
Definition dyn_kind (v : DynamicValue) : bytes :=
  match v with
  | DUInt _ => name_UInt
  | DInt _ => name_Int
  | DF64 _ => name_F64
  | DStr _ => name_Str
  | DBytes _ => name_Bytes
  | DBool _ => name_Bool
  | DNull => name_Null
  | DArray _ => name_Array
  | DObj _ => name_Obj
  end.

Definition kind_mismatch {A} (field want : bytes) (got : DynamicValue) : result A :=
  Err (KindMismatch field want (dyn_kind got)).

Definition bad_value {A} (field want got : bytes) : result A := Err (ValueOutOfRange field want got).

(** The bit flip of a [Reverse]'s integer. *)
Definition flip (n : nat) (signed : bool) (v : Z) : Z := if signed then Z.lnot v else not_w (bits n) v.

(** [TryFrom] of a 64-bit integer for the [n]-byte ones. *)
Definition fits (n : nat) (signed : bool) (v : Z) : bool :=
  if signed then (- 2 ^ (bits n - 1) <=? v) && (v <? 2 ^ (bits n - 1)) else (0 <=? v) && (v <? 2 ^ bits n).

(** ** A field *)

(** The arms of [to_map]. *)
Definition to_value (k : FieldKind) : rust_type k -> DynamicValue :=
  match k return rust_type k -> DynamicValue with
  | KUInt _ | KVarInt _ => λ v, DUInt v
  | KSInt _ | KOffset _ => λ v, DInt v
  | KQuant _ => λ v, DF64 v
  | KUuid _ | KFixedBytes _ | KBytes => λ v, DBytes v
  | KReverse n signed => λ v, DUInt (wrap 64 (flip n signed v))
  | KVector n _ _ => λ v, DBytes (Vector_encode_payload n v)
  | KVocab _ => λ v,
      match name v with
      | Some s => DStr s
      | None => DUInt (match id v with Some i => wrap 64 i | None => 0 end)
      end
  | KString => λ v, DStr v
  end.

(** The arms of [try_from_map] for a name the map carries. *)
Definition from_value (field : bytes) (k : FieldKind) (got : DynamicValue) : result (rust_type k) :=
  match k return result (rust_type k) with
  | KUInt n =>
      match got with
      | DUInt v => if fits n false v then Ok v else bad_value field (int_name false n) (show_Z v)
      | _ => kind_mismatch field name_UInt got
      end
  | KSInt n =>
      match got with
      | DInt v => if fits n true v then Ok v else bad_value field (int_name true n) (show_Z v)
      | _ => kind_mismatch field name_Int got
      end
  | KUuid version =>
      match got with
      | DBytes v =>
          if decide (length v = 16%nat) then Ok v
          else bad_value field (uuid_name version) (count_uuid_bytes (zlen v))
      | _ => kind_mismatch field name_Bytes got
      end
  | KFixedBytes n =>
      match got with
      | DBytes v =>
          if decide (length v = n) then Ok v else bad_value field (array_name n) (count_bytes (zlen v))
      | _ => kind_mismatch field name_Bytes got
      end
  | KReverse n signed =>
      match got with
      | DUInt v =>
          if fits n signed v then Ok (flip n signed v) else bad_value field (int_name signed n) (show_Z v)
      | _ => kind_mismatch field name_UInt got
      end
  | KVarInt n => match got with DUInt v => Ok (wrap (bits n) v) | _ => kind_mismatch field name_UInt got end
  | KVector n signed _ =>
      match got with
      | DBytes b => liftp (Vector_decode_payload n signed b)
      | _ => kind_mismatch field name_Bytes got
      end
  | KVocab n =>
      match got with
      | DStr v => Ok (Vocab_of v)
      | DUInt v =>
          narrowed ← liftp (vocab_id_from_u64 n v);
          match narrowed with
          | Some i => Ok (Vocab_from_id i)
          | None => bad_value field (int_name false n) (show_Z v)
          end
      | _ => kind_mismatch field name_label got
      end
  | KOffset _ => match got with DInt v => Ok v | _ => kind_mismatch field name_Int got end
  | KQuant _ => match got with DF64 v => Ok v | _ => kind_mismatch field name_F64 got end
  | KString => match got with DStr v => Ok v | _ => kind_mismatch field name_Str got end
  | KBytes => match got with DBytes v => Ok v | _ => kind_mismatch field name_Bytes got end
  end.

(** ** A document *)

Fixpoint to_map_from (fs : list FieldSchema) : row fs -> list (bytes * DynamicValue) -> list (bytes * DynamicValue) :=
  match fs return row fs -> _ -> _ with
  | [] => λ _ out, out
  | f :: fs => λ r out, to_map_from fs r.2 (btree_insert (ident f) (to_value (kind f) r.1) out)
  end.

Definition row_to_map (fs : list FieldSchema) (r : row fs) : list (bytes * DynamicValue) := to_map_from fs r [].

Definition from_map_field (f : FieldSchema) (map : list (bytes * DynamicValue)) : result (rust_type (kind f)) :=
  match btree_get (ident f) map with
  | None => Ok (default_expr f)
  | Some got => from_value (ident f) (kind f) got
  end.

Fixpoint row_from_map (fs : list FieldSchema) (map : list (bytes * DynamicValue)) : result (row fs) :=
  match fs return result (row fs) with
  | [] => Ok tt
  | f :: fs => v ← from_map_field f map; rest ← row_from_map fs map; Ok (v, rest)
  end.

#[export] Instance derived_map (fs : list FieldSchema) : DocumentMap (row fs) := {
  to_map r := Ok (row_to_map fs r);
  try_from_map := row_from_map fs
}.

(** * Lemmas *)

Lemma btree_get_insert {V} (m : list (bytes * V)) k v k' :
  btree_get k' (btree_insert k v m) = if decide (k = k') then Some v else btree_get k' m.
Proof.
  induction m as [|[a x] m IH]; simpl; [by case_decide|].
  destruct (lex_compare k a) eqn:E; simpl.
  - apply lex_compare_eq in E as ->. by case_decide.
  - done.
  - rewrite IH. destruct (decide (a = k')) as [->|]; [|done]. destruct (decide (k = k')) as [->|]; [|done].
    by rewrite (proj2 (lex_compare_eq k' k') eq_refl) in E.
Qed.

Lemma to_map_from_other fs : forall r out n, n ∉ map ident fs -> btree_get n (to_map_from fs r out) = btree_get n out.
Proof.
  induction fs as [|f fs IH]; intros r out n Hn; [done|]. cbn [map to_map_from] in *.
  apply not_elem_of_cons in Hn as [N Hn]. rewrite IH by done. rewrite btree_get_insert. by rewrite decide_False.
Qed.

(** ** A field *)

Lemma fits_ok n signed v : fits n signed v = true <-> (signed = true -> - 2 ^ (bits n - 1) <= v < 2 ^ (bits n - 1)) /\
  (signed = false -> 0 <= v < 2 ^ bits n).
Proof.
  unfold fits. destruct signed; rewrite andb_true_iff, Z.leb_le, Z.ltb_lt; (split; [by split|]); intros [A B]; auto.
Qed.

Lemma flip_flip n signed v : (signed = false -> 0 <= v < 2 ^ bits n) -> flip n signed (flip n signed v) = v.
Proof.
  intros H. unfold flip. destruct signed; [apply Z.lnot_involutive|]. specialize (H eq_refl).
  assert (0 <= bits n) by (unfold bits; lia). rewrite !not_w_spec by done. rewrite (wrap_small _ v) by done.
  rewrite wrap_small by lia. lia.
Qed.

Lemma bits_le n k : (n <= k)%nat -> 2 ^ bits n <= 2 ^ bits k.
Proof. intros H. apply Z.pow_le_mono_r; unfold bits; lia. Qed.

(** ** A field comes back *)

(** The values [to_map] represents exactly; a [Reverse] of a signed integer only
    when it is negative. *)
Definition bridge_ok (k : FieldKind) : rust_type k -> Prop :=
  match k return rust_type k -> Prop with
  | KUInt n => word_ok n false
  | KSInt n => word_ok n true
  | KUuid _ => λ v, length v = 16%nat
  | KFixedBytes n => λ v, length v = n
  | KReverse n signed => λ v, (n <= 8)%nat /\ word_ok n signed v /\ (signed = true -> v < 0)
  | KVarInt n => λ v, 0 <= v < 2 ^ bits n
  | KVector n signed _ => λ v, Forall (word_ok n signed) v /\ zlen v < 2 ^ 32
  | KVocab n => λ v,
      is_Some (name v) \/ exists i, id v = Some i /\ 0 <= i < 2 ^ 64 /\ i < 256 ^ Z.of_nat n /\ (n <= 16)%nat
  | KOffset _ | KQuant _ | KString | KBytes => λ _, True
  end.

(** A named [Vocab] loses its id, nothing else changes. *)
Definition bridged (k : FieldKind) : rust_type k -> rust_type k :=
  match k return rust_type k -> rust_type k with
  | KVocab _ => λ v, match name v with Some s => Vocab_of s | None => v end
  | _ => λ v, v
  end.

Lemma word_fits n signed v : word_ok n signed v -> fits n signed v = true.
Proof. unfold word_ok. rewrite fits_ok. destruct signed; [intros [_ ?]|intros ?]; by split. Qed.

Lemma vector_payload n (v : list Z) : zlen v < 2 ^ 32 ->
  Vector_encode_payload n v = be_bytes 4 (zlen v) ++ elems_bytes n v.
Proof.
  intros H. unfold Vector_encode_payload. rewrite elems_fold. by rewrite wrap_small by (pose proof (zlen_nonneg v); lia).
Qed.

Lemma vector_decodes n signed v : Forall (word_ok n signed) v -> zlen v < 2 ^ 32 ->
  Vector_decode_payload n signed (Vector_encode_payload n v) = Ok v.
Proof.
  intros F L. rewrite vector_payload by done. unfold Vector_decode_payload. pose proof (zlen_nonneg v).
  pose proof (slice_app [] (be_bytes 4 (zlen v)) (elems_bytes n v)) as E. rewrite be_bytes_zlen in E.
  change (slice (be_bytes 4 (zlen v) ++ elems_bytes n v) 0 4 = Some (be_bytes 4 (zlen v))) in E. rewrite E.
  cbn [or_panic mbind outcome_bind].
  rewrite be_val_be_bytes_small by (simpl; lia).
  replace (Z.to_nat (zlen v)) with (length v) by (unfold zlen; lia).
  pose proof (elems_loop_ok n signed v (be_bytes 4 (zlen v)) [] F) as D. by rewrite app_nil_r, be_bytes_zlen in D.
Qed.

Lemma reverse_logical n signed v : (n <= 8)%nat -> word_ok n signed v -> (signed = true -> v < 0) ->
  0 <= flip n signed v < 2 ^ 64 /\ fits n signed (flip n signed v) = true.
Proof.
  intros Hn Hv Hneg. pose proof (bits_le n 8 Hn) as B. change (2 ^ bits 8) with (2 ^ 64) in B. unfold flip, fits.
  destruct signed; cbn [word_ok] in Hv.
  - destruct Hv as [H0 Hv]. destruct (bits_half n H0) as [E P]. specialize (Hneg eq_refl). unfold Z.lnot. rewrite andb_true_iff, Z.leb_le, Z.ltb_lt. lia.
  - rewrite not_w_spec by (unfold bits; lia). rewrite wrap_small by done. rewrite andb_true_iff, Z.leb_le, Z.ltb_lt. lia.
Qed.

Lemma field_bridges field k v : bridge_ok k v -> from_value field k (to_value k v) = Ok (bridged k v).
Proof.
  destruct k; cbn [bridge_ok to_value from_value bridged]; intros H.
  - by rewrite word_fits.
  - by rewrite word_fits.
  - by rewrite decide_True.
  - by rewrite decide_True.
  - destruct H as (Hn & Hv & Hneg). destruct (reverse_logical n signed v Hn Hv Hneg) as [B F].
    rewrite wrap_small, F by done. rewrite flip_flip; [done|]. intros ->. exact Hv.
  - by rewrite wrap_small.
  - destruct H as [F L]. by rewrite vector_decodes.
  - destruct v as [[s|] i]; cbn [name id] in *; [done|]. destruct H as [[? ?]|(j & -> & Hj & Hw & Hn)]; [done|].
    rewrite wrap_small by lia. rewrite vocab_id_narrows by done. by rewrite (proj2 (Z.ltb_lt _ _) Hw).
  - done.
  - done.
  - done.
  - done.
Qed.

(** ** What a map carries is what the field gets *)

(** The kinds that take the number they are given, or none. *)
Definition exact_kind (k : FieldKind) : bool := match k with KVarInt _ | KVector _ _ _ => false | _ => true end.

(** A [UInt] is 64 bits wide, and [Bytes] are bytes. *)
Definition sized_value (v : DynamicValue) : Prop := match v with DUInt v => 0 <= v < 2 ^ 64 | DBytes b => bytes_ok b | _ => True end.

(** What a field gets from the value a map carries for it: that value, for a [VarInt] the
    number modulo the type's width, for a [Vector] the elements the bytes begin with. *)
Definition laid (k : FieldKind) (got : DynamicValue) : rust_type k -> Prop :=
  match k return rust_type k -> Prop with
  | KVarInt n => λ v, exists w, got = DUInt w /\ v = w mod 2 ^ bits n
  | KVector n signed ok_len => λ v, Forall (word_ok n signed) v /\ exists rest, got = DBytes (Vector_encode_payload n v ++ rest)
  | k => λ v, to_value k v = got
  end.

Lemma fits_flip n signed v : (n <= 8)%nat -> 0 <= v < 2 ^ 64 -> fits n signed v = true -> wrap 64 (flip n signed (flip n signed v)) = v.
Proof.
  intros Hn Hv Hf. apply fits_ok in Hf as [_ Hf]. rewrite flip_flip by done. by apply wrap_small.
Qed.

Definition kind_sized (k : FieldKind) : Prop :=
  match k with KReverse n _ => (n <= 8)%nat | KVocab n => (n <= 16)%nat | KVector n _ _ => (0 < n)%nat | _ => True end.

Lemma label_exact field n got v :
  (n <= 16)%nat -> sized_value got -> from_value field (KVocab n) got = Ok v -> to_value (KVocab n) v = got.
Proof.
  intros Hn Hg. destruct got; cbn [from_value sized_value] in *; try done; [|by intros [= <-]].
  rewrite vocab_id_narrows by done. cbn [liftp mbind outcome_bind]. destruct (_ <? _); [|done].
  intros [= <-]. cbn [to_value Vocab_from_id name id]. by rewrite wrap_small.
Qed.

Lemma field_exact field k got v :
  exact_kind k = true -> kind_sized k -> sized_value got -> from_value field k got = Ok v -> to_value k v = got.
Proof.
  intros Hk Hs Hg. destruct k; cbn [exact_kind kind_sized] in *; try done; try by apply label_exact.
  all: unfold from_value, kind_mismatch, bad_value; destruct got; cbn [sized_value] in Hg; try done;
    repeat case_match; try done; intros [= <-]; try done; cbn [to_value]; f_equal.
  by apply fits_flip.
Qed.

Lemma vector_reads n signed b v : (0 < n)%nat -> bytes_ok b -> Vector_decode_payload n signed b = Ok v ->
  Forall (word_ok n signed) v /\ exists rest, b = Vector_encode_payload n v ++ rest.
Proof.
  intros Hn Hb E. unfold Vector_decode_payload in E. destruct (slice b 0 4) as [c|] eqn:Ec; [|done]. cbn [or_panic mbind outcome_bind] in E.
  pose proof (slice_length _ _ _ _ Ec) as (Lc & _). pose proof (slice_ok _ _ _ _ Hb Ec) as Hc. apply slice_split in Ec as Dc. change (drop (Z.to_nat 0) b) with b in Dc.
  apply elems_loop_reads in E as (Lv & Wv & Dv); [|done..]. split; [exact Wv|]. pose proof (be_val_bound c Hc) as B. rewrite Lc in B. change (256 ^ (4 - 0)) with (2 ^ 32) in B.
  assert (zlen v = be_val c) as Ev by (unfold zlen; lia). assert (be_bytes 4 (be_val c) = c) as Ebc.
  { assert (length c = 4%nat) as <- by (unfold zlen in Lc; lia). by apply be_bytes_be_val. }
  rewrite vector_payload by lia. rewrite Ev, Ebc. eexists. etrans; [exact Dc|]. rewrite Dv. by rewrite <- app_assoc.
Qed.

Lemma field_laid field k got v : kind_sized k -> sized_value got -> from_value field k got = Ok v -> laid k got v.
Proof.
  intros Hs Hg E. destruct (exact_kind k) eqn:Hk; [destruct k; cbn [exact_kind laid] in *; try done; by eapply field_exact|].
  destruct k; cbn [exact_kind] in Hk; try done; destruct got; try discriminate E; cbn [from_value laid sized_value kind_sized] in *.
  - injection E as <-. by eexists.
  - unfold liftp in E. destruct (Vector_decode_payload _ _ _) as [x| |] eqn:D; [|done..]. injection E as <-. apply vector_reads in D as [W [rest ->]]; [|done..].
    split; [done|]. by exists rest.
Qed.

(** ** Documents *)

Fixpoint row_bridge_ok (fs : list FieldSchema) : row fs -> Prop :=
  match fs return row fs -> Prop with
  | [] => λ _, True
  | f :: fs => λ r, bridge_ok (kind f) r.1 /\ row_bridge_ok fs r.2
  end.

Fixpoint row_bridged (fs : list FieldSchema) : row fs -> row fs :=
  match fs return row fs -> row fs with
  | [] => λ r, r
  | f :: fs => λ r, (bridged (kind f) r.1, row_bridged fs r.2)
  end.

(** A map that carries every field of a row. *)
Fixpoint carries (fs : list FieldSchema) (m : list (bytes * DynamicValue)) : row fs -> Prop :=
  match fs return row fs -> Prop with
  | [] => λ _, True
  | f :: fs => λ r, btree_get (ident f) m = Some (to_value (kind f) r.1) /\ carries fs m r.2
  end.

(** The row [r'] is [r] with the fields that [new] names replaced. *)
Fixpoint merged (fs : list FieldSchema) (new : list (bytes * DynamicValue)) : row fs -> row fs -> Prop :=
  match fs return row fs -> row fs -> Prop with
  | [] => λ _ _, True
  | f :: fs => λ r r',
      match btree_get (ident f) new with
      | Some got => laid (kind f) got r'.1
      | None => r'.1 = bridged (kind f) r.1
      end /\ merged fs new r.2 r'.2
  end.

Lemma to_map_carries fs : forall r out, NoDup (map ident fs) -> carries fs (to_map_from fs r out) r.
Proof.
  induction fs as [|f fs IH]; intros r out ND; [done|]. apply NoDup_cons in ND as [N ND]. cbn [to_map_from carries].
  split; [|by apply IH]. rewrite to_map_from_other by done. rewrite btree_get_insert. by rewrite decide_True.
Qed.

Lemma carries_bridged fs m : forall r, row_bridge_ok fs r -> carries fs m r -> row_from_map fs m = Ok (row_bridged fs r).
Proof.
  induction fs as [|f fs IH]; intros r; [by destruct r|]. cbn [row_bridge_ok carries row_from_map row_bridged].
  intros [Hv Hr] [E C]. unfold from_map_field. rewrite E, field_bridges by done. cbn [mbind outcome_bind]. by rewrite (IH r.2).
Qed.

Lemma btree_get_extend {V} (new : list (bytes * V)) : forall m n, NoDup (map fst new) ->
  btree_get n (extend m new) = match btree_get n new with Some v => Some v | None => btree_get n m end.
Proof.
  unfold extend. induction new as [|[k v] new IH]; intros m n ND; [done|]. apply NoDup_cons in ND as [N ND]. cbn [fold_left btree_get fst snd].
  rewrite IH by done. rewrite btree_get_insert. destruct (decide (k = n)) as [->|]; [|done].
  assert (btree_get n new = None) as ->; [|done]. clear -N. induction new as [|[a w] new IH]; [done|].
  cbn [map fst] in N. apply not_elem_of_cons in N as [Na N]. cbn [btree_get]. rewrite decide_False by congruence. auto.
Qed.

Lemma btree_get_In {V} (m : list (bytes * V)) k v : btree_get k m = Some v -> (k, v) ∈ m.
Proof.
  induction m as [|[a w] m IH]; [done|]. cbn [btree_get]. case_decide as E; [intros [= ->]; subst; by left|right; auto].
Qed.

Lemma row_merged fs new m : forall r r',
  row_bridge_ok fs r -> carries fs m r -> NoDup (map fst new) ->
  Forall (λ kv, sized_value kv.2) new -> Forall (λ f, kind_sized (kind f)) fs ->
  row_from_map fs (extend m new) = Ok r' -> merged fs new r r'.
Proof.
  induction fs as [|f fs IH]; intros r r'; [done|]. cbn [row_bridge_ok carries row_from_map merged].
  intros [Hv Hr] [E C] ND U [Kf K]%Forall_cons. unfold from_map_field. rewrite btree_get_extend, E by done.
  destruct (btree_get (ident f) new) as [got|] eqn:G.
  - destruct (from_value (ident f) (kind f) got) as [v| |] eqn:F; [|done..]. cbn [mbind outcome_bind].
    destruct (row_from_map fs (extend m new)) as [rest| |] eqn:Er; [|done..]. intros [= <-]. split; [|by apply IH].
    apply (field_laid (ident f) _ _ _ Kf); [|done]. apply btree_get_In in G. rewrite Forall_forall in U. by apply (U _ G).
  - rewrite field_bridges by done. cbn [mbind outcome_bind].
    destruct (row_from_map fs (extend m new)) as [rest| |] eqn:Er; [|done..]. intros [= <-]. split; [done|by apply IH].
Qed.

(** * Theorems *)

(** C37: the document-map bridge.  A document comes back from its own map, a named label
    without its id, to be interned again, if each of its signed [Reverse] fields is negative
    ([bridge_gaps]: the map of any other is refused).  A map laid over it, when it is
    accepted, gives every field it names the value it carries there: exactly that value,
    neither defaulted nor truncated, for every kind but two; a [VarInt] takes the number
    modulo its type's width, and a [Vector] the elements its bytes begin with, whatever
    follows them.  Every field it does not name stays as it was. *)
Theorem bridge_merges fs (r : row fs) new :
  NoDup (map ident fs) -> row_bridge_ok fs r -> NoDup (map fst new) ->
  Forall (λ kv, sized_value kv.2) new -> Forall (λ f, kind_sized (kind f)) fs ->
  to_map r = Ok (row_to_map fs r) /\ try_from_map (row_to_map fs r) = Ok (row_bridged fs r) /\
  forall r', try_from_map (extend (row_to_map fs r) new) = Ok r' -> merged fs new r r'.
Proof.
  intros ND Hr NDn U K. pose proof (to_map_carries fs r [] ND) as C. split; [done|]. split; [by apply carries_bridged|].
  intros r'. by apply row_merged.
Qed.

(** Where the bridge falls short.  A [Reverse] of a signed integer that is not
    negative leaves in its map a number no such integer can hold, so the bridge
    refuses the document's own map and the row can no longer be merged into; and a
    number too wide for a [VarInt] is truncated where the error type and the
    bridge promise a refusal. *)
Theorem bridge_gaps field n v w :
  (0 < n <= 8)%nat -> 0 <= v < 2 ^ (bits n - 1) -> 2 ^ bits n <= w < 2 ^ 64 ->
  from_value field (KReverse n true) (to_value (KReverse n true) v)
    = bad_value field (int_name true n) (show_Z (2 ^ 64 - 1 - v)) /\
  exists x, from_value field (KVarInt n) (DUInt w) = Ok x /\ x < w /\
  from_value field (KUInt n) (DUInt w) = bad_value field (int_name false n) (show_Z w).
Proof.
  intros [H0 H8] Hv Hw. cbn [to_value from_value flip]. destruct (bits_half n H0) as [E P].
  pose proof (bits_le n 8 H8) as B. change (2 ^ bits 8) with (2 ^ 64) in B. split; [|exists (wrap (bits n) w); split; [done|split]].
  - replace (wrap 64 (Z.lnot v)) with (2 ^ 64 - 1 - v).
    2:{ unfold wrap, Z.lnot. replace (Z.pred (- v)) with (2 ^ 64 - 1 - v + -1 * 2 ^ 64) by lia. rewrite Z.mod_add by done. symmetry. apply Z.mod_small. lia. }
    replace (fits n true (2 ^ 64 - 1 - v)) with false; [done|]. symmetry. unfold fits.
    apply andb_false_iff. right. apply Z.ltb_ge. lia.
  - unfold wrap. pose proof (Z.mod_pos_bound w (2 ^ bits n)). lia.
  - replace (fits n false w) with false; [done|]. symmetry. unfold fits. apply andb_false_iff. right. apply Z.ltb_ge. lia.
Qed.

(** * Witnesses *)

(** A number too wide for its [VarInt], and a [Vector] with bytes behind its one element. *)
Definition laid_fields : list FieldSchema := [mkField [97] (KVarInt 1) 0; mkField [98] (KVector 4 false None) []; mkField [99] (KUInt 2) 0].
Definition laid_row : row laid_fields := (1, ([2; 3], (7, tt))).
Definition laid_map : list (bytes * DynamicValue) := [([97], DUInt 300); ([98], DBytes [0; 0; 0; 1; 5; 0; 0; 0; 9])].

Lemma bridge_merges_witness :
  try_from_map (row_to_map laid_fields laid_row) = Ok laid_row /\
  merged laid_fields laid_map laid_row (44, ([5], (7, tt))).
Proof.
  destruct (bridge_merges laid_fields laid_row laid_map) as (_ & E & M).
  - apply (bool_decide_unpack _). by vm_compute.
  - simpl. unfold word_ok, bits. simpl. repeat split; try lia. repeat constructor; lia.
  - apply (bool_decide_unpack _). by vm_compute.
  - repeat (apply Forall_cons; split; [simpl; unfold byte_ok; try lia; repeat constructor; lia|]). done.
  - repeat (apply Forall_cons; split; [simpl; lia || done|]). done.
  - split; [exact E|]. apply M. by vm_compute.
Defined.

Lemma bridge_gaps_witness :
  from_value [99] (KReverse 1 true) (to_value (KReverse 1 true) 5) = bad_value [99] (int_name true 1) (show_Z (2 ^ 64 - 1 - 5)) /\
  exists x, from_value [99] (KVarInt 1) (DUInt 300) = Ok x /\ x < 300 /\
  from_value [99] (KUInt 1) (DUInt 300) = bad_value [99] (int_name false 1) (show_Z 300).
Proof. apply (bridge_gaps [99] 1 5 300); unfold bits; simpl; lia. Defined.
