(* ===== verification/Verbs.v ===== *)
(** * The whole-document verbs (okm-core, [model/document.rs])

    [merge], [replace] and [fetch] speak maps: a name the declaration has goes
    through the bridge into the row, any other into the row's dynamic segment.
    Here maps name declared fields only, so the verbs are table operations: a
    merge is the insertion of the merged row, a replace of the rebuilt one (or a
    deletion), and a refused map writes nothing. *)
From S2P Require Import Prelude Errors Storage Slots Vocab DynValue Segment Fields Payload Keys Index Meta Reduces Collection Declared Table Bridge.

Section Verbs.
Context {K R : Type} `{HK : KeyEncode K} `{HL : !KeyLaws K} `{HD : !Document K R} `{HDL : !DocumentLaws K R} `{HM : !DocumentMap R}.
Context {S : Type} `{PointStorage S}.
Variables (p : profile) (capacity : Z).

Implicit Types (k : K) (r : R) (kb : bytes) (M : gmap bytes (K * R)).
Abbreviation h := (header (K := K) (R := R)).

(** Only declared names. *)
Definition all_declared (object : list (bytes * DynamicValue)) : Prop :=
  Forall (λ kv, kv.1 ∈ FIELD_NAMES (K := K) (R := R)) object.

Lemma split_declared object : all_declared object -> split_names (K := K) (R := R) object = (object, []).
Proof.
  intros F. unfold split_names, declared. induction F as [|kv object Hkv F IH]; [done|]. simpl.
  injection IH as E1 E2. rewrite bool_decide_true by done. simpl. by rewrite E1, E2.
Qed.

(** Writing an empty map of dynamic fields deletes the segment. *)
Lemma slot1_writes_nil (c : Collection S) k kb b :
  encode k = Ok kb -> slot1_writes (K := K) (R := R) p c k [] b = (Batch_del b (skey (K := K) (R := R) kb), Ok tt).
Proof. intros Ek. unfold slot1_writes. rewrite Ek. unfold slot1_into. by rewrite fields_key_ok. Qed.

Lemma slot1_of_none (c : Collection S) k kb :
  encode k = Ok kb -> held (store c) !! skey (K := K) (R := R) kb = None ->
  slot1_of (K := K) (R := R) p capacity c k = Ok None.
Proof.
  intros Ek N. unfold slot1_of. rewrite Ek. cbn [liftp mbind outcome_bind]. unfold slot1_map. rewrite fields_key_ok.
  cbn [mbind outcome_bind]. rewrite held_get. unfold skey in N. rewrite N. done.
Qed.

(** The map a merge lays over: the stored row's, or nothing. *)
Definition stored_map M kb : outcome unit (list (bytes * DynamicValue)) :=
  match old_of M kb with Some r => to_map r | None => Ok [] end.

Lemma get_row (c : Collection S) M k kb (Q : option R -> Batch -> Prop) b :
  table_at (held (store c)) M -> encode k = Ok kb -> Q (old_of M kb) b -> runs (reading (λ _, get c k)) b Q.
Proof. intros T Ek HQ. eapply runs_reading; [by apply (get_table c M k kb)|done]. Qed.

(** A write set that ends well is committed; one that fails leaves the
    collection as it was. *)
Lemma commit_built_ok {A} (c : Collection S) (build : enc Batch A) (P : A -> Batch -> Prop) :
  0 <= epoch c < 2 ^ 64 - 1 -> runs build Batch_default P ->
  exists s' a b, commit_built p c build = (mkCollection s' (epoch c + 1), Ok a) /\ P a b /\ held s' = held (mkBatchStore (store c) b).
Proof.
  intros Ep (b & a & E & HP). destruct (commit_held p c b Ep) as (s' & Ec & Es). exists s', a, b.
  unfold commit_built. by rewrite E, Ec.
Qed.

Lemma save_declared (c : Collection S) M k kb r b :
  batch_table (store c) b M -> row_fits kb (k, r) -> save_room M kb k r ->
  runs (save_with_prev_into (store c) k r (old_of M kb)) b (λ _ b', batch_table (store c) b' (<[kb := (k, r)]> M)).
Proof.
  intros T Hf Room. eapply runs_weaken; [eapply (runs_save_into (store c) b M); [done..|by right]|]. by intros u b' [? _].
Qed.

Lemma merge_body_eq (c : Collection S) M k kb object m0 b :
  table_at (held (store c)) M -> encode k = Ok kb -> all_declared object -> object <> [] -> stored_map M kb = Ok m0 ->
  merge_body p capacity c k object b =
  match try_from_map (extend m0 object) with
  | Ok r => (save_with_prev_into (store c) k r (old_of M kb);; mret tt) b
  | Err e => (b, Err e)
  | Panic => (b, Panic)
  end.
Proof.
  intros T Ek Hd Hne Em. unfold merge_body. rewrite split_declared by done. destruct object as [|kv object]; [done|].
  unfold mbind, enc_bind, reading. rewrite (get_table c M k kb) by done. unfold stored_map in Em.
  destruct (old_of M kb); unfold lift; rewrite ?Em; [|injection Em as <-]; cbn; by destruct (try_from_map _).
Qed.

Lemma replace_body_eq (c : Collection S) M k kb object b :
  table_at (held (store c)) M -> encode k = Ok kb -> all_declared object ->
  replace_body p c k object b =
  match object with
  | [] => (match old_of M kb with Some old => delete_into (store c) k old | None => mret tt end;; slot1_writes (K := K) (R := R) p c k []) b
  | _ =>
      match try_from_map object with
      | Ok r => (save_with_prev_into (store c) k r (old_of M kb);; slot1_writes (K := K) (R := R) p c k []) b
      | Err e => (b, Err e)
      | Panic => (b, Panic)
      end
  end.
Proof.
  intros T Ek Hd. unfold replace_body. rewrite split_declared by done. unfold mbind, enc_bind, reading.
  rewrite (get_table c M k kb) by done. destruct object as [|kv object]; [done|]. by destruct (try_from_map _).
Qed.

(** C15: [merge] of declared names is an upsert.  The map is laid over the stored
    row's own map; if the bridge accepts the result, the row it builds replaces
    the old one in one commit, entries and accumulators included; if the bridge
    refuses, the refusal is answered and nothing at all is written. *)
Theorem merge_refines (c : Collection S) M k kb object m0 :
  table_at (held (store c)) M -> 0 <= epoch c < 2 ^ 64 - 1 -> encode k = Ok kb ->
  all_declared object -> object <> [] -> stored_map M kb = Ok m0 ->
  match try_from_map (extend m0 object) with
  | Ok r => row_fits kb (k, r) -> save_room M kb k r ->
      exists s', merge p capacity c k object = (mkCollection s' (epoch c + 1), Ok tt) /\
      table_at (held s') (<[kb := (k, r)]> M) /\ get (mkCollection s' (epoch c + 1)) k = Ok (Some r)
  | Err e => merge p capacity c k object = (c, Err e)
  | Panic => merge p capacity c k object = (c, Panic)
  end.
Proof.
  intros T Ep Ek Hd Hne Em. unfold merge. pose proof (merge_body_eq c M k kb object m0 Batch_default T Ek Hd Hne Em) as B.
  destruct (try_from_map (extend m0 object)) as [r|e|]; [|unfold commit_built; by rewrite B..].
  intros Hf Room. destruct (commit_built_ok c (merge_body p capacity c k object) (λ _ b, batch_table (store c) b (<[kb := (k, r)]> M)) Ep)
    as (s' & [] & b & E & T' & Es).
  - assert (runs (save_with_prev_into (store c) k r (old_of M kb);; mret tt) Batch_default
      (λ _ b, batch_table (store c) b (<[kb := (k, r)]> M))) as (b & u & E & T').
    { apply runs_bind. eapply runs_weaken; [by apply save_declared|]. intros u b T'. by apply runs_ret. }
    exists b, u. by rewrite B.
  - exists s'. split; [done|]. unfold batch_table in T'. rewrite <- Es in T'. split; [done|].
    rewrite (get_table (mkCollection s' (epoch c + 1)) _ k kb T' Ek). unfold old_of. by rewrite lookup_insert_eq.
Qed.

(** [replace] of declared names leaves exactly the map.  The row is rebuilt
    from the map alone, absent fields at their defaults, or deleted when the map
    is empty; the dynamic segment goes either way, in the same commit; [fetch]
    then answers the map of the new row, or nothing; a refused map writes
    nothing. *)
Theorem replace_refines (c : Collection S) M k kb object :
  table_at (held (store c)) M -> 0 <= epoch c < 2 ^ 64 - 1 -> id_ok k -> encode k = Ok kb -> all_declared object ->
  match object with
  | [] => purge_room M kb k ->
      exists s', replace p c k object = (mkCollection s' (epoch c + 1), Ok tt) /\ table_at (held s') (delete kb M) /\
      fetch p capacity (mkCollection s' (epoch c + 1)) k = Ok None
  | _ =>
      match try_from_map object with
      | Ok r => row_fits kb (k, r) -> save_room M kb k r -> forall m, to_map r = Ok m ->
          exists s', replace p c k object = (mkCollection s' (epoch c + 1), Ok tt) /\ table_at (held s') (<[kb := (k, r)]> M) /\
          fetch p capacity (mkCollection s' (epoch c + 1)) k = Ok (Some m)
      | Err e => replace p c k object = (c, Err e)
      | Panic => replace p c k object = (c, Panic)
      end
  end.
Proof.
  intros T Ep Hk Ek Hd. unfold replace. pose proof (replace_body_eq c M k kb object Batch_default T Ek Hd) as B.
  (* the common end: the writes, the dropped segment, the commit and the fetch *)
  assert (forall M' w, replace_body p c k object Batch_default = (w;; slot1_writes (K := K) (R := R) p c k []) Batch_default ->
    runs w Batch_default (λ (_ : unit) b, batch_table (store c) b M') ->
    exists s', commit_built p c (replace_body p c k object) = (mkCollection s' (epoch c + 1), Ok tt) /\ table_at (held s') M' /\
    fetch p capacity (mkCollection s' (epoch c + 1)) k =
      match old_of M' kb with Some r => m ← liftp (to_map r); Ok (Some m) | None => Ok None end) as End.
  { intros M' w Bw Hw.
    destruct (commit_built_ok c (replace_body p c k object)
      (λ _ b, batch_table (store c) b M' /\ held (mkBatchStore (store c) b) !! skey (K := K) (R := R) kb = None) Ep) as (s' & [] & b & E & [T' N] & Es).
    - assert (runs (w;; slot1_writes (K := K) (R := R) p c k []) Batch_default
        (λ _ b, batch_table (store c) b M' /\ held (mkBatchStore (store c) b) !! skey (K := K) (R := R) kb = None)) as (b & u & E & P).
      { apply runs_bind. eapply runs_weaken; [exact Hw|]. intros u b T'. exists (Batch_del b (skey (K := K) (R := R) kb)), tt.
        split; [by apply slot1_writes_nil|]. destruct (segment_dropped (store c) b M' kb T') as (? & ? & _). done. }
      exists b, u. by rewrite Bw.
    - exists s'. split; [done|]. unfold batch_table in T'. rewrite <- Es in T', N. split; [done|].
      unfold fetch. rewrite (get_table (mkCollection s' (epoch c + 1)) M' k kb T' Ek), (slot1_of_none (mkCollection s' (epoch c + 1)) k kb Ek N). cbn [mbind outcome_bind].
      by destruct (old_of M' kb). }
  destruct object as [|kv object].
  - intros Room. destruct (End (delete kb M) _ B) as (s' & E & T' & F).
    + destruct (old_of M kb) as [old|] eqn:Eo.
      * pose proof (runs_purge_writes (store c) Batch_default M k kb false T Hk Ek Room) as P. rewrite Eo in P.
        destruct P as (b & u & E & T' & _). exists b, u. split; [|done]. revert E. unfold purge_writes, mbind, enc_bind.
        destruct (delete_into (store c) k old Batch_default) as [b1 [[]| |]]; done.
      * apply runs_ret. pose proof (rows_without _ _ _ _ T Hk Ek) as W. rewrite Eo in W. by rewrite W.
    + exists s'. split; [done|]. split; [done|]. rewrite F. unfold old_of. by rewrite lookup_delete_eq.
  - destruct (try_from_map (kv :: object)) as [r|e|]; [|unfold commit_built; by rewrite B..].
    intros Hf Room m Em. destruct (End (<[kb := (k, r)]> M) _ B) as (s' & E & T' & F).
    + by apply save_declared.
    + exists s'. split; [done|]. split; [done|]. rewrite F. unfold old_of. rewrite lookup_insert_eq. simpl. by rewrite Em.
Qed.
End Verbs.

(** * Witnesses *)

Definition sample_merged : sample_row_type := (7, ([104; 105], (-3, tt))).

Lemma sample_rows_fit r : r = sample_merged \/ r = (7, ([], (0, tt))) -> row_fits sample_kb (sample_id, r).
Proof.
  intros Hr. split; [apply sample_fits|]. split; [apply sample_fits|].
  destruct Hr as [->| ->]; simpl; unfold word_ok, bits; simpl; repeat split; first [lia | by vm_compute].
Qed.

Lemma sample_merge_grouped (r : sample_row_type) : is_Some (match sample_group sample_id r with Ok g => Some g | _ => None end).
Proof. destruct r as (a & b & x & []). eexists. vm_compute. reflexivity. Qed.

(** The sample table has room for another version of its row. *)
Lemma sample_over (r : sample_row_type) :
  save_room ({[ sample_kb := (sample_id, sample_row) ]} : sample_table) sample_kb sample_id r.
Proof.
  unfold save_room, old_of. rewrite lookup_singleton_eq, delete_singleton_eq. unfold rows_of. rewrite map_to_list_empty.
  split; (apply sample_count_room; [apply sample_merge_grouped|by vm_compute]).
Qed.

Lemma merge_refines_witness :
  exists s', merge Debug 64 sample_saved sample_id [([97], DUInt 7)] = (mkCollection s' 2, Ok tt) /\
  table_at (K := krow sample_key) (R := sample_row_type) (held s') {[ sample_kb := (sample_id, sample_merged) ]} /\
  get (mkCollection s' 2) sample_id = Ok (Some sample_merged).
Proof.
  pose proof (merge_refines Debug 64 sample_saved {[ sample_kb := (sample_id, sample_row) ]} sample_id sample_kb [([97], DUInt 7)]
    (row_to_map _ sample_row) sample_saved_at ltac:(by vm_compute) ltac:(apply sample_fits)) as P.
  assert (try_from_map (extend (row_to_map (fields sample_schema) sample_row) [([97], DUInt 7)]) = Ok sample_merged) as E by by vm_compute.
  rewrite E in P. destruct P as (s' & E1 & T & G).
  - apply Forall_singleton. by left.
  - done.
  - unfold stored_map, old_of. by rewrite lookup_singleton_eq.
  - apply sample_rows_fit. by left.
  - apply sample_over.
  - exists s'. rewrite insert_singleton_eq in T. done.
Defined.

Lemma replace_refines_witness :
  (exists s', replace Debug sample_saved sample_id [([97], DUInt 7)] = (mkCollection s' 2, Ok tt) /\
   table_at (K := krow sample_key) (R := sample_row_type) (held s') {[ sample_kb := (sample_id, (7, ([], (0, tt)))) ]} /\
   fetch Debug 64 (mkCollection s' 2) sample_id = Ok (Some (row_to_map (fields sample_schema) (7, ([], (0, tt)))))) /\
  exists got, replace Debug sample_saved sample_id [([97], DStr [])] = (sample_saved, Err (KindMismatch [97] name_UInt got)).
Proof.
  pose proof (λ object, replace_refines Debug 64 sample_saved {[ sample_kb := (sample_id, sample_row) ]} sample_id sample_kb object
    sample_saved_at ltac:(by vm_compute) ltac:(apply sample_fits) ltac:(apply sample_fits)) as P. split.
  - specialize (P [([97], DUInt 7)]).
    assert (try_from_map (R := sample_row_type) [([97], DUInt 7)] = Ok (7, ([], (0, tt)))) as E by by vm_compute. rewrite E in P.
    destruct (P ltac:(apply Forall_singleton; by left) ltac:(apply sample_rows_fit; by right) (sample_over _) _ eq_refl) as (s' & E1 & T & G).
    exists s'. rewrite insert_singleton_eq in T. done.
  - exists name_Str. specialize (P [([97], DStr [])]).
    assert (try_from_map (R := sample_row_type) [([97], DStr [])] = Err (KindMismatch [97] name_UInt name_Str)) as E by by vm_compute.
    rewrite E in P. apply P. apply Forall_singleton. by left.
Defined.
