(* ===== verification/Typing.v ===== *)
(** * Every decoded value has its Rust type

    A Rust value of a machine type is a number, a byte string or a [Vocab] here,
    and its type's range is not part of it.  [typed] is that range.  The theorem:
    whatever bytes a payload has and whatever a document map carries, the values
    a decoder or the bridge hands out are in the range of their declared type,
    and the payload of a row of such values is a byte string again. *)
From S2P Require Import Prelude Errors Slots VarInt Vocab DynValue Quant Fields Payload Keys Index Collection Bridge.

(** ** The types *)

Definition label_typed (v : Vocab) : Prop := forall s, name v = Some s -> utf8_valid s = true.

Definition typed (k : FieldKind) : rust_type k -> Prop :=
  match k return rust_type k -> Prop with
  | KUInt n | KVarInt n => word_ok n false
  | KSInt n => word_ok n true
  | KUuid _ => λ v, length v = 16%nat /\ bytes_ok v
  | KFixedBytes n => λ v, length v = n /\ bytes_ok v
  | KReverse n signed => word_ok n signed
  | KVector n signed _ => Forall (word_ok n signed)
  | KVocab n => λ v, label_typed v /\ forall i, id v = Some i -> 0 <= i < 256 ^ Z.of_nat n
  | KOffset _ => λ v, i64_ok v = true
  | KQuant _ => λ v, 0 <= v < 2 ^ 64
  | KString => λ v, utf8_valid v = true /\ bytes_ok v
  | KBytes => bytes_ok
  end.

(** A type has at least one byte, and a [Vocab]'s id at most sixteen. *)
Definition kind_wf (k : FieldKind) : Prop :=
  match k with
  | KUInt n | KSInt n | KVarInt n | KReverse n _ | KVector n _ _ => (0 < n <= 8)%nat
  | KVocab n => (n <= 16)%nat
  | _ => True
  end.

Fixpoint row_typed (fs : list FieldSchema) : row fs -> Prop :=
  match fs return row fs -> Prop with
  | [] => λ _, True
  | f :: fs => λ r, typed (kind f) r.1 /\ row_typed fs r.2
  end.

Definition field_wf (f : FieldSchema) : Prop := kind_wf (kind f) /\ typed (kind f) (default_expr f).

(** The values a [DynamicValue] can carry. *)
Definition value_typed (v : DynamicValue) : Prop :=
  match v with
  | DUInt n => 0 <= n < 2 ^ 64
  | DInt n => i64_ok n = true
  | DF64 n => 0 <= n < 2 ^ 64
  | DStr s => utf8_valid s = true /\ bytes_ok s
  | DBytes b => bytes_ok b
  | _ => True
  end.

(** * Lemmas *)

Lemma bind_Ok {E A B} (m : outcome E A) (f : A -> outcome E B) b : (m ≫= f) = Ok b -> exists a, m = Ok a /\ f a = Ok b.
Proof. destruct m; [by eexists|done..]. Qed.

Lemma or_panic_Ok {E A} (o : option A) a : or_panic (E := E) o = Ok a -> o = Some a.
Proof. destruct o; [by intros [= ->]|done]. Qed.

Lemma liftp_Ok {E A} (o : outcome unit A) a : liftp (E := E) o = Ok a -> o = Ok a.
Proof. destruct o; [by intros [= ->]|done..]. Qed.

(** Splits every bind that answered. *)
Ltac unbind :=
  repeat match goal with
  | H : (_ ≫= _) = Ok _ |- _ => apply bind_Ok in H as (? & ? & H)
  | H : or_panic _ = Ok _ |- _ => apply or_panic_Ok in H
  | H : liftp _ = Ok _ |- _ => apply liftp_Ok in H
  | H : Ok _ = Ok _ |- _ => injection H as <-
  | H : Ok (_, _) = Ok (_, _) |- _ => injection H as <- <-
  | x : (_ * _)%type |- _ => destruct x
  end.

Lemma cut_ok b off n s : bytes_ok b -> cut b off n = Ok s -> bytes_ok s /\ zlen s = n.
Proof.
  intros H C. apply or_panic_Ok in C. split; [by eapply slice_ok|]. apply slice_length in C. lia.
Qed.

Lemma rev_decode_typed n signed s v :
  (0 < n)%nat -> bytes_ok s -> rev_decode n signed s = Ok v -> word_ok n signed v.
Proof.
  intros Hn Hs D. unfold rev_decode in D. unbind. apply array_of_Ok in H as [-> L].
  pose proof (be_word n s Hs ltac:(unfold zlen; lia)) as W. unfold word_ok in W.
  assert (0 <= not_w (bits n) (be_val s) < 2 ^ bits n) as B.
  { rewrite not_w_spec, wrap_small by (unfold bits in *; lia). lia. }
  destruct signed; [|done]. apply to_signed_word; [done|]. destruct (bits_half n Hn) as [E P].
  rewrite lxor_sign by (unfold bits in *; lia). zcases.
Qed.

Lemma add_i64_typed p a b v : add_i64 p a b = Ok v -> i64_ok v = true.
Proof.
  unfold add_i64. destruct (i64_ok (a + b)) eqn:E; [by intros [= <-]|]. destruct p; [done|]. intros [= <-].
  pose proof (to_signed_word 8 (wrap 64 (a + b)) ltac:(lia)) as W. change (bits 8) with 64 in W.
  assert (to_signed 64 (wrap 64 (a + b)) = to_signed 64 (a + b)) as Eq.
  { unfold to_signed, wrap. by rewrite Zmod_mod. }
  rewrite Eq in W. destruct W as [_ W]; [apply Z.mod_pos_bound; lia|].
  change (bits 8 - 1) with 63 in W. unfold i64_ok, in_range. rewrite andb_true_iff, !Z.leb_le. lia.
Qed.

Lemma varint_decode_typed p n b v w : varint_decode p (bits n) b = Ok (v, w) -> word_ok n false v.
Proof.
  unfold varint_decode. destruct b as [|x b]; [done|]. destruct (_ <? _); [done|]. intros D. unbind.
  apply Z.mod_pos_bound. rewrite bits_pow. apply pow256_pos.
Qed.

Lemma Vocab_from_wire_typed n s v :
  bytes_ok s -> zlen s = Z.of_nat n -> Vocab_from_wire n s = Ok v -> typed (KVocab n) v.
Proof.
  intros Hs L D. unfold Vocab_from_wire in D. unbind. unfold from_be in *. case_decide; [|done].
  match goal with E : Some _ = Some _ |- _ => injection E as <- end. split; [done|]. intros i [= <-].
  rewrite <- L. by apply be_val_bound.
Qed.

(** ** The decoders *)

Lemma field_dec_typed p k b off len v o :
  kind_wf k -> bytes_ok b -> field_dec p k b off len = Ok (v, o) -> typed k v.
Proof.
  intros Wf Hb D. destruct k; cbn [field_dec kind_wf typed] in *; unbind;
    repeat match goal with H : cut b _ _ = Ok _ |- _ => apply (cut_ok b _ _ _ Hb) in H as [? ?] end.
  - by apply be_word.
  - apply to_signed_word; [lia|]. by apply be_word.
  - split; [unfold zlen in *; lia|done].
  - split; [unfold zlen in *; lia|done].
  - eapply rev_decode_typed; [|done..]. lia.
  - by eapply varint_decode_typed.
  - eapply elems_loop_typed; [| |done]; [lia|]. by eapply (slice_ok b).
  - by eapply Vocab_from_wire_typed.
  - unfold offset_decode in *. unbind. by eapply add_i64_typed.
  - unfold Quant_decode in *. unbind. by eapply dequantize_range.
  - unfold from_utf8 in *. case_match; [|done]. match goal with E : Some _ = Some _ |- _ => injection E as <- end. done.
  - done.
Qed.

Fixpoint locals_typed (fs : list FieldSchema) : locals fs -> Prop :=
  match fs return locals fs -> Prop with
  | [] => λ _, True
  | f :: fs => λ l, (forall v, l.1 = Some v -> typed (kind f) v) /\ locals_typed fs l.2
  end.

Lemma hot_dec_typed p b hot_end fs : Forall field_wf fs -> bytes_ok b -> forall off l,
  hot_dec p b hot_end off fs = Ok l -> locals_typed fs l.
Proof.
  intros Wf Hb. induction Wf as [|f fs [Hk Hd] Wf IH]; intros off l D; [done|]. cbn [hot_dec locals_typed] in *.
  destruct (hot (kind f)); unbind; cbn [fst snd]; (split; [|by eapply IH]); [|done].
  intros v' [= <-]. destruct (_ <? _); [by eapply field_dec_typed|]. by unbind.
Qed.

Lemma cold_field_typed p b pos cold_pos f v o :
  field_wf f -> bytes_ok b -> cold_field p b pos cold_pos f = Ok (v, o) -> typed (kind f) v.
Proof.
  intros [Hk Hd] Hb D. unfold cold_field in D. destruct (_ <? _); unbind; [|done].
  destruct (_ =? _); unbind; [|done]. by eapply field_dec_typed.
Qed.

Lemma cold_dec_typed p b fs : Forall field_wf fs -> bytes_ok b -> forall pos cold_pos l r,
  locals_typed fs l -> cold_dec p b pos cold_pos fs l = Ok r -> row_typed fs r.
Proof.
  intros Wf Hb. induction Wf as [|f fs Hf Wf IH]; intros pos cold_pos l r Hl D; [done|].
  cbn [cold_dec locals_typed row_typed] in *. destruct Hl as [Hv Hl].
  destruct (hot (kind f)); unbind; cbn [fst snd]; (split; [|by eapply IH]); [by apply Hv|]. by eapply cold_field_typed.
Qed.

(** ** The bridge *)

Lemma flip_typed n signed v : (0 < n)%nat -> fits n signed v = true -> word_ok n signed (flip n signed v).
Proof.
  intros Hn F. apply fits_ok in F as [F1 F2]. unfold flip. destruct signed; cbn [word_ok].
  - specialize (F1 eq_refl). split; [done|]. unfold Z.lnot. lia.
  - specialize (F2 eq_refl). rewrite not_w_spec, wrap_small by (unfold bits in *; lia). lia.
Qed.

Lemma from_value_typed field k got v : kind_wf k -> value_typed got -> from_value field k got = Ok v -> typed k v.
Proof.
  intros Wf Hg D. unfold from_value, kind_mismatch, bad_value in D.
  destruct k; cbn [kind_wf typed] in *; destruct got; cbn [value_typed] in Hg; try done; repeat case_match; unbind; try done.
  - match goal with E : fits _ _ _ = true |- _ => apply fits_ok in E as [_ E]; by apply E end.
  - match goal with E : fits _ _ _ = true |- _ => apply fits_ok in E as [E _]; split; [lia|by apply E] end.
  - apply flip_typed; [lia|done].
  - apply Z.mod_pos_bound. rewrite bits_pow. apply pow256_pos.
  - unfold Vector_decode_payload in D. unbind. eapply elems_loop_typed; [| |done]; [lia|done].
  - rewrite vocab_id_narrows in H by done. injection H as <-. destruct (Z.ltb_spec v0 (256 ^ Z.of_nat n)); unbind; [|done].
    split; [done|]. intros i [= <-]. lia.
  - split; [|done]. intros l [= <-]. by destruct Hg.
Qed.

Lemma row_from_map_typed fs map : Forall field_wf fs -> Forall (λ kv, value_typed kv.2) map -> forall r,
  row_from_map fs map = Ok r -> row_typed fs r.
Proof.
  intros Wf Hm. induction Wf as [|f fs [Hk Hd] Wf IH]; intros r D; [done|]. cbn [row_from_map row_typed] in *. unbind.
  cbn [fst snd]. split; [|by apply IH]. unfold from_map_field in *. destruct (btree_get _ _) as [got|] eqn:G; [|by unbind].
  apply btree_get_In in G. rewrite Forall_forall in Hm. eapply from_value_typed; [done|apply (Hm _ G)|done].
Qed.

(** ** Payloads of typed rows *)

Lemma rev_encode_bytes n signed v : bytes_ok (rev_encode n signed v).
Proof. unfold rev_encode. destruct signed; apply be_bytes_ok. Qed.

Lemma elems_bytes_ok n v : bytes_ok (elems_bytes n v).
Proof.
  unfold elems_bytes. induction v as [|e v IH]; [constructor|]. apply Forall_app. split; [|done]. apply Forall_rev, be_bytes_ok.
Qed.

Lemma field_enc_bytes p k v buf b :
  kind_wf k -> typed k v -> bytes_ok buf -> field_enc p k v buf = Ok b -> bytes_ok b.
Proof.
  intros Wf Hv Hb D. destruct k; cbn [field_enc kind_wf typed] in *; unbind;
    try (apply Forall_app; split; [done|]).
  - apply be_bytes_ok.
  - apply be_bytes_ok.
  - by destruct Hv.
  - by destruct Hv.
  - apply rev_encode_bytes.
  - eapply varint_bytes; [| |done]; [apply Hv|constructor].
  - rewrite elems_fold. apply Forall_app. split; [|apply elems_bytes_ok]. apply Forall_app. split; [done|apply be_bytes_ok].
  - unfold Vocab_wire16 in *. destruct (id v) as [i|]; [|done]. unbind. eapply slice_ok; [|done].
    apply Forall_app. split; [|apply be_bytes_ok]. apply Forall_replicate. unfold byte_ok. lia.
  - unfold offset_encode in *. destruct (_ && _); [|done]. unbind. apply be_bytes_ok.
  - unfold Quant_encode in *. unbind. apply be_bytes_ok.
  - by destruct Hv.
  - done.
Qed.

Lemma field_len_nonneg p k v n : field_len p k v = Ok n -> 0 <= n.
Proof.
  destruct k; cbn [field_len field_width]; intros D; unbind; try lia; try apply zlen_nonneg.
  pose proof (zlen_nonneg v). lia.
Qed.

Lemma hot_enc_bytes p fs : Forall field_wf fs -> forall r buf b,
  row_typed fs r -> bytes_ok buf -> hot_enc p fs r buf = Ok b -> bytes_ok b.
Proof.
  induction 1 as [|f fs [Wf _] _ IH]; intros r buf b Hr Hb D; cbn [hot_enc row_typed] in *; [by unbind|].
  destruct Hr as [Hv Hr]. unbind. eapply IH; [done| |done]. destruct (hot (kind f)); [by eapply field_enc_bytes|by unbind].
Qed.

Lemma byte_mod v : byte_ok (wrap 8 v).
Proof. unfold byte_ok, wrap. change 256 with (2 ^ 8). by apply Z.mod_pos_bound. Qed.

Lemma cold_enc_bytes p fs : Forall field_wf fs -> forall pos r buf b,
  row_typed fs r -> bytes_ok buf -> cold_enc p pos fs r buf = Ok b -> bytes_ok b.
Proof.
  induction 1 as [|f fs [Wf _] _ IH]; intros pos r buf b Hr Hb D; cbn [cold_enc row_typed] in *; [by unbind|].
  destruct Hr as [Hv Hr]. unbind. eapply IH; [done| |done]. destruct (hot (kind f)); unbind; [done|].
  eapply field_enc_bytes; [done..| |done]. rewrite put_len_varint in *.
  match goal with H : varint_encode _ _ _ = Ok _ |- _ => eapply varint_bytes; [| |exact H] end; [by eapply field_len_nonneg|].
  apply Forall_app. split; [done|]. constructor; [apply byte_mod|constructor].
Qed.

Lemma encode_payload_bytes p s r b :
  0 <= layout_version s < 256 -> Forall field_wf (fields s) -> row_typed (fields s) r ->
  Payload.encode_payload p s r = Ok b -> bytes_ok b.
Proof.
  intros Hver Wf Hr D. unfold Payload.encode_payload in D. destruct s as [ver fs]. cbn [layout_version fields] in *.
  assert (bytes_ok ([ver] ++ be_bytes 2 0)) as B0 by (constructor; [done|apply be_bytes_ok]).
  destruct fs as [|f fs]; [by unbind|]. cbv zeta in D. unbind. eapply cold_enc_bytes; [done|done| |done].
  match goal with H : hot_enc _ _ _ _ = Ok _ |- _ => apply hot_enc_bytes in H; [|done..] end.
  apply Forall_app. split; [by apply Forall_take|]. apply Forall_app. split; [apply be_bytes_ok|by apply Forall_drop].
Qed.

(** * The theorem *)

(** C31: type safety of the readers.  Whatever bytes a payload has, the row
    [decode_payload] answers has every field in the range of its Rust type; so
    does the row the bridge builds from a map, with declared defaults for the
    names it lacks; and the payload of a typed row is a byte string. *)
Theorem readers_typed p s b map r :
  0 <= layout_version s < 256 -> Forall field_wf (fields s) -> bytes_ok b -> Forall (λ kv, value_typed kv.2) map ->
  (Payload.decode_payload p s b = Ok r \/ try_from_map map = Ok r) ->
  row_typed (fields s) r /\ forall b', Payload.encode_payload p s r = Ok b' -> bytes_ok b'.
Proof.
  intros Hver Wf Hb Hm D. assert (row_typed (fields s) r) as Hr; [|split; [done|]; intros; by eapply encode_payload_bytes].
  destruct D as [D|D].
  - unfold Payload.decode_payload in D. cbv zeta in D. unbind. eapply cold_dec_typed; [done..| |done]. by eapply hot_dec_typed.
  - by eapply row_from_map_typed.
Qed.

(** * Witness *)

Lemma readers_typed_witness :
  row_typed (fields sample_schema) (65535, ([], (0, tt))) /\
  forall b', Payload.encode_payload Debug sample_schema (65535, ([], (0, tt))) = Ok b' -> bytes_ok b'.
Proof.
  refine (readers_typed Debug sample_schema [1] [([97], DUInt 65535)] _ _ _ _ _ _).
  - simpl. lia.
  - repeat constructor; unfold word_ok, bits; simpl; lia.
  - repeat constructor; unfold byte_ok; lia.
  - repeat constructor. simpl. lia.
  - right. by vm_compute.
Defined.
