(* ===== verification/Graph.v ===== *)
(** * Graph edges (okm-core, [model/graph.rs])

    A graph is one edge collection: an edge is a row under its [edge_id] that
    names two nodes, a predicate and a payload, and four traversal faces repeat
    it under either endpoint, with and without the predicate.  This file holds
    the wire form of nodes and bodies and every verb of the handle; [GraphEdges],
    [GraphWrites], [GraphScans], [GraphRows], [GraphReindex] and [GraphAttrs] hold
    the theorems.

    A method that takes [&mut self] is a step on the handle; one that also takes
    a batch is a step on both. *)
From S2P Require Import Prelude Errors Storage Slots VarInt Vocab DynValue Segment Fields Keys Index Meta Collection.

Definition EDGE_OUT_SLOT : Slot := 0x06.
Definition EDGE_IN_SLOT : Slot := 0x07.
Definition EDGE_PREDICATE_OUT_SLOT : Slot := 0x08.
Definition EDGE_PREDICATE_IN_SLOT : Slot := 0x09.

(** ** Nodes *)

Record NodeRef : Type := mkRef { ns : bytes; pkey : bytes }.

#[export] Instance NodeRef_eq_dec : EqDecision NodeRef.
Proof. solve_decision. Defined.

Definition NodeRef_new (ns_prefix key : bytes) : outcome unit NodeRef :=
  assert_ (zlen ns_prefix =? 2);; Ok (mkRef ns_prefix key).

Definition ns_id (r : NodeRef) : Z := be_val (ns r).

Definition NodeRef_encode (p : profile) (r : NodeRef) : outcome unit bytes :=
  buf ← put_len p (ns r) (zlen (pkey r)); Ok (buf ++ pkey r).

(** [NodeRef::decode]: the node at the front and the bytes it took. *)
Definition NodeRef_decode (p : profile) (wire : bytes) : outcome unit (option (NodeRef * Z)) :=
  if zlen wire <? 3 then Ok None
  else
    tl ← or_panic (slice wire 2 (zlen wire));
    lw ← take_len p tl;
    match lw with
    | None => Ok None
    | Some (len, len_n) =>
        start ← add_w p 64 2 len_n;
        total ← add_w p 64 start len;
        if zlen wire <? total then Ok None
        else key ← or_panic (slice wire start total); Ok (Some (mkRef (take 2 wire) key, total))
    end.

(** ** The edge's key *)

Record EdgeKey : Type := mkEdgeKey { edge_id : Z }.

(** ["edge_id"] *)
Definition edge_id_name : bytes := [101; 100; 103; 101; 95; 105; 100].

#[export] Instance edge_key : KeyEncode EdgeKey := {
  KEY_LEN := 8;
  FIELDS := [mkDesc edge_id_name TU64 8];
  encode k := Ok (be_bytes 8 (edge_id k));
  decode b := s ← or_panic (slice b 0 8); Ok (mkEdgeKey (be_val s));
  encode_prefix_named k buf names :=
    match names with
    | [] => Ok (buf, 0)
    | [n] => assert_ (bool_decide (n = edge_id_name));; Ok (buf ++ be_bytes 8 (edge_id k), 8)
    | _ => Panic
    end;
  prefix_width_named names :=
    match names with
    | [] => Ok 0
    | [n] => assert_ (bool_decide (n = edge_id_name));; Ok 8
    | _ => Panic
    end
}.

(** [NodeSet] and [GraphEncode]: the member collections of a declaration. *)
Class GraphEncode (E : Type) : Type := { NS_VALUES : list Z }.

Definition contains {E} `{GraphEncode E} (ns : Z) : bool := bool_decide (ns ∈ NS_VALUES (E := E)).

(** ** Bodies *)

Record EdgeHead : Type := mkHead { src : NodeRef; dst : NodeRef; predicate : bytes }.

Record EdgeBody : Type := mkBody { b_src : NodeRef; b_dst : NodeRef; predicate_vocab_id : Z; payload : bytes }.

Definition edge_body (p : profile) (head : EdgeHead) (predicate_id : Z) (payload : bytes) : outcome unit bytes :=
  s ← NodeRef_encode p (src head);
  d ← NodeRef_encode p (dst head);
  Ok (s ++ d ++ be_bytes 2 predicate_id ++ payload).

Definition decode_body (p : profile) (b : bytes) : outcome unit EdgeBody :=
  r ← NodeRef_decode p b;
  '(s, n1) ← or_panic r;
  tl ← or_panic (slice b n1 (zlen b));
  r ← NodeRef_decode p tl;
  '(d, n2) ← or_panic r;
  after_dst ← add_w p 64 n1 n2;
  x ← or_panic (byte_at b after_dst);
  y ← or_panic (byte_at b (after_dst + 1));
  rest ← or_panic (slice b (after_dst + 2) (zlen b));
  Ok (mkBody s d (be_val [x; y]) rest).

(** ** The handle *)

Record Graph (S : Type) : Type := mkGraph { g_store : S; g_vocab : VocabCache }.
Arguments mkGraph {S} _ _.
Arguments g_store {S} _.
Arguments g_vocab {S} _.

Definition Graph_new {S} (store : S) : Graph S := mkGraph store (VocabCache_new PREDICATE_VOCAB).

Section Graph.
Context {S : Type} `{VirtualStorage S} {E : Type} `{HD : !Document EdgeKey E} `{HG : !GraphEncode E}.
Variables (p : profile) (capacity : Z).

(** The edge namespace. *)
Definition graph_ns : bytes := NS_PREFIX (K := EdgeKey) (R := E).

(** ** Keys *)

Definition face_key {X} (slot : Slot) (segments : list bytes) : outcome X bytes :=
  k ← write_slot graph_ns slot; Ok (fold_left app segments k).

Definition edge_primary_key {X} (id : Z) : outcome X bytes :=
  k ← write_slot graph_ns PRIMARY_SLOT; Ok (k ++ be_bytes 8 id).

Definition dynamic_key {X} (id : Z) : outcome X bytes :=
  k ← write_slot graph_ns DYNAMIC_SLOT; Ok (k ++ be_bytes 8 id).

Fixpoint members_loop (sides : list (bytes * NodeRef)) : result unit :=
  match sides with
  | [] => Ok tt
  | (side, node) :: sides =>
      if contains (E := E) (ns_id node) then members_loop sides
      else
        hi ← or_panic (byte_at graph_ns 0);
        lo ← or_panic (byte_at graph_ns 1);
        Err (EdgeNotMember side (ns_id node) (be_val [hi; lo]))
  end.

Definition check_members (s d : NodeRef) : result unit := members_loop [(name_src, s); (name_dst, d)].

(** ** Predicates *)

Definition predicate_id (label : bytes) : enc (Graph S) Z := λ g,
  let '(c, st, r) := id_for 2 p (g_vocab g) (g_store g) graph_ns label in (mkGraph st c, r).

Definition predicate_vocab_name (id : Z) : enc (Graph S) (option bytes) := λ g,
  let '(c, r) := name_for 2 (g_vocab g) (g_store g) graph_ns id in (mkGraph (g_store g) c, r).

(** [vocab.id_get]: the predicate's number, when it has one. *)
Definition predicate_get (label : bytes) : enc (Graph S) (option Z) := λ g,
  let '(c, r) := id_get 2 (g_vocab g) (g_store g) graph_ns label in (mkGraph (g_store g) c, r).

(** [out.sort_by_key(|(id, _)| *id)] *)
Definition id_le (a b : Z * bytes) : Prop := a.1 <= b.1.

#[local] Instance id_le_dec : RelDecision id_le.
Proof. intros a b. unfold id_le. apply _. Defined.

Definition predicates (g : Graph S) : result (list (Z * bytes)) :=
  pk ← write_slot graph_ns PREDICATE_VOCAB_ID_SLOT;
  pairs ← scan_suffix_kv (g_store g) pk;
  Ok (merge_sort id_le
    (omap (λ kv : bytes * bytes, if zlen kv.1 =? 2 then n ← from_utf8 kv.2; Some (be_val kv.1, n) else None) pairs)).

(** ** Writing *)

Definition on_graph {A} (m : enc (Graph S) A) : enc (Graph S * Batch) A := λ '(g, b),
  let '(g, r) := m g in ((g, b), r).

Definition put_op (k v : bytes) : enc (Graph S * Batch) unit := λ '(g, b), ((g, Batch_put b k v), Ok tt).
Definition del_op (k : bytes) : enc (Graph S * Batch) unit := λ '(g, b), ((g, Batch_del b k), Ok tt).

Fixpoint put_ops (l : list (bytes * bytes)) : enc (Graph S * Batch) unit :=
  match l with [] => mret tt | (k, v) :: l => put_op k v;; put_ops l end.
Fixpoint del_ops (l : list (bytes * bytes)) : enc (Graph S * Batch) unit :=
  match l with [] => mret tt | (k, v) :: l => del_op k;; del_ops l end.

(** The keys of an edge under the four traversal faces. *)
Definition face_keys {X} (s d : bytes) (predicate_be : bytes) (id : Z) : outcome X (list bytes) :=
  let id_be := be_bytes 8 id in
  o ← face_key EDGE_OUT_SLOT [s; d; id_be];
  i ← face_key EDGE_IN_SLOT [d; s; id_be];
  po ← face_key EDGE_PREDICATE_OUT_SLOT [predicate_be; s; d; id_be];
  pi ← face_key EDGE_PREDICATE_IN_SLOT [predicate_be; d; s; id_be];
  Ok [o; i; po; pi].

Definition write_into (head : EdgeHead) (edge : E) (id : Z) : enc (Graph S * Batch) unit :=
  reading (λ _, check_members (src head) (dst head));;
  pid ← on_graph (predicate_id (predicate head));
  bytes_ ← lift (encode_payload edge);
  body ← lift (edge_body p head pid bytes_);
  s ← lift (NodeRef_encode p (src head));
  d ← lift (NodeRef_encode p (dst head));
  dk ← lift (dynamic_key id);
  del_op dk;;
  pk ← lift (edge_primary_key id);
  put_op pk body;;
  faces ← lift (face_keys s d (be_bytes 2 pid) id);
  put_ops (map (λ k, (k, [])) faces);;
  entries ← lift (index_entries (mkEdgeKey id) edge graph_ns);
  put_ops entries.

Definition link_into (head : EdgeHead) (edge : E) (id : Z) : enc (Graph S * Batch) unit :=
  write_into head edge id.

Definition unlink_into (id : Z) : enc (Graph S * Batch) unit :=
  pk ← lift (edge_primary_key id);
  raw ← reading (λ gb : Graph S * Batch, vs_get (g_store gb.1) pk);
  bytes_ ← reading (λ _, ok_or (EdgeNotFound id) raw);
  parsed ← lift (decode_body p bytes_);
  reading (λ _, check_members (b_src parsed) (b_dst parsed));;
  s ← lift (NodeRef_encode p (b_src parsed));
  d ← lift (NodeRef_encode p (b_dst parsed));
  edge ← lift (decode_payload (payload parsed) : outcome unit E);
  del_op pk;;
  faces ← lift (face_keys s d (be_bytes 2 (predicate_vocab_id parsed)) id);
  del_ops (map (λ k, (k, [])) faces);;
  entries ← lift (index_entries (mkEdgeKey id) edge graph_ns);
  del_ops entries.

(** A batch of its own, committed when it was built. *)
Definition in_batch (m : enc (Graph S * Batch) unit) : enc (Graph S) unit := λ g,
  let '((g, b), r) := m (g, Batch_default) in
  match r with
  | Ok _ => let '(st, r) := vs_commit_batch (g_store g) b in (mkGraph st (g_vocab g), r)
  | r => (g, r)
  end.

Definition link (head : EdgeHead) (edge : E) (id : Z) : enc (Graph S) unit :=
  pk ← lift (edge_primary_key id);
  raw ← reading (λ g : Graph S, vs_get (g_store g) pk);
  match raw with
  | Some _ => reading (λ _, Err (EdgeAlreadyLive id))
  | None => in_batch (write_into head edge id)
  end.

Definition unlink (id : Z) : enc (Graph S) unit := in_batch (unlink_into id).

(** ** Open attributes *)

(** The closure [|name| dict.id_for(store, E::NS_PREFIX, name)]. *)
Definition attr_id_for (name : bytes) : enc (VocabCache * S) Z := λ '(d, st),
  let '(d, st, r) := id_for 2 p d st graph_ns name in ((d, st), r).

Definition replace_into (id : Z) (attrs : list (bytes * DynamicValue)) : enc (Graph S * Batch) unit :=
  key ← lift (dynamic_key id);
  del_op key;;
  match attrs with
  | [] => mret tt
  | _ =>
      body ← (λ '(g, b),
        let '((_, st), r) := put_all p attr_id_for attrs [] (VocabCache_new FIELD_VOCAB, g_store g) in
        ((mkGraph st (g_vocab g), b), r));
      put_op key body
  end.

Definition attrs (g : Graph S) (id : Z) : result (option (list (bytes * DynamicValue))) :=
  slot1_map p capacity (g_store g) graph_ns (be_bytes 8 id).

(** ** Reading one edge *)

Definition get_edge (g : Graph S) (id : Z) : result (option EdgeBody) :=
  pk ← edge_primary_key id;
  raw ← vs_get (g_store g) pk;
  match raw with
  | None => Ok None
  | Some body =>
      parsed ← liftp (decode_body p body);
      match check_members (b_src parsed) (b_dst parsed) with
      | Ok _ => Ok (Some parsed)
      | Err _ => Ok None
      | Panic => Panic
      end
  end.

Definition edge (g : Graph S) (id : Z) : result (option E) :=
  body ← get_edge g id;
  match body with
  | None => Ok None
  | Some b => e ← liftp (decode_payload (payload b)); Ok (Some e)
  end.

(** ** Ids *)

(** [<[u8; 8]>::try_from(..).ok().map(u64::from_be_bytes)] *)
Definition id_of (sfx : bytes) : option Z := if zlen sfx =? 8 then Some (be_val sfx) else None.

Definition edge_ids (g : Graph S) : result (list Z) :=
  prefix ← write_slot graph_ns PRIMARY_SLOT;
  pairs ← scan_suffix_kv (g_store g) prefix;
  Ok (omap (M := list) (λ kv : bytes * bytes, id_of kv.1) pairs).

Definition max_edge_id (g : Graph S) : result (option Z) :=
  begin ← write_slot graph_ns PRIMARY_SLOT;
  match last (vs_scan_range_iter (g_store g) begin (prefix_end begin)) with
  | None => Ok None
  | Some item =>
      kv ← item;
      let want := zlen begin + KEY_LEN (K := EdgeKey) in
      if negb (zlen kv.1 =? want) then Err (edge_primary_length (zlen kv.1) want)
      else
        tl ← or_panic (slice kv.1 (zlen begin) (zlen kv.1));
        k ← liftp (decode (K := EdgeKey) tl); Ok (Some (edge_id k))
  end.

Definition ids_after_endpoint (suffixes : list bytes) : list Z :=
  omap (λ sfx : bytes, if 8 <? zlen sfx then tl ← slice sfx (zlen sfx - 8) (zlen sfx); id_of tl else None) suffixes.

Definition ids_after_pair (suffixes : list bytes) : list Z := omap id_of suffixes.

(** ** Traversal *)

Definition traverse (g : Graph S) (slot : Slot) (node : NodeRef) : result (list Z) :=
  n ← liftp (NodeRef_encode p node);
  k ← face_key slot [n];
  sfx ← vs_scan_suffix (g_store g) k; Ok (ids_after_endpoint sfx).

Definition traverse_pair (g : Graph S) (slot : Slot) (from to : NodeRef) : result (list Z) :=
  f ← liftp (NodeRef_encode p from);
  t ← liftp (NodeRef_encode p to);
  k ← face_key slot [f; t];
  sfx ← vs_scan_suffix (g_store g) k; Ok (ids_after_pair sfx).

Definition out_edges (g : Graph S) (s : NodeRef) : result (list Z) := traverse g EDGE_OUT_SLOT s.
Definition in_edges (g : Graph S) (d : NodeRef) : result (list Z) := traverse g EDGE_IN_SLOT d.
Definition out_edges_to (g : Graph S) (s d : NodeRef) : result (list Z) := traverse_pair g EDGE_OUT_SLOT s d.
Definition in_edges_from (g : Graph S) (d s : NodeRef) : result (list Z) := traverse_pair g EDGE_IN_SLOT d s.

(** The shared head of the typed queries: no number, no answer. *)
Definition of_predicate (label : bytes) (f : Z -> Graph S -> result (list Z)) : enc (Graph S) (list Z) :=
  i ← predicate_get label;
  match i with
  | Some i => reading (f i)
  | None => mret []
  end.

Definition typed_edges (slot : Slot) (label : bytes) (node : NodeRef) : enc (Graph S) (list Z) :=
  of_predicate label (λ i g,
    n ← liftp (NodeRef_encode p node);
    k ← face_key slot [be_bytes 2 i; n];
    sfx ← vs_scan_suffix (g_store g) k; Ok (ids_after_endpoint sfx)).

Definition typed_out (label : bytes) (s : NodeRef) : enc (Graph S) (list Z) := typed_edges EDGE_PREDICATE_OUT_SLOT label s.
Definition typed_in (label : bytes) (d : NodeRef) : enc (Graph S) (list Z) := typed_edges EDGE_PREDICATE_IN_SLOT label d.

Definition typed_out_to (label : bytes) (s d : NodeRef) : enc (Graph S) (list Z) :=
  of_predicate label (λ i g,
    s ← liftp (NodeRef_encode p s);
    d ← liftp (NodeRef_encode p d);
    k ← face_key EDGE_PREDICATE_OUT_SLOT [be_bytes 2 i; s; d];
    sfx ← vs_scan_suffix (g_store g) k; Ok (ids_after_pair sfx)).

Definition typed_in_from (label : bytes) (d s : NodeRef) : enc (Graph S) (list Z) :=
  of_predicate label (λ i g,
    d ← liftp (NodeRef_encode p d);
    s ← liftp (NodeRef_encode p s);
    k ← face_key EDGE_PREDICATE_IN_SLOT [be_bytes 2 i; d; s];
    sfx ← vs_scan_suffix (g_store g) k; Ok (ids_after_pair sfx)).

Definition edges_of_predicate (label : bytes) : enc (Graph S) (list Z) :=
  of_predicate label (λ i g,
    k ← face_key EDGE_PREDICATE_OUT_SLOT [be_bytes 2 i];
    sfx ← vs_scan_suffix (g_store g) k; Ok (ids_after_endpoint sfx)).

Definition by_attr_face (g : Graph S) (slot : Slot) (encoded : bytes) : result (list Z) :=
  k ← face_key slot [encoded];
  sfx ← vs_scan_suffix (g_store g) k; Ok (omap (M := list) id_of sfx).

(** ** Neighbours *)

Fixpoint endpoints (g : Graph S) (ids : list Z) (side : EdgeBody -> NodeRef) : result (list NodeRef) :=
  match ids with
  | [] => Ok []
  | id :: ids =>
      body ← get_edge g id;
      rest ← endpoints g ids side;
      Ok (match body with Some b => side b :: rest | None => rest end)
  end.

Definition out_nodes (g : Graph S) (s : NodeRef) : result (list NodeRef) :=
  ids ← out_edges g s; endpoints g ids b_dst.
Definition in_nodes (g : Graph S) (d : NodeRef) : result (list NodeRef) :=
  ids ← in_edges g d; endpoints g ids b_src.
Definition typed_out_nodes (label : bytes) (s : NodeRef) : enc (Graph S) (list NodeRef) :=
  ids ← typed_out label s; reading (λ g, endpoints g ids b_dst).
Definition typed_in_nodes (label : bytes) (d : NodeRef) : enc (Graph S) (list NodeRef) :=
  ids ← typed_in label d; reading (λ g, endpoints g ids b_src).

(** ** Rebuilding the faces *)

(** The loop's variables. *)
Record Reindex : Type := mkReindex { rx_store : S; rx_batch : Batch; rebuilt : Z }.

Definition rx_commit : enc Reindex unit := λ s,
  let '(st, r) := vs_commit_batch (rx_store s) (rx_batch s) in (mkReindex st Batch_default (rebuilt s), r).

Definition rx_full (chunk : Z) : enc Reindex unit := λ s,
  if chunk <=? zlen (ops (rx_batch s)) then rx_commit s else (s, Ok tt).

Definition rx_flush : enc Reindex unit := λ s,
  match ops (rx_batch s) with [] => (s, Ok tt) | _ => rx_commit s end.

Definition rx_del (key : bytes) : enc Reindex unit := λ s,
  (mkReindex (rx_store s) (Batch_del (rx_batch s) key) (rebuilt s), Ok tt).

(** One row rebuilt: its puts and the count. *)
Definition rx_row (keys : list bytes) : enc Reindex unit := λ s,
  (mkReindex (rx_store s) (fold_left (λ b k, Batch_put b k []) keys (rx_batch s)) (rebuilt s + 1), Ok tt).

Definition rx_scan (prefix : bytes) : enc Reindex (list pair_item) :=
  reading (λ s, Ok (vs_scan_range_iter (rx_store s) prefix (prefix_end prefix))).

Fixpoint rx_sweep (chunk : Z) (items : list pair_item) : enc Reindex unit :=
  match items with
  | [] => mret tt
  | item :: items =>
      kv ← reading (λ _, item);
      rx_del kv.1;;
      rx_full chunk;;
      rx_sweep chunk items
  end.

Fixpoint rx_sweeps (chunk : Z) (slots : list Slot) : enc Reindex unit :=
  match slots with
  | [] => mret tt
  | slot :: slots =>
      prefix ← reading (λ _, face_key slot []);
      items ← rx_scan prefix;
      rx_sweep chunk items;;
      rx_sweeps chunk slots
  end.

(** The keys a primary entry calls for; none where the walk skips it. *)
Definition row_keys (n : Z) (kv : bytes * bytes) : result (option (list bytes)) :=
  suffix ← or_panic (slice kv.1 n (zlen kv.1));
  match id_of suffix with
  | None => Ok None
  | Some id =>
      parsed ← liftp (decode_body p kv.2);
      match check_members (b_src parsed) (b_dst parsed) with
      | Ok _ =>
          s ← liftp (NodeRef_encode p (b_src parsed));
          d ← liftp (NodeRef_encode p (b_dst parsed));
          keys ← face_keys s d (be_bytes 2 (predicate_vocab_id parsed)) id; Ok (Some keys)
      | Err _ => Ok None
      | Panic => Panic
      end
  end.

Fixpoint rx_derive (chunk n : Z) (items : list pair_item) : enc Reindex unit :=
  match items with
  | [] => mret tt
  | item :: items =>
      kv ← reading (λ _, item);
      keys ← reading (λ _, row_keys n kv);
      match keys with
      | None => mret tt
      | Some keys => rx_row keys;; rx_full chunk
      end;;
      rx_derive chunk n items
  end.

Definition reindex_body (chunk : Z) : enc Reindex unit :=
  rx_sweeps chunk [EDGE_OUT_SLOT; EDGE_IN_SLOT; EDGE_PREDICATE_OUT_SLOT; EDGE_PREDICATE_IN_SLOT];;
  rx_flush;;
  primary ← reading (λ _, face_key PRIMARY_SLOT []);
  items ← rx_scan primary;
  rx_derive chunk (zlen primary) items;;
  rx_flush.

Definition reindex (chunk : Z) : enc (Graph S) Z := λ g,
  let '(s, r) := reindex_body (chunk `max` 1) (mkReindex (g_store g) Batch_default 0) in
  (mkGraph (rx_store s) (g_vocab g), r;; Ok (rebuilt s)).
End Graph.
