(* ===== verification/GraphEdges.v ===== *)
(** * Edges refine a map (okm-core, [model/graph.rs])

    The specification of a graph is a finite map from ids to edges.  [edges_at]
    says that the contents of an engine represent such a map: every edge stands
    under the primary slot, and the four traversal faces and the declared faces
    hold exactly the entries the edges produce.

    The theorems: references are self-delimiting; [link_into] and [unlink_into]
    in one batch are insertion and deletion, so that a rewrite is one commit;
    [link] and [unlink] refuse by an error that leaves the store alone. *)
From S2P Require Import Prelude Errors Storage Slots VarInt Vocab DynValue Segment Fields Payload Keys Index Meta Reduces Collection Declared Table Graph.

(** ** References *)

Definition node_ok (r : NodeRef) : Prop :=
  length (ns r) = 2%nat /\ bytes_ok (ns r) /\ bytes_ok (pkey r) /\ zlen (pkey r) < 2 ^ 49.

Definition node_bytes (r : NodeRef) : bytes := ns r ++ encoded (zlen (pkey r)) ++ pkey r.

Lemma NodeRef_encode_ok p r : node_ok r -> NodeRef_encode p r = Ok (node_bytes r).
Proof.
  intros (_ & _ & _ & L). unfold NodeRef_encode. destruct (put_take_len p (ns r) (zlen (pkey r))) as (-> & _); [split; [apply zlen_nonneg|done]|].
  cbn [mbind outcome_bind]. unfold node_bytes. by rewrite app_assoc.
Qed.

(** The reader finds the reference at the front and says where it ends. *)
Lemma NodeRef_decode_ok p r rest :
  node_ok r -> NodeRef_decode p (node_bytes r ++ rest) = Ok (Some (r, zlen (node_bytes r))).
Proof.
  intros (L & _ & _ & Z). destruct r as [n k]. unfold node_bytes in *. cbn [ns pkey] in *.
  pose proof (zlen_nonneg k) as Nk. destruct (put_take_len p [] (zlen k)) as (_ & We & T); [done|].
  unfold NodeRef_decode. assert (zlen n = 2) as Ln by (unfold zlen; rewrite L; done).
  rewrite (proj2 (Z.ltb_ge _ _)) by (pose proof (zlen_nonneg rest); zlia).
  pose proof (slice_all_from n ((encoded (zlen k) ++ k) ++ rest)) as Sl. rewrite Ln in Sl.
  rewrite <- !app_assoc in Sl. rewrite <- !app_assoc, Sl. cbn [or_panic mbind outcome_bind]. rewrite T. cbn [mbind outcome_bind].
  unfold add_w. rewrite (proj2 (Z.ltb_lt (2 + zlen (encoded (zlen k))) _)) by lia. cbn [mbind outcome_bind].
  rewrite (proj2 (Z.ltb_lt _ _)) by lia. cbn [mbind outcome_bind].
  rewrite (proj2 (Z.ltb_ge _ _)) by (pose proof (zlen_nonneg rest); zlia).
  pose proof (slice_app (n ++ encoded (zlen k)) k rest) as Sk. rewrite <- !app_assoc in Sk.
  replace (zlen (n ++ encoded (zlen k)) + zlen k) with (2 + zlen (encoded (zlen k)) + zlen k) in Sk by zlia.
  replace (zlen (n ++ encoded (zlen k))) with (2 + zlen (encoded (zlen k))) in Sk by zlia. rewrite Sk.
  cbn [or_panic mbind outcome_bind]. do 3 f_equal; [|zlia].
  f_equal. rewrite <- L. apply take_app_length.
Qed.

(** A reference is never the beginning of another one. *)
Lemma node_prefix_free a b x y : node_ok a -> node_ok b -> node_bytes a ++ x = node_bytes b ++ y -> a = b /\ x = y.
Proof.
  intros Ha Hb E. pose proof (NodeRef_decode_ok Debug a x Ha) as Da. rewrite E, NodeRef_decode_ok in Da by done.
  injection Da as -> _. split; [done|]. by apply app_inv_head in E.
Qed.

Lemma node_bytes_ok r : node_ok r -> bytes_ok (node_bytes r).
Proof.
  intros (_ & N & K & L). unfold node_bytes. apply Forall_app. split; [done|]. apply Forall_app. split; [|done].
  apply encoded_ok.
Qed.

(** ** The identity *)

#[export] Program Instance edge_key_laws : KeyLaws EdgeKey :=
  { key_ok k := 0 <= edge_id k < 2 ^ 64; key_norm k := k }.
Next Obligation.
  intros [i] Hi. cbn [edge_id] in Hi. exists (be_bytes 8 i). split; [done|]. split; [apply be_bytes_zlen|]. intros rest.
  cbn [decode edge_key]. pose proof (slice_0_app (be_bytes 8 i) rest) as S. rewrite be_bytes_zlen in S. change (Z.of_nat 8) with 8 in S. rewrite S.
  cbn [or_panic mbind outcome_bind]. rewrite be_val_be_bytes_small by (change (256 ^ Z.of_nat 8) with (2 ^ 64); lia). done.
Qed.
Next Obligation. done. Qed.
Next Obligation.
  intros [i] buf names Hi. unfold encode_field_named. cbn [encode edge_key mbind outcome_bind edge_id]. generalize 0 as w. revert buf.
  induction names as [|n names IH]; intros buf w; [exists [], w; by rewrite app_nil_r|].
  cbn [names_loop write_named FIELDS edge_key fd_name fd_width].
  case_bool_decide; cbn [mbind outcome_bind]; [|apply IH].
  pose proof (slice_0_app (be_bytes 8 i) []) as S. rewrite app_nil_r, be_bytes_zlen in S. change (Z.of_nat 8) with 8 in S. change (0 + 8) with 8. rewrite S.
  cbn [or_panic mbind outcome_bind]. destruct (IH (buf ++ be_bytes 8 i) (w + 8)) as (x & w' & E). rewrite E.
  exists (be_bytes 8 i ++ x), w'. by rewrite app_assoc.
Qed.

(** The edge of the specification. *)
Record Edge (E : Type) : Type := mkEdge { e_src : NodeRef; e_dst : NodeRef; e_pred : Z; e_data : E }.
Arguments mkEdge {E} _ _ _ _.
Arguments e_src {E} _.
Arguments e_dst {E} _.
Arguments e_pred {E} _.
Arguments e_data {E} _.

Section Edges.
Context {E : Type} `{HD : !Document EdgeKey E} `{HDL : !DocumentLaws EdgeKey E} `{HG : !GraphEncode E}.

Abbreviation h := (graph_ns (E := E)).
Abbreviation edges := (gmap Z (Edge E)).

Implicit Types (x : Edge E) (M N : edges) (id : Z) (key : bytes).

(** ** The representation *)

Definition edge_slots : list Slot := [EDGE_OUT_SLOT; EDGE_IN_SLOT; EDGE_PREDICATE_OUT_SLOT; EDGE_PREDICATE_IN_SLOT].

Definition gslots : list Slot := edge_slots ++ live_faces EdgeKey E.

Definition member (r : NodeRef) : Prop := contains (E := E) (ns_id r) = true.

Definition edge_fits id x : Prop :=
  0 <= id < 2 ^ 64 /\ node_ok (e_src x) /\ node_ok (e_dst x) /\ 0 <= e_pred x < 256 ^ 2 /\
  doc_ok (K := EdgeKey) (e_data x) /\ member (e_src x) /\ member (e_dst x).

Definition gkey (s : Slot) (t : bytes) : bytes := h ++ slot_bytes s ++ t.

Definition prik id : bytes := gkey PRIMARY_SLOT (be_bytes 8 id).

Definition edge_bytes x : bytes :=
  node_bytes (e_src x) ++ node_bytes (e_dst x) ++ be_bytes 2 (e_pred x) ++ payload_b (K := EdgeKey) (e_data x).

(** What an entry of the edge carries before its id. *)
Definition face_tail (s : Slot) x : bytes :=
  if s =? EDGE_OUT_SLOT then node_bytes (e_src x) ++ node_bytes (e_dst x)
  else if s =? EDGE_IN_SLOT then node_bytes (e_dst x) ++ node_bytes (e_src x)
  else if s =? EDGE_PREDICATE_OUT_SLOT then be_bytes 2 (e_pred x) ++ node_bytes (e_src x) ++ node_bytes (e_dst x)
  else be_bytes 2 (e_pred x) ++ node_bytes (e_dst x) ++ node_bytes (e_src x).

Definition faces4 id x : list bytes := map (λ s, gkey s (face_tail s x ++ be_bytes 8 id)) edge_slots.

Definition declared_entries id x : list (bytes * bytes) :=
  match index_entries (mkEdgeKey id) (e_data x) h with Ok es => es | _ => [] end.

Definition gentries id x : list (bytes * bytes) := map (λ k, (k, [])) (faces4 id x) ++ declared_entries id x.

Definition gface key : Prop := exists s t, s ∈ gslots /\ key = gkey s t.

Record edges_at (c : gmap bytes bytes) M : Prop := {
  ea_fits id x : M !! id = Some x -> edge_fits id x;
  ea_primary id : 0 <= id < 2 ^ 64 -> c !! prik id = edge_bytes <$> M !! id;
  ea_faces key v : gface key -> (c !! key = Some v <-> exists id x, M !! id = Some x /\ newest (gentries id x) key = Some v)
}.

(** ** Keys of a graph *)

Lemma edge_slots_ok s : s ∈ edge_slots -> slot_ok s /\ 6 <= s <= 9.
Proof.
  unfold edge_slots, EDGE_OUT_SLOT, EDGE_IN_SLOT, EDGE_PREDICATE_OUT_SLOT, EDGE_PREDICATE_IN_SLOT, slot_ok.
  rewrite !elem_of_cons, elem_of_nil. intros [-> |[-> |[-> |[-> |[]]]]]; lia.
Qed.

Lemma gslot_ok s : s ∈ gslots -> slot_ok s /\ 6 <= s.
Proof using HDL.
  intros [Hs|Hs]%elem_of_app; [apply edge_slots_ok in Hs as [? ?]; split; [done|lia]|].
  apply live_slot in Hs as [? ?]. split; [done|]. unfold Slot in *. lia.
Qed.

Lemma gkey_slot s s' t t' : slot_ok s -> slot_ok s' -> gkey s t = gkey s' t' -> s = s' /\ t = t'.
Proof.
  intros Hs Hs' Eq. unfold gkey in Eq. apply app_inv_head in Eq. pose proof Eq as Es.
  apply slot_bytes_prefix_free in Es; [|done..]. subst s'. split; [done|]. by apply app_inv_head in Eq.
Qed.

Lemma gface_not s t : slot_ok s -> s < 6 -> ~ gface (gkey s t).
Proof using HDL.
  intros Hs Lt (s' & t' & Hin & Ek). apply gslot_ok in Hin as [Ok Ge]. apply gkey_slot in Ek as [<- _]; [|done..].
  unfold Slot in *. lia.
Qed.

Lemma prik_not_face id : ~ gface (prik id).
Proof using HDL. apply gface_not; [apply PRIMARY_ok|unfold PRIMARY_SLOT; lia]. Qed.

Lemma be8_inj i j : 0 <= i < 2 ^ 64 -> 0 <= j < 2 ^ 64 -> be_bytes 8 i = be_bytes 8 j -> i = j.
Proof.
  intros Hi Hj Eq%(f_equal be_val). by rewrite !be_val_be_bytes_small in Eq by (change (256 ^ Z.of_nat 8) with (2 ^ 64); lia).
Qed.

Lemma prik_inj i j : 0 <= i < 2 ^ 64 -> 0 <= j < 2 ^ 64 -> prik i = prik j -> i = j.
Proof. intros Hi Hj Eq%gkey_slot; [|apply PRIMARY_ok..]. apply be8_inj; [done..|apply Eq]. Qed.

Lemma edge_id_ok id : 0 <= id < 2 ^ 64 -> id_ok (mkEdgeKey id).
Proof. done. Qed.

Lemma declared_ok id x : edge_fits id x -> index_entries (mkEdgeKey id) (e_data x) h = Ok (declared_entries id x).
Proof.
  intros (Hi & _ & _ & _ & Hx & _). unfold declared_entries.
  by destruct (doc_entries (mkEdgeKey id) (e_data x) h (edge_id_ok id Hi) Hx) as (es & -> & _).
Qed.

(** Where the entries of an edge stand: under a face, and the id comes last. *)
Lemma entry_shape id x key : edge_fits id x -> key ∈ map fst (gentries id x) ->
  exists s t, s ∈ gslots /\ key = gkey s (t ++ be_bytes 8 id).
Proof.
  intros Fit Hin. unfold gentries in Hin. rewrite map_app, elem_of_app in Hin. destruct Hin as [Hin|Hin].
  - rewrite map_map in Hin. cbn [fst] in Hin. rewrite map_id in Hin. apply list_elem_of_fmap in Hin as (s & -> & Hs).
    exists s, (face_tail s x). split; [|done]. apply elem_of_app. by left.
  - apply list_elem_of_fmap in Hin as (e & -> & He). pose proof (declared_ok id x Fit) as Ed. destruct Fit as (Hi & _ & _ & _ & Hx & _).
    destruct (doc_entries (mkEdgeKey id) (e_data x) h (edge_id_ok id Hi) Hx) as (es & Ee & F). rewrite Ed in Ee. injection Ee as <-.
    rewrite Forall_forall in F. destruct (F e He) as (s & t & b & Hs & [= <-] & ->). exists s, t. split; [|done]. apply elem_of_app. by right.
Qed.

Lemma entry_gface id x key : edge_fits id x -> key ∈ map fst (gentries id x) -> gface key.
Proof. intros Fit Hin. destruct (entry_shape id x key Fit Hin) as (s & t & Hs & ->). by eexists s, _. Qed.

(** Two edges never share an entry. *)
Lemma entry_edge id x id' x' key : edge_fits id x -> edge_fits id' x' ->
  key ∈ map fst (gentries id x) -> key ∈ map fst (gentries id' x') -> id = id'.
Proof using HDL.
  intros Fit Fit' Hin Hin'. destruct (entry_shape _ _ _ Fit Hin) as (s & t & Hs & ->).
  destruct (entry_shape _ _ _ Fit' Hin') as (s' & t' & Hs' & Ek). apply gkey_slot in Ek as [_ Ek]; [|by apply gslot_ok..].
  apply app_inj_2 in Ek as [_ Ek]; [|by rewrite !be_bytes_length]. apply be8_inj; [apply Fit|apply Fit'|done].
Qed.

(** ** Insertion and deletion *)

Lemma edges_insert c c' M id x :
  edges_at c M -> M !! id = None -> edge_fits id x ->
  c' !! prik id = Some (edge_bytes x) ->
  (forall id', 0 <= id' < 2 ^ 64 -> id' <> id -> c' !! prik id' = c !! prik id') ->
  (forall key, gface key -> c' !! key = match newest (gentries id x) key with Some v => Some v | None => c !! key end) ->
  edges_at c' (<[id := x]> M).
Proof using HDL.
  intros [Fit Pri Fac] Nid Fx C1 C2 C3. split.
  - intros id' x' [[<- <-]|[_ ?]]%lookup_insert_Some; [done|by apply Fit].
  - intros id' Hi. destruct (decide (id' = id)) as [->|Ne]; [by rewrite lookup_insert_eq, C1|].
    by rewrite lookup_insert_ne, C2, Pri.
  - intros key v Hf. rewrite (C3 _ Hf). destruct (newest (gentries id x) key) as [w|] eqn:Nw.
    + split.
      * intros [= <-]. exists id, x. by rewrite lookup_insert_eq.
      * intros (id' & x' & [[<- <-]|[Ne EM]]%lookup_insert_Some & Ev); [congruence|]. exfalso. apply Ne.
        apply newest_Some in Nw, Ev. eapply (entry_edge id x id' x' key); [done|by apply Fit|..]; apply list_elem_of_fmap; by eexists (_, _).
    + rewrite (Fac _ _ Hf). split.
      * intros (id' & x' & EM & Ev). exists id', x'. rewrite lookup_insert_ne; [done|congruence].
      * intros (id' & x' & [[<- <-]|[Ne EM]]%lookup_insert_Some & Ev); [congruence|by exists id', x'].
Qed.

Lemma edges_delete c c' M id x :
  edges_at c M -> M !! id = Some x ->
  c' !! prik id = None ->
  (forall id', 0 <= id' < 2 ^ 64 -> id' <> id -> c' !! prik id' = c !! prik id') ->
  (forall key, gface key -> c' !! key = if decide (key ∈ map fst (gentries id x)) then None else c !! key) ->
  edges_at c' (delete id M).
Proof using HDL.
  intros [Fit Pri Fac] Eid C1 C2 C3. split.
  - intros id' x' [_ EM]%lookup_delete_Some. by apply Fit.
  - intros id' Hi. destruct (decide (id' = id)) as [->|Ne]; [by rewrite lookup_delete_eq, C1|].
    by rewrite lookup_delete_ne, C2, Pri.
  - intros key v Hf. rewrite (C3 _ Hf). case_decide as Hin.
    + split; [done|]. intros (id' & x' & [Ne EM]%lookup_delete_Some & Ev). exfalso. apply Ne.
      apply newest_Some in Ev. eapply (entry_edge id x id' x' key); [by apply Fit|by apply Fit|done|].
      apply list_elem_of_fmap. by eexists (_, _).
    + rewrite (Fac _ _ Hf). split; intros (id' & x' & EM & Ev).
      * exists id', x'. rewrite lookup_delete_ne; [done|]. intros <-. rewrite Eid in EM. injection EM as <-.
        apply Hin. apply newest_Some in Ev. apply list_elem_of_fmap. by eexists (_, _).
      * apply lookup_delete_Some in EM as [_ EM]. by exists id', x'.
Qed.

(** Contents that agree on the graph's keys represent the same edges. *)
Lemma edges_frame c c' M :
  (forall id, c' !! prik id = c !! prik id) -> (forall key, gface key -> c' !! key = c !! key) -> edges_at c M -> edges_at c' M.
Proof.
  intros F1 F2 [Fit Pri Fac]. split; [done|..].
  - intros id Hi. by rewrite F1, Pri.
  - intros key v Hf. by rewrite F2, Fac.
Qed.
End Edges.
