(* ===== verification/GraphWrites.v ===== *)
(** * Linking and unlinking (okm-core, [model/graph.rs])

    The write verbs over the representation of [GraphEdges]: each is an
    insertion or a deletion on the map, staged in the caller's batch, and the
    vocabulary of predicates grows by interning, beside the batch. *)
From S2P Require Import Prelude Errors Storage Slots VarInt Vocab DynValue Segment Fields Payload Keys Index Meta Reduces Collection Declared Table Graph GraphEdges.

Section Writes.
Context {E : Type} `{HD : !Document EdgeKey E} `{HDL : !DocumentLaws EdgeKey E} `{HG : !GraphEncode E}.
Context {S : Type} `{ReliableStorage S}.
Variable p : profile.

Abbreviation h := (graph_ns (E := E)).

Implicit Types (x : Edge E) (M N : gmap Z (Edge E)) (id : Z) (key : bytes) (g : Graph S) (b : Batch).

(** ** Keys *)

Lemma write_slot_gkey {X} (s : Slot) t : slot_ok s ->
  (k ← write_slot h s; Ok (k ++ t)) = (Ok (gkey (E := E) s t) : outcome X bytes).
Proof. intros Hs. rewrite write_slot_ok by done. cbn [mbind outcome_bind]. unfold gkey. by rewrite app_assoc. Qed.

Lemma edge_primary_key_ok {X} id : edge_primary_key (E := E) id = (Ok (prik (E := E) id) : outcome X bytes).
Proof. apply write_slot_gkey, PRIMARY_ok. Qed.

Lemma dynamic_key_ok {X} id : dynamic_key (E := E) id = (Ok (gkey (E := E) DYNAMIC_SLOT (be_bytes 8 id)) : outcome X bytes).
Proof. apply write_slot_gkey, DYNAMIC_ok. Qed.

Lemma face_key_ok {X} (s : Slot) segs : slot_ok s ->
  face_key (E := E) s segs = (Ok (gkey (E := E) s (concat segs)) : outcome X bytes).
Proof.
  intros Hs. unfold face_key. rewrite write_slot_ok by done. cbn [mbind outcome_bind].
  do 2 f_equal. unfold gkey. rewrite app_assoc. generalize (h ++ slot_bytes s). induction segs as [|a segs IH]; intros k; simpl.
  - by rewrite app_nil_r.
  - by rewrite IH, app_assoc.
Qed.

Lemma face_keys_ok {X} id x :
  face_keys (E := E) (node_bytes (e_src x)) (node_bytes (e_dst x)) (be_bytes 2 (e_pred x)) id
    = (Ok (faces4 (E := E) id x) : outcome X (list bytes)).
Proof.
  unfold face_keys. rewrite !face_key_ok by (apply edge_slots_ok; unfold edge_slots; rewrite !elem_of_cons; naive_solver).
  cbn [mbind outcome_bind]. unfold faces4, edge_slots. cbn [map]. do 2 f_equal; [|f_equal; [|f_equal; [|f_equal]]];
    unfold face_tail; cbn [Z.eqb EDGE_OUT_SLOT EDGE_IN_SLOT EDGE_PREDICATE_OUT_SLOT EDGE_PREDICATE_IN_SLOT Pos.eqb concat];
    by rewrite app_nil_r, <- !app_assoc.
Qed.

Lemma edge_body_ok x label : node_ok (e_src x) -> node_ok (e_dst x) ->
  edge_body p (mkHead (e_src x) (e_dst x) label) (e_pred x) (payload_b (K := EdgeKey) (e_data x)) = Ok (edge_bytes x).
Proof.
  intros Hs Hd. unfold edge_body. cbn [src dst]. rewrite !NodeRef_encode_ok by done. done.
Qed.

Lemma decode_body_ok id x : edge_fits id x ->
  decode_body p (edge_bytes x) = Ok (mkBody (e_src x) (e_dst x) (e_pred x) (payload_b (K := EdgeKey) (e_data x))).
Proof.
  intros (_ & Hs & Hd & Hp & _). unfold decode_body, edge_bytes. rewrite NodeRef_decode_ok by done. cbn [mbind outcome_bind or_panic].
  set (sw := node_bytes (e_src x)). set (dw := node_bytes (e_dst x)). set (pl := payload_b _).
  rewrite slice_all_from. cbn [mbind outcome_bind or_panic]. unfold dw. rewrite NodeRef_decode_ok by done. fold dw.
  cbn [mbind outcome_bind or_panic]. unfold add_w.
  assert (zlen sw + zlen dw < 2 ^ 64) as Lt.
  { unfold sw, dw, node_bytes. destruct Hs as (L1 & _ & _ & K1), Hd as (L2 & _ & _ & K2). zlen_facts.
    pose proof (put_take_len p [] (zlen (Graph.pkey (e_src x))) ltac:(zlia)) as (_ & ? & _).
    pose proof (put_take_len p [] (zlen (Graph.pkey (e_dst x))) ltac:(zlia)) as (_ & ? & _). unfold zlen in *. rewrite !length_app. lia. }
  rewrite (proj2 (Z.ltb_lt _ _)) by done. cbn [mbind outcome_bind].
  assert (exists y z, be_bytes 2 (e_pred x) = [y; z]) as (y & z & Ep).
  { pose proof (be_bytes_length 2 (e_pred x)) as L. destruct (be_bytes 2 (e_pred x)) as [|y [|z [|]]]; try done. by eexists _, _. }
  rewrite Ep. rewrite (app_assoc sw). replace (zlen sw + zlen dw) with (zlen (sw ++ dw)) by zlia.
  cbn [app]. rewrite byte_at_app. cbn [mbind outcome_bind or_panic]. rewrite byte_at_next. cbn [mbind outcome_bind or_panic].
  pose proof (slice_all_from ((sw ++ dw) ++ [y; z]) pl) as Sl. rewrite <- (app_assoc (sw ++ dw)) in Sl. cbn [app] in Sl.
  replace (zlen ((sw ++ dw) ++ [y; z])) with (zlen (sw ++ dw) + 2) in Sl by zlia. rewrite Sl. cbn [mbind outcome_bind or_panic].
  rewrite <- Ep, be_val_be_bytes_small by done. done.
Qed.

(** ** The batch *)

Abbreviation Stt := (Graph S * Batch)%type.

(** The contents once the batch has been committed. *)
Definition staged (gb : Stt) : gmap bytes bytes := apply_batch (contents (g_store gb.1)) (ops gb.2).

(** The key of an edge's open attributes. *)
Definition dynk id : bytes := gkey (E := E) DYNAMIC_SLOT (be_bytes 8 id).

Lemma dynk_not_face id : ~ gface (E := E) (dynk id).
Proof using HDL. apply gface_not; [apply DYNAMIC_ok|unfold DYNAMIC_SLOT; lia]. Qed.

Lemma dynk_not_prik id id' : dynk id <> prik (E := E) id'.
Proof. intros [Eq _]%gkey_slot; [done|apply DYNAMIC_ok|apply PRIMARY_ok]. Qed.

Definition put_list (l : list (bytes * bytes)) : list (bytes * option bytes) := map (λ kv, (kv.1, Some kv.2)) l.
Definition del_list (l : list (bytes * bytes)) : list (bytes * option bytes) := map (λ kv, (kv.1, None)) l.

Definition add_ops b (l : list (bytes * option bytes)) : Batch := mkBatch (ops b ++ l).

Lemma runs_put_op k v g b (Q : unit -> Stt -> Prop) : Q tt (g, add_ops b [(k, Some v)]) -> runs (put_op k v) (g, b) Q.
Proof. intros HQ. by eexists _, tt. Qed.

Lemma runs_del_op k g b (Q : unit -> Stt -> Prop) : Q tt (g, add_ops b [(k, None)]) -> runs (del_op k) (g, b) Q.
Proof. intros HQ. by eexists _, tt. Qed.

Lemma add_ops_app b l l' : add_ops (add_ops b l) l' = add_ops b (l ++ l').
Proof. unfold add_ops. cbn [ops]. by rewrite app_assoc. Qed.

Lemma runs_put_ops l : forall g b (Q : unit -> Stt -> Prop), Q tt (g, add_ops b (put_list l)) -> runs (put_ops l) (g, b) Q.
Proof.
  induction l as [|[k v] l IH]; intros g b Q HQ; simpl.
  - apply runs_ret. unfold add_ops in HQ. rewrite app_nil_r in HQ. by destruct b.
  - apply runs_bind, runs_put_op, IH. by rewrite add_ops_app.
Qed.

Lemma runs_del_ops l : forall g b (Q : unit -> Stt -> Prop), Q tt (g, add_ops b (del_list l)) -> runs (del_ops l) (g, b) Q.
Proof.
  induction l as [|[k v] l IH]; intros g b Q HQ; simpl.
  - apply runs_ret. unfold add_ops in HQ. rewrite app_nil_r in HQ. by destruct b.
  - apply runs_bind, runs_del_op, IH. by rewrite add_ops_app.
Qed.

Lemma apply_put_list (c : gmap bytes bytes) l key :
  apply_batch c (put_list l) !! key = match newest l key with Some v => Some v | None => c !! key end.
Proof.
  rewrite <- lookup_overlay. f_equal. unfold apply_batch, overlay, put_list. revert c.
  induction l as [|[k v] l IH]; intros c; [done|]. cbn [map fold_left fst snd apply_op]. apply IH.
Qed.

Lemma apply_put_list_other (c : gmap bytes bytes) l key : key ∉ map fst l -> apply_batch c (put_list l) !! key = c !! key.
Proof. intros Nk. by rewrite apply_put_list, (proj2 (newest_None _ _) Nk). Qed.

Lemma apply_del_list (c : gmap bytes bytes) l key :
  apply_batch c (del_list l) !! key = if decide (key ∈ map fst l) then None else c !! key.
Proof.
  rewrite <- lookup_without. f_equal. unfold apply_batch, without, del_list. revert c.
  induction l as [|[k v] l IH]; intros c; [done|]. cbn [map fold_left fst snd apply_op]. apply IH.
Qed.

Lemma apply_one (c : gmap bytes bytes) k o l key : apply_batch c ((k, o) :: l) !! key = apply_batch (apply_op c (k, o)) l !! key.
Proof. done. Qed.

(** A batch reads through where it agrees below. *)
Lemma apply_batch_below (c c' : gmap bytes bytes) l key : c' !! key = c !! key -> apply_batch c' l !! key = apply_batch c l !! key.
Proof. intros Eq. rewrite !apply_batch_pending. by destruct (pending _ _). Qed.

Record graph_batch (gb : Stt) (ls : list bytes) M N : Prop := {
  gb_vocab : holds 2 h PREDICATE_VOCAB (g_vocab gb.1) (g_store gb.1) ls;
  gb_store : edges_at (contents (g_store gb.1)) M;
  gb_staged : edges_at (staged gb) N;
  gb_apart : Forall (λ op, ~ on_faces h PREDICATE_VOCAB op.1) (ops gb.2)
}.

(** ** The predicate *)

Lemma PREDICATE_ok : faces_ok PREDICATE_VOCAB.
Proof. unfold faces_ok, slot_ok. cbn. unfold PREDICATE_VOCAB_ID_SLOT, PREDICATE_VOCAB_NAME_SLOT. lia. Qed.

Lemma vocab_apart (f : VocabFaces) (s : Slot) t : faces_ok f -> slot_ok s -> s <> id_slot f -> s <> name_slot f ->
  ~ on_faces h f (gkey (E := E) s t).
Proof.
  intros (Oi & On & _) Hs Ni Nn (y & Ek).
  assert (gkey (E := E) s t = gkey (E := E) (id_slot f) y \/ gkey (E := E) s t = gkey (E := E) (name_slot f) y)
    as [X|X] by apply Ek; apply gkey_slot in X as [X _]; done.
Qed.

(** The keys of edges are on no vocabulary of the collection. *)
Lemma low_faces_apart (f : VocabFaces) : faces_ok f -> 1 < id_slot f < 6 -> 1 < name_slot f < 6 ->
  (forall id, ~ on_faces h f (prik (E := E) id)) /\ (forall id, ~ on_faces h f (gkey (E := E) DYNAMIC_SLOT (be_bytes 8 id))) /\
  forall key, gface (E := E) key -> ~ on_faces h f key.
Proof using HDL.
  intros Hf Hi Hn. unfold Slot in *. split; [|split].
  - intros id. apply vocab_apart; [done|apply PRIMARY_ok|unfold PRIMARY_SLOT; lia..].
  - intros id. apply vocab_apart; [done|apply DYNAMIC_ok|unfold DYNAMIC_SLOT; lia..].
  - intros key (s & t & Hs & ->). apply gslot_ok in Hs as [Ok Ge]. unfold Slot in *. apply vocab_apart; [done..|lia|lia].
Qed.

Lemma predicate_apart :
  (forall id, ~ on_faces h PREDICATE_VOCAB (prik (E := E) id)) /\ (forall id, ~ on_faces h PREDICATE_VOCAB (gkey (E := E) DYNAMIC_SLOT (be_bytes 8 id))) /\
  forall key, gface (E := E) key -> ~ on_faces h PREDICATE_VOCAB key.
Proof using HDL. apply low_faces_apart; [apply PREDICATE_ok|done..]. Qed.

Lemma prik_apart id : ~ on_faces h PREDICATE_VOCAB (prik (E := E) id).
Proof using HDL. exact (proj1 predicate_apart id). Qed.

Lemma gface_apart key : gface (E := E) key -> ~ on_faces h PREDICATE_VOCAB key.
Proof using HDL. exact (proj2 (proj2 predicate_apart) key). Qed.

(** The vocabulary has a number for the label, or one to give. *)
Definition vocab_room (ls : list bytes) (label : bytes) : Prop :=
  position label ls = None -> zlen ls + 1 < 256 ^ 2.

Lemma runs_predicate_id gb ls M N label (Q : Z -> Stt -> Prop) :
  graph_batch gb ls M N -> utf8_valid label = true -> vocab_room ls label ->
  (forall g', graph_batch (g', gb.2) (intern ls label).1 M N -> Q (intern ls label).2 (g', gb.2)) ->
  runs (on_graph (predicate_id (E := E) p label)) gb Q.
Proof.
  intros [V St Ah Ap] U Room HQ. destruct gb as [g b]. cbn [fst snd] in *.
  destruct (proj1 (vocab_refines p 2 h PREDICATE_VOCAB PREDICATE_ok ltac:(lia) (g_vocab g) (g_store g) ls label 0 V U ltac:(lia) ltac:(lia)))
    as (c' & s' & r & Ei & X).
  rewrite decide_False in X by (intros [Pn Fu]; apply Room in Pn; lia). destruct X as [-> V'].
  eexists (mkGraph s' c', b), _. unfold on_graph, predicate_id. rewrite Ei. split; [done|]. apply HQ.
  assert (forall key, ~ on_faces h PREDICATE_VOCAB key -> contents s' !! key = contents (g_store g) !! key) as F.
  { intros key Nf. destruct (id_for_frame p 2 h PREDICATE_VOCAB PREDICATE_ok ltac:(lia) (g_vocab g) (g_store g) ls label key V U Nf)
      as (c1 & s1 & r1 & E1 & X). rewrite Ei in E1. injection E1 as <- <- _. apply X. lia. }
  split; [done|..|done]; cbn [fst g_store].
  - eapply edges_frame; [intros id; apply F, prik_apart|intros key Hf; by apply F, gface_apart|done].
  - unfold staged in *. cbn [fst snd g_store] in *.
    eapply edges_frame; [intros id; apply apply_batch_below, F, prik_apart|intros key Hf; by apply apply_batch_below, F, gface_apart|done].
Qed.

Lemma intern_range gb ls M N label : graph_batch gb (intern ls label).1 M N -> 0 <= (intern ls label).2 < 256 ^ 2.
Proof.
  intros B. destruct (intern_at ls label) as (i & -> & Ei%lookup_lt_Some). pose proof (at_size _ _ _ _ _ (proj2 (proj2 (gb_vocab _ _ _ _ B)))) as Sz.
  unfold zlen in Sz. change (Z.of_nat 2) with 2 in Sz. lia.
Qed.

(** ** The write sets *)

Definition head_fits id (head : EdgeHead) (edge : E) : Prop :=
  0 <= id < 2 ^ 64 /\ node_ok (src head) /\ node_ok (dst head) /\ doc_ok (K := EdgeKey) edge /\
  member (E := E) (src head) /\ member (E := E) (dst head) /\ utf8_valid (predicate head) = true.

(** The edge a link adds, and the vocabulary after it. *)
Definition linked (ls : list bytes) (head : EdgeHead) (edge : E) : Edge E :=
  mkEdge (src head) (dst head) (intern ls (predicate head)).2 edge.

Lemma check_members_ok (a b : NodeRef) : member (E := E) a -> member (E := E) b -> check_members (E := E) a b = Ok tt.
Proof. unfold member, check_members. cbn [members_loop]. by intros -> ->. Qed.

Lemma staged_add g b l : staged (g, add_ops b l) = apply_batch (staged (g, b)) l.
Proof. unfold staged, add_ops. cbn [fst snd ops]. apply apply_batch_app. Qed.

Lemma add_apart b l : Forall (λ op, ~ on_faces h PREDICATE_VOCAB op.1) (ops b) ->
  Forall (λ op : bytes * option bytes, ~ on_faces h PREDICATE_VOCAB op.1) l ->
  Forall (λ op, ~ on_faces h PREDICATE_VOCAB op.1) (ops (add_ops b l)).
Proof. intros F1 F2. apply Forall_app. by split. Qed.

Lemma entries_apart id x o : edge_fits id x ->
  Forall (λ op : bytes * option bytes, ~ on_faces h PREDICATE_VOCAB op.1) (map (λ kv, (kv.1, o kv.2)) (gentries id x)).
Proof using HDL.
  intros Fit. apply Forall_forall. intros op (e & -> & He)%list_elem_of_fmap. cbn [fst].
  apply gface_apart, (entry_gface id x); [done|]. apply list_elem_of_fmap. by exists e.
Qed.

(** Nothing of a write set but its own puts touches a face or another row. *)
Lemma not_prik_entry id x id' : edge_fits id x -> prik (E := E) id' ∉ map fst (gentries id x).
Proof using HDL. intros Fit Hin. by eapply prik_not_face, entry_gface. Qed.

Lemma not_dynk_entry id x id' : edge_fits id x -> dynk id' ∉ map fst (gentries id x).
Proof using HDL. intros Fit Hin. by eapply dynk_not_face, entry_gface. Qed.

Lemma runs_write_into gb ls M N head edge id (Q : unit -> Stt -> Prop) :
  graph_batch gb ls M N -> head_fits id head edge -> vocab_room ls (predicate head) -> N !! id = None ->
  (forall gb', graph_batch gb' (intern ls (predicate head)).1 M (<[id := linked ls head edge]> N) ->
    staged gb' !! dynk id = None -> Q tt gb') ->
  runs (write_into p head edge id) gb Q.
Proof.
  intros B (Hi & Hs & Hd & Hx & Ms & Md & U) Room Ni HQ. unfold write_into.
  apply runs_bind. eapply runs_reading; [by apply check_members_ok|].
  apply runs_bind. eapply runs_predicate_id; [done..|]. intros g' B'. pose proof (intern_range _ _ _ _ _ B') as Hp.
  set (pid := (intern ls (predicate head)).2) in *. set (x := linked ls head edge) in *.
  assert (edge_fits id x) as Fit by exact (conj Hi (conj Hs (conj Hd (conj Hp (conj Hx (conj Ms Md)))))).
  destruct (decode_payload_b (K := EdgeKey) edge Hx) as [Ep _].
  apply runs_bind. eapply runs_lift; [exact Ep|].
  apply runs_bind. eapply runs_lift; [exact (edge_body_ok x (predicate head) Hs Hd)|].
  apply runs_bind. eapply runs_lift; [by apply NodeRef_encode_ok|]. apply runs_bind. eapply runs_lift; [by apply NodeRef_encode_ok|].
  apply runs_bind. eapply runs_lift; [apply dynamic_key_ok|]. apply runs_bind, runs_del_op.
  apply runs_bind. eapply runs_lift; [apply edge_primary_key_ok|]. apply runs_bind, runs_put_op.
  apply runs_bind. eapply runs_lift; [apply (face_keys_ok id x)|]. apply runs_bind, runs_put_ops.
  apply runs_bind. eapply runs_lift; [by apply (declared_ok id x)|]. apply runs_put_ops.
  refine ((λ X, HQ _ (proj1 X) (proj2 X)) _). rewrite !add_ops_app. cbn [app]. unfold put_list. rewrite <- map_app. fold (gentries id x). fold (put_list (gentries id x)).
  destruct gb as [g b]. cbn [snd] in *. destruct B' as [V St Ah Ap]. split; [split; [done|done|..]|]; cbn [fst snd] in *.
  - rewrite staged_add. apply (edges_insert (staged (g', b))); [done..| | |]; [|intros id' Hi' Ne|intros key Hf];
      rewrite !apply_one; unfold apply_op at 1 2; cbn [fst snd].
    + rewrite apply_put_list_other by by apply not_prik_entry. apply lookup_insert_eq.
    + rewrite apply_put_list_other by by apply not_prik_entry.
      rewrite lookup_insert_ne by (intros Eq; apply Ne; symmetry; by eapply prik_inj).
      apply lookup_delete_ne, dynk_not_prik.
    + rewrite apply_put_list. destruct (newest (gentries id x) key); [done|]. rewrite lookup_insert_ne by (intros <-; by eapply prik_not_face).
      apply lookup_delete_ne. intros <-. by eapply dynk_not_face.
  - apply add_apart; [done|]. constructor; [exact (proj1 (proj2 predicate_apart) id)|]. constructor; [apply prik_apart|].
    by apply (entries_apart id x Some).
  - rewrite staged_add, !apply_one, apply_put_list_other by by apply not_dynk_entry. unfold apply_op. cbn [fst snd].
    rewrite lookup_insert_ne by (intros Eq; symmetry in Eq; by apply dynk_not_prik in Eq). apply lookup_delete_eq.
Qed.

Lemma runs_unlink_into gb ls M N id x (Q : unit -> Stt -> Prop) :
  graph_batch gb ls M N -> M !! id = Some x -> N !! id = Some x ->
  (forall gb', graph_batch gb' ls M (delete id N) -> (forall key, ~ gface (E := E) key -> key <> prik (E := E) id -> staged gb' !! key = staged gb !! key) -> Q tt gb') ->
  runs (unlink_into (E := E) p id) gb Q.
Proof.
  intros [V St Ah Ap] EM EN HQ. pose proof (ea_fits _ _ St id x EM) as Fit. pose proof Fit as (Hi & Hs & Hd & _ & Hx & Ms & Md).
  unfold unlink_into. apply runs_bind. eapply runs_lift; [apply edge_primary_key_ok|].
  apply runs_bind. eapply runs_reading; [rewrite get_spec, (ea_primary _ _ St id Hi), EM; done|].
  apply runs_bind. eapply runs_reading; [done|]. apply runs_bind. eapply runs_lift; [by apply (decode_body_ok id x)|].
  apply runs_bind. eapply runs_reading; [by apply check_members_ok|]. cbn [b_src b_dst payload predicate_vocab_id].
  apply runs_bind. eapply runs_lift; [by apply NodeRef_encode_ok|]. apply runs_bind. eapply runs_lift; [by apply NodeRef_encode_ok|].
  apply runs_bind. eapply runs_lift; [apply (decode_payload_b (K := EdgeKey) (e_data x) Hx)|].
  destruct gb as [g b]. cbn [fst snd] in *. apply runs_bind, runs_del_op.
  apply runs_bind. eapply runs_lift; [apply (face_keys_ok id x)|]. apply runs_bind, runs_del_ops.
  apply runs_bind. eapply runs_lift; [by apply (declared_ok id x)|]. apply runs_del_ops.
  refine ((λ X, HQ _ (proj1 X) (proj2 X)) _). rewrite !add_ops_app. cbn [app]. unfold del_list. rewrite <- map_app. fold (gentries id x). fold (del_list (gentries id x)).
  split; [split; [done|done|..]|intros key Nf Np]; cbn [fst snd] in *.
  - rewrite staged_add. apply (edges_delete (staged (g, b)) _ N id x); [done..| | |]; [|intros id' Hi' Ne|intros key Hf];
      rewrite !apply_one; unfold apply_op at 1; cbn [fst snd]; rewrite apply_del_list.
    + rewrite decide_False by by apply not_prik_entry. apply lookup_delete_eq.
    + rewrite decide_False by by apply not_prik_entry. apply lookup_delete_ne. intros Eq. apply Ne. symmetry. by eapply prik_inj.
    + case_decide; [done|]. apply lookup_delete_ne. intros <-. by eapply prik_not_face.
  - apply add_apart; [done|]. constructor; [apply prik_apart|]. by apply (entries_apart id x (λ _, None)).
  - rewrite staged_add, !apply_one, apply_del_list, decide_False by (intros Hin; by apply Nf, (entry_gface id x)). unfold apply_op. cbn [fst snd].
    by apply lookup_delete_ne.
Qed.

(** ** Sequences of verbs in one batch *)

(** A graph: the predicates of the handle are [ls], the edges of the store [M]. *)
Definition graph_ok g (ls : list bytes) M : Prop :=
  holds 2 h PREDICATE_VOCAB (g_vocab g) (g_store g) ls /\ edges_at (contents (g_store g)) M.

Inductive EdgeOp : Type :=
| LinkOp (id : Z) (head : EdgeHead) (edge : E)
| UnlinkOp (id : Z).

Definition run_op (o : EdgeOp) : enc Stt unit :=
  match o with LinkOp id head edge => link_into p head edge id | UnlinkOp id => unlink_into (E := E) p id end.

Fixpoint run_ops (l : list EdgeOp) : enc Stt unit :=
  match l with [] => mret tt | o :: l => run_op o;; run_ops l end.

Definition op_spec (t : list bytes * gmap Z (Edge E)) (o : EdgeOp) : list bytes * gmap Z (Edge E) :=
  match o with
  | LinkOp id head edge => ((intern t.1 (predicate head)).1, <[id := linked t.1 head edge]> t.2)
  | UnlinkOp id => (t.1, delete id t.2)
  end.

(** What a caller owes: a fresh id to [link_into], an edge that the store and the
    batch agree on to [unlink_into]. *)
Definition op_ok M (t : list bytes * gmap Z (Edge E)) (o : EdgeOp) : Prop :=
  match o with
  | LinkOp id head edge => head_fits id head edge /\ vocab_room t.1 (predicate head) /\ t.2 !! id = None
  | UnlinkOp id => exists x, M !! id = Some x /\ t.2 !! id = Some x
  end.

Fixpoint ops_ok M (t : list bytes * gmap Z (Edge E)) (l : list EdgeOp) : Prop :=
  match l with [] => True | o :: l => op_ok M t o /\ ops_ok M (op_spec t o) l end.

Lemma runs_ops l : forall gb ls M N (Q : unit -> Stt -> Prop),
  graph_batch gb ls M N -> ops_ok M (ls, N) l ->
  (forall gb', graph_batch gb' (fold_left op_spec l (ls, N)).1 M (fold_left op_spec l (ls, N)).2 -> Q tt gb') ->
  runs (run_ops l) gb Q.
Proof.
  induction l as [|o l IH]; intros gb ls M N Q B Ok HQ; cbn [run_ops].
  - by apply runs_ret, HQ.
  - destruct Ok as [Ho Hl]. apply runs_bind. destruct o as [id head edge|id]; cbn [run_op op_ok op_spec fst snd fold_left] in *.
    + destruct Ho as (Fit & Room & Ni). eapply runs_write_into; [done..|]. intros gb' B' _. by eapply IH.
    + destruct Ho as (x & EM & EN). eapply runs_unlink_into; [done..|]. intros gb' B' _. by eapply IH.
Qed.

(** A batch of its own: built, then committed. *)
Lemma in_batch_staged g (m : enc Stt unit) ls M ls' N (X : Stt -> Prop) :
  graph_ok g ls M ->
  (forall Q : unit -> Stt -> Prop, (forall gb', graph_batch gb' ls' M N -> X gb' -> Q tt gb') -> runs m (g, Batch_default) Q) ->
  exists g' gb', in_batch m g = (g', Ok tt) /\ graph_ok g' ls' N /\ contents (g_store g') = staged gb' /\ X gb'.
Proof.
  intros [V St] Hm. destruct (Hm (λ _ gb', graph_batch gb' ls' M N /\ X gb')) as ([g1 b1] & [] & Em & [V1 _ Ah1 Ap1] & HX); [done|].
  unfold in_batch. rewrite Em. cbn [fst snd] in *. destruct (commit_batch_spec (g_store g1) b1) as (st & Ec & Hc). rewrite Ec.
  eexists _, (g1, b1). split; [done|]. split; [split|by split]; cbn [g_vocab g_store].
  - destruct V1 as (F1 & C1 & A1). split; [done|]. split; [done|]. eapply entries_at_same; [|exact A1].
    intros key Hk. change (held st !! key) with (contents st !! key). rewrite Hc, apply_batch_pending.
    destruct (pending (mkBatch (ops b1)) key) as [o|] eqn:Ep; [|done]. exfalso.
    unfold pending in Ep. destruct (find _ _) as [[k v]|] eqn:Ef; [|done]. apply find_some in Ef as [Hin Eq].
    case_bool_decide as Ek; [|done]. cbn [fst] in Ek. subst k. rewrite <- in_rev in Hin. apply list_elem_of_In in Hin.
    rewrite Forall_forall in Ap1. by apply (Ap1 _ Hin).
  - unfold staged in Ah1. cbn [fst snd] in Ah1. by rewrite Hc.
Qed.

Lemma in_batch_commits g (m : enc Stt unit) ls M ls' N :
  graph_ok g ls M ->
  (forall Q : unit -> Stt -> Prop, (forall gb', graph_batch gb' ls' M N -> Q tt gb') -> runs m (g, Batch_default) Q) ->
  exists g', in_batch m g = (g', Ok tt) /\ graph_ok g' ls' N.
Proof.
  intros G Hm. destruct (in_batch_staged g m ls M ls' N (λ _, True) G) as (g' & gb' & E1 & E2 & _); [|by exists g'].
  intros Q HQ. apply Hm. auto.
Qed.

Lemma graph_batch_empty g ls M : graph_ok g ls M -> graph_batch (g, Batch_default) ls M M.
Proof. intros [V St]. by split. Qed.

(** C3: Any sequence of [link_into] and [unlink_into] in one batch is the same
    sequence of insertions and deletions on the map of edges, applied by one
    commit: primaries, the four traversal faces and the declared faces included,
    while the predicates are interned in the order the links name them.  With an
    [unlink_into] before the [link_into] of the same id this is a rewrite. *)
Theorem edge_batch_refines g ls M l :
  graph_ok g ls M -> ops_ok M (ls, M) l ->
  exists g', in_batch (run_ops l) g = (g', Ok tt) /\
  graph_ok g' (fold_left op_spec l (ls, M)).1 (fold_left op_spec l (ls, M)).2.
Proof.
  intros G Ok. apply (in_batch_commits g _ ls M); [done|]. intros Q HQ. by eapply runs_ops; [apply graph_batch_empty|..].
Qed.

(** ** [link] and [unlink] *)

Hypothesis h_len : length h = 2%nat.

Lemma read_live g ls M id : graph_ok g ls M -> 0 <= id < 2 ^ 64 ->
  vs_get (g_store g) (prik (E := E) id) = Ok (edge_bytes <$> M !! id).
Proof. intros [_ St] Hi. by rewrite get_spec, (ea_primary _ _ St id Hi). Qed.

(** The first side that is no member. *)
Lemma check_members_err (a b : NodeRef) :
  ~ member (E := E) a \/ ~ member (E := E) b ->
  check_members (E := E) a b = Err (if contains (E := E) (ns_id a)
    then EdgeNotMember name_dst (ns_id b) (be_val h) else EdgeNotMember name_src (ns_id a) (be_val h)).
Proof using h_len.
  assert (exists y z, h = [y; z]) as (y & z & Eh) by (destruct h as [|y [|z [|]]]; try done; by eexists _, _).
  unfold member, check_members. cbn [members_loop]. rewrite Eh. cbn [byte_at].
  intros Nm. destruct (contains (ns_id a)) eqn:Ca; [|done]. destruct (contains (ns_id b)) eqn:Cb; [naive_solver|done].
Qed.

Lemma link_dead g ls M head edge id : graph_ok g ls M -> 0 <= id < 2 ^ 64 -> M !! id = None ->
  link p head edge id g = in_batch (write_into p head edge id) g.
Proof.
  intros G Hi Ni. unfold link. rewrite edge_primary_key_ok. unfold mbind at 1, enc_bind. cbn [lift].
  unfold mbind at 1, enc_bind, reading. rewrite (read_live g ls M id G Hi), Ni. done.
Qed.

(** C34: [link] and [unlink] on every path.  A fresh id between members becomes an
    edge; a live id, an endpoint whose collection is no member (the source is
    judged first) and a full predicate vocabulary are refused by the error that
    names them, an id without an edge cannot be unlinked, and a refusal leaves the
    store as it was. *)
Theorem link_unlink_refine g ls M id head edge :
  graph_ok g ls M -> 0 <= id < 2 ^ 64 ->
  match M !! id with
  | Some _ => link p head edge id g = (g, Err (EdgeAlreadyLive id)) /\
      exists g', unlink (E := E) p id g = (g', Ok tt) /\ graph_ok g' ls (delete id M)
  | None => unlink (E := E) p id g = (g, Err (EdgeNotFound id)) /\
      (~ member (E := E) (src head) \/ ~ member (E := E) (dst head) -> link p head edge id g =
        (g, Err (if contains (E := E) (ns_id (src head)) then EdgeNotMember name_dst (ns_id (dst head)) (be_val h)
                 else EdgeNotMember name_src (ns_id (src head)) (be_val h)))) /\
      (head_fits id head edge -> vocab_room ls (predicate head) ->
        exists g', link p head edge id g = (g', Ok tt) /\
        graph_ok g' (intern ls (predicate head)).1 (<[id := linked ls head edge]> M)) /\
      (head_fits id head edge -> ~ vocab_room ls (predicate head) ->
        exists c, link p head edge id g = (mkGraph (g_store g) c, Err (VocabularyExhausted 2 (256 ^ 2))) /\
        graph_ok (mkGraph (g_store g) c) ls M)
  end.
Proof using h_len HDL.
  intros G Hi. destruct (M !! id) as [x|] eqn:EM.
  - split.
    + unfold link. rewrite edge_primary_key_ok. unfold mbind at 1, enc_bind. cbn [lift].
      unfold mbind at 1, enc_bind, reading. rewrite (read_live g ls M id G Hi), EM. done.
    + apply (in_batch_commits g _ ls M); [done|]. intros Q HQ.
      eapply runs_unlink_into; [by apply graph_batch_empty|done..|auto].
  - split; [|split; [|split]].
    + unfold unlink, in_batch, unlink_into. rewrite edge_primary_key_ok. unfold mbind at 1, enc_bind. cbn [lift].
      unfold mbind at 1, enc_bind, reading. cbn [fst]. rewrite (read_live g ls M id G Hi), EM. done.
    + intros Nm. rewrite (link_dead g ls M) by done. unfold in_batch, write_into, mbind at 1, enc_bind, reading.
      by rewrite check_members_err.
    + intros Fit Room. rewrite (link_dead g ls M) by done. apply (in_batch_commits g _ ls M); [done|].
      intros Q HQ. eapply runs_write_into; [by apply graph_batch_empty|done..|auto].
    + intros Fit Full. destruct Fit as (_ & _ & _ & _ & Ms & Md & U). destruct G as [V St].
      assert (position (predicate head) ls = None /\ zlen ls + 1 = 256 ^ 2) as [Pn Z].
      { pose proof (at_size _ _ _ _ _ (proj2 (proj2 V))) as Sz. change (Z.of_nat 2) with 2 in Sz. unfold vocab_room in Full.
        destruct (position (predicate head) ls); [exfalso; by apply Full|]. split; [done|].
        destruct (decide (zlen ls + 1 = 256 ^ 2)); [done|]. exfalso. apply Full. intros _. lia. }
      destruct (id_for_full p 2 h PREDICATE_VOCAB PREDICATE_ok ltac:(lia) (g_vocab g) (g_store g) ls (predicate head) V Pn Z ltac:(lia))
        as (c' & Ei & V').
      exists c'. split; [|by split]. rewrite (link_dead g ls M) by done. unfold in_batch, write_into, mbind at 1, enc_bind, reading.
      rewrite check_members_ok by done. unfold mbind at 1, enc_bind, on_graph, predicate_id. rewrite Ei. done.
Qed.
End Writes.
