(* ===== verification/GraphScans.v ===== *)
(** * Reading a graph (okm-core, [model/graph.rs])

    Over the representation of [GraphEdges]: a point read answers the map, and
    every traversal, typed or not, from a node, between a pair or by predicate
    alone, answers exactly the ids of the edges it describes, each once. *)
From S2P Require Import Prelude Errors Storage Slots VarInt Vocab DynValue Segment Fields Payload Keys Index Meta Reduces Collection Declared Table Graph GraphEdges GraphWrites.

Section Scans.
Context {E : Type} `{HD : !Document EdgeKey E} `{HDL : !DocumentLaws EdgeKey E} `{HG : !GraphEncode E}.
Context {S : Type} `{ReliableStorage S}.
Variable p : profile.

Abbreviation h := (graph_ns (E := E)).

Implicit Types (x : Edge E) (M : gmap Z (Edge E)) (id : Z) (key : bytes) (g : Graph S).

(** ** Point reads *)

Definition body_of x : EdgeBody := mkBody (e_src x) (e_dst x) (e_pred x) (payload_b (K := EdgeKey) (e_data x)).

Lemma get_edge_ok g M id : edges_at (contents (g_store g)) M -> 0 <= id < 2 ^ 64 ->
  get_edge (E := E) p g id = Ok (body_of <$> M !! id).
Proof.
  intros St Hi. unfold get_edge. rewrite edge_primary_key_ok. cbn [mbind outcome_bind]. rewrite get_spec, (ea_primary _ _ St id Hi).
  destruct (M !! id) as [x|] eqn:EM; [|done]. pose proof (ea_fits _ _ St id x EM) as Fit.
  cbn [mbind outcome_bind fmap option_fmap option_map]. rewrite (decode_body_ok p id x) by done. cbn [liftp mbind outcome_bind b_src b_dst].
  destruct Fit as (_ & _ & _ & _ & _ & Ms & Md). by rewrite check_members_ok.
Qed.

Lemma edge_ok g M id : edges_at (contents (g_store g)) M -> 0 <= id < 2 ^ 64 ->
  edge (E := E) p g id = Ok (e_data <$> M !! id).
Proof.
  intros St Hi. unfold edge. rewrite (get_edge_ok g M) by done. cbn [mbind outcome_bind].
  destruct (M !! id) as [x|] eqn:EM; [|done]. cbn [fmap option_fmap option_map].
  pose proof (ea_fits _ _ St id x EM) as (_ & _ & _ & _ & Hx & _). cbn [payload body_of].
  destruct (decode_payload_b (K := EdgeKey) (e_data x) Hx) as [_ D]. by rewrite D.
Qed.

(** ** The faces as scans see them *)

Hypothesis h_bytes : bytes_ok h.

Lemma gkey_bytes (s : Slot) t : slot_ok s -> bytes_ok t -> bytes_ok (gkey (E := E) s t).
Proof using h_bytes.
  intros Hs Ht. unfold gkey. apply Forall_app. split; [done|]. apply Forall_app. split; [|done]. unfold slot_bytes.
  destruct (Z.leb_spec s FIXED_FACE_MAX); [|apply be_bytes_ok]. constructor; [|done].
  unfold slot_ok, FIXED_FACE_MAX, byte_ok in *. lia.
Qed.

(** A declared entry never stands under a traversal slot. *)
Lemma declared_elsewhere id x (s : Slot) t v : edge_fits id x -> s ∈ edge_slots -> (gkey (E := E) s t, v) ∉ declared_entries id x.
Proof.
  intros Fit Hs He. pose proof (declared_ok id x Fit) as Ed. destruct Fit as (Hi & _ & _ & _ & Hx & _).
  destruct (doc_entries (mkEdgeKey id) (e_data x) h (edge_id_ok id Hi) Hx) as (es & Ee & F). rewrite Ed in Ee. injection Ee as <-.
  rewrite Forall_forall in F. destruct (F _ He) as (s' & t' & b & Hs' & _ & Ek). cbn [fst] in Ek.
  apply (gkey_slot s s') in Ek as [<- _]; [|by apply edge_slots_ok|by apply live_slot].
  apply edge_slots_ok in Hs as [_ ?]. apply live_slot in Hs' as [_ ?]. unfold Slot in *. lia.
Qed.

(** An entry under a traversal slot is the edge's own, and empty. *)
Lemma edge_slot_entry id x (s : Slot) t v : edge_fits id x -> s ∈ edge_slots ->
  newest (gentries id x) (gkey (E := E) s t) = Some v <-> v = [] /\ t = face_tail s x ++ be_bytes 8 id.
Proof.
  intros Fit Hs. split.
  - intros [He|He]%newest_Some%elem_of_app; [|by apply declared_elsewhere in He].
    apply list_elem_of_fmap in He as (k & [= <- ->] & (s' & Ek & Hs')%list_elem_of_fmap). split; [done|].
    by apply gkey_slot in Ek as [<- ->]; [|apply edge_slots_ok..].
  - intros [-> ->]. destruct (newest (gentries id x) _) as [w|] eqn:Nw.
    + apply newest_Some, elem_of_app in Nw as [He|He]; [|by apply declared_elsewhere in He].
      by apply list_elem_of_fmap in He as (k & [= _ ->] & _).
    + apply newest_None in Nw. destruct Nw. unfold gentries. rewrite map_app, map_map, map_id. apply elem_of_app. left.
      apply list_elem_of_fmap. by exists s.
Qed.

Lemma face_scan g M (s : Slot) q :
  edges_at (contents (g_store g)) M -> s ∈ edge_slots -> bytes_ok q -> long_keys (contents (g_store g)) (gkey (E := E) s q) ->
  exists sfx, vs_scan_suffix (g_store g) (gkey (E := E) s q) = Ok sfx /\ NoDup sfx /\
  forall t, t ∈ sfx <-> exists id x, M !! id = Some x /\ face_tail s x ++ be_bytes 8 id = q ++ t.
Proof using h_bytes.
  intros St Hs Hq L. destruct (scans_carried (g_store g) (gkey s q)) as (_ & Es & _); [apply gkey_bytes; [by apply edge_slots_ok|done]|done|].
  eexists. split; [exact Es|]. split; [apply sorted_NoDup, carried_sorted|]. intros t. rewrite elem_of_carried.
  assert (gkey (E := E) s q ++ t = gkey s (q ++ t)) as -> by (unfold gkey; by rewrite <- !app_assoc).
  assert (gface (E := E) (gkey s (q ++ t))) as Hf by (exists s, (q ++ t); split; [apply elem_of_app; by left|done]). split.
  - intros [v Ev]. apply (ea_faces _ _ St _ _ Hf) in Ev as (id & x & EM & Nw). exists id, x. split; [done|]. symmetry.
    by apply edge_slot_entry in Nw as [_ ?]; [|by apply (ea_fits _ _ St)|].
  - intros (id & x & EM & Eq). exists []. apply (ea_faces _ _ St _ _ Hf). exists id, x. split; [done|].
    apply edge_slot_entry; [by apply (ea_fits _ _ St)|done|]. by rewrite Eq.
Qed.

(** ** From suffixes to ids *)

Definition cut_endpoint (sfx : bytes) : option Z :=
  if 8 <? zlen sfx then tl ← slice sfx (zlen sfx - 8) (zlen sfx); id_of tl else None.

Lemma id_of_id id : 0 <= id < 2 ^ 64 -> id_of (be_bytes 8 id) = Some id.
Proof.
  intros Hi. unfold id_of. rewrite be_bytes_zlen. cbn [Z.of_nat]. change (8 =? 8) with true. cbn match.
  by rewrite be_val_be_bytes_small by (change (256 ^ Z.of_nat 8) with (2 ^ 64); lia).
Qed.

Lemma cut_endpoint_id r id : 0 <= id < 2 ^ 64 -> r <> [] -> cut_endpoint (r ++ be_bytes 8 id) = Some id.
Proof.
  intros Hi Nr. unfold cut_endpoint. assert (zlen (r ++ be_bytes 8 id) = zlen r + 8) as -> by (rewrite zlen_app, be_bytes_zlen; done).
  assert (0 < zlen r) by (destruct r; [done|]; pose proof (zlen_nonneg r); zlia).
  rewrite (proj2 (Z.ltb_lt _ _)) by lia. replace (zlen r + 8 - 8) with (zlen r) by lia.
  pose proof (slice_all_from r (be_bytes 8 id)) as Sl. rewrite zlen_app, be_bytes_zlen in Sl. change (Z.of_nat 8) with 8 in Sl. rewrite Sl.
  cbn [mbind option_bind]. by apply id_of_id.
Qed.

(** Pairwise different suffixes of different edges give pairwise different ids. *)
Lemma NoDup_omap_inj {A B} (f : A -> option B) l :
  NoDup l -> (forall a a' b, a ∈ l -> a' ∈ l -> f a = Some b -> f a' = Some b -> a = a') -> NoDup (omap f l).
Proof.
  induction 1 as [|a l Na ND IH]; intros Inj; [constructor|]. unfold omap in *. simpl. destruct (f a) as [b|] eqn:Ea.
  - constructor.
    + intros (a' & Ha' & Eb)%(list_elem_of_omap _ l). apply Na. assert (a = a') as ->; [|done].
      apply (Inj a a' b); [by left|by right|done..].
    + apply IH. intros a1 a2 b' H1 H2. apply Inj; by right.
  - apply IH. intros a1 a2 b' H1 H2. apply Inj; by right.
Qed.

(** A scan of a traversal slot whose suffixes the reader cuts into ids answers
    the edges the prefix describes, each once. *)
Lemma face_answers g M (s : Slot) q (cut : bytes -> option Z) (Q : Edge E -> Prop) :
  edges_at (contents (g_store g)) M -> s ∈ edge_slots -> bytes_ok q -> long_keys (contents (g_store g)) (gkey (E := E) s q) ->
  (forall id x, M !! id = Some x -> Q x -> exists t, face_tail s x ++ be_bytes 8 id = q ++ t) ->
  (forall id x t, M !! id = Some x -> face_tail s x ++ be_bytes 8 id = q ++ t -> Q x /\ cut t = Some id) ->
  exists sfx, vs_scan_suffix (g_store g) (gkey (E := E) s q) = Ok sfx /\ NoDup (omap cut sfx) /\
  forall id, id ∈ omap cut sfx <-> exists x, M !! id = Some x /\ Q x.
Proof using h_bytes.
  intros St Hs Hq L In Out. destruct (face_scan g M s q St Hs Hq L) as (sfx & Es & ND & Mem). exists sfx. split; [done|]. split.
  - apply NoDup_omap_inj; [done|]. intros t t' i (id & x & EM & Et)%Mem (id' & x' & EM' & Et')%Mem Ci Ci'.
    destruct (Out _ _ _ EM Et) as [_ C]. destruct (Out _ _ _ EM' Et') as [_ C']. assert (id = id') as <- by congruence.
    rewrite EM in EM'. injection EM' as <-. rewrite Et in Et'. by apply app_inv_head in Et'.
  - intros i. rewrite list_elem_of_omap. split.
    + intros (t & (id & x & EM & Et)%Mem & Ct). destruct (Out _ _ _ EM Et) as [HQ C]. exists x. split; [congruence|done].
    + intros (x & EM & HQ). destruct (In i x EM HQ) as [t Et]. exists t. split; [apply Mem; by exists i, x|]. by apply (Out i x).
Qed.

(** ** The shape of an entry *)

Definition by_predicate (s : Slot) : bool := (s =? EDGE_PREDICATE_OUT_SLOT) || (s =? EDGE_PREDICATE_IN_SLOT).
Definition outgoing (s : Slot) : bool := (s =? EDGE_OUT_SLOT) || (s =? EDGE_PREDICATE_OUT_SLOT).

Definition lead (s : Slot) x : bytes := if by_predicate s then be_bytes 2 (e_pred x) else [].
Definition near (s : Slot) x : NodeRef := if outgoing s then e_src x else e_dst x.
Definition far (s : Slot) x : NodeRef := if outgoing s then e_dst x else e_src x.

Lemma face_tail_shape (s : Slot) x : s ∈ edge_slots -> face_tail s x = lead s x ++ node_bytes (near s x) ++ node_bytes (far s x).
Proof. unfold edge_slots. rewrite !elem_of_cons, elem_of_nil. by intros [-> |[-> |[-> |[-> |[]]]]]. Qed.

Lemma ends_ok (s : Slot) id x : edge_fits id x -> node_ok (near s x) /\ node_ok (far s x).
Proof. intros (_ & Hs & Hd & _). unfold near, far. by destruct (outgoing s). Qed.

Lemma node_nonempty r rest : node_ok r -> node_bytes r ++ rest <> [].
Proof. intros (L & _). unfold node_bytes. destruct (ns r); [done|]. done. Qed.

Section Queries.
Variables (g : Graph S) (M : gmap Z (Edge E)) (s : Slot) (l : bytes).
Hypothesis (St : edges_at (contents (g_store g)) M) (Hs : s ∈ edge_slots).
Hypothesis (Hl : bytes_ok l) (Ll : forall x, length (lead s x) = length l).

(** After one node: the id is the last eight bytes. *)
Lemma node_query n : node_ok n -> long_keys (contents (g_store g)) (gkey (E := E) s (l ++ node_bytes n)) ->
  exists sfx, vs_scan_suffix (g_store g) (gkey (E := E) s (l ++ node_bytes n)) = Ok sfx /\ NoDup (ids_after_endpoint sfx) /\
  forall id, id ∈ ids_after_endpoint sfx <-> exists x, M !! id = Some x /\ lead s x = l /\ near s x = n.
Proof using St Hs Hl Ll h_bytes.
  intros Hn L. apply (face_answers g M s _ cut_endpoint (λ x, lead s x = l /\ near s x = n)); try done.
  - apply Forall_app. split; [done|by apply node_bytes_ok].
  - intros id x _ [El En]. exists (node_bytes (far s x) ++ be_bytes 8 id). rewrite face_tail_shape, El, En by done. by rewrite <- !app_assoc.
  - intros id x t EM Et. pose proof (ea_fits _ _ St id x EM) as Fit. destruct (ends_ok s id x Fit) as [Nn Nf].
    rewrite face_tail_shape, <- !app_assoc in Et by done. apply app_inj_1 in Et as [El Et]; [|done].
    apply node_prefix_free in Et as [En <-]; [|done..]. split; [done|]. apply cut_endpoint_id; [apply Fit|].
    rewrite <- (app_nil_r (node_bytes _)). by apply node_nonempty.
Qed.

(** After a pair: the suffix is the id. *)
Lemma pair_query a b : node_ok a -> node_ok b ->
  long_keys (contents (g_store g)) (gkey (E := E) s (l ++ node_bytes a ++ node_bytes b)) ->
  exists sfx, vs_scan_suffix (g_store g) (gkey (E := E) s (l ++ node_bytes a ++ node_bytes b)) = Ok sfx /\ NoDup (ids_after_pair sfx) /\
  forall id, id ∈ ids_after_pair sfx <-> exists x, M !! id = Some x /\ lead s x = l /\ near s x = a /\ far s x = b.
Proof using St Hs Hl Ll h_bytes.
  intros Ha Hb L. apply (face_answers g M s _ id_of (λ x, lead s x = l /\ near s x = a /\ far s x = b)); try done.
  - apply Forall_app. split; [done|]. apply Forall_app. by split; apply node_bytes_ok.
  - intros id x _ (El & En & Ef). exists (be_bytes 8 id). rewrite face_tail_shape, El, En, Ef by done. done.
  - intros id x t EM Et. pose proof (ea_fits _ _ St id x EM) as Fit. destruct (ends_ok s id x Fit) as [Nn Nf].
    rewrite face_tail_shape, <- !app_assoc in Et by done. apply app_inj_1 in Et as [El Et]; [|done].
    apply node_prefix_free in Et as [En Et]; [|done..]. apply node_prefix_free in Et as [Ef <-]; [|done..]. split; [done|].
    apply id_of_id, Fit.
Qed.

(** After the predicate alone. *)
Lemma lead_query : long_keys (contents (g_store g)) (gkey (E := E) s l) ->
  exists sfx, vs_scan_suffix (g_store g) (gkey (E := E) s l) = Ok sfx /\ NoDup (ids_after_endpoint sfx) /\
  forall id, id ∈ ids_after_endpoint sfx <-> exists x, M !! id = Some x /\ lead s x = l.
Proof using St Hs Hl Ll h_bytes.
  intros L. apply (face_answers g M s _ cut_endpoint (λ x, lead s x = l)); try done.
  - intros id x _ El. eexists. rewrite face_tail_shape, El by done. by rewrite <- app_assoc.
  - intros id x t EM Et. pose proof (ea_fits _ _ St id x EM) as Fit. destruct (ends_ok s id x Fit) as [Nn Nf].
    rewrite face_tail_shape, <- app_assoc in Et by done. apply app_inj_1 in Et as [El <-]; [|done]. split; [done|].
    apply cut_endpoint_id; [apply Fit|]. by apply node_nonempty.
Qed.
End Queries.

(** ** The queries of the handle *)

Inductive Query : Type :=
| OutEdges (n : NodeRef)
| InEdges (n : NodeRef)
| OutEdgesTo (a b : NodeRef)
| InEdgesFrom (a b : NodeRef)
| TypedOut (label : bytes) (n : NodeRef)
| TypedIn (label : bytes) (n : NodeRef)
| TypedOutTo (label : bytes) (a b : NodeRef)
| TypedInFrom (label : bytes) (a b : NodeRef)
| EdgesOfPredicate (label : bytes).

Definition run_query (q : Query) : enc (Graph S) (list Z) :=
  match q with
  | OutEdges n => reading (λ g, out_edges (E := E) p g n)
  | InEdges n => reading (λ g, in_edges (E := E) p g n)
  | OutEdgesTo a b => reading (λ g, out_edges_to (E := E) p g a b)
  | InEdgesFrom a b => reading (λ g, in_edges_from (E := E) p g a b)
  | TypedOut label n => typed_out (E := E) p label n
  | TypedIn label n => typed_in (E := E) p label n
  | TypedOutTo label a b => typed_out_to (E := E) p label a b
  | TypedInFrom label a b => typed_in_from (E := E) p label a b
  | EdgesOfPredicate label => edges_of_predicate (E := E) label
  end.

(** Which edges a query describes. *)
Definition describes (ls : list bytes) (q : Query) x : Prop :=
  match q with
  | OutEdges n => e_src x = n
  | InEdges n => e_dst x = n
  | OutEdgesTo a b => e_src x = a /\ e_dst x = b
  | InEdgesFrom a b => e_dst x = a /\ e_src x = b
  | TypedOut label n => ls !! Z.to_nat (e_pred x) = Some label /\ e_src x = n
  | TypedIn label n => ls !! Z.to_nat (e_pred x) = Some label /\ e_dst x = n
  | TypedOutTo label a b => ls !! Z.to_nat (e_pred x) = Some label /\ e_src x = a /\ e_dst x = b
  | TypedInFrom label a b => ls !! Z.to_nat (e_pred x) = Some label /\ e_dst x = a /\ e_src x = b
  | EdgesOfPredicate label => ls !! Z.to_nat (e_pred x) = Some label
  end.

Definition query_nodes (q : Query) : list NodeRef :=
  match q with
  | OutEdges n | InEdges n | TypedOut _ n | TypedIn _ n => [n]
  | OutEdgesTo a b | InEdgesFrom a b | TypedOutTo _ a b | TypedInFrom _ a b => [a; b]
  | EdgesOfPredicate _ => []
  end.

Definition query_slot (q : Query) : Slot :=
  match q with
  | OutEdges _ | OutEdgesTo _ _ => EDGE_OUT_SLOT
  | InEdges _ | InEdgesFrom _ _ => EDGE_IN_SLOT
  | TypedOut _ _ | TypedOutTo _ _ _ | EdgesOfPredicate _ => EDGE_PREDICATE_OUT_SLOT
  | TypedIn _ _ | TypedInFrom _ _ _ => EDGE_PREDICATE_IN_SLOT
  end.

Definition query_label (q : Query) : option bytes :=
  match q with
  | TypedOut l _ | TypedIn l _ | TypedOutTo l _ _ | TypedInFrom l _ _ | EdgesOfPredicate l => Some l
  | _ => None
  end.

(** The prefix the query scans; none when its predicate has no number. *)
Definition query_prefix (ls : list bytes) (q : Query) : option bytes :=
  let nodes := concat (map node_bytes (query_nodes q)) in
  match query_label q with
  | None => Some (gkey (E := E) (query_slot q) nodes)
  | Some label => i ← position label ls; Some (gkey (E := E) (query_slot q) (be_bytes 2 (Z.of_nat i) ++ nodes))
  end.

Definition answers M (ids : list Z) (Q : Edge E -> Prop) : Prop :=
  NoDup ids /\ forall id, id ∈ ids <-> exists x, M !! id = Some x /\ Q x.

Lemma pred_named (ls : list bytes) label i id x : NoDup ls -> zlen ls < 256 ^ 2 -> edge_fits id x -> position label ls = Some i ->
  be_bytes 2 (e_pred x) = be_bytes 2 (Z.of_nat i) <-> ls !! Z.to_nat (e_pred x) = Some label.
Proof.
  intros ND Sz (_ & _ & _ & Hp & _) Pi. pose proof (position_Some _ _ _ Pi) as Ei. split.
  - intros Eq%(f_equal be_val). apply lookup_lt_Some in Ei as Lt. unfold zlen in Sz.
    rewrite !be_val_be_bytes_small in Eq by (change (256 ^ Z.of_nat 2) with (256 ^ 2); lia). by rewrite Eq, Nat2Z.id.
  - intros Ex. assert (Z.to_nat (e_pred x) = i) as <- by by eapply NoDup_lookup. by rewrite Z2Nat.id by lia.
Qed.

(** A typed query: the number of its label, then a scan. *)
Lemma of_predicate_ok g ls M label f (Q : Edge E -> Prop) :
  graph_ok g ls M ->
  (forall i c, position label ls = Some i -> exists ids, f (Z.of_nat i) (mkGraph (g_store g) c) = Ok ids /\
    answers M ids (λ x, be_bytes 2 (e_pred x) = be_bytes 2 (Z.of_nat i) /\ Q x)) ->
  exists c ids, of_predicate (E := E) label f g = (mkGraph (g_store g) c, Ok ids) /\ graph_ok (mkGraph (g_store g) c) ls M /\
  answers M ids (λ x, ls !! Z.to_nat (e_pred x) = Some label /\ Q x).
Proof.
  intros [V St] Hf. destruct (id_get_spec 2 h PREDICATE_VOCAB PREDICATE_ok ltac:(lia) (g_vocab g) (g_store g) ls label V) as (c & Ei & V').
  pose proof (proj2 (proj2 V)) as A. pose proof (at_nodup _ _ _ _ _ A) as ND. pose proof (at_size _ _ _ _ _ A) as Sz.
  exists c. unfold of_predicate, predicate_get, mbind at 1, enc_bind. rewrite Ei.
  destruct (position label ls) as [i|] eqn:Pi; cbn [fmap option_fmap option_map].
  - destruct (Hf i c eq_refl) as (ids & Ef & Nd & Mem). exists ids. unfold reading. rewrite Ef. do 2 (split; [done|]). split; [done|].
    intros id. rewrite Mem. split; intros (x & EM & Ex & HQ); exists x; (split; [done|]; split; [|done]);
      by apply (pred_named ls label i id x ND Sz (ea_fits _ _ St id x EM) Pi).
  - exists []. do 2 (split; [done|]). split; [constructor|]. intros id. rewrite elem_of_nil. split; [done|].
    intros (x & _ & Ex & _). apply position_None in Pi. apply Pi. by eapply list_elem_of_lookup_2.
Qed.

Lemma answers_ext M ids (Q Q' : Edge E -> Prop) : (forall x, Q x <-> Q' x) -> answers M ids Q -> answers M ids Q'.
Proof. intros Eq [ND Mem]. split; [done|]. intros id. rewrite Mem. by setoid_rewrite Eq. Qed.

Lemma reading_ok {A} g ls M (f : Graph S -> result A) (Q : A -> Prop) :
  graph_ok g ls M -> (exists a, f g = Ok a /\ Q a) ->
  exists c a, reading f g = (mkGraph (g_store g) c, Ok a) /\ graph_ok (mkGraph (g_store g) c) ls M /\ Q a.
Proof. intros G (a & Ea & HQ). destruct g as [st c]. exists c, a. unfold reading. by rewrite Ea. Qed.

Lemma edge_slot_in :
  EDGE_OUT_SLOT ∈ edge_slots /\ EDGE_IN_SLOT ∈ edge_slots /\ EDGE_PREDICATE_OUT_SLOT ∈ edge_slots /\ EDGE_PREDICATE_IN_SLOT ∈ edge_slots.
Proof. unfold edge_slots. rewrite !elem_of_cons. naive_solver. Qed.

(** The three kinds of scan as the handle spells them. *)
Lemma traverse_ok g M (s : Slot) n : edges_at (contents (g_store g)) M -> s ∈ edge_slots -> by_predicate s = false -> node_ok n ->
  long_keys (contents (g_store g)) (gkey (E := E) s (node_bytes n)) ->
  exists ids, traverse (E := E) p g s n = Ok ids /\ answers M ids (λ x, near s x = n).
Proof using h_bytes HDL.
  intros St Hs Bp Hn L. unfold traverse. rewrite NodeRef_encode_ok by done. cbn [liftp mbind outcome_bind].
  rewrite face_key_ok by by apply edge_slots_ok. cbn [mbind outcome_bind concat]. rewrite app_nil_r.
  destruct (node_query g M s [] St Hs) with (n := n) as (sfx & Es & Nd & Mem); [by apply Forall_nil|intros x; unfold lead; by rewrite Bp|done..|].
  cbn [app] in Es. rewrite Es. eexists. split; [done|]. eapply answers_ext; [|exact (conj Nd Mem)]. intros x. cbn. unfold lead. rewrite Bp. naive_solver.
Qed.

Lemma traverse_pair_ok g M (s : Slot) a b : edges_at (contents (g_store g)) M -> s ∈ edge_slots -> by_predicate s = false ->
  node_ok a -> node_ok b -> long_keys (contents (g_store g)) (gkey (E := E) s (node_bytes a ++ node_bytes b)) ->
  exists ids, traverse_pair (E := E) p g s a b = Ok ids /\ answers M ids (λ x, near s x = a /\ far s x = b).
Proof using h_bytes HDL.
  intros St Hs Bp Ha Hb L. unfold traverse_pair. rewrite !NodeRef_encode_ok by done. cbn [liftp mbind outcome_bind].
  rewrite face_key_ok by by apply edge_slots_ok. cbn [mbind outcome_bind concat]. rewrite app_nil_r.
  destruct (pair_query g M s [] St Hs) with (a := a) (b := b) as (sfx & Es & Nd & Mem); [by apply Forall_nil|intros x; unfold lead; by rewrite Bp|done..|].
  cbn [app] in Es. rewrite Es. eexists. split; [done|]. eapply answers_ext; [|exact (conj Nd Mem)]. intros x. cbn. unfold lead. rewrite Bp. naive_solver.
Qed.

Lemma lead_two (s : Slot) i : by_predicate s = true -> forall x, length (lead s x) = length (be_bytes 2 i).
Proof. intros Bp x. unfold lead. by rewrite Bp, !be_bytes_length. Qed.

Lemma typed_edges_ok g ls M (s : Slot) label n : graph_ok g ls M -> s ∈ edge_slots -> by_predicate s = true -> node_ok n ->
  (forall i, position label ls = Some i -> long_keys (contents (g_store g)) (gkey (E := E) s (be_bytes 2 (Z.of_nat i) ++ node_bytes n))) ->
  exists c ids, typed_edges (E := E) p s label n g = (mkGraph (g_store g) c, Ok ids) /\ graph_ok (mkGraph (g_store g) c) ls M /\
  answers M ids (λ x, ls !! Z.to_nat (e_pred x) = Some label /\ near s x = n).
Proof using h_bytes HDL.
  intros G Hs Bp Hn L. apply of_predicate_ok; [done|]. intros i c Pi. specialize (L i Pi).
  rewrite NodeRef_encode_ok by done. cbn [liftp mbind outcome_bind]. rewrite face_key_ok by by apply edge_slots_ok.
  cbn [mbind outcome_bind concat]. rewrite app_nil_r.
  destruct (node_query (mkGraph (g_store g) c) M s (be_bytes 2 (Z.of_nat i)) (proj2 G) Hs) with (n := n) as (sfx & Es & Nd & Mem);
    [apply be_bytes_ok|by apply lead_two|done..|].
  rewrite Es. eexists. split; [done|]. eapply answers_ext; [|exact (conj Nd Mem)]. intros x. cbn. unfold lead. by rewrite Bp.
Qed.

Lemma typed_pair_ok g ls M (s : Slot) label a b : graph_ok g ls M -> s ∈ edge_slots -> by_predicate s = true -> node_ok a -> node_ok b ->
  (forall i, position label ls = Some i ->
    long_keys (contents (g_store g)) (gkey (E := E) s (be_bytes 2 (Z.of_nat i) ++ node_bytes a ++ node_bytes b))) ->
  exists c ids, of_predicate (E := E) label (λ i g,
      s1 ← liftp (NodeRef_encode p a);
      d1 ← liftp (NodeRef_encode p b);
      k ← face_key (E := E) s [be_bytes 2 i; s1; d1];
      sfx ← vs_scan_suffix (g_store g) k; Ok (ids_after_pair sfx)) g = (mkGraph (g_store g) c, Ok ids) /\
  graph_ok (mkGraph (g_store g) c) ls M /\
  answers M ids (λ x, ls !! Z.to_nat (e_pred x) = Some label /\ near s x = a /\ far s x = b).
Proof using h_bytes HDL.
  intros G Hs Bp Ha Hb L. apply of_predicate_ok; [done|]. intros i c Pi. specialize (L i Pi).
  rewrite !NodeRef_encode_ok by done. cbn [liftp mbind outcome_bind]. rewrite face_key_ok by by apply edge_slots_ok.
  cbn [mbind outcome_bind concat]. rewrite app_nil_r.
  destruct (pair_query (mkGraph (g_store g) c) M s (be_bytes 2 (Z.of_nat i)) (proj2 G) Hs) with (a := a) (b := b) as (sfx & Es & Nd & Mem);
    [apply be_bytes_ok|by apply lead_two|done..|].
  rewrite Es. eexists. split; [done|]. eapply answers_ext; [|exact (conj Nd Mem)]. intros x. cbn. unfold lead. by rewrite Bp.
Qed.

(** The prefix of a query, computed. *)
Ltac query_scans := unfold query_prefix; cbn [query_label query_nodes query_slot map concat]; by rewrite app_nil_r.

(** C4: Every traversal answers exactly the edges it describes, each id once: from a
    node, between a pair and by predicate, in either direction.  A predicate the
    graph does not know answers nothing, and a query writes nothing. *)
Theorem traversal_exact g ls M q :
  graph_ok g ls M -> Forall node_ok (query_nodes q) ->
  (forall prefix, query_prefix ls q = Some prefix -> long_keys (contents (g_store g)) prefix) ->
  exists c ids, run_query q g = (mkGraph (g_store g) c, Ok ids) /\ graph_ok (mkGraph (g_store g) c) ls M /\
  answers M ids (describes ls q).
Proof using h_bytes HDL.
  intros G Hn L. pose proof (proj2 G) as St. destruct edge_slot_in as (S1 & S2 & S3 & S4).
  assert (forall label q', query_label q = Some label -> query_prefix ls q = (i ← position label ls; Some (q' i)) ->
    forall i, position label ls = Some i -> long_keys (contents (g_store g)) (q' i)) as L'.
  { intros label q' _ Eq i Pi. apply L. by rewrite Eq, Pi. }
  destruct q as [n|n|a b|a b|label n|label n|label a b|label a b|label]; cbn [query_nodes] in Hn;
    repeat (let Hx := fresh "Hx" in apply Forall_cons in Hn as [Hx Hn]); cbn [run_query describes].
  - apply (reading_ok g ls M _ (λ ids, answers M ids (λ x, e_src x = n))); [done|]. apply (traverse_ok g M); try done. apply L. query_scans.
  - apply (reading_ok g ls M _ (λ ids, answers M ids (λ x, e_dst x = n))); [done|]. apply (traverse_ok g M); try done. apply L. query_scans.
  - apply (reading_ok g ls M _ (λ ids, answers M ids (λ x, e_src x = a /\ e_dst x = b))); [done|]. apply (traverse_pair_ok g M); try done. apply L. query_scans.
  - apply (reading_ok g ls M _ (λ ids, answers M ids (λ x, e_dst x = a /\ e_src x = b))); [done|]. apply (traverse_pair_ok g M); try done. apply L. query_scans.
  - apply (typed_edges_ok g ls M); try done. apply (L' label (λ i, _)); [done|]. query_scans.
  - apply (typed_edges_ok g ls M); try done. apply (L' label (λ i, _)); [done|]. query_scans.
  - apply (typed_pair_ok g ls M); try done. apply (L' label (λ i, _)); [done|]. query_scans.
  - apply (typed_pair_ok g ls M); try done. apply (L' label (λ i, _)); [done|]. query_scans.
  - destruct (of_predicate_ok g ls M label (λ i g,
      k ← face_key (E := E) EDGE_PREDICATE_OUT_SLOT [be_bytes 2 i]; sfx ← vs_scan_suffix (g_store g) k; Ok (ids_after_endpoint sfx)) (λ _, True))
      as (c & ids & Er & G' & A); [done| |exists c, ids; do 2 (split; [done|]); eapply answers_ext; [|exact A]; naive_solver].
    intros i c Pi. rewrite face_key_ok by by apply edge_slots_ok. cbn [mbind outcome_bind concat]. rewrite app_nil_r.
    destruct (lead_query (mkGraph (g_store g) c) M EDGE_PREDICATE_OUT_SLOT (be_bytes 2 (Z.of_nat i)) (proj2 G) S3) as (sfx & Es & Nd & Mem);
      [apply be_bytes_ok|by apply lead_two| |].
    { apply L. unfold query_prefix. cbn [query_label query_nodes query_slot map concat]. rewrite Pi. cbn [mbind option_bind]. by rewrite app_nil_r. }
    rewrite Es. eexists. split; [done|]. eapply answers_ext; [|exact (conj Nd Mem)]. intros x. cbn. split; [done|by intros [? _]].
Qed.
End Scans.
