(* ===== verification/GraphRows.v ===== *)
(** * The rows of a graph (okm-core, [model/graph.rs])

    The walks over the primary slot: [edge_ids] answers the domain of the map in
    order, [max_edge_id] is its last id in one reverse step, and the neighbour
    queries resolve the ids of a traversal to the far ends. *)
From S2P Require Import Prelude Errors Storage Slots VarInt Vocab DynValue Segment Fields Payload Keys Index Meta Reduces Collection Declared Table Graph GraphEdges GraphWrites GraphScans.

Section Rows.
Context {E : Type} `{HD : !Document EdgeKey E} `{HDL : !DocumentLaws EdgeKey E} `{HG : !GraphEncode E}.
Context {S : Type} `{ReliableStorage S}.
Variable p : profile.

Abbreviation h := (graph_ns (E := E)).
Hypothesis h_bytes : bytes_ok h.

Implicit Types (x : Edge E) (M : gmap Z (Edge E)) (id : Z) (g : Graph S).

(** The prefix of the rows. *)
Definition rows_prefix : bytes := gkey (E := E) PRIMARY_SLOT [].

Lemma rows_prefix_app t : rows_prefix ++ t = gkey (E := E) PRIMARY_SLOT t.
Proof. unfold rows_prefix, gkey. by rewrite app_nil_r, <- app_assoc. Qed.

Lemma rows_prefix_key {X} : write_slot h PRIMARY_SLOT = (Ok rows_prefix : outcome X bytes).
Proof. rewrite write_slot_ok by apply PRIMARY_ok. unfold rows_prefix, gkey. by rewrite app_nil_r. Qed.

Lemma rows_prefix_ok : bytes_ok rows_prefix.
Proof using h_bytes. by apply gkey_bytes; [|apply PRIMARY_ok|constructor]. Qed.

(** The suffixes of the rows. *)
Definition row_suffixes g : list bytes := map fst (carried_pairs (contents (g_store g)) rows_prefix).

Lemma id_of_Some t id : bytes_ok t -> id_of t = Some id -> t = be_bytes 8 id /\ 0 <= id < 2 ^ 64.
Proof.
  unfold id_of. intros Ht. destruct (Z.eqb_spec (zlen t) 8) as [L|]; [|done]. intros [= <-].
  pose proof (be_val_bound t Ht) as B. rewrite L in B. split; [|done]. pose proof (be_bytes_be_val t Ht) as Eb.
  replace (length t) with 8%nat in Eb by (unfold zlen in L; lia). done.
Qed.

Lemma suffix_ok g t : long_keys (contents (g_store g)) rows_prefix -> t ∈ row_suffixes g -> bytes_ok t.
Proof. intros L Ht%elem_of_carried. destruct (L _ Ht) as [Ok _]. by apply Forall_app in Ok as [_ ?]. Qed.

Lemma edge_ids_suffixes g : long_keys (contents (g_store g)) rows_prefix -> edge_ids (E := E) g = Ok (omap id_of (row_suffixes g)).
Proof using h_bytes.
  intros L. unfold edge_ids. rewrite rows_prefix_key. cbn [mbind outcome_bind].
  destruct (scans_carried (g_store g) rows_prefix) as (_ & _ & ->); [apply rows_prefix_ok|done|]. cbn [mbind outcome_bind].
  f_equal. unfold row_suffixes. generalize (carried_pairs (contents (g_store g)) rows_prefix) as l.
  induction l as [|[t v] l IH]; [done|]. unfold omap in *. simpl. by rewrite IH.
Qed.

(** The ids of the rows, in ascending order. *)
Lemma rows_ids (c : gmap bytes bytes) M :
  (forall id x, M !! id = Some x -> edge_fits id x) -> (forall id, 0 <= id < 2 ^ 64 -> c !! prik (E := E) id = edge_bytes <$> M !! id) ->
  long_keys c rows_prefix ->
  StronglySorted Z.lt (omap id_of (map fst (carried_pairs c rows_prefix))) /\
  forall id, id ∈ omap id_of (map fst (carried_pairs c rows_prefix)) <-> is_Some (M !! id).
Proof.
  intros Fits Pri L. set (sfx := map fst (carried_pairs c rows_prefix)).
  assert (forall t, t ∈ sfx -> bytes_ok t) as Ok.
  { intros t Ht%elem_of_carried. destruct (L _ Ht) as [Ok _]. by apply Forall_app in Ok as [_ ?]. }
  split.
  - assert (Forall bytes_ok sfx) as F by (by apply Forall_forall).
    pose proof (carried_sorted c rows_prefix) as Sl. fold sfx in Sl. clear Ok. clearbody sfx.
    induction Sl as [|t l Sl IH Ft]; [constructor|]. apply Forall_cons in F as [Ht F]. unfold omap in *. simpl.
    destruct (id_of t) as [i|] eqn:Ei; [|auto]. constructor; [auto|]. apply Forall_forall.
    intros j (t' & Hin & Ej)%(list_elem_of_omap _ l). rewrite Forall_forall in F, Ft. pose proof (F _ Hin) as Ht'. specialize (Ft _ Hin).
    apply id_of_Some in Ei as [-> Hi]; [|done]. apply id_of_Some in Ej as [-> Hj]; [|done]. unfold bytes_lt in Ft.
    rewrite lex_compare_be_bytes in Ft by (change (256 ^ Z.of_nat 8) with (2 ^ 64); lia). by apply Z.compare_lt_iff in Ft.
  - intros id. rewrite list_elem_of_omap. split.
    + intros (t & Ht & Ei). apply id_of_Some in Ei as [-> Hi]; [|by apply Ok]. apply elem_of_carried in Ht. rewrite rows_prefix_app in Ht.
      fold (prik (E := E) id) in Ht. rewrite Pri in Ht by done. by apply fmap_is_Some in Ht.
    + intros [x EM]. destruct (Fits id x EM) as (Hi & _). exists (be_bytes 8 id). split; [|by apply id_of_id].
      apply elem_of_carried. rewrite rows_prefix_app. fold (prik (E := E) id). rewrite Pri, EM by done. by eexists.
Qed.

(** The walk over the rows answers the ids of the map, in ascending order. *)
Theorem edge_ids_exact g M :
  edges_at (contents (g_store g)) M -> long_keys (contents (g_store g)) rows_prefix ->
  exists ids, edge_ids (E := E) g = Ok ids /\ StronglySorted Z.lt ids /\ forall id, id ∈ ids <-> is_Some (M !! id).
Proof using h_bytes.
  intros [Fits Pri _] L. eexists. split; [by apply edge_ids_suffixes|]. by apply rows_ids.
Qed.

(** One reverse step answers what the whole walk would: the last id, which is
    the highest; a last key of another width is reported as corruption. *)
Theorem max_edge_id_last g :
  long_keys (contents (g_store g)) rows_prefix ->
  exists ids, edge_ids (E := E) g = Ok ids /\
  match last (row_suffixes g) with
  | Some t => if zlen t =? 8 then max_edge_id (E := E) g = Ok (last ids)
              else max_edge_id (E := E) g = Err (edge_primary_length (zlen rows_prefix + zlen t) (zlen rows_prefix + 8))
  | None => max_edge_id (E := E) g = Ok None
  end.
Proof using h_bytes.
  intros L. eexists. split; [by apply edge_ids_suffixes|]. unfold max_edge_id. rewrite rows_prefix_key. cbn [mbind outcome_bind].
  rewrite scan_range_iter_spec. pose proof (range_pairs_fst (contents (g_store g)) rows_prefix (prefix_end rows_prefix)) as Ef.
  rewrite range_keys_prefix in Ef by (done || apply rows_prefix_ok). fold (row_suffixes g) in Ef.
  set (items := range_pairs _ _ _) in *. clearbody items. pose proof (suffix_ok g) as Ok. specialize (λ t, Ok t L).
  set (sfx := row_suffixes g) in *. clearbody sfx.
  destruct sfx as [|t sfx _] using rev_ind; [by destruct items|].
  destruct items as [|[k v] items _] using rev_ind; [by destruct sfx|].
  rewrite !map_app in Ef. cbn [map fst] in Ef. apply app_inj_tail in Ef as [_ ->]. rewrite map_app, !last_snoc. cbn [map].
  rewrite last_snoc. cbn [mbind outcome_bind fst]. rewrite zlen_app. change (KEY_LEN (K := EdgeKey)) with 8.
  destruct (Z.eqb_spec (zlen t) 8) as [Z8|N8].
  - rewrite Z8, Z.eqb_refl. cbn [negb]. pose proof (slice_all_from rows_prefix t) as Sl. rewrite zlen_app, Z8 in Sl. rewrite Sl.
    cbn [or_panic mbind outcome_bind]. assert (bytes_ok t) as Ht by (apply Ok, elem_of_app; right; by left).
    cbn [decode edge_key]. pose proof (slice_0_app t []) as S0. rewrite app_nil_r, Z8 in S0. rewrite S0. cbn [or_panic mbind outcome_bind liftp edge_id].
    f_equal. rewrite omap_app. unfold omap at 2. simpl. unfold id_of at 2. rewrite Z8. change (8 =? 8) with true. cbn match.
    by rewrite last_snoc.
  - rewrite (proj2 (Z.eqb_neq _ _)) by lia. done.
Qed.
(** ** Neighbours *)

Lemma endpoints_ok g M ids side : edges_at (contents (g_store g)) M -> Forall (λ id, 0 <= id < 2 ^ 64) ids ->
  endpoints (E := E) p g ids side = Ok (omap (M := list) (λ id, (λ x, side (body_of x)) <$> M !! id) ids).
Proof.
  intros St F. induction F as [|id ids Hi F IH]; [done|]. cbn [endpoints]. rewrite (get_edge_ok p g M id St Hi). cbn [mbind outcome_bind].
  rewrite IH. cbn [mbind outcome_bind]. f_equal. cbn [omap list_omap]. by destruct (M !! id).
Qed.

Lemma answers_range c M ids (Q : Edge E -> Prop) : edges_at c M -> answers M ids Q -> Forall (λ id, 0 <= id < 2 ^ 64) ids.
Proof. intros St [_ Mem]. apply Forall_forall. intros id (x & EM & _)%Mem. by apply (ea_fits _ _ St id x EM). Qed.

(** The neighbours of a node are the far ends of the edges its traversal answers,
    in the traversal's order, parallel edges repeated. *)
Theorem neighbours_resolve g ls M n label :
  graph_ok g ls M -> node_ok n ->
  (forall q prefix, q ∈ [OutEdges n; InEdges n; TypedOut label n; TypedIn label n] ->
    query_prefix (E := E) ls q = Some prefix -> long_keys (contents (g_store g)) prefix) ->
  (exists ids, answers M ids (λ x, e_src x = n) /\ out_nodes (E := E) p g n = Ok (omap (M := list) (λ id, e_dst <$> M !! id) ids)) /\
  (exists ids, answers M ids (λ x, e_dst x = n) /\ in_nodes (E := E) p g n = Ok (omap (M := list) (λ id, e_src <$> M !! id) ids)) /\
  (exists c ids, answers M ids (describes ls (TypedOut label n)) /\
    typed_out_nodes (E := E) p label n g = (mkGraph (g_store g) c, Ok (omap (M := list) (λ id, e_dst <$> M !! id) ids))) /\
  (exists c ids, answers M ids (describes ls (TypedIn label n)) /\
    typed_in_nodes (E := E) p label n g = (mkGraph (g_store g) c, Ok (omap (M := list) (λ id, e_src <$> M !! id) ids))).
Proof using h_bytes HDL.
  intros G Hn L. pose proof (proj2 G) as St. destruct edge_slot_in as (S1 & S2 & S3 & S4).
  assert (forall q, q ∈ [OutEdges n; InEdges n; TypedOut label n; TypedIn label n] ->
    exists c ids, run_query (E := E) p q g = (mkGraph (g_store g) c, Ok ids) /\ graph_ok (mkGraph (g_store g) c) ls M /\ answers M ids (describes ls q)) as T.
  { intros q Hq. apply traversal_exact; [done..| |by intros prefix; apply L].
    rewrite !elem_of_cons, elem_of_nil in Hq. destruct Hq as [-> |[-> |[-> |[-> |[]]]]]; by constructor. }
  split; [|split; [|split]].
  - destruct (T (OutEdges n)) as (c & ids & Er & _ & A); [rewrite !elem_of_cons; naive_solver|]. exists ids. split; [done|].
    apply (f_equal snd) in Er. cbn [run_query reading snd] in Er. unfold out_nodes. rewrite Er. cbn [mbind outcome_bind]. by rewrite (endpoints_ok g M) by (done || by eapply answers_range).
  - destruct (T (InEdges n)) as (c & ids & Er & _ & A); [rewrite !elem_of_cons; naive_solver|]. exists ids. split; [done|].
    apply (f_equal snd) in Er. cbn [run_query reading snd] in Er. unfold in_nodes. rewrite Er. cbn [mbind outcome_bind]. by rewrite (endpoints_ok g M) by (done || by eapply answers_range).
  - destruct (T (TypedOut label n)) as (c & ids & Er & G' & A); [rewrite !elem_of_cons; naive_solver|]. exists c, ids. split; [done|].
    cbn [run_query] in Er. unfold typed_out_nodes, mbind, enc_bind, reading. rewrite Er.
    by rewrite (endpoints_ok (mkGraph (g_store g) c) M) by (done || by eapply answers_range).
  - destruct (T (TypedIn label n)) as (c & ids & Er & G' & A); [rewrite !elem_of_cons; naive_solver|]. exists c, ids. split; [done|].
    cbn [run_query] in Er. unfold typed_in_nodes, mbind, enc_bind, reading. rewrite Er.
    by rewrite (endpoints_ok (mkGraph (g_store g) c) M) by (done || by eapply answers_range).
Qed.
End Rows.
