(* ===== verification/GraphReindex.v ===== *)
(** * Rebuilding the traversal faces (okm-core, [model/graph.rs], [reindex])

    The four traversal faces are derived structure.  [reindex] sweeps their slots
    and derives them again from the rows, in chunks; the theorem says that,
    whatever stood there, the graph represents its rows again. *)
From S2P Require Import Prelude Errors Storage Slots VarInt Vocab DynValue Segment Fields Payload Keys Index Meta Reduces Collection Declared Table Graph GraphEdges GraphWrites GraphScans GraphRows.

Section Reindex.
Context {E : Type} `{HD : !Document EdgeKey E} `{HDL : !DocumentLaws EdgeKey E} `{HG : !GraphEncode E}.
Context {S : Type} `{ReliableStorage S}.
Variable p : profile.

Abbreviation h := (graph_ns (E := E)).
Abbreviation Rx := (Reindex (S := S)).
Hypothesis h_bytes : bytes_ok h.

Implicit Types (x : Edge E) (M : gmap Z (Edge E)) (id : Z) (key : bytes) (s : Rx).

(** ** Commits inside the loops *)

(** The contents once the pending batch has been committed. *)
Definition ahead_rx s : gmap bytes bytes := apply_batch (contents (rx_store s)) (ops (rx_batch s)).

Definition deletes_rx s : Prop := Forall (λ op, op.2 = None) (ops (rx_batch s)).

(** What committing early does not change. *)
Record same (s s' : Rx) : Prop := {
  sm_ahead : ahead_rx s' = ahead_rx s;
  sm_count : rebuilt s' = rebuilt s;
  sm_dels : deletes_rx s -> deletes_rx s' /\ forall key, is_Some (contents (rx_store s') !! key) -> is_Some (contents (rx_store s) !! key)
}.

Lemma same_refl s : same s s.
Proof. by split. Qed.

Lemma runs_rx_commit s (Q : unit -> Rx -> Prop) :
  (forall s', same s s' -> ops (rx_batch s') = [] -> Q tt s') -> runs rx_commit s Q.
Proof.
  intros HQ. destruct (commit_batch_spec (rx_store s) (rx_batch s)) as (st & Ec & Hc).
  eexists _, tt. unfold rx_commit. rewrite Ec. split; [done|]. apply HQ; [|done]. split; cbn.
  - unfold ahead_rx. cbn. by rewrite Hc.
  - done.
  - intros D. split; [constructor|]. intros key. rewrite Hc. by apply only_deletes_shrink.
Qed.

Lemma runs_rx_full chunk s (Q : unit -> Rx -> Prop) : (forall s', same s s' -> Q tt s') -> runs (rx_full chunk) s Q.
Proof.
  intros HQ. unfold rx_full. destruct (chunk <=? zlen (ops (rx_batch s))) eqn:Ec.
  - destruct (runs_rx_commit s Q) as (s' & a & Em & P); [auto|]. exists s', a. by rewrite Ec.
  - exists s, tt. rewrite Ec. split; [done|]. apply HQ, same_refl.
Qed.

Lemma runs_rx_flush s (Q : unit -> Rx -> Prop) : (forall s', same s s' -> ops (rx_batch s') = [] -> Q tt s') -> runs rx_flush s Q.
Proof.
  intros HQ. unfold rx_flush. destruct (ops (rx_batch s)) eqn:Eo.
  - exists s, tt. rewrite Eo. split; [done|]. apply HQ; [apply same_refl|done].
  - destruct (runs_rx_commit s Q HQ) as (s' & a & Em & P). exists s', a. by rewrite Eo.
Qed.

(** ** The sweep *)

(** [s'] is [s] with the keys that [P] accepts gone. *)
Record gone (P : bytes -> Prop) (s s' : Rx) : Prop := {
  gn_gone key : P key -> ahead_rx s' !! key = None;
  gn_kept key : ~ P key -> ahead_rx s' !! key = ahead_rx s !! key;
  gn_count : rebuilt s' = rebuilt s;
  gn_dels : deletes_rx s';
  gn_shrink key : is_Some (contents (rx_store s') !! key) -> is_Some (contents (rx_store s) !! key)
}.

Lemma runs_rx_sweep chunk (l : list (bytes * bytes)) : forall s (Q : unit -> Rx -> Prop),
  deletes_rx s -> (forall s', gone (λ key, key ∈ map fst l) s s' -> Q tt s') -> runs (rx_sweep chunk (map Ok l)) s Q.
Proof.
  induction l as [|[key v] l IH]; intros s Q D HQ; cbn [map rx_sweep].
  - apply runs_ret, HQ. split; try done. intros key Hin. by apply elem_of_nil in Hin.
  - apply runs_bind. eapply runs_reading; [done|]. apply runs_bind. eexists _, tt. split; [done|]. cbn [fst].
    set (s1 := mkReindex _ _ _). assert (deletes_rx s1) as D1 by (apply Forall_app; split; [done|by apply Forall_singleton]).
    assert (ahead_rx s1 = delete key (ahead_rx s)) as A1 by apply (apply_batch_snoc _ _ (key, None)).
    apply runs_bind, runs_rx_full. intros s2 [A2 R2 D2]. specialize (D2 D1) as [D2 C2].
    apply (IH s2); [done|]. intros s3 [G3 K3 R3 D3 C3]. apply HQ. split; [..|done|by intros k' ?%C3%C2].
    + intros key' Hin. destruct (decide (key' ∈ map fst l)) as [?|N]; [by apply G3|]. rewrite K3 by done.
      apply elem_of_cons in Hin as [->|?]; [|done]. rewrite A2, A1. apply lookup_delete_eq.
    + intros key' [N ?]%not_elem_of_cons. rewrite K3, A2, A1 by done. by apply lookup_delete_ne.
    + by rewrite R3, R2.
Qed.

(** The keys under one of the slots. *)
Definition under_slots (slots : list Slot) key : Prop := exists sl t, sl ∈ slots /\ key = gkey (E := E) sl t.

Lemma gkey_under (sl : Slot) key : (exists t, key = gkey (E := E) sl [] ++ t) <-> exists t, key = gkey (E := E) sl t.
Proof. unfold gkey. rewrite app_nil_r. split; intros [t ->]; exists t; by rewrite <- ?app_assoc. Qed.

#[local] Instance under_dec (sl : Slot) key : Decision (exists t, key = gkey (E := E) sl t).
Proof.
  destruct (decide (take (length (gkey (E := E) sl [])) key = gkey sl [])) as [T|T]; [left|right]; rewrite <- gkey_under;
    by rewrite <- take_prefix.
Defined.

(** A walk over a slot meets its keys. *)
Lemma slot_items (st : S) (sl : Slot) key : slot_ok sl -> long_keys (contents st) (gkey (E := E) sl []) ->
  key ∈ map fst (range_pairs (contents st) (gkey (E := E) sl []) (prefix_end (gkey (E := E) sl []))) <->
  is_Some (contents st !! key) /\ exists t, key = gkey (E := E) sl t.
Proof using h_bytes.
  intros Hs L. rewrite range_pairs_fst, range_keys_prefix by (done || (apply gkey_bytes; [done|done|by apply Forall_nil])).
  rewrite <- gkey_under, list_elem_of_fmap. split.
  - intros (t & -> & Ht%elem_of_carried). split; [done|by exists t].
  - intros [Hk [t ->]]. exists t. split; [done|by apply elem_of_carried].
Qed.

Lemma runs_rx_sweeps chunk slots : forall s (Q : unit -> Rx -> Prop),
  deletes_rx s -> Forall (λ sl, slot_ok sl /\ long_keys (contents (rx_store s)) (gkey (E := E) sl [])) slots ->
  (forall s', gone (under_slots slots) s s' -> Q tt s') -> runs (rx_sweeps (E := E) chunk slots) s Q.
Proof using h_bytes.
  induction slots as [|sl slots IH]; intros s Q D F HQ; cbn [rx_sweeps].
  - apply runs_ret, HQ. split; try done. by intros key (sl & t & Hd%elem_of_nil & _).
  - apply Forall_cons in F as [(Hs & L) F]. apply runs_bind. eapply runs_reading; [by apply face_key_ok|]. cbn [concat].
    apply runs_bind. unfold rx_scan. eapply runs_reading; [by rewrite scan_range_iter_spec|].
    apply runs_bind. apply runs_rx_sweep; [done|]. intros s1 [G1 K1 R1 D1 C1].
    apply (IH s1); [done|..].
    { eapply Forall_impl; [exact F|]. intros sl' [? L']. split; [done|]. intros key Hk. by apply L', C1. }
    intros s2 [G2 K2 R2 D2 C2]. apply HQ.
    assert (forall key, (exists t, key = gkey (E := E) sl t) -> ahead_rx s1 !! key = None) as Gone.
    { intros key U. destruct (ahead_rx s !! key) as [v|] eqn:Ea.
      - apply G1, slot_items; [done..|]. split; [|done]. apply (only_deletes_shrink _ _ _ D). by exists v.
      - destruct (decide (key ∈ map fst (range_pairs (contents (rx_store s)) (gkey (E := E) sl []) (prefix_end (gkey (E := E) sl [])))))
          as [?|N]; [by apply G1|]. by rewrite K1. }
    assert (forall key, ~ (exists t, key = gkey (E := E) sl t) -> ahead_rx s1 !! key = ahead_rx s !! key) as Kept.
    { intros key N. apply K1. intros Hin. by apply slot_items in Hin as [_ ?]. }
    split; [..|by rewrite R2|done|by intros key ?%C2%C1].
    + intros key (sl' & t & [->|Hsl]%elem_of_cons & ->); [|by apply G2; exists sl', t].
      destruct (decide (Exists (λ sl', exists t', gkey (E := E) sl t = gkey (E := E) sl' t') slots)) as [X|X].
      * apply Exists_exists in X as (sl' & Hsl & t' & Et). apply G2. by exists sl', t'.
      * rewrite K2 by (intros (sl' & t' & Hsl & Et); apply X, Exists_exists; exists sl'; split; [done|by exists t']). apply Gone. by exists t.
    + intros key N. rewrite K2 by (intros (sl' & t & Hsl & Et); apply N; exists sl', t; split; [by right|done]).
      apply Kept. intros [t Et]. apply N. exists sl, t. split; [by left|done].
Qed.
(** ** Deriving the faces *)

(** The rows of the store are those of the map. *)
Definition rows_in (c : gmap bytes bytes) M : Prop :=
  (forall id x, M !! id = Some x -> edge_fits id x) /\
  (forall id, 0 <= id < 2 ^ 64 -> c !! prik (E := E) id = edge_bytes <$> M !! id).

(** The traversal slots hold the entries of the rows [ids]. *)
Definition derived_rx M (ids : list Z) (c : gmap bytes bytes) : Prop :=
  forall (sl : Slot) t v, sl ∈ edge_slots ->
  (c !! gkey (E := E) sl t = Some v <-> v = [] /\ exists id x, id ∈ ids /\ M !! id = Some x /\ t = face_tail sl x ++ be_bytes 8 id).

Lemma newest_keys (ks : list bytes) key : newest (map (λ k, (k, [])) ks) key = if decide (key ∈ ks) then Some ([] : bytes) else None.
Proof.
  destruct (newest _ key) as [v|] eqn:Nw.
  - apply newest_Some, list_elem_of_fmap in Nw as (k & [= -> ->] & Hk). by rewrite decide_True.
  - apply newest_None in Nw. rewrite map_map, map_id in Nw. by rewrite decide_False.
Qed.

Lemma faces4_key id x (sl : Slot) t : sl ∈ edge_slots -> gkey (E := E) sl t ∈ faces4 id x <-> t = face_tail sl x ++ be_bytes 8 id.
Proof.
  intros Hs. unfold faces4. rewrite list_elem_of_fmap. split.
  - intros (sl' & Ek & Hs'). by apply gkey_slot in Ek as [<- ->]; [|apply edge_slots_ok..].
  - intros ->. by exists sl.
Qed.

Lemma ahead_row s id x :
  forall key, ahead_rx (mkReindex (rx_store s) (fold_left (λ b k, Batch_put b k []) (faces4 (E := E) id x) (rx_batch s)) (rebuilt s + 1)) !! key
    = if decide (key ∈ faces4 (E := E) id x) then Some [] else ahead_rx s !! key.
Proof.
  intros key. unfold ahead_rx. cbn [rx_store rx_batch]. assert (forall ks b, fold_left (λ b k, Batch_put b k []) ks b =
    mkBatch (ops b ++ put_list (map (λ k, (k, [])) ks))) as ->.
  { induction ks as [|k ks IH]; intros b; cbn [fold_left map]; [unfold put_list; cbn [map]; rewrite app_nil_r; by destruct b|].
    rewrite IH. unfold put_list. cbn [ops Batch_put map fst snd]. by rewrite <- app_assoc. }
  cbn [ops]. rewrite apply_batch_app, apply_put_list, newest_keys. by case_decide.
Qed.

(** One more row. *)
Lemma derived_next M ids s id x : M !! id = Some x -> derived_rx M ids (ahead_rx s) ->
  let s' := mkReindex (rx_store s) (fold_left (λ b k, Batch_put b k []) (faces4 (E := E) id x) (rx_batch s)) (rebuilt s + 1) in
  derived_rx M (ids ++ [id]) (ahead_rx s') /\ forall key, ~ under_slots edge_slots key -> ahead_rx s' !! key = ahead_rx s !! key.
Proof.
  intros EM Dv s'. split.
  - intros sl t v Hs. unfold s'. rewrite ahead_row. case_decide as Hin.
    + apply faces4_key in Hin as ->; [|done]. split.
      * intros [= <-]. split; [done|]. exists id, x. split; [apply elem_of_app; right; by left|done].
      * by intros [-> _].
    + rewrite (Dv sl t v Hs). split; intros (-> & id' & x' & Hid & EM' & ->); (split; [done|]); exists id', x'; (split; [|done]).
      * apply elem_of_app. by left.
      * apply elem_of_app in Hid as [?| ->%list_elem_of_singleton]; [done|]. exfalso. apply Hin. rewrite EM in EM'. injection EM' as <-.
        by apply faces4_key.
  - intros key Nu. unfold s'. rewrite ahead_row, decide_False; [done|]. intros (sl & -> & Hs)%list_elem_of_fmap. apply Nu. by eexists sl, _.
Qed.

(** A suffix and the value under it, as the walk over the rows meets them. *)
Definition row_item (tv : bytes * bytes) : bytes * bytes := (rows_prefix (E := E) ++ tv.1, tv.2).

Definition row_known M (tv : bytes * bytes) : Prop := forall id, id_of tv.1 = Some id -> exists x, M !! id = Some x /\ tv.2 = edge_bytes x.

Lemma row_keys_ok M t v : (forall id x, M !! id = Some x -> edge_fits id x) -> row_known M (t, v) ->
  row_keys (E := E) p (zlen (rows_prefix (E := E))) (row_item (t, v)) =
  Ok (id ← id_of t; x ← M !! id; Some (faces4 (E := E) id x)).
Proof.
  intros Fits Kn. unfold row_keys, row_item. cbn [fst snd]. rewrite slice_all_from. cbn [or_panic mbind outcome_bind].
  destruct (id_of t) as [id|] eqn:Ei; [|done]. cbn [mbind option_bind]. destruct (Kn id Ei) as (x & EM & Ev). cbn [snd] in Ev. subst v.
  rewrite EM. pose proof (Fits id x EM) as Fit. rewrite (decode_body_ok p id x) by done. cbn [liftp mbind outcome_bind b_src b_dst predicate_vocab_id].
  destruct Fit as (_ & Hs & Hd & _ & _ & Ms & Md). rewrite check_members_ok, !NodeRef_encode_ok by done. cbn [liftp mbind outcome_bind].
  by rewrite face_keys_ok.
Qed.

Lemma runs_rx_derive chunk M (l : list (bytes * bytes)) : (forall id x, M !! id = Some x -> edge_fits id x) -> Forall (row_known M) l ->
  forall s ids (Q : unit -> Rx -> Prop), derived_rx M ids (ahead_rx s) ->
  (forall s', derived_rx M (ids ++ omap id_of (map fst l)) (ahead_rx s') ->
    (forall key, ~ under_slots edge_slots key -> ahead_rx s' !! key = ahead_rx s !! key) ->
    rebuilt s' = rebuilt s + zlen (omap id_of (map fst l)) -> Q tt s') ->
  runs (rx_derive (E := E) p chunk (zlen (rows_prefix (E := E))) (map Ok (map row_item l))) s Q.
Proof.
  intros Fits F. induction F as [|[t v] l Kn F IH]; intros s ids Q Dv HQ; cbn [map rx_derive].
  - apply runs_ret, HQ; [by rewrite app_nil_r|done|change (zlen (omap id_of (map fst []))) with 0; lia].
  - apply runs_bind. eapply runs_reading; [done|]. apply runs_bind. eapply runs_reading; [by apply (row_keys_ok M t v)|].
    cbn [map fst] in HQ. destruct (id_of t) as [id|] eqn:Ei; cbn [mbind option_bind].
    + destruct (Kn id Ei) as (x & EM & _). rewrite EM. destruct (derived_next M ids s id x EM Dv) as [Dv' Kp].
      set (s1 := mkReindex (rx_store s) (fold_left (λ b k, Batch_put b k []) (faces4 id x) (rx_batch s)) (rebuilt s + 1)) in *.
      apply runs_bind, runs_bind. exists s1, tt. split; [done|]. apply runs_rx_full. intros s2 [A2 R2 _].
      apply (IH s2 (ids ++ [id])); [by rewrite A2|]. intros s3 Dv3 Kp3 R3. apply HQ.
      * unfold omap in *. simpl. rewrite Ei. by rewrite <- app_assoc in Dv3.
      * intros key Nu. by rewrite Kp3, A2, Kp.
      * rewrite R3, R2. unfold omap in *. simpl. rewrite Ei. unfold s1. cbn [rebuilt]. zlia.
    + apply runs_bind, runs_ret. apply (IH s ids); [done|]. intros s3 Dv3 Kp3 R3. apply HQ; [|done|].
      * unfold omap in *. simpl. by rewrite Ei.
      * rewrite R3. unfold omap in *. simpl. by rewrite Ei.
Qed.
(** ** The whole verb *)

Lemma range_rows (c : gmap bytes bytes) : long_keys c (rows_prefix (E := E)) ->
  range_pairs c (rows_prefix (E := E)) (prefix_end (rows_prefix (E := E))) = map row_item (carried_pairs c (rows_prefix (E := E))).
Proof using h_bytes.
  intros L. unfold range_pairs, carried_pairs. rewrite map_omap. apply range_keys_carried; [by apply rows_prefix_ok|done|..].
  - intros k [v Ev] T. apply take_prefix in T as [t ->]. rewrite carried_app, Ev. done.
  - intros k T. unfold carried. by rewrite decide_False.
Qed.

Lemma rows_known (c : gmap bytes bytes) M : rows_in c M -> long_keys c (rows_prefix (E := E)) ->
  Forall (row_known M) (carried_pairs c (rows_prefix (E := E))).
Proof.
  intros [_ Pri] L. apply Forall_forall. intros [t v] Ht%elem_of_carried_pairs id Ei. cbn [fst snd] in *.
  assert (is_Some (c !! (rows_prefix (E := E) ++ t))) as [Ok _]%L by by exists v. apply Forall_app in Ok as [_ Ok].
  apply id_of_Some in Ei as [-> Hi]; [|done]. rewrite rows_prefix_app in Ht. fold (prik (E := E) id) in Ht. rewrite Pri in Ht by done.
  destruct (M !! id) as [x|]; [|done]. injection Ht as <-. by exists x.
Qed.

Lemma zlen_size (ids : list Z) M : NoDup ids -> (forall id, id ∈ ids <-> is_Some (M !! id)) -> zlen ids = Z.of_nat (size M).
Proof.
  intros ND Mem. unfold zlen. f_equal. rewrite <- (size_list_to_set (C := gset Z) ids ND), <- (size_dom M). f_equal.
  apply set_eq. intros id. by rewrite elem_of_list_to_set, Mem, elem_of_dom.
Qed.

Lemma Zlt_sorted_NoDup (l : list Z) : StronglySorted Z.lt l -> NoDup l.
Proof.
  induction 1 as [|a l Sl IH F]; constructor; [|done]. intros Hin. rewrite Forall_forall in F. specialize (F a Hin). lia.
Qed.

Lemma walked_ids (c : gmap bytes bytes) M : rows_in c M -> long_keys c (rows_prefix (E := E)) ->
  let ids := omap id_of (map fst (carried_pairs c (rows_prefix (E := E)))) in
  (forall id, id ∈ ids <-> is_Some (M !! id)) /\ zlen ids = Z.of_nat (size M).
Proof.
  intros [Fits Pri] L ids. destruct (rows_ids c M Fits Pri L) as [Sl Mem]. split; [done|]. apply zlen_size; [|done]. by apply Zlt_sorted_NoDup.
Qed.

Definition face_slots_scannable (c : gmap bytes bytes) : Prop :=
  Forall (λ sl, long_keys c (gkey (E := E) sl [])) (PRIMARY_SLOT :: edge_slots).

(** The body of the rebuild, from an empty batch. *)
Lemma runs_reindex_body chunk (st : S) M : rows_in (contents st) M -> face_slots_scannable (contents st) ->
  runs (reindex_body (E := E) p chunk) (mkReindex st Batch_default 0) (λ _ s',
    rebuilt s' = Z.of_nat (size M) /\
    derived_rx M (omap id_of (map fst (carried_pairs (contents st) (rows_prefix (E := E))))) (contents (rx_store s')) /\
    forall key, ~ under_slots edge_slots key -> contents (rx_store s') !! key = contents st !! key).
Proof using h_bytes HDL.
  intros Rows Sc. apply Forall_cons in Sc as [L0 Sc]. pose proof Rows as [Fits Pri]. unfold reindex_body.
  apply runs_bind. apply (runs_rx_sweeps chunk edge_slots (mkReindex st Batch_default 0)); [constructor| |].
  { apply Forall_forall. intros sl Hs. rewrite Forall_forall in Sc. split; [by apply edge_slots_ok|by apply Sc]. }
  intros s1 [G1 K1 R1 D1 C1]. cbn [rx_store rebuilt] in *. apply runs_bind, runs_rx_flush. intros s2 [A2 R2 D2] O2.
  specialize (D2 D1) as [_ C2]. assert (contents (rx_store s2) = ahead_rx s1) as E2 by (rewrite <- A2; unfold ahead_rx; by rewrite O2).
  assert (forall key, ~ under_slots edge_slots key -> contents (rx_store s2) !! key = contents st !! key) as F2.
  { intros key Nu. rewrite E2. by apply K1. }
  assert (long_keys (contents (rx_store s2)) (rows_prefix (E := E))) as L2 by (intros key Hk; by apply L0, C1, C2).
  assert (carried_pairs (contents (rx_store s2)) (rows_prefix (E := E)) = carried_pairs (contents st) (rows_prefix (E := E))) as Ecp.
  { apply carried_pairs_ext. intros t. apply F2. intros (sl & t' & Hs & Ek). rewrite rows_prefix_app in Ek.
    apply gkey_slot in Ek as [<- _]; [|apply PRIMARY_ok|by apply edge_slots_ok]. apply edge_slots_ok in Hs as [_ Hs]. unfold PRIMARY_SLOT in Hs. lia. }
  apply runs_bind. eapply runs_reading; [by apply face_key_ok, PRIMARY_ok|]. cbn [concat]. fold (rows_prefix (E := E)).
  apply runs_bind. unfold rx_scan. eapply runs_reading; [by rewrite scan_range_iter_spec|]. rewrite range_rows, Ecp by done.
  apply runs_bind. apply (runs_rx_derive chunk M _ Fits) with (ids := []).
  - by apply rows_known.
  - intros sl t v Hs. rewrite A2, G1 by by exists sl, t. split; [done|]. by intros (_ & id & x & Hid%elem_of_nil & _).
  - intros s3 Dv3 K3 R3. apply runs_rx_flush. intros s4 [A4 R4 _] O4.
    assert (contents (rx_store s4) = ahead_rx s3) as E4 by (rewrite <- A4; unfold ahead_rx; by rewrite O4).
    split; [|split].
    + destruct (walked_ids (contents st) M Rows L0) as [_ Zs]. rewrite R4, R3, R2, R1. cbn [rebuilt]. rewrite Zs. lia.
    + by rewrite E4.
    + intros key Nu. rewrite E4, K3, <- (F2 key Nu) by done. rewrite A2. by rewrite E2.
Qed.

(** C33: Whatever stands under the traversal slots, entries of an older layout or
    none at all, [reindex] makes them the faces of the rows: the graph represents
    its rows again, for every chunk size, the count is the number of edges, and
    nothing outside the four slots changes. *)
Theorem reindex_refines g ls M chunk :
  holds 2 h PREDICATE_VOCAB (g_vocab g) (g_store g) ls -> rows_in (contents (g_store g)) M -> face_slots_scannable (contents (g_store g)) ->
  (forall key v, gface (E := E) key -> ~ under_slots edge_slots key ->
    (contents (g_store g) !! key = Some v <-> exists id x, M !! id = Some x /\ newest (gentries id x) key = Some v)) ->
  exists st, reindex (E := E) p chunk g = (mkGraph st (g_vocab g), Ok (Z.of_nat (size M))) /\
  graph_ok (mkGraph st (g_vocab g)) ls M /\
  forall key, ~ under_slots edge_slots key -> contents st !! key = contents (g_store g) !! key.
Proof using h_bytes HDL.
  intros V Rows Sc Decl. destruct (runs_reindex_body (chunk `max` 1) (g_store g) M Rows Sc) as (s' & [] & Er & Rb & Dv & Kp).
  apply Forall_cons in Sc as [L0 _]. destruct (walked_ids _ M Rows L0) as [Mem _].
  exists (rx_store s'). unfold reindex. rewrite Er, <- Rb. split; [done|]. split; [split|done]; cbn [g_store g_vocab].
  - destruct V as (F1 & C1 & A1). split; [done|]. split; [done|]. eapply entries_at_same; [|exact A1]. intros key Hk. apply Kp.
    intros (sl & t & Hs & ->). eapply gface_apart; [|exact Hk]. exists sl, t. split; [apply elem_of_app; by left|done].
  - destruct Rows as [Fits Pri]. split; [done|..].
    + intros id Hi. rewrite Kp; [by apply Pri|]. intros (sl & t & Hs & Ek). unfold prik in Ek.
      apply gkey_slot in Ek as [<- _]; [|apply PRIMARY_ok|by apply edge_slots_ok]. apply edge_slots_ok in Hs as [_ Hs]. unfold PRIMARY_SLOT in Hs. lia.
    + intros key v Hf. destruct (decide (Exists (λ sl, exists t, key = gkey (E := E) sl t) edge_slots)) as [X|X].
      * apply Exists_exists in X as (sl & Hs & t & ->). rewrite (Dv sl t v Hs). split.
        -- intros (-> & id & x & _ & EM & ->). exists id, x. split; [done|]. apply edge_slot_entry; [exact (Fits _ _ EM)|done|done].
        -- intros (id & x & EM & Nw). apply edge_slot_entry in Nw as [-> ->]; [|exact (Fits _ _ EM)|done]. split; [done|].
           exists id, x. split; [|done]. apply Mem. by exists x.
      * assert (~ under_slots edge_slots key) as Nu by (intros (sl & t & Hs & ->); apply X, Exists_exists; exists sl; split; [done|by exists t]).
        by rewrite Kp, Decl.
Qed.
End Reindex.
