(* ===== verification/GraphAttrs.v ===== *)
(** * Open attributes (okm-core, [model/graph.rs])

    An edge's undeclared attributes are the dynamic segment of its id, named by
    the field vocabulary of the graph.  The theorem follows the segment through
    the verbs: [replace_into] stores what [attrs] answers, a link clears it, and
    an unlink leaves it where it is. *)
From S2P Require Import Prelude Errors Storage Slots VarInt Vocab DynValue Segment Fields Payload Keys Index Meta Reduces Collection Declared Table Graph GraphEdges GraphWrites GraphScans.

Section Attrs.
Context {E : Type} `{HD : !Document EdgeKey E} `{HDL : !DocumentLaws EdgeKey E} `{HG : !GraphEncode E}.
Context {S : Type} `{ReliableStorage S}.
Variables (p : profile) (capacity : Z).

Abbreviation h := (graph_ns (E := E)).

Implicit Types (M N : gmap Z (Edge E)) (id : Z) (key : bytes) (g : Graph S).

Lemma field_apart :
  (forall id, ~ on_faces h FIELD_VOCAB (prik (E := E) id)) /\ (forall id, ~ on_faces h FIELD_VOCAB (gkey (E := E) DYNAMIC_SLOT (be_bytes 8 id))) /\
  forall key, gface (E := E) key -> ~ on_faces h FIELD_VOCAB key.
Proof using HDL. apply low_faces_apart; [apply FIELD_VOCAB_ok|done..]. Qed.

Lemma predicate_field_apart key : on_faces h PREDICATE_VOCAB key -> ~ on_faces h FIELD_VOCAB key.
Proof. apply on_faces_apart; [apply FIELD_VOCAB_ok|apply PREDICATE_ok|done]. Qed.

(** A store that differs on the field vocabulary only. *)
Definition grown_store g (st : S) : Prop := forall key, ~ on_faces h FIELD_VOCAB key -> contents st !! key = contents (g_store g) !! key.

Lemma grown_graph g st ls M : graph_ok g ls M -> grown_store g st -> graph_ok (mkGraph st (g_vocab g)) ls M.
Proof using HDL.
  intros [(F & C & A) St] Gr. destruct field_apart as (A1 & _ & A3). split; cbn [g_vocab g_store].
  - split; [done|]. split; [done|]. eapply entries_at_same; [|exact A]. intros key Hk. by apply Gr, predicate_field_apart.
  - eapply edges_frame; [intros id; apply Gr, A1|intros key Hf; by apply Gr, A3|done].
Qed.

(** The contents after the segment of one edge has been rewritten. *)
Definition with_segment (c : gmap bytes bytes) id (body : option bytes) (c' : gmap bytes bytes) : Prop :=
  forall key, c' !! key = if decide (key = dynk (E := E) id) then body else c !! key.

Lemma segment_graph g st ls M id body : graph_ok g ls M -> with_segment (contents (g_store g)) id body (contents st) ->
  graph_ok (mkGraph st (g_vocab g)) ls M.
Proof using HDL.
  intros [(F & C & A) St] W. split; cbn [g_vocab g_store].
  - split; [done|]. split; [done|]. eapply entries_at_same; [|exact A]. intros key Hk. change (held st !! key) with (contents st !! key).
    rewrite W, decide_False; [done|]. intros ->. by destruct (proj1 (proj2 predicate_apart) id).
  - eapply edges_frame; [..|exact St].
    + intros id'. rewrite W, decide_False; [done|]. intros Eq. symmetry in Eq. by apply dynk_not_prik in Eq.
    + intros key Hf. rewrite W, decide_False; [done|]. intros ->. by apply dynk_not_face in Hf.
Qed.

(** The segment of an edge stores the map [l]: whatever the reader, its frames
    are the values of [l] under numbers that the vocabulary resolves. *)
Definition has_attrs (c : gmap bytes bytes) id (l : list (bytes * DynamicValue)) : Prop :=
  exists vls body, l <> [] /\ StronglySorted bytes_lt (map fst l) /\ vocab_at 2 h FIELD_VOCAB c vls /\ c !! dynk (E := E) id = Some body /\
  forall A name_of (J : A -> Prop) x, realizes name_of J (numbered vls) -> J x ->
  exists x' fs, decode_named p capacity name_of body x = Ok (x', fs) /\ J x' /\ map field_value fs = map snd l /\
  Forall2 (λ f (kv : bytes * DynamicValue), 0 <= field_id f < 2 ^ 16 /\ vls !! Z.to_nat (field_id f) = Some kv.1) fs l.

Lemma attrs_key {X} id : fields_key h (be_bytes 8 id) = (Ok (dynk (E := E) id) : outcome X bytes).
Proof. apply fields_key_ok. Qed.

Lemma attrs_read g id l : has_attrs (contents (g_store g)) id l -> attrs (E := E) p capacity g id = Ok (Some l).
Proof.
  intros (vls & body & Nl & Hs & V & Eb & D). unfold attrs, slot1_map. rewrite attrs_key. cbn [mbind outcome_bind].
  rewrite get_spec, Eb. cbn [mbind outcome_bind].
  destruct (D _ (parked_name (g_store g) h) (reads_vocab h (g_store g) vls) (VocabCache_new FIELD_VOCAB, Ok tt))
    as ([d' failed] & fs & -> & [Hh' Hf] & Efs & F).
  { by apply parked_name_ok. }
  { split; [|done]. split; [done|]. split; [apply cache_new_ok|done]. }
  cbn [fst snd] in Hf, Hh'. subst failed. cbn [mbind outcome_bind]. destruct fs as [|f fs]; [by inversion F; subst|].
  by rewrite (named_fields_ok h (g_store g) vls (f :: fs) l d' [] Hh' F Efs Hs).
Qed.

Lemma attrs_absent g id : contents (g_store g) !! dynk (E := E) id = None -> attrs (E := E) p capacity g id = Ok None.
Proof. intros Nb. unfold attrs, slot1_map. rewrite attrs_key. cbn [mbind outcome_bind]. by rewrite get_spec, Nb. Qed.

Section Replace.
Variables (g : Graph S) (ls vls nms : list bytes) (M : gmap Z (Edge E)).
Hypothesis (G : graph_ok g ls M) (Hv : vocab_at 2 h FIELD_VOCAB (contents (g_store g)) vls).
Hypothesis (Hnms : Forall (λ k, utf8_valid k = true) nms) (Hroom : zlen vls + zlen nms < 2 ^ 16).

Lemma grown_keeps d st ls' name d' st' r : holds 2 h FIELD_VOCAB d st ls' -> utf8_valid name = true -> grown_store g st ->
  id_for 2 p d st h name = (d', st', r) -> grown_store g st'.
Proof.
  intros Hh U Gr Ei key Nk. destruct (id_for_frame p 2 h FIELD_VOCAB FIELD_VOCAB_ok ltac:(lia) d st ls' name key Hh U Nk)
    as (d1 & st1 & r1 & E1 & X). rewrite Ei in E1. injection E1 as <- <- _. rewrite <- Gr by done. apply X. lia.
Qed.

(** [replace_into] in a batch of its own, then [attrs]. *)
Lemma replace_attrs id (l : list (bytes * DynamicValue)) :
  StronglySorted bytes_lt (map fst l) -> Forall (λ kv, kv.1 ∈ nms) l ->
  Forall (λ kv, DynValue.value_ok capacity (λ k, k ∈ nms) kv.2) l -> fold_right (λ kv n, weight kv.2 + 13 + n) 0 l < 2 ^ 49 ->
  exists g' more, in_batch (replace_into (E := E) p id l) g = (g', Ok tt) /\ graph_ok g' ls M /\
  vocab_at 2 h FIELD_VOCAB (contents (g_store g')) (vls ++ more) /\
  match l with [] => contents (g_store g') !! dynk (E := E) id = None | _ => has_attrs (contents (g_store g')) id l end.
Proof using G Hv Hnms Hroom HDL.
  intros Hs HP Hok Hw.
  assert (grown h vls nms (grown_store g) (numbered vls) (VocabCache_new FIELD_VOCAB, g_store g)) as G0.
  { exists vls. split; [split; [done|]; split; [apply cache_new_ok|done]|]. split; [done|].
    split; [set_solver|]. split; [|done]. exists []. by rewrite app_nil_r. }
  destruct (put_all_grown p capacity h vls nms Hnms Hroom (grown_store g) grown_keeps l _ Hok HP Hw G0)
    as (d & st & body & more & Ep & V & Gr & Hne & D). cbn [snd] in *.
  set (g1 := mkGraph st (g_vocab g)). pose proof (grown_graph g st ls M G Gr) as G1.
  set (o := match l with [] => None | _ => Some body end).
  assert (exists g2 b, replace_into (E := E) p id l (g, Batch_default) = ((g2, b), Ok tt) /\ g_vocab g2 = g_vocab g /\
    graph_ok g2 ls M /\ vocab_at 2 h FIELD_VOCAB (contents (g_store g2)) (vls ++ more) /\
    with_segment (contents (g_store g2)) id o (apply_batch (contents (g_store g2)) (ops b))) as (g2 & b & Er & Ev & G2 & V2 & W).
  { unfold replace_into. rewrite dynamic_key_ok. fold (dynk (E := E) id). unfold mbind at 1, enc_bind at 1. cbn [lift].
    unfold mbind at 1, enc_bind at 1, del_op. destruct l as [|kv l].
    - eexists g, _. split; [done|]. cbn in Ep. injection Ep as <- <- <-. do 3 (split; [done|]). intros key. cbn.
      unfold apply_op. cbn [fst snd]. case_decide as Ek; [rewrite Ek; apply lookup_delete_eq|by rewrite lookup_delete_ne].
    - unfold mbind at 1, enc_bind at 1. change (put_all p (attr_id_for (E := E) p)) with (put_all p (field_id_for (T := S) p h)).
      rewrite Ep. eexists g1, _. split; [done|]. split; [done|]. split; [done|]. split; [done|]. intros key. cbn.
      unfold apply_op. cbn [fst snd]. case_decide as Ek; [rewrite Ek; apply lookup_insert_eq|].
      by rewrite lookup_insert_ne, lookup_delete_ne by done. }
  unfold in_batch. rewrite Er. destruct (commit_batch_spec (g_store g2) b) as (st' & Ec & Hc). rewrite Ec. rewrite <- Hc in W.
  eexists _, more. split; [done|]. split; [by eapply segment_graph|]. cbn [g_store].
  assert (vocab_at 2 h FIELD_VOCAB (contents st') (vls ++ more)) as V'.
  { eapply entries_at_same; [|exact V2]. intros key Hk. rewrite W, decide_False; [done|]. intros ->. by destruct (proj1 (proj2 field_apart) id). }
  split; [done|]. unfold o in W. destruct l as [|kv l]; [by rewrite W, decide_True|].
  exists (vls ++ more), body. split; [done|]. split; [done|]. split; [done|]. split; [by rewrite W, decide_True|done].
Qed.
End Replace.

(** The open attributes of an edge through its life.  [replace_into] stores what
    [attrs] then answers, an empty map removing the segment; a link starts with
    none, whatever an earlier edge of that id had; [unlink] does not touch them:
    an id whose edge is gone still answers the attributes it had. *)
Theorem attrs_lifecycle g ls M id l head edge vls nms :
  graph_ok g ls M -> 0 <= id < 2 ^ 64 ->
  (vocab_at 2 h FIELD_VOCAB (contents (g_store g)) vls -> Forall (λ k, utf8_valid k = true) nms -> zlen vls + zlen nms < 2 ^ 16 ->
    StronglySorted bytes_lt (map fst l) -> Forall (λ kv, kv.1 ∈ nms) l -> Forall (λ kv, DynValue.value_ok capacity (λ k, k ∈ nms) kv.2) l ->
    fold_right (λ kv n, weight kv.2 + 13 + n) 0 l < 2 ^ 49 ->
    exists g', in_batch (replace_into (E := E) p id l) g = (g', Ok tt) /\ graph_ok g' ls M /\
    attrs (E := E) p capacity g' id = Ok (match l with [] => None | _ => Some l end) /\
    (l <> [] -> has_attrs (contents (g_store g')) id l)) /\
  (M !! id = None -> head_fits id head edge -> vocab_room ls (predicate head) ->
    exists g', link p head edge id g = (g', Ok tt) /\ attrs (E := E) p capacity g' id = Ok None) /\
  (is_Some (M !! id) -> has_attrs (contents (g_store g)) id l ->
    exists g', unlink (E := E) p id g = (g', Ok tt) /\ graph_ok g' ls (delete id M) /\ attrs (E := E) p capacity g' id = Ok (Some l)).
Proof using HDL.
  intros G Hi. split; [|split].
  - intros Hv Hnms Hroom Hs HP Hok Hw. destruct (replace_attrs g ls vls nms M G Hv Hnms Hroom id l Hs HP Hok Hw) as (g' & more & E1 & G1 & _ & A).
    exists g'. split; [done|]. split; [done|]. destruct l as [|kv l]; [by rewrite attrs_absent|]. split; [by apply attrs_read|done].
  - intros Ni Fit Room. rewrite (link_dead p g ls M) by done.
    destruct (in_batch_staged g (write_into p head edge id) ls M (intern ls (predicate head)).1 (<[id := linked ls head edge]> M)
      (λ gb, staged gb !! dynk (E := E) id = None) G) as (g' & gb' & E1 & _ & Ec & Nd).
    + intros Q HQ. by eapply runs_write_into; [by apply graph_batch_empty|..].
    + exists g'. split; [done|]. apply attrs_absent. by rewrite Ec.
  - intros [x EM] (vls' & body & Nl & Hs & V & Eb & D).
    destruct (in_batch_staged g (unlink_into (E := E) p id) ls M ls (delete id M)
      (λ gb, forall key, ~ gface (E := E) key -> key <> prik (E := E) id -> staged gb !! key = contents (g_store g) !! key) G)
      as (g' & gb' & E1 & G1 & Ec & Same).
    + intros Q HQ. eapply runs_unlink_into; [by apply graph_batch_empty|done..|]. intros gb' B X. by apply HQ.
    + exists g'. split; [done|]. split; [done|]. apply attrs_read. exists vls', body. do 2 (split; [done|]). split; [|split; [|done]].
      * eapply entries_at_same; [|exact V]. intros key Hk. rewrite Ec. apply Same.
        -- intros Hf. by apply (proj2 (proj2 field_apart) key Hf).
        -- intros ->. by apply (proj1 field_apart id).
      * rewrite Ec, Same; [done|apply dynk_not_face|]. intros Eq. by apply dynk_not_prik in Eq.
Qed.
End Attrs.
