(* ===== verification/GraphSamples.v ===== *)
(** * A graph, run

    A declared graph over the sample row, on the in-memory engine: the theorems
    of the graph files applied to concrete verbs. *)
From S2P Require Import Prelude Errors Storage Slots VarInt Vocab DynValue Segment Fields Payload Keys Index Meta Reduces Collection Declared Table Graph GraphEdges GraphWrites GraphScans GraphRows GraphReindex GraphAttrs.

Abbreviation Payload_ := (row (fields sample_schema)).

Definition graph_declaration : Declaration EdgeKey := {|
  dc_partition := [];
  dc_ns := [0; 48];
  dc_schema := sample_schema;
  dc_indexes := [(0x3001, sample_decl)];
  dc_leads := [];
  dc_reduces := []
|}.

Lemma graph_declaration_ok : declaration_ok graph_declaration [].
Proof.
  split; try reflexivity.
  - repeat constructor.
  - apply Forall_singleton. split; [done|]. split; (eexists; split; [reflexivity|split; [done|exact I]]).
  - constructor.
  - intros i red E. by destruct i.
Qed.

#[local] Instance graph_document : Document EdgeKey Payload_ := derived_document Debug graph_declaration.
#[local] Instance graph_laws : DocumentLaws EdgeKey Payload_ := derived_laws Debug graph_declaration [] graph_declaration_ok.
#[local] Instance graph_members : GraphEncode Payload_ := {| NS_VALUES := [16; 17] |}.

Definition person (i : Z) : NodeRef := mkRef [0; 16] (be_bytes 8 i).
Definition org (i : Z) : NodeRef := mkRef [0; 17] (be_bytes 4 i).

(** ["has"] *)
Definition has_label : bytes := [104; 97; 115].
Definition sample_head : EdgeHead := mkHead (person 1) (org 9) has_label.

Definition empty_graph : Graph MemStore := Graph_new (∅ : MemStore).

Lemma empty_graph_ok : graph_ok (E := Payload_) empty_graph [] ∅.
Proof.
  split.
  - split; [done|]. split; [apply cache_new_ok|]. split; [split|right; done]; try done; try constructor.
  - split; [done|done|]. intros key v _. split; [done|]. by intros (id & x & ? & _).
Qed.

Lemma node_sample_ok i : 0 <= i -> node_ok (person i) /\ node_ok (org i).
Proof.
  intros _. split; (split; [done|]; split; [by repeat constructor|]; split; [apply be_bytes_ok|]).
  - cbn [Graph.pkey person]. rewrite be_bytes_zlen. done.
  - cbn [Graph.pkey org]. rewrite be_bytes_zlen. done.
Qed.

Lemma sample_head_fits id : 0 <= id < 2 ^ 64 -> head_fits id sample_head sample_row.
Proof.
  intros Hi. split; [done|]. destruct (node_sample_ok 1), (node_sample_ok 9); [lia..|].
  split; [done|]. split; [done|]. split; [exact sample_row_exact|]. done.
Qed.

Lemma ns_two : length (graph_ns (E := Payload_)) = 2%nat.
Proof. done. Qed.

Lemma ns_bytes : bytes_ok (graph_ns (E := Payload_)).
Proof. by repeat constructor. Qed.

(** Two parallel edges in one batch. *)
Definition sample_ops : list (EdgeOp (E := Payload_)) :=
  [LinkOp 7 sample_head sample_row; LinkOp 8 sample_head sample_row].

Definition sample_edges : gmap Z (Edge Payload_) :=
  <[8 := mkEdge (person 1) (org 9) 0 sample_row]> {[ 7 := mkEdge (person 1) (org 9) 0 sample_row ]}.

Definition linked_graph : Graph MemStore := (in_batch (run_ops Debug sample_ops) empty_graph).1.

Lemma edge_batch_refines_witness :
  exists g', in_batch (run_ops Debug sample_ops) empty_graph = (g', Ok tt) /\
  graph_ok g' [has_label] sample_edges.
Proof.
  destruct (edge_batch_refines (S := MemStore) Debug empty_graph [] ∅ sample_ops empty_graph_ok) as (g' & E1 & G1).
  - split; [split; [by apply sample_head_fits|split; [done|done]]|].
    split; [split; [by apply sample_head_fits|split; [done|done]]|exact I].
  - exists g'. split; [exact E1|exact G1].
Defined.

Lemma linked_graph_ok : graph_ok linked_graph [has_label] sample_edges.
Proof.
  destruct (edge_batch_refines (S := MemStore) Debug empty_graph [] ∅ sample_ops empty_graph_ok) as (g' & E1 & G1).
  - split; [split; [by apply sample_head_fits|split; [done|done]]|].
    split; [split; [by apply sample_head_fits|split; [done|done]]|exact I].
  - unfold linked_graph. rewrite E1. exact G1.
Qed.

Lemma link_unlink_refine_witness :
  link Debug sample_head sample_row 7 linked_graph = (linked_graph, Err (EdgeAlreadyLive 7)) /\
  unlink (E := Payload_) Debug 9 linked_graph = (linked_graph, Err (EdgeNotFound 9)) /\
  link Debug (mkHead (mkRef [0; 18] []) (org 9) has_label) sample_row 9 linked_graph
    = (linked_graph, Err (EdgeNotMember name_src 18 48)) /\
  exists g', link Debug sample_head sample_row 9 linked_graph = (g', Ok tt) /\
  graph_ok g' [has_label] (<[9 := mkEdge (person 1) (org 9) 0 sample_row]> sample_edges).
Proof.
  split; [exact (proj1 (link_unlink_refine (E := Payload_) (S := MemStore) Debug ns_two linked_graph [has_label] sample_edges 7 sample_head sample_row linked_graph_ok ltac:(lia)))|].
  destruct (link_unlink_refine (E := Payload_) (S := MemStore) Debug ns_two linked_graph [has_label] sample_edges 9 sample_head sample_row linked_graph_ok ltac:(lia))
    as (U & _ & L & _).
  destruct (link_unlink_refine (E := Payload_) (S := MemStore) Debug ns_two linked_graph [has_label] sample_edges 9 (mkHead (mkRef [0; 18] []) (org 9) has_label) sample_row
    linked_graph_ok ltac:(lia)) as (_ & N & _).
  split; [exact U|]. split; [apply N; left; by vm_compute|]. apply L; [by apply sample_head_fits|done].
Defined.

Lemma traversal_exact_witness :
  (run_query (E := Payload_) Debug (TypedOutTo has_label (person 1) (org 9)) linked_graph).2 = Ok [7; 8] /\
  exists c ids, run_query (E := Payload_) Debug (TypedOutTo has_label (person 1) (org 9)) linked_graph = (mkGraph (g_store linked_graph) c, Ok ids) /\
  answers sample_edges ids (describes [has_label] (TypedOutTo has_label (person 1) (org 9))).
Proof.
  split; [by vm_compute|].
  destruct (traversal_exact (E := Payload_) (S := MemStore) Debug ns_bytes linked_graph [has_label] sample_edges
    (TypedOutTo has_label (person 1) (org 9)) linked_graph_ok) as (c & ids & E1 & _ & A).
  - apply Forall_cons. split; [by apply node_sample_ok|]. apply Forall_singleton. by apply node_sample_ok.
  - intros prefix [= <-]. apply long_keys_check. by vm_compute.
  - exists c, ids. split; [exact E1|exact A].
Defined.

Lemma neighbours_resolve_witness :
  out_nodes (E := Payload_) Debug linked_graph (person 1) = Ok [org 9; org 9] /\
  exists ids, answers sample_edges ids (λ x, e_src x = person 1) /\
  out_nodes (E := Payload_) Debug linked_graph (person 1) = Ok (omap (M := list) (λ id, e_dst <$> sample_edges !! id) ids).
Proof.
  split; [by vm_compute|].
  refine (proj1 (neighbours_resolve (E := Payload_) (S := MemStore) Debug ns_bytes linked_graph [has_label] sample_edges (person 1) has_label
    linked_graph_ok _ _)).
  - by apply node_sample_ok.
  - intros q prefix Hq. rewrite !elem_of_cons, elem_of_nil in Hq. destruct Hq as [-> |[-> |[-> |[-> |[]]]]]; intros [= <-];
      apply long_keys_check; by vm_compute.
Defined.

Lemma max_edge_id_last_witness :
  edge_ids (E := Payload_) linked_graph = Ok [7; 8] /\ max_edge_id (E := Payload_) linked_graph = Ok (last [7; 8]).
Proof.
  assert (edge_ids (E := Payload_) linked_graph = Ok [7; 8]) as E1 by (by vm_compute). split; [exact E1|].
  destruct (max_edge_id_last (E := Payload_) (S := MemStore) ns_bytes linked_graph) as (ids & E2 & L).
  - apply long_keys_check. by vm_compute.
  - rewrite E1 in E2. injection E2 as <-.
    assert (last (row_suffixes (E := Payload_) linked_graph) = Some (be_bytes 8 8)) as El by (by vm_compute). rewrite El in L. exact L.
Defined.

(** A face entry lost and a stray one under the retired layout of slot 6. *)
Definition tampered_map : gmap bytes bytes :=
  <[ [0; 48; 6; 0; 0; 0; 0; 0; 0; 0; 0; 7] := [] ]>
    (delete (gkey (E := Payload_) EDGE_OUT_SLOT (node_bytes (person 1) ++ node_bytes (org 9) ++ be_bytes 8 7)) (contents (g_store linked_graph))).

Definition tampered_graph : Graph MemStore := mkGraph (tampered_map : MemStore) (g_vocab linked_graph).

Lemma tampered_same key : ~ under_slots (E := Payload_) edge_slots key ->
  contents (g_store tampered_graph) !! key = contents (g_store linked_graph) !! key.
Proof.
  intros N. change (contents (g_store tampered_graph)) with tampered_map. unfold tampered_map.
  assert (EDGE_OUT_SLOT ∈ edge_slots) as S6 by apply edge_slot_in.
  rewrite lookup_insert_ne, lookup_delete_ne; [done|..]; intros <-; apply N; exists EDGE_OUT_SLOT; eexists; (split; [exact S6|reflexivity]).
Qed.

Lemma reindex_refines_witness :
  (reindex (E := Payload_) Debug 3 tampered_graph).2 = Ok 2 /\
  (out_edges (E := Payload_) Debug tampered_graph (person 1)) = Ok [8] /\
  exists st, reindex (E := Payload_) Debug 3 tampered_graph = (mkGraph st (g_vocab tampered_graph), Ok 2) /\
  graph_ok (mkGraph st (g_vocab tampered_graph)) [has_label] sample_edges.
Proof.
  split; [by vm_compute|]. split; [by vm_compute|]. destruct linked_graph_ok as [V St].
  destruct (reindex_refines (E := Payload_) (S := MemStore) Debug ns_bytes tampered_graph [has_label] sample_edges 3) as (st & E1 & G & _).
  - destruct V as (F & C & A). split; [exact F|]. split; [exact C|]. eapply entries_at_same; [|exact A]. intros key Hk.
    apply tampered_same. intros (sl & t & Hs & ->). eapply gface_apart; [|exact Hk]. exists sl, t. split; [apply elem_of_app; by left|done].
  - split; [exact (ea_fits _ _ St)|]. intros id Hi. rewrite tampered_same; [by apply (ea_primary _ _ St)|].
    intros (sl & t & Hs & Ek). unfold prik in Ek. apply gkey_slot in Ek as [<- _]; [|apply PRIMARY_ok|by apply edge_slots_ok].
    apply edge_slots_ok in Hs as [_ Hs]. unfold PRIMARY_SLOT in Hs. lia.
  - repeat (apply Forall_cons; split; [apply long_keys_check; by vm_compute|]). constructor.
  - intros key v Hf Nu. rewrite tampered_same by done. exact (ea_faces _ _ St key v Hf).
  - exists st. assert (size sample_edges = 2%nat) as Es by (by vm_compute). rewrite Es in E1. split; [exact E1|exact G].
Defined.

(** The attributes of edge 7, then its end. *)
Definition with_attrs : Graph MemStore := (in_batch (replace_into (E := Payload_) Debug 7 sample_fields) linked_graph).1.

Lemma linked_no_fields : vocab_at 2 (graph_ns (E := Payload_)) FIELD_VOCAB (contents (g_store linked_graph)) [].
Proof.
  assert (forall key, take 3 key ∈ [[0; 48; 2]; [0; 48; 3]] -> contents (g_store linked_graph) !! key = None) as N.
  { intros key Hk. apply eq_None_not_Some. intros X%elem_of_sorted_keys.
    assert (forallb (λ k : bytes, bool_decide (take 3 k ∉ [[0; 48; 2]; [0; 48; 3]])) (sorted_keys (contents (g_store linked_graph))) = true) as F
      by (by vm_compute).
    rewrite List.forallb_forall in F. by apply list_elem_of_In, F, bool_decide_eq_true in X. }
  split; [split|right; split; [done|]]; try done; try (by constructor).
  - intros i Hi. apply N. by left.
  - intros l _. apply N. right. by left.
Qed.

Lemma attrs_lifecycle_witness :
  attrs (E := Payload_) Debug 100 with_attrs 7 = Ok (Some sample_fields) /\
  exists g', unlink (E := Payload_) Debug 7 with_attrs = (g', Ok tt) /\ edge (E := Payload_) Debug g' 7 = Ok None /\
  attrs (E := Payload_) Debug 100 g' 7 = Ok (Some sample_fields).
Proof.
  destruct (attrs_lifecycle (E := Payload_) (S := MemStore) Debug 100 linked_graph [has_label] sample_edges 7 sample_fields sample_head sample_row
    [] [[97]; [98]] linked_graph_ok ltac:(lia)) as (R & _ & _).
  destruct R as (g1 & E1 & G1 & A1 & HA).
  - exact linked_no_fields.
  - by repeat constructor.
  - by vm_compute.
  - by repeat constructor.
  - constructor; [set_solver|]. constructor; [set_solver|constructor].
  - exact sample_fields_ok.
  - by vm_compute.
  - assert (with_attrs = g1) as -> by (unfold with_attrs; by rewrite E1). split; [exact A1|].
    destruct (attrs_lifecycle (E := Payload_) (S := MemStore) Debug 100 g1 [has_label] sample_edges 7 sample_fields sample_head sample_row
      [] [[97]; [98]] G1 ltac:(lia)) as (_ & _ & U).
    destruct U as (g2 & E2 & G2 & A2); [by eexists|by apply HA|]. exists g2. split; [exact E2|]. split; [|exact A2].
    rewrite (edge_ok (S := MemStore) Debug g2 _ 7 (proj2 G2) ltac:(lia)). by rewrite lookup_delete_eq.
Defined.
