(* ===== verification/Changelog.v ===== *)
(** * The change log (okm-core, [changelog.rs])

    A collection with a change log appends one length-prefixed frame per
    committed batch to a segment file; a full or old segment is sealed by a
    rename.  The model is the writer as steps on its fields and on the table's
    directory, the readers, and the collection that carries a log.  [LogFrames],
    [LogTruth] and [LogFaults] hold the theorems.

    The directory maps file names to contents; a directory that does not exist is
    an empty one, which the readers treat alike.  An input/output call answers
    what [faults] says: it succeeds, or it fails with a text, a write having
    reached the file in part.  [now] is the clock, in nanoseconds.  Counts of
    bytes are below [2 ^ 64], as are counts of records; the segment number is
    added with the overflow check of the build. *)
From S2P Require Import Prelude Errors Storage Slots DynValue Wire Keys Index Collection.

(** ** The directory *)

Record Faults : Type := mkFaults {
  mkdir_fault : option bytes;
  list_fault : option bytes;
  read_fault : option bytes;
  write_fault : option (nat * bytes);
  sync_fault : option bytes;
  rename_fault : option bytes;
  create_fault : option bytes
}.

Definition healthy : Faults := mkFaults None None None None None None None.

Record Disk : Type := mkDisk { files : gmap bytes bytes; now : Z; faults : Faults }.

Definition set_files (d : Disk) (m : gmap bytes bytes) : Disk := mkDisk m (now d) (faults d).

(** ** The writer *)

Record ChangelogConfig : Type := mkLogConfig {
  segment_bytes : Z;
  segment_seconds : Z;
  buffer_bytes : Z;
  sync_data : bool
}.

Definition DEFAULT_SEGMENT_BYTES : Z := 64 * 1024 * 1024.
Definition DEFAULT_SEGMENT_SECONDS : Z := 300.
Definition DEFAULT_BUFFER_BYTES : Z := 1024 * 1024.

Definition ChangelogConfig_new : ChangelogConfig :=
  mkLogConfig DEFAULT_SEGMENT_BYTES DEFAULT_SEGMENT_SECONDS DEFAULT_BUFFER_BYTES false.

Record Changelog : Type := mkChangelog {
  dir : bytes;
  log_header : bytes;
  cfg : ChangelogConfig;
  file : bool;
  segment : Z;
  written : Z;
  opened : Z;
  log_pending : bytes;
  staged : bytes;
  dropped : Z;
  last_error : option bytes
}.

(** Updates of one field. *)
Definition set_file (c : Changelog) (f : bool) : Changelog :=
  mkChangelog (dir c) (log_header c) (cfg c) f (segment c) (written c) (opened c) (log_pending c) (staged c) (dropped c) (last_error c).
Definition set_log_pending (c : Changelog) (b : bytes) : Changelog :=
  mkChangelog (dir c) (log_header c) (cfg c) (file c) (segment c) (written c) (opened c) b (staged c) (dropped c) (last_error c).
Definition set_staged (c : Changelog) (b : bytes) : Changelog :=
  mkChangelog (dir c) (log_header c) (cfg c) (file c) (segment c) (written c) (opened c) (log_pending c) b (dropped c) (last_error c).
Definition set_last_error (c : Changelog) (e : bytes) : Changelog :=
  mkChangelog (dir c) (log_header c) (cfg c) (file c) (segment c) (written c) (opened c) (log_pending c) (staged c) (dropped c) (Some e).
Definition set_written (c : Changelog) (n : Z) : Changelog :=
  mkChangelog (dir c) (log_header c) (cfg c) (file c) (segment c) n (opened c) (log_pending c) (staged c) (dropped c) (last_error c).
Definition set_trimmed (c : Changelog) (b : bytes) (n : Z) : Changelog :=
  mkChangelog (dir c) (log_header c) (cfg c) (file c) (segment c) (written c) (opened c) b (staged c) (dropped c + n) (last_error c).
(** The next segment begins, unopened. *)
Definition next_begins (c : Changelog) (n now : Z) : Changelog :=
  mkChangelog (dir c) (log_header c) (cfg c) (file c) n 0 now (log_pending c) (staged c) (dropped c) (last_error c).

(** [saturating_add], [saturating_mul] on 64 bits *)
Definition sat_add (a b : Z) : Z := (a + b) `min` (2 ^ 64 - 1).
Definition sat_mul (a b : Z) : Z := (a * b) `min` (2 ^ 64 - 1).

(** ** Names *)

Definition dec_digits (w : nat) (n : Z) : bytes :=
  (fix go w n := match w with O => [] | S w => go w (n / 10) ++ [48 + n mod 10] end) w n.

(** The number of decimal digits of a [u64]. *)
Fixpoint dec_width (fuel : nat) (n : Z) : nat :=
  match fuel with
  | O => 1
  | S fuel => if n <? 10 then 1 else S (dec_width fuel (n / 10))
  end.

(** [{:08}] *)
Definition zero_padded (n : Z) : bytes := dec_digits (Nat.max 8 (dec_width 20 n)) n.

Definition segment_name (n : Z) (ext : bytes) : bytes := zero_padded n ++ dot ++ ext.

Definition join (dir name : bytes) : bytes := dir ++ path_sep ++ name.

Definition hex (header : bytes) : bytes :=
  concat (map (λ b, [hex_digit (b / 16); hex_digit (b mod 16)]) header).

Definition table_dir (root header : bytes) : bytes := join root (hex header).

Definition io_err (path e : bytes) : Error := Errors.Changelog (path ++ colon ++ e).

Definition corrupt (path what : bytes) : Error := Errors.Changelog (path ++ colon ++ what).

(** [name.split_once('.')] *)
Fixpoint split_once (name : bytes) : option (bytes * bytes) :=
  match name with
  | [] => None
  | c :: name =>
      if c =? 46 then Some ([], name)
      else '(a, b) ← split_once name; Some (c :: a, b)
  end.

(** [Path::extension]: what follows the last dot, unless nothing precedes it. *)
Definition extension (name : bytes) : option bytes :=
  '(a, b) ← split_once (reverse name); match b with [] => None | _ => Some (reverse a) end.

Definition is_digit (c : Z) : bool := in_range 48 57 c.

(** [stem.parse::<u64>()] *)
Definition parse_u64 (s : bytes) : option Z :=
  let s := match s with c :: ((_ :: _) as r) => if c =? 43 then r else s | _ => s end in
  if bool_decide (s = []) || negb (forallb is_digit s) then None
  else
    let v := fold_left (λ a c, a * 10 + (c - 48)) s 0 in
    if v <? 2 ^ 64 then Some v else None.

(** ** What a log carries *)

Definition carried_op (header key : bytes) : bool :=
  match (if bool_decide (take (length header) key = header) then Some (drop (length header) key) else None) with
  | None => false
  | Some [] => false
  | Some (first :: more) =>
      let read : option (Slot * nat) :=
        if first <=? FIXED_FACE_MAX then Some (first, 1%nat)
        else match more with [] => None | second :: _ => Some (be_val [first; second], 2%nat) end in
      match read with
      | None => false
      | Some (slot, width) =>
          if bool_decide (length (first :: more) = width) then false
          else if slot <=? FIXED_FACE_MAX then
            existsb (Z.eqb slot) [PRIMARY_SLOT; DYNAMIC_SLOT; FIELD_VOCAB_ID_SLOT; FIELD_VOCAB_NAME_SLOT;
              PREDICATE_VOCAB_ID_SLOT; PREDICATE_VOCAB_NAME_SLOT]
          else (Z.shiftr slot 12 =? VOCAB_LABEL) || (Z.shiftr slot 12 =? VOCAB_ID)
      end
  end.

(** ** Staging *)

(** One operation behind its header. *)
Definition put_carried (buf : bytes) (op : bytes * option bytes) : bytes :=
  match op.2 with
  | Some value => put_op_header buf OP_PUT (zlen op.1) (zlen value) ++ op.1 ++ value
  | None => put_op_header buf OP_DELETE (zlen op.1) 0 ++ op.1
  end.

Definition stage (c : Changelog) (ops : list (bytes * option bytes)) : Changelog * Z :=
  let c := set_staged c [] in
  let count := zlen (filter (λ op : bytes * option bytes, carried_op (log_header c) op.1 = true) ops) in
  if count =? 0 then (c, 0)
  else
    let start := zlen (staged c) in
    let buf := put_len (staged c ++ [0; 0; 0; 0]) count in
    let buf := fold_left (λ buf op, if carried_op (log_header c) op.1 then put_carried buf op else buf) ops buf in
    let body := 0 `max` (zlen buf - (start + 4)) in
    if body <? 2 ^ 32 then
      (set_staged c (take (Z.to_nat start) buf ++ be_bytes 4 body ++ drop (Z.to_nat (start + 4)) buf), count)
    else (set_staged c (take (Z.to_nat start) buf), 0).

(** ** Writing *)

(** The end of the first record in [b], if one is complete. *)
Definition first_record_end (b : bytes) : option Z :=
  prefix ← slice b 0 4;
  let end_ := 4 + be_val prefix in
  if end_ <=? zlen b then Some end_ else None.

(** The loop of [trim_to_cap]; [fuel] bounds the records dropped. *)
Fixpoint trim_loop (fuel : nat) (cap : Z) (b : bytes) (n : Z) : bytes * Z :=
  match fuel with
  | O => (b, n)
  | S fuel =>
      if cap <? zlen b then
        match first_record_end b with
        | Some end_ => trim_loop fuel cap (drop (Z.to_nat end_) b) (n + 1)
        | None => ([], n + 1)
        end
      else (b, n)
  end.

(** [trim_to_cap]; the bytes kept and the records dropped. *)
Definition trim_to_cap (c : Changelog) : bytes * Z :=
  let cap := sat_mul (buffer_bytes (cfg c)) 8 `max` 1 in
  trim_loop (length (log_pending c)) cap (log_pending c) 0.

Definition partial_path (c : Changelog) : bytes := join (dir c) (segment_name (segment c) PARTIAL_EXT).
Definition sealed_path (c : Changelog) : bytes := join (dir c) (segment_name (segment c) SEALED_EXT).

(** [file.write_all]: the bytes land at the end of the open segment; a failing
    write leaves the first [k] of them there. *)
Definition append (d : Disk) (name b : bytes) : Disk :=
  set_files d (alter (λ old, old ++ b) name (files d)).

Definition write_all (d : Disk) (name b : bytes) : Disk * outcome bytes unit :=
  match write_fault (faults d) with
  | None => (append d name b, Ok tt)
  | Some (k, e) => (append d name (take k b), Err e)
  end.

Definition Writer : Type := Changelog * Disk.

Definition write_pending : enc Writer unit := λ '(c, d),
  match log_pending c with
  | [] => ((c, d), Ok tt)
  | _ =>
      if negb (file c) then
        let what := partial_path c ++ colon ++ log_closed in
        ((set_last_error c what, d), Err (Errors.Changelog what))
      else
        match write_all d (segment_name (segment c) PARTIAL_EXT) (log_pending c) with
        | (d, Ok _) =>
            let c := set_written c (written c + zlen (log_pending c)) in
            let c := set_log_pending c [] in
            match (if sync_data (cfg c) then sync_fault (faults d) else None) with
            | Some e =>
                let what := partial_path c ++ colon ++ e in
                ((set_last_error c what, d), Err (Errors.Changelog what))
            | None => ((c, d), Ok tt)
            end
        | (d, Err e) =>
            let what := partial_path c ++ colon ++ e in
            let c := set_last_error c what in
            let '(b, n) := trim_to_cap c in
            ((set_trimmed c b n, d), Err (Errors.Changelog what))
        | (d, Panic) => ((c, d), Panic)
        end
  end.

(** ** Segments *)

Definition create_segment (dir : bytes) (d : Disk) (n : Z) : Disk * result unit :=
  let name := segment_name n PARTIAL_EXT in
  match create_fault (faults d), files d !! name with
  | Some e, _ => (d, Err (io_err (join dir name) e))
  | None, Some _ => (d, Err (io_err (join dir name) os_exists))
  | None, None => (set_files d (<[name := []]> (files d)), Ok tt)
  end.

(** [std::fs::rename] of a file of the directory *)
Definition rename_file (d : Disk) (from to : bytes) : Disk * outcome bytes unit :=
  match rename_fault (faults d), files d !! from with
  | Some e, _ => (d, Err e)
  | None, None => (d, Err os_not_found)
  | None, Some b => (set_files d (<[to := b]> (delete from (files d))), Ok tt)
  end.

Section Build.
Context (p : profile).

(** What [seal] does once the pending bytes are written. *)
Definition close_segment : enc Writer unit := λ '(c, d),
    let c := set_file c false in
    match rename_file d (segment_name (segment c) PARTIAL_EXT) (segment_name (segment c) SEALED_EXT) with
    | (d, Ok _) =>
        match add_w (E := Error) p 64 (segment c) 1 with
        | Ok n =>
            let c := next_begins c n (now d) in
            let '(d, r) := create_segment (dir c) d (segment c) in
            (match r with Ok _ => (set_file c true, d) | _ => (c, d) end, r)
        | _ => ((c, d), Panic)
        end
    | (d, Err e) => ((c, d), Err (io_err (partial_path c) e))
    | (d, Panic) => ((c, d), Panic)
    end.

Definition seal : enc Writer unit := mbind (M := enc Writer) (λ _, close_segment) write_pending.

Definition maybe_rotate : enc Writer unit := λ '(c, d),
  let total := sat_add (written c) (zlen (log_pending c)) in
  let by_bytes := segment_bytes (cfg c) <=? total in
  let by_age := segment_seconds (cfg c) <=? (0 `max` (now d - opened c)) / 10 ^ 9 in
  if negb (by_bytes || by_age) || (total =? 0) then ((c, d), Ok tt) else seal (c, d).

Definition commit_staged : enc Writer unit := λ '(c, d),
  match staged c with
  | [] => ((c, d), Ok tt)
  | _ =>
      let c := set_staged (set_log_pending c (log_pending c ++ staged c)) [] in
      let buffered := sat_add (written c) (zlen (log_pending c)) in
      let flushed : enc Writer unit :=
        if (buffer_bytes (cfg c) <=? zlen (log_pending c)) || (segment_bytes (cfg c) <=? buffered)
        then write_pending else mret (M := enc Writer) tt in
      mbind (M := enc Writer) (λ _, maybe_rotate) flushed (c, d)
  end.

(** [Drop] *)
Definition drop_log : Writer -> Writer := λ w,
  let '((c, d), _) := write_pending w in
  let c := set_file c false in
  (c, if 0 <? written c
      then (rename_file d (segment_name (segment c) PARTIAL_EXT) (segment_name (segment c) SEALED_EXT)).1
      else d).

(** ** Opening *)

(** The directory's entries, in no particular order. *)
Definition entries (dir : bytes) (d : Disk) : result (list bytes) :=
  match list_fault (faults d) with
  | Some e => Err (io_err dir e)
  | None => Ok (map fst (map_to_list (files d)))
  end.

(** The segment number a name carries. *)
Definition name_number (name : bytes) : option Z :=
  name ← from_utf8 name; '(stem, _) ← split_once name; parse_u64 stem.

Definition max_number (names : list bytes) : option Z :=
  fold_left (λ m name,
    match name_number name with
    | Some n => Some (match m with Some m => m `max` n | None => n end)
    | None => m
    end) names None.

Definition next_segment (dir : bytes) (d : Disk) : result Z :=
  names ← entries dir d;
  match max_number names with
  | None => Ok 0
  | Some m => add_w p 64 m 1
  end.

Definition open (root header : bytes) (config : ChangelogConfig) (d : Disk) : Disk * result Changelog :=
  let dir := table_dir root header in
  match mkdir_fault (faults d) with
  | Some e => (d, Err (io_err dir e))
  | None =>
      match next_segment dir d with
      | Ok n =>
          let '(d, r) := create_segment dir d n in
          (d, r;; Ok (mkChangelog dir header config true n 0 (now d) [] [] 0 None))
      | Err e => (d, Err e)
      | Panic => (d, Panic)
      end
  end.

End Build.

(** ** Reading *)

(** The loop of [frames_of]; [fuel] bounds the records. *)
Fixpoint frames_loop (fuel : nat) (path b : bytes) (strict : bool) (pos : Z) (out : list OpFrame) : result (list OpFrame) :=
  match fuel with
  | O => Panic
  | S fuel =>
      match slice b pos (pos + 4) with
      | None =>
          if negb (pos =? zlen b) && strict then Err (corrupt path log_trailing) else Ok out
      | Some prefix =>
          let len := be_val prefix in
          let body_at := pos + 4 in
          match slice b body_at (sat_add body_at len) with
          | None => if strict then Err (corrupt path log_past_end) else Ok out
          | Some body =>
              match OpFrame_decode body with
              | Some frame => frames_loop fuel path b strict (body_at + len) (out ++ [frame])
              | None => Err (corrupt path log_bad_frame)
              end
          end
      end
  end.

Definition frames_of (dir : bytes) (d : Disk) (name : bytes) (strict : bool) : result (list OpFrame) :=
  let path := join dir name in
  match read_fault (faults d), files d !! name with
  | Some e, _ => Err (io_err path e)
  | None, None => Err (io_err path os_not_found)
  | None, Some b => frames_loop (S (length b)) path b strict 0 []
  end.

Definition read_sealed (dir : bytes) (d : Disk) (name : bytes) : result (list OpFrame) := frames_of dir d name true.
Definition read_open_tail (dir : bytes) (d : Disk) (name : bytes) : result (list OpFrame) := frames_of dir d name false.

Definition sealed_segments (dir : bytes) (d : Disk) : result (list bytes) :=
  names ← entries dir d;
  Ok (merge_sort bytes_le (filter (λ name, extension name = Some SEALED_EXT) names)).

Record ChangelogStatus : Type := mkStatus {
  st_segment : Z;
  segment_written : Z;
  pending_bytes : Z;
  records_dropped : Z;
  st_last_error : option bytes
}.

Definition status (c : Changelog) : ChangelogStatus :=
  mkStatus (segment c) (written c) (zlen (log_pending c)) (dropped c) (last_error c).

(** ** A collection that carries a log *)

Section Logged.
Context (p : profile).
Context {K R : Type} `{Document K R} {S : Type} `{VirtualStorage S}.

Record Logged : Type := mkLogged { base : Collection S; changelog : option Writer }.

Definition with_changelog (root : bytes) (config : ChangelogConfig) (store : S) (d : Disk) : result Logged :=
  let '(d, r) := open p root (header (K := K) (R := R)) config d in
  log ← r; Ok (mkLogged (Collection_new store) (Some (log, d))).

(** [if let Some(log) = &self.changelog] *)
Definition on_log {A} (f : enc Writer A) (none : A) : enc Logged A := λ l,
  match changelog l with
  | Some w => let '(w, r) := f w in (mkLogged (base l) (Some w), r)
  | None => (l, Ok none)
  end.

Definition stage_capture (ops : list (bytes * option bytes)) : enc Logged Z :=
  on_log (λ '(c, d), let '(c, n) := stage c ops in ((c, d), Ok n)) 0.

Definition flush_capture : enc Logged unit := on_log (commit_staged p) tt.

(** [let _ =]: an [Err] is let go, a panic is not. *)
Definition ignored {St A} (m : enc St A) : enc St unit := λ s,
  match m s with (s, Panic) => (s, Panic) | (s, _) => (s, Ok tt) end.

Definition commit_base (batch : Batch) : enc Logged unit := λ l,
  let '(b, r) := commit p (base l) batch in (mkLogged b (changelog l), r).

Definition logged_commit (batch : Batch) : enc Logged unit :=
  ignored (stage_capture (ops batch));;
  commit_base batch;;
  ignored flush_capture.

(** A verb of the collection builds a batch, then commits it. *)
Definition logged_built {A} (build : enc Batch A) : enc Logged A := λ l,
  match build Batch_default with
  | (batch, Ok a) => let '(l, r) := logged_commit batch l in (l, r;; Ok a)
  | (_, Err e) => (l, Err e)
  | (_, Panic) => (l, Panic)
  end.

Definition stage_rows (rows : list (bytes * bytes)) : enc Logged Z :=
  stage_capture (map (λ row, (row.1, Some row.2)) rows).

Definition reconcile : enc Logged Z := λ l,
  match changelog l with
  | None => (l, Ok 0)
  | Some _ =>
      match (prefix ← write_slot (header (K := K) (R := R)) PRIMARY_SLOT;
             rows ← scan_suffix_kv (store (base l)) prefix;
             Ok (map (λ row : bytes * bytes, (prefix ++ row.1, row.2)) rows)) with
      | Ok rows => stage_rows rows l
      | Err e => (l, Err e)
      | Panic => (l, Panic)
      end
  end.

(** The rows of [[begin, end)], cut to primary keys of one key's length. *)
Definition reconcile_rows (begin end_ : bytes) (s : S) : result (list (bytes * bytes)) :=
  from ← write_slot (header (K := K) (R := R)) PRIMARY_SLOT;
  let row_len : Z := zlen from + KEY_LEN (K := K) in
  to ← write_slot (header (K := K) (R := R)) PRIMARY_SLOT;
  rows ← mapM (M := result) (λ i : pair_item, i) (vs_scan_range_iter s (from ++ begin) (Some (to ++ end_)));
  Ok (filter (λ row : bytes * bytes, zlen row.1 = row_len) rows).

Definition reconcile_range (begin end_ : bytes) : enc Logged Z := λ l,
  match changelog l with
  | None => (l, Ok 0)
  | Some _ =>
      match reconcile_rows begin end_ (store (base l)) with
      | Ok rows => stage_rows rows l
      | Err e => (l, Err e)
      | Panic => (l, Panic)
      end
  end.

Definition changelog_status (l : Logged) : option ChangelogStatus :=
  option_map (λ w : Writer, status w.1) (changelog l).

End Logged.
