(* ===== verification/LogFrames.v ===== *)
(** * What a segment holds and how it reads back

    A staged record is the frame of the batch's carried operations behind its
    length; a segment is a stream of records.  Cut anywhere, a stream reads back
    to the records that are complete.  A segment's name carries its number. *)
From S2P Require Import Prelude Errors Storage Slots Vocab DynValue Wire Keys Index Collection Changelog.

(** ** Records *)

(** A frame behind its length. *)
Definition record (f : OpFrame) : bytes := be_bytes 4 (zlen (OpFrame_encode f)) ++ OpFrame_encode f.

Definition stream (fs : list OpFrame) : bytes := concat (map record fs).

Definition record_ok (f : OpFrame) : Prop := OpFrame_ok f /\ zlen (OpFrame_encode f) < 2 ^ 32.

#[export] Instance record_ok_dec f : Decision (record_ok f).
Proof. unfold record_ok, OpFrame_ok, frame_fits. apply _. Defined.

(** The operations of a batch a log carries. *)
Definition carried_ops (header : bytes) (ops : list (bytes * option bytes)) : list (bytes * option bytes) :=
  filter (λ op, carried_op header op.1 = true) ops.

(** The frames a committed batch adds: none when nothing is carried. *)
Definition batch_frames (header : bytes) (ops : list (bytes * option bytes)) : list OpFrame :=
  match carried_ops header ops with [] => [] | cs => [OpFrame_write_batch cs] end.

Lemma batch_frames_len header l : zlen (batch_frames header l) <= 1.
Proof. unfold batch_frames. destruct (carried_ops header l); by vm_compute. Qed.

Definition op_of (op : bytes * option bytes) : Op :=
  match op.2 with Some v => (OP_PUT, op.1, v) | None => (OP_DELETE, op.1, []) end.

Lemma put_carried_encode buf op : put_carried buf op = encode_op buf (op_of op).
Proof. destruct op as [k [v|]]; unfold put_carried, encode_op, op_of; cbn [fst snd]; [done|by rewrite app_nil_r]. Qed.

Lemma put_carried_filter header ops : forall buf,
  fold_left (λ buf op, if carried_op header op.1 then put_carried buf op else buf) ops buf =
  fold_left encode_op (map op_of (carried_ops header ops)) buf.
Proof.
  induction ops as [|op ops IH]; intros buf; [done|]. cbn [fold_left]. rewrite IH. unfold carried_ops.
  destruct (carried_op header op.1) eqn:E.
  - rewrite filter_cons_True by done. cbn [map fold_left]. by rewrite put_carried_encode.
  - rewrite filter_cons_False by (by rewrite E). done.
Qed.

Lemma write_batch_ops cs : OpFrame_write_batch cs = mkOpFrame (map op_of cs).
Proof. unfold OpFrame_write_batch. f_equal. apply map_ext. by intros [k [v|]]. Qed.

(** What [stage] leaves: the record of the carried operations, if it is
    representable, and the count of them; no other field changes. *)
Lemma stage_spec c ops :
  let cs := carried_ops (log_header c) ops in
  let fs := batch_frames (log_header c) ops in
  Forall record_ok fs -> stage c ops = (set_staged c (stream fs), zlen cs).
Proof.
  intros cs fs F. unfold stage, fs, batch_frames in *. cbn [log_header set_staged staged]. fold (carried_ops (log_header c) ops). fold cs in F |- *.
  destruct cs as [|op cs'] eqn:Ecs; [done|]. rewrite (proj2 (Z.eqb_neq _ 0)) by zlia.
  rewrite put_carried_filter. fold cs. rewrite Ecs. remember (op :: cs') as os eqn:Eos. clear Eos Ecs op cs' cs.
  apply Forall_singleton in F as [_ F]. unfold stream, record. cbn [map concat]. rewrite app_nil_r, write_batch_ops in *.
  rewrite (put_len_app ([] ++ _)), (fold_left_concat _ _ _ encode_op_app).
  assert (OpFrame_encode (mkOpFrame (map op_of os)) = put_len [] (zlen os) ++ concat (map (encode_op []) (map op_of os))) as Eb.
  { unfold OpFrame_encode. rewrite (fold_left_concat _ _ _ encode_op_app). cbn [frame_ops]. unfold zlen. by rewrite length_map. }
  rewrite <- app_assoc, <- Eb. set (body := OpFrame_encode _) in *. change (zlen (@nil Z)) with 0.
  cbn [app]. change (0 :: 0 :: 0 :: 0 :: body) with ([0; 0; 0; 0] ++ body).
  rewrite zlen_app. change (zlen [0; 0; 0; 0]) with 4. pose proof (zlen_nonneg body).
  rewrite Z.max_r by lia. replace (4 + zlen body - (0 + 4)) with (zlen body) by lia. rewrite (proj2 (Z.ltb_lt _ _)) by lia. done.
Qed.

(** ** Reading a stream *)

(** Bytes that hold no complete record. *)
Definition torn (rest : bytes) : Prop := zlen rest < 4 \/ zlen rest < 4 + be_val (take 4 rest).

(** How a reader ends at them. *)
Definition torn_end (path rest : bytes) (strict : bool) (out : list OpFrame) : result (list OpFrame) :=
  if negb (bool_decide (rest = [])) && strict
  then Err (corrupt path (if zlen rest <? 4 then log_trailing else log_past_end)) else Ok out.

Lemma stream_cons f fs : stream (f :: fs) = record f ++ stream fs.
Proof. done. Qed.

Lemma stream_app fs gs : stream (fs ++ gs) = stream fs ++ stream gs.
Proof. unfold stream. by rewrite map_app, concat_app. Qed.

Lemma record_len f : zlen (record f) = 4 + zlen (OpFrame_encode f).
Proof. unfold record. zlia. Qed.

Lemma record_prefix f : record_ok f -> be_val (be_bytes 4 (zlen (OpFrame_encode f))) = zlen (OpFrame_encode f).
Proof. intros [_ H]. apply be_val_be_bytes_small. pose proof (zlen_nonneg (OpFrame_encode f)). lia. Qed.

Lemma slice_here {A} (pre mid rest : list A) a b :
  a = zlen pre -> b = zlen pre + zlen mid -> slice (pre ++ mid ++ rest) a b = Some mid.
Proof. intros -> ->. apply slice_app. Qed.

Lemma frames_loop_torn fuel path pre rest strict out :
  frame_fits (pre ++ rest) -> torn rest ->
  frames_loop (S fuel) path (pre ++ rest) strict (zlen pre) out = torn_end path rest strict out.
Proof.
  intros F T. unfold frame_fits in F. cbn [frames_loop]. unfold torn_end.
  assert (bool_decide (rest = []) = (zlen pre =? zlen (pre ++ rest))) as ->.
  { destruct rest as [|x rest]; [by rewrite app_nil_r, Z.eqb_refl|]. symmetry. apply Z.eqb_neq. zlia. }
  destruct (Z.ltb_spec (zlen rest) 4) as [L|L].
  - rewrite slice_past by zlia. by destruct (zlen pre =? _), strict.
  - destruct T as [T|T]; [lia|]. rewrite <- (take_drop 4 rest) at 1.
    rewrite (slice_here _ (take 4 rest)) by (unfold zlen in *; rewrite ?length_take; lia).
    rewrite slice_past by (unfold sat_add; zlia). rewrite (proj2 (Z.eqb_neq _ _)) by zlia. by destruct strict.
Qed.

Lemma frames_loop_stream fs : forall fuel path pre rest strict out,
  Forall record_ok fs -> frame_fits (pre ++ stream fs ++ rest) -> torn rest -> (length fs < fuel)%nat ->
  frames_loop fuel path (pre ++ stream fs ++ rest) strict (zlen pre) out = torn_end path rest strict (out ++ fs).
Proof.
  induction fs as [|f fs IH]; intros fuel path pre rest strict out Hok F T Hn; (destruct fuel as [|fuel]; [simpl in Hn; lia|]).
  { rewrite app_nil_r. by apply frames_loop_torn. }
  apply Forall_cons in Hok as [Hf Hok]. rewrite stream_cons in *. cbn [frames_loop].
  pose proof (record_prefix f Hf) as P. pose proof (OpFrame_decode_encode f [] (proj1 Hf)) as D. rewrite app_nil_r in D. specialize (D (proj2 (proj2 (proj1 Hf)))).
  pose proof (record_len f) as Lf. unfold frame_fits in F. rewrite <- !app_assoc in *.
  assert (frame_fits ((pre ++ record f) ++ stream fs ++ rest)) as F' by (unfold frame_fits; by rewrite <- app_assoc).
  replace (pre ++ record f ++ stream fs ++ rest) with (pre ++ be_bytes 4 (zlen (OpFrame_encode f)) ++ OpFrame_encode f ++ stream fs ++ rest)
    by (unfold record; by rewrite <- app_assoc).
  rewrite (slice_here pre) by (rewrite ?be_bytes_zlen; lia). rewrite P.
  unfold sat_add. rewrite Z.min_l by (pose proof (zlen_nonneg (stream fs ++ rest)); zlia).
  rewrite (app_assoc pre), (slice_here (pre ++ _)) by zlia. rewrite D.
  replace (zlen pre + 4 + zlen (OpFrame_encode f)) with (zlen (pre ++ record f)) by zlia.
  replace ((pre ++ be_bytes 4 (zlen (OpFrame_encode f))) ++ OpFrame_encode f ++ stream fs ++ rest)
    with ((pre ++ record f) ++ stream fs ++ rest) by (unfold record; by rewrite <- !app_assoc).
  rewrite IH; [by rewrite <- app_assoc|done..|simpl in Hn; lia].
Qed.

Lemma stream_length fs : 4 * zlen fs <= zlen (stream fs).
Proof.
  induction fs as [|f fs IH]; [done|]. rewrite stream_cons. pose proof (record_len f). pose proof (zlen_nonneg (OpFrame_encode f)). zlia.
Qed.

(** A file that is a stream and a torn tail. *)
Lemma frames_of_stream dir d name fs rest strict :
  read_fault (faults d) = None -> files d !! name = Some (stream fs ++ rest) ->
  Forall record_ok fs -> frame_fits (stream fs ++ rest) -> torn rest ->
  frames_of dir d name strict = torn_end (join dir name) rest strict fs.
Proof.
  intros Hr Hf Hok F T. unfold frames_of. rewrite Hr, Hf.
  apply (frames_loop_stream fs _ _ []); [done..|]. pose proof (stream_length fs). rewrite length_app. unfold zlen in *. lia.
Qed.

(** Where a stream is cut: after [k] complete records, within the next one. *)
Lemma stream_cut fs n : (n <= length (stream fs))%nat -> Forall record_ok fs ->
  exists k rest, take n (stream fs) = stream (take k fs) ++ rest /\ torn rest /\
    (length (stream (take k fs)) <= n)%nat /\ (forall f, fs !! k = Some f -> (n < length (stream (take (S k) fs)))%nat).
Proof.
  revert n. induction fs as [|f fs IH]; intros n Hn Hok.
  { exists 0%nat, []. change (stream []) with (@nil Z); rewrite !take_nil. split; [done|]. split; [by left|]. split; [simpl; lia|done]. }
  apply Forall_cons in Hok as [Hf Hok]. rewrite stream_cons in *. rewrite length_app in Hn.
  destruct (decide (length (record f) <= n)%nat) as [L|L].
  - destruct (IH (n - length (record f))%nat ltac:(lia) Hok) as (k & rest & E & T & A & B).
    exists (S k), rest. rewrite take_app_ge, E by lia. rewrite firstn_cons, stream_cons, app_assoc, length_app.
    split; [done|]. split; [done|]. split; [lia|]. intros g Hg. specialize (B g Hg). rewrite firstn_cons, stream_cons, length_app. lia.
  - exists 0%nat, (take n (record f)). rewrite take_app_le by lia. change (stream (take 0 (f :: fs))) with (@nil Z).
    split; [done|]. split; [|split; [simpl; lia|]].
    + unfold torn. pose proof (record_len f). destruct (decide (n < 4)%nat); [left|right]; unfold zlen in *; rewrite length_take; [lia|].
      rewrite take_take, Nat.min_l by lia. unfold record at 1. rewrite take_app_le by (rewrite be_bytes_length; lia).
      rewrite take_ge by (rewrite be_bytes_length; lia). rewrite record_prefix by done. unfold zlen. lia.
    + intros g _. rewrite firstn_cons, stream_cons, length_app. lia.
Qed.

(** C14: a segment cut anywhere (by a crash, or still being written) reads back to
    exactly the records that are complete: an open read stops at the torn tail
    and answers them; a strict read answers them when the cut falls between two
    records and otherwise reports corruption.  A whole segment reads back to all
    its records either way. *)
Theorem segment_reads_back dir d name fs n :
  read_fault (faults d) = None -> Forall record_ok fs -> frame_fits (stream fs) -> (n <= length (stream fs))%nat ->
  files d !! name = Some (take n (stream fs)) ->
  exists k rest, take n (stream fs) = stream (take k fs) ++ rest /\
    (forall f, fs !! k = Some f -> (n < length (stream (take (S k) fs)))%nat) /\
    read_open_tail dir d name = Ok (take k fs) /\
    read_sealed dir d name = (if bool_decide (rest = []) then Ok (take k fs)
      else Err (corrupt (join dir name) (if zlen rest <? 4 then log_trailing else log_past_end))).
Proof.
  intros Hr Hok F Hn Hf. destruct (stream_cut fs n Hn Hok) as (k & rest & E & T & A & B).
  exists k, rest. split; [done|]. split; [done|]. rewrite E in Hf.
  assert (frame_fits (stream (take k fs) ++ rest)) as F'.
  { rewrite <- E. unfold frame_fits, zlen in *. rewrite length_take. lia. }
  unfold read_open_tail, read_sealed.
  rewrite !(frames_of_stream dir d name (take k fs) rest) by (try done; by apply Forall_take).
  unfold torn_end. rewrite andb_false_r, andb_true_r. by destruct (bool_decide (rest = [])).
Qed.

(** Whatever a file holds, a read of it ends: each step advances past a length. *)
Lemma frames_loop_total fuel : forall path b strict pos out,
  bytes_ok b -> 0 <= pos -> zlen b < pos + 4 * Z.of_nat fuel -> (0 < fuel)%nat -> frames_loop fuel path b strict pos out <> Panic.
Proof.
  induction fuel as [|fuel IH]; intros path b strict pos out Hb Hp L Hn; [lia|]. cbn [frames_loop].
  destruct (slice b pos (pos + 4)) as [prefix|] eqn:E; [|by destruct (negb _ && _)].
  destruct (slice b (pos + 4) _) as [body|] eqn:E2; [|by destruct strict].
  destruct (OpFrame_decode body); [|done]. apply slice_length in E2 as (_ & _ & B). assert (0 <= be_val prefix) as V.
  { apply be_val_bound. unfold slice in E. destruct (_ && _); [|done]. injection E as <-. by apply Forall_take, Forall_drop. }
  apply slice_length in E as (_ & _ & B'). apply IH; [done|lia..].
Qed.

Lemma frames_of_total dir d name strict :
  (forall b, files d !! name = Some b -> bytes_ok b) -> frames_of dir d name strict <> Panic.
Proof.
  intros Hb. unfold frames_of. destruct (read_fault _), (files d !! name) as [b|]; try done.
  apply frames_loop_total; [by apply Hb|lia| |lia]. unfold zlen. lia.
Qed.

(** ** What is carried *)

(** The faces that hold the truth of a table: rows, dynamic segments, the names
    of dynamic fields and predicates, the labels of categorical fields. *)
Definition truth_slot (s : Slot) : bool :=
  bool_decide (s ∈ [PRIMARY_SLOT; DYNAMIC_SLOT; FIELD_VOCAB_ID_SLOT; FIELD_VOCAB_NAME_SLOT; PREDICATE_VOCAB_ID_SLOT; PREDICATE_VOCAB_NAME_SLOT])
  || (0x1000 <=? s) && (s <? 0x3000).

Lemma six_slots s : existsb (Z.eqb s) [PRIMARY_SLOT; DYNAMIC_SLOT; FIELD_VOCAB_ID_SLOT; FIELD_VOCAB_NAME_SLOT; PREDICATE_VOCAB_ID_SLOT; PREDICATE_VOCAB_NAME_SLOT]
  = bool_decide (s ∈ [PRIMARY_SLOT; DYNAMIC_SLOT; FIELD_VOCAB_ID_SLOT; FIELD_VOCAB_NAME_SLOT; PREDICATE_VOCAB_ID_SLOT; PREDICATE_VOCAB_NAME_SLOT]).
Proof.
  apply eq_bool_prop_intro. rewrite bool_decide_spec, Is_true_true, existsb_exists. setoid_rewrite Z.eqb_eq. setoid_rewrite <- list_elem_of_In. naive_solver.
Qed.

Lemma carried_at header s rest :
  slot_ok s -> carried_op header (header ++ slot_bytes s ++ rest) = negb (bool_decide (rest = [])) && truth_slot s.
Proof.
  intros Hs. unfold carried_op. rewrite take_app_length, bool_decide_true, drop_app_length by done.
  unfold truth_slot, slot_bytes, slot_ok, FIXED_FACE_MAX in *. rewrite <- six_slots. destruct (Z.leb_spec s 15) as [L|L].
  - cbn [app]. rewrite (proj2 (Z.leb_le s 15)) by lia. destruct rest as [|x rest]; [done|]. rewrite bool_decide_false by (simpl; lia).
    rewrite (proj2 (Z.leb_gt 0x1000 s)), (bool_decide_false (x :: rest = [])) by (done || lia). cbn [negb andb].
    by rewrite orb_false_r, (proj2 (Z.leb_le s 15)) by lia.
  - assert (be_bytes 2 s = [s / 256; s mod 256]) as ->.
    { change (be_bytes 2 s) with [(s / 256) mod 256; (s / 1) mod 256]. rewrite Z.div_1_r. f_equal. apply Z.mod_small. split; [apply Z.div_pos; lia|apply Z.div_lt_upper_bound; lia]. }
    assert (be_val [s / 256; s mod 256] = s) as V. { rewrite be_val_cons. unfold be_val, zlen. simpl. pose proof (Z.div_mod s 256 ltac:(lia)). lia. }
    cbn [app]. rewrite (proj2 (Z.leb_gt (s / 256) 15)) by (apply Z.lt_le_trans with 16; [lia|apply Z.div_le_lower_bound; lia]).
    rewrite V. destruct rest as [|x rest]; [done|]. rewrite bool_decide_false by (simpl; lia). rewrite (proj2 (Z.leb_gt s 15)) by lia.
    assert (existsb (Z.eqb s) [PRIMARY_SLOT; DYNAMIC_SLOT; FIELD_VOCAB_ID_SLOT; FIELD_VOCAB_NAME_SLOT; PREDICATE_VOCAB_ID_SLOT; PREDICATE_VOCAB_NAME_SLOT] = false) as ->.
    { rewrite six_slots. apply bool_decide_eq_false. unfold PRIMARY_SLOT, DYNAMIC_SLOT, FIELD_VOCAB_ID_SLOT, FIELD_VOCAB_NAME_SLOT, PREDICATE_VOCAB_ID_SLOT, PREDICATE_VOCAB_NAME_SLOT.
      rewrite !elem_of_cons, elem_of_nil. lia. }
    rewrite bool_decide_false by done. cbn [negb orb andb]. rewrite Z.shiftr_div_pow2 by lia. unfold VOCAB_LABEL, VOCAB_ID. change (2 ^ 12) with 0x1000.
    pose proof (Z.div_mod s 0x1000 ltac:(lia)). pose proof (Z.mod_pos_bound s 0x1000 ltac:(lia)).
    apply eq_bool_prop_intro. rewrite !Is_true_true, orb_true_iff, andb_true_iff, !Z.eqb_eq, Z.leb_le, Z.ltb_lt. lia.
Qed.

(** Every key a log carries stands at a face of truth, below the face itself. *)
Lemma carried_op_inv header k : bytes_ok k -> carried_op header k = true ->
  exists s rest, slot_ok s /\ truth_slot s = true /\ rest <> [] /\ k = header ++ slot_bytes s ++ rest.
Proof.
  intros Hk. unfold carried_op. case_bool_decide as T; [|done]. set (t := drop (length header) k).
  assert (k = header ++ t) as Ek. { unfold t. rewrite <- T at 1. by rewrite take_drop. }
  rewrite Ek in Hk. apply Forall_app in Hk as [_ Ht]. clearbody t. intros C.
  assert (forall s rest, slot_ok s -> t = slot_bytes s ++ rest -> truth_slot s = true /\ rest <> []) as Hs.
  { intros s rest Hs ->. pose proof (carried_at header s rest Hs) as A. unfold carried_op in A.
    rewrite take_app_length, bool_decide_true, drop_app_length in A by done. rewrite A, andb_true_iff in C.
    destruct C as [C1 C2]. split; [done|]. by destruct rest. }
  destruct t as [|a more]; [done|]. apply Forall_cons in Ht as [Ha Ht]. unfold byte_ok in Ha.
  unfold FIXED_FACE_MAX in C. destruct (Z.leb_spec a 15) as [La|La].
  - destruct (Hs a more) as [B1 B2]; [left; lia|unfold slot_bytes, FIXED_FACE_MAX; by rewrite (proj2 (Z.leb_le _ _))|].
    exists a, more. repeat split; [left; lia|done..|]. unfold slot_bytes, FIXED_FACE_MAX. by rewrite (proj2 (Z.leb_le _ _)).
  - destruct more as [|b rest]; [done|]. apply Forall_cons in Ht as [Hb _]. unfold byte_ok in Hb.
    assert (slot_ok (a * 256 + b)) as So by (right; lia).
    assert (slot_bytes (a * 256 + b) = [a; b]) as Sb.
    { unfold slot_bytes, FIXED_FACE_MAX. rewrite (proj2 (Z.leb_gt _ _)) by lia.
      change (be_bytes 2 (a * 256 + b)) with [((a * 256 + b) / 256) mod 256; ((a * 256 + b) / 1) mod 256].
      rewrite Z.div_1_r, Z.div_add_l, (Z.div_small b), Z.add_0_r by lia. rewrite (Z.mod_small a) by lia.
      by rewrite Z.add_comm, Z.mod_add, Z.mod_small by lia. }
    destruct (Hs (a * 256 + b) rest So) as [B1 B2]; [by rewrite Sb|]. exists (a * 256 + b), rest.
    repeat split; [done..|]. by rewrite Ek, Sb.
Qed.

(** ** Names *)

Definition digit (c : Z) : Prop := 48 <= c < 58.

Definition digits_val (l : bytes) : Z := fold_left (λ a c, a * 10 + (c - 48)) l 0.

Lemma dec_digits_S w n : dec_digits (S w) n = dec_digits w (n / 10) ++ [48 + n mod 10].
Proof. done. Qed.

Lemma dec_digits_len w : forall n, length (dec_digits w n) = w.
Proof. induction w as [|w IH]; intros n; [done|]. rewrite dec_digits_S, length_app, IH. simpl. lia. Qed.

Lemma dec_digits_digit w : forall n, Forall digit (dec_digits w n).
Proof.
  induction w as [|w IH]; intros n; [by apply Forall_nil|]. rewrite dec_digits_S. apply Forall_app. split; [apply IH|].
  apply Forall_singleton. unfold digit. pose proof (Z.mod_pos_bound n 10). lia.
Qed.

Lemma dec_digits_val w : forall n, 0 <= n < 10 ^ Z.of_nat w -> digits_val (dec_digits w n) = n.
Proof.
  unfold digits_val. induction w as [|w IH]; intros n Hn; [simpl in *; lia|].
  rewrite dec_digits_S, fold_left_app. cbn [fold_left]. rewrite IH.
  - pose proof (Z.div_mod n 10 ltac:(lia)). lia.
  - rewrite Nat2Z.inj_succ, Z.pow_succ_r in Hn by lia. split; [apply Z.div_pos; lia|apply Z.div_lt_upper_bound; lia].
Qed.

Lemma dec_width_bound fuel : forall n, 0 <= n < 10 ^ (1 + Z.of_nat fuel) -> n < 10 ^ Z.of_nat (dec_width fuel n).
Proof.
  induction fuel as [|fuel IH]; intros n Hn; cbn [dec_width]; [change (10 ^ Z.of_nat 1) with 10; change (10 ^ (1 + Z.of_nat 0)) with 10 in Hn; lia|].
  destruct (Z.ltb_spec n 10); [change (10 ^ Z.of_nat 1) with 10; lia|].
  rewrite Nat2Z.inj_succ, Z.pow_succ_r by lia.
  assert (n / 10 < 10 ^ Z.of_nat (dec_width fuel (n / 10))).
  { apply IH. rewrite Nat2Z.inj_succ in Hn. replace (1 + Z.succ (Z.of_nat fuel)) with (Z.succ (1 + Z.of_nat fuel)) in Hn by lia.
    rewrite Z.pow_succ_r in Hn by lia. split; [apply Z.div_pos; lia|apply Z.div_lt_upper_bound; lia]. }
  pose proof (Z.div_mod n 10 ltac:(lia)). pose proof (Z.mod_pos_bound n 10). lia.
Qed.

Lemma zero_padded_val n : 0 <= n < 2 ^ 64 -> digits_val (zero_padded n) = n.
Proof.
  intros Hn. apply dec_digits_val. split; [lia|]. pose proof (dec_width_bound 20 n ltac:(lia)).
  eapply Z.lt_le_trans; [done|]. apply Z.pow_le_mono_r; lia.
Qed.

Lemma zero_padded_digits n : Forall digit (zero_padded n) /\ zero_padded n <> [].
Proof.
  split; [apply dec_digits_digit|]. intros E. apply (f_equal length) in E. unfold zero_padded in E.
  rewrite dec_digits_len in E. simpl in E. lia.
Qed.

Lemma parse_digits s : Forall digit s -> s <> [] -> digits_val s < 2 ^ 64 -> parse_u64 s = Some (digits_val s).
Proof.
  intros F N B. unfold parse_u64.
  assert (match s with c :: ((_ :: _) as r) => if c =? 43 then r else s | _ => s end = s) as ->.
  { destruct s as [|c [|c' r]]; try done. apply Forall_cons in F as [F _]. unfold digit in F. by rewrite (proj2 (Z.eqb_neq _ _)) by lia. }
  rewrite bool_decide_false by done. replace (forallb is_digit s) with true.
  2: { symmetry. apply forallb_forall. intros c Hc. rewrite Forall_forall in F. apply list_elem_of_In, F in Hc.
    unfold is_digit, in_range, digit in *. rewrite andb_true_iff, !Z.leb_le. lia. }
  cbn [negb orb]. unfold digits_val in B. by rewrite (proj2 (Z.ltb_lt _ _)).
Qed.

Lemma split_once_at s t : 46 ∉ s -> split_once (s ++ 46 :: t) = Some (s, t).
Proof.
  induction s as [|c s IH]; intros H; [done|]. apply not_elem_of_cons in H as [H1 H2]. cbn [app split_once].
  rewrite (proj2 (Z.eqb_neq _ _)) by done. by rewrite IH.
Qed.

Lemma digits_no_dot s : Forall digit s -> 46 ∉ s.
Proof. intros F I. rewrite Forall_forall in F. specialize (F _ I). unfold digit in F. lia. Qed.

Lemma split_name n ext : split_once (segment_name n ext) = Some (zero_padded n, ext).
Proof. unfold segment_name. change (dot ++ ext) with (46 :: ext). apply split_once_at, digits_no_dot, zero_padded_digits. Qed.

Lemma ascii_utf8 l : Forall (λ c, 0 <= c < 128) l -> utf8_valid l = true.
Proof.
  induction 1 as [|c l Hc _ IH]; [done|]. cbn [utf8_valid]. unfold in_range. by rewrite !(proj2 (Z.leb_le _ _)) by lia.
Qed.

(** The two extensions of a segment. *)
Definition segment_ext (ext : bytes) : Prop := ext = PARTIAL_EXT \/ ext = SEALED_EXT.

Lemma segment_ext_spec ext : segment_ext ext -> Forall (λ c, 0 <= c < 128) ext /\ 46 ∉ ext.
Proof. intros [-> | ->]; split; (apply (bool_decide_unpack _); by vm_compute). Qed.

(** A segment's name carries its number. *)
Lemma name_number_segment n ext : 0 <= n < 2 ^ 64 -> segment_ext ext -> name_number (segment_name n ext) = Some n.
Proof.
  intros Hn He. apply segment_ext_spec in He as [Ha _]. destruct (zero_padded_digits n) as [Fd Nd].
  unfold name_number, from_utf8. rewrite ascii_utf8.
  - cbn [mbind option_bind]. rewrite split_name. cbn [mbind option_bind].
    rewrite parse_digits; [by rewrite zero_padded_val|done..|]. rewrite zero_padded_val by done. lia.
  - unfold segment_name. apply Forall_app. split; [eapply Forall_impl; [done|unfold digit; lia]|].
    change (dot ++ ext) with (46 :: ext). constructor; [lia|done].
Qed.

Lemma segment_name_inj n m e e' : 0 <= n < 2 ^ 64 -> 0 <= m < 2 ^ 64 ->
  segment_name n e = segment_name m e' -> n = m /\ e = e'.
Proof.
  intros Hn Hm E. apply (f_equal split_once) in E. rewrite !split_name in E. injection E as E ->. split; [|done].
  rewrite <- (zero_padded_val n), <- (zero_padded_val m) by done. by rewrite E.
Qed.

Lemma extension_segment n ext : segment_ext ext -> extension (segment_name n ext) = Some ext.
Proof.
  intros He. apply segment_ext_spec in He as [_ He]. unfold extension, segment_name. change (dot ++ ext) with ([46] ++ ext).
  rewrite !reverse_app. change (reverse [46]) with [46]. rewrite <- app_assoc. cbn [app].
  rewrite split_once_at by (by rewrite elem_of_reverse). cbn [mbind option_bind].
  destruct (reverse (zero_padded n)) eqn:E; [|by rewrite reverse_involutive].
  apply (f_equal reverse) in E. rewrite reverse_involutive in E. by destruct (zero_padded_digits n).
Qed.

(** Below [10 ^ 8], where eight digits are enough, names sort as numbers. *)
Lemma dec_digits_lt w : forall n m t t', 0 <= n < m -> m < 10 ^ Z.of_nat w -> dec_digits w n ++ t ≺ dec_digits w m ++ t'.
Proof.
  induction w as [|w IH]; intros n m t t' Hn Hm; [simpl in Hm; lia|]. rewrite !dec_digits_S, <- !app_assoc.
  rewrite Nat2Z.inj_succ, Z.pow_succ_r in Hm by lia.
  pose proof (Z.div_mod n 10 ltac:(lia)). pose proof (Z.div_mod m 10 ltac:(lia)).
  pose proof (Z.mod_pos_bound n 10). pose proof (Z.mod_pos_bound m 10).
  destruct (Z.lt_trichotomy (n / 10) (m / 10)) as [L|[E|L]]; [|rewrite E; apply bytes_lt_app|lia].
  - apply IH; [split; [apply Z.div_pos; lia|done]|apply Z.div_lt_upper_bound; lia].
  - unfold bytes_lt. cbn [app lex_compare]. by rewrite (proj2 (Z.compare_lt_iff _ _)) by lia.
Qed.

Lemma dec_width_small fuel w : forall n, 0 <= n < 10 ^ Z.of_nat (S w) -> (dec_width fuel n <= S w)%nat.
Proof.
  revert w. induction fuel as [|fuel IH]; intros w n Hn; cbn [dec_width]; [lia|]. destruct (Z.ltb_spec n 10); [lia|].
  destruct w as [|w]; [change (10 ^ Z.of_nat 1) with 10 in Hn; lia|]. apply le_n_S, IH. rewrite (Nat2Z.inj_succ (S w)), Z.pow_succ_r in Hn by lia.
  split; [apply Z.div_pos; lia|apply Z.div_lt_upper_bound; lia].
Qed.

Lemma segment_name_lt n m e e' : 0 <= n < m -> m < 10 ^ 8 -> segment_name n e ≺ segment_name m e'.
Proof.
  intros Hn Hm. unfold segment_name, zero_padded.
  rewrite !Nat.max_l by (apply (dec_width_small 20 7); lia). apply dec_digits_lt; [done|lia].
Qed.

(** ** The next number *)

Lemma parse_u64_range s n : parse_u64 s = Some n -> 0 <= n < 2 ^ 64.
Proof.
  unfold parse_u64. set (t := match s with [] => s | _ => _ end). destruct (bool_decide _ || _) eqn:E; [done|].
  apply orb_false_iff in E as [_ E]. apply negb_false_iff in E. destruct (Z.ltb_spec (fold_left (λ a c, a * 10 + (c - 48)) t 0) (2 ^ 64)); [|done].
  intros [= <-]. split; [|done]. clear -E. assert (forall a, 0 <= a -> 0 <= fold_left (λ a c, a * 10 + (c - 48)) t a) as A; [|by apply A].
  rewrite forallb_forall in E. revert E. generalize t. clear. intros l. induction l as [|c l IH]; intros E a Ha; [done|]. cbn [fold_left].
  apply IH; [intros x Hx; apply E; by right|]. specialize (E c (or_introl eq_refl)). unfold is_digit, in_range in E. rewrite andb_true_iff, !Z.leb_le in E. lia.
Qed.

Lemma name_number_range name n : name_number name = Some n -> 0 <= n < 2 ^ 64.
Proof.
  unfold name_number. destruct (from_utf8 name) as [b|]; [|done]. cbn [mbind option_bind].
  destruct (split_once b) as [[stem e]|]; [|done]. apply parse_u64_range.
Qed.

Lemma max_number_spec names :
  (forall name n, name ∈ names -> name_number name = Some n -> exists m, max_number names = Some m /\ n <= m) /\
  (forall m, max_number names = Some m -> exists name, name ∈ names /\ name_number name = Some m).
Proof.
  unfold max_number. induction names as [|a names [IH1 IH2]] using rev_ind; [by split; [intros name n H; apply elem_of_nil in H|]|].
  rewrite fold_left_app. cbn [fold_left]. set (f := fold_left _ names None) in *. split.
  - intros name n [Hin|Hin%list_elem_of_singleton]%elem_of_app Hn.
    + destruct (IH1 name n Hin Hn) as (m & -> & L). destruct (name_number a) as [x|]; [exists (m `max` x); split; [done|lia]|by exists m].
    + subst a. rewrite Hn. destruct f as [m|]; eexists; (split; [done|lia]).
  - intros m. destruct (name_number a) as [x|] eqn:E.
    + destruct f as [m'|] eqn:Ef; intros [= <-].
      * destruct (Z.max_spec m' x) as [[_ ->]|[_ ->]]; [exists a; split; [apply elem_of_app; right; by apply list_elem_of_singleton|done]|].
        destruct (IH2 m' eq_refl) as (name & I & N). exists name. split; [apply elem_of_app; by left|done].
      * exists a. split; [apply elem_of_app; right; by apply list_elem_of_singleton|done].
    + intros Ef. destruct (IH2 m Ef) as (name & I & N). exists name. split; [apply elem_of_app; by left|done].
Qed.

(** What a log carries.  A batch's operation is recorded exactly when its key
    stands below a face of truth of this table: a row, a dynamic segment, a field
    or predicate name, a label of a categorical field, in either direction; a
    derived entry, a face's bare prefix, another table's key and an unknown slot
    are dropped.  The empty label's entry is a bare prefix, so it is dropped too,
    while the entry of its number is kept. *)
Theorem carried_exact header k f w i :
  bytes_ok k -> slot_ok (name_slot f) -> slot_ok (id_slot f) -> truth_slot (id_slot f) = true -> (0 < w)%nat ->
  (carried_op header k = true <->
    exists s rest, slot_ok s /\ truth_slot s = true /\ rest <> [] /\ k = header ++ slot_bytes s ++ rest) /\
  (exists nk, name_key (E := Error) f header [] = Ok nk /\ carried_op header nk = false) /\
  (exists ik, id_key (E := Error) w f header i = Ok ik /\ carried_op header ik = true).
Proof.
  intros Hk Hn Hi Ht Hw. split; [split|split].
  - by apply carried_op_inv.
  - intros (s & rest & Hs & T & N & ->). rewrite carried_at, bool_decide_false by done. done.
  - unfold name_key. rewrite write_slot_ok by done. eexists. split; [done|]. rewrite <- app_assoc. by rewrite carried_at.
  - unfold id_key. rewrite write_slot_ok by done. eexists. split; [done|]. rewrite <- app_assoc, carried_at by done.
    rewrite bool_decide_false; [done|]. unfold to_be. intros E. apply (f_equal length) in E. rewrite be_bytes_length in E. simpl in E. lia.
Qed.
