(* ===== verification/LogTruth.v ===== *)
(** * The log holds the truth (okm-core, [changelog.rs])

    [log_at] relates a writer to the frames it has taken: whole segments sealed
    one after the other, the open one, the bytes still pending.  Every step keeps
    it on a healthy disk; a collection's log holds exactly the batches its engine
    accepted, and replayed it yields the carried half of the store. *)
From S2P Require Import Prelude Errors Storage Slots DynValue Wire Keys Index Collection Changelog LogFrames.

(** ** The directory of a log *)

(** The sealed segments [groups], numbered from [first], put into a directory. *)
Fixpoint sealed_files (m : gmap bytes bytes) (first : Z) (groups : list (list OpFrame)) : gmap bytes bytes :=
  match groups with
  | [] => m
  | g :: groups => sealed_files (<[segment_name first SEALED_EXT := stream g]> m) (first + 1) groups
  end.

Lemma sealed_files_snoc groups : forall m first g,
  sealed_files m first (groups ++ [g]) = <[segment_name (first + zlen groups) SEALED_EXT := stream g]> (sealed_files m first groups).
Proof.
  induction groups as [|h groups IH]; intros m first g; cbn [app sealed_files]; [by rewrite Z.add_0_r|].
  rewrite IH. do 2 f_equal. zlia.
Qed.

Lemma sealed_files_other groups : forall m first name,
  (forall n, first <= n < first + zlen groups -> name <> segment_name n SEALED_EXT) -> sealed_files m first groups !! name = m !! name.
Proof.
  induction groups as [|g groups IH]; intros m first name Hn; [done|]. cbn [sealed_files].
  rewrite IH by (intros n L; apply Hn; zlia). apply lookup_insert_ne. intros E. by apply (Hn first ltac:(zlia)).
Qed.

Lemma partial_not_sealed n m : 0 <= n < 2 ^ 64 -> 0 <= m < 2 ^ 64 -> segment_name n PARTIAL_EXT <> segment_name m SEALED_EXT.
Proof. intros Hn Hm E. by apply segment_name_inj in E as [_ E]. Qed.

Section Log.
Context (p : profile).
(** The directory when the log was opened, its first segment, its header and its
    configuration. *)
Context (m0 : gmap bytes bytes) (first : Z) (root h : bytes) (k : ChangelogConfig).

Hypothesis Hfirst : 0 <= first.
Hypothesis Hfresh : forall n, first <= n < 2 ^ 64 -> m0 !! segment_name n PARTIAL_EXT = None.
Hypothesis Hk : 0 <= segment_bytes k < 2 ^ 64.

Record writer_at (w : Writer) (groups : list (list OpFrame)) (last pend : list OpFrame) : Prop := {
  wa_disk : faults w.2 = healthy;
  wa_dir : dir w.1 = table_dir root h;
  wa_header : log_header w.1 = h;
  wa_cfg : cfg w.1 = k;
  wa_file : file w.1 = true;
  wa_segment : segment w.1 = first + zlen groups;
  wa_room : first + zlen groups < 2 ^ 64;
  wa_written : written w.1 = zlen (stream last);
  wa_pending : log_pending w.1 = stream pend;
  wa_files : files w.2 = <[segment_name (first + zlen groups) PARTIAL_EXT := stream last]> (sealed_files m0 first groups);
  wa_dropped : dropped w.1 = 0
}.

Lemma no_partial groups n : first <= n < 2 ^ 64 -> first + zlen groups < 2 ^ 64 ->
  sealed_files m0 first groups !! segment_name n PARTIAL_EXT = None.
Proof.
  intros Hn Hg. rewrite sealed_files_other; [by apply Hfresh|]. intros i Hi. pose proof (zlen_nonneg groups).
  apply partial_not_sealed; lia.
Qed.

Lemma write_pending_spec w groups last pend :
  writer_at w groups last pend ->
  exists w', write_pending w = (w', Ok tt) /\ writer_at w' groups (last ++ pend) [] /\
    now w'.2 = now w.2 /\ opened w'.1 = opened w.1 /\ staged w'.1 = staged w.1.
Proof.
  intros W. destruct w as [c d], W; cbn [fst snd] in *. unfold write_pending.
  destruct (log_pending c) as [|x l] eqn:E.
  - exists (c, d). split; [done|]. split; [|done]. destruct pend as [|f pend]; [rewrite app_nil_r; by constructor|].
    apply (f_equal zlen) in wa_pending0. pose proof (record_len f). pose proof (zlen_nonneg (OpFrame_encode f)). rewrite stream_cons in wa_pending0. zlia.
  - rewrite wa_file0. cbn [negb]. unfold write_all. rewrite wa_disk0. cbn [write_fault healthy].
    unfold append, set_files. cbn [faults]. rewrite wa_disk0. cbn [sync_fault healthy].
    rewrite wa_pending0. destruct (sync_data _); (eexists; split; [done|]; split; [|done]; constructor; cbn [fst snd]; try done;
      cbn [written log_pending set_log_pending set_written segment files]; rewrite ?wa_written0, ?stream_app; [zlia|];
      rewrite wa_files0, wa_segment0; by rewrite alter_insert_eq).
Qed.

Lemma close_segment_spec w groups last :
  writer_at w groups last [] -> first + zlen groups + 1 < 2 ^ 64 ->
  exists w', close_segment p w = (w', Ok tt) /\ writer_at w' (groups ++ [last]) [] [] /\ staged w'.1 = staged w.1 /\ now w'.2 = now w.2.
Proof.
  intros W B. destruct w as [c d], W; cbn [fst snd] in *. pose proof (zlen_nonneg groups).
  unfold close_segment. cbn [set_file segment dir].
  unfold rename_file. rewrite wa_disk0. cbn [rename_fault healthy].
  rewrite wa_files0, wa_segment0, lookup_insert_eq. unfold add_w. rewrite (proj2 (Z.ltb_lt _ _)) by lia.
  rewrite delete_insert_id by (apply no_partial; lia).
  unfold create_segment. cbn [next_begins set_file set_files segment dir faults files]. rewrite wa_disk0. cbn [create_fault healthy].
  rewrite lookup_insert_ne, no_partial by (try lia; intros E; symmetry in E; revert E; apply partial_not_sealed; lia).
  eexists. split; [done|]. split; [|done].
  assert (first + zlen (groups ++ [last]) = first + zlen groups + 1) as En by zlia.
  constructor; cbn; rewrite ?En; try done; try lia. by rewrite sealed_files_snoc, En || rewrite sealed_files_snoc.
Qed.

Lemma seal_spec w groups last pend :
  writer_at w groups last pend -> first + zlen groups + 1 < 2 ^ 64 ->
  exists w', seal p w = (w', Ok tt) /\ writer_at w' (groups ++ [last ++ pend]) [] [] /\ staged w'.1 = staged w.1 /\ now w'.2 = now w.2.
Proof.
  intros W B. destruct (write_pending_spec _ _ _ _ W) as (w1 & E1 & W1 & En & Eo & Es).
  destruct (close_segment_spec _ _ _ W1 B) as (w2 & E2 & W2 & Es2 & En2). exists w2. unfold seal, mbind, enc_bind. rewrite E1, E2.
  split; [done|]. split; [done|]. split; [by rewrite Es2|by rewrite En2].
Qed.

(** ** The log of a sequence of commits *)

(** A writer that has taken the frames [fs]: no sealed segment is empty, the open
    one is below its size and the pending bytes below the buffer's. *)
Definition log_at (w : Writer) (fs : list OpFrame) : Prop :=
  exists groups last pend, writer_at w groups last pend /\ fs = concat groups ++ last ++ pend /\ Forall (λ g, g <> []) groups /\
    (pend = [] \/ zlen (stream pend) < buffer_bytes k) /\
    (last ++ pend = [] \/ zlen (stream (last ++ pend)) < segment_bytes k).

Lemma groups_le (groups : list (list OpFrame)) : Forall (λ g, g <> []) groups -> zlen groups <= zlen (concat groups).
Proof. induction 1 as [|g gs Hg _ IH]; [done|]. cbn [concat]. destruct g; [done|]. zlia. Qed.

Lemma stream_nil fs : stream fs = [] <-> fs = [].
Proof.
  split; [|by intros ->]. destruct fs as [|f fs]; [done|]. intros E. apply (f_equal zlen) in E. rewrite stream_cons in E.
  pose proof (record_len f). pose proof (zlen_nonneg (OpFrame_encode f)). zlia.
Qed.

Lemma sat_le a b : 0 <= a -> 0 <= b -> (segment_bytes k <=? sat_add a b) = (segment_bytes k <=? a + b).
Proof. intros Ha Hb. unfold sat_add. zcases. Qed.

Lemma maybe_rotate_spec w groups last pend :
  writer_at w groups last pend -> Forall (λ g, g <> []) groups -> first + zlen groups + 1 < 2 ^ 64 ->
  (pend = [] \/ zlen (stream pend) < buffer_bytes k) ->
  exists w', maybe_rotate p w = (w', Ok tt) /\ log_at w' (concat groups ++ last ++ pend).
Proof.
  intros W G B Hp. destruct (seal_spec _ _ _ _ W B) as (ws & Es & Ws & _).
  assert (last ++ pend <> [] -> exists w', seal p w = (w', Ok tt) /\ log_at w' (concat groups ++ last ++ pend)) as Sealed.
  { intros N. exists ws. split; [done|]. exists (groups ++ [last ++ pend]), [], []. split; [done|].
    split; [rewrite concat_app; cbn [concat]; by rewrite !app_nil_r|]. split; [apply Forall_app; split; [done|by apply Forall_singleton]|auto]. }
  destruct w as [c d]. pose proof W as W'. destruct W'; cbn [fst snd] in *. unfold maybe_rotate.
  rewrite wa_cfg0, wa_written0, wa_pending0. pose proof (zlen_nonneg (stream last)). pose proof (zlen_nonneg (stream pend)).
  rewrite sat_le by done. assert (zlen (stream (last ++ pend)) = zlen (stream last) + zlen (stream pend)) as Et by (rewrite stream_app; zlia).
  assert ((sat_add (zlen (stream last)) (zlen (stream pend)) =? 0) = bool_decide (last ++ pend = [])) as ->.
  { unfold sat_add. case_bool_decide as N; [apply Z.eqb_eq; rewrite N in Et; change (zlen (stream [])) with 0 in Et; lia|].
    apply Z.eqb_neq. rewrite <- stream_nil in N. destruct (stream (last ++ pend)); [done|]. zlia. }
  case_bool_decide as N.
  - rewrite orb_true_r. exists (c, d). split; [done|]. exists groups, last, pend. split_and!; auto.
  - rewrite orb_false_r. destruct (Z.leb_spec (segment_bytes k) (zlen (stream last) + zlen (stream pend))) as [L|L]; [by apply Sealed|].
    cbn [orb]. destruct (_ <=? _); [by apply Sealed|]. exists (c, d). split; [done|]. exists groups, last, pend.
    split; [done|]. split; [done|]. split; [done|]. split; [done|]. right. lia.
Qed.

Lemma set_staged_at c d groups last pend b : writer_at (c, d) groups last pend -> writer_at (set_staged c b, d) groups last pend.
Proof. intros []. by constructor. Qed.

Lemma log_at_staged c d fs b : log_at (c, d) fs -> log_at (set_staged c b, d) fs.
Proof. intros (groups & last & pend & W & R). exists groups, last, pend. split; [by apply set_staged_at|done]. Qed.

(** Taking a staged record. *)
Lemma commit_staged_spec c d fs new :
  log_at (c, d) fs -> staged c = stream new -> first + zlen fs + zlen new + 1 < 2 ^ 64 ->
  exists w', commit_staged p (c, d) = (w', Ok tt) /\ log_at w' (fs ++ new).
Proof.
  intros (groups & last & pend & W & -> & G & Hp & Hl) Es B. unfold commit_staged. rewrite Es.
  destruct (stream new) as [|x l] eqn:En.
  { apply stream_nil in En as ->. rewrite app_nil_r. exists (c, d). split; [done|]. by exists groups, last, pend. }
  rewrite <- En. pose proof (groups_le groups G). pose proof (zlen_nonneg last). pose proof (zlen_nonneg pend). pose proof (zlen_nonneg new).
  set (c' := set_staged _ []). assert (writer_at (c', d) groups last (pend ++ new)) as W1.
  { destruct W. constructor; cbn [fst snd c' set_staged set_log_pending log_pending staged dir log_header cfg file segment written dropped] in *; try done.
    by rewrite wa_pending0, stream_app. }
  clearbody c'. replace ((concat groups ++ last ++ pend) ++ new) with (concat groups ++ last ++ pend ++ new) by (by rewrite <- !app_assoc).
  assert (first + zlen groups + 1 < 2 ^ 64) as B' by zlia.
  assert (cfg c' = k /\ log_pending c' = stream (pend ++ new) /\ written c' = zlen (stream last)) as (-> & -> & ->) by (by destruct W1).
  destruct (_ || _) eqn:Eb; unfold mbind, enc_bind.
  - destruct (write_pending_spec _ _ _ _ W1) as (w1 & E1 & W2 & _). rewrite E1.
    destruct (maybe_rotate_spec _ _ _ _ W2 G B' ltac:(by left)) as (w2 & E2 & W3). exists w2. by rewrite app_nil_r in W3.
  - apply orb_false_iff in Eb as [Eb _]. apply Z.leb_gt in Eb. apply (maybe_rotate_spec _ _ _ _ W1 G B'). by right.
Qed.
End Log.

(** ** A collection's log *)

(** The clock is read, then a batch is committed. *)
Definition logged_at {S} `{VirtualStorage S} (p : profile) (l : Logged (S := S)) (e : Z * Batch)
    : Logged (S := S) * result unit :=
  let l := mkLogged (base l) (option_map (λ w : Writer, (w.1, mkDisk (files w.2) e.1 (faults w.2))) (changelog l)) in
  logged_commit p e.2 l.

(** A sequence of commits, each with the time it happens and its outcome. *)
Fixpoint commits {S} `{VirtualStorage S} (p : profile) (l : Logged (S := S)) (es : list (Z * Batch))
    : Logged (S := S) * list (result unit) :=
  match es with
  | [] => (l, [])
  | e :: es =>
      let '(l, r) := logged_at p l e in
      let '(l, rs) := commits p l es in (l, r :: rs)
  end.

(** The frames of the batches the engine accepted. *)
Fixpoint accepted (h : bytes) (es : list (Z * Batch)) (rs : list (result unit)) : list OpFrame :=
  match es, rs with
  | e :: es, r :: rs => match r with Ok _ => batch_frames h (ops e.2) | _ => [] end ++ accepted h es rs
  | _, _ => []
  end.

Section Commits.
Context (p : profile).
Context {K R : Type} `{HD : Document K R} {S : Type} `{HS : VirtualStorage S}.
Context (m0 : gmap bytes bytes) (first : Z) (root : bytes) (k : ChangelogConfig).
Abbreviation h := (header (K := K) (R := R)).

Hypothesis Hfirst : 0 <= first.
Hypothesis Hfresh : forall n, first <= n < 2 ^ 64 -> m0 !! segment_name n PARTIAL_EXT = None.
Hypothesis Hk : 0 <= segment_bytes k < 2 ^ 64.

(** The collection's log has taken the frames [fs]. *)
Definition log_of (l : Logged (S := S)) (fs : list OpFrame) : Prop :=
  exists w, changelog l = Some w /\ log_at m0 first root h k w fs.

Lemma log_at_time c d fs t : log_at m0 first root h k (c, d) fs -> log_at m0 first root h k (c, mkDisk (files d) t (faults d)) fs.
Proof. intros (groups & last & pend & [] & Hr). exists groups, last, pend. split; [by constructor|done]. Qed.

(** The outcome of a commit is the collection's own; the log takes the batch's
    frames when the engine accepted it and nothing when it did not. *)
Lemma logged_at_spec l t b fs :
  log_of l fs -> Forall record_ok (batch_frames h (ops b)) ->
  first + zlen fs + 2 < 2 ^ 64 -> epoch (base l) + 1 < 2 ^ 64 ->
  exists l', logged_at p l (t, b) = (l', (commit p (base l) b).2) /\ base l' = (commit p (base l) b).1 /\
    log_of l' (fs ++ match (commit p (base l) b).2 with Ok _ => batch_frames h (ops b) | _ => [] end).
Proof.
  intros ([c d] & El & L) F B He. destruct l as [bs lg]. cbn [changelog base] in *. subst lg.
  apply (log_at_time _ _ _ t) in L. set (d' := mkDisk _ _ _) in L. unfold logged_at, logged_commit, mbind, enc_bind, ignored. cbn [base changelog option_map fst snd].
  fold d'. unfold stage_capture at 1, on_log at 1. cbn [changelog base].
  assert (log_header c = h) as Eh by (destruct L as (? & ? & ? & [] & _); done).
  rewrite stage_spec by (by rewrite Eh). unfold commit_base. cbn [base changelog]. rewrite Eh.
  destruct (commit p bs b) as [b' r] eqn:Ec. cbn [fst snd].
  destruct r as [[]|e|]; [|eexists; split; [done|]; split; [done|]; rewrite app_nil_r; eexists; split; [done|]; by apply log_at_staged..].
  unfold flush_capture, on_log. cbn [changelog].
  destruct (commit_staged_spec p m0 first root h k Hfirst Hfresh Hk _ d' fs (batch_frames h (ops b)) (log_at_staged _ _ _ _ _ _ _ _ (stream (batch_frames h (ops b))) L) eq_refl) as (w & Ew & Lw).
  { pose proof (batch_frames_len h (ops b)). lia. }
  rewrite Ew. eexists. split; [done|]. split; [done|]. by exists w.
Qed.

Lemma commit_epoch (c : Collection S) b : epoch (commit p c b).1 <= epoch c + 1.
Proof.
  unfold commit. destruct (vs_commit_batch _ _) as [s [|e|]]; cbn [fst epoch]; try lia.
  unfold add_w. destruct (Z.ltb_spec (epoch c + 1) (2 ^ 64)); [cbn [fst epoch]; lia|].
  destruct p; cbn [fst epoch]; [lia|]. unfold wrap. pose proof (Z.mod_le (epoch c + 1) (2 ^ 64)). lia.
Qed.

Lemma commits_spec es : forall l fs,
  log_of l fs -> Forall (λ e, Forall record_ok (batch_frames h (ops e.2))) es ->
  first + zlen fs + zlen es + 2 < 2 ^ 64 -> epoch (base l) + zlen es < 2 ^ 64 ->
  exists l' rs, commits p l es = (l', rs) /\ length rs = length es /\ log_of l' (fs ++ accepted h es rs).
Proof.
  induction es as [|[t b] es IH]; intros l fs L F B He.
  { exists l, []. by rewrite app_nil_r. }
  apply Forall_cons in F as [F Fs]. cbn [snd] in F. rewrite zlen_cons in *. pose proof (zlen_nonneg es). pose proof (zlen_nonneg fs).
  destruct (logged_at_spec l t b fs L F ltac:(lia) ltac:(lia)) as (l1 & E1 & Eb & L1).
  pose proof (commit_epoch (base l) b). rewrite <- Eb in *. set (new := match _ with Ok _ => _ | _ => [] end) in L1.
  assert (zlen new <= 1) as Hn by (unfold new; destruct (commit p (base l) b).2; [apply batch_frames_len|done..]).
  destruct (IH l1 (fs ++ new) L1 Fs ltac:(zlia) ltac:(lia)) as (l2 & rs & E2 & El & L2).
  exists l2, ((commit p (base l) b).2 :: rs). cbn [commits]. rewrite E1, E2. split; [done|]. split; [simpl; by rewrite El|].
  cbn [accepted snd]. rewrite <- app_assoc in L2. exact L2.
Qed.
End Commits.

(** ** Opening *)

Section Open.
Context (p : profile) (root h : bytes) (k : ChangelogConfig).

(** Opening numbers a segment past every number of the directory: it creates its
    file and touches no other, so no reader's segment is ever appended to. *)
Lemma open_spec d :
  faults d = healthy ->
  (forall name n, is_Some (files d !! name) -> name_number name = Some n -> n + 1 < 2 ^ 64) ->
  exists first c d', open p root h k d = (d', Ok c) /\ 0 <= first /\
    (forall n, first <= n < 2 ^ 64 -> files d !! segment_name n PARTIAL_EXT = None /\ files d !! segment_name n SEALED_EXT = None) /\
    (first = 0 \/ exists name m, is_Some (files d !! name) /\ name_number name = Some m /\ first = m + 1) /\ first < 2 ^ 64 /\
    writer_at (files d) first root h k (c, d') [] [] [].
Proof.
  intros Hd Hmax. unfold open, next_segment, entries. rewrite Hd. cbn [mkdir_fault list_fault healthy mbind outcome_bind].
  set (names := map fst (map_to_list (files d))).
  assert (forall name, name ∈ names <-> is_Some (files d !! name)) as Hnames.
  { intros name. unfold names. rewrite list_elem_of_fmap. split.
    - intros ([a v] & -> & I). apply elem_of_map_to_list in I. by exists v.
    - intros [v Hv]. exists (name, v). by rewrite elem_of_map_to_list. }
  destruct (max_number_spec names) as [M1 M2].
  assert (exists first, (match max_number names with None => Ok 0 | Some m => add_w (E := Error) p 64 m 1 end) = Ok first /\ 0 <= first < 2 ^ 64 /\
    (first = 0 \/ exists name m, is_Some (files d !! name) /\ name_number name = Some m /\ first = m + 1) /\
    forall name n, is_Some (files d !! name) -> name_number name = Some n -> n < first) as (first & Ef & Hf & H0 & Hlt).
  { destruct (max_number names) as [m|] eqn:Em.
    - destruct (M2 m eq_refl) as (name & I & N). pose proof (name_number_range _ _ N). apply Hnames in I. pose proof (Hmax _ _ I N).
      exists (m + 1). unfold add_w. rewrite (proj2 (Z.ltb_lt _ _)) by lia. split; [done|]. split; [lia|]. split.
      + right. by exists name, m.
      + intros name' n I' N'. apply Hnames in I'. destruct (M1 name' n I' N') as (m' & [= <-] & L). lia.
    - exists 0. split; [done|]. split; [lia|]. split; [by left|]. intros name n I N. apply Hnames in I. by destruct (M1 name n I N) as (m' & [=] & _). }
  rewrite Ef.
  assert (forall n ext, segment_ext ext -> first <= n < 2 ^ 64 -> files d !! segment_name n ext = None) as Hfresh.
  { intros n ext He Hn. apply eq_None_not_Some. intros I. pose proof (Hlt _ n I). rewrite name_number_segment in * by (try done; lia). specialize (H eq_refl). lia. }
  unfold create_segment. rewrite Hd. cbn [create_fault healthy]. rewrite (Hfresh first PARTIAL_EXT) by (try (by left); lia).
  eexists first, _, _. split; [done|]. split; [lia|]. split; [intros n Hn; split; (apply Hfresh; [|done]); [by left|by right]|]. split; [done|]. split; [lia|].
  pose proof (Z.add_0_r first) as E0. change (first + 0) with (first + zlen (@nil (list OpFrame))) in E0.
  constructor; rewrite ?E0; try done; lia.
Qed.
End Open.

(** ** Reading a directory back *)

Section Readback.

Lemma sealed_files_lookup groups : forall m first i g, 0 <= first -> first + zlen groups <= 2 ^ 64 ->
  groups !! i = Some g -> sealed_files m first groups !! segment_name (first + Z.of_nat i) SEALED_EXT = Some (stream g).
Proof.
  induction groups as [|x groups IH]; intros m first i g Hf B E; [done|]. rewrite zlen_cons in B. pose proof (zlen_nonneg groups). cbn [sealed_files].
  destruct i as [|i]; cbn in E.
  - injection E as ->. rewrite Z.add_0_r. rewrite sealed_files_other; [apply lookup_insert_eq|].
    intros n Hn E. apply segment_name_inj in E as [-> _]; lia.
  - replace (first + Z.of_nat (Datatypes.S i)) with (first + 1 + Z.of_nat i) by lia. apply IH; [lia..|done].
Qed.

Lemma sealed_files_inv groups : forall first name b, sealed_files ∅ first groups !! name = Some b ->
  exists i, (i < length groups)%nat /\ name = segment_name (first + Z.of_nat i) SEALED_EXT.
Proof.
  induction groups as [|g groups IH] using rev_ind; intros first name b E; [cbn [sealed_files] in E; by rewrite lookup_empty in E|].
  rewrite sealed_files_snoc in E. rewrite length_app. destruct (decide (name = segment_name (first + zlen groups) SEALED_EXT)) as [->|N].
  - exists (length groups). split; [simpl; lia|done].
  - rewrite lookup_insert_ne in E by done. destruct (IH _ _ _ E) as (i & L & ->). exists i. split; [lia|done].
Qed.

(** The sealed segments' names, in order. *)
Definition sealed_names (n : nat) : list bytes := map (λ i, segment_name (Z.of_nat i) SEALED_EXT) (seq 0 n).

Lemma sealed_names_sorted n : Z.of_nat n <= 10 ^ 8 -> StronglySorted bytes_lt (sealed_names n).
Proof.
  intros Hn. unfold sealed_names. assert (forall a, Z.of_nat a + Z.of_nat n <= 10 ^ 8 -> StronglySorted bytes_lt (map (λ i, segment_name (Z.of_nat i) SEALED_EXT) (seq a n))) as A; [|apply A; lia].
  clear Hn. induction n as [|n IH]; intros a Ha; [constructor|]. cbn [seq map]. constructor; [apply IH; lia|].
  apply Forall_forall. intros x Hx. apply list_elem_of_fmap in Hx as (i & -> & Hi). apply elem_of_seq in Hi. apply segment_name_lt; lia.
Qed.

(** A directory that holds the sealed segments of [groups] and at most one open
    one lists exactly them, in write order. *)
Lemma sealed_segments_spec dir d groups fs' :
  faults d = healthy -> zlen groups <= 10 ^ 8 ->
  (files d = sealed_files ∅ 0 groups \/ files d = <[segment_name (zlen groups) PARTIAL_EXT := fs']> (sealed_files ∅ 0 groups)) ->
  sealed_segments dir d = Ok (sealed_names (length groups)).
Proof.
  intros Hd B Hf. unfold sealed_segments, entries. rewrite Hd. cbn [list_fault healthy mbind outcome_bind]. f_equal.
  pose proof (sealed_names_sorted (length groups) B) as So.
  set (ns := filter _ _). assert (NoDup ns) as Nn by apply NoDup_filter, NoDup_fst_map_to_list.
  assert (forall name, name ∈ ns <-> name ∈ sealed_names (length groups)) as M.
  { intros name. unfold ns, sealed_names. rewrite list_elem_of_filter, !list_elem_of_fmap.
    split.
    - intros [He ([a b] & -> & I)]. cbn [fst] in *. apply elem_of_map_to_list in I.
      assert (exists b, sealed_files ∅ 0 groups !! a = Some b) as [b' I'].
      { destruct Hf as [E|E]; rewrite E in I; [by exists b|]. rewrite lookup_insert in I. case_decide as Ea; [|by exists b].
        subst a. by rewrite extension_segment in He by (by left). }
      apply sealed_files_inv in I' as (i & L & ->). exists i. rewrite Z.add_0_l. split; [done|]. apply elem_of_seq. lia.
    - intros (i & -> & I). apply elem_of_seq in I. split; [apply extension_segment; by right|].
      destruct (lookup_lt_is_Some_2 groups i ltac:(lia)) as [g Hg].
      pose proof (sealed_files_lookup groups ∅ 0 i g ltac:(lia) ltac:(unfold zlen in *; lia) Hg) as E. rewrite Z.add_0_l in E.
      exists (segment_name (Z.of_nat i) SEALED_EXT, stream g). split; [done|]. apply elem_of_map_to_list.
      destruct Hf as [-> | ->]; [done|]. rewrite lookup_insert_ne; [done|]. apply partial_not_sealed; unfold zlen in *; lia. }
  apply sorted_unique.
  - apply Sorted_StronglySorted; [apply _|]. apply Sorted_merge_sort, _.
  - clear -So. induction So as [|x l _ IH Hx]; constructor; [done|]. eapply Forall_impl; [exact Hx|]. apply bytes_lt_le.
  - by rewrite merge_sort_Permutation.
  - by apply sorted_NoDup.
  - intros name. by rewrite merge_sort_Permutation.
Qed.

(** Reading the listed segments gives the groups. *)
Lemma read_all dir d groups fs' :
  faults d = healthy -> Forall record_ok (concat groups) -> zlen groups <= 10 ^ 8 -> frame_fits (stream (concat groups)) ->
  (files d = sealed_files ∅ 0 groups \/ files d = <[segment_name (zlen groups) PARTIAL_EXT := fs']> (sealed_files ∅ 0 groups)) ->
  mapM (M := result) (read_sealed dir d) (sealed_names (length groups)) = Ok groups.
Proof.
  intros Hd F B Fit Hf.
  assert (forall i g, groups !! i = Some g -> read_sealed dir d (segment_name (Z.of_nat i) SEALED_EXT) = Ok g) as A.
  { intros i g Hg. pose proof (lookup_lt_Some _ _ _ Hg).
    assert (Forall record_ok g /\ frame_fits (stream g)) as [Fg Tg].
    { rewrite <- (take_drop_middle _ _ _ Hg), concat_app in F, Fit. cbn [concat] in F, Fit. rewrite !Forall_app in F. rewrite !stream_app in Fit.
      split; [apply F|]. unfold frame_fits in *. zlia. }
    unfold read_sealed. rewrite (frames_of_stream dir d _ g []); [done|by rewrite Hd| |done|by rewrite app_nil_r|by left].
    rewrite app_nil_r. pose proof (sealed_files_lookup groups ∅ 0 i g ltac:(lia) ltac:(lia) Hg) as E. rewrite Z.add_0_l in E.
    destruct Hf as [-> | ->]; [done|]. rewrite lookup_insert_ne; [done|]. apply partial_not_sealed; unfold zlen in *; lia. }
  assert (forall n a, (forall i, (i < n)%nat -> is_Some (groups !! (a + i)%nat)) -> mapM (M := result) (read_sealed dir d) (map (λ i, segment_name (Z.of_nat i) SEALED_EXT) (seq a n)) = Ok (take n (drop a groups))) as M.
  { intros n. induction n as [|n IH]; intros a Ha; [done|]. destruct (Ha 0%nat ltac:(lia)) as [g Hg]. rewrite Nat.add_0_r in Hg.
    cbn [seq map mapM]. rewrite (A _ _ Hg). cbn [mbind outcome_bind]. rewrite IH.
    - cbn [mbind outcome_bind]. rewrite (drop_S _ _ _ Hg). done.
    - intros i Hi. rewrite Nat.add_succ_comm. apply Ha. lia. }
  unfold sealed_names. rewrite M; [by rewrite drop_0, firstn_all|]. intros i Hi. by apply lookup_lt_is_Some_2.
Qed.
End Readback.

(** ** Replaying *)

(** A sink folds a frame's operations into its rows. *)
Definition drain_op (m : gmap bytes bytes) (op : Op) : gmap bytes bytes :=
  let '(tag, key, value) := op in
  if tag =? OP_PUT then <[key := value]> m else if tag =? OP_DELETE then delete key m else m.

Definition drained (m : gmap bytes bytes) (fs : list OpFrame) : gmap bytes bytes :=
  fold_left (λ m f, fold_left drain_op (frame_ops f) m) fs m.

(** The entries of a store a log carries. *)
Definition carried_half (h : bytes) (m : gmap bytes bytes) : gmap bytes bytes :=
  filter (λ kv : bytes * bytes, carried_op h kv.1 = true) m.

Lemma carried_half_lookup h m key : carried_half h m !! key = if carried_op h key then m !! key else None.
Proof.
  unfold carried_half. rewrite map_lookup_filter. destruct (m !! key) as [v|]; cbn; [|by destruct (carried_op h key)].
  destruct (carried_op h key) eqn:E.
  - by rewrite option_guard_True.
  - by rewrite option_guard_False.
Qed.

Lemma drained_ops h l : forall m,
  fold_left drain_op (map op_of (carried_ops h l)) (carried_half h m) = carried_half h (apply_batch m l).
Proof.
  unfold apply_batch. induction l as [|[key v] l IH]; intros m; [done|]. cbn [fold_left]. unfold carried_ops in *. rewrite <- IH.
  assert (forall k', (if carried_op h key then drain_op (carried_half h m) (op_of (key, v)) else carried_half h m) !! k' = carried_half h (apply_op m (key, v)) !! k') as A.
  { intros k'. rewrite !carried_half_lookup. unfold drain_op, op_of, apply_op. destruct v as [v|]; cbn;
      (destruct (decide (key = k')) as [<-|N]; [rewrite ?lookup_insert_eq, ?lookup_delete_eq|rewrite ?lookup_insert_ne, ?lookup_delete_ne by done]);
      destruct (carried_op h key) eqn:E; rewrite ?lookup_insert_eq, ?lookup_delete_eq, ?lookup_insert_ne, ?lookup_delete_ne by done;
      rewrite ?carried_half_lookup, ?E; done. }
  apply map_eq in A. rewrite <- A. destruct (carried_op h key) eqn:E.
  - by rewrite filter_cons_True by done.
  - by rewrite filter_cons_False by (cbn; by rewrite E).
Qed.

Lemma drained_app m fs gs : drained m (fs ++ gs) = drained (drained m fs) gs.
Proof. unfold drained. by rewrite fold_left_app. Qed.

Lemma drained_batch h m l : drained (carried_half h m) (batch_frames h l) = carried_half h (apply_batch m l).
Proof.
  rewrite <- drained_ops. unfold batch_frames, drained. destruct (carried_ops h l) eqn:E; [done|]. cbn [fold_left]. by rewrite write_batch_ops.
Qed.

(** Onto any sink, a batch's frames do what its carried operations do. *)
Lemma drained_frames h m l : drained m (batch_frames h l) = apply_batch m (carried_ops h l).
Proof.
  assert (forall os m, fold_left drain_op (map op_of os) m = apply_batch m os) as A.
  { unfold apply_batch. clear. intros os. induction os as [|[key [v|]] os IH]; intros m; [done|rewrite map_cons..]; cbn [fold_left]; apply IH. }
  unfold drained, batch_frames. destruct (carried_ops h l) as [|op os]; [done|]. rewrite <- A. cbn [fold_left]. by rewrite write_batch_ops.
Qed.

(** ** Shutting down *)

Section Shutdown.

Lemma drop_spec m0 first root h k w groups last pend :
  writer_at m0 first root h k w groups last pend -> 0 <= first ->
  (forall n, first <= n < 2 ^ 64 -> m0 !! segment_name n PARTIAL_EXT = None) ->
  exists c d, drop_log w = (c, d) /\ dir c = table_dir root h /\ faults d = healthy /\
    files d = match last ++ pend with
      | [] => <[segment_name (first + zlen groups) PARTIAL_EXT := []]> (sealed_files m0 first groups)
      | all => sealed_files m0 first (groups ++ [all])
      end.
Proof.
  intros W H0 Hfresh. destruct (write_pending_spec m0 first root h k _ _ _ _ W) as ([c d] & E & W1 & _).
  unfold drop_log. rewrite E. pose proof W1 as W2. destruct W2; cbn [fst snd] in *.
  cbn [set_file written segment]. rewrite wa_written0. pose proof (zlen_nonneg groups).
  destruct (last ++ pend) as [|f fs] eqn:Ef.
  - change (zlen (stream [])) with 0. cbn [Z.ltb]. change (0 <? 0) with false. cbn iota.
    exists (set_file c false), d. split; [done|]. split; [done|]. split; [done|]. by rewrite wa_files0.
  - pose proof (record_len f). pose proof (zlen_nonneg (OpFrame_encode f)). pose proof (zlen_nonneg (stream fs)).
    rewrite (proj2 (Z.ltb_lt 0 _)) by (rewrite stream_cons; zlia).
    unfold rename_file. rewrite wa_disk0. cbn [rename_fault healthy]. rewrite wa_files0, wa_segment0, lookup_insert_eq.
    cbn [fst]. eexists _, _. split; [done|]. split; [done|]. split; [done|]. cbn [files set_files].
    rewrite sealed_files_snoc, delete_insert_id by (apply no_partial; (done || lia)). done.
Qed.

End Shutdown.

Section Replay.
Context (p : profile).
Context {K R : Type} `{HD : Document K R} {S : Type} `{HS : VirtualStorage S}.
Abbreviation h := (header (K := K) (R := R)).

(** Opening a collection on an empty directory. *)
Lemma with_changelog_spec root k (s : S) d :
  faults d = healthy -> 0 <= segment_bytes k < 2 ^ 64 ->
  (forall name n, is_Some (files d !! name) -> name_number name = Some n -> n + 1 < 2 ^ 64) ->
  exists first l, with_changelog p (K := K) (R := R) root k s d = Ok l /\ 0 <= first < 2 ^ 64 /\
    (first = 0 \/ exists name m, is_Some (files d !! name) /\ name_number name = Some m /\ first = m + 1) /\
    (forall n, first <= n < 2 ^ 64 -> files d !! segment_name n PARTIAL_EXT = None /\ files d !! segment_name n SEALED_EXT = None) /\
    base l = Collection_new s /\ log_of (K := K) (R := R) (files d) first root k l [].
Proof.
  intros Hd Hk Hmax. destruct (open_spec p root h k d Hd Hmax) as (first & c & d' & E & Hf & Hfresh & H0 & Hb & W).
  unfold with_changelog. rewrite E. eexists first, _. split; [done|]. split; [lia|]. split; [done|]. split; [done|]. split; [done|].
  exists (c, d'). split; [done|]. exists [], [], []. split; [done|]. auto.
Qed.
End Replay.

Section Reliable.
Context (p : profile).
Context {K R : Type} `{HD : Document K R} {S : Type} `{HRS : ReliableStorage S}.
Context (m0 : gmap bytes bytes) (first : Z) (root : bytes) (k : ChangelogConfig).
Abbreviation h := (header (K := K) (R := R)).

Hypothesis Hfirst : 0 <= first.
Hypothesis Hfresh : forall n, first <= n < 2 ^ 64 -> m0 !! segment_name n PARTIAL_EXT = None.
Hypothesis Hk : 0 <= segment_bytes k < 2 ^ 64.

(** The frames of a history of batches, in commit order. *)
Definition history (es : list (Z * Batch)) : list OpFrame := concat (map (λ e, batch_frames h (ops e.2)) es).

Lemma commit_reliable (c : Collection S) b : epoch c + 1 < 2 ^ 64 ->
  exists c', commit p c b = (c', Ok tt) /\ contents (store c') = apply_batch (contents (store c)) (ops b).
Proof.
  intros He. unfold commit. destruct (commit_batch_spec (store c) b) as (s' & -> & Es).
  unfold add_w. rewrite (proj2 (Z.ltb_lt _ _)) by done. by eexists.
Qed.

(** On a healthy engine every batch is accepted, and the log replays to the
    carried half of the store. *)
Lemma commits_reliable es : forall (l : Logged (S := S)) fs,
  log_of (K := K) (R := R) m0 first root k l fs -> Forall (λ e, Forall record_ok (batch_frames h (ops e.2))) es ->
  first + zlen fs + zlen es + 2 < 2 ^ 64 -> epoch (base l) + zlen es < 2 ^ 64 ->
  drained ∅ fs = carried_half h (contents (store (base l))) ->
  exists l', commits p l es = (l', replicate (length es) (Ok tt)) /\ log_of (K := K) (R := R) m0 first root k l' (fs ++ history es) /\
    drained ∅ (fs ++ history es) = carried_half h (contents (store (base l'))).
Proof.
  induction es as [|[t b] es IH]; intros l fs L F B He Hr.
  { exists l. unfold history. cbn. by rewrite app_nil_r. }
  apply Forall_cons in F as [F Fs]. cbn [snd] in F. rewrite zlen_cons in *. pose proof (zlen_nonneg es). pose proof (zlen_nonneg fs).
  destruct (logged_at_spec p m0 first root k Hfirst Hfresh Hk l t b fs L F ltac:(lia) ltac:(lia)) as (l1 & E1 & Eb & L1).
  pose proof (commit_epoch p (base l) b) as Ep. destruct (commit_reliable (base l) b ltac:(lia)) as (c' & Ec & Es).
  rewrite Ec in *. cbn [fst snd] in *.
  pose proof (batch_frames_len h (ops b)) as Hn.
  destruct (IH l1 (fs ++ batch_frames h (ops b)) L1 Fs ltac:(zlia) ltac:(rewrite Eb; lia)) as (l2 & E2 & L2 & R2).
  { by rewrite drained_app, Hr, Eb, Es, drained_batch. }
  exists l2. cbn [commits]. rewrite E1, E2. unfold history in *. cbn [map concat]. rewrite !app_assoc. split; [done|by split].
Qed.
End Reliable.

(** ** The theorems *)

(** C13: a collection's log holds exactly what its engine accepted.  Opened beside
    any existing segments, it numbers its own past them and leaves them as they
    are; after any sequence of commits, whatever the engine answers and whatever
    the clock says, the sealed segments, the open one and the pending bytes are
    together the records of the accepted batches' carried operations, in commit
    order, every sealed segment whole; a refused batch leaves nothing. *)
Theorem log_holds_committed (p : profile) {K R : Type} `{HD : Document K R} {S : Type} `{HS : VirtualStorage S} root k (s : S) d es :
  faults d = healthy -> 0 <= segment_bytes k < 2 ^ 64 ->
  (forall name n, is_Some (files d !! name) -> name_number name = Some n -> n + zlen es + 3 < 2 ^ 64) -> zlen es + 2 < 2 ^ 64 ->
  Forall (λ e, Forall record_ok (batch_frames (header (K := K) (R := R)) (ops e.2))) es ->
  exists first l l' rs c d' groups last pend,
    with_changelog p (K := K) (R := R) root k s d = Ok l /\ commits p l es = (l', rs) /\ length rs = length es /\
    changelog l' = Some (c, d') /\
    concat groups ++ last ++ pend = accepted (header (K := K) (R := R)) es rs /\ log_pending c = stream pend /\ dropped c = 0 /\
    files d' = <[segment_name (first + zlen groups) PARTIAL_EXT := stream last]> (sealed_files (files d) first groups) /\
    (forall name, is_Some (files d !! name) -> files d' !! name = files d !! name) /\
    Forall (λ g, g <> []) groups /\ (pend = [] \/ zlen (stream pend) < buffer_bytes k) /\
    (last ++ pend = [] \/ zlen (stream (last ++ pend)) < segment_bytes k).
Proof.
  intros Hd Hk Hmax Hes F. pose proof (zlen_nonneg es).
  destruct (with_changelog_spec p (K := K) (R := R) root k s d Hd Hk) as (first & l & El & Hf & Hz & Hfresh & Eb & L).
  { intros name n I N. pose proof (Hmax name n I N). lia. }
  assert (first + zlen es + 2 < 2 ^ 64) as B. { destruct Hz as [->|(name & m & I & N & ->)]; [lia|]. pose proof (Hmax name m I N). lia. }
  destruct (commits_spec p (files d) first root k ltac:(lia) ltac:(intros; by apply Hfresh) Hk es l [] L F) as (l' & rs & Ec & Er & ([c d'] & Ew & groups & last & pend & W & Eg & G & Hp & Hl)).
  { change (zlen (@nil OpFrame)) with 0. lia. }
  { rewrite Eb. cbn [Collection_new epoch]. lia. }
  exists first, l, l', rs, c, d', groups, last, pend. pose proof W as []. cbn [fst snd] in *.
  split_and!; [done|done|done|done|done|done|done|done| |done|done|done].
  intros name I. rewrite wa_files0. pose proof (zlen_nonneg groups). rewrite lookup_insert_ne.
  - apply sealed_files_other. intros n Hn ->. rewrite (proj2 (Hfresh n ltac:(lia))) in I. by destruct I.
  - intros <-. rewrite (proj1 (Hfresh (first + zlen groups) ltac:(lia))) in I. by destruct I.
Qed.

(** C6: the log is the truth.  A collection opened over an empty store with a log
    in an empty directory, driven by any batches and shut down cleanly, leaves
    sealed segments that a drainer lists in write order and reads without error;
    replaying their frames onto nothing yields exactly the carried half of the
    store: rows, dynamic segments, names and labels, no derived entry. *)
Theorem clean_shutdown_replays (p : profile) {K R : Type} `{HD : Document K R} {S : Type} `{HRS : ReliableStorage S} root k (s : S) d es :
  faults d = healthy -> files d = ∅ -> contents s = ∅ -> 0 <= segment_bytes k < 2 ^ 64 -> zlen es < 10 ^ 8 ->
  Forall (λ e, Forall record_ok (batch_frames (header (K := K) (R := R)) (ops e.2))) es ->
  frame_fits (stream (history (K := K) (R := R) es)) ->
  exists l l' c d' names fss,
    with_changelog p (K := K) (R := R) root k s d = Ok l /\ commits p l es = (l', replicate (length es) (Ok tt)) /\
    option_map drop_log (changelog l') = Some (c, d') /\
    sealed_segments (dir c) d' = Ok names /\ mapM (M := result) (read_sealed (dir c) d') names = Ok fss /\
    concat fss = history (K := K) (R := R) es /\
    drained ∅ (concat fss) = carried_half (header (K := K) (R := R)) (contents (store (base l'))).
Proof.
  intros Hd Hf0 Hs Hk Hes F Fit. pose proof (zlen_nonneg es).
  destruct (with_changelog_spec p (K := K) (R := R) root k s d Hd Hk) as (first & l & El & _ & Hz & Hfresh & Eb & L).
  { intros name n I. rewrite Hf0, lookup_empty in I. by destruct I. }
  destruct Hz as [->|(name & m & I & _)]; [|rewrite Hf0, lookup_empty in I; by destruct I].
  destruct (commits_reliable p (files d) 0 root k ltac:(lia) ltac:(intros; by apply Hfresh) Hk es l [] L F) as (l' & Ec & ([c d'] & Ew & groups & last & pend & W & Eg & G & _) & Er).
  { change (zlen (@nil OpFrame)) with 0. lia. }
  { rewrite Eb. cbn [Collection_new epoch]. lia. }
  { rewrite Eb. cbn [Collection_new store]. rewrite Hs. unfold carried_half. by rewrite map_filter_empty. }
  cbn [app] in Eg, Er.
  destruct (drop_spec _ _ _ _ _ _ _ _ _ W ltac:(lia) ltac:(intros; by apply Hfresh)) as (c' & dd & Ed & Edir & Hdd & Ef). rewrite Hf0, Z.add_0_l in Ef.
  assert (exists gs, concat gs = history (K := K) (R := R) es /\ Forall (λ g, g <> []) gs /\
    (files dd = sealed_files ∅ 0 gs \/ files dd = <[segment_name (zlen gs) PARTIAL_EXT := []]> (sealed_files ∅ 0 gs))) as (gs & Egs & Ngs & Hgs).
  { destruct (last ++ pend) as [|f fs].
    - exists groups. rewrite app_nil_r in Eg. auto.
    - exists (groups ++ [f :: fs]). rewrite concat_app. cbn [concat]. rewrite app_nil_r. split; [done|]. split; [apply Forall_app; split; [done|by apply Forall_singleton]|by left]. }
  pose proof (groups_le gs Ngs) as Lg. rewrite Egs in Lg.
  assert (zlen (history (K := K) (R := R) es) <= zlen es) as Lh.
  { clear. unfold history. induction es as [|e es IH]; [done|]. cbn [map concat]. pose proof (batch_frames_len (header (K := K) (R := R)) (ops e.2)). zlia. }
  assert (Forall record_ok (history (K := K) (R := R) es)) as Fh.
  { clear -F. unfold history. induction F as [|e es He _ IH]; [by apply Forall_nil|]. cbn [map concat]. by apply Forall_app. }
  assert (sealed_segments (dir c') dd = Ok (sealed_names (length gs))) as Els by (eapply sealed_segments_spec; [done|lia|exact Hgs]).
  assert (mapM (M := result) (read_sealed (dir c') dd) (sealed_names (length gs)) = Ok gs) as Erd.
  { eapply read_all; [done|by rewrite Egs|lia|by rewrite Egs|exact Hgs]. }
  exists l, l', c', dd, (sealed_names (length gs)), gs.
  split; [done|]. split; [done|]. split; [by rewrite Ew; cbn [option_map]; rewrite Ed|]. split; [done|]. split; [done|]. split; [done|].
  by rewrite Egs.
Qed.

(** ** Repairs *)

(** The rows of a store, under their whole keys. *)
Definition stored_rows (h : bytes) (m : gmap bytes bytes) : list (bytes * bytes) :=
  map (λ row, ((h ++ [PRIMARY_SLOT]) ++ row.1, row.2)) (carried_pairs m (h ++ [PRIMARY_SLOT])).

Lemma elem_of_stored_rows h m key v :
  (key, v) ∈ stored_rows h m <-> exists t, key = (h ++ [PRIMARY_SLOT]) ++ t /\ m !! key = Some v.
Proof.
  unfold stored_rows. rewrite list_elem_of_fmap. split.
  - intros ([t w] & [= -> ->] & I). apply elem_of_carried_pairs in I. by exists t.
  - intros (t & -> & E). exists (t, v). by rewrite elem_of_carried_pairs.
Qed.

(** Putting entries of a map into another. *)
Lemma puts_lookup (src : gmap bytes bytes) l : forall m key, (forall a v, (a, v) ∈ l -> src !! a = Some v) ->
  apply_batch m (map (λ row : bytes * bytes, (row.1, Some row.2)) l) !! key = if decide (key ∈ map fst l) then src !! key else m !! key.
Proof.
  induction l as [|[a v] l IH] using rev_ind; intros m key Hl; [done|].
  rewrite map_app. cbn [map]. rewrite apply_batch_snoc. unfold apply_op. cbn [fst snd].
  assert (src !! a = Some v) as Ea by (apply Hl, elem_of_app; right; by apply list_elem_of_singleton).
  rewrite map_app. cbn [map fst]. destruct (decide (a = key)) as [<-|N].
  - rewrite lookup_insert_eq, decide_True; [done|]. apply elem_of_app. right. by apply list_elem_of_singleton.
  - rewrite lookup_insert_ne by done. rewrite IH by (intros b w I; apply Hl, elem_of_app; by left).
    destruct (decide (key ∈ map fst l)) as [I|I].
    + by rewrite decide_True by (apply elem_of_app; by left).
    + rewrite decide_False; [done|]. intros [I'|I']%elem_of_app; [done|]. by apply list_elem_of_singleton in I'.
Qed.

(** Reconciling re-captures every row that exists: the log takes one frame of
    puts, and a sink that folds it holds afterwards the store's value of every
    row, whatever it held before; every other key, a removed row's included, is
    left as it was. *)
Theorem reconcile_repairs (p : profile) {K R : Type} `{HD : Document K R} {S : Type} `{HRS : ReliableStorage S} m0 first root k (l : Logged (S := S)) fs sink :
  let h := header (K := K) (R := R) in
  let rows := stored_rows h (contents (store (base l))) in
  let frames := batch_frames h (map (λ row, (row.1, Some row.2)) rows) in
  0 <= first -> (forall n, first <= n < 2 ^ 64 -> m0 !! segment_name n PARTIAL_EXT = None) -> 0 <= segment_bytes k < 2 ^ 64 ->
  log_of (K := K) (R := R) m0 first root k l fs -> first + zlen fs + 2 < 2 ^ 64 ->
  bytes_ok h -> long_keys (contents (store (base l))) (h ++ [PRIMARY_SLOT]) -> Forall record_ok frames ->
  exists l1 l2 n, reconcile (K := K) (R := R) l = (l1, Ok n) /\ flush_capture p l1 = (l2, Ok tt) /\
    log_of (K := K) (R := R) m0 first root k l2 (fs ++ frames) /\ base l2 = base l /\
    (forall t v, t <> [] -> contents (store (base l)) !! ((h ++ [PRIMARY_SLOT]) ++ t) = Some v ->
      drained sink frames !! ((h ++ [PRIMARY_SLOT]) ++ t) = Some v) /\
    (forall key, (forall t, t <> [] -> key = (h ++ [PRIMARY_SLOT]) ++ t -> contents (store (base l)) !! key = None) ->
      drained sink frames !! key = sink !! key).
Proof.
  intros h rows frames Hf Hfresh Hk ([c d] & El & L) B Hb Hl F. subst h.
  set (h := header (K := K) (R := R)) in *.
  assert (carried_ops h (map (λ row : bytes * bytes, (row.1, Some row.2)) rows) =
    map (λ row : bytes * bytes, (row.1, Some row.2)) (filter (λ row : bytes * bytes, carried_op h row.1 = true) rows)) as Ec.
  { unfold carried_ops. generalize rows. clear. intros l. induction l as [|[a v] l IH]; [done|]. cbn [map]. destruct (carried_op h a) eqn:E.
    - rewrite !filter_cons_True by done. cbn [map]. by rewrite IH.
    - rewrite !filter_cons_False by (cbn; by rewrite E). done. }
  assert (Pc : forall t, carried_op h ((h ++ [PRIMARY_SLOT]) ++ t) = negb (bool_decide (t = []))).
  { intros t. rewrite <- app_assoc. change ([PRIMARY_SLOT] ++ t) with (slot_bytes PRIMARY_SLOT ++ t).
    rewrite carried_at by (by apply (bool_decide_unpack _)). by rewrite andb_true_r. }
  assert (Rs : forall a v, (a, v) ∈ filter (λ row : bytes * bytes, carried_op h row.1 = true) rows <->
    exists t, t <> [] /\ a = (h ++ [PRIMARY_SLOT]) ++ t /\ contents (store (base l)) !! a = Some v).
  { intros a v. rewrite list_elem_of_filter. unfold rows. rewrite elem_of_stored_rows. cbn [fst]. split.
    - intros (C & t & -> & E). exists t. rewrite Pc in C. apply negb_true_iff, bool_decide_eq_false in C. done.
    - intros (t & N & -> & E). rewrite Pc, bool_decide_false by done. split; [done|]. by exists t. }
  assert (Rp : forall key, drained sink frames !! key = apply_batch sink (map (λ row : bytes * bytes, (row.1, Some row.2)) (filter (λ row : bytes * bytes, carried_op h row.1 = true) rows)) !! key).
  { intros key. unfold frames. by rewrite drained_frames, Ec. }
  assert (log_header c = h) as Eh by (destruct L as (? & ? & ? & [] & _); done).
  assert (scan_suffix_kv (store (base l)) (h ++ [PRIMARY_SLOT]) = Ok (carried_pairs (contents (store (base l))) (h ++ [PRIMARY_SLOT]))) as Es.
  { apply scans_carried; [|done]. apply Forall_app. split; [done|]. by apply (bool_decide_unpack _). }
  unfold reconcile. rewrite El. rewrite write_slot_ok by (by apply (bool_decide_unpack _)). cbn [mbind outcome_bind].
  change (slot_bytes PRIMARY_SLOT) with [PRIMARY_SLOT]. fold h. rewrite Es. cbn [mbind outcome_bind]. fold (stored_rows h (contents (store (base l)))). fold rows.
  unfold stage_rows, stage_capture, on_log at 1. rewrite El. rewrite stage_spec by (by rewrite Eh).
  destruct (commit_staged_spec p m0 first root h k Hf Hfresh Hk _ d fs frames (log_at_staged _ _ _ _ _ _ _ _ (stream frames) L) eq_refl) as (w & Ew & Lw).
  { pose proof (batch_frames_len h (map (λ row : bytes * bytes, (row.1, Some row.2)) rows)). unfold frames. lia. }
  rewrite Eh. fold frames. eexists _, _, _. split; [done|]. unfold flush_capture, on_log. cbn [changelog]. rewrite Ew.
  split; [done|]. split; [by exists w|]. split; [done|]. split.
  - intros t v N E. rewrite Rp, (puts_lookup (contents (store (base l)))) by (intros a w' I; apply Rs in I as (? & _ & _ & ?); done).
    rewrite decide_True; [done|]. apply list_elem_of_fmap. exists ((h ++ [PRIMARY_SLOT]) ++ t, v). split; [done|]. apply Rs. by exists t.
  - intros key N. rewrite Rp, (puts_lookup (contents (store (base l)))) by (intros a w' I; apply Rs in I as (? & _ & _ & ?); done).
    rewrite decide_False; [done|]. intros ([a v] & -> & I)%list_elem_of_fmap. apply Rs in I as (t & Nt & Ea & E). cbn [fst] in N. by rewrite (N t Nt Ea) in E.
Qed.
