(* ===== verification/LogFaults.v ===== *)
(** * The log on a failing disk (okm-core, [changelog.rs])

    What the writer does when a write, a rename or the creation of a segment
    fails: what is repeated, what is dropped and what ends the log. *)
From S2P Require Import Prelude Errors Storage Slots Vocab DynValue Wire Keys Fields Payload Index Reduces Collection Declared Table Documents Changelog LogFrames LogTruth.

(** ** The retry buffer *)

(** The trim drops whole records, the oldest first, as many as the cap asks. *)
Lemma trim_loop_spec fs : forall fuel cap n, Forall record_ok fs -> (length fs <= fuel)%nat -> 0 <= cap ->
  exists j, trim_loop fuel cap (stream fs) n = (stream (drop j fs), n + Z.of_nat j) /\
    zlen (stream (drop j fs)) <= cap /\ (j = 0%nat \/ cap < zlen (stream (drop (j - 1) fs))).
Proof.
  induction fs as [|f fs IH]; intros fuel cap n F Hn Hc.
  { exists 0%nat. rewrite drop_0, Z.add_0_r. split; [|split; [done|by left]]. destruct fuel as [|fuel]; [done|]. cbn [trim_loop].
    by rewrite (proj2 (Z.ltb_ge cap _)) by done. }
  apply Forall_cons in F as [Hf F]. destruct fuel as [|fuel]; [simpl in Hn; lia|]. cbn [trim_loop].
  destruct (Z.ltb_spec cap (zlen (stream (f :: fs)))) as [L|L].
  2: { exists 0%nat. rewrite drop_0, Z.add_0_r. split; [done|]. split; [done|by left]. }
  assert (first_record_end (stream (f :: fs)) = Some (zlen (record f))) as ->.
  { unfold first_record_end. rewrite stream_cons. unfold record at 1. rewrite <- app_assoc.
    rewrite (slice_here [] (be_bytes 4 (zlen (OpFrame_encode f))) (OpFrame_encode f ++ stream fs)) by (rewrite ?be_bytes_zlen; done).
    cbn [mbind option_bind]. rewrite record_prefix by done. rewrite <- record_len. rewrite (proj2 (Z.leb_le _ _)); [done|]. pose proof (record_len f). zlia. }
  assert (drop (Z.to_nat (zlen (record f))) (stream (f :: fs)) = stream fs) as ->.
  { rewrite stream_cons. unfold zlen. rewrite Nat2Z.id. apply drop_app_length. }
  destruct (IH fuel cap (n + 1) F ltac:(simpl in Hn; lia) Hc) as (j & E & B & M). exists (S j). rewrite E.
  split; [f_equal; lia|]. split; [done|]. right. replace (S j - 1)%nat with j by lia. destruct M as [->|M]; [by rewrite drop_0|].
  destruct j as [|j]; [done|]. replace (S j - 1)%nat with j in M by lia. done.
Qed.

(** ** A segment that cannot be renamed *)

(** One more commit, under whatever the disk and the clock now do. *)
Definition later (p : profile) (w : Writer) (e : Faults * Z * list (bytes * option bytes)) : Writer :=
  (commit_staged p ((stage w.1 e.2).1, mkDisk (files w.2) e.1.2 e.1.1)).1.

Lemma closed_write c d : file c = false -> log_pending c <> [] ->
  write_pending (c, d) = ((set_last_error c (partial_path c ++ colon ++ log_closed), d), Err (Errors.Changelog (partial_path c ++ colon ++ log_closed))).
Proof. intros Hf Hp. unfold write_pending. destruct (log_pending c); [done|]. by rewrite Hf. Qed.

Lemma closed_later p c d e : file c = false -> Forall record_ok (batch_frames (log_header c) e.2) ->
  exists c', later p (c, d) e = (c', mkDisk (files d) e.1.2 e.1.1) /\ file c' = false /\ log_header c' = log_header c /\
    segment c' = segment c /\ dropped c' = dropped c /\ log_pending c' = log_pending c ++ stream (batch_frames (log_header c) e.2).
Proof.
  intros Hf F. unfold later. cbn [fst snd]. rewrite stage_spec by done. cbn [fst]. unfold commit_staged. cbn [staged set_staged].
  destruct (stream (batch_frames (log_header c) e.2)) as [|x b] eqn:Es.
  { eexists. split; [done|]. cbn. rewrite app_nil_r. done. }
  rewrite <- Es. set (c1 := set_staged _ _). set (dd := mkDisk _ _ _).
  assert (file c1 = false /\ log_header c1 = log_header c /\ segment c1 = segment c /\ dropped c1 = dropped c /\
    log_pending c1 = log_pending c ++ stream (batch_frames (log_header c) e.2)) as (H1 & H2 & H3 & H4 & H5) by done.
  assert (log_pending c1 <> []) as Np. { rewrite H5, Es. by destruct (log_pending c). }
  clearbody c1. pose proof (closed_write c1 dd H1 Np) as Ew.
  assert (exists c', (maybe_rotate p (c1, dd)).1 = (c', dd) /\ (c' = c1 \/ exists t, c' = set_last_error c1 t)) as (c2 & Er & Hc2).
  { unfold maybe_rotate. destruct (_ || (_ =? 0)); [exists c1; auto|]. unfold seal, mbind, enc_bind. rewrite Ew. eexists. split; [done|]. right. by eexists. }
  unfold mbind, enc_bind. destruct (_ || _).
  - rewrite Ew. cbn [fst]. eexists. split; [done|]. done.
  - cbn [mret enc_ret]. exists c2. split; [exact Er|]. by destruct Hc2 as [->|[t ->]].
Qed.

(** One failed rename ends a log for good.  The failure closes the handle and
    is not recorded in the status; from then on, although the disk is healthy
    again, no commit changes the directory, nothing retries the rename, and the
    pending bytes grow by every batch with no bound and no record dropped. *)
Theorem failed_rename_ends_log p c d e es :
  faults d = mkFaults None None None None None (Some e) None -> file c = true ->
  files d !! segment_name (segment c) PARTIAL_EXT <> None ->
  Forall (λ ev : Faults * Z * list (bytes * option bytes), Forall record_ok (batch_frames (log_header c) ev.2)) es ->
  exists c1 d1 c2 d2, seal p (c, d) = ((c1, d1), Err (io_err (partial_path c) e)) /\
    last_error c1 = last_error c /\ file c1 = false /\ log_pending c1 = [] /\
    fold_left (later p) es (c1, d1) = (c2, d2) /\ files d2 = files d1 /\ file c2 = false /\ dropped c2 = dropped c /\
    log_pending c2 = stream (concat (map (λ ev : Faults * Z * list (bytes * option bytes), batch_frames (log_header c) ev.2) es)).
Proof.
  intros Hd Hf Hp F.
  assert (exists c0 d0, write_pending (c, d) = ((c0, d0), Ok tt) /\ last_error c0 = last_error c /\ log_pending c0 = [] /\ faults d0 = faults d /\
    segment c0 = segment c /\ dir c0 = dir c /\ dropped c0 = dropped c /\ log_header c0 = log_header c) as (c0 & d0 & Ew & E1 & E2 & E3 & E4 & E5 & E6 & E7).
  { unfold write_pending. destruct (log_pending c) eqn:El; [by exists c, d|]. rewrite Hf. cbn [negb]. unfold write_all. rewrite Hd. cbn [write_fault].
    unfold append, set_files. cbn [faults]. rewrite Hd. cbn [sync_fault]. destruct (sync_data _); eexists _, _; done. }
  assert (seal p (c, d) = ((set_file c0 false, d0), Err (io_err (partial_path c) e))) as Es.
  { unfold seal, mbind, enc_bind. rewrite Ew. unfold close_segment, rename_file. rewrite E3, Hd. cbn [rename_fault]. unfold partial_path. cbn. by rewrite E4, E5. }
  exists (set_file c0 false), d0. revert F.
  assert (forall es w1 w2, file w1 = false -> log_header w1 = log_header c -> dropped w1 = dropped c ->
    Forall (λ ev : Faults * Z * list (bytes * option bytes), Forall record_ok (batch_frames (log_header c) ev.2)) es ->
    exists c2 d2, fold_left (later p) es (w1, w2) = (c2, d2) /\ files d2 = files w2 /\ file c2 = false /\ dropped c2 = dropped c /\
      log_pending c2 = log_pending w1 ++ stream (concat (map (λ ev : Faults * Z * list (bytes * option bytes), batch_frames (log_header c) ev.2) es))) as A.
  { clear. intros es. induction es as [|ev es IH]; intros c1 d1 H1 H2 H3 F.
    - exists c1, d1. cbn. by rewrite app_nil_r.
    - apply Forall_cons in F as [Fe F]. rewrite <- H2 in Fe. destruct (closed_later p c1 d1 ev H1 Fe) as (c' & E & A1 & A2 & A3 & A4 & A5).
      cbn [fold_left]. rewrite E. rewrite H2 in A2. rewrite H3 in A4. destruct (IH c' (mkDisk (files d1) ev.1.2 ev.1.1) A1 A2 A4 F) as (c2 & d2 & B1 & B2 & B3 & B4 & B5).
      exists c2, d2. split; [done|]. split; [done|]. split; [done|]. split; [done|]. rewrite B5, A5, H2. cbn [map concat]. by rewrite stream_app, app_assoc. }
  intros F. destruct (A es (set_file c0 false) d0 eq_refl E7 E6 F) as (c2 & d2 & B1 & B2 & B3 & B4 & B5).
  exists c2, d2. cbn in B5. rewrite E2 in B5. done.
Qed.

(** ** A write that fails part way *)

(** A failed write is retried whole.  When the disk takes only the first [n]
    bytes of a flush, the bytes stay pending and the next flush writes all of
    them again behind the part that landed, so the segment then holds that part
    twice. *)
Theorem failed_write_repeats c d n e old b :
  write_fault (faults d) = Some (n, e) -> file c = true -> log_pending c = b -> b <> [] ->
  zlen b <= sat_mul (buffer_bytes (cfg c)) 8 `max` 1 ->
  files d !! segment_name (segment c) PARTIAL_EXT = Some old ->
  exists c1 d1 c2 d2, write_pending (c, d) = ((c1, d1), Err (Errors.Changelog (partial_path c ++ colon ++ e))) /\
    log_pending c1 = b /\ last_error c1 = Some (partial_path c ++ colon ++ e) /\
    write_pending (c1, mkDisk (files d1) (now d1) healthy) = ((c2, d2), Ok tt) /\ log_pending c2 = [] /\
    files d2 !! segment_name (segment c) PARTIAL_EXT = Some (old ++ take n b ++ b).
Proof.
  intros Hd Hf Hb Nb Hcap Hold. unfold write_pending at 1. rewrite Hb. destruct b as [|x b]; [done|]. rewrite Hf. cbn [negb].
  unfold write_all. rewrite Hd. unfold trim_to_cap. cbn [set_last_error log_pending cfg]. rewrite Hb.
  assert (trim_loop (length (x :: b)) (sat_mul (buffer_bytes (cfg c)) 8 `max` 1) (x :: b) 0 = (x :: b, 0)) as ->.
  { cbn [length trim_loop]. by rewrite (proj2 (Z.ltb_ge _ _)) by done. }
  eexists _, _, (set_log_pending (set_written _ _) []), _. split; [done|]. split; [done|]. split; [done|].
  unfold write_pending. cbn [set_trimmed set_last_error log_pending file cfg]. rewrite Hf. cbn [negb]. unfold write_all. cbn [faults write_fault healthy].
  unfold append at 1, set_files. cbn [faults files now sync_fault healthy].
  split; [by destruct (sync_data _)|]. split; [done|].
  cbn [segment set_trimmed set_last_error files append set_files]. rewrite lookup_alter_eq, lookup_alter_eq, Hold. cbn. by rewrite <- app_assoc.
Qed.
