(* ===== verification/LogSamples.v ===== *)
(** * A sample log

    A collection with a log in an empty directory, two batches, a refused one and
    a failing disk: the instances of the theorems on the change log. *)
From S2P Require Import Prelude Errors Storage Slots Vocab DynValue Wire Keys Fields Payload Index Reduces Collection Declared Table Documents Changelog LogFrames LogTruth LogFaults.

Definition sample_log_header : bytes := header (K := krow sample_key) (R := sample_row_type).

(** Two rows are put; then one goes and an index entry comes. *)
Definition sample_batches : list (Z * Batch) :=
  [(5, mkBatch [(sample_log_header ++ [0; 7], Some [1; 2]); (sample_log_header ++ [0; 8], Some [3])]);
   (400 * 10 ^ 9, mkBatch [(sample_log_header ++ [0; 8], None); (sample_log_header ++ [0x30; 1; 9], Some [])])].

Definition sample_config : ChangelogConfig := mkLogConfig 1000 300 64 false.
Definition sample_dir : Disk := mkDisk ∅ 0 healthy.

(** A frame of the sample, read from a directory where it was cut. *)
Definition sample_frames : list OpFrame := history (K := krow sample_key) (R := sample_row_type) sample_batches.

Definition cut_dir (n : nat) : Disk := mkDisk {[ segment_name 0 SEALED_EXT := take n (stream sample_frames) ]} 0 healthy.

Lemma sample_frames_ok : Forall record_ok sample_frames.
Proof. apply (bool_decide_unpack _). by vm_compute. Qed.

Lemma segment_reads_back_witness :
  read_open_tail [] (cut_dir 30) (segment_name 0 SEALED_EXT) = Ok (take 1 sample_frames) /\
  exists k rest, take 30 (stream sample_frames) = stream (take k sample_frames) ++ rest /\
    read_open_tail [] (cut_dir 30) (segment_name 0 SEALED_EXT) = Ok (take k sample_frames).
Proof.
  split; [by vm_compute|].
  destruct (segment_reads_back [] (cut_dir 30) (segment_name 0 SEALED_EXT) sample_frames 30) as (k & rest & E & _ & R & _);
    [done|apply sample_frames_ok|by vm_compute|apply (bool_decide_unpack _); by vm_compute|by vm_compute|].
  by exists k, rest.
Defined.

Lemma carried_exact_witness :
  carried_op sample_log_header (sample_log_header ++ [0; 7]) = true /\
  exists nk, name_key (E := Error) FIELD_VOCAB sample_log_header [] = Ok nk /\ carried_op sample_log_header nk = false.
Proof.
  split; [by vm_compute|].
  apply (carried_exact sample_log_header (sample_log_header ++ [0; 7]) FIELD_VOCAB 2 0);
    [by apply (bool_decide_unpack _); vm_compute..|done|lia].
Defined.

Lemma sample_batches_ok :
  Forall (λ e : Z * Batch, Forall record_ok (batch_frames sample_log_header (ops e.2))) sample_batches.
Proof. apply (bool_decide_unpack _). by vm_compute. Qed.

Lemma log_holds_committed_witness :
  exists l l' rs, with_changelog Debug (K := krow sample_key) (R := sample_row_type) [47] sample_config (∅ : MemStore) sample_dir = Ok l /\
    commits Debug l sample_batches = (l', rs) /\ length rs = 2%nat.
Proof.
  destruct (log_holds_committed Debug (K := krow sample_key) (R := sample_row_type) [47] sample_config (∅ : MemStore) sample_dir sample_batches)
    as (first & l & l' & rs & c & d' & groups & last & pend & E1 & E2 & E3 & _);
    [done|by vm_compute|intros name n [x X]; cbn in X; by rewrite lookup_empty in X|by vm_compute|apply sample_batches_ok|].
  by exists l, l', rs.
Defined.

Lemma clean_shutdown_replays_witness :
  exists l l' names, with_changelog Debug (K := krow sample_key) (R := sample_row_type) [47] sample_config (∅ : MemStore) sample_dir = Ok l /\
    commits Debug l sample_batches = (l', replicate 2 (Ok tt)) /\
    drained ∅ sample_frames = carried_half sample_log_header (contents (store (base l'))) /\
    option_map (λ w, sealed_segments (dir (drop_log w).1) (drop_log w).2) (changelog l') = Some (Ok names).
Proof.
  destruct (clean_shutdown_replays Debug (K := krow sample_key) (R := sample_row_type) [47] sample_config (∅ : MemStore) sample_dir sample_batches)
    as (l & l' & c & d' & names & fss & E1 & E2 & E3 & E4 & _ & E5 & E6);
    [done|done|done|by vm_compute|by vm_compute|apply sample_batches_ok|unfold frame_fits; apply (bool_decide_unpack _); by vm_compute|].
  exists l, l', names. rewrite E5 in E6. split; [done|]. split; [done|]. split; [done|].
  destruct (changelog l') as [w|]; [|done]. cbn [option_map] in *.
  assert (drop_log w = (c, d')) as -> by congruence. cbn [fst snd]. by rewrite E4.
Defined.

(** A store with one row and one index entry, its log lost. *)
Definition sample_left : MemStore :=
  <[ sample_log_header ++ [0x30; 1; 9] := [] ]> (<[ sample_log_header ++ [0; 7] := [1; 2] ]> ∅).

Lemma reconcile_repairs_witness :
  exists (l : Logged) l1 n, with_changelog Debug (K := krow sample_key) (R := sample_row_type) [47] sample_config sample_left sample_dir = Ok l /\
    reconcile (K := krow sample_key) (R := sample_row_type) l = (l1, Ok n) /\
    drained {[ [9] := [9] ]} (batch_frames sample_log_header (map (λ row, (row.1, Some row.2)) (stored_rows sample_log_header sample_left)))
      !! (sample_log_header ++ [0; 7]) = Some [1; 2].
Proof.
  destruct (with_changelog_spec Debug (K := krow sample_key) (R := sample_row_type) [47] sample_config sample_left sample_dir)
    as (first & l & E & Hf & Hz & Hfresh & Eb & L); [done|by vm_compute|intros name n [x X]; cbn in X; by rewrite lookup_empty in X|].
  assert (first = 0) as ->. { destruct Hz as [|(name & m & [x X] & _)]; [done|]. cbn in X. by rewrite lookup_empty in X. }
  assert (contents (store (base l)) = sample_left) as Es by (by rewrite Eb).
  destruct (reconcile_repairs Debug (K := krow sample_key) (R := sample_row_type) (files sample_dir) 0 [47] sample_config l [] {[ [9] := [9] ]})
    as (l1 & l2 & n & E1 & _ & _ & _ & A & _).
  - done.
  - intros n Hn. by apply Hfresh.
  - by vm_compute.
  - exact L.
  - by vm_compute.
  - by apply (bool_decide_unpack _); vm_compute.
  - rewrite Es. apply long_keys_check. by vm_compute.
  - rewrite Es. apply (bool_decide_unpack _). by vm_compute.
  - exists l, l1, n. split; [done|]. split; [done|]. rewrite Es in A. by apply (A [7] [1; 2]).
Defined.

(** ** A failing disk *)

Definition sample_writer : Changelog := mkChangelog [47] sample_log_header sample_config true 0 0 0 (stream sample_frames) [] 0 None.

Definition rename_fails : Disk :=
  mkDisk {[ segment_name 0 PARTIAL_EXT := [] ]} 0 (mkFaults None None None None None (Some [69]) None).

Lemma failed_rename_ends_log_witness :
  exists c1 d1 c2 d2, seal Debug (sample_writer, rename_fails) = ((c1, d1), Err (io_err (partial_path sample_writer) [69])) /\
    fold_left (later Debug) [(healthy, 9, ops (mkBatch [(sample_log_header ++ [0; 7], Some [4])]))] (c1, d1) = (c2, d2) /\ files d2 = files d1.
Proof.
  destruct (failed_rename_ends_log Debug sample_writer rename_fails [69] [(healthy, 9, ops (mkBatch [(sample_log_header ++ [0; 7], Some [4])]))])
    as (c1 & d1 & c2 & d2 & E1 & _ & _ & _ & E2 & E3 & _); [done|done|by vm_compute|apply (bool_decide_unpack _); by vm_compute|].
  by exists c1, d1, c2, d2.
Defined.

Definition write_fails : Disk :=
  mkDisk {[ segment_name 0 PARTIAL_EXT := [] ]} 0 (mkFaults None None None (Some (7%nat, [69])) None None None).

(** Sealed after the retry, the segment is corrupt. *)
Lemma failed_write_repeats_witness :
  exists c1 d1 c2 d2, write_pending (sample_writer, write_fails) = ((c1, d1), Err (Errors.Changelog (partial_path sample_writer ++ colon ++ [69]))) /\
    write_pending (c1, mkDisk (files d1) (now d1) healthy) = ((c2, d2), Ok tt) /\
    read_sealed [47] (drop_log (c2, d2)).2 (segment_name 0 SEALED_EXT) = Err (corrupt (join [47] (segment_name 0 SEALED_EXT)) log_past_end).
Proof.
  destruct (failed_write_repeats sample_writer write_fails 7 [69] [] (stream sample_frames))
    as (c1 & d1 & c2 & d2 & E1 & _ & _ & E2 & _ & E3); [done|done|done|by vm_compute|by vm_compute|by vm_compute|].
  exists c1, d1, c2, d2. split; [exact E1|]. split; [exact E2|].
  clear E3. vm_compute in E1. injection E1 as <- <-. vm_compute in E2. injection E2 as <- <-. by vm_compute.
Defined.
