(* ===== verification/Schema.v ===== *)
(** * The exported declaration (okm-core, [model/schema.rs])

    [CollectionSchema] is a declaration rendered as data, for writers and readers
    that have no generated code; [schema_of] exports a document type, [of_graph] a
    graph's edges.  [derived_export] is what the derive emits for the export: the
    field descriptions, the literal defaults and the [Vector] contracts.

    A schema also crosses processes in serialized form: [serialize_type] and
    [deserialize_type] are the two hand-written conversions of a field type. *)
From S2P Require Import Prelude Errors Slots Vocab DynValue Fields Payload Keys Index Meta Collection Declared Graph.

(** ** Defaults *)

Inductive DefaultValueConst : Type :=
| ConstU64 (v : Z) | ConstI64 (v : Z) | ConstF64 (bits : Z) | ConstBool (b : bool) | ConstStr (s : bytes).

Inductive DefaultValue : Type :=
| DefU64 (v : Z) | DefI64 (v : Z) | DefF64 (bits : Z) | DefBool (b : bool) | DefStr (s : bytes)
| DefZeroBytes (n : Z).

(** ** The schema *)

Record FieldSchema : Type := mkFieldSchema {
  f_name : bytes;
  f_ty : FieldType;
  f_width : Z;
  f_offset : Z;
  f_tag : option Z;
  f_default : option DefaultValue;
  f_expect_len : option Z
}.

Record IndexSchema : Type := mkIndexSchema {
  is_name : bytes;
  is_slot : Slot;
  is_fields : list bytes;
  is_includes : list bytes;
  is_func : bytes;
  is_deprecated : bool
}.

Definition IndexSchema_kind (i : IndexSchema) : option FaceKind := FaceKind_of (is_slot i).

Record SlotMap : Type := mkSlotMap {
  m_primary : Slot;
  m_dynamic : Slot;
  m_field_vocab_id : Slot;
  m_field_vocab_name : Slot;
  m_predicate_vocab_id : Slot;
  m_predicate_vocab_name : Slot;
  m_declared_index_base : Slot;
  m_declared_reduce_base : Slot;
  m_declared_lead_base : Slot
}.

Record CollectionSchema : Type := mkCollectionSchema {
  key_len : Z;
  key_fields : list FieldSchema;
  ns_prefix : bytes;
  s_layout_version : Z;
  hot_width : Z;
  payload_header_len : Z;
  hot_fields : list FieldSchema;
  cold_fields : list FieldSchema;
  members : list Z;
  slots : SlotMap;
  indexes : list IndexSchema;
  s_faces : bytes
}.

(** The frame vocabulary of the dynamic segment, as the export names it. *)
Definition obj_type_tag (t : ObjValueType) : Z :=
  match t with
  | TUInt => 0 | TInt => 8 | TF64 => 1 | DynValue.TStr => 2 | DynValue.TBytes => 3 | TBool => 4 | TNull => 5 | TArray => 6 | TObj => 7
  end.

Definition obj_type_of (b : Z) : option ObjValueType :=
  match b with
  | 0 => Some TUInt | 1 => Some TF64 | 2 => Some DynValue.TStr | 3 => Some DynValue.TBytes | 4 => Some TBool | 5 => Some TNull
  | 6 => Some TArray | 7 => Some TObj | 8 => Some TInt | _ => None
  end.

(** ** The export *)

(** The constants of [Document] that only the export reads. *)
Class DocumentExport (R : Type) : Type := {
  DOC_FIELDS : list FieldDesc;
  DEFAULTS : list (bytes * DefaultValueConst);
  FIELD_CONTRACTS : list (bytes * Z);
  DOC_HOT_WIDTH : Z
}.

Definition expect_len_of (contracts : list (bytes * Z)) (n : bytes) : option Z :=
  snd <$> find (λ c, bool_decide (c.1 = n)) contracts.

Definition default_of (d : DefaultValueConst) : DefaultValue :=
  match d with
  | ConstU64 v => DefU64 v
  | ConstI64 v => DefI64 v
  | ConstF64 v => DefF64 v
  | ConstBool b => DefBool b
  | ConstStr s => DefStr s
  end.

Definition lookup_default (defaults : list (bytes * DefaultValueConst)) (n : bytes) : option DefaultValue :=
  (λ d, default_of d.2) <$> find (λ d, bool_decide (d.1 = n)) defaults.

(** The key fields, at their running offset. *)
Fixpoint export_key (fields : list FieldDesc) (off : Z) : list FieldSchema :=
  match fields with
  | [] => []
  | f :: fields =>
      mkFieldSchema (fd_name f) (fd_ty f) (fd_width f) off None None None
      :: export_key fields (off + fd_width f)
  end.

(** The hot fields, then the cold ones; [fi] counts all of them. *)
Fixpoint export_hot (defaults : list (bytes * DefaultValueConst)) (fields : list FieldDesc) (off : Z) : list FieldSchema :=
  match fields with
  | [] => []
  | f :: fields =>
      if 0 <? fd_width f then
        mkFieldSchema (fd_name f) (fd_ty f) (fd_width f) off None (lookup_default defaults (fd_name f)) None
        :: export_hot defaults fields (off + fd_width f)
      else export_hot defaults fields off
  end.

Fixpoint export_cold (defaults : list (bytes * DefaultValueConst)) (contracts : list (bytes * Z))
    (fields : list FieldDesc) (fi : Z) : list FieldSchema :=
  match fields with
  | [] => []
  | f :: fields =>
      if 0 <? fd_width f then export_cold defaults contracts fields (fi + 1)
      else
        mkFieldSchema (fd_name f) (fd_ty f) 0 0 (Some (wrap 8 fi)) (lookup_default defaults (fd_name f))
          (expect_len_of contracts (fd_name f))
        :: export_cold defaults contracts fields (fi + 1)
  end.

Definition index_schema (d : IndexDecl) : IndexSchema :=
  mkIndexSchema (d_name d) (d_slot d) (d_fields d) (d_includes d) (d_func d) (d_deprecated d).

Definition schema_slots : outcome unit SlotMap :=
  i ← DECLARED_SLOT_BASE; r ← REDUCE_SLOT_BASE; l ← LEAD_SLOT_BASE;
  Ok (mkSlotMap PRIMARY_SLOT DYNAMIC_SLOT FIELD_VOCAB_ID_SLOT FIELD_VOCAB_NAME_SLOT PREDICATE_VOCAB_ID_SLOT
        PREDICATE_VOCAB_NAME_SLOT i r l).

Section Of.
Context {K R : Type} `{Document K R} `{!DocumentExport R}.
Variable p : profile.

Definition schema_of : outcome unit CollectionSchema :=
  match p with
  | Debug => assert_ (fold_right (λ f n, fd_width f + n) 0 (FIELDS (K := K)) =? KEY_LEN (K := K))
  | Release => Ok tt
  end;;
  slots ← schema_slots;
  Ok {|
    key_len := KEY_LEN (K := K);
    key_fields := export_key (FIELDS (K := K)) 0;
    ns_prefix := NS_PREFIX (K := K) (R := R);
    s_layout_version := LAYOUT_VERSION (K := K) (R := R);
    hot_width := DOC_HOT_WIDTH (R := R);
    payload_header_len := 3;
    hot_fields := export_hot (DEFAULTS (R := R)) (DOC_FIELDS (R := R)) 0;
    cold_fields := export_cold (DEFAULTS (R := R)) (FIELD_CONTRACTS (R := R)) (DOC_FIELDS (R := R)) 0;
    members := [];
    slots := slots;
    indexes := map index_schema (INDEX_DECLS (K := K) (R := R));
    s_faces := faces_of K R
  |}.
End Of.

Definition set_members (s : CollectionSchema) (m : list Z) : CollectionSchema :=
  {| key_len := key_len s; key_fields := key_fields s; ns_prefix := ns_prefix s; s_layout_version := s_layout_version s;
     hot_width := hot_width s; payload_header_len := payload_header_len s; hot_fields := hot_fields s;
     cold_fields := cold_fields s; members := m; slots := slots s; indexes := indexes s; s_faces := s_faces s |}.

Definition of_graph {E} `{Document EdgeKey E} `{!DocumentExport E} `{!GraphEncode E} (p : profile)
    : outcome unit CollectionSchema :=
  s ← schema_of (K := EdgeKey) (R := E) p; Ok (set_members s (NS_VALUES (E := E))).

(** ** What the derive emits for the export *)

(** The names of the element types of a [Vector]; the [f32] of a bit pattern is
    not told from [u32] here. *)
Definition elem_name (n : nat) (signed : bool) : bytes := int_name signed n.

Definition uint_type (n : nat) : FieldType :=
  if (n =? 1)%nat then TU8 else if (n =? 2)%nat then TU16 else if (n =? 4)%nat then TU32 else TU64.

(** The [kind] column of [field_encoders]; [vi] counts the categorical fields. *)
Definition field_type (p : profile) (vi : Z) (k : FieldKind) : outcome unit FieldType :=
  match k with
  | KUInt n | KSInt n => Ok (uint_type n)
  | KUuid v => Ok (if v =? 4 then TUuid4 else TUuid7)
  | KFixedBytes _ | KReverse _ _ => Ok TFixedBytes
  | KVarInt _ => Ok TVarInt
  | KVector n signed _ => Ok (TVector (elem_name n signed))
  | KVocab _ => f ← data_vocab p (wrap 16 vi); Ok (TVocab (id_slot f))
  | KOffset base => Ok (TOffset base)
  | KQuant precision => Ok (TQuant precision)
  | KString => Ok TStr
  | KBytes => Ok TBytes
  end.

(** [field_desc_entries] *)
Fixpoint field_descs (p : profile) (vi : Z) (fs : list Payload.FieldSchema) : outcome unit (list FieldDesc) :=
  match fs with
  | [] => Ok []
  | f :: fs =>
      ty ← field_type p vi (kind f);
      rest ← field_descs p (match kind f with KVocab _ => vi + 1 | _ => vi end) fs;
      Ok (mkDesc (ident f) ty (field_width (kind f)) :: rest)
  end.

Definition contract_of (f : Payload.FieldSchema) : list (bytes * Z) :=
  match kind f with KVector _ _ (Some n) => [(ident f, n)] | _ => [] end.

(** [literals] are the defaults written as literals. *)
Definition derived_export (s : DocumentSchema) (descs : list FieldDesc) (literals : list (bytes * DefaultValueConst))
    : DocumentExport (row (fields s)) := {|
  DOC_FIELDS := descs;
  DEFAULTS := literals;
  FIELD_CONTRACTS := flat_map contract_of (fields s);
  DOC_HOT_WIDTH := HOT_WIDTH s
|}.

(** The schema of a declared document. *)
Definition derived_schema {K} `{KeyEncode K} (p : profile) (d : Declaration K) (literals : list (bytes * DefaultValueConst))
    : outcome unit CollectionSchema :=
  descs ← field_descs p 0 (fields (dc_schema d));
  let doc := derived_document p d in
  let exp := derived_export (dc_schema d) descs literals in
  schema_of (K := K) (R := row (fields (dc_schema d))) p.

(** ** The serialized form of a field type

    An enum crosses as the name of its variant, alone or with one value. *)
Inductive Serialized : Type :=
| UnitVariant (name : bytes)
| NumberVariant (name : bytes) (v : Z)
| TextVariant (name : bytes) (s : bytes)
| FieldsVariant (name : bytes) (fields : list (bytes * bytes)).

Definition serialize_type (t : FieldType) : Serialized :=
  match t with
  | TU8 => UnitVariant ty_U8 | TU16 => UnitVariant ty_U16 | TU32 => UnitVariant ty_U32 | TU64 => UnitVariant ty_U64
  | TFixedBytes => UnitVariant ty_FixedBytes | TStr => UnitVariant ty_Str | TBytes => UnitVariant ty_Bytes
  | TUuid4 => UnitVariant ty_Uuid4 | TUuid7 => UnitVariant ty_Uuid7 | TVarInt => UnitVariant ty_VarInt
  | TQuant p => NumberVariant ty_Quant p
  | TVocab id_slot => NumberVariant ty_Vocab id_slot
  | TOffset b => NumberVariant ty_Offset b
  | TVector elem => TextVariant ty_Vector elem
  end.

(** The variants of the [Repr] that reading accepts. *)
Definition deserialize_type (s : Serialized) : option FieldType :=
  match s with
  | UnitVariant n =>
      if decide (n = ty_U8) then Some TU8 else if decide (n = ty_U16) then Some TU16
      else if decide (n = ty_U32) then Some TU32 else if decide (n = ty_U64) then Some TU64
      else if decide (n = ty_FixedBytes) then Some TFixedBytes else if decide (n = ty_Str) then Some TStr
      else if decide (n = ty_VarInt) then Some TVarInt else None
  | NumberVariant n v =>
      if decide (n = ty_Quant) then if in_range 0 (2 ^ 32 - 1) v then Some (TQuant v) else None
      else if decide (n = ty_Offset) then if i64_ok v then Some (TOffset v) else None else None
  | TextVariant _ _ => None
  | FieldsVariant n fields =>
      if decide (n = ty_Vector) then
        match fields with [(e, elem)] => if decide (e = ty_elem) then Some (TVector elem) else None | _ => None end
      else None
  end.

(** * Theorems *)

Lemma obj_type_tags t : obj_type_tag t = to_byte t /\ obj_type_of (obj_type_tag t) = Some t.
Proof. by destruct t. Qed.

(** The parameters a field type can have. *)
Definition type_ok (t : FieldType) : Prop :=
  match t with TQuant p => 0 <= p < 2 ^ 32 | TOffset b => i64_ok b = true | _ => True end.

Lemma deserialize_number n v : deserialize_type (NumberVariant n v) =
  if decide (n = ty_Quant) then if in_range 0 (2 ^ 32 - 1) v then Some (TQuant v) else None
  else if decide (n = ty_Offset) then if i64_ok v then Some (TOffset v) else None else None.
Proof. done. Qed.

(** A schema does not survive its own serialized form.  Reading back a
    serialized field type answers the type for the integers, fixed bytes,
    strings, [VarInt], [Quant] and [Offset], and fails for [Bytes], both uuids,
    [Vocab] and [Vector], which the writer emits and the reader does not know. *)
Theorem schema_text_gap t :
  type_ok t ->
  deserialize_type (serialize_type t) =
    match t with TBytes | TUuid4 | TUuid7 | TVocab _ | TVector _ => None | _ => Some t end.
Proof.
  intros H. destruct t; try reflexivity; cbn [type_ok] in H.
  - change (deserialize_type (NumberVariant ty_Quant precision) = Some (TQuant precision)).
    rewrite deserialize_number, decide_True by done. unfold in_range. by rewrite !(proj2 (Z.leb_le _ _)) by lia.
  - change (deserialize_type (NumberVariant ty_Offset base) = Some (TOffset base)).
    rewrite deserialize_number, decide_False by (by vm_compute). rewrite decide_True by done. by rewrite H.
Qed.

(** * Witness *)

Lemma schema_text_gap_witness :
  deserialize_type (serialize_type (TQuant 3)) = Some (TQuant 3) /\ deserialize_type (serialize_type (TVocab 0x2001)) = None.
Proof. split; [apply (schema_text_gap (TQuant 3)); simpl; lia|apply (schema_text_gap (TVocab 0x2001)); exact I]. Defined.
