(* ===== verification/Dynamic.v ===== *)
(** * The dynamic codec (okm-dynamic, [lib.rs], [encode.rs], [decode.rs])

    Keys and payloads encoded and decoded from a [CollectionSchema] and a tree of
    [Value]s, without generated code.  A [ValueMap] is a [BTreeMap], the list of
    its entries in key order.

    The schema is the caller's; its widths and offsets are below [2 ^ 63], so a
    sum of two does not overflow.  A [debug_assert!] fails under [Debug] only.
    The static texts of [TypeMismatch] are the constructors of [Expected]. *)
From S2P Require Import Prelude Errors Storage VarInt Slots Vocab DynValue Quant Fields Payload Keys Index Collection Bridge Schema.

(** ** Values *)

#[warnings="-register-all"]
Inductive Value : Type :=
| VU8 (v : Z) | VU16 (v : Z) | VU32 (v : Z) | VU64 (v : Z)
| VI64 (v : Z)
| VF64 (bits : Z)
| VBool (b : bool)
| VNull
| VBytes (b : bytes)
| VStr (s : bytes)
| VObj (m : list (bytes * Value))
| VArray (items : list Value).

Abbreviation ValueMap := (list (bytes * Value)).

(** ** Errors *)

Inductive Expected : Type :=
| ExpType (t : FieldType)
| ExpQuant | ExpOffset | ExpOffsetWindow | ExpColdVarInt | ExpFixedNotStr | ExpFixedNotDynamic
| ExpVarInt | ExpVocabId | ExpRawBytes | ExpDeclaredWidth | ExpUuidBytes | ExpUInt (t : FieldType) | ExpStrFrame | ExpNoVector
| ExpVariable | ExpCount | ExpColdKind | ExpHotKind.

Inductive CodecError : Type :=
| UnknownField (n : bytes)
| MissingField (n : bytes)
| TypeMismatch (field : bytes) (expected : Expected)
| Truncated (field : bytes) (needed got : Z)
| VersionMismatch (schema found : Z)
| UnknownTag (tag : Z)
| InvalidUtf8 (n : bytes)
| ColdFieldWithoutTag (n : bytes).

Abbreviation codec := (outcome CodecError).

Definition type_err {A} (field : bytes) (e : Expected) : codec A := Err (TypeMismatch field e).

(** [debug_assert!] *)
Definition debug_assert {E} (p : profile) (c : bool) : outcome E unit :=
  match p with Debug => assert_ c | Release => Ok tt end.

(** ** Encoding *)

(** The kinds [field_pair] lets through. *)
Definition accepts (ty : FieldType) (v : Value) : bool :=
  match ty, v with
  | TU8, VU8 _ | TU16, VU16 _ | TU32, VU32 _ | TU64, VU64 _
  | TFixedBytes, VBytes _ | TStr, VStr _
  | TQuant _, VF64 _ | TOffset _, VI64 _ | TVarInt, VU64 _ | TVocab _, VU8 _ => true
  | _, _ => false
  end.

Definition field_pair (n : bytes) (ty : FieldType) (m : ValueMap) : codec Value :=
  v ← ok_or (MissingField n) (btree_get n m);
  if accepts ty v then Ok v else type_err n (ExpType ty).

Definition offset_bytes (value base : Z) (n : bytes) : codec bytes :=
  let d := value - base in
  if i64_ok d && in_range 0 (2 ^ 32 - 1) d then Ok (be_bytes 4 d) else type_err n ExpOffsetWindow.

Definition quant_bytes (x precision : Z) : codec bytes := w ← liftp (quantize x precision); Ok (wire_to_be_bytes w).

(** The last match of [encode_field]. *)
Definition put_plain (f : FieldSchema) (v : Value) (buf : bytes) : codec bytes :=
  match v with
  | VU8 x => Ok (buf ++ [x])
  | VU16 x => Ok (buf ++ be_bytes 2 x)
  | VU32 x => Ok (buf ++ be_bytes 4 x)
  | VU64 x => Ok (buf ++ be_bytes 8 x)
  | VBytes b => if zlen b =? f_width f then Ok (buf ++ b) else Err (Truncated (f_name f) (f_width f) (zlen b))
  | VStr _ => type_err (f_name f) ExpFixedNotStr
  | _ => type_err (f_name f) ExpFixedNotDynamic
  end.

Section Codec.
Variable p : profile.

(** [encode_field], on what the buffer holds. *)
Definition encode_field (f : FieldSchema) (values : ValueMap) (buf : bytes) : codec bytes :=
  v ← field_pair (f_name f) (f_ty f) values;
  debug_assert p (zlen buf =? f_offset f);;
  match f_ty f with
  | TQuant precision =>
      match v with VF64 x => e ← quant_bytes x precision; Ok (buf ++ e) | _ => type_err (f_name f) ExpQuant end
  | TOffset base =>
      match v with VI64 x => e ← offset_bytes x base (f_name f); Ok (buf ++ e) | _ => type_err (f_name f) ExpOffset end
  | TVarInt => type_err (f_name f) ExpColdVarInt
  | _ => put_plain f v buf
  end.

Fixpoint encode_walk (fs : list FieldSchema) (values : ValueMap) (buf : bytes) : codec bytes :=
  match fs with
  | [] => Ok buf
  | f :: fs => buf ← encode_field f values buf; encode_walk fs values buf
  end.

Definition encode_key (schema : CollectionSchema) (values : ValueMap) : codec bytes :=
  buf ← encode_walk (key_fields schema) values [];
  debug_assert p (zlen buf =? key_len schema);;
  Ok buf.

Definition cold_frame_bytes (f : FieldSchema) (v : Value) : codec bytes :=
  match f_ty f with
  | TVarInt => match v with VU64 x => liftp (varint_encode p x []) | _ => type_err (f_name f) ExpVarInt end
  | TQuant precision => match v with VF64 x => quant_bytes x precision | _ => type_err (f_name f) ExpQuant end
  | TOffset base => match v with VI64 x => offset_bytes x base (f_name f) | _ => type_err (f_name f) ExpOffset end
  | TVocab _ =>
      match v with
      | VU8 x => Ok [x]
      | VBytes b => if zlen b =? f_width f then Ok b else type_err (f_name f) ExpVocabId
      | _ => type_err (f_name f) ExpVocabId
      end
  | TBytes => match v with VBytes b | VStr b => Ok b | _ => type_err (f_name f) ExpRawBytes end
  | TFixedBytes =>
      match v with
      | VBytes b => if zlen b =? f_width f then Ok b else type_err (f_name f) ExpDeclaredWidth
      | _ => type_err (f_name f) ExpDeclaredWidth
      end
  | TUuid4 | TUuid7 =>
      match v with
      | VBytes b => if zlen b =? 16 then Ok b else type_err (f_name f) ExpUuidBytes
      | _ => type_err (f_name f) ExpUuidBytes
      end
  | TU8 => match v with VU8 x => Ok [x] | _ => type_err (f_name f) (ExpUInt TU8) end
  | TU16 => match v with VU16 x => Ok (be_bytes 2 x) | _ => type_err (f_name f) (ExpUInt TU16) end
  | TU32 => match v with VU32 x => Ok (be_bytes 4 x) | _ => type_err (f_name f) (ExpUInt TU32) end
  | TU64 => match v with VU64 x => Ok (be_bytes 8 x) | _ => type_err (f_name f) (ExpUInt TU64) end
  | TStr => type_err (f_name f) ExpStrFrame
  | TVector _ => type_err (f_name f) ExpNoVector
  end.

(** One cold frame behind what the buffer holds. *)
Definition put_cold (f : FieldSchema) (values : ValueMap) (buf : bytes) : codec bytes :=
  v ← field_pair (f_name f) (f_ty f) values;
  tag ← ok_or (ColdFieldWithoutTag (f_name f)) (f_tag f);
  let buf := buf ++ [tag] in
  b ← match v with VStr s => Ok s | other => cold_frame_bytes f other end;
  buf ← liftp (put_len p buf (zlen b));
  Ok (buf ++ b).

Fixpoint put_colds (fs : list FieldSchema) (values : ValueMap) (buf : bytes) : codec bytes :=
  match fs with
  | [] => Ok buf
  | f :: fs => buf ← put_cold f values buf; put_colds fs values buf
  end.

Definition encode_payload (schema : CollectionSchema) (values : ValueMap) : codec bytes :=
  hot ← encode_walk (hot_fields schema) values [];
  if negb (zlen hot =? hot_width schema) then Err (Truncated place_hot (hot_width schema) (zlen hot))
  else put_colds (cold_fields schema) values ([s_layout_version schema] ++ be_bytes 2 (wrap 16 (zlen hot)) ++ hot).

Definition all_fields (schema : CollectionSchema) : list FieldSchema :=
  key_fields schema ++ hot_fields schema ++ cold_fields schema.

(** [find_field]: key, hot and cold fields in this order. *)
Definition find_field (schema : CollectionSchema) (n : bytes) : option FieldSchema :=
  find (λ f, bool_decide (f_name f = n)) (all_fields schema).

Fixpoint encode_fields_loop (schema : CollectionSchema) (names : list bytes) (values : ValueMap) (buf : bytes)
    : codec bytes :=
  match names with
  | [] => Ok buf
  | n :: names =>
      f ← ok_or (UnknownField n) (find_field schema n);
      buf ← (if f_width f =? 0 then
               v ← field_pair (f_name f) (f_ty f) values;
               match v with VStr s => Ok (buf ++ s) | _ => type_err (f_name f) ExpVariable end
             else encode_field f values buf);
      encode_fields_loop schema names values buf
  end.

Definition encode_fields (schema : CollectionSchema) (names : list bytes) (values : ValueMap) : codec bytes :=
  encode_fields_loop schema names values [].

(** ** Decoding *)

(** [raw.try_into()] into an [n]-byte array, of a field. *)
Definition exact (n width : Z) (f : bytes) (raw : bytes) : codec bytes :=
  if zlen raw =? n then Ok raw else Err (Truncated f width (zlen raw)).

Definition decode_fixed (n : bytes) (ty : FieldType) (width : Z) (raw : bytes) : codec Value :=
  match ty with
  | TU8 => match raw with b :: _ => Ok (VU8 b) | [] => Err (Truncated n width 0) end
  | TU16 => b ← exact 2 width n raw; Ok (VU16 (be_val b))
  | TU32 => b ← exact 4 width n raw; Ok (VU32 (be_val b))
  | TU64 => b ← exact 8 width n raw; Ok (VU64 (be_val b))
  | TFixedBytes => Ok (VBytes raw)
  | TUuid4 | TUuid7 => b ← ok_or (Truncated n width (zlen raw)) (slice raw 0 16); Ok (VBytes b)
  | TQuant precision =>
      b ← exact 8 width n raw; v ← liftp (dequantize (to_signed 64 (be_val b)) precision); Ok (VF64 v)
  | TOffset base => b ← exact 4 width n raw; v ← liftp (add_i64 p base (be_val b)); Ok (VI64 v)
  | TVocab _ => Ok (VBytes raw)
  | TVector _ => Ok (VBytes raw)
  | TStr | TBytes | TVarInt => type_err n ExpHotKind
  end.

Fixpoint decode_key_loop (fs : list FieldSchema) (b : bytes) (out : ValueMap) : codec ValueMap :=
  match fs with
  | [] => Ok out
  | f :: fs =>
      raw ← or_panic (slice b (f_offset f) (f_offset f + f_width f));
      v ← decode_fixed (f_name f) (f_ty f) (f_width f) raw;
      decode_key_loop fs b (btree_insert (f_name f) v out)
  end.

Definition decode_key (schema : CollectionSchema) (b : bytes) : codec ValueMap :=
  if zlen b <? key_len schema then Err (Truncated place_key (key_len schema) (zlen b))
  else decode_key_loop (key_fields schema) b [].

(** The hot walk: a field past the end of the segment is left to its default. *)
Fixpoint decode_hot (fs : list FieldSchema) (hot : bytes) (out : ValueMap) : codec ValueMap :=
  match fs with
  | [] => Ok out
  | f :: fs =>
      match slice hot (f_offset f) (f_offset f + f_width f) with
      | Some raw =>
          v ← decode_fixed (f_name f) (f_ty f) (f_width f) raw;
          decode_hot fs hot (btree_insert (f_name f) v out)
      | None => decode_hot fs hot out
      end
  end.

(** One cold frame's value, by the field's kind. *)
Definition decode_cold (f : FieldSchema) (value : bytes) : codec Value :=
  match f_ty f with
  | TStr => s ← ok_or (InvalidUtf8 (f_name f)) (from_utf8 value); Ok (VStr s)
  | TVector _ =>
      head ← ok_or (Truncated (f_name f) 4 (zlen value)) (slice value 0 4);
      match f_expect_len f with
      | Some expect => if be_val head =? expect then Ok (VBytes value) else type_err (f_name f) ExpCount
      | None => Ok (VBytes value)
      end
  | TVarInt =>
      match value with
      | [] => Err (Truncated (f_name f) 1 0)
      | first :: _ =>
          let w := prefix_width first in
          if negb (zlen value =? w) then Err (Truncated (f_name f) w (zlen value))
          else '(v, _) ← liftp (varint_decode p 64 value); Ok (VU64 v)
      end
  | TQuant precision =>
      b ← exact 8 8 (f_name f) value; v ← liftp (dequantize (to_signed 64 (be_val b)) precision); Ok (VF64 v)
  | TOffset base => b ← exact 4 4 (f_name f) value; v ← liftp (add_i64 p base (be_val b)); Ok (VI64 v)
  | _ => type_err (f_name f) ExpColdKind
  end.

(** [by_tag]: the last field of a tag wins. *)
Definition by_tag (fs : list FieldSchema) (tag : Z) : option FieldSchema :=
  find (λ f, bool_decide (f_tag f = Some tag)) (rev fs).

(** The cold frames; every one takes at least two bytes of the fuel. *)
Fixpoint decode_colds (fuel : nat) (fs : list FieldSchema) (b : bytes) (pos : Z) (out : ValueMap) : codec ValueMap :=
  if pos <? zlen b then
    match fuel with
    | O => Panic
    | S fuel =>
        tag ← ok_or (Truncated place_cold_tag 1 (zlen b - pos)) (byte_at b pos);
        let pos := pos + 1 in
        rest ← ok_or (Truncated place_cold_len 1 0) (slice b pos (zlen b));
        taken ← liftp (take_len p rest);
        '(len, len_n) ← ok_or (Truncated place_cold_len 4 (zlen b - pos)) taken;
        let pos := pos + len_n in
        e ← add_w p 64 pos len;
        value ← ok_or (Truncated place_cold_value len (Z.max 0 (zlen b - pos))) (slice b pos e);
        out ← match by_tag fs tag with
              | Some f => v ← decode_cold f value; Ok (btree_insert (f_name f) v out)
              | None => Ok out
              end;
        decode_colds fuel fs b e out
    end
  else Ok out.

(** ** Defaults *)

Definition zero_image (f : FieldSchema) : Value :=
  match f_ty f with
  | TU8 => VU8 0 | TU16 => VU16 0 | TU32 => VU32 0 | TU64 => VU64 0
  | TOffset base => VI64 base
  | TQuant _ => VF64 0
  | TVarInt => VU64 0
  | TStr => VStr []
  | TBytes | TFixedBytes | TVocab _ => VBytes (replicate (Z.to_nat (f_width f)) 0)
  | TUuid4 | TUuid7 => VBytes (replicate 16 0)
  | TVector _ => VBytes [0; 0; 0; 0]
  end.

Definition schema_default (f : FieldSchema) : Value :=
  match f_default f with
  | Some (DefU64 v) => VU64 v
  | Some (DefI64 v) => VI64 v
  | Some (DefF64 v) => VF64 v
  | Some (DefBool b) => VBool b
  | Some (DefStr s) => VStr s
  | Some (DefZeroBytes n) => VBytes (replicate (Z.to_nat n) 0)
  | None => zero_image f
  end.

Definition fill_default (out : ValueMap) (f : FieldSchema) : ValueMap :=
  match btree_get (f_name f) out with Some _ => out | None => btree_insert (f_name f) (schema_default f) out end.

Definition fill_schema_defaults (schema : CollectionSchema) (out : ValueMap) : ValueMap :=
  fold_left fill_default (hot_fields schema ++ cold_fields schema) out.

Definition decode_payload (schema : CollectionSchema) (b : bytes) : codec ValueMap :=
  let hdr := payload_header_len schema in
  if zlen b <? hdr then Err (Truncated place_header hdr (zlen b))
  else
    version ← or_panic (byte_at b 0);
    if s_layout_version schema <? version then Err (VersionMismatch (s_layout_version schema) version)
    else
      h ← or_panic (byte_at b 1);
      l ← or_panic (byte_at b 2);
      let hot_len := be_val [h; l] in
      hot ← ok_or (Truncated place_hot hot_len (Z.max 0 (zlen b - hdr))) (slice b hdr (hdr + hot_len));
      out ← decode_hot (hot_fields schema) hot [];
      out ← decode_colds (length b) (cold_fields schema) b (hdr + hot_len) out;
      Ok (fill_schema_defaults schema out).
End Codec.

(** ** Labels *)

(** The hot categorical fields of a decoded row, named where the vocabulary knows
    their id. *)
Fixpoint resolve_labels {S} `{VirtualStorage S} (fs : list FieldSchema) (store : S) (header : bytes) (values : ValueMap)
    : result ValueMap :=
  match fs with
  | [] => Ok values
  | f :: fs =>
      values ← match f_ty f, btree_get (f_name f) values with
               | TVocab id_slot, Some (VBytes raw) =>
                   faces ← from_id_slot id_slot;
                   label ← vocab_label store header faces raw;
                   Ok (match label with Some l => btree_insert (f_name f) (VStr l) values | None => values end)
               | _, _ => Ok values
               end;
      resolve_labels fs store header values
  end.

Definition resolve_vocab_labels {S} `{VirtualStorage S} (schema : CollectionSchema) (store : S) (header : bytes)
    (values : ValueMap) : result ValueMap := resolve_labels (hot_fields schema) store header values.
