(* ===== verification/DynCodec.v ===== *)
(** * The dynamic codec agrees with the derived one (okm-dynamic, [encode.rs],
    [decode.rs]; okm-core, [model/schema.rs])

    A typed field has an image among the values of a dynamic row.  The theorems:
    from a row's images the dynamic encoder writes the payload the derived encoder
    writes, byte for byte, for every kind it takes; a payload of the derived
    encoder reads back as the images, with the exported defaults for fields its
    layout lacks; keys likewise; and which columns the dynamic side refuses. *)
From S2P Require Import Prelude Errors Storage VarInt Slots Vocab DynValue Quant Fields Payload Keys Index Meta Collection Declared Bridge Typing Schema Dynamic.

(** ** Images *)

Definition uint_value (n : nat) (v : Z) : Value :=
  match n with 1%nat => VU8 v | 2%nat => VU16 v | 4%nat => VU32 v | _ => VU64 v end.

(** The value a decoded row has for a field. *)
Definition image (k : FieldKind) : rust_type k -> Value :=
  match k return rust_type k -> Value with
  | KUInt n => uint_value n
  | KSInt n => λ v, uint_value n (wrap (bits n) v)
  | KUuid _ | KFixedBytes _ | KBytes => VBytes
  | KReverse n signed => λ v, VBytes (rev_encode n signed v)
  | KVarInt _ => VU64
  | KVector n _ _ => λ v, VBytes (Vector_encode_payload n v)
  | KVocab n => λ v, VBytes (be_bytes n (default 0 (id v)))
  | KOffset _ => VI64
  | KQuant precision => λ v, VF64 (rounded precision v)
  | KString => VStr
  end.

(** The value a caller hands in for a field; [None] where no value is taken. *)
Definition given (k : FieldKind) : rust_type k -> option Value :=
  match k return rust_type k -> option Value with
  | KUuid _ | KVector _ _ _ | KBytes => λ _, None
  | KVocab n => λ v, if (n =? 1)%nat then Some (VU8 (default 0 (id v))) else None
  | KQuant _ => λ v, Some (VF64 v)
  | k => λ v, Some (image k v)
  end.

(** The widths of the kinds the derive knows. *)
Definition known (k : FieldKind) : Prop :=
  match k with
  | KUInt n | KSInt n => n ∈ [1; 2; 4; 8]%nat
  | KFixedBytes n | KReverse n _ | KVocab n => (0 < n)%nat
  | _ => True
  end.

#[export] Instance known_dec k : Decision (known k).
Proof. destruct k; apply _. Defined.

Lemma be_bytes_1 v : 0 <= v < 256 -> be_bytes 1 v = [v].
Proof. intros H. unfold be_bytes. cbn [Z.of_nat]. change (256 ^ 0) with 1. by rewrite Z.div_1_r, Z.mod_small. Qed.

Lemma known_cases n (P : nat -> Prop) : P 1%nat -> P 2%nat -> P 4%nat -> P 8%nat -> n ∈ [1; 2; 4; 8]%nat -> P n.
Proof. intros ???? H. repeat (apply elem_of_cons in H as [->|H]; [done|]). by apply elem_of_nil in H. Qed.

(** ** One field *)

(** The bytes of a fixed-width unsigned field, and the value they decode to. *)
Lemma fixed_uint p n name v :
  n ∈ [1; 2; 4; 8]%nat -> 0 <= v < 256 ^ Z.of_nat n ->
  decode_fixed p name (uint_type n) (Z.of_nat n) (be_bytes n v) = Ok (uint_value n v).
Proof.
  intros Hn. revert v. apply (known_cases n (λ n, forall v, 0 <= v < 256 ^ Z.of_nat n -> _)); [..|done]; intros v Hv.
  - unfold uint_type. cbn [Nat.eqb uint_value]. rewrite be_bytes_1 by done. done.
  - unfold uint_type. cbn [Nat.eqb uint_value decode_fixed]. unfold exact. rewrite be_bytes_zlen. 
    rewrite (proj2 (Z.eqb_eq _ _)) by done. cbn [mbind outcome_bind]. by rewrite be_val_be_bytes_small.
  - unfold uint_type. cbn [Nat.eqb uint_value decode_fixed]. unfold exact. rewrite be_bytes_zlen.
    rewrite (proj2 (Z.eqb_eq _ _)) by done. cbn [mbind outcome_bind]. by rewrite be_val_be_bytes_small.
  - unfold uint_type. cbn [Nat.eqb uint_value decode_fixed]. unfold exact. rewrite be_bytes_zlen.
    rewrite (proj2 (Z.eqb_eq _ _)) by done. cbn [mbind outcome_bind]. by rewrite be_val_be_bytes_small.
Qed.

Lemma writes_as p k v e : writes p k v e -> field_enc p k v [] = Ok e.
Proof. intros W. apply (w_enc _ _ _ _ W). Qed.

Lemma vocab_bytes p n v i : id v = Some i -> (n <= 16)%nat -> field_enc p (KVocab n) v [] = Ok (be_bytes n i).
Proof.
  intros E Hn. simpl. unfold Vocab_wire16. rewrite E. cbn [mbind outcome_bind]. unfold be16.
  replace (16 - Z.of_nat n) with (zlen (replicate (16 - n) 0)) by (unfold zlen; rewrite length_replicate; lia).
  by rewrite slice_all_from.
Qed.

Lemma quant_image p precision v e :
  writes p (KQuant precision) v e ->
  exists w, quantize v precision = Ok w /\ e = wire_to_be_bytes w /\ dequantize w precision = Ok (rounded precision v) /\
  to_signed 64 (be_val e) = w /\ zlen e = 8.
Proof.
  intros W. pose proof (writes_as _ _ _ _ W) as E. cbn [field_enc] in E. unfold Quant_encode in E.
  destruct (quantize v precision) as [w| |] eqn:Q; [|done..]. cbn [mbind outcome_bind app] in E. injection E as <-.
  exists w. destruct (dequantize_total _ _ _ w Q) as [d D]. split; [done|]. split; [done|].
  split; [unfold rounded; rewrite Q; cbn [mbind outcome_bind]; by rewrite D|]. split; [|apply be_bytes_zlen].
  unfold wire_to_be_bytes. destruct (wrap_word 8 true w) as (B & V & _).
  { split; [lia|]. by apply (quantize_range v precision). }
  change 64 with (bits 8). rewrite be_val_be_bytes_small by (by rewrite <- bits_pow). exact V.
Qed.

Lemma exact_ok n width f raw : zlen raw = n -> exact n width f raw = Ok raw.
Proof. intros <-. unfold exact. by rewrite Z.eqb_refl. Qed.

(** A hot field's bytes decode to its image. *)
Lemma hot_value p vi name k v ty e :
  known k -> hot k = true -> value_ok k v -> field_type p vi k = Ok ty -> writes p k v e ->
  decode_fixed p name ty (field_width k) e = Ok (image k v).
Proof.
  intros Hk Hh Hv Ht W. pose proof (writes_as _ _ _ _ W) as E.
  destruct k; try done; cbn [field_type known value_ok] in *; try (injection Ht as <-).
  - injection E as <-. cbn [app]. rewrite be_bytes_wrap. apply fixed_uint; [done|]. by rewrite <- bits_pow.
  - injection E as <-. cbn [app]. apply fixed_uint; [done|]. rewrite <- bits_pow. apply (wrap_word _ _ _ Hv).
  - injection E as <-. cbn [app field_width image]. destruct (version =? 4); cbn [decode_fixed];
      (pose proof (slice_app [] v []) as S; rewrite app_nil_r in S; cbn [app] in S; change (zlen (A := Z) []) with 0 in S;
       replace (0 + zlen v) with 16 in S by (unfold zlen; rewrite Hv; done); rewrite S; done).
  - injection E as <-. done.
  - injection E as <-. done.
  - destruct Hv as (i & Ei & Hi & Hn). rewrite (vocab_bytes p n v i Ei Hn) in E. injection E as <-.
    destruct (data_vocab p (wrap 16 vi)) as [f| |]; [|done..]. injection Ht as <-. cbn [decode_fixed image]. by rewrite Ei.
  - destruct Hv as [Hv Hi]. cbn [field_enc] in E. unfold offset_encode in E.
    destruct (_ && _); [|done]. cbn [mbind outcome_bind app] in E. injection E as <-. cbn [decode_fixed].
    rewrite exact_ok by apply be_bytes_zlen. cbn [mbind outcome_bind]. rewrite be_val_be_bytes_small by (simpl; lia).
    unfold add_i64. replace (base + (v - base)) with v by lia. by rewrite Hi.
  - destruct (quant_image _ _ _ _ W) as (w & Q & -> & D & V & L). cbn [decode_fixed]. rewrite exact_ok by done.
    cbn [mbind outcome_bind]. rewrite V, D. done.
Qed.

(** The kinds whose cold frames the dynamic reader knows. *)
Definition readable (k : FieldKind) : bool := match k with KBytes => false | _ => true end.

(** The head of an integer's encoding names its length. *)
Lemma varint_head p v b :
  0 <= v < 2 ^ 64 -> ~ width8 v -> varint_encode p v [] = Ok b ->
  exists first rest, b = first :: rest /\ prefix_width first = zlen b.
Proof.
  intros Hv N8 E. destruct (varint_encode_decode p 64 v [] ltac:(lia) Hv N8) as (e & E' & L & D & _).
  rewrite E in E'. injection E' as <-. rewrite app_nil_r in D. destruct b as [|first rest]; [done|].
  exists first, rest. split; [done|]. unfold varint_decode in D.
  destruct (_ <? _); [done|]. destruct (varint_value _ _ _); [|done..]. cbn [mbind outcome_bind] in D. by injection D as _ D.
Qed.

(** The kinds of variable width. *)
Lemma known_cold k : known k -> hot k = false ->
  match k with KVarInt _ | KVector _ _ _ | KString | KBytes => True | _ => False end.
Proof.
  intros Hk Hh. unfold hot in Hh. rewrite negb_false_iff, Z.eqb_eq in Hh. destruct k; cbn [field_width known] in *; try done; try lia.
  all: destruct n; [|lia]; by repeat (apply elem_of_cons in Hk as [?|Hk]; [done|]); apply elem_of_nil in Hk.
Qed.

(** A cold field's frame decodes to its image. *)
Lemma cold_value p vi f k v e :
  known k -> hot k = false -> readable k = true -> value_ok k v -> field_type p vi k = Ok (f_ty f) ->
  f_expect_len f = (match k with KVector _ _ o => o | _ => None end) -> writes p k v e ->
  decode_cold p f e = Ok (image k v).
Proof.
  intros Hk Hh Hr Hv Ht Hx W. pose proof (writes_as _ _ _ _ W) as E. apply known_cold in Hh; [|done]. unfold decode_cold.
  destruct k; try done; cbn [field_type value_ok field_enc] in *; injection Ht as <-.
  - destruct Hv as (Hb & Hv & N8). pose proof (Z.pow_le_mono_r 2 (bits n) 64 ltac:(lia) Hb).
    destruct (varint_encode p v []) as [b| |] eqn:Ev; [|done..]. cbn [mbind outcome_bind app] in E. injection E as <-.
    destruct (varint_head p v b ltac:(lia) N8 Ev) as (first & rest & -> & Hw). rewrite Hw, Z.eqb_refl. cbn [negb].
    destruct (varint_encode_decode p 64 v [] ltac:(lia) ltac:(lia) N8) as (e & E' & _ & D & _).
    rewrite Ev in E'. injection E' as <-. rewrite app_nil_r in D. by rewrite D.
  - destruct Hv as (_ & _ & Hz & Hc). rewrite ok_len_ok in E by done. cbn [mbind outcome_bind app] in E.
    destruct (count_prefix v Hz) as [E1 _]. rewrite elems_fold, E1 in E. injection E as <-. cbn [image].
    rewrite vector_payload by done. pose proof (slice_0_app (be_bytes 4 (zlen v)) (elems_bytes n v)) as S.
    rewrite be_bytes_zlen in S. change (Z.of_nat 4) with 4 in S.
    match goal with |- context [slice ?l 0 4] => change l with (be_bytes 4 (zlen (A := Z) v) ++ elems_bytes n v) end.
    rewrite S. cbn [ok_or mbind outcome_bind].
    pose proof (zlen_nonneg v). rewrite Hx. destruct ok_len as [want|]; [|done]. cbn [contract_ok] in Hc.
    rewrite be_val_be_bytes_small by (simpl; lia). by rewrite Hc, Z.eqb_refl.
  - injection E as <-. unfold from_utf8. destruct Hv as [Hu _]. by rewrite Hu.
Qed.

(** A cold [Bytes] frame is refused, whatever it holds. *)
Lemma cold_bytes p f e : f_ty f = TBytes -> decode_cold p f e = type_err (f_name f) ExpColdKind.
Proof. unfold decode_cold. by intros ->. Qed.

(** ** Handing a value in *)

Lemma accepts_uint n v : n ∈ [1; 2; 4; 8]%nat ->
  accepts (uint_type n) (uint_value n v) = true.
Proof. intros Hk. repeat (apply elem_of_cons in Hk as [->|Hk]; [done|]). by apply elem_of_nil in Hk. Qed.

Lemma accepts_given p vi k v g ty : field_type p vi k = Ok ty -> known k -> given k v = Some g -> accepts ty g = true.
Proof.
  intros Ht Hk Hg. destruct k; cbn [field_type given known image] in *; try done; try (injection Ht as <-); try (by injection Hg as <-).
  - injection Hg as <-. by apply accepts_uint.
  - injection Hg as <-. by apply accepts_uint.
  - destruct (data_vocab _ _); [|done..]. injection Ht as <-. destruct (_ =? _)%nat; [|done]. by injection Hg as <-.
Qed.

Lemma put_uint (f : FieldSchema) n v buf : n ∈ [1; 2; 4; 8]%nat -> 0 <= v < 256 ^ Z.of_nat n ->
  put_plain f (uint_value n v) buf = Ok (buf ++ be_bytes n v).
Proof.
  intros Hk Hv. repeat (apply elem_of_cons in Hk as [->|Hk]; [cbn [uint_value put_plain]; rewrite ?be_bytes_1 by done; done|]).
  by apply elem_of_nil in Hk.
Qed.

(** An unsigned type has no arm of its own. *)
Lemma uint_arm {A} n (q o : Z -> A) (v r : A) :
  match uint_type n with TQuant precision => q precision | TOffset base => o base | TVarInt => v | _ => r end = r.
Proof. unfold uint_type. by destruct (n =? 1)%nat, (n =? 2)%nat, (n =? 4)%nat. Qed.

(** A given hot value is written as the derived code writes it. *)
Lemma hot_written p vi f k v g e m buf :
  known k -> hot k = true -> value_ok k v -> field_type p vi k = Ok (f_ty f) -> f_width f = field_width k ->
  given k v = Some g -> btree_get (f_name f) m = Some g -> zlen buf = f_offset f -> writes p k v e ->
  encode_field p f m buf = Ok (buf ++ e).
Proof.
  intros Hk Hh Hv Ht Hw Hg Hm Ho W. pose proof (writes_as _ _ _ _ W) as E. unfold encode_field, field_pair.
  rewrite Hm. cbn [ok_or mbind outcome_bind]. rewrite (accepts_given p vi k v g _ Ht Hk Hg). cbn [mbind outcome_bind].
  assert (debug_assert (E := CodecError) p (zlen buf =? f_offset f) = Ok tt) as ->.
  { unfold debug_assert. destruct p; [|done]. by rewrite Ho, Z.eqb_refl. }
  cbn [mbind outcome_bind].
  destruct k; try done; cbn [field_type known value_ok given image] in *; try (injection Ht as <-).
  - injection E as <-. injection Hg as <-. rewrite be_bytes_wrap, uint_arm. apply put_uint; [done|].
    by rewrite <- bits_pow.
  - injection E as <-. injection Hg as <-. rewrite uint_arm. apply put_uint; [done|]. rewrite <- bits_pow. apply (wrap_word _ _ _ Hv).
  - injection E as <-. injection Hg as <-. cbn [put_plain]. rewrite Hw. cbn [field_width app]. unfold zlen. by rewrite Hv, Z.eqb_refl.
  - injection E as <-. injection Hg as <-. cbn [put_plain]. rewrite Hw. cbn [field_width app].
    pose proof (w_width _ _ _ _ W Hh) as L. cbn [field_width] in L. by rewrite L, Z.eqb_refl.
  - destruct Hv as (i & Ei & Hi & Hn). rewrite (vocab_bytes p n v i Ei Hn) in E. injection E as <-.
    destruct (data_vocab p (wrap 16 vi)) as [fc| |]; [|done..]. injection Ht as <-. destruct (n =? 1)%nat eqn:E1; [|done].
    apply Nat.eqb_eq in E1 as ->. injection Hg as <-. rewrite Ei. cbn [default]. by rewrite be_bytes_1.
  - destruct Hv as [Hv Hi]. injection Hg as <-. cbn [field_enc] in E. unfold offset_encode, offset_bytes in *.
    destruct (_ && _); [|done]. cbn [mbind outcome_bind app] in *. by injection E as <-.
  - injection Hg as <-. destruct (quant_image _ _ _ _ W) as (w & Q & -> & _). unfold quant_bytes. rewrite Q. done.
Qed.

(** A given cold value is framed as the derived code frames it. *)
Lemma cold_written p vi f k v g e m buf tag :
  known k -> hot k = false -> value_ok k v -> field_type p vi k = Ok (f_ty f) -> f_tag f = Some tag ->
  given k v = Some g -> btree_get (f_name f) m = Some g -> writes p k v e ->
  put_cold p f m buf = liftp (len ← field_len p k v; buf ← put_len p (buf ++ [tag]) len; field_enc p k v buf).
Proof.
  intros Hk Hh Hv Ht Htag Hg Hm W. pose proof (writes_as _ _ _ _ W) as E. pose proof (w_len _ _ _ _ W) as L.
  pose proof (w_size _ _ _ _ W Hh) as Sz. pose proof (zlen_nonneg e).
  rewrite L. cbn [mbind outcome_bind]. destruct (put_take_len p (buf ++ [tag]) (zlen e) ltac:(lia)) as (P & _).
  rewrite P. cbn [mbind outcome_bind]. rewrite (w_enc _ _ _ _ W).
  unfold put_cold, field_pair. rewrite Hm. cbn [ok_or mbind outcome_bind].
  rewrite (accepts_given p vi k v g _ Ht Hk Hg). cbn [mbind outcome_bind]. rewrite Htag. cbn [ok_or mbind outcome_bind].
  apply known_cold in Hh; [|done]. destruct k; try done; cbn [field_type given image field_enc] in *; injection Ht as Ht; injection Hg as <-.
  - unfold cold_frame_bytes. rewrite <- Ht. destruct (varint_encode p v []) as [b| |]; [|done..].
    cbn [mbind outcome_bind app] in E. injection E as ->. cbn [liftp mbind outcome_bind]. by rewrite P.
  - injection E as ->. cbn [mbind outcome_bind]. by rewrite P.
Qed.

(** ** The segments *)

Lemma width_hot k : (0 <? field_width k) = hot k.
Proof.
  unfold hot. destruct (Z.eqb_spec (field_width k) 0) as [->|N]; [done|]. apply Z.ltb_lt. destruct k; cbn [field_width] in *; lia.
Qed.

(** A map that hands in every field of a row. *)
Fixpoint gives (fs : list Payload.FieldSchema) (m : ValueMap) : row fs -> Prop :=
  match fs return row fs -> Prop with
  | [] => λ _, True
  | f :: fs => λ r, (exists g, given (kind f) r.1 = Some g /\ btree_get (ident f) m = Some g) /\ gives fs m r.2
  end.

Definition all_known (fs : list Payload.FieldSchema) : Prop := Forall (λ f, known (kind f)) fs.

(** Taking the descriptions of a declaration apart. *)
Lemma field_descs_cons p vi f fs descs : field_descs p vi (f :: fs) = Ok descs ->
  exists ty rest vi', field_type p vi (kind f) = Ok ty /\ field_descs p vi' fs = Ok rest /\
  descs = mkDesc (ident f) ty (field_width (kind f)) :: rest.
Proof.
  cbn [field_descs]. destruct (field_type p vi (kind f)) as [ty| |]; [|done..]. cbn [mbind outcome_bind].
  destruct (field_descs p _ fs) as [rest| |] eqn:E; [|done..]. intros [= <-]. exists ty, rest. by eexists.
Qed.

Lemma hot_segment_agrees p defaults m fs : forall vi descs r buf,
  field_descs p vi fs = Ok descs -> all_known fs -> row_ok fs r -> gives fs m r ->
  exists b, hot_enc p fs r buf = Ok b /\ encode_walk p (export_hot defaults descs (zlen buf)) m buf = Ok b.
Proof.
  induction fs as [|f fs IH]; intros vi descs r buf Hd Hk Hr Hg; [injection Hd as <-; by exists buf|].
  apply field_descs_cons in Hd as (ty & rest & vi' & Ht & Hd & ->). apply Forall_cons in Hk as [Kf Hk].
  destruct Hr as [Hv Hr], Hg as [(g & Eg & Gm) Hg]. cbn [hot_enc export_hot fd_width fd_ty fd_name]. rewrite width_hot.
  destruct (hot (kind f)) eqn:Hh; [|cbn [mbind outcome_bind]; by eapply IH].
  destruct (field_roundtrip p (kind f) r.1 Hv) as [e W]. rewrite (w_enc _ _ _ _ W). cbn [mbind outcome_bind encode_walk].
  rewrite (hot_written p vi _ (kind f) r.1 g e) by done. cbn [mbind outcome_bind].
  rewrite <- (w_width _ _ _ _ W Hh), <- zlen_app. by eapply IH.
Qed.

Lemma cold_segment_agrees p defaults contracts m fs : forall vi descs r pos buf,
  field_descs p vi fs = Ok descs -> all_known fs -> row_ok fs r -> gives fs m r ->
  exists b, cold_enc p pos fs r buf = Ok b /\ put_colds p (export_cold defaults contracts descs pos) m buf = Ok b.
Proof.
  induction fs as [|f fs IH]; intros vi descs r pos buf Hd Hk Hr Hg; [injection Hd as <-; by exists buf|].
  apply field_descs_cons in Hd as (ty & rest & vi' & Ht & Hd & ->). apply Forall_cons in Hk as [Kf Hk].
  destruct Hr as [Hv Hr], Hg as [(g & Eg & Gm) Hg]. cbn [cold_enc export_cold fd_width fd_ty fd_name]. rewrite width_hot.
  destruct (hot (kind f)) eqn:Hh; [cbn [mbind outcome_bind]; by eapply IH|].
  destruct (field_roundtrip p (kind f) r.1 Hv) as [e W]. cbn [put_colds].
  rewrite (cold_written p vi _ (kind f) r.1 g e _ _ (wrap 8 pos)) by done.
  destruct (cold_frame p pos (Payload.mkField (ident f) (kind f) (default_expr f)) r.1 e Hh W) as (x & Ex & _).
  cbn [kind] in Ex. specialize (Ex buf). cbn [mbind outcome_bind] in Ex |- *.
  match type of Ex with ?l = _ => replace l with (Ok (E := unit) (buf ++ x)) end. cbn [liftp mbind outcome_bind]. by eapply IH.
Qed.

(** ** Reading the segments *)

Fixpoint hot_image (fs : list Payload.FieldSchema) : row fs -> ValueMap -> ValueMap :=
  match fs return row fs -> ValueMap -> ValueMap with
  | [] => λ _ out, out
  | f :: fs => λ r out,
      hot_image fs r.2 (if hot (kind f) then btree_insert (ident f) (image (kind f) r.1) out else out)
  end.

Fixpoint cold_image (fs : list Payload.FieldSchema) : row fs -> ValueMap -> ValueMap :=
  match fs return row fs -> ValueMap -> ValueMap with
  | [] => λ _ out, out
  | f :: fs => λ r out,
      cold_image fs r.2 (if hot (kind f) then out else btree_insert (ident f) (image (kind f) r.1) out)
  end.

(** Fields past the end of the hot segment are skipped. *)
Lemma hot_skips p defaults b descs : forall off out, zlen b <= off ->
  decode_hot p (export_hot defaults descs off) b out = Ok out.
Proof.
  induction descs as [|d descs IH]; intros off out H; [done|]. cbn [export_hot].
  destruct (Z.ltb_spec 0 (fd_width d)); [|by apply IH]. cbn [decode_hot f_offset f_width]. rewrite slice_past by lia.
  apply IH. lia.
Qed.

Lemma hot_segment_reads p defaults more fs : forall vi descs r pre h out,
  field_descs p vi fs = Ok descs -> all_known fs -> row_ok fs r -> hot_enc p fs r pre = Ok (pre ++ h) ->
  decode_hot p (export_hot defaults (descs ++ more) (zlen pre)) (pre ++ h) out = Ok (hot_image fs r out).
Proof.
  induction fs as [|f fs IH]; intros vi descs r pre h out Hd Hk Hr E.
  { injection Hd as <-. injection E as E. rewrite <- (app_nil_r pre) in E at 1. apply app_inv_head in E as <-.
    rewrite app_nil_r. by apply hot_skips. }
  apply field_descs_cons in Hd as (ty & rest & vi' & Ht & Hd & ->). apply Forall_cons in Hk as [Kf Hk].
  destruct Hr as [Hv Hr]. cbn [hot_enc hot_image app export_hot fd_width fd_ty fd_name] in *. rewrite width_hot.
  destruct (hot (kind f)) eqn:Hh; [|cbn [mbind outcome_bind] in E; by eapply IH].
  destruct (field_roundtrip p (kind f) r.1 Hv) as [e W]. rewrite (w_enc _ _ _ _ W) in E. cbn [mbind outcome_bind] in E.
  destruct (hot_enc_spec p fs r.2 Hr) as (h' & E' & _). rewrite E' in E. injection E as E. rewrite <- app_assoc in E.
  apply app_inv_head in E as <-. cbn [decode_hot f_offset f_width f_name f_ty].
  rewrite <- (w_width _ _ _ _ W Hh), slice_app, (w_width _ _ _ _ W Hh).
  rewrite (hot_value p vi _ _ _ _ _ Kf Hh Hv Ht W). cbn [mbind outcome_bind].
  rewrite <- (w_width _ _ _ _ W Hh), <- zlen_app, app_assoc. eapply IH; [done..|]. by rewrite E', <- app_assoc.
Qed.

(** ** Finding a cold field by its tag *)

Lemma find_unique {A B} `{!EqDecision B} (key : A -> B) (l : list A) x t :
  NoDup (map key l) -> x ∈ l -> key x = t -> find (λ y, bool_decide (key y = t)) l = Some x.
Proof.
  induction l as [|y l IH]; intros ND Hx Hk; [by apply elem_of_nil in Hx|]. apply NoDup_cons in ND as [N ND]. cbn [find].
  case_bool_decide as E.
  - apply elem_of_cons in Hx as [->|Hx]; [done|]. destruct N. rewrite E, <- Hk. apply list_elem_of_fmap. by exists x.
  - apply elem_of_cons in Hx as [->|Hx]; [done|by apply IH].
Qed.

Lemma export_cold_tags defaults contracts descs : forall fi, 0 <= fi -> fi + zlen descs <= 256 ->
  Forall (λ f, exists t, f_tag f = Some t /\ fi <= t < 256) (export_cold defaults contracts descs fi) /\
  NoDup (map f_tag (export_cold defaults contracts descs fi)).
Proof.
  induction descs as [|d descs IH]; intros fi H0 H; [split; constructor|]. cbn [export_cold].
  pose proof (zlen_nonneg descs). rewrite zlen_cons in H. destruct (IH (fi + 1) ltac:(lia) ltac:(lia)) as [F ND].
  assert (Forall (λ f, exists t, f_tag f = Some t /\ fi <= t < 256) (export_cold defaults contracts descs (fi + 1))) as F'.
  { eapply Forall_impl; [exact F|]. intros x (t & ? & ?). exists t. split; [done|lia]. }
  destruct (0 <? fd_width d); [done|]. split.
  - constructor; [|done]. exists (wrap 8 fi). split; [done|]. rewrite wrap_small by lia. lia.
  - cbn [map]. apply NoDup_cons. split; [|done]. cbn [f_tag]. rewrite wrap_small by lia.
    intros (x & Ex & Hx)%list_elem_of_fmap. rewrite Forall_forall in F. destruct (F x Hx) as (t & Et & ?). rewrite Et in Ex.
    injection Ex as Ex. lia.
Qed.

Lemma export_cold_at defaults contracts before d after : forall fi,
  (0 <? fd_width d) = false ->
  mkFieldSchema (fd_name d) (fd_ty d) 0 0 (Some (wrap 8 (fi + zlen before))) (lookup_default defaults (fd_name d))
    (expect_len_of contracts (fd_name d)) ∈ export_cold defaults contracts (before ++ d :: after) fi.
Proof.
  induction before as [|x before IH]; intros fi Hw; cbn [app export_cold].
  - rewrite Hw, Z.add_0_r. by left.
  - rewrite zlen_cons, Z.add_assoc. specialize (IH (fi + 1) Hw).
    destruct (0 <? fd_width x); [done|by right].
Qed.

Lemma by_tag_at defaults contracts before d after :
  (0 <? fd_width d) = false -> zlen (before ++ d :: after) <= 256 ->
  by_tag (export_cold defaults contracts (before ++ d :: after) 0) (wrap 8 (zlen before)) =
    Some (mkFieldSchema (fd_name d) (fd_ty d) 0 0 (Some (wrap 8 (zlen before))) (lookup_default defaults (fd_name d))
      (expect_len_of contracts (fd_name d))).
Proof.
  intros Hw H. destruct (export_cold_tags defaults contracts (before ++ d :: after) 0 ltac:(lia) H) as [_ ND].
  unfold by_tag. apply (find_unique f_tag); [|..|done].
  - rewrite map_rev. by apply NoDup_ListNoDup, NoDup_rev, NoDup_ListNoDup.
  - apply list_elem_of_In, in_rev, list_elem_of_In. rewrite rev_involutive. by apply (export_cold_at defaults contracts before d after 0).
Qed.

Lemma add_w_ok {E} p w a b : a + b < 2 ^ w -> add_w (E := E) p w a b = Ok (a + b).
Proof. intros H. unfold add_w. by rewrite (proj2 (Z.ltb_lt _ _) H). Qed.

(** One frame of the loop. *)
Lemma colds_step p fuel cs pre tag e rest out :
  zlen e < 2 ^ 49 -> zlen (pre ++ ([tag] ++ encoded (zlen e) ++ e) ++ rest) < 2 ^ 63 ->
  decode_colds p (S fuel) cs (pre ++ ([tag] ++ encoded (zlen e) ++ e) ++ rest) (zlen pre) out =
  (out ← match by_tag cs tag with
         | Some f => v ← decode_cold p f e; Ok (btree_insert (f_name f) v out)
         | None => Ok out
         end;
   decode_colds p fuel cs (pre ++ ([tag] ++ encoded (zlen e) ++ e) ++ rest)
     (zlen (pre ++ [tag] ++ encoded (zlen e) ++ e)) out).
Proof.
  intros Sz Hb. pose proof (zlen_nonneg e). destruct (put_take_len p [] (zlen e) ltac:(lia)) as (_ & Lw & T).
  set (b := pre ++ ([tag] ++ encoded (zlen e) ++ e) ++ rest) in *.
  assert (zlen pre < zlen b) as L by (unfold b; pose proof (zlen_nonneg rest); zlia).
  cbn [decode_colds]. rewrite (proj2 (Z.ltb_lt _ _) L).
  assert (byte_at b (zlen pre) = Some tag) as -> by (unfold b; cbn [app]; apply byte_at_app).
  cbn [ok_or mbind outcome_bind].
  assert (slice b (zlen pre + 1) (zlen b) = Some (encoded (zlen e) ++ e ++ rest)) as ->.
  { assert (b = (pre ++ [tag]) ++ encoded (zlen e) ++ e ++ rest) as -> by (unfold b; by rewrite <- !app_assoc).
    replace (zlen pre + 1) with (zlen (pre ++ [tag])) by zlia. apply slice_all_from. }
  cbn [ok_or mbind outcome_bind]. rewrite T. cbn [liftp ok_or mbind outcome_bind].
  assert (zlen pre + 1 + zlen (encoded (zlen e)) + zlen e + zlen rest = zlen b) as Lb by (unfold b; zlia).
  pose proof (zlen_nonneg rest). pose proof (zlen_nonneg pre).
  rewrite add_w_ok by lia. cbn [mbind outcome_bind].
  assert (slice b (zlen pre + 1 + zlen (encoded (zlen e))) (zlen pre + 1 + zlen (encoded (zlen e)) + zlen e) = Some e) as ->.
  { unfold b. replace (zlen pre + 1 + zlen (encoded (zlen e))) with (zlen (pre ++ [tag] ++ encoded (zlen e))) by zlia.
    replace (pre ++ ([tag] ++ encoded (zlen e) ++ e) ++ rest) with ((pre ++ [tag] ++ encoded (zlen e)) ++ e ++ rest)
      by (by rewrite <- !app_assoc). apply slice_app. }
  cbn [ok_or mbind outcome_bind].
  replace (zlen (pre ++ [tag] ++ encoded (zlen e) ++ e)) with (zlen pre + 1 + zlen (encoded (zlen e)) + zlen e) by zlia.
  done.
Qed.

(** The contracts of a declaration, by name. *)
Lemma contracts_other fs n : n ∉ map ident fs -> expect_len_of (flat_map contract_of fs) n = None.
Proof.
  intros Hn. unfold expect_len_of. destruct (find _ _) as [c|] eqn:E; [|done]. apply find_some in E as [Hc E].
  apply bool_decide_eq_true in E. apply in_flat_map in Hc as (f & Hf & Hc). destruct Hn. apply list_elem_of_fmap.
  exists f. split; [|by apply list_elem_of_In]. unfold contract_of in Hc. destruct (kind f); try done.
  destruct ok_len; [|done]. destruct Hc as [<-|[]]. done.
Qed.

Lemma contracts_at fs f : NoDup (map ident fs) -> f ∈ fs ->
  expect_len_of (flat_map contract_of fs) (ident f) = match kind f with KVector _ _ o => o | _ => None end.
Proof.
  induction fs as [|g fs IH]; intros ND Hf; [by apply elem_of_nil in Hf|]. apply NoDup_cons in ND as [N ND].
  apply elem_of_cons in Hf as [->|Hf].
  - pose proof (contracts_other fs (ident g) N) as O. cbn [flat_map]. unfold expect_len_of in *. unfold contract_of at 1.
    destruct (kind g); try done. destruct ok_len; [|done]. cbn [app find fst]. by rewrite bool_decide_true.
  - rewrite <- (IH ND Hf). cbn [flat_map]. unfold expect_len_of. unfold contract_of at 1.
    assert (ident g <> ident f) as D by (intros E; apply N; apply list_elem_of_fmap; by exists f).
    destruct (kind g); try done. destruct ok_len; [|done]. cbn [app find fst]. by rewrite bool_decide_false.
Qed.

Definition all_readable (fs : list Payload.FieldSchema) : Prop := Forall (λ f, readable (kind f) = true) fs.

Lemma field_descs_zlen p fs : forall vi descs, field_descs p vi fs = Ok descs -> zlen descs = zlen fs.
Proof.
  induction fs as [|f fs IH]; intros vi descs Hd; [by injection Hd as <-|].
  apply field_descs_cons in Hd as (ty & rest & vi' & _ & Hd & ->). rewrite !zlen_cons. f_equal. by eapply IH.
Qed.

(** The cold frames of a row, read by a schema whose declaration extends it. *)
Lemma cold_segment_reads p defaults contracts all fs : forall vi before descs more r pre c out fuel,
  all = before ++ descs ++ more -> zlen all <= 256 ->
  field_descs p vi fs = Ok descs -> all_known fs -> all_readable fs -> row_ok fs r ->
  Forall (λ f, expect_len_of contracts (ident f) = match kind f with KVector _ _ o => o | _ => None end) fs ->
  cold_enc p (zlen before) fs r pre = Ok (pre ++ c) -> zlen (pre ++ c) < 2 ^ 63 -> (length c <= fuel)%nat ->
  decode_colds p fuel (export_cold defaults contracts all 0) (pre ++ c) (zlen pre) out = Ok (cold_image fs r out).
Proof.
  induction fs as [|f fs IH]; intros vi before descs more r pre c out fuel Ea Hz Hd Hk Hre Hr Hx E Hb Hf.
  { injection E as E. rewrite <- (app_nil_r pre) in E at 1. apply app_inv_head in E as <-. rewrite app_nil_r.
    destruct fuel; cbn [decode_colds]; by rewrite Z.ltb_irrefl. }
  apply field_descs_cons in Hd as (ty & rest & vi' & Ht & Hd & ->). apply Forall_cons in Hk as [Kf Hk].
  apply Forall_cons in Hre as [Rf Hre]. apply Forall_cons in Hx as [Xf Hx].
  destruct Hr as [Hv Hr]. cbn [cold_enc cold_image] in *.
  assert (all = (before ++ [mkDesc (ident f) ty (field_width (kind f))]) ++ rest ++ more) as Ea' by (by rewrite Ea, <- !app_assoc).
  assert (zlen (before ++ [mkDesc (ident f) ty (field_width (kind f))]) = zlen before + 1) as Lb by zlia.
  destruct (hot (kind f)) eqn:Hh.
  { cbn [mbind outcome_bind] in E. rewrite <- Lb in E. by eapply IH. }
  destruct (field_roundtrip p (kind f) r.1 Hv) as [e W]. pose proof (w_size _ _ _ _ W Hh) as Sz. pose proof (zlen_nonneg e).
  rewrite (w_len _ _ _ _ W) in E. cbn [mbind outcome_bind] in E.
  destruct (put_take_len p (pre ++ [wrap 8 (zlen before)]) (zlen e) ltac:(lia)) as (P & _). rewrite P in E.
  cbn [mbind outcome_bind] in E. rewrite (w_enc _ _ _ _ W) in E. cbn [mbind outcome_bind] in E.
  destruct (cold_enc_spec p fs r.2 (zlen before + 1) Hr) as (c' & E' & _). rewrite E' in E. injection E as E.
  rewrite <- !app_assoc in E. apply app_inv_head in E as <-.
  set (frame := [wrap 8 (zlen before)] ++ encoded (zlen e) ++ e) in *.
  assert ([wrap 8 (zlen before)] ++ encoded (zlen e) ++ e ++ c' = frame ++ c') as Ef by (unfold frame; by rewrite <- !app_assoc).
  rewrite Ef in *. assert (0 < length frame)%nat as Lf by (unfold frame; cbn [app length]; lia).
  destruct fuel as [|fuel]; [rewrite length_app in Hf; lia|]. unfold frame. rewrite colds_step by done.
  cbn [app] in Ea. rewrite Ea. rewrite (by_tag_at defaults contracts before (mkDesc (ident f) ty (field_width (kind f)))).
  2: { cbn [fd_width]. by rewrite width_hot. } 2: { rewrite Ea in Hz. exact Hz. }
  cbn [fd_name fd_ty]. rewrite (cold_value p vi _ (kind f) r.1 e Kf Hh Rf Hv) by done. cbn [mbind outcome_bind f_name].
  fold frame. rewrite app_assoc. specialize (IH vi' (before ++ [mkDesc (ident f) ty (field_width (kind f))]) rest more r.2 (pre ++ frame) c').
  rewrite Lb in IH. replace (before ++ mkDesc (ident f) ty (field_width (kind f)) :: rest ++ more) with all by (by rewrite Ea).
  apply IH; try done.
  - by rewrite <- app_assoc.
  - rewrite length_app in Hf. lia.
Qed.

(** ** Payloads *)

(** The schema [sch] exports the payload of the declaration [s]. *)
Record payload_exported (p : profile) (sch : CollectionSchema) (s : DocumentSchema)
    (literals : list (bytes * DefaultValueConst)) : Prop := {
  pe_descs : exists descs, field_descs p 0 (fields s) = Ok descs /\
    hot_fields sch = export_hot literals descs 0 /\
    cold_fields sch = export_cold literals (flat_map contract_of (fields s)) descs 0;
  pe_header : payload_header_len sch = 3;
  pe_version : s_layout_version sch = layout_version s;
  pe_width : hot_width sch = HOT_WIDTH s
}.

(** The schema of a declared document exports its payload and its key. *)
Lemma derived_schema_exports {K} `{KeyEncode K} p (d : Declaration K) literals sch :
  derived_schema p d literals = Ok sch ->
  payload_exported p sch (dc_schema d) literals /\
  key_fields sch = export_key (FIELDS (K := K)) 0 /\ key_len sch = KEY_LEN (K := K).
Proof.
  unfold derived_schema. intros E. apply bind_Ok in E as (descs & Ed & E). unfold schema_of in E.
  apply bind_Ok in E as (u & _ & E). apply bind_Ok in E as (sl & _ & E). injection E as <-. split; [|done].
  split; [|done..]. by exists descs.
Qed.

Lemma gets_fills l : forall n out, btree_get n (fold_left fill_default l out) =
  match btree_get n out with
  | Some v => Some v
  | None => schema_default <$> find (λ f, bool_decide (f_name f = n)) l
  end.
Proof.
  induction l as [|f l IH]; intros n out; cbn [fold_left find]; [by destruct (btree_get n out)|].
  rewrite IH. unfold fill_default. destruct (btree_get (f_name f) out) as [v|] eqn:E.
  - case_bool_decide as Hn; [|done]. subst n. by rewrite E.
  - rewrite btree_get_insert. case_bool_decide as Hn.
    + subst n. rewrite decide_True by done. by rewrite E.
    + by rewrite decide_False.
Qed.

(** What the two walks put into the map. *)
Lemma hot_image_get fs : forall r out n, NoDup (map ident fs) ->
  btree_get n (hot_image fs r out) =
    match lookup_field fs r n with
    | Some d => if hot (projT1 d) then Some (image (projT1 d) (projT2 d)) else btree_get n out
    | None => btree_get n out
    end.
Proof.
  induction fs as [|f fs IH]; intros r out n ND; [done|]. apply NoDup_cons in ND as [N ND]. cbn [hot_image lookup_field].
  rewrite IH by done. case_bool_decide as E.
  - subst n. pose proof (lookup_field_spec fs (ident f) r.2) as L. destruct (field_of fs (ident f)) as [g|] eqn:G.
    { apply find_some in G as [G1 G2]. apply bool_decide_eq_true in G2. destruct N. apply list_elem_of_fmap. exists g.
      split; [done|by apply list_elem_of_In]. }
    rewrite L. cbn [projT1 projT2]. destruct (hot (kind f)); [|done]. rewrite btree_get_insert. by rewrite decide_True.
  - assert (btree_get n (if hot (kind f) then btree_insert (ident f) (image (kind f) r.1) out else out) = btree_get n out) as ->; [|done].
    destruct (hot (kind f)); [|done]. rewrite btree_get_insert. by rewrite decide_False.
Qed.

Lemma cold_image_get fs : forall r out n, NoDup (map ident fs) ->
  btree_get n (cold_image fs r out) =
    match lookup_field fs r n with
    | Some d => if hot (projT1 d) then btree_get n out else Some (image (projT1 d) (projT2 d))
    | None => btree_get n out
    end.
Proof.
  induction fs as [|f fs IH]; intros r out n ND; [done|]. apply NoDup_cons in ND as [N ND]. cbn [cold_image lookup_field].
  rewrite IH by done. case_bool_decide as E.
  - subst n. pose proof (lookup_field_spec fs (ident f) r.2) as L. destruct (field_of fs (ident f)) as [g|] eqn:G.
    { apply find_some in G as [G1 G2]. apply bool_decide_eq_true in G2. destruct N. apply list_elem_of_fmap. exists g.
      split; [done|by apply list_elem_of_In]. }
    rewrite L. cbn [projT1 projT2]. destruct (hot (kind f)); [done|]. rewrite btree_get_insert. by rewrite decide_True.
  - assert (btree_get n (if hot (kind f) then out else btree_insert (ident f) (image (kind f) r.1) out) = btree_get n out) as ->; [|done].
    destruct (hot (kind f)); [done|]. rewrite btree_get_insert. by rewrite decide_False.
Qed.

Lemma row_image_get fs r n : NoDup (map ident fs) ->
  btree_get n (cold_image fs r (hot_image fs r [])) = (λ d : dyn, image (projT1 d) (projT2 d)) <$> lookup_field fs r n.
Proof.
  intros ND. rewrite cold_image_get, hot_image_get by done. destruct (lookup_field fs r n) as [d|]; [|done].
  by destruct (hot (projT1 d)).
Qed.

Lemma field_descs_app p fs gs : forall vi descs, field_descs p vi (fs ++ gs) = Ok descs ->
  exists a b, descs = a ++ b /\ field_descs p vi fs = Ok a.
Proof.
  induction fs as [|f fs IH]; intros vi descs Hd; [by exists [], descs|]. cbn [app field_descs] in *.
  destruct (field_type p vi (kind f)) as [ty| |]; [|done..]. cbn [mbind outcome_bind] in *.
  destruct (field_descs p _ (fs ++ gs)) as [rest| |] eqn:E; [|done..]. injection Hd as <-.
  apply IH in E as (a & b & -> & ->). by exists (mkDesc (ident f) ty (field_width (kind f)) :: a), b.
Qed.

(** One payload, two encoders. *)
Lemma encode_agrees p sch s literals (r : row (fields s)) m :
  payload_exported p sch s literals -> all_known (fields s) -> HOT_WIDTH s < 2 ^ 16 ->
  row_ok (fields s) r -> gives (fields s) m r ->
  exists b, Dynamic.encode_payload p sch m = Ok b /\ Payload.encode_payload p s r = Ok b.
Proof.
  intros [(descs & Hd & Eh & Ec) _ Ev Ew] Hk Hw Hr Hg. destruct s as [v fs]. cbn [fields layout_version] in *.
  unfold HOT_WIDTH in *. cbn [fields] in *.
  destruct (hot_enc_spec p fs r Hr) as (h & Eh' & Lh & _). destruct (cold_enc_spec p fs r 0 Hr) as (c & Ec' & _).
  exists (payload_of v h c). rewrite <- Lh in Hw, Ew. split; [|by apply encode_payload_shape].
  destruct (hot_segment_agrees p literals m fs 0 descs r [] Hd Hk Hr Hg) as (b & E1 & E2).
  rewrite Eh' in E1. injection E1 as <-. change (zlen (A := Z) []) with 0 in E2.
  unfold Dynamic.encode_payload. rewrite Eh, E2. cbn [app mbind outcome_bind]. rewrite Ew, Z.eqb_refl. cbn [negb].
  rewrite Ec, Ev. pose proof (zlen_nonneg h). rewrite wrap_small by lia. change (v :: be_bytes 2 (zlen h) ++ h) with ([v] ++ be_bytes 2 (zlen h) ++ h).
  destruct (cold_segment_agrees p literals (flat_map contract_of fs) m fs 0 descs r 0 ([v] ++ be_bytes 2 (zlen h) ++ h) Hd Hk Hr Hg)
    as (b & F1 & F2).
  rewrite Ec' in F1. injection F1 as <-. rewrite F2. unfold payload_of. by rewrite <- !app_assoc.
Qed.

(** The dynamic encoder writes the derived encoder's payload, byte for byte.
    From a map that hands in every field of a row, under the exported schema of
    the row's declaration, [encode_payload] succeeds with exactly the bytes the
    derived code writes for the row; every field kind is taken except a [Uuid],
    [Bytes], a [Vector] and a [Vocab] wider than a byte. *)
Theorem dynamic_encode_agrees p sch s literals (r : row (fields s)) m :
  payload_exported p sch s literals -> all_known (fields s) -> HOT_WIDTH s < 2 ^ 16 ->
  row_ok (fields s) r -> gives (fields s) m r ->
  exists b, Dynamic.encode_payload p sch m = Ok b /\ Payload.encode_payload p s r = Ok b.
Proof. apply encode_agrees. Qed.

(** The shape of a dynamic decode. *)
Lemma decode_shape p sch v h c :
  zlen h < 2 ^ 16 -> payload_header_len sch = 3 ->
  Dynamic.decode_payload p sch (payload_of v h c) =
    if s_layout_version sch <? v then Err (VersionMismatch (s_layout_version sch) v)
    else
      let pre := ([v] ++ be_bytes 2 (zlen h)) ++ h in
      out ← decode_hot p (hot_fields sch) h [];
      out ← decode_colds p (length (pre ++ c)) (cold_fields sch) (pre ++ c) (zlen pre) out;
      Ok (fill_schema_defaults sch out).
Proof.
  intros Hw Hh. pose proof (zlen_nonneg h) as H0. pose proof (zlen_nonneg c). unfold Dynamic.decode_payload. rewrite Hh. cbv zeta.
  set (b := payload_of v h c).
  assert (zlen ([v] ++ be_bytes 2 (zlen h)) = 3) as L3 by zlia.
  assert (zlen b = 3 + zlen h + zlen c) as Lb by (unfold b, payload_of; zlia).
  rewrite (proj2 (Z.ltb_ge _ _)) by lia.
  assert (byte_at b 0 = Some v) as -> by apply (byte_at_app []). cbn [or_panic mbind outcome_bind].
  destruct (s_layout_version sch <? v); [done|].
  assert (be_bytes 2 (zlen h) = [zlen h / 256; zlen h mod 256]) as E2.
  { unfold be_bytes. cbn [Z.of_nat]. change (256 ^ 0) with 1. change (256 ^ Z.of_nat 1) with 256. rewrite Z.div_1_r.
    f_equal. apply Z.mod_small. pose proof (Z.div_lt_upper_bound (zlen h) 256 256 ltac:(lia) ltac:(lia)).
    pose proof (Z.div_pos (zlen h) 256). lia. }
  assert (byte_at b 1 = Some (zlen h / 256)) as ->.
  { unfold b, payload_of. rewrite E2. apply (byte_at_app [v]). }
  assert (byte_at b 2 = Some (zlen h mod 256)) as ->.
  { unfold b, payload_of. rewrite E2. apply (byte_at_app [v; zlen h / 256]). }
  cbn [or_panic mbind outcome_bind]. rewrite <- E2. rewrite be_val_be_bytes_small by (simpl; lia).
  assert (slice b 3 (3 + zlen h) = Some h) as ->.
  { unfold b, payload_of. rewrite <- L3. apply slice_app. }
  cbn [ok_or mbind outcome_bind]. rewrite (zlen_app _ h), L3.
  assert (b = (([v] ++ be_bytes 2 (zlen h)) ++ h) ++ c) as -> by (unfold b, payload_of; by rewrite <- !app_assoc). done.
Qed.

(** A payload of the derived encoder, read back. *)
Lemma reads_derived p sch s extra v' literals (r : row (fields s)) b :
  payload_exported p sch (mkSchema v' (fields s ++ extra)) literals -> all_known (fields s) -> all_readable (fields s) ->
  NoDup (map ident (fields s ++ extra)) -> zlen (fields s ++ extra) <= 256 -> HOT_WIDTH s < 2 ^ 16 ->
  row_ok (fields s) r -> Payload.encode_payload p s r = Ok b -> zlen b < 2 ^ 63 ->
  if v' <? layout_version s then Dynamic.decode_payload p sch b = Err (VersionMismatch v' (layout_version s))
  else exists m, Dynamic.decode_payload p sch b = Ok m /\
    forall n, btree_get n m =
      match lookup_field (fields s) r n with
      | Some d => Some (image (projT1 d) (projT2 d))
      | None => schema_default <$> find (λ f, bool_decide (f_name f = n)) (hot_fields sch ++ cold_fields sch)
      end.
Proof.
  intros [(descs & Hd & Eh & Ec) Hh Ev Ew] Hk Hre ND Hz Hw Hr E Hb. destruct s as [v fs]. cbn [fields layout_version] in *.
  unfold HOT_WIDTH in Hw. cbn [fields] in Hw.
  destruct (hot_enc_spec p fs r Hr) as (h & Eh' & Lh & _). destruct (cold_enc_spec p fs r 0 Hr) as (c & Ec' & _).
  rewrite <- Lh in Hw. rewrite (encode_payload_shape p v fs r h c Hw Eh' Ec') in E. injection E as <-.
  rewrite decode_shape, Ev by done. destruct (v' <? v); [done|]. cbv zeta.
  destruct (field_descs_app _ _ _ _ _ Hd) as (da & db & -> & Hda).
  rewrite Eh. pose proof (hot_segment_reads p literals db fs 0 da r [] h [] Hda Hk Hr (Eh' [])) as R1.
  change (zlen (A := Z) []) with 0 in R1. cbn [app] in R1. rewrite R1. cbn [mbind outcome_bind].
  rewrite map_app in ND. apply NoDup_app in ND as (NDf & Dis & NDe).
  assert (zlen (da ++ db) <= 256) as Hz' by (by rewrite (field_descs_zlen _ _ _ _ Hd)).
  assert (Forall (λ f, expect_len_of (flat_map contract_of (fs ++ extra)) (ident f) =
    match kind f with KVector _ _ o => o | _ => None end) fs) as Hx.
  { apply Forall_forall. intros f Hf. apply contracts_at; [|apply elem_of_app; by left].
    rewrite map_app. apply NoDup_app. by split_and!. }
  set (pre := ([v] ++ be_bytes 2 (zlen h)) ++ h).
  assert (zlen (pre ++ c) < 2 ^ 63) as Hb' by (unfold payload_of in Hb; unfold pre; by rewrite <- app_assoc).
  assert (length c <= length (pre ++ c))%nat as Hf by (rewrite length_app; lia).
  rewrite Ec, (cold_segment_reads p literals _ (da ++ db) fs 0 [] da db r pre c _ _ eq_refl Hz' Hda Hk Hre Hr Hx (Ec' pre) Hb' Hf).
  eexists. split; [reflexivity|]. intros n. unfold fill_schema_defaults. rewrite gets_fills, Eh, Ec, row_image_get by done.
  by destruct (lookup_field fs r n).
Qed.

(** C19: the dynamic reader reads the derived encoder's payloads.  A payload
    written under a declaration is read by the exported schema of that
    declaration or of a later one that appends fields: every field the row has
    comes back as its image, every other declared name takes the schema's
    default, and no further name appears; a payload of a newer layout is
    refused with both versions.  [Bytes] columns are excluded. *)
Theorem dynamic_reads_derived p sch s extra v' literals (r : row (fields s)) b :
  payload_exported p sch (mkSchema v' (fields s ++ extra)) literals -> all_known (fields s) -> all_readable (fields s) ->
  NoDup (map ident (fields s ++ extra)) -> zlen (fields s ++ extra) <= 256 -> HOT_WIDTH s < 2 ^ 16 ->
  row_ok (fields s) r -> Payload.encode_payload p s r = Ok b -> zlen b < 2 ^ 63 ->
  if v' <? layout_version s then Dynamic.decode_payload p sch b = Err (VersionMismatch v' (layout_version s))
  else exists m, Dynamic.decode_payload p sch b = Ok m /\
    forall n, btree_get n m =
      match lookup_field (fields s) r n with
      | Some d => Some (image (projT1 d) (projT2 d))
      | None => schema_default <$> find (λ f, bool_decide (f_name f = n)) (hot_fields sch ++ cold_fields sch)
      end.
Proof. apply reads_derived. Qed.

(** ** Keys *)

(** The key kinds with a payload type of their own. *)
Definition key_plain (k : KeyKind) : Prop :=
  match k with KeyUInt n => n ∈ [1; 2; 4; 8]%nat | KeyFixed n => (0 < n)%nat | KeyUuid _ => True | KeyVocab _ => False end.

Definition key_image (k : KeyKind) (v : key_type k) : Value := image (as_field k) (as_value k v).
Definition key_given (k : KeyKind) (v : key_type k) : option Value := given (as_field k) (as_value k v).

Fixpoint gives_key (ks : list KeyField) (m : ValueMap) : krow ks -> Prop :=
  match ks return krow ks -> Prop with
  | [] => λ _, True
  | k :: ks => λ r,
      (exists g, key_given (kf_kind k) r.1 = Some g /\ btree_get (kf_name k) m = Some g) /\ gives_key ks m r.2
  end.

(** The image of a key field by name. *)
Fixpoint key_lookup (ks : list KeyField) : krow ks -> bytes -> option Value :=
  match ks return krow ks -> bytes -> option Value with
  | [] => λ _ _, None
  | k :: ks => λ r n, if bool_decide (kf_name k = n) then Some (key_image (kf_kind k) r.1) else key_lookup ks r.2 n
  end.

Fixpoint krow_image (ks : list KeyField) : krow ks -> ValueMap -> ValueMap :=
  match ks return krow ks -> ValueMap -> ValueMap with
  | [] => λ _ out, out
  | k :: ks => λ r out, krow_image ks r.2 (btree_insert (kf_name k) (key_image (kf_kind k) r.1) out)
  end.

Definition key_descs (ks : list KeyField) : list FieldDesc := FIELDS (K := krow ks).

Lemma plain_kind k : key_plain k -> known (as_field k) /\ hot (as_field k) = true /\
  (forall p vi, field_type p vi (as_field k) = Ok (key_field_type k)) /\ field_width (as_field k) = key_width k.
Proof.
  destruct k; cbn [key_plain as_field known key_field_type field_type field_width key_width]; intros H; try done.
  - split; [done|]. split; [|done]. repeat (apply elem_of_cons in H as [->|H]; [done|]). by apply elem_of_nil in H.
  - split; [done|]. split; [|done]. unfold hot. cbn [field_width]. rewrite negb_true_iff, Z.eqb_neq. lia.
Qed.

Lemma key_field_writes p k v : key_plain k -> key_value_ok k v ->
  exists e, writes p (as_field k) (as_value k v) e /\ forall buf, key_enc k v buf = Ok (buf ++ e).
Proof.
  intros Hp Hv. destruct (field_roundtrip p (as_field k) (as_value k v) Hv) as [e W]. exists e. split; [done|].
  intros buf. rewrite <- (w_enc _ _ _ _ W buf). by destruct k.
Qed.

Lemma key_walk_agrees p m ks : forall r buf,
  Forall (λ k, key_plain (kf_kind k)) ks -> krow_ok ks r -> gives_key ks m r ->
  exists b, krow_encode ks r buf = Ok b /\ encode_walk p (export_key (key_descs ks) (zlen buf)) m buf = Ok b.
Proof.
  induction ks as [|k ks IH]; intros r buf Hp Hr Hg; [by exists buf|]. apply Forall_cons in Hp as [Pk Hp].
  destruct Hr as [Hv Hr], Hg as [(g & Eg & Gm) Hg]. destruct (plain_kind _ Pk) as (Kk & Hh & Ht & Hw).
  destruct (key_field_writes p _ _ Pk Hv) as (e & W & Ek). cbn [krow_encode]. rewrite Ek. cbn [mbind outcome_bind].
  unfold key_descs. cbn [FIELDS derived_key map export_key encode_walk fd_name fd_ty fd_width].
  rewrite (hot_written p 0 _ (as_field (kf_kind k)) (as_value (kf_kind k) r.1) g e) by done. cbn [mbind outcome_bind].
  replace (zlen buf + key_width (kf_kind k)) with (zlen (buf ++ e)); [by apply IH|].
  rewrite zlen_app. f_equal. rewrite <- Hw. by apply (w_width _ _ _ _ W).
Qed.

Lemma key_walk_reads p ks : forall r pre b rest out,
  Forall (λ k, key_plain (kf_kind k)) ks -> krow_ok ks r -> krow_encode ks r pre = Ok (pre ++ b) ->
  decode_key_loop p (export_key (key_descs ks) (zlen pre)) (pre ++ b ++ rest) out = Ok (krow_image ks r out).
Proof.
  induction ks as [|k ks IH]; intros r pre b rest out Hp Hr E; [done|]. apply Forall_cons in Hp as [Pk Hp].
  destruct Hr as [Hv Hr]. destruct (plain_kind _ Pk) as (Kk & Hh & Ht & Hw).
  destruct (key_field_writes p _ _ Pk Hv) as (e & W & Ek). cbn [krow_encode] in E. rewrite Ek in E. cbn [mbind outcome_bind] in E.
  destruct (krow_roundtrip ks r.2 Hr) as (es & _ & E' & _). rewrite E' in E. injection E as E. rewrite <- app_assoc in E.
  apply app_inv_head in E as <-. unfold key_descs.
  cbn [FIELDS derived_key map export_key decode_key_loop f_offset f_width f_name f_ty fd_name fd_ty fd_width krow_image].
  rewrite <- Hw, <- app_assoc, <- (w_width _ _ _ _ W Hh), slice_app. cbn [or_panic mbind outcome_bind].
  rewrite (w_width _ _ _ _ W Hh), (hot_value p 0 _ _ _ _ _ Kk Hh Hv (Ht p 0) W). cbn [mbind outcome_bind].
  rewrite <- (w_width _ _ _ _ W Hh), <- zlen_app, app_assoc. apply IH; [done..|]. by rewrite E', <- app_assoc.
Qed.

Lemma key_lookup_other ks n : forall r, n ∉ map kf_name ks -> key_lookup ks r n = None.
Proof.
  induction ks as [|k ks IH]; intros r Hn; [done|]. cbn [map key_lookup] in *. apply not_elem_of_cons in Hn as [N Hn].
  rewrite bool_decide_false by congruence. by apply IH.
Qed.

Lemma krow_image_get ks : forall r out n, NoDup (map kf_name ks) ->
  btree_get n (krow_image ks r out) = match key_lookup ks r n with Some v => Some v | None => btree_get n out end.
Proof.
  induction ks as [|k ks IH]; intros r out n ND; [done|]. apply NoDup_cons in ND as [N ND]. cbn [krow_image key_lookup].
  rewrite IH, btree_get_insert by done. case_bool_decide as E.
  - subst n. rewrite key_lookup_other, decide_True by done. done.
  - by rewrite decide_False.
Qed.

(** One key, two codecs. *)
Lemma key_agrees p sch ks (r : krow ks) rest :
  key_fields sch = export_key (FIELDS (K := krow ks)) 0 -> key_len sch = KEY_LEN (K := krow ks) ->
  Forall (λ k, key_plain (kf_kind k)) ks -> NoDup (map kf_name ks) -> krow_ok ks r ->
  exists b km, encode r = Ok b /\ (forall m, gives_key ks m r -> encode_key p sch m = Ok b) /\
    Dynamic.decode_key p sch (b ++ rest) = Ok km /\ forall n, btree_get n km = key_lookup ks r n.
Proof.
  intros Ef El Hp ND Hr. destruct (krow_roundtrip ks r Hr) as (es & _ & E & Lk & _).
  exists (concat es), (krow_image ks r []). split; [apply E|]. split; [|split].
  - intros m Hg. destruct (key_walk_agrees p m ks r [] Hp Hr Hg) as (b & E1 & E2). rewrite E in E1. injection E1 as <-.
    unfold encode_key. rewrite Ef. change (zlen (A := Z) []) with 0 in E2. unfold key_descs in E2. rewrite E2.
    cbn [app mbind outcome_bind]. rewrite El, Lk. unfold debug_assert. rewrite Z.eqb_refl. by destruct p.
  - unfold decode_key. rewrite El, <- Lk. rewrite (proj2 (Z.ltb_ge _ _)) by (pose proof (zlen_nonneg rest); zlia).
    rewrite Ef. exact (key_walk_reads p ks r [] (concat es) rest [] Hp Hr (E [])).
  - intros n. rewrite krow_image_get by done. by destruct (key_lookup ks r n).
Qed.

(** Keys agree as payloads do.  Under the exported schema of a declared key
    of integers, byte arrays and uuids, the dynamic encoder writes the derived
    encoder's key from a map that hands in its fields (a uuid it takes from
    nobody), and the dynamic reader answers every field's image, and nothing
    else, from a key with anything behind it. *)
Theorem dynamic_key_agrees p sch ks (r : krow ks) rest :
  key_fields sch = export_key (FIELDS (K := krow ks)) 0 -> key_len sch = KEY_LEN (K := krow ks) ->
  Forall (λ k, key_plain (kf_kind k)) ks -> NoDup (map kf_name ks) -> krow_ok ks r ->
  exists b km, encode r = Ok b /\ (forall m, gives_key ks m r -> encode_key p sch m = Ok b) /\
    Dynamic.decode_key p sch (b ++ rest) = Ok km /\ forall n, btree_get n km = key_lookup ks r n.
Proof. apply key_agrees. Qed.

(** ** What is refused *)

Definition payload_fields (sch : CollectionSchema) : list FieldSchema := hot_fields sch ++ cold_fields sch.

Definition accepted (m : ValueMap) (f : FieldSchema) : Prop :=
  exists v, btree_get (f_name f) m = Some v /\ accepts (f_ty f) v = true.

Lemma field_pair_accepts f m v : field_pair (f_name f) (f_ty f) m = Ok v -> accepted m f.
Proof.
  unfold field_pair, accepted. destruct (btree_get (f_name f) m) as [w|]; [|done]. cbn [ok_or mbind outcome_bind].
  destruct (accepts (f_ty f) w) eqn:A; [|done]. intros _. by exists w.
Qed.

Lemma encode_walk_accepts p fs m : forall buf b, encode_walk p fs m buf = Ok b -> Forall (accepted m) fs.
Proof.
  induction fs as [|f fs IH]; intros buf b E; [constructor|]. cbn [encode_walk] in E.
  destruct (encode_field p f m buf) as [x| |] eqn:Ef; [|done..]. constructor; [|by eapply IH].
  unfold encode_field in Ef. destruct (field_pair _ _ _) as [v| |] eqn:Fp; [|done..]. by eapply field_pair_accepts.
Qed.

Lemma put_colds_accepts p fs m : forall buf b, put_colds p fs m buf = Ok b -> Forall (accepted m) fs.
Proof.
  induction fs as [|f fs IH]; intros buf b E; [constructor|]. cbn [put_colds] in E.
  destruct (put_cold p f m buf) as [x| |] eqn:Ef; [|done..]. constructor; [|by eapply IH].
  unfold put_cold in Ef. destruct (field_pair _ _ _) as [v| |] eqn:Fp; [|done..]. by eapply field_pair_accepts.
Qed.

Lemma encode_accepts p sch m b : Dynamic.encode_payload p sch m = Ok b -> Forall (accepted m) (payload_fields sch).
Proof.
  unfold Dynamic.encode_payload. intros E. destruct (encode_walk p _ _ _) as [h| |] eqn:Eh; [|done..].
  cbn [mbind outcome_bind] in E. destruct (negb _); [done|]. apply Forall_app.
  split; [by eapply encode_walk_accepts|by eapply put_colds_accepts].
Qed.

(** No categorical field of a map has an id byte. *)
Definition no_ids (all : list FieldSchema) (m : ValueMap) : Prop :=
  forall f i v, f ∈ all -> f_ty f = TVocab i -> btree_get (f_name f) m = Some (VU8 v) -> False.

Lemma no_ids_insert all m g w :
  NoDup (map f_name all) -> g ∈ all -> no_ids all m -> (forall i v, f_ty g = TVocab i -> w <> VU8 v) ->
  no_ids all (btree_insert (f_name g) w m).
Proof.
  intros ND Hg Hm Hw f i v Hf Ht. rewrite btree_get_insert. destruct (decide (f_name g = f_name f)) as [E|].
  - assert (f = g) as ->.
    { clear -ND Hf Hg E. induction all as [|x all IH]; [by apply elem_of_nil in Hf|]. apply NoDup_cons in ND as [N ND].
      apply elem_of_cons in Hf as [->|Hf]; apply elem_of_cons in Hg as [->|Hg]; [done|..|auto].
      - destruct N. rewrite <- E. apply list_elem_of_fmap. by exists g.
      - destruct N. rewrite E. apply list_elem_of_fmap. by exists f. }
    intros [= ->]. by eapply Hw.
  - by eapply Hm.
Qed.

Lemma decode_hot_no_ids p all b fs : NoDup (map f_name all) -> forall out m,
  incl fs all -> no_ids all out -> decode_hot p fs b out = Ok m -> no_ids all m.
Proof.
  intros ND. induction fs as [|f fs IH]; intros out m Hi Ho E; [by injection E as <-|]. cbn [decode_hot] in E.
  apply incl_cons_inv in Hi as [Hf Hi]. destruct (slice _ _ _) as [raw|]; [|by eapply IH].
  apply bind_Ok in E as (v & Ev & E). eapply IH; [done| |done]. apply no_ids_insert; [done|by apply list_elem_of_In|done|].
  intros i x Ht ->. rewrite Ht in Ev. by cbn [decode_fixed] in Ev.
Qed.

Lemma by_tag_In fs t f : by_tag fs t = Some f -> f ∈ fs.
Proof. unfold by_tag. intros [H _]%find_some. apply list_elem_of_In. by apply in_rev. Qed.

Lemma decode_colds_no_ids p all b fs : NoDup (map f_name all) -> incl fs all -> forall fuel pos out m,
  no_ids all out -> decode_colds p fuel fs b pos out = Ok m -> no_ids all m.
Proof.
  intros ND Hi. induction fuel as [|fuel IH]; intros pos out m Ho E; cbn [decode_colds] in E; destruct (pos <? zlen b);
    try (by injection E as <-); [done|]. cbv zeta in E.
  apply bind_Ok in E as (tag & _ & E). apply bind_Ok in E as (rest & _ & E). apply bind_Ok in E as (taken & _ & E).
  apply bind_Ok in E as ([len len_n] & _ & E). apply bind_Ok in E as (e & _ & E). apply bind_Ok in E as (value & _ & E).
  apply bind_Ok in E as (out' & Eo & E). eapply IH; [|exact E]. destruct (by_tag fs tag) as [f|] eqn:Bt; [|by injection Eo as <-].
  apply bind_Ok in Eo as (v & Ev & Eo). injection Eo as <-. apply by_tag_In in Bt.
  apply no_ids_insert; [done|by apply list_elem_of_In, Hi, list_elem_of_In|done|]. intros i x Ht ->.
  unfold decode_cold in Ev. by rewrite Ht in Ev.
Qed.

Lemma schema_default_no_id f i v : f_ty f = TVocab i -> schema_default f <> VU8 v.
Proof. unfold schema_default, zero_image. intros ->. by destruct (f_default f) as [[]|]. Qed.

Lemma fill_no_ids all fs : NoDup (map f_name all) -> incl fs all -> forall out,
  no_ids all out -> no_ids all (fold_left fill_default fs out).
Proof.
  intros ND. induction fs as [|f fs IH]; intros Hi out Ho; [done|]. apply incl_cons_inv in Hi as [Hf Hi]. cbn [fold_left].
  apply IH; [done|]. unfold fill_default. destruct (btree_get _ _); [done|].
  apply no_ids_insert; [done|by apply list_elem_of_In|done|]. intros i v Ht. by eapply schema_default_no_id.
Qed.

Lemma decode_no_ids p sch b m : NoDup (map f_name (payload_fields sch)) ->
  Dynamic.decode_payload p sch b = Ok m -> no_ids (payload_fields sch) m.
Proof.
  intros ND E. unfold Dynamic.decode_payload in E. cbv zeta in E. destruct (_ <? _); [done|].
  apply bind_Ok in E as (v & _ & E). destruct (_ <? _); [done|].
  apply bind_Ok in E as (x & _ & E). apply bind_Ok in E as (y & _ & E). apply bind_Ok in E as (h & _ & E).
  apply bind_Ok in E as (out & E1 & E). apply bind_Ok in E as (out' & E2 & E). injection E as <-.
  apply fill_no_ids; [done|apply incl_refl|]. eapply decode_colds_no_ids; [done| | |exact E2]; [apply incl_appr, incl_refl|].
  eapply decode_hot_no_ids; [done| | |exact E1]; [apply incl_appl, incl_refl|]. intros f i w _ _. done.
Qed.

(** Which rows the dynamic side can write back.  Whatever a map holds, a
    payload is only encoded when no column is a [Uuid], a [Bytes] or a [Vector];
    a row it has decoded itself is only encoded when no column is a [Vocab]
    either; and a row completed with the schema's defaults is never encoded when
    an absent integer column has a literal default, as the export makes one of
    every integer literal. *)
Theorem reencode_refused p sch m :
  NoDup (map f_name (payload_fields sch)) ->
  (forall b f, Dynamic.encode_payload p sch m = Ok b -> f ∈ payload_fields sch ->
    match f_ty f with TUuid4 | TUuid7 | TBytes | TVector _ => False | _ => True end) /\
  (forall b b' f i, Dynamic.decode_payload p sch b = Ok m -> Dynamic.encode_payload p sch m = Ok b' ->
    f ∈ payload_fields sch -> f_ty f <> TVocab i) /\
  (forall b f n v, f ∈ payload_fields sch -> f_ty f = uint_type n -> f_default f = Some (DefI64 v) ->
    btree_get (f_name f) m = None -> Dynamic.encode_payload p sch (fill_schema_defaults sch m) <> Ok b).
Proof.
  intros ND. split_and!.
  - intros b f E Hf. apply encode_accepts in E. rewrite Forall_forall in E. destruct (E f Hf) as (v & _ & A).
    by destruct (f_ty f).
  - intros b b' f i D E Hf Ht. apply encode_accepts in E. rewrite Forall_forall in E. destruct (E f Hf) as (v & G & A).
    rewrite Ht in A. destruct v; try done. eapply (decode_no_ids p sch b m ND D f i); [done..|exact G].
  - intros b f n v Hf Ht Hd Hm E. apply encode_accepts in E. rewrite Forall_forall in E. destruct (E f Hf) as (w & G & A).
    unfold fill_schema_defaults in G. rewrite gets_fills, Hm in G. fold (payload_fields sch) in G.
    assert (find (λ g, bool_decide (f_name g = f_name f)) (payload_fields sch) = Some f) as F by by apply find_unique.
    rewrite F in G. cbn [fmap option_fmap option_map] in G. injection G as <-. unfold schema_default in A. rewrite Hd, Ht in A.
    unfold uint_type in A. by destruct (n =? 1)%nat, (n =? 2)%nat, (n =? 4)%nat.
Qed.

(** * Witnesses *)

Definition sample_literals : list (bytes * DefaultValueConst) := [([97], ConstI64 5)].

Definition sample_export (v : Z) (extra : list Payload.FieldSchema) : Declaration (krow sample_key) := {|
  dc_partition := [];
  dc_ns := [0; 33];
  dc_schema := mkSchema v (fields sample_schema ++ extra);
  dc_indexes := [];
  dc_leads := [];
  dc_reduces := []
|}.

Definition schema_in (o : outcome unit CollectionSchema) : CollectionSchema :=
  match o with
  | Ok s => s
  | _ => mkCollectionSchema 0 [] [] 0 0 0 [] [] [] (mkSlotMap 0 0 0 0 0 0 0 0 0) [] []
  end.

Definition sample_dyn_schema : CollectionSchema := schema_in (derived_schema Debug (sample_export 1 []) sample_literals).

Definition sample_later : list Payload.FieldSchema := [Payload.mkField [100] (KUInt 4) 7; Payload.mkField [101] KString []].

Definition sample_later_schema : CollectionSchema :=
  schema_in (derived_schema Debug (sample_export 2 sample_later) sample_literals).

Definition sample_values : ValueMap := [([97], VU16 300); ([98], VStr [104; 105]); ([99], VBytes (rev_encode 1 true (-3)))].

Lemma sample_exports v extra sch :
  derived_schema Debug (sample_export v extra) sample_literals = Ok sch ->
  payload_exported Debug sch (mkSchema v (fields sample_schema ++ extra)) sample_literals.
Proof. intros E. by apply derived_schema_exports in E as [? _]. Qed.

Lemma dynamic_encode_agrees_witness :
  exists b, Dynamic.encode_payload Debug sample_dyn_schema sample_values = Ok b /\
    Payload.encode_payload Debug sample_schema sample_row = Ok b.
Proof.
  refine (dynamic_encode_agrees Debug sample_dyn_schema sample_schema sample_literals sample_row sample_values _ _ _ sample_row_ok _).
  - apply (sample_exports 1 []). by vm_compute.
  - apply (bool_decide_unpack _). by vm_compute.
  - by vm_compute.
  - simpl. split_and!; (eexists; split; [reflexivity|by vm_compute]) || done.
Defined.

Lemma dynamic_reads_derived_witness :
  exists m, Dynamic.decode_payload Debug sample_later_schema
      (match Payload.encode_payload Debug sample_schema sample_row with Ok b => b | _ => [] end) = Ok m /\
    forall n, btree_get n m =
      match lookup_field (fields sample_schema) sample_row n with
      | Some d => Some (image (projT1 d) (projT2 d))
      | None => schema_default <$> find (λ f, bool_decide (f_name f = n)) (hot_fields sample_later_schema ++ cold_fields sample_later_schema)
      end.
Proof.
  refine (dynamic_reads_derived Debug sample_later_schema sample_schema sample_later 2 sample_literals sample_row _ _ _ _ _ _ _ sample_row_ok _ _).
  - apply sample_exports. by vm_compute.
  - apply (bool_decide_unpack _). by vm_compute.
  - apply (bool_decide_unpack _). by vm_compute.
  - apply (bool_decide_unpack _). by vm_compute.
  - vm_compute. discriminate.
  - by vm_compute.
  - by vm_compute.
  - by vm_compute.
Defined.

Lemma dynamic_key_agrees_witness :
  exists b km, encode sample_id = Ok b /\ (forall m, gives_key sample_key m sample_id -> encode_key Debug sample_dyn_schema m = Ok b) /\
    Dynamic.decode_key Debug sample_dyn_schema (b ++ [1]) = Ok km /\ forall n, btree_get n km = key_lookup sample_key sample_id n.
Proof.
  refine (dynamic_key_agrees Debug sample_dyn_schema sample_key sample_id [1] _ _ _ _ sample_id_ok).
  - by vm_compute.
  - by vm_compute.
  - repeat constructor; by apply (bool_decide_unpack _).
  - apply (bool_decide_unpack _). by vm_compute.
Defined.

(** The integer column [97] has a literal default; absent, it cannot be written. *)
Lemma reencode_refused_witness :
  match Dynamic.encode_payload Debug sample_dyn_schema (fill_schema_defaults sample_dyn_schema [([98], VStr []); ([99], VBytes [0])]) with
  | Ok _ => False | _ => True end.
Proof.
  destruct (Dynamic.encode_payload _ _ _) as [b| |] eqn:E; [|exact I..].
  refine (proj2 (proj2 (reencode_refused Debug sample_dyn_schema [([98], VStr []); ([99], VBytes [0])] _)) b
    (mkFieldSchema [97] TU16 2 0 None (Some (DefI64 5)) None) 2%nat 5 _ _ _ _ E).
  - apply (bool_decide_unpack _). by vm_compute.
  - vm_compute. by left.
  - done.
  - done.
  - done.
Defined.
