(* ===== verification/Paths.v ===== *)
(** * Field paths (okm-dynamic, [path.rs])

    A path addresses values inside a tree: a name, an array position or a literal
    key per component.  [Path_parse] reads the text form, byte by byte where the code
    goes char by char, which is the same since every delimiter is ASCII;
    [Path_resolve] walks a document; [Path_encode] and [Path_decode] are the byte form, against
    a vocabulary of names.

    The theorems: the parser accepts exactly the grammar [spells]; resolved values
    are the scalars the path reaches; the byte form comes back, and one path's
    bytes begin another's exactly when the path begins it. *)
From S2P Require Import Prelude Errors DynValue Fields Bridge Changelog LogFrames Dynamic.

(** ** Components *)

Inductive Component : Type :=
| CField (n : bytes)
| CIndex (i : Z)
| CKey (k : bytes).

#[export] Instance Component_eq_dec : EqDecision Component.
Proof. solve_decision. Defined.

Abbreviation Path := (list Component).

Definition TAG_FIELD : Z := 0x01.
Definition TAG_INDEX : Z := 0x02.
Definition TAG_KEY : Z := 0x03.

Inductive PathError : Type :=
| EmptySegment
| NoSeparatorBeforeQuote
| UnclosedKey
| UnclosedIndex
| BadIndex (inner : bytes)
| NoSeparator
| PathTruncated
| UnknownHandle (id : Z)
| UnknownComponent (tag : Z).

(** ** Text *)

(** The bytes up to the first one that [stop] says, and the rest. *)
Fixpoint span (stop : Z -> bool) (s : bytes) : bytes * bytes :=
  match s with
  | [] => ([], [])
  | c :: s' => if stop c then ([], s) else let '(a, b) := span stop s' in (c :: a, b)
  end.

(** [inner.parse::<u32>()] *)
Definition parse_u32 (s : bytes) : option Z :=
  v ← parse_u64 s; if v <? 2 ^ 32 then Some v else None.

(** The loop of [Path::parse]; every step takes a byte of the fuel. *)
Fixpoint parse_loop (fuel : nat) (s : bytes) (at_component_start : bool) (components : Path) : outcome PathError Path :=
  match s with
  | [] => if at_component_start then Err EmptySegment else Ok components
  | c :: s' =>
      match fuel with
      | O => Panic
      | S fuel =>
          if c =? 46 then
            if at_component_start then Err EmptySegment else parse_loop fuel s' true components
          else if c =? 34 then
            if negb at_component_start then Err NoSeparatorBeforeQuote
            else
              let '(key, rest) := span (Z.eqb 34) s' in
              match rest with
              | [] => Err UnclosedKey
              | _ :: rest => parse_loop fuel rest false (components ++ [CKey key])
              end
          else if c =? 91 then
            let '(inner, rest) := span (Z.eqb 93) s' in
            match rest with
            | [] => Err UnclosedIndex
            | _ :: rest =>
                idx ← ok_or (BadIndex inner) (parse_u32 inner);
                parse_loop fuel rest false (components ++ [CIndex idx])
            end
          else if negb at_component_start then Err NoSeparator
          else
            let '(n, rest) := span (λ c, (c =? 46) || (c =? 91)) s in
            if bool_decide (n = []) then Err EmptySegment else parse_loop fuel rest false (components ++ [CField n])
      end
  end.

Definition Path_parse (text : bytes) : outcome PathError Path :=
  match text with [] => Ok [] | _ => parse_loop (length text) text true [] end.

(** ** Walking *)

(** The name a component looks up in an object. *)
Definition component_name (c : Component) : option bytes :=
  match c with CField n => Some n | CKey k => from_utf8 k | CIndex _ => None end.

(** Scalar leaves of a possibly nested array, in order. *)
Fixpoint flatten_scalars (v : Value) : list Value :=
  match v with
  | VArray items => (fix go (l : list Value) : list Value := match l with [] => [] | x :: l => flatten_scalars x ++ go l end) items
  | VObj _ => []
  | other => [other]
  end.

Fixpoint walk_value (v : Value) (comps : Path) : list Value :=
  match v with
  | VObj m =>
      match comps with
      | [] => []
      | head :: rest =>
          match component_name head with
          | Some n =>
              (fix get (m : list (bytes * Value)) : list Value :=
                 match m with
                 | [] => []
                 | (k, x) :: m => if decide (k = n) then walk_value x rest else get m
                 end) m
          | None => []
          end
      end
  | VArray items =>
      match comps with
      | [] => flatten_scalars v
      | CIndex i :: rest =>
          (fix nth (l : list Value) (i : nat) : list Value :=
             match l, i with
             | [], _ => []
             | x :: _, O => walk_value x rest
             | _ :: l, S i => nth l i
             end) items (Z.to_nat i)
      | _ => (fix each (l : list Value) : list Value := match l with [] => [] | x :: l => walk_value x comps ++ each l end) items
      end
  | other => match comps with [] => [other] | _ => [] end
  end.

(** [walk_map] on a document, which is the walk of an object. *)
Definition Path_resolve (path : Path) (document : ValueMap) : list Value := walk_value (VObj document) path.

(** ** Bytes *)

Definition put_compact (buf : bytes) (v : Z) : bytes :=
  if v <? 0xFF then buf ++ [wrap 8 v] else buf ++ [0xFF] ++ be_bytes 2 v.

Definition take_compact (b : bytes) : outcome PathError (Z * Z) :=
  first ← ok_or PathTruncated (byte_at b 0);
  if first <? 0xFF then Ok (first, 1)
  else if zlen b <? 3 then Err PathTruncated
  else x ← or_panic (byte_at b 1); y ← or_panic (byte_at b 2); Ok (be_val [x; y], 3).

Section Bytes.
(** the vocabulary of the table, both ways *)
Variable resolve_name : bytes -> Z.
Variable name_of : Z -> option bytes.

(** One component behind what the buffer holds. *)
Definition put_component (buf : bytes) (c : Component) : bytes :=
  match c with
  | CField n => put_compact (buf ++ [TAG_FIELD]) (resolve_name n)
  | CIndex i => buf ++ [TAG_INDEX] ++ be_bytes 4 i
  | CKey k =>
      put_compact (buf ++ [TAG_KEY]) (if zlen k <? 2 ^ 16 then zlen k else 2 ^ 16 - 1)
        ++ take (Nat.min (length k) (Z.to_nat (2 ^ 16 - 1))) k
  end.

Definition Path_encode (path : Path) : bytes := fold_left put_component path [].

(** The loop of [Path::decode]; every step takes a byte of the fuel. *)
Fixpoint decode_loop (fuel : nat) (b : bytes) (i : Z) (components : Path) : outcome PathError Path :=
  if i <? zlen b then
    match fuel with
    | O => Panic
    | S fuel =>
        tag ← or_panic (byte_at b i);
        let i := i + 1 in
        if tag =? TAG_FIELD then
          rest ← or_panic (slice b i (zlen b));
          '(id, used) ← take_compact rest;
          let i := i + used in
          n ← ok_or (UnknownHandle id) (name_of id);
          decode_loop fuel b i (components ++ [CField n])
        else if tag =? TAG_INDEX then
          if zlen b - i <? 4 then Err PathTruncated
          else
            x ← or_panic (slice b i (i + 4));
            decode_loop fuel b (i + 4) (components ++ [CIndex (be_val x)])
        else if tag =? TAG_KEY then
          rest ← or_panic (slice b i (zlen b));
          '(len, used) ← take_compact rest;
          let i := i + used in
          if zlen b - i <? len then Err PathTruncated
          else
            k ← or_panic (slice b i (i + len));
            decode_loop fuel b (i + len) (components ++ [CKey k])
        else Err (UnknownComponent tag)
    end
  else Ok components.

Definition Path_decode (b : bytes) : outcome PathError Path := decode_loop (length b) b 0 [].
End Bytes.

(** * The grammar

    [spells start s cs]: the text [s] spells the components [cs]; [start] says
    whether a component may begin here without a separator. *)
Inductive spells : bool -> bytes -> Path -> Prop :=
| spell_end : spells false [] []
| spell_dot s cs : spells true s cs -> spells false (46 :: s) cs
| spell_key k s cs : 34 ∉ k -> spells false s cs -> spells true (34 :: k ++ 34 :: s) (CKey k :: cs)
| spell_index start d i s cs :
    93 ∉ d -> parse_u32 d = Some i -> spells false s cs -> spells start (91 :: d ++ 93 :: s) (CIndex i :: cs)
| spell_name c n s cs :
    c <> 34 -> Forall (λ x, x <> 46 /\ x <> 91) (c :: n) -> match s with [] => True | x :: _ => x = 46 \/ x = 91 end ->
    spells false s cs -> spells true ((c :: n) ++ s) (CField (c :: n) :: cs).

(** * Lemmas *)

Lemma span_spec stop s : forall a b, span stop s = (a, b) <->
  s = a ++ b /\ Forall (λ c, stop c = false) a /\ match b with [] => True | c :: _ => stop c = true end.
Proof.
  induction s as [|c s IH]; intros a b; cbn [span].
  - split; [intros [= <- <-]; by split_and!|]. intros (E & _). symmetry in E. by apply app_eq_nil in E as [-> ->].
  - destruct (stop c) eqn:Hc.
    + split; [intros [= <- <-]; by split_and!|]. intros (E & F & H). destruct a as [|x a]; [cbn in E; by rewrite <- E|].
      injection E as <- E. apply Forall_cons in F as [F _]. congruence.
    + destruct (span stop s) as [a' b'] eqn:Es. split.
      * intros [= <- <-]. destruct (proj1 (IH a' b') eq_refl) as (-> & F & H). split_and!; [done|by constructor|done].
      * intros (E & F & H). destruct a as [|x a].
        { cbn [app] in E. subst b. by rewrite Hc in H. }
        injection E as <- E. apply Forall_cons in F as [_ F]. assert ((a', b') = (a, b)) as [= -> ->]; [|done]. by apply IH.
Qed.

Lemma span_quote c k s : c ∉ k -> span (Z.eqb c) (k ++ c :: s) = (k, c :: s).
Proof.
  intros H. apply span_spec. split_and!; [done| |apply Z.eqb_refl]. apply Forall_forall. intros x Hx. apply Z.eqb_neq. by intros ->.
Qed.

Lemma span_quote_inv c s a x b : span (Z.eqb c) s = (a, x :: b) -> s = a ++ c :: b /\ c ∉ a.
Proof.
  intros (-> & F & H)%span_spec. apply Z.eqb_eq in H as <-. split; [done|]. intros Hc. rewrite Forall_forall in F.
  specialize (F _ Hc). by rewrite Z.eqb_refl in F.
Qed.

Lemma name_stop x : (x =? 46) || (x =? 91) = true <-> x = 46 \/ x = 91.
Proof. rewrite orb_true_iff, !Z.eqb_eq. done. Qed.

Lemma name_run l : Forall (λ c, (c =? 46) || (c =? 91) = false) l <-> Forall (λ x, x <> 46 /\ x <> 91) l.
Proof. split; intros F; (eapply Forall_impl; [exact F|]); intros x; cbv beta; rewrite orb_false_iff, !Z.eqb_neq; done. Qed.

Lemma spells_end (start : bool) (acc cs' : Path) :
  (if start then Err EmptySegment else Ok acc) = Ok (E := PathError) cs' <-> exists cs, cs' = acc ++ cs /\ spells start [] cs.
Proof.
  destruct start.
  - split; [done|]. intros (cs & _ & H). inversion H.
  - split; [intros [= <-]; exists []; split; [by rewrite app_nil_r|constructor]|]. intros (cs & -> & H). inversion H. by rewrite app_nil_r.
Qed.

(** What a text spells, by its first byte. *)
Lemma spells_dot start s cs : spells start (46 :: s) cs <-> start = false /\ spells true s cs.
Proof.
  split.
  - intros H. inversion H; subst; [done|]. match goal with H : Forall _ _ |- _ => apply Forall_cons in H as [[] _]; done end.
  - intros [-> H]. by constructor.
Qed.

Lemma spells_quote start s cs :
  spells start (34 :: s) cs <-> start = true /\ exists k rest cs', s = k ++ 34 :: rest /\ (34 ∉ k) /\ cs = CKey k :: cs' /\ spells false rest cs'.
Proof.
  split.
  - intros H. inversion H; subst; [|done]. split; [done|]. by repeat eexists.
  - intros (-> & k & rest & cs' & -> & Hk & -> & H). by constructor.
Qed.

Lemma spells_bracket start s cs :
  spells start (91 :: s) cs <-> exists d i rest cs', s = d ++ 93 :: rest /\ (93 ∉ d) /\ parse_u32 d = Some i /\ cs = CIndex i :: cs' /\ spells false rest cs'.
Proof.
  split.
  - intros H. inversion H; subst; [by repeat eexists|]. match goal with H : Forall _ _ |- _ => apply Forall_cons in H as [[] _]; done end.
  - intros (d & i & rest & cs' & -> & Hd & Hi & -> & H). by constructor.
Qed.

Lemma spells_name start c s cs :
  c <> 46 -> c <> 34 -> c <> 91 ->
  spells start (c :: s) cs <-> start = true /\ exists n rest cs', s = n ++ rest /\ Forall (λ x, x <> 46 /\ x <> 91) n /\
    match rest with [] => True | x :: _ => x = 46 \/ x = 91 end /\ cs = CField (c :: n) :: cs' /\ spells false rest cs'.
Proof.
  intros N46 N34 N91. split.
  - intros H. inversion H; subst; try done. split; [done|].
    match goal with H : Forall _ (_ :: _) |- _ => apply Forall_cons in H as [_ F] end. by repeat eexists.
  - intros (-> & n & rest & cs' & -> & F & B & -> & H). change (c :: n ++ rest) with ((c :: n) ++ rest). by repeat constructor.
Qed.

(** The parser accepts the grammar, and nothing else. *)
Lemma parse_loop_spec fuel : forall s start acc cs', (length s <= fuel)%nat ->
  parse_loop fuel s start acc = Ok cs' <-> exists cs, cs' = acc ++ cs /\ spells start s cs.
Proof.
  induction fuel as [|fuel IH]; intros s start acc cs' Hf; (destruct s as [|c s]; [apply spells_end|]); [simpl in Hf; lia|].
  cbn [parse_loop length] in *.
  assert (forall rest x, (length rest <= fuel)%nat ->
    parse_loop fuel rest false (acc ++ [x]) = Ok cs' <-> exists cs, cs' = acc ++ x :: cs /\ spells false rest cs) as Step.
  { intros rest x Hr. rewrite IH by done. split; intros (cs & -> & H); exists cs; (split; [by rewrite <- app_assoc|done]). }
  destruct (Z.eqb_spec c 46) as [->|N46].
  { setoid_rewrite spells_dot. destruct start; [split; [done|]; by intros (cs & _ & [=] & _)|].
    rewrite IH by lia. naive_solver. }
  destruct (Z.eqb_spec c 34) as [->|N34].
  { setoid_rewrite spells_quote. destruct start; [|split; [done|]; by intros (cs & _ & [=] & _)]. cbn [negb].
    destruct (span (Z.eqb 34) s) as [k [|x rest]] eqn:Es.
    - split; [done|]. intros (cs & -> & _ & k' & rest & tl & -> & Hk & _). by rewrite span_quote in Es.
    - apply span_quote_inv in Es as [-> Hk]. rewrite length_app in Hf. simpl in Hf. rewrite Step by lia. split.
      + intros (cs & -> & H). by repeat eexists.
      + intros (cs & -> & _ & k' & rest' & cs'' & E & Hk' & -> & H).
        assert (span (Z.eqb 34) (k ++ 34 :: rest) = (k', 34 :: rest')) as E' by (rewrite E; by apply span_quote).
        rewrite span_quote in E' by done. injection E' as <- <-. by exists cs''. }
  destruct (Z.eqb_spec c 91) as [->|N91].
  { setoid_rewrite spells_bracket.
    destruct (span (Z.eqb 93) s) as [d [|x rest]] eqn:Es.
    - split; [done|]. intros (cs & -> & d' & i & rest & tl & -> & Hd & _). by rewrite span_quote in Es.
    - apply span_quote_inv in Es as [-> Hd]. rewrite length_app in Hf. simpl in Hf. destruct (parse_u32 d) as [i|] eqn:Ei.
      + cbn [ok_or mbind outcome_bind]. rewrite Step by lia. split.
        * intros (cs & -> & H). by repeat eexists.
        * intros (cs & -> & d' & i' & rest' & cs'' & E & Hd' & Ei' & -> & H).
          assert (span (Z.eqb 93) (d ++ 93 :: rest) = (d', 93 :: rest')) as E' by (rewrite E; by apply span_quote).
          rewrite span_quote in E' by done. injection E' as <- <-. rewrite Ei in Ei'. injection Ei' as <-. by exists cs''.
      + split; [done|]. intros (cs & -> & d' & i' & rest' & cs'' & E & Hd' & Ei' & _).
        assert (span (Z.eqb 93) (d ++ 93 :: rest) = (d', 93 :: rest')) as E' by (rewrite E; by apply span_quote).
        rewrite span_quote in E' by done. injection E' as <- <-. congruence. }
  setoid_rewrite spells_name; [|done..].
  destruct start; [|split; [done|]; by intros (cs & _ & [=] & _)]. cbn [negb].
  destruct (span _ (c :: s)) as [n rest] eqn:Es. apply span_spec in Es as (E & F & B).
  destruct n as [|x n]; [cbn in E; subst rest; apply name_stop in B; lia|]. rewrite bool_decide_false by done. injection E as <- ->.
  rewrite length_app in Hf. rewrite Step by lia. apply Forall_cons in F as [_ F]. apply name_run in F.
  assert (match rest with [] => True | x :: _ => x = 46 \/ x = 91 end) as B' by (destruct rest; [done|by apply name_stop]).
  split.
  - intros (cs & -> & H). eexists. split; [done|]. split; [done|]. by exists n, rest, cs.
  - intros (cs & -> & _ & n' & rest' & cs'' & E & F' & R & -> & H).
    assert (span (λ c, (c =? 46) || (c =? 91)) (n ++ rest) = (n', rest')) as E'.
    { rewrite E. apply span_spec. split_and!; [done|by apply name_run|destruct rest'; [done|by apply name_stop]]. }
    assert (span (λ c, (c =? 46) || (c =? 91)) (n ++ rest) = (n, rest)) as E''.
    { apply span_spec. split_and!; [done|by apply name_run|done]. }
    rewrite E' in E''. injection E'' as -> ->. by exists cs''.
Qed.

(** ** Walking *)

(** Induction on a tree of values. *)
Fixpoint Value_nested (P : Value -> Prop) (HO : forall m, Forall (λ kv, P kv.2) m -> P (VObj m))
    (HA : forall items, Forall P items -> P (VArray items))
    (HS : forall v, (match v with VObj _ | VArray _ => False | _ => True end) -> P v) (v : Value) : P v :=
  match v with
  | VObj m => HO m ((fix go (m : list (bytes * Value)) : Forall (λ kv, P kv.2) m :=
      match m with [] => Forall_nil_2 _ | kv :: m => Forall_cons_2 _ _ _ (Value_nested P HO HA HS kv.2) (go m) end) m)
  | VArray items => HA items ((fix go (l : list Value) : Forall P l :=
      match l with [] => Forall_nil_2 _ | x :: l => Forall_cons_2 _ _ _ (Value_nested P HO HA HS x) (go l) end) items)
  | other => HS other I
  end.

Definition scalar (v : Value) : Prop := match v with VObj _ | VArray _ => False | _ => True end.

Definition pinned (comps : Path) : Prop := match comps with CIndex _ :: _ => True | _ => False end.

(** [reaches v comps x]: the path leads from [v] to the scalar [x].  An object
    takes a name, an array a position; an array met by anything else is entered
    at every element, with the path as it was. *)
Inductive reaches : Value -> Path -> Value -> Prop :=
| reach_here v : scalar v -> reaches v [] v
| reach_name m c n rest v x :
    component_name c = Some n -> btree_get n m = Some v -> reaches v rest x -> reaches (VObj m) (c :: rest) x
| reach_pinned items i rest v x :
    items !! Z.to_nat i = Some v -> reaches v rest x -> reaches (VArray items) (CIndex i :: rest) x
| reach_each items comps v x :
    ~ pinned comps -> v ∈ items -> reaches v comps x -> reaches (VArray items) comps x.

Lemma walk_here v : scalar v -> walk_value v [] = [v].
Proof. by destruct v. Qed.

Lemma walk_stuck v c rest : scalar v -> walk_value v (c :: rest) = [].
Proof. by destruct v. Qed.

Lemma walk_obj_nil m : walk_value (VObj m) [] = [].
Proof. done. Qed.

Lemma walk_obj m c rest :
  walk_value (VObj m) (c :: rest) = match n ← component_name c; btree_get n m with Some v => walk_value v rest | None => [] end.
Proof.
  cbn [walk_value]. destruct (component_name c) as [n|]; [|done]. cbn [mbind option_bind]. induction m as [|[k x] m IH]; [done|].
  cbn [btree_get]. by destruct (decide (k = n)).
Qed.

Lemma walk_pinned items i rest :
  walk_value (VArray items) (CIndex i :: rest) = match items !! Z.to_nat i with Some v => walk_value v rest | None => [] end.
Proof. cbn [walk_value]. generalize (Z.to_nat i). clear i. induction items as [|x items IH]; by intros [|i]. Qed.

Lemma walk_each items comps : ~ pinned comps -> walk_value (VArray items) comps = flat_map (λ v, walk_value v comps) items.
Proof.
  intros N. destruct comps as [|c rest].
  - cbn [walk_value flatten_scalars]. induction items as [|x items IH]; [done|]. cbn [flat_map]. rewrite <- IH. f_equal. by destruct x.
  - destruct c; [|by destruct N|]; cbn [walk_value]; (induction items as [|x items IH]; [done|]; cbn [flat_map]; by rewrite <- IH).
Qed.

Lemma pinned_dec comps : {exists i rest, comps = CIndex i :: rest} + {~ pinned comps}.
Proof. destruct comps as [|[|i|] rest]; [right; intros []..|left; by exists i, rest|right; intros []]. Qed.

(** The walk finds exactly the scalars the path reaches. *)
Lemma walk_value_spec v : forall comps x, x ∈ walk_value v comps <-> reaches v comps x.
Proof.
  induction v as [m IH|items IH|v Hs] using Value_nested; intros comps x.
  - destruct comps as [|c rest].
    + rewrite walk_obj_nil, elem_of_nil. split; [done|]. intros H. inversion H; subst; done.
    + rewrite walk_obj. split.
      * destruct (component_name c) as [n|] eqn:En; cbn [mbind option_bind]; [|by rewrite elem_of_nil].
        destruct (btree_get n m) as [v|] eqn:G; [|by rewrite elem_of_nil]. intros H. eapply reach_name; [done..|].
        rewrite Forall_forall in IH. by apply (IH (n, v)), H; apply btree_get_In.
      * intros H. inversion H as [|? ? n ? v ? En G R| |]; subst. rewrite En. cbn [mbind option_bind]. rewrite G.
        rewrite Forall_forall in IH. by apply (IH (n, v)); [apply btree_get_In|].
  - rewrite Forall_forall in IH. destruct (pinned_dec comps) as [(i & rest & ->)|N].
    + rewrite walk_pinned. split.
      * destruct (items !! Z.to_nat i) as [v|] eqn:E; [|by rewrite elem_of_nil]. intros H. eapply reach_pinned; [done|].
        apply IH, H. by eapply list_elem_of_lookup_2.
      * intros H. inversion H as [| |? ? ? v ? E R|? ? ? ? N]; subst; [|by destruct N]. rewrite E. apply IH; [|done]. by eapply list_elem_of_lookup_2.
    + rewrite walk_each by done. rewrite list_elem_of_In, in_flat_map. setoid_rewrite <- list_elem_of_In. split.
      * intros (v & Hv & H). eapply reach_each; [done..|]. by apply IH.
      * intros H. inversion H as [| |? ? ? v ? E R|? ? v ? ? Hv R]; subst; [done..|by destruct N|]. exists v. split; [done|]. by apply IH.
  - destruct comps as [|c rest].
    + rewrite walk_here, list_elem_of_singleton by done. split; [intros ->; by constructor|]. intros H. by inversion H; subst.
    + rewrite walk_stuck, elem_of_nil by done. split; [done|]. intros H. by inversion H; subst.
Qed.

(** ** Bytes *)

Definition compact (v : Z) : bytes := if v <? 0xFF then [v] else 0xFF :: be_bytes 2 v.

Lemma put_compact_ok buf v : 0 <= v < 2 ^ 16 -> put_compact buf v = buf ++ compact v.
Proof. intros Hv. unfold put_compact, compact. destruct (Z.ltb_spec v 0xFF); [|done]. by rewrite wrap_small by lia. Qed.

Lemma take_compact_ok v rest : 0 <= v < 2 ^ 16 -> take_compact (compact v ++ rest) = Ok (v, zlen (compact v)).
Proof.
  intros Hv. unfold take_compact, compact. destruct (Z.ltb_spec v 0xFF) as [L|L].
  - cbn [app]. rewrite (byte_at_app [] v rest : byte_at (v :: rest) 0 = _). cbn [ok_or mbind outcome_bind]. by rewrite (proj2 (Z.ltb_lt v 0xFF) L).
  - destruct (be_bytes 2 v) as [|x [|y [|z l]]] eqn:E; [by apply (f_equal length) in E; rewrite be_bytes_length in E..| |by apply (f_equal length) in E; rewrite be_bytes_length in E].
    cbn [app]. rewrite (byte_at_app [] 0xFF (x :: y :: rest) : byte_at (0xFF :: x :: y :: rest) 0 = _). cbn [ok_or mbind outcome_bind]. rewrite (proj2 (Z.ltb_ge 0xFF 0xFF)) by lia.
    rewrite (proj2 (Z.ltb_ge _ 3)) by zlia.
    rewrite (byte_at_app [0xFF] x (y :: rest) : byte_at (0xFF :: x :: y :: rest) 1 = _). cbn [or_panic mbind outcome_bind]. rewrite (byte_at_app [0xFF; x] y rest : byte_at (0xFF :: x :: y :: rest) 2 = _). cbn [or_panic mbind outcome_bind].
    by rewrite <- E, be_val_be_bytes_small by lia.
Qed.

Section Vocabulary.
Variable resolve_name : bytes -> Z.
Variable name_of : Z -> option bytes.

(** A component the byte form holds: a name the vocabulary knows both ways, a
    position of 32 bits, a key of less than [2 ^ 16] bytes. *)
Definition component_ok (c : Component) : Prop :=
  match c with
  | CField n => 0 <= resolve_name n < 2 ^ 16 /\ name_of (resolve_name n) = Some n
  | CIndex i => 0 <= i < 2 ^ 32
  | CKey k => zlen k < 2 ^ 16
  end.

Definition component_bytes (c : Component) : bytes :=
  match c with
  | CField n => TAG_FIELD :: compact (resolve_name n)
  | CIndex i => TAG_INDEX :: be_bytes 4 i
  | CKey k => TAG_KEY :: compact (zlen k) ++ k
  end.

Lemma put_component_ok buf c : component_ok c -> put_component resolve_name buf c = buf ++ component_bytes c.
Proof.
  destruct c as [n|i|k]; cbn [component_ok put_component component_bytes].
  - intros [Hn _]. rewrite put_compact_ok by done. by rewrite <- app_assoc.
  - done.
  - intros Hk. rewrite (proj2 (Z.ltb_lt _ _) Hk), put_compact_ok by (pose proof (zlen_nonneg k); lia).
    rewrite take_ge by (unfold zlen in Hk; lia). by rewrite <- !app_assoc.
Qed.

Lemma encode_ok path : Forall component_ok path -> Path_encode resolve_name path = concat (map component_bytes path).
Proof.
  intros H. unfold Path_encode. change (concat (map component_bytes path)) with ([] ++ concat (map component_bytes path)). generalize (@nil Z).
  induction H as [|c path Hc _ IH]; intros buf; cbn [fold_left map concat]; [by rewrite app_nil_r|]. by rewrite put_component_ok, IH, <- app_assoc by done.
Qed.

(** One component is read, wherever it stands. *)
Lemma decode_component fuel pre c rest acc :
  component_ok c ->
  decode_loop name_of (S fuel) (pre ++ component_bytes c ++ rest) (zlen pre) acc
    = decode_loop name_of fuel (pre ++ component_bytes c ++ rest) (zlen (pre ++ component_bytes c)) (acc ++ [c]).
Proof.
  intros Hc. cbn [decode_loop].
  assert (zlen pre < zlen (pre ++ component_bytes c ++ rest)) as L.
  { rewrite !zlen_app. pose proof (zlen_nonneg rest). destruct c; cbn [component_bytes]; rewrite zlen_cons; zlen_facts; lia. }
  rewrite (proj2 (Z.ltb_lt _ _) L). clear L.
  destruct c as [n|i|k]; cbn [component_ok component_bytes] in *; cbn [app]; rewrite byte_at_app; cbn [or_panic mbind outcome_bind].
  - change (TAG_FIELD =? TAG_FIELD) with true. cbv iota. destruct Hc as [Hn E].
    rewrite cons_middle, app_assoc. replace (zlen pre + 1) with (zlen (pre ++ [TAG_FIELD])) by zlia. rewrite slice_all_from. cbn [or_panic mbind outcome_bind].
    rewrite take_compact_ok by done. cbn [mbind outcome_bind]. rewrite E. cbn [ok_or mbind outcome_bind]. f_equal. zlia.
  - change (TAG_INDEX =? TAG_FIELD) with false. change (TAG_INDEX =? TAG_INDEX) with true. cbv iota.
    rewrite (proj2 (Z.ltb_ge _ 4)) by zlia.
    rewrite (slice_next pre TAG_INDEX (be_bytes 4 i) rest 4) by (by rewrite be_bytes_zlen). cbn [or_panic mbind outcome_bind].
    rewrite be_val_be_bytes_small by done. f_equal. zlia.
  - change (TAG_KEY =? TAG_FIELD) with false. change (TAG_KEY =? TAG_INDEX) with false. change (TAG_KEY =? TAG_KEY) with true. cbv iota.
    rewrite cons_middle, app_assoc. replace (zlen pre + 1) with (zlen (pre ++ [TAG_KEY])) by zlia. rewrite slice_all_from. cbn [or_panic mbind outcome_bind].
    rewrite <- (app_assoc (compact _)), take_compact_ok by (pose proof (zlen_nonneg k); lia). cbn [mbind outcome_bind].
    rewrite (proj2 (Z.ltb_ge _ (zlen k))) by (rewrite !zlen_app; zlen_facts; lia).
    rewrite (app_assoc (pre ++ [TAG_KEY])). rewrite <- zlen_app, slice_app. cbn [or_panic mbind outcome_bind]. f_equal. zlia.
Qed.

(** What is read is only added to. *)
Lemma decode_loop_grows fuel : forall b i acc out, decode_loop name_of fuel b i acc = Ok out -> acc `prefix_of` out.
Proof.
  induction fuel as [|fuel IH]; intros b i acc out; cbn [decode_loop]; (destruct (i <? zlen b); [|by intros [= ->]]); [done|].
  destruct (byte_at b i) as [tag|]; [|done]. cbn [or_panic mbind outcome_bind].
  assert (forall i c, decode_loop name_of fuel b i (acc ++ [c]) = Ok out -> acc `prefix_of` out) as Step.
  { intros j c E. etrans; [|by apply (IH _ _ _ _ E)]. by apply prefix_app_r. }
  destruct (tag =? TAG_FIELD).
  - destruct (slice b _ _) as [rest|]; [|done]. cbn [or_panic mbind outcome_bind]. destruct (take_compact rest) as [[id used]| |]; [|done..]. cbn [mbind outcome_bind].
    destruct (name_of id); [|done]. apply Step.
  - destruct (tag =? TAG_INDEX).
    + destruct (_ <? 4); [done|]. destruct (slice b _ _) as [x|]; [|done]. apply Step.
    + destruct (tag =? TAG_KEY); [|done]. destruct (slice b _ _) as [rest|]; [|done]. cbn [or_panic mbind outcome_bind].
      destruct (take_compact rest) as [[len used]| |]; [|done..]. cbn [mbind outcome_bind]. destruct (_ <? len); [done|].
      destruct (slice b _ _) as [k|]; [|done]. apply Step.
Qed.

Lemma decode_components path : forall fuel pre rest acc,
  Forall component_ok path ->
  decode_loop name_of (length path + fuel) (pre ++ concat (map component_bytes path) ++ rest) (zlen pre) acc
    = decode_loop name_of fuel (pre ++ concat (map component_bytes path) ++ rest) (zlen (pre ++ concat (map component_bytes path))) (acc ++ path).
Proof.
  induction path as [|c path IH]; intros fuel pre rest acc H; [by rewrite !app_nil_r|]. apply Forall_cons in H as [Hc H].
  cbn [length Nat.add map concat]. rewrite <- (app_assoc (component_bytes c)), decode_component by done.
  rewrite (app_assoc pre), IH by done. by rewrite <- !app_assoc.
Qed.

Lemma components_length path : (length path <= length (concat (map component_bytes path)))%nat.
Proof. induction path as [|c path IH]; [done|]. cbn [map concat length]. rewrite length_app. destruct c; cbn [component_bytes length]; lia. Qed.

(** Whatever follows a path's bytes, the reader answers the path and goes on. *)
Lemma decode_begins path rest out :
  Forall component_ok path -> Path_decode name_of (Path_encode resolve_name path ++ rest) = Ok out -> path `prefix_of` out.
Proof.
  intros H. rewrite encode_ok by done. unfold Path_decode. set (b := _ ++ rest).
  replace (length b) with (length path + (length b - length path))%nat by (unfold b; rewrite length_app; pose proof (components_length path); lia).
  unfold b. rewrite (decode_components path _ [] rest []) by done. cbn [app]. apply decode_loop_grows.
Qed.

Lemma encode_decode path : Forall component_ok path -> Path_decode name_of (Path_encode resolve_name path) = Ok path.
Proof.
  intros H. rewrite encode_ok by done. unfold Path_decode. pose proof (components_length path). remember (concat _) as b eqn:Eb.
  replace (length b) with (length path + (length b - length path))%nat by lia.
  pose proof (decode_components path (length b - length path) [] [] [] H) as E. rewrite <- Eb, app_nil_r in E. cbn [app] in E. change (zlen []) with 0 in E. rewrite E.
  destruct (length b - length path)%nat; cbn [decode_loop]; by rewrite (proj2 (Z.ltb_ge _ _)).
Qed.
End Vocabulary.

(** * Theorems *)

(** The text of a path.  The parser accepts exactly the grammar, with the
    components it spells, the empty text being the empty path. *)
Theorem parse_grammar s cs : Path_parse s = Ok cs <-> match s with [] => cs = [] | _ => spells true s cs end.
Proof.
  unfold Path_parse. destruct s as [|c s]; [split; [by intros [= <-]|by intros ->]|]. rewrite parse_loop_spec by done.
  split; [by intros (cs' & -> & H)|]. intros H. by exists cs.
Qed.

(** A path finds exactly the scalars it reaches, in every document: an absent
    name, a position out of range or an object at the end reach nothing. *)
Theorem resolve_exact path document x : x ∈ Path_resolve path document <-> reaches (VObj document) path x.
Proof. apply walk_value_spec. Qed.

(** The byte form of paths.  Against a vocabulary that knows their names both
    ways, a path comes back from its bytes, and the bytes of one path begin the
    bytes of another exactly when the path begins it. *)
Theorem path_bytes resolve_name name_of p q :
  Forall (component_ok resolve_name name_of) p -> Forall (component_ok resolve_name name_of) q ->
  Path_decode name_of (Path_encode resolve_name p) = Ok p /\
  (Path_encode resolve_name p `prefix_of` Path_encode resolve_name q <-> p `prefix_of` q).
Proof.
  intros Hp Hq. split; [by apply encode_decode|]. split.
  - intros [t E]. eapply decode_begins; [done|]. rewrite <- E. by apply encode_decode.
  - intros [t ->]. apply Forall_app in Hq as [_ Ht]. exists (concat (map (component_bytes resolve_name) t)).
    rewrite !(encode_ok resolve_name name_of) by (try apply Forall_app; done). by rewrite map_app, concat_app.
Qed.

(** A literal key of [2 ^ 16 - 1] bytes and its extensions share their bytes. *)
Lemma encode_cuts_keys f k x : zlen k = 2 ^ 16 - 1 -> Path_encode f [CKey (k ++ x)] = Path_encode f [CKey k].
Proof.
  intros L. unfold Path_encode. cbn [fold_left put_component]. assert (length k = Z.to_nat (2 ^ 16 - 1)) as N by (unfold zlen in L; lia).
  f_equal; [|by rewrite length_app, !Nat.min_r, take_app_le by lia; rewrite take_ge by lia].
  f_equal. rewrite zlen_app, L. destruct (Z.ltb_spec (2 ^ 16 - 1 + zlen x) (2 ^ 16)); [|done]. pose proof (zlen_nonneg x). by replace (zlen x) with 0 by lia.
Qed.

(** * Witness *)

Definition sample_resolve (n : bytes) : Z := if decide (n = [97]) then 7 else 300.
Definition sample_names (id : Z) : option bytes := if id =? 7 then Some [97] else if id =? 300 then Some [98] else None.

Example sample_path : Path_parse [97; 91; 51; 93; 46; 34; 46; 34; 46; 98] = Ok [CField [97]; CIndex 3; CKey [46]; CField [98]].
Proof. by vm_compute. Qed.

Example sample_encode :
  Path_encode sample_resolve [CField [97]; CIndex 3; CKey [46]; CField [98]] = [1; 7; 2; 0; 0; 0; 3; 3; 1; 46; 1; 255; 1; 44].
Proof. by vm_compute. Qed.

Lemma path_bytes_witness :
  Path_decode sample_names (Path_encode sample_resolve [CField [97]; CIndex 3]) = Ok [CField [97]; CIndex 3] /\
  (Path_encode sample_resolve [CField [97]; CIndex 3] `prefix_of` Path_encode sample_resolve [CField [97]; CIndex 3; CKey [46]; CField [98]]
   <-> [CField [97]; CIndex 3] `prefix_of` [CField [97]; CIndex 3; CKey [46]; CField [98]]).
Proof. apply path_bytes; repeat constructor; by vm_compute. Defined.
