(* ===== verification/DynIndex.v ===== *)
(** * Run-time access methods (okm-dynamic, [index.rs])

    An access method declared at run time: a slot, fields by schema name, and how
    entries are made of a document: as they are, under a predicate, by a function
    of the host, or from a path.  Callables of the host are functions of the
    decoded document that answer a value or an error.

    The theorems: under the exported schema of a declaration the entries are, byte
    for byte, the entries the derived access method writes, for the field kinds a
    segment takes, and any other kind refuses the document; the scans answer,
    entry for entry, what the typed scans answer. *)
From S2P Require Import Prelude Errors Storage VarInt Slots Vocab DynValue Fields Payload Keys Index Collection Bridge Schema Dynamic Paths.

(** ** Errors

    The messages of the dynamic side, one constructor per text. *)
Inductive DynError : Type :=
| KeyWidth (got want : Z)
| NotInSchema (n : bytes)
| NotLast (n : bytes)
| ManyVariable (count : Z)
| KeyFieldIndexed (n : bytes) | IndexFieldMissing (n : bytes)
| KeyFieldIncluded (n : bytes) | IncludeMissing (n : bytes) | IncludeNotInSchema (n : bytes)
| NotFixed (v : Value) | NotVariable (v : Value)
| NotUnsigned (t : FieldType) (v : Value) | Overflows (v : Z) (t : FieldType) | NoPathEncoding (t : FieldType)
| EmptyPath | PathTypeRefused (t : FieldType)
| PrefixTooLong
| IncludeShort (n : bytes) | IncludeUtf8 (n : bytes) | IncludeKind (n : bytes) (t : FieldType)
| IncludeBytes (n : bytes) (got needs : Z) | IncludeDecode (n : bytes) (e : CodecError) | IncludesLeft (left declared : Z)
| NoMethod (slot : Slot) | SlotTaken (slot : Slot) | ReduceSlotTaken (slot : Slot) | NoReduce
| GroupNotInSchema (n : bytes) | GroupMissing (n : bytes) (from_key : bool) | GroupKind (n : bytes)
| ReduceNotU64 (n : bytes) (v : Value) | ReduceMissing (n : bytes)
| NotDeclared (n : bytes)
| WriteFailed (e : Error)
| CodecText (e : CodecError)
| EngineText (e : Error)
| Callable (text : bytes).

Abbreviation dyn_result := (outcome DynError).

(** [.map_err(|e| e.to_string())?] over an engine and over the codec. *)
Definition engine_text {A} (r : result A) : dyn_result A :=
  match r with Ok a => Ok a | Err e => Err (EngineText e) | Panic => Panic end.

Definition codec_text {A} (r : codec A) : dyn_result A :=
  match r with Ok a => Ok a | Err e => Err (CodecText e) | Panic => Panic end.

(** ** Declarations *)

Abbreviation Admits := (ValueMap -> dyn_result bool).
Abbreviation FuncDerive := (ValueMap -> dyn_result (list bytes)).

Inductive AccessMethodKind : Type :=
| Plain
| Partial (admits : Admits)
| Func (derive : FuncDerive)
| ByPath (path : Path) (value_ty : FieldType).

Record AccessMethod : Type := mkMethod {
  am_slot : Slot;
  am_fields : list bytes;
  am_includes : list bytes;
  am_kind : AccessMethodKind;
  am_version : Z
}.

Definition method_plain (slot : Slot) (fields includes : list bytes) : AccessMethod :=
  mkMethod slot fields includes Plain 0.

(** [AccessMethod::path] *)
Definition method_path (slot : Slot) (path : Path) (value_ty : FieldType) : dyn_result AccessMethod :=
  if bool_decide (path = []) then Err EmptyPath
  else
    match value_ty with
    | TU8 | TU16 | TU32 | TU64 | TFixedBytes | TStr => Ok (mkMethod slot [] [] (ByPath path value_ty) 0)
    | other => Err (PathTypeRefused other)
    end.

Section Entries.
Variable schema : CollectionSchema.

(** The positions of variable-width fields, from [i] on. *)
Fixpoint variable_positions (i : Z) (names : list bytes) : dyn_result (list Z) :=
  match names with
  | [] => Ok []
  | n :: names =>
      f ← ok_or (NotInSchema n) (find_field schema n);
      rest ← variable_positions (i + 1) names;
      Ok (if f_width f =? 0 then i :: rest else rest)
  end.

Definition check_field_order (names : list bytes) : dyn_result unit :=
  positions ← variable_positions 0 names;
  match positions with
  | [] => Ok tt
  | pos :: _ =>
      if negb (pos =? zlen names - 1) then n ← or_panic (byte_at names pos); Err (NotLast n)
      else if 1 <? zlen positions then Err (ManyVariable (zlen positions))
      else Ok tt
  end.

Fixpoint head_width (names : list bytes) (w : Z) : dyn_result Z :=
  match names with
  | [] => Ok w
  | n :: names =>
      f ← ok_or (NotInSchema n) (find_field schema n);
      if f_width f =? 0 then Ok w else head_width names (w + f_width f)
  end.

Definition fields_width (am : AccessMethod) : dyn_result Z :=
  check_field_order (am_fields am);; head_width (am_fields am) 0.

Definition encode_fixed (ty : FieldType) (v : Value) (buf : bytes) : dyn_result bytes :=
  match ty, v with
  | TU8, VU8 n => Ok (buf ++ [n])
  | TU16, VU16 n => Ok (buf ++ be_bytes 2 n)
  | TU32, VU32 n => Ok (buf ++ be_bytes 4 n)
  | TU64, VU64 n => Ok (buf ++ be_bytes 8 n)
  | TFixedBytes, VBytes b => Ok (buf ++ b)
  | _, _ => Err (NotFixed v)
  end.

Definition encode_variable (ty : FieldType) (v : Value) (buf : bytes) : dyn_result bytes :=
  match ty, v with TStr, VStr s => Ok (buf ++ s) | _, _ => Err (NotVariable v) end.

Definition is_key_field (n : bytes) : bool := existsb (λ f, bool_decide (f_name f = n)) (key_fields schema).

(** The encoding of a declared field in a segment. *)
Definition encode_part (f : Schema.FieldSchema) (v : Value) (buf : bytes) : dyn_result bytes :=
  if f_width f =? 0 then encode_variable (f_ty f) v buf else encode_fixed (f_ty f) v buf.

Fixpoint fields_loop (names : list bytes) (document : ValueMap) (buf : bytes) : dyn_result bytes :=
  match names with
  | [] => Ok buf
  | n :: names =>
      if is_key_field n then Err (KeyFieldIndexed n)
      else
        v ← ok_or (IndexFieldMissing n) (btree_get n document);
        f ← ok_or (NotInSchema n) (find_field schema n);
        buf ← encode_part f v buf;
        fields_loop names document buf
  end.

(** [AccessMethod::fields_bytes] *)
Definition am_fields_bytes (am : AccessMethod) (document : ValueMap) : dyn_result bytes :=
  check_field_order (am_fields am);; fields_loop (am_fields am) document [].

Fixpoint includes_loop (names : list bytes) (document : ValueMap) (ev : bytes) : dyn_result bytes :=
  match names with
  | [] => Ok ev
  | n :: names =>
      if is_key_field n then Err (KeyFieldIncluded n)
      else
        v ← ok_or (IncludeMissing n) (btree_get n document);
        f ← ok_or (IncludeNotInSchema n) (find_field schema n);
        ev ← encode_part f v ev;
        includes_loop names document ev
  end.

(** [ns][slot][segment][pkey], with the same value for every segment. *)
Definition am_entry_key (ns : bytes) (slot : Slot) (segment pkey : bytes) : dyn_result bytes :=
  k ← liftp (write_slot ns slot); Ok (k ++ segment ++ pkey).

Fixpoint segment_entries (ns : bytes) (slot : Slot) (segments : list bytes) (pkey value : bytes)
    : dyn_result (list (bytes * bytes)) :=
  match segments with
  | [] => Ok []
  | seg :: segments =>
      k ← am_entry_key ns slot seg pkey;
      rest ← segment_entries ns slot segments pkey value;
      Ok ((k, value) :: rest)
  end.

(** One access method's turn of [index_entries]. *)
Definition method_entries (ns : bytes) (am : AccessMethod) (pkey : bytes) (document : ValueMap)
    : dyn_result (list (bytes * bytes)) :=
  admitted ← match am_kind am with Partial admits => admits document | _ => Ok true end;
  if negb admitted then Ok []
  else
    match am_kind am with
    | ByPath _ _ => Ok []
    | kind =>
        segments ← match kind with
                   | Func derive => derive document
                   | _ => b ← am_fields_bytes am document; Ok [b]
                   end;
        check_field_order (am_includes am);;
        ev ← includes_loop (am_includes am) document [];
        segment_entries ns (am_slot am) segments pkey ev
    end.

Fixpoint index_entries (ns : bytes) (indexes : list AccessMethod) (pkey : bytes) (document : ValueMap)
    : dyn_result (list (bytes * bytes)) :=
  match indexes with
  | [] => Ok []
  | am :: indexes =>
      e ← method_entries ns am pkey document;
      rest ← index_entries ns indexes pkey document;
      Ok (e ++ rest)
  end.

(** ** Path entries *)

(** [encode_index_value]: an unsigned value is narrowed to the declared width. *)
Definition unsigned_of (v : Value) : option Z :=
  match v with VU8 n | VU16 n | VU32 n | VU64 n => Some n | _ => None end.

Definition narrowed (ty : FieldType) (n : Z) : dyn_result Value :=
  match ty with
  | TU8 => if n <? 2 ^ 8 then Ok (VU8 n) else Err (Overflows n TU8)
  | TU16 => if n <? 2 ^ 16 then Ok (VU16 n) else Err (Overflows n TU16)
  | TU32 => if n <? 2 ^ 32 then Ok (VU32 n) else Err (Overflows n TU32)
  | _ => Ok (VU64 n)
  end.

Definition encode_index_value (ty : FieldType) (v : Value) (buf : bytes) : dyn_result bytes :=
  match ty with
  | TU8 | TU16 | TU32 | TU64 =>
      n ← ok_or (NotUnsigned ty v) (unsigned_of v);
      w ← narrowed ty n;
      encode_fixed ty w buf
  | TStr => encode_variable ty v buf
  | TFixedBytes => encode_fixed ty v buf
  | other => Err (NoPathEncoding other)
  end.

(** The segments of the values a path resolves to; a value of another type has none. *)
Fixpoint path_segments (ty : FieldType) (values : list Value) : dyn_result (list bytes) :=
  match values with
  | [] => Ok []
  | v :: values =>
      match encode_index_value ty v [] with
      | Panic => Panic
      | r => rest ← path_segments ty values; Ok (match r with Ok fb => fb :: rest | _ => rest end)
      end
  end.

Fixpoint path_index_entries (ns : bytes) (indexes : list AccessMethod) (pkey : bytes) (document : ValueMap)
    : dyn_result (list (bytes * bytes)) :=
  match indexes with
  | [] => Ok []
  | am :: indexes =>
      e ← match am_kind am with
          | ByPath path ty =>
              segments ← path_segments ty (Path_resolve path document);
              segment_entries ns (am_slot am) segments pkey []
          | _ => Ok []
          end;
      rest ← path_index_entries ns indexes pkey document;
      Ok (e ++ rest)
  end.

(** ** Scans *)

Definition trailing_variable (am : AccessMethod) : bool :=
  match last (am_fields am) with
  | Some n => match find_field schema n with Some f => f_width f =? 0 | None => false end
  | None => false
  end.

Definition entry_scan_prefix (ns : bytes) (am : AccessMethod) (encoded_prefix : bytes) : dyn_result bytes :=
  match am_kind am with
  | Func _ | ByPath _ _ => Ok tt
  | _ =>
      head ← fields_width am;
      if (head <? zlen encoded_prefix) && negb (trailing_variable am && (zlen (am_fields am) =? 1))
      then Err PrefixTooLong else Ok tt
  end;;
  p ← liftp (write_slot ns (am_slot am));
  Ok (p ++ encoded_prefix).

Variable p : profile.

(** The hits among the suffixes, as decoded keys. *)
Fixpoint scan_hits (exact : bool) (suffixes : list bytes) : dyn_result (list ValueMap) :=
  match suffixes with
  | [] => Ok []
  | suffix :: suffixes =>
      if (if exact then zlen suffix =? key_len schema else key_len schema <=? zlen suffix) then
        tl ← or_panic (slice suffix (zlen suffix - key_len schema) (zlen suffix));
        k ← codec_text (Dynamic.decode_key p schema tl);
        rest ← scan_hits exact suffixes;
        Ok (k :: rest)
      else scan_hits exact suffixes
  end.

Section Scans.
Context {S : Type} `{VirtualStorage S}.

Definition scan_access_method_filtered (store : S) (ns : bytes) (am : AccessMethod) (encoded_prefix : bytes) (exact : bool)
    : dyn_result (list ValueMap) :=
  q ← entry_scan_prefix ns am encoded_prefix;
  suffixes ← engine_text (vs_scan_suffix store q);
  scan_hits exact suffixes.

Definition scan_access_method (store : S) (ns : bytes) (am : AccessMethod) (encoded_prefix : bytes) :=
  scan_access_method_filtered store ns am encoded_prefix false.

Definition scan_access_method_exact (store : S) (ns : bytes) (am : AccessMethod) (encoded_prefix : bytes) :=
  scan_access_method_filtered store ns am encoded_prefix true.

(** One column of an includes segment, and where the next begins. *)
Definition include_part (n : bytes) (f : Schema.FieldSchema) (raw : bytes) (off : Z) : dyn_result (Value * Z) :=
  if f_width f =? 0 then
    rest ← ok_or (IncludeShort n) (slice raw off (zlen raw));
    match f_ty f with
    | TStr => s ← ok_or (IncludeUtf8 n) (from_utf8 rest); Ok (VStr s, zlen raw)
    | other => Err (IncludeKind n other)
    end
  else
    let e := off + f_width f in
    if zlen raw <? e then Err (IncludeBytes n (zlen raw) e)
    else
      b ← or_panic (slice raw off e);
      v ← match decode_fixed p n (f_ty f) (f_width f) b with
          | Ok v => Ok v | Err er => Err (IncludeDecode n er) | Panic => Panic
          end;
      Ok (v, e).

Fixpoint includes_walk (names : list bytes) (raw : bytes) (off : Z) (out : ValueMap) : dyn_result (Z * ValueMap) :=
  match names with
  | [] => Ok (off, out)
  | n :: names =>
      if is_key_field n then Err (KeyFieldIncluded n)
      else
        f ← ok_or (IncludeNotInSchema n) (find_field schema n);
        '(v, off) ← include_part n f raw off;
        includes_walk names raw off (btree_insert n v out)
  end.

(** [decode_includes] *)
Definition decode_includes (am : AccessMethod) (raw : bytes) : dyn_result ValueMap :=
  '(off, out) ← includes_walk (am_includes am) raw 0 [];
  if negb (off =? zlen raw) then Err (IncludesLeft (zlen raw - off) (zlen (am_includes am))) else Ok out.

Fixpoint covered_hits (am : AccessMethod) (items : list (bytes * bytes)) : dyn_result (list (ValueMap * ValueMap)) :=
  match items with
  | [] => Ok []
  | (suffix, value) :: items =>
      if zlen suffix <? key_len schema then covered_hits am items
      else
        tl ← or_panic (slice suffix (zlen suffix - key_len schema) (zlen suffix));
        k ← codec_text (Dynamic.decode_key p schema tl);
        v ← decode_includes am value;
        rest ← covered_hits am items;
        Ok ((k, v) :: rest)
  end.

Definition scan_access_method_covered (store : S) (ns : bytes) (am : AccessMethod) (encoded_prefix : bytes)
    : dyn_result (list (ValueMap * ValueMap)) :=
  q ← entry_scan_prefix ns am encoded_prefix;
  items ← engine_text (scan_suffix_kv store q);
  covered_hits am items.
End Scans.
End Entries.
