(* ===== verification/DynIndexFacts.v ===== *)
(** * Run-time access methods agree with the derived ones (okm-dynamic,
    [index.rs])

    Under the exported schema of a declaration, a run-time access method over the
    images of a row writes the entries the derived access method writes, and its
    scans answer what the typed scans answer; the kinds a segment does not take
    refuse the document. *)
From S2P Require Import Prelude Errors Storage VarInt Slots Vocab DynValue Quant Fields Payload Keys Index Meta Collection Declared Bridge Typing Schema Dynamic DynCodec Paths DynIndex.

(** ** Columns *)

(** The kinds whose encoding may stand in a segment. *)
Definition indexable (k : FieldKind) : bool :=
  match k with KUInt _ | KSInt _ | KFixedBytes _ | KReverse _ _ | KString => true | _ => false end.

(** What the export says of a field of kind [k]. *)
Definition describes (p : profile) (k : FieldKind) (f : Schema.FieldSchema) : Prop :=
  f_width f = field_width k /\ exists vi, field_type p vi k = Ok (f_ty f).

Lemma find_app {A} (P : A -> bool) l l' : find P (l ++ l') = match find P l with Some x => Some x | None => find P l' end.
Proof. induction l as [|x l IH]; [done|]. cbn [app find]. by destruct (P x). Qed.

Lemma field_of_absent fs n : n ∉ map ident fs -> field_of fs n = None.
Proof.
  induction fs as [|f fs IH]; intros H; [done|]. cbn [map] in H. apply not_elem_of_cons in H as [N H]. unfold field_of. cbn [find].
  rewrite bool_decide_false by congruence. by apply IH.
Qed.

Lemma field_of_cons f fs n : field_of (f :: fs) n = if bool_decide (ident f = n) then Some f else field_of fs n.
Proof. unfold field_of. cbn [find]. by case_bool_decide. Qed.

(** The export keeps a hot field among the hot ones, a cold one among the cold. *)
Lemma export_find p literals contracts n fs : forall vi descs off fi,
  NoDup (map ident fs) -> field_descs p vi fs = Ok descs ->
  match field_of fs n with
  | Some f => exists g, describes p (kind f) g /\
      find (λ f, bool_decide (f_name f = n)) (export_hot literals descs off) = (if hot (kind f) then Some g else None) /\
      (hot (kind f) = false -> find (λ f, bool_decide (f_name f = n)) (export_cold literals contracts descs fi) = Some g)
  | None => find (λ f, bool_decide (f_name f = n)) (export_hot literals descs off) = None /\
      find (λ f, bool_decide (f_name f = n)) (export_cold literals contracts descs fi) = None
  end.
Proof.
  induction fs as [|f fs IH]; intros vi descs off fi ND E; [by injection E as <-|]. apply NoDup_cons in ND as [N ND].
  cbn [field_descs] in E. apply bind_Ok in E as (ty & Et & E). apply bind_Ok in E as (rest & Er & E). injection E as <-.
  rewrite field_of_cons. cbn [export_hot export_cold fd_width fd_name fd_ty]. rewrite width_hot. case_bool_decide as I.
  - subst n. destruct (hot (kind f)) eqn:Hh; cbn [find f_name].
    + eexists. split; [|split; [by rewrite bool_decide_true|done]]. split; [done|]. by exists vi.
    + specialize (IH _ _ off (fi + 1) ND Er). rewrite (field_of_absent fs _ N) in IH. destruct IH as [-> _]. eexists. split; [|split; [done|]].
      2: { intros _. by rewrite bool_decide_true. }
      split; [|by exists vi]. cbn [f_width]. unfold hot in Hh. apply negb_false_iff, Z.eqb_eq in Hh. by rewrite Hh.
  - destruct (hot (kind f)); cbn [find f_name]; rewrite ?(bool_decide_false (ident f = n)) by done; by apply IH with (1 := ND) (2 := Er).
Qed.

Section Columns.
Variables (p : profile) (sch : CollectionSchema) (s : DocumentSchema) (literals : list (bytes * DefaultValueConst)).
Hypothesis Exp : payload_exported p sch s literals.
Hypothesis ND : NoDup (map ident (fields s)).

(** A name of the payload that the key does not have. *)
Definition payload_name (n : bytes) : Prop := is_key_field sch n = false.

Lemma not_key_find n : payload_name n -> find (λ f, bool_decide (f_name f = n)) (key_fields sch) = None.
Proof.
  unfold payload_name, is_key_field. induction (key_fields sch) as [|f fs IH]; [done|]. cbn [existsb find]. rewrite orb_false_iff.
  intros [E H]. rewrite E. by apply IH.
Qed.

Lemma column_of n f : payload_name n -> field_of (fields s) n = Some f ->
  exists g, find_field sch n = Some g /\ describes p (kind f) g.
Proof.
  intros Hn Hf. destruct Exp as [(descs & Hd & Eh & Ec) _ _ _].
  pose proof (export_find p literals (flat_map contract_of (fields s)) n (fields s) 0 descs 0 0 ND Hd) as X. rewrite Hf in X.
  destruct X as (g & D & Fh & Fc). exists g. split; [|done]. unfold find_field, all_fields.
  rewrite find_app, not_key_find, find_app, Eh, Ec, Fh by done. destruct (hot (kind f)); [done|by apply Fc].
Qed.
End Columns.

Lemma known_pos n : n ∈ [1; 2; 4; 8]%nat -> (Z.of_nat n =? 0) = false.
Proof. apply (known_cases n (λ n, (Z.of_nat n =? 0) = false)); done. Qed.

Lemma uint_part n v buf : n ∈ [1; 2; 4; 8]%nat -> 0 <= v < 256 ^ Z.of_nat n ->
  encode_fixed (uint_type n) (uint_value n v) buf = Ok (buf ++ be_bytes n v).
Proof.
  intros Hn. apply (known_cases n (λ n, 0 <= v < 256 ^ Z.of_nat n -> encode_fixed (uint_type n) (uint_value n v) buf = Ok (buf ++ be_bytes n v)));
    [..|done]; try done. intros H. cbn. by rewrite be_bytes_1.
Qed.

(** One column's part of a segment. *)
Lemma part_agrees p k v e f buf :
  known k -> value_ok k v -> describes p k f -> writes p k v e -> indexable k = true ->
  encode_part f (image k v) buf = Ok (buf ++ e).
Proof.
  intros Hk Hv [Hw (vi & Ht)] W Hi. unfold encode_part. rewrite Hw. pose proof (writes_as _ _ _ _ W) as E.
  destruct k; try done; cbn [field_type known value_ok field_width image field_enc] in *; injection Ht as <-.
  - injection E as <-. cbn [app]. rewrite be_bytes_wrap, known_pos by done. apply uint_part; [done|]. by rewrite <- bits_pow.
  - injection E as <-. cbn [app]. rewrite known_pos by done. apply uint_part; [done|]. rewrite <- bits_pow. apply (wrap_word _ _ _ Hv).
  - injection E as <-. by rewrite (proj2 (Z.eqb_neq _ 0)) by lia.
  - injection E as <-. by rewrite (proj2 (Z.eqb_neq _ 0)) by lia.
  - injection E as <-. done.
Qed.

Lemma part_refused p k v f buf b : describes p k f -> indexable k = false -> encode_part f v buf <> Ok b.
Proof.
  intros [Hw (vi & Ht)] Hi. unfold encode_part. destruct k; try done; cbn [field_type] in Ht.
  all: try (injection Ht as <-; destruct (_ =? 0); by destruct v).
  - injection Ht as <-. destruct (version =? 4), (_ =? 0); by destruct v.
  - destruct (data_vocab _ _); [|done..]. injection Ht as <-. destruct (_ =? 0); by destruct v.
Qed.

(** ** Segments *)

(** The image of a named column. *)
Definition image_of (fs : list Payload.FieldSchema) (r : row fs) (n : bytes) : option Value :=
  (λ d, image (projT1 d) (projT2 d)) <$> lookup_field fs r n.

Definition indexable_name (fs : list Payload.FieldSchema) (n : bytes) : bool :=
  match field_of fs n with Some f => indexable (kind f) | None => false end.

Lemma includes_fields sch m b names : forall buf, includes_loop sch names m buf = Ok b <-> fields_loop sch names m buf = Ok b.
Proof.
  induction names as [|n names IH]; intros buf; [done|]. cbn [includes_loop fields_loop]. destruct (is_key_field sch n); [done|].
  destruct (btree_get n m) as [v|]; [|done]. cbn [ok_or mbind outcome_bind]. destruct (find_field sch n) as [f|]; [|done]. cbn [ok_or mbind outcome_bind].
  destruct (encode_part f v buf); [|done..]. apply IH.
Qed.

Section Segments.
Variables (p : profile) (sch : CollectionSchema) (s : DocumentSchema) (literals : list (bytes * DefaultValueConst)).
Hypothesis Exp : payload_exported p sch s literals.
Hypothesis ND : NoDup (map ident (fields s)).
Hypothesis Hk : all_known (fields s).

Lemma known_of n f : field_of (fields s) n = Some f -> known (kind f).
Proof. intros H. unfold all_known in Hk. rewrite Forall_forall in Hk. apply Hk. unfold field_of in H. apply find_some in H as [H _]. by apply list_elem_of_In. Qed.

Lemma located_positions names : forall i,
  located (fields s) names -> Forall (payload_name sch) names ->
  variable_positions sch i names = Ok [] \/ names <> [] /\ variable_positions sch i names = Ok [i + zlen names - 1].
Proof.
  induction names as [|n names IH]; intros i Hl Hp; [by left|]. apply Forall_cons in Hp as [Pn Hp]. destruct Hl as (f & Hf & Hh & Hl).
  destruct (column_of p sch s literals Exp ND n f Pn Hf) as (g & Eg & Wg & _). cbn [variable_positions]. rewrite Eg. cbn [ok_or mbind outcome_bind]. rewrite Wg.
  rewrite zlen_cons. destruct (IH (i + 1) Hl Hp) as [->|[Ne ->]]; cbn [mbind outcome_bind].
  - destruct (Z.eqb_spec (field_width (kind f)) 0) as [W|W]; [|by left]. right. split; [done|].
    destruct names as [|n' names]; [by replace (i + (1 + zlen []) - 1) with i by (rewrite zlen_nil; lia)|].
    specialize (Hh ltac:(done)). unfold hot in Hh. by rewrite W in Hh.
  - specialize (Hh Ne). unfold hot in Hh. apply negb_true_iff in Hh. rewrite Hh. right. split; [done|]. do 2 f_equal. lia.
Qed.

Lemma located_order names : located (fields s) names -> Forall (payload_name sch) names -> check_field_order sch names = Ok tt.
Proof.
  intros Hl Hp. unfold check_field_order. destruct (located_positions names 0 Hl Hp) as [->|[Ne ->]]; [done|]. cbn [mbind outcome_bind].
  rewrite (proj2 (Z.eqb_eq _ _)) by lia. done.
Qed.

Lemma loop_agrees m r names : row_ok (fields s) r -> located (fields s) names -> Forall (payload_name sch) names ->
  Forall (λ n, btree_get n m = image_of (fields s) r n) names -> forallb (indexable_name (fields s)) names = true ->
  exists b, forall buf, encode_named p (fields s) r names buf = Ok (buf ++ b) /\ fields_loop sch names m buf = Ok (buf ++ b).
Proof.
  intros Hr. induction names as [|n names IH]; intros Hl Hp Hm Hi; [exists []; intros buf; by rewrite app_nil_r|].
  apply Forall_cons in Hp as [Pn Hp]. apply Forall_cons in Hm as [Mn Hm]. destruct Hl as (f & Hf & _ & Hl).
  cbn [forallb] in Hi. apply andb_true_iff in Hi as [In Hi]. unfold indexable_name in In. rewrite Hf in In.
  destruct (IH Hl Hp Hm Hi) as (b & Hb). destruct (column_of p sch s literals Exp ND n f Pn Hf) as (g & Eg & D).
  pose proof (lookup_field_spec (fields s) n r) as L. rewrite Hf in L. destruct L as (v & Lv & Hv & _). specialize (Hv Hr).
  destruct (field_roundtrip p (kind f) v Hv) as [e W]. exists (e ++ b). intros buf. cbn [encode_named fields_loop].
  unfold payload_name in Pn. rewrite Pn, Mn. unfold image_of. rewrite Lv. cbn [fmap option_fmap option_map or_panic ok_or mbind outcome_bind projT1 projT2].
  rewrite Eg, (w_enc _ _ _ _ W). cbn [ok_or mbind outcome_bind].
  rewrite (part_agrees p (kind f) v e g buf (known_of n f Hf) Hv D W In). cbn [mbind outcome_bind]. rewrite app_assoc. apply Hb.
Qed.

Lemma loop_refused m names b : forall buf, located (fields s) names -> Forall (payload_name sch) names ->
  forallb (indexable_name (fields s)) names = false -> fields_loop sch names m buf <> Ok b.
Proof.
  induction names as [|n names IH]; intros buf Hl Hp Hi; [done|]. apply Forall_cons in Hp as [Pn Hp]. destruct Hl as (f & Hf & _ & Hl).
  destruct (column_of p sch s literals Exp ND n f Pn Hf) as (g & Eg & D). cbn [forallb fields_loop] in *. unfold payload_name in Pn. rewrite Pn.
  destruct (btree_get n m) as [v|]; [|done]. cbn [ok_or mbind outcome_bind]. rewrite Eg. cbn [ok_or mbind outcome_bind].
  destruct (encode_part g v buf) as [buf'| |] eqn:E; [|done..]. cbn [mbind outcome_bind]. unfold indexable_name in Hi at 1. rewrite Hf in Hi.
  destruct (indexable (kind f)) eqn:In; [by apply IH|]. by apply (part_refused p _ _ _ _ _ D) in E.
Qed.
End Segments.

(** ** Entries *)

(** The run-time declaration mirrors the derived one: plain, under the same
    predicate, or by the same function, as far as the document at hand tells. *)
Definition mirrors {fs} (d : IdxDecl (row fs)) (am : AccessMethod) (r : row fs) (m : ValueMap) : Prop :=
  am_fields am = idx_fields d /\ am_includes am = idx_includes d /\ idx_key d = [] /\
  match idx_func d, idx_filter d, am_kind am with
  | None, None, Plain => True
  | None, Some c, Partial admits => admits m = Ok (c r)
  | Some f, None, Func derive => derive m = Ok (result_segments (f r)) /\ idx_includes d = [] /\ idx_fields d = []
  | _, _, _ => False
  end.

Lemma func_segments {K R} `{KeyEncode K} (ix : KvIndex K R) ns k kb value segs :
  slot_ok (SLOT ix) -> KEY_PREFIX ix = [] -> (forall buf, encode_into k buf = Ok (buf ++ kb)) ->
  exists es, func_entries ix ns k value segs = Ok es /\ segment_entries ns (SLOT ix) segs kb value = Ok es.
Proof.
  intros Hs Hp He. induction segs as [|seg segs (es & E1 & E2)]; [by exists []|].
  exists ((ns ++ slot_bytes (SLOT ix) ++ seg ++ kb, value) :: es). cbn [func_entries segment_entries]. unfold am_entry_key.
  rewrite write_slot_ok by done. cbn [mbind outcome_bind liftp]. unfold write_key_prefix. rewrite Hp, He. cbn [mbind outcome_bind].
  rewrite E1, E2. by rewrite <- !app_assoc.
Qed.

Section Agree.
Context {K : Type} `{KeyEncode K}.
Variables (p : profile) (sch : CollectionSchema) (s : DocumentSchema) (literals : list (bytes * DefaultValueConst)).
Hypothesis Exp : payload_exported p sch s literals.
Hypothesis ND : NoDup (map ident (fields s)).
Hypothesis Hk : all_known (fields s).

(** The value of an entry. *)
Lemma value_agrees (ix : KvIndex K (row (fields s))) (d : IdxDecl (row (fields s))) k r m :
  ix = derived_index p (fields s) (SLOT ix) d -> idx_func d = None \/ idx_includes d = [] ->
  row_ok (fields s) r -> located (fields s) (idx_includes d) -> Forall (payload_name sch) (idx_includes d) ->
  Forall (λ n, btree_get n m = image_of (fields s) r n) (idx_includes d) -> forallb (indexable_name (fields s)) (idx_includes d) = true ->
  exists v, entry_value ix k r = Ok v /\ includes_loop sch (idx_includes d) m [] = Ok v.
Proof.
  intros -> Hf Hr Hl Hp Hm Hi. unfold entry_value. cbn [INCLUDES derived_index ix_encode_named].
  destruct (loop_agrees p sch s literals Exp ND Hk m r _ Hr Hl Hp Hm Hi) as (b & Hb). destruct (Hb []) as [E1 E2].
  destruct (idx_includes d) as [|n names] eqn:Ei; [by exists []|]. destruct Hf as [->|]; [|done]. exists b. split; [done|]. by apply includes_fields.
Qed.

(** The single entry of a field index. *)
Lemma field_entry_agrees am (d : IdxDecl (row (fields s))) ns (k : K) kb r m :
  slot_ok (am_slot am) -> Keys.encode k = Ok kb -> row_ok (fields s) r -> idx_func d = None -> idx_key d = [] ->
  located (fields s) (idx_fields d) -> Forall (payload_name sch) (idx_fields d) ->
  Forall (λ n, btree_get n m = image_of (fields s) r n) (idx_fields d) -> forallb (indexable_name (fields s)) (idx_fields d) = true ->
  exists b, entry_key (derived_index p (fields s) (am_slot am) d) ns k r = Ok (ns ++ slot_bytes (am_slot am) ++ b ++ kb) /\
    fields_loop sch (idx_fields d) m [] = Ok b.
Proof.
  intros Hs Ekb Hr Fd Ek Lf Pf Mf If. destruct (loop_agrees p sch s literals Exp ND Hk m r _ Hr Lf Pf Mf If) as (b & Hb). exists b. split.
  - unfold entry_key, entry_key_with. cbn [SLOT derived_index ix_encode_named ix_fields]. rewrite write_slot_ok by done. cbn [mbind outcome_bind].
    rewrite Fd. destruct (Hb (ns ++ slot_bytes (am_slot am))) as [-> _]. cbn [mbind outcome_bind]. unfold write_key_prefix, encode_into. cbn [KEY_PREFIX derived_index].
    rewrite Ek, Ekb. cbn [mbind outcome_bind]. by rewrite <- !app_assoc.
  - apply (Hb []).
Qed.

(** One document, two access methods. *)
Lemma entries_agree am (d : IdxDecl (row (fields s))) ns (k : K) kb (r : row (fields s)) m :
  slot_ok (am_slot am) -> Keys.encode k = Ok kb -> row_ok (fields s) r ->
  mirrors d am r m -> located (fields s) (idx_fields d) -> located (fields s) (idx_includes d) ->
  Forall (payload_name sch) (idx_fields d ++ idx_includes d) ->
  Forall (λ n, btree_get n m = image_of (fields s) r n) (idx_fields d ++ idx_includes d) ->
  if forallb (indexable_name (fields s)) (idx_fields d ++ idx_includes d)
  then exists es, entry_pairs (derived_index p (fields s) (am_slot am) d) ns k r = Ok es /\ method_entries sch ns am kb m = Ok es
  else match idx_filter d with Some c => c r = true | None => True end -> forall es, method_entries sch ns am kb m <> Ok es.
Proof.
  intros Hs Ekb Hr (Ef & Ei & Ek & Mk) Lf Li Hp Hm. apply Forall_app in Hp as [Pf Pi]. apply Forall_app in Hm as [Mf Mi].
  rewrite forallb_app. pose proof (located_order p sch s literals Exp ND _ Lf Pf) as Of. pose proof (located_order p sch s literals Exp ND _ Li Pi) as Oi.
  unfold method_entries, am_fields_bytes. rewrite Ef, Ei, Of, Oi. cbn [mbind outcome_bind].
  destruct (forallb _ (idx_fields d)) eqn:If; [destruct (forallb _ (idx_includes d)) eqn:Ii|]; cbn [andb].
  - unfold entry_pairs. cbn [admits derived_index FUNC].
    destruct (value_agrees (derived_index p (fields s) (am_slot am) d) d k r m) as (v & Ev & Ei'); [done|by destruct (idx_func d), (idx_filter d), (am_kind am); naive_solver|done..|].
    destruct (idx_func d) as [f|] eqn:Fd, (idx_filter d) as [c|], (am_kind am) as [|adm|der|] eqn:Kd; try done.
    + destruct Mk as [-> _]. cbn [negb mbind outcome_bind]. rewrite Ev, Ei'. cbn [mbind outcome_bind].
      apply (func_segments (derived_index p (fields s) (am_slot am) d) ns k kb v); [done|done|]. intros buf. unfold encode_into. by rewrite Ekb.
    + rewrite Mk. cbn [mbind outcome_bind]. destruct (c r); cbn [negb]; [|by exists []].
      destruct (field_entry_agrees am d ns k kb r m) as (b & E1 & E2); [done..|]. rewrite E1, E2, Ev. cbn [mbind outcome_bind]. rewrite Ei'. cbn [mbind outcome_bind segment_entries].
      eexists. split; [done|]. unfold am_entry_key. rewrite write_slot_ok by done. cbn [mbind outcome_bind liftp]. by rewrite <- app_assoc.
    + cbn [mbind outcome_bind negb].
      destruct (field_entry_agrees am d ns k kb r m) as (b & E1 & E2); [done..|]. rewrite E1, E2, Ev. cbn [mbind outcome_bind]. rewrite Ei'. cbn [mbind outcome_bind segment_entries].
      eexists. split; [done|]. unfold am_entry_key. rewrite write_slot_ok by done. cbn [mbind outcome_bind liftp]. by rewrite <- app_assoc.
  - intros Hc es. destruct (idx_func d) as [f|], (idx_filter d) as [c|], (am_kind am) as [|adm|der|]; try done.
    + by destruct Mk as (_ & E & _); rewrite E in Ii.
    + rewrite Mk, Hc. cbn [mbind outcome_bind negb]. destruct (fields_loop _ _ _ _); [|done..]. cbn [mbind outcome_bind].
      destruct (includes_loop _ _ _ _) eqn:E; [|done..]. apply includes_fields in E. by apply (loop_refused p sch s literals Exp ND m _ _ _ Li Pi Ii) in E.
    + cbn [mbind outcome_bind negb]. destruct (fields_loop _ _ _ _); [|done..]. cbn [mbind outcome_bind].
      destruct (includes_loop _ _ _ _) eqn:E; [|done..]. apply includes_fields in E. by apply (loop_refused p sch s literals Exp ND m _ _ _ Li Pi Ii) in E.
  - intros Hc es. destruct (idx_func d) as [f|], (idx_filter d) as [c|], (am_kind am) as [|adm|der|]; try done.
    + by destruct Mk as (_ & _ & E); rewrite E in If.
    + rewrite Mk, Hc. cbn [mbind outcome_bind negb]. destruct (fields_loop _ _ _ _) eqn:E; [|done..].
      by apply (loop_refused p sch s literals Exp ND m _ _ _ Lf Pf If) in E.
    + cbn [mbind outcome_bind negb]. destruct (fields_loop _ _ _ _) eqn:E; [|done..].
      by apply (loop_refused p sch s literals Exp ND m _ _ _ Lf Pf If) in E.
Qed.

(** C20: a run-time access method writes the derived one's entries.  Under the
    exported schema, for a document that holds the images of the row's indexed and
    included columns, the entries are the same, keys and values, byte for byte,
    when every such column is an integer, a byte array, a [Reverse] or a string;
    a column of any other kind refuses every document. *)
Theorem dynamic_entries_agree am (d : IdxDecl (row (fields s))) ns (k : K) kb (r : row (fields s)) m :
  slot_ok (am_slot am) -> Keys.encode k = Ok kb -> row_ok (fields s) r ->
  mirrors d am r m -> located (fields s) (idx_fields d) -> located (fields s) (idx_includes d) ->
  Forall (payload_name sch) (idx_fields d ++ idx_includes d) ->
  Forall (λ n, btree_get n m = image_of (fields s) r n) (idx_fields d ++ idx_includes d) ->
  if forallb (indexable_name (fields s)) (idx_fields d ++ idx_includes d)
  then exists es, entry_pairs (derived_index p (fields s) (am_slot am) d) ns k r = Ok es /\ method_entries sch ns am kb m = Ok es
  else match idx_filter d with Some c => c r = true | None => True end -> forall es, method_entries sch ns am kb m <> Ok es.
Proof. apply entries_agree. Qed.
End Agree.

(** ** Scans *)

Lemma plain_stored ks : forall r : krow ks, Forall (λ k, key_plain (kf_kind k)) ks -> krow_stored ks r = r.
Proof.
  induction ks as [|k ks IH]; intros r Hp; [by destruct r|]. apply Forall_cons in Hp as [Pk Hp]. cbn [krow_stored]. rewrite IH by done.
  destruct r as [v r]. cbn [fst snd]. f_equal. destruct (kf_kind k); done.
Qed.

Section Scans.
Context {S : Type} `{ReliableStorage S}.
Variables (p : profile) (sch : CollectionSchema) (ks : list KeyField).
Hypothesis Ekf : key_fields sch = export_key (FIELDS (K := krow ks)) 0.
Hypothesis Ekl : key_len sch = KEY_LEN (K := krow ks).
Hypothesis Hp : Forall (λ k, key_plain (kf_kind k)) ks.

(** The key at the end of an entry, decoded either way. *)
Lemma tail_agrees (r : krow ks) ext b : krow_ok ks r -> Keys.encode r = Ok b ->
  decode_tail (K := krow ks) (KEY_LEN (K := krow ks)) (ext ++ b) = Ok r /\
  slice (ext ++ b) (zlen (ext ++ b) - key_len sch) (zlen (ext ++ b)) = Some b /\
  Dynamic.decode_key p sch b = Ok (krow_image ks r []).
Proof.
  intros Hr E. destruct (@decode_tail_spec (krow ks) _ (derived_key_laws ks) ext r b Hr E) as [D L]. split; [|split].
  - rewrite D. cbn [key_norm derived_key_laws]. by rewrite plain_stored.
  - rewrite Ekl, zlen_app, L. replace (zlen ext + KEY_LEN (K := krow ks) - KEY_LEN (K := krow ks)) with (zlen ext) by lia.
    rewrite <- L, <- zlen_app. apply slice_all_from.
  - unfold Dynamic.decode_key. rewrite Ekl, L, (proj2 (Z.ltb_ge _ _)), Ekf by done.
    pose proof (key_walk_reads p ks r [] b [] []) as W. cbn [app] in W. rewrite app_nil_r in W. by apply W.
Qed.

Lemma hits_agree (exact : bool) l :
  (forall t, t ∈ l -> (if exact then zlen t =? KEY_LEN (K := krow ks) else KEY_LEN (K := krow ks) <=? zlen t) = true ->
    exists ext r b, krow_ok ks r /\ Keys.encode r = Ok b /\ t = ext ++ b) ->
  exists pks, filter_suffixes (K := krow ks) exact (KEY_LEN (K := krow ks)) l = Ok pks /\
    scan_hits sch p exact l = Ok (map (λ pk, krow_image ks (pk_decoded pk) []) pks).
Proof.
  induction l as [|t l IH]; intros Hl; [by exists []|]. destruct IH as (pks & E1 & E2); [intros t' Ht'; apply Hl; by right|].
  cbn [filter_suffixes scan_hits]. rewrite Ekl. destruct (if exact then _ else _) eqn:T; [|by exists pks].
  destruct (Hl t) as (ext & r & b & Hr & Eb & ->); [by left|done|]. destruct (tail_agrees r ext b Hr Eb) as (D & Sl & Dk).
  rewrite D, E1. cbn [mbind outcome_bind]. rewrite <- Ekl, Sl. cbn [or_panic mbind outcome_bind]. rewrite Dk. cbn [codec_text mbind outcome_bind].
  rewrite E2. by exists (mkPrefixKey r (key_len sch) :: pks).
Qed.

(** The probe is not longer than the fixed-width head, or the one field is of
    variable width. *)
Definition probe_fits (am : AccessMethod) (probe : bytes) : Prop :=
  match am_kind am with
  | Func _ | ByPath _ _ => True
  | _ => exists w, fields_width sch am = Ok w /\ (zlen probe <= w \/ trailing_variable sch am && (zlen (am_fields am) =? 1) = true)
  end.

Lemma scan_prefix_fits ns am probe : slot_ok (am_slot am) -> probe_fits am probe ->
  entry_scan_prefix sch ns am probe = Ok (ns ++ slot_bytes (am_slot am) ++ probe).
Proof.
  intros Hs Hf. unfold entry_scan_prefix. rewrite write_slot_ok by done.
  assert ((match am_kind am with Func _ | ByPath _ _ => Ok tt | _ => head ← fields_width sch am;
    if (head <? zlen probe) && negb (trailing_variable sch am && (zlen (am_fields am) =? 1)) then Err PrefixTooLong else Ok tt end)
    = Ok (E := DynError) tt) as ->; [|cbn [mbind outcome_bind liftp]; by rewrite <- app_assoc].
  unfold probe_fits in Hf. destruct (am_kind am); try done; destruct Hf as (w & -> & [L|L]); cbn [mbind outcome_bind];
    first [by rewrite (proj2 (Z.ltb_ge _ _)) by done|by rewrite L, andb_false_r].
Qed.

(** C21: the scans of a run-time access method answer what the typed scans answer.
    Over a store whose entries under the slot name keys of the exported key type,
    the prefix scan and the equality scan of both sides find the same entries in
    the same order; the run-time answer is the typed one, each key in its image. *)
Theorem dynamic_scan_agrees {R} (store : S) (ix : KvIndex (krow ks) R) am ns probe (exact : bool) :
  am_slot am = SLOT ix -> slot_ok (SLOT ix) -> KEY_PREFIX ix = [] -> probe_fits am probe ->
  bytes_ok (ns ++ slot_bytes (SLOT ix) ++ probe) -> long_keys (contents store) (ns ++ slot_bytes (SLOT ix) ++ probe) ->
  indexed (K := krow ks) (contents store) (ns ++ slot_bytes (SLOT ix)) ->
  exists pks, (if exact then scan_index_exact store ix ns probe else scan_index store ix ns probe) = Ok pks /\
    (if exact then scan_access_method_exact sch p store ns am probe else scan_access_method sch p store ns am probe)
      = Ok (map (λ pk, krow_image ks (pk_decoded pk) []) pks).
Proof.
  intros Es Hs Hkp Hf Hb Hlong Hix. set (pre := ns ++ slot_bytes (SLOT ix)) in *.
  destruct (scans_carried store (pre ++ probe)) as (_ & Sc & _); [by unfold pre; rewrite <- app_assoc..|].
  destruct (hits_agree exact (map fst (carried_pairs (contents store) (pre ++ probe)))) as (pks & E1 & E2).
  { intros t Ht T. by apply (@indexed_hits (krow ks) _ (derived_key_laws ks) (contents store) pre probe exact t). }
  exists pks. unfold scan_index_exact, scan_index, scan_access_method_exact, scan_access_method, scan_index_filtered, scan_access_method_filtered, entry_prefix, key_prefix_width.
  rewrite scan_prefix_fits, Es, Hkp, write_slot_ok by congruence. cbn [mbind outcome_bind liftp]. rewrite app_assoc. fold pre. rewrite Sc. cbn [engine_text mbind outcome_bind].
  by destruct exact; rewrite E1, E2.
Qed.
End Scans.

(** ** What an entry covers *)

Section Covered.
Variables (p : profile) (sch : CollectionSchema) (s : DocumentSchema) (literals : list (bytes * DefaultValueConst)).
Hypothesis Exp : payload_exported p sch s literals.
Hypothesis ND : NoDup (map ident (fields s)).
Hypothesis Hk : all_known (fields s).

(** One included column. *)
Lemma include_read r n f g v e pre rest :
  field_of (fields s) n = Some f -> describes p (kind f) g -> indexable (kind f) = true -> value_ok (kind f) v -> writes p (kind f) v e ->
  lookup_field (fields s) r n = Some (existT (kind f) v) -> (hot (kind f) = false -> rest = []) ->
  include_part p n g (pre ++ e ++ rest) (zlen pre) = Ok (image (kind f) v, zlen (pre ++ e)).
Proof.
  intros Hf [Hw (vi & Ht)] Hi Hv W Lv Hc. pose proof (known_of s Hk n f Hf) as Kf. unfold include_part. rewrite Hw. destruct (hot (kind f)) eqn:Hh.
  - pose proof (w_width _ _ _ _ W Hh) as Lw. unfold hot in Hh. apply negb_true_iff in Hh. rewrite Hh. cbv zeta.
    rewrite (proj2 (Z.ltb_ge _ _)) by zlia. rewrite <- Lw, slice_app. cbn [or_panic mbind outcome_bind].
    rewrite Lw, (hot_value p vi n (kind f) v (f_ty g) e Kf); [|unfold hot; by rewrite Hh|done..]. cbn [mbind outcome_bind]. by rewrite <- Lw, <- zlen_app.
  - rewrite (Hc eq_refl), app_nil_r. pose proof (known_cold _ Kf Hh) as C. unfold hot in Hh. apply negb_false_iff in Hh. rewrite Hh, slice_all_from.
    cbn [ok_or mbind outcome_bind]. pose proof (writes_as _ _ _ _ W) as E. destruct (kind f); try done. cbn [field_type field_enc value_ok] in *. injection Ht as <-. injection E as <-.
    unfold from_utf8. destruct Hv as [Hu _]. by rewrite Hu.
Qed.

(** The included columns of an entry's value come back as their images. *)
Lemma includes_read m r names : row_ok (fields s) r -> located (fields s) names -> Forall (payload_name sch) names ->
  Forall (λ n, btree_get n m = image_of (fields s) r n) names -> forallb (indexable_name (fields s)) names = true ->
  exists b, (forall buf, fields_loop sch names m buf = Ok (buf ++ b)) /\ (names = [] -> b = []) /\ forall pre out, exists out',
    includes_walk sch p names (pre ++ b) (zlen pre) out = Ok (zlen (pre ++ b), out') /\
    forall n, btree_get n out' = if decide (n ∈ names) then image_of (fields s) r n else btree_get n out.
Proof.
  intros Hr. induction names as [|n names IH]; intros Hl Hp Hm Hi.
  { exists []. split; [intros buf; by rewrite app_nil_r|]. split; [done|]. intros pre out. exists out. by rewrite app_nil_r. }
  apply Forall_cons in Hp as [Pn Hp]. apply Forall_cons in Hm as [Mn Hm]. destruct Hl as (f & Hf & Hh & Hl).
  cbn [forallb] in Hi. apply andb_true_iff in Hi as [In Hi]. unfold indexable_name in In. rewrite Hf in In.
  destruct (IH Hl Hp Hm Hi) as (b & Hb & Bn & Wb). destruct (column_of p sch s literals Exp ND n f Pn Hf) as (g & Eg & D).
  pose proof (lookup_field_spec (fields s) n r) as L. rewrite Hf in L. destruct L as (v & Lv & Hv & _). specialize (Hv Hr).
  destruct (field_roundtrip p (kind f) v Hv) as [e W]. exists (e ++ b). unfold payload_name in Pn.
  assert (image_of (fields s) r n = Some (image (kind f) v)) as Im by (unfold image_of; by rewrite Lv). rewrite Im in Mn.
  split; [|split; [done|]].
  - intros buf. cbn [fields_loop]. rewrite Pn, Mn, Eg. cbn [ok_or mbind outcome_bind].
    rewrite (part_agrees p (kind f) v e g buf (known_of s Hk n f Hf) Hv D W In). cbn [mbind outcome_bind]. by rewrite Hb, app_assoc.
  - intros pre out. destruct (Wb (pre ++ e) (btree_insert n (image (kind f) v) out)) as (out' & Ew & G). exists out'.
    rewrite <- app_assoc in Ew. split.
    + cbn [includes_walk]. rewrite Pn, Eg. cbn [ok_or mbind outcome_bind].
      rewrite (include_read r n f g v e pre b); [cbn [mbind outcome_bind]; exact Ew|done..|].
      intros C. apply Bn. destruct names as [|x names]; [done|]. by rewrite (Hh ltac:(done)) in C.
    + intros x. rewrite G, btree_get_insert. destruct (decide (x ∈ names)) as [I|I]; [by rewrite decide_True by (by right)|].
      destruct (decide (n = x)) as [->|N]; [by rewrite decide_True by (by left)|]. rewrite decide_False; [done|]. rewrite elem_of_cons. naive_solver.
Qed.

(** A covered scan reads back what the entry carries.  The value a run-time
    access method writes for a document decodes to the images of the included
    columns, and nothing else. *)
Theorem covered_reads am (r : row (fields s)) m :
  row_ok (fields s) r -> located (fields s) (am_includes am) -> Forall (payload_name sch) (am_includes am) ->
  Forall (λ n, btree_get n m = image_of (fields s) r n) (am_includes am) -> forallb (indexable_name (fields s)) (am_includes am) = true ->
  exists v out, includes_loop sch (am_includes am) m [] = Ok v /\ decode_includes sch p am v = Ok out /\
    forall n, btree_get n out = if decide (n ∈ am_includes am) then image_of (fields s) r n else None.
Proof.
  intros Hr Hl Hp Hm Hi. destruct (includes_read m r _ Hr Hl Hp Hm Hi) as (b & Hb & _ & Wb). destruct (Wb [] []) as (out & E & G).
  exists b, out. split; [by apply includes_fields, (Hb [])|]. split; [|done]. unfold decode_includes. cbn [app] in E. change (zlen []) with 0 in E. rewrite E.
  cbn [mbind outcome_bind]. by rewrite Z.eqb_refl.
Qed.
End Covered.

(** * Witnesses

    The sample row, indexed by its string, including its integer. *)
Definition sample_method : AccessMethod := method_plain 0x3001 [[98]] [[97]].

Definition sample_document : ValueMap := [([97], VU16 300); ([98], VStr [104; 105])].

Lemma sample_payload_names : Forall (payload_name sample_dyn_schema) [[98]; [97]].
Proof. repeat constructor. Qed.

Lemma sample_images : Forall (λ n, btree_get n sample_document = image_of (fields sample_schema) sample_row n) [[98]; [97]].
Proof. repeat constructor. Qed.

Lemma sample_located : located (fields sample_schema) [[98]] /\ located (fields sample_schema) [[97]].
Proof. split; (eexists; split; [by vm_compute|done]). Qed.

Lemma dynamic_entries_agree_witness :
  method_entries sample_dyn_schema [0; 33] sample_method [0; 0; 0; 7; 1; 44; 9; 8] sample_document = Ok [(sample_entry, [1; 44])] /\
  exists es, entry_pairs sample_index [0; 33] sample_id sample_row = Ok es /\
    method_entries sample_dyn_schema [0; 33] sample_method [0; 0; 0; 7; 1; 44; 9; 8] sample_document = Ok es.
Proof.
  split; [by vm_compute|].
  refine (dynamic_entries_agree Debug sample_dyn_schema sample_schema sample_literals _ _ _ sample_method sample_decl [0; 33] sample_id
    [0; 0; 0; 7; 1; 44; 9; 8] sample_row sample_document _ _ sample_row_ok _ (proj1 sample_located) (proj2 sample_located) sample_payload_names sample_images).
  - apply (sample_exports 1 []). by vm_compute.
  - apply (bool_decide_unpack _). by vm_compute.
  - apply (bool_decide_unpack _). by vm_compute.
  - right. simpl. lia.
  - by vm_compute.
  - done.
Defined.

Lemma dynamic_scan_agrees_witness :
  scan_access_method_exact sample_dyn_schema Debug sample_indexed [0; 33] sample_method [104; 105] = Ok [krow_image sample_key sample_id []] /\
  exists pks, scan_index_exact sample_indexed sample_index [0; 33] [104; 105] = Ok pks /\
    scan_access_method_exact sample_dyn_schema Debug sample_indexed [0; 33] sample_method [104; 105]
      = Ok (map (λ pk, krow_image sample_key (pk_decoded pk) []) pks).
Proof.
  split; [by vm_compute|].
  refine (dynamic_scan_agrees Debug sample_dyn_schema sample_key _ _ _ sample_indexed sample_index sample_method [0; 33] [104; 105] true _ _ _ _ _ _ _).
  - by vm_compute.
  - by vm_compute.
  - repeat constructor; by apply (bool_decide_unpack _).
  - done.
  - right. simpl. lia.
  - done.
  - exists 0. split; [by vm_compute|by right].
  - apply (bool_decide_unpack _). by vm_compute.
  - exact sample_indexed_long.
  - exact sample_indexed_names.
Defined.

Lemma covered_reads_witness :
  exists v out, includes_loop sample_dyn_schema (am_includes sample_method) sample_document [] = Ok v /\
    decode_includes sample_dyn_schema Debug sample_method v = Ok out /\
    forall n, btree_get n out = if decide (n ∈ am_includes sample_method) then image_of (fields sample_schema) sample_row n else None.
Proof.
  refine (covered_reads Debug sample_dyn_schema sample_schema sample_literals _ _ _ sample_method sample_row sample_document sample_row_ok
    (proj2 sample_located) _ _ _).
  - apply (sample_exports 1 []). by vm_compute.
  - apply (bool_decide_unpack _). by vm_compute.
  - apply (bool_decide_unpack _). by vm_compute.
  - repeat constructor.
  - repeat constructor.
  - by vm_compute.
Defined.
