(* ===== verification/DynFields.v ===== *)
(** * Planned field segments (okm-dynamic, [plan_fields.rs])

    The dynamic segment of a row planned without an engine: [VocabMirror] is the
    field vocabulary as a caller holds it, [plan_put_fields] answers the writes of
    a segment together with the vocabulary's growth, [fields_from_frames] reads a
    stored segment back.

    The theorems: from a mirror of the stored vocabulary the planned writes leave
    the store the typed path leaves, and the plan's receipt keeps the mirror in
    step; a planned segment reads back as the values stored, small unsigned ones
    widened; loading answers the mirror of what is stored. *)
From S2P Require Import Prelude Errors Storage Slots Vocab VarInt DynValue Segment Index Bridge Dynamic DynIndex.

(** ** Values *)

(** [value_to_dyn_value] and [dyn_value_to_value]; they answer no error. *)
Fixpoint value_to_dyn_value (v : Value) : DynamicValue :=
  match v with
  | VU8 x | VU16 x | VU32 x | VU64 x => DUInt x
  | VI64 x => DInt x
  | VF64 x => DF64 x
  | VBool b => DBool b
  | VStr s => DStr s
  | VBytes b => DBytes b
  | VNull => DNull
  | VObj m => DObj (fold_left (λ out kv, btree_insert kv.1 (value_to_dyn_value kv.2) out) m [])
  | VArray items => DArray (map value_to_dyn_value items)
  end.

Fixpoint dyn_value_to_value (v : DynamicValue) : Value :=
  match v with
  | DUInt x => VU64 x
  | DInt x => VI64 x
  | DF64 x => VF64 x
  | DStr s => VStr s
  | DBytes b => VBytes b
  | DBool b => VBool b
  | DNull => VNull
  | DObj m => VObj (fold_left (λ out kv, btree_insert kv.1 (dyn_value_to_value kv.2) out) m [])
  | DArray items => VArray (map dyn_value_to_value items)
  end.

(** ** The mirror *)

Record VocabMirror : Type := mkMirror {
  vm_by_name : gmap bytes Z;
  vm_by_id : gmap Z bytes;
  vm_next_id : Z;
  vm_written : list (bytes * Z)
}.

Definition VocabMirror_default : VocabMirror := mkMirror ∅ ∅ 0 [].

(** The id, and the watermark behind it. *)
Definition claim_id (next : Z) : result (Z * Z) :=
  if next + 1 <? 2 ^ 16 then Ok (next, next + 1) else Err (Engine mirror_exhausted).

(** [saturating_add(1)] at sixteen bits *)
Definition sat_succ (id : Z) : Z := Z.min (id + 1) (2 ^ 16 - 1).

Definition load_id (d : VocabMirror) (kv : bytes * bytes) : VocabMirror :=
  match from_be 2 kv.1, from_utf8 kv.2 with
  | Some i, Some n => mkMirror (vm_by_name d) (<[i := n]> (vm_by_id d)) (vm_next_id d) (vm_written d)
  | _, _ => d
  end.

(** A name's turn: the watermark stands behind every id seen. *)
Definition adopt_name (d : VocabMirror) (n : bytes) (i : Z) (ids : gmap Z bytes) : VocabMirror :=
  mkMirror (<[n := i]> (vm_by_name d)) ids (if vm_next_id d <=? i then sat_succ i else vm_next_id d) (vm_written d).

Definition load_name (d : VocabMirror) (kv : bytes * bytes) : VocabMirror :=
  match from_utf8 kv.1, from_be 2 kv.2 with Some n, Some i => adopt_name d n i (vm_by_id d) | _, _ => d end.

Definition raise_next (d : VocabMirror) (cursor : Z) : VocabMirror :=
  mkMirror (vm_by_name d) (vm_by_id d) (Z.max (vm_next_id d) cursor) (vm_written d).

Definition VocabMirror_load {S} `{VirtualStorage S} (store : S) (ns : bytes) : dyn_result VocabMirror :=
  p2 ← liftp (write_slot ns FIELD_VOCAB_ID_SLOT);
  ids ← engine_text (scan_suffix_kv store p2);
  let d := fold_left load_id ids VocabMirror_default in
  p3 ← liftp (write_slot ns FIELD_VOCAB_NAME_SLOT);
  names ← engine_text (scan_suffix_kv store p3);
  let d := fold_left load_name names d in
  ck ← liftp (cursor_key ns FIELD_VOCAB);
  raw ← engine_text (vs_get store ck);
  Ok (match raw ≫= from_be 2 with Some cursor => raise_next d cursor | None => d end).

(** [adopt_entries] *)
Definition adopt_entries (d : VocabMirror) (entries : list (bytes * Z)) : VocabMirror :=
  fold_left (λ d e, adopt_name d e.1 e.2 (<[e.2 := e.1]> (vm_by_id d))) entries d.

Definition VocabMirror_from_pairs (entries : list (bytes * Z)) : VocabMirror := adopt_entries VocabMirror_default entries.

Definition mirror_name_for (d : VocabMirror) (i : Z) : option bytes := vm_by_id d !! i.

(** ** Plans *)

Abbreviation EngineOp := (bytes * option bytes)%type.

Record PlannedFields : Type := mkPlannedFields {
  pf_ops : list EngineOp;
  pf_new_entries : list (bytes * Z)
}.

(** The closure [resolver]: a name the mirror lacks is claimed and written. *)
Definition plan_id_for (ns name : bytes) : enc (VocabMirror * list EngineOp) Z := λ '(d, ops),
  match vm_by_name d !! name with
  | Some i => ((d, ops), Ok i)
  | None =>
      match claim_id (vm_next_id d) with
      | Ok (i, next) =>
          let d := mkMirror (<[name := i]> (vm_by_name d)) (<[i := name]> (vm_by_id d)) next (vm_written d ++ [(name, i)]) in
          match write_slot (E := Error) ns FIELD_VOCAB_ID_SLOT, write_slot (E := Error) ns FIELD_VOCAB_NAME_SLOT with
          | Ok ik, Ok nk => ((d, ops ++ [(ik ++ be_bytes 2 i, Some name); (nk ++ name, Some (be_bytes 2 i))]), Ok i)
          | _, _ => ((d, ops), Panic)
          end
      | Err e => ((d, ops), Err e)
      | Panic => ((d, ops), Panic)
      end
  end.

Definition take_written (d : VocabMirror) : VocabMirror := mkMirror (vm_by_name d) (vm_by_id d) (vm_next_id d) [].

(** [plan_put_fields]: the mirror after the plan, refused or not, and the plan. *)
Definition plan_put_fields (p : profile) (ns pkey : bytes) (fields : ValueMap) (vocab : VocabMirror)
    : VocabMirror * dyn_result PlannedFields :=
  let '((d, vocab_ops), r) :=
    put_all p (plan_id_for ns) (map (λ kv, (kv.1, value_to_dyn_value kv.2)) fields) [] (vocab, []) in
  match r with
  | Ok body =>
      match cursor_key (E := DynError) ns FIELD_VOCAB, fields_key (E := DynError) ns pkey with
      | Ok ck, Ok k =>
          let vocab_ops := match vm_written d with [] => vocab_ops | _ => vocab_ops ++ [(ck, Some (be_bytes 2 (vm_next_id d)))] end in
          (take_written d, Ok (mkPlannedFields (vocab_ops ++ [(k, match body with [] => None | _ => Some body end)]) (vm_written d)))
      | _, _ => (d, Panic)
      end
  | Err e => (d, Err (EngineText e))
  | Panic => (d, Panic)
  end.

Definition plan_delete_fields (ns pkey : bytes) : dyn_result PlannedFields :=
  k ← fields_key ns pkey; Ok (mkPlannedFields [(k, None)] []).

(** The frames whose names the mirror knows. *)
Definition keep_named (d : VocabMirror) (out : ValueMap) (f : DynamicField) : ValueMap :=
  match mirror_name_for d (field_id f) with Some n => btree_insert n (dyn_value_to_value (field_value f)) out | None => out end.

Definition fields_from_frames (p : profile) (capacity : Z) (raw : bytes) (vocab : VocabMirror) : dyn_result ValueMap :=
  match decode_named p capacity (λ i s, (s, mirror_name_for vocab i)) raw tt with
  | Ok (_, frames) => Ok (fold_left (keep_named vocab) frames [])
  | _ => Panic
  end.

(** * Two resolvers side by side *)

Section Simulate.
Context {R1 R2 : Type}.
Variables (p : profile) (resolve1 : bytes -> enc R1 Z) (resolve2 : bytes -> enc R2 Z).
Variables (Rel : R1 -> R2 -> Prop) (P : bytes -> Prop).

(** Runs from related states answer the same and end related. *)
Definition same {A} (m1 : enc R1 A) (m2 : enc R2 A) : Prop :=
  forall r1 r2, Rel r1 r2 -> exists r1' r2' x, m1 r1 = (r1', x) /\ m2 r2 = (r2', x) /\ Rel r1' r2'.

Hypothesis Hsim : forall k, P k -> same (resolve1 k) (resolve2 k).

Lemma same_bind {A B} (m1 : enc R1 A) m2 (f1 : A -> enc R1 B) f2 :
  same m1 m2 -> (forall a, same (f1 a) (f2 a)) -> same (m1 ≫= f1) (m2 ≫= f2).
Proof.
  intros Hm Hf r1 r2 H. destruct (Hm r1 r2 H) as (s1 & s2 & x & E1 & E2 & H'). unfold mbind, enc_bind. rewrite E1, E2.
  destruct x; [by apply Hf|by eexists _, _, _; split_and!..].
Qed.

Lemma same_ret {A} (a : A) : same (mret a) (mret a).
Proof. intros r1 r2 H. by exists r1, r2, (Ok a). Qed.

Lemma same_lift {A} (o : outcome unit A) : same (lift o) (lift o).
Proof. intros r1 r2 H. unfold lift. destruct o; eexists _, _, _; by split_and!. Qed.

Lemma same_fields m :
  Forall (λ kv, P kv.1) m -> Forall (λ kv, same (encode_value p resolve1 kv.2) (encode_value p resolve2 kv.2)) m ->
  forall buf, same (put_fields p resolve1 m buf) (put_fields p resolve2 m buf).
Proof using Hsim.
  intros HP HE. induction m as [|[k v] m IH]; intros buf; [apply same_ret|]. apply Forall_cons in HP as [Pk HP]. apply Forall_cons in HE as [Ev HE].
  cbn [put_fields]. apply same_bind; [by apply Hsim|]. intros i. apply same_bind; [done|]. intros [ty b].
  apply same_bind; [apply same_lift|]. intros buf'. by apply IH.
Qed.

Lemma same_elements items :
  Forall (λ x, same (encode_value p resolve1 x) (encode_value p resolve2 x)) items ->
  forall body, same (put_elements p resolve1 items body) (put_elements p resolve2 items body).
Proof.
  induction 1 as [|x items Hx _ IH]; intros body; [apply same_ret|]. cbn [put_elements].
  apply same_bind; [done|]. intros [ty b]. apply same_bind; [apply same_lift|]. intros body'. by apply IH.
Qed.

Lemma same_value capacity n : forall v, (height v <= n)%nat -> DynValue.value_ok capacity P v ->
  same (encode_value p resolve1 v) (encode_value p resolve2 v).
Proof using Hsim.
  induction n as [|n IH]; intros v Hh Hv; [by destruct v; simpl in Hh; lia|].
  destruct (DynValue.scalar v) eqn:Hs; [by destruct v; try done; apply same_ret|].
  destruct Hv as [| | | | | | |items Hcap Hi|m Hso HP Hm]; try done; cbn [height] in Hh; apply le_S_n in Hh.
  - rewrite !encode_array. apply same_bind; [apply same_lift|]. intros body. apply same_bind; [|intros body'; apply same_ret].
    apply same_elements. clear Hcap Hs. induction Hi as [|x items Hx Hi IHi]; [constructor|]. cbn [map] in Hh. apply list_max_cons in Hh as [Hx' Hh].
    constructor; [by apply IH|by apply IHi].
  - rewrite !encode_obj. apply same_bind; [|intros body; apply same_ret]. apply same_fields; [done|].
    clear Hs Hso HP. induction Hm as [|x m Hx Hm IHm]; [constructor|]. cbn [map] in Hh. apply list_max_cons in Hh as [Hx' Hh].
    constructor; [by apply IH|by apply IHm].
Qed.

(** The whole segment. *)
Lemma same_put_all capacity l : Forall (λ kv, P kv.1) l -> Forall (λ kv, DynValue.value_ok capacity P kv.2) l ->
  forall buf, same (put_all p resolve1 l buf) (put_all p resolve2 l buf).
Proof using Hsim.
  intros HP HV buf r1 r2 H. rewrite !put_all_fields. revert r1 r2 H. apply same_fields; [done|].
  eapply Forall_impl; [exact HV|]. intros kv Hkv. by apply (same_value capacity (height kv.2)).
Qed.
End Simulate.

(** * The mirror of a vocabulary *)

Record mirror_ok (d : VocabMirror) (ls : list bytes) : Prop := {
  mo_name n : vm_by_name d !! n = Z.of_nat <$> position n ls;
  mo_id i : 0 <= i -> vm_by_id d !! i = ls !! Z.to_nat i;
  mo_next : vm_next_id d = zlen ls
}.

Lemma mirror_default_ok : mirror_ok VocabMirror_default [].
Proof. split; [done|intros i _; by rewrite lookup_nil|done]. Qed.

Lemma position_app_other n ls x : n <> x -> position n (ls ++ [x]) = position n ls.
Proof.
  intros N. unfold position. induction ls as [|y ls IH]; simpl.
  - by rewrite decide_False by congruence.
  - destruct (decide (y = n)); [done|]. destruct (list_find (λ x0, x0 = n) (ls ++ [x])) as [[]|], (list_find (λ x0, x0 = n) ls) as [[]|]; simpl in *; congruence.
Qed.

(** Claiming a number for a name the vocabulary lacks. *)
Lemma mirror_claim d ls n w : mirror_ok d ls -> n ∉ ls -> NoDup ls ->
  mirror_ok (mkMirror (<[n := zlen ls]> (vm_by_name d)) (<[zlen ls := n]> (vm_by_id d)) (zlen ls + 1) w) (ls ++ [n]).
Proof.
  intros [Hn Hi Hx] N ND. split; cbn [vm_by_name vm_by_id vm_next_id].
  - intros x. destruct (decide (n = x)) as [<-|D].
    + rewrite lookup_insert_eq, (position_unique n (ls ++ [n]) (length ls)); [done| |by apply list_lookup_middle].
      apply NoDup_app. split; [done|]. split; [|apply NoDup_singleton]. by intros x Hxl ->%list_elem_of_singleton.
    + rewrite lookup_insert_ne, Hn by done. by rewrite position_app_other.
  - intros i Hi0. destruct (decide (zlen ls = i)) as [<-|D].
    + rewrite lookup_insert_eq. symmetry. replace (Z.to_nat (zlen ls)) with (length ls) by (unfold zlen; lia). by apply list_lookup_middle.
    + rewrite lookup_insert_ne, Hi by done. unfold zlen in D. destruct (Z.lt_ge_cases i (zlen ls)) as [L|L]; unfold zlen in L.
      * by rewrite lookup_app_l by lia.
      * rewrite !lookup_ge_None_2; [done| |lia]. rewrite length_app. simpl. lia.
  - rewrite zlen_app. done.
Qed.

(** * The plan beside the typed path *)

(** Names numbered from [i] on. *)
Fixpoint numbered_from (i : Z) (names : list bytes) : list (bytes * Z) :=
  match names with [] => [] | n :: names => (n, i) :: numbered_from (i + 1) names end.

Lemma numbered_from_snoc names n : forall i, numbered_from i (names ++ [n]) = numbered_from i names ++ [(n, i + zlen names)].
Proof.
  induction names as [|x names IH]; intros i; cbn [app numbered_from]; [by rewrite Z.add_0_r|]. rewrite IH, zlen_cons. do 4 f_equal. lia.
Qed.

(** What a plan under way lands: its writes, and the cursor when it claimed. *)
Definition landed (h : bytes) (m : gmap bytes bytes) (d : VocabMirror) (l : list EngineOp) : gmap bytes bytes :=
  match vm_written d with
  | [] => apply_batch m l
  | _ => <[curk h FIELD_VOCAB := be_bytes 2 (vm_next_id d)]> (apply_batch m l)
  end.

Section Plan.
Context {S : Type} `{ReliableStorage S}.
Variables (p : profile) (capacity : Z) (s : S) (h : bytes) (ls nms : list bytes).
Hypothesis (Hv : vocab_at 2 h FIELD_VOCAB (contents s) ls).
Hypothesis (Hnms : Forall (λ k, utf8_valid k = true) nms).
Hypothesis (Hroom : zlen ls + zlen nms < 2 ^ 16).

(** The typed writer's state and the plan's. *)
Definition beside (a : VocabCache * BatchStore S) (b : VocabMirror * list EngineOp) : Prop :=
  exists more, holds 2 h FIELD_VOCAB a.1 a.2 (ls ++ more) /\ bs_store a.2 = s /\ mirror_ok b.1 (ls ++ more) /\
    ls ++ more ⊆ ls ++ nms /\ vm_written b.1 = numbered_from (zlen ls) more /\ held a.2 = landed h (contents s) b.1 b.2 /\
    Forall (λ op : EngineOp, on_faces h FIELD_VOCAB op.1) b.2.

Lemma beside_step k : k ∈ nms -> same beside (field_id_for p h k) (plan_id_for h k).
Proof.
  intros Hk [c st] [d l] (more & Hh & Es & Hm & Sub & Ew & El & Fl). cbn [fst snd] in *. unfold field_id_for, plan_id_for.
  pose proof (proj2 (proj2 Hh)) as V. pose proof (at_nodup _ _ _ _ _ V) as ND. rewrite (mo_name _ _ Hm).
  destruct (position k (ls ++ more)) as [i|] eqn:P.
  - destruct (id_for_known (S := BatchStore S) p 2 h FIELD_VOCAB FIELD_VOCAB_ok ltac:(lia) c st (ls ++ more) k i Hh P) as (c' & E & Hh'). rewrite E.
    eexists _, _, _. do 2 (split; [reflexivity|]). by exists more.
  - pose proof (position_None _ _ P) as Nk. rewrite (mo_next _ _ Hm). unfold claim_id.
    assert (ls ++ more ++ [k] ⊆ ls ++ nms) as Sub'.
    { rewrite app_assoc. intros x [Hx| ->%list_elem_of_singleton]%elem_of_app; [by apply Sub|]. apply elem_of_app. by right. }
    assert (zlen ((ls ++ more) ++ [k]) < 2 ^ 16) as L.
    { rewrite <- app_assoc. apply (grown_room ls nms Hroom); [|done]. rewrite app_assoc. apply NoDup_app. split; [done|]. split; [|apply NoDup_singleton].
      by intros x Hx ->%list_elem_of_singleton. }
    rewrite zlen_app in L. change (zlen [k]) with 1 in L. rewrite (proj2 (Z.ltb_lt _ _)) by done.
    pose proof Hnms as Hu. rewrite Forall_forall in Hu.
    destruct (id_for_new (S := BatchStore S) p 2 h FIELD_VOCAB FIELD_VOCAB_ok ltac:(lia) c st (ls ++ more) k Hh P (Hu k Hk)) as (c' & st' & E & Hh' & Eh); [done|].
    rewrite E. rewrite !write_slot_ok by (unfold slot_ok, FIELD_VOCAB_ID_SLOT, FIELD_VOCAB_NAME_SLOT; lia).
    eexists _, _, _. do 2 (split; [reflexivity|]). exists (more ++ [k]). cbn [fst snd]. rewrite app_assoc.
    split; [done|]. split; [by rewrite (id_for_bs_store _ _ _ _ _ _ _ _ _ E)|]. split; [by apply mirror_claim|]. split; [by rewrite <- app_assoc|].
    split; [cbn [vm_written]; rewrite numbered_from_snoc, Ew, zlen_app; done|].
    split.
    2: { apply Forall_app. split; [done|]. repeat constructor; cbn [fst]; rewrite <- app_assoc; eexists; [by left|by right]. }
    rewrite Eh, El. unfold landed. cbn [vm_written vm_next_id]. rewrite (mo_next _ _ Hm).
    destruct (vm_written d ++ _) eqn:N; [by apply app_nil in N as []|]. clear N.
    rewrite apply_batch_app. unfold apply_batch at 3, apply_op. cbn [fold_left fst snd]. rewrite <- !app_assoc.
    change (h ++ slot_bytes FIELD_VOCAB_NAME_SLOT ++ k) with (namek h FIELD_VOCAB k).
    change (h ++ slot_bytes FIELD_VOCAB_ID_SLOT ++ be_bytes 2 (zlen (ls ++ more))) with (idk 2 h FIELD_VOCAB (zlen (ls ++ more))).
    rewrite (insert_insert_ne _ (namek _ _ _) (idk _ _ _ _)) by apply not_eq_sym, idk_namek, FIELD_VOCAB_ok.
    destruct (vm_written d); [done|].
    rewrite (insert_insert_ne _ (namek _ _ _) (curk _ _)) by apply not_eq_sym, curk_namek, FIELD_VOCAB_ok.
    rewrite (insert_insert_ne _ (idk _ _ _ _) (curk _ _)) by (apply idk_curk; lia). by rewrite insert_insert_eq.
Qed.
End Plan.

(** * Loading *)

(** What every step of a fold keeps, and what one element brings about. *)
Lemma fold_left_keeps {A B} (f : A -> B -> A) (I : A -> Prop) l : forall a,
  (forall a x, x ∈ l -> I a -> I (f a x)) -> I a -> I (fold_left f l a).
Proof.
  induction l as [|x l IH]; intros a Hf Ha; [done|]. apply IH; [|apply Hf; [left|done]]. intros a' y Hy. apply Hf. by right.
Qed.

Lemma fold_left_reaches {A B} (f : A -> B -> A) (Q : A -> Prop) l x :
  x ∈ l -> (forall a, Q (f a x)) -> (forall a y, Q a -> Q (f a y)) -> forall a, Q (fold_left f l a).
Proof.
  intros Hx Q1 Q2. induction Hx as [x l|x y l Hx IH]; intros a; cbn [fold_left]; [|by apply IH].
  apply fold_left_keeps; [intros; by apply Q2|done].
Qed.

Section Load.
Context {S : Type} `{ReliableStorage S}.
Variables (s : S) (h : bytes) (ls : list bytes).
Hypothesis (Hv : entries_at 2 h FIELD_VOCAB (contents s) ls).
Hypothesis (Hcur : contents s !! curk h FIELD_VOCAB = Some (be_bytes 2 (zlen ls)) \/ contents s !! curk h FIELD_VOCAB = None).
Hypothesis (Hids : long_keys (contents s) (h ++ slot_bytes FIELD_VOCAB_ID_SLOT)).
Hypothesis (Hnames : long_keys (contents s) (h ++ slot_bytes FIELD_VOCAB_NAME_SLOT)).
Hypothesis (Hh : bytes_ok h).

(** A mirror that knows nothing the vocabulary does not hold. *)
Record partial (d : VocabMirror) : Prop := {
  pa_id i n : vm_by_id d !! i = Some n -> 0 <= i /\ ls !! Z.to_nat i = Some n;
  pa_name n i : vm_by_name d !! n = Some i -> 0 <= i /\ ls !! Z.to_nat i = Some n;
  pa_next : 0 <= vm_next_id d <= zlen ls
}.

Lemma lookup_zlen i n : 0 <= i -> ls !! Z.to_nat i = Some n -> i < zlen ls.
Proof. intros Hi L%lookup_lt_Some. unfold zlen. lia. Qed.

Lemma stored_bytes k : is_Some (contents s !! k) -> bytes_ok k.
Proof using Hids. intros Hk. by apply Hids. Qed.

Lemma load_id_partial d kv : kv ∈ carried_pairs (contents s) (h ++ slot_bytes FIELD_VOCAB_ID_SLOT) -> partial d -> partial (load_id d kv).
Proof using Hv Hids.
  destruct kv as [t n]. rewrite elem_of_carried_pairs. intros Hk Hd. unfold load_id, from_be. cbn [fst snd].
  case_decide as Lt; [|done]. destruct (from_utf8 n) as [n'|] eqn:U; [|done]. unfold from_utf8 in U. destruct (utf8_valid n); [|done]. injection U as <-.
  pose proof (stored_bytes _ (ex_intro _ _ Hk)) as B. apply Forall_app in B as [_ B]. pose proof (be_val_bound t B) as V.
  unfold zlen in V. rewrite Lt in V. rewrite <- (be_bytes_be_val t B), Lt in Hk. rewrite <- app_assoc in Hk. fold (idk 2 h FIELD_VOCAB (be_val t)) in Hk.
  change (h ++ slot_bytes FIELD_VOCAB_ID_SLOT ++ be_bytes 2 (be_val t)) with (idk 2 h FIELD_VOCAB (be_val t)) in Hk.
  rewrite (at_id _ _ _ _ _ Hv) in Hk by done. destruct Hd as [P1 P2 P3]. split; cbn [vm_by_id vm_by_name vm_next_id]; [|done..].
  intros i x. rewrite lookup_insert_Some. intros [[<- <-]|[_ ?]]; [by split; [lia|]|by apply P1].
Qed.

Lemma adopt_partial d n i ids : 0 <= i -> ls !! Z.to_nat i = Some n ->
  (forall i n, ids !! i = Some n -> 0 <= i /\ ls !! Z.to_nat i = Some n) -> partial d -> partial (adopt_name d n i ids).
Proof using Hv.
  intros Hi L Hi' [P1 P2 P3]. pose proof (lookup_zlen _ _ Hi L). pose proof (at_size _ _ _ _ _ Hv) as Sz. change (256 ^ Z.of_nat 2) with (2 ^ 16) in Sz.
  split; cbn [adopt_name vm_by_id vm_by_name vm_next_id]; [done| |].
  - intros x j. rewrite lookup_insert_Some. intros [[<- <-]|[_ ?]]; [done|by apply P2].
  - destruct (vm_next_id d <=? i); unfold sat_succ; lia.
Qed.

(** A name's entry, read. *)
Lemma load_name_read t iv d : (t, iv) ∈ carried_pairs (contents s) (h ++ slot_bytes FIELD_VOCAB_NAME_SLOT) ->
  exists i, ls !! i = Some t /\ load_name d (t, iv) = adopt_name d t (Z.of_nat i) (vm_by_id d).
Proof using Hv.
  rewrite elem_of_carried_pairs, <- app_assoc. change (h ++ slot_bytes FIELD_VOCAB_NAME_SLOT ++ t) with (namek h FIELD_VOCAB t). intros Hk.
  destruct (position t ls) as [i|] eqn:P; [|apply position_None in P; rewrite (at_other _ _ _ _ _ Hv) in Hk by done; done].
  apply position_Some in P as L. exists i. split; [done|]. rewrite (at_name _ _ _ _ _ Hv i t L) in Hk. injection Hk as <-.
  unfold load_name, from_utf8. cbn [fst snd]. pose proof (at_utf8 _ _ _ _ _ Hv) as U. rewrite Forall_lookup in U. rewrite (U _ _ L).
  rewrite from_be_to_be; [done|]. apply lookup_lt_Some in L. pose proof (at_size _ _ _ _ _ Hv). unfold zlen in *. lia.
Qed.

Lemma load_name_partial d kv : kv ∈ carried_pairs (contents s) (h ++ slot_bytes FIELD_VOCAB_NAME_SLOT) -> partial d -> partial (load_name d kv).
Proof using Hv.
  destruct kv as [t iv]. intros Hk Hd. destruct (load_name_read t iv d Hk) as (i & L & ->). apply adopt_partial; [lia|by rewrite Nat2Z.id|apply Hd|done].
Qed.

(** A partial mirror that knows every number, every name and the watermark. *)
Lemma partial_full d : partial d ->
  (forall i n, ls !! i = Some n -> is_Some (vm_by_id d !! Z.of_nat i)) -> (forall i n, ls !! i = Some n -> is_Some (vm_by_name d !! n)) ->
  zlen ls <= vm_next_id d -> mirror_ok d ls.
Proof using Hv.
  intros [P1 P2 P3] Hi Hn Hx. split; [| |lia].
  - intros n. destruct (vm_by_name d !! n) as [i|] eqn:E.
    + apply P2 in E as [I0 L]. rewrite (position_unique _ _ _ (at_nodup _ _ _ _ _ Hv) L). simpl. f_equal. lia.
    + destruct (position n ls) as [i|] eqn:P; [|done]. apply position_Some in P. destruct (Hn _ _ P) as [? Ex]. by rewrite Ex in E.
  - intros i I0. destruct (vm_by_id d !! i) as [n|] eqn:E; [by apply P1 in E as [_ ->]|].
    destruct (ls !! Z.to_nat i) as [n|] eqn:L; [|done]. destruct (Hi _ _ L) as [? Ex]. rewrite Z2Nat.id in Ex by done. by rewrite Ex in E.
Qed.

Lemma load_id_reaches i n d : ls !! i = Some n ->
  is_Some (vm_by_id (fold_left load_id (carried_pairs (contents s) (h ++ slot_bytes FIELD_VOCAB_ID_SLOT)) d) !! Z.of_nat i).
Proof using Hv.
  intros L. pose proof (at_utf8 _ _ _ _ _ Hv) as U. rewrite Forall_lookup in U. pose proof (at_size _ _ _ _ _ Hv) as Sz.
  pose proof (lookup_lt_Some _ _ _ L) as Lt. unfold zlen in Sz.
  apply (fold_left_reaches _ (λ d, is_Some (vm_by_id d !! Z.of_nat i)) _ (be_bytes 2 (Z.of_nat i), n)).
  - rewrite elem_of_carried_pairs, <- app_assoc. change (contents s !! idk 2 h FIELD_VOCAB (Z.of_nat i) = Some n).
    rewrite (at_id _ _ _ _ _ Hv) by lia. by rewrite Nat2Z.id.
  - intros d'. unfold load_id, from_utf8. cbn [fst snd]. rewrite from_be_to_be, (U _ _ L) by lia. cbn [vm_by_id]. by rewrite lookup_insert_eq.
  - intros d' kv Hd. unfold load_id. repeat case_match; try done. cbn [vm_by_id]. apply lookup_insert_is_Some'. by right.
Qed.

Lemma load_name_reaches i n d : ls !! i = Some n ->
  let d' := fold_left load_name (carried_pairs (contents s) (h ++ slot_bytes FIELD_VOCAB_NAME_SLOT)) d in
  is_Some (vm_by_name d' !! n) /\ Z.of_nat i < vm_next_id d'.
Proof using Hv.
  intros L. pose proof (at_utf8 _ _ _ _ _ Hv) as U. rewrite Forall_lookup in U. pose proof (at_size _ _ _ _ _ Hv) as Sz. change (256 ^ Z.of_nat 2) with (2 ^ 16) in Sz.
  pose proof (lookup_lt_Some _ _ _ L) as Lt. unfold zlen in Sz.
  apply (fold_left_reaches _ (λ d', is_Some (vm_by_name d' !! n) /\ Z.of_nat i < vm_next_id d') _ (n, be_bytes 2 (Z.of_nat i))).
  - rewrite elem_of_carried_pairs, <- app_assoc. by apply (at_name _ _ _ _ _ Hv).
  - intros d'. unfold load_name, from_utf8. cbn [fst snd]. rewrite from_be_to_be, (U _ _ L) by (change (256 ^ Z.of_nat 2) with (2 ^ 16); lia).
    cbn [adopt_name vm_by_name vm_next_id]. rewrite lookup_insert_eq. split; [done|]. destruct (Z.leb_spec (vm_next_id d') (Z.of_nat i)); unfold sat_succ; lia.
  - intros d' kv [Hd Hx]. unfold load_name. destruct (from_utf8 _); [|done]. destruct (from_be _ _) as [j|]; [|done]. cbn [adopt_name vm_by_name vm_next_id].
    split; [apply lookup_insert_is_Some'; by right|]. destruct (Z.leb_spec (vm_next_id d') j); unfold sat_succ; lia.
Qed.

(** Loading answers the mirror of the stored vocabulary: each name under its
    number in both directions and the watermark behind the last one, whether the
    store has the allocation cursor or was written before there was one. *)
Theorem mirror_loads : exists d, VocabMirror_load s h = Ok d /\ mirror_ok d ls /\ vm_written d = [].
Proof using All.
  unfold VocabMirror_load. rewrite !write_slot_ok, cursor_key_ok by (first [apply FIELD_VOCAB_ok|unfold slot_ok, FIELD_VOCAB_ID_SLOT, FIELD_VOCAB_NAME_SLOT; lia]).
  cbn [mbind outcome_bind liftp].
  destruct (scans_carried s (h ++ slot_bytes FIELD_VOCAB_ID_SLOT)) as (_ & _ & ->); [| done|].
  { apply (curk_ok h FIELD_VOCAB FIELD_VOCAB_ok Hh). }
  cbn [mbind outcome_bind engine_text].
  destruct (scans_carried s (h ++ slot_bytes FIELD_VOCAB_NAME_SLOT)) as (_ & _ & ->); [|done|].
  { apply Forall_app. split; [done|]. apply (bool_decide_unpack _). by vm_compute. }
  cbn [mbind outcome_bind engine_text]. rewrite get_spec. cbn [mbind outcome_bind engine_text].
  set (d1 := fold_left load_id _ _). set (d2 := fold_left load_name _ _).
  assert (partial d2 /\ vm_written d2 = [] /\ forall i n, ls !! i = Some n -> is_Some (vm_by_id d2 !! Z.of_nat i)) as (Hp & Hw & Hi).
  { apply (fold_left_keeps load_name (λ d, partial d /\ vm_written d = [] /\ forall i n, ls !! i = Some n -> is_Some (vm_by_id d !! Z.of_nat i))).
    - intros d [t iv] Hk (Hp & Hw & Hi). split; [by apply load_name_partial|]. by destruct (load_name_read t iv d Hk) as (? & _ & ->).
    - split; [|split].
      + apply fold_left_keeps; [intros d kv Hk; by apply load_id_partial|]. split; [done..|]. cbn [VocabMirror_default vm_next_id]. pose proof (zlen_nonneg ls). lia.
      + apply fold_left_keeps; [|done]. intros d kv _ Hd. unfold load_id. repeat case_match; done.
      + intros i n L. by apply load_id_reaches with n. }
  assert (zlen ls <= vm_next_id d2) as Hx.
  { destruct (decide (ls = [])) as [->|N]; [apply Hp|]. destruct (last ls) as [n|] eqn:E; [|by apply last_None in E].
    rewrite last_lookup in E. destruct (load_name_reaches _ n d1 E) as [_ L]. fold d2 in L. unfold zlen. destruct ls; [done|simpl in *; lia]. }
  assert (mirror_ok d2 ls) as Hm by (apply partial_full; [done..|intros i n L; by apply (load_name_reaches i)|done]).
  destruct Hcur as [-> | ->]; [|by eexists]. cbn [mbind option_bind]. pose proof (at_size _ _ _ _ _ Hv). pose proof (zlen_nonneg ls).
  rewrite from_be_to_be by done. eexists. split; [done|]. split; [|done]. split; [apply Hm..|]. cbn [raise_next vm_next_id]. rewrite (mo_next _ _ Hm). lia.
Qed.
End Load.

(** * What a segment keeps of a value *)

(** Small unsigned integers come back as the widest. *)
Fixpoint widen (v : Value) : Value :=
  match v with
  | VU8 x | VU16 x | VU32 x => VU64 x
  | VObj m => VObj (map (λ kv, (kv.1, widen kv.2)) m)
  | VArray items => VArray (map widen items)
  | v => v
  end.

Section Storable.
Variables (capacity : Z) (P : bytes -> Prop).

(** The values a segment keeps: integers of their width, strings that are
    strings, arrays a reader can allocate, objects in key order. *)
#[warnings="-register-all"]
Inductive storable : Value -> Prop :=
| st_u8 x : 0 <= x < 2 ^ 8 -> storable (VU8 x)
| st_u16 x : 0 <= x < 2 ^ 16 -> storable (VU16 x)
| st_u32 x : 0 <= x < 2 ^ 32 -> storable (VU32 x)
| st_u64 x : 0 <= x < 2 ^ 64 -> storable (VU64 x)
| st_i64 x : - 2 ^ 63 <= x < 2 ^ 63 -> int_kept x -> storable (VI64 x)
| st_f64 x : 0 <= x < 2 ^ 64 -> storable (VF64 x)
| st_bool b : storable (VBool b)
| st_null : storable VNull
| st_bytes b : storable (VBytes b)
| st_str s : utf8_valid s = true -> storable (VStr s)
| st_obj m : StronglySorted bytes_lt (map fst m) -> Forall (λ kv, P kv.1) m -> Forall (λ kv, storable kv.2) m -> storable (VObj m)
| st_array items : zlen items <= capacity -> Forall storable items -> storable (VArray items).

Lemma storable_nested (A : Value -> Prop) :
  (forall v, storable v -> (forall m, v <> VObj m) -> (forall l, v <> VArray l) -> A v) ->
  (forall m, StronglySorted bytes_lt (map fst m) -> Forall (λ kv, P kv.1) m -> Forall (λ kv, A kv.2) m -> A (VObj m)) ->
  (forall items, zlen items <= capacity -> Forall A items -> A (VArray items)) ->
  forall v, storable v -> A v.
Proof.
  intros Hs Ho Ha. fix IH 2. intros v Hv.
  destruct Hv as [x Hx|x Hx|x Hx|x Hx|x Hx Hk|x Hx|b| |b|s0 Hs0|m Hm HP Hf|items Hc Hf]; try by (apply Hs; [by constructor|done..]).
  - apply Ho; [done..|]. clear Hm HP. induction Hf as [|kv m Hkv Hf IHm]; constructor; [by apply IH|exact IHm].
  - apply Ha; [done|]. clear Hc. induction Hf as [|x items Hx Hf IHi]; constructor; [by apply IH|exact IHi].
Qed.
End Storable.

(** A map rebuilt from sorted entries. *)
Lemma rebuilt {A B} (f : A -> B) (m : list (bytes * A)) : forall out,
  StronglySorted bytes_lt (map fst out ++ map fst m) ->
  fold_left (λ out kv, btree_insert kv.1 (f kv.2) out) m out = out ++ map (λ kv, (kv.1, f kv.2)) m.
Proof.
  induction m as [|[k x] m IH]; intros out Hs; cbn [fold_left map fst snd] in *; [by rewrite app_nil_r|].
  rewrite btree_insert_last.
  - rewrite IH; [by rewrite <- app_assoc|]. rewrite map_app. by rewrite <- app_assoc.
  - apply StronglySorted_app in Hs as (Hc & _ & _). apply Forall_forall. intros [k' y] Hin. apply Hc; [|by left].
    apply list_elem_of_fmap. by exists (k', y).
Qed.

Lemma storable_kept capacity P v : storable capacity P v ->
  DynValue.value_ok capacity P (value_to_dyn_value v) /\ dyn_value_to_value (value_to_dyn_value v) = widen v.
Proof.
  apply (storable_nested capacity P (λ v, DynValue.value_ok capacity P (value_to_dyn_value v) /\ dyn_value_to_value (value_to_dyn_value v) = widen v)); clear v.
  - intros v Hv No Na. destruct Hv; try (by destruct (No m)); try (by destruct (Na items)); (split; [constructor; try done; lia|done]).
  - intros m Hs HP Hf. cbn [value_to_dyn_value dyn_value_to_value widen]. rewrite rebuilt by done. cbn [app].
    assert (map fst (map (λ kv, (kv.1, value_to_dyn_value kv.2)) m) = map fst m) as E by (rewrite map_map; by apply map_ext). split.
    + constructor; [by rewrite E|by apply Forall_map|]. apply Forall_map. eapply Forall_impl; [exact Hf|]. by intros [k x] [? _].
    + rewrite rebuilt by (cbn [app map]; by rewrite E). f_equal. cbn [app]. rewrite map_map. clear Hs HP E. 
      induction Hf as [|[k x] m [_ Ex] Hf IH]; [done|]. cbn [map fst snd] in *. by rewrite Ex, IH.
  - intros items Hc Hf. cbn [value_to_dyn_value dyn_value_to_value widen]. split.
    + apply ok_array; [by unfold zlen; rewrite length_map|]. apply Forall_map. eapply Forall_impl; [exact Hf|]. by intros x [? _].
    + f_equal. rewrite map_map. clear Hc. induction Hf as [|x items [_ Ex] Hf IH]; [done|]. cbn [map]. by rewrite Ex, IH.
Qed.

(** * The theorems *)

(** A caller that holds the mirror adopts a plan's receipt. *)
Lemma adopt_ok more : forall d ls, mirror_ok d ls -> NoDup (ls ++ more) -> zlen (ls ++ more) < 2 ^ 16 ->
  mirror_ok (adopt_entries d (numbered_from (zlen ls) more)) (ls ++ more).
Proof.
  induction more as [|n more IH]; intros d ls Hm ND L; [by rewrite app_nil_r|].
  cbn [numbered_from adopt_entries fold_left fst snd]. rewrite cons_middle, app_assoc in *.
  assert (zlen (ls ++ [n]) = zlen ls + 1) as E by by rewrite zlen_app. rewrite <- E. apply IH; [|done..].
  assert (NoDup (ls ++ [n])) as ND' by (by apply NoDup_app in ND as [? _]).
  apply NoDup_app in ND' as (NDl & N & _). unfold adopt_name. rewrite (mo_next _ _ Hm), Z.leb_refl.
  unfold sat_succ. rewrite Z.min_l by (rewrite zlen_app, E in L; pose proof (zlen_nonneg more); lia).
  apply mirror_claim; [done|intros Hin; by apply (N n Hin), list_elem_of_singleton|done].
Qed.

(** The named frames as a map. *)
Lemma keep_named_all d ls fs (l : list (bytes * DynamicValue)) : mirror_ok d ls ->
  Forall2 (λ f (kv : bytes * DynamicValue), 0 <= field_id f < 2 ^ 16 /\ ls !! Z.to_nat (field_id f) = Some kv.1) fs l ->
  map field_value fs = map snd l ->
  forall out, fold_left (keep_named d) fs out = fold_left (λ out kv, btree_insert kv.1 (dyn_value_to_value kv.2) out) l out.
Proof.
  intros Hm F. induction F as [|f [k v] fs l [Hid Hk] F IH]; intros Ev out; [done|]. cbn [map fst snd] in *. injection Ev as Ev Evs.
  cbn [fold_left]. rewrite IH by done. f_equal. unfold keep_named, mirror_name_for. rewrite (mo_id _ _ Hm) by lia. by rewrite Hk, Ev.
Qed.

(** The cursor's write closes the vocabulary's part of a plan. *)
Lemma landed_ops h m d vops : landed h m d vops =
  apply_batch m (match vm_written d with [] => vops | _ => vops ++ [(curk h FIELD_VOCAB, Some (be_bytes 2 (vm_next_id d)))] end).
Proof. unfold landed. destruct (vm_written d); [done|]. by rewrite apply_batch_snoc. Qed.

Section Theorems.
Context {S : Type} `{ReliableStorage S}.
Variables (p : profile) (capacity : Z) (s : S) (ns : bytes) (ls nms : list bytes).
Hypothesis (Hv : vocab_at 2 ns FIELD_VOCAB (contents s) ls).
Hypothesis (Hnms : Forall (λ k, utf8_valid k = true) nms).
Hypothesis (Hroom : zlen ls + zlen nms < 2 ^ 16).

(** The plan and the typed writer run side by side. *)
Lemma put_all_beside d l : mirror_ok d ls -> vm_written d = [] ->
  Forall (λ kv, kv.1 ∈ nms) l -> Forall (λ kv, DynValue.value_ok capacity (λ k, k ∈ nms) kv.2) l ->
  exists a b x, put_all p (field_id_for p ns) l [] (VocabCache_new FIELD_VOCAB, mkBatchStore s Batch_default) = (a, x) /\
  put_all p (plan_id_for ns) l [] (d, []) = (b, x) /\ beside s ns ls nms a b.
Proof using Hv Hnms Hroom.
  intros Hm Hw HP Hok. apply (same_put_all p _ _ (beside s ns ls nms) (λ k, k ∈ nms) (beside_step p s ns ls nms Hnms Hroom) capacity); [done..|].
  exists []. cbn [fst snd]. rewrite app_nil_r. split; [split; [done|]; split; [apply cache_new_ok|done]|]. split; [done|].
  split; [done|]. split; [set_solver|]. split; [done|]. split; [unfold landed; by rewrite Hw|constructor].
Qed.

(** The plan of a map of storable values. *)
Lemma plan_written d pkey m :
  mirror_ok d ls -> vm_written d = [] ->
  StronglySorted bytes_lt (map fst m) -> Forall (λ kv, kv.1 ∈ nms) m -> Forall (λ kv, storable capacity (λ k, k ∈ nms) kv.2) m ->
  fold_right (λ kv n, weight (value_to_dyn_value kv.2) + 13 + n) 0 m < 2 ^ 49 ->
  exists b plan d' more vops body, let k := ns ++ slot_bytes DYNAMIC_SLOT ++ pkey in
  slot1_into p s Batch_default ns pkey (map (λ kv, (kv.1, value_to_dyn_value kv.2)) m) = (b, Ok tt) /\
  plan_put_fields p ns pkey m d = (d', Ok plan) /\
  apply_batch (contents s) (pf_ops plan) = apply_batch (contents s) (ops b) /\
  vocab_at 2 ns FIELD_VOCAB (apply_batch (contents s) (pf_ops plan)) (ls ++ more) /\
  pf_new_entries plan = numbered_from (zlen ls) more /\ mirror_ok d' (ls ++ more) /\ vm_written d' = [] /\
  pf_ops plan = vops ++ [(k, match m with [] => None | _ => Some body end)] /\ Forall (λ op : EngineOp, on_faces ns FIELD_VOCAB op.1) vops /\
  (m <> [] -> body <> []) /\
  forall d2 ls2, mirror_ok d2 ((ls ++ more) ++ ls2) -> fields_from_frames p capacity body d2 = Ok (map (λ kv, (kv.1, widen kv.2)) m).
Proof using Hv Hnms Hroom.
  intros Hm Hw Hs HP Hst Hwt. set (l := map (λ kv, (kv.1, value_to_dyn_value kv.2)) m).
  assert (Forall (λ kv, kv.1 ∈ nms) l) as HP' by by apply Forall_map.
  assert (Forall (λ kv, DynValue.value_ok capacity (λ k, k ∈ nms) kv.2) l) as Hok.
  { apply Forall_map. eapply Forall_impl; [exact Hst|]. intros [k v] Hkv. by apply storable_kept. }
  assert (fold_right (λ kv n, weight kv.2 + 13 + n) 0 l < 2 ^ 49) as Hwt' by (eapply Z.le_lt_trans; [|exact Hwt]; apply Z.eq_le_incl; unfold l; clear; induction m as [|kv m IH]; [done|]; cbn [map fold_right snd]; by rewrite IH).
  destruct (slot1_written p capacity s ns ls nms Hv Hnms Hroom pkey l HP' Hok Hwt') as (c & st & body & more & E & Ew & Es & V & Hne & D).
  destruct (put_all_beside d l Hm Hw HP' Hok) as ([c' st'] & [d' vops] & x & E1 & E2 & more' & Hh & _ & Hm' & Sub & Ewr & El & Fl).
  rewrite E in E1. injection E1 as <- <- <-. cbn [fst snd] in *.
  assert (more' = more) as -> by (by eapply app_inv_head, vocab_at_unique; [apply Hh|]).
  set (k := ns ++ slot_bytes DYNAMIC_SLOT ++ pkey) in *. set (op := (k, match body with [] => None | _ => Some body end) : EngineOp) in *.
  rewrite landed_ops in El. set (vops' := match vm_written d' with [] => vops | _ => _ end) in El.
  assert (apply_batch (contents s) (vops' ++ [op]) = apply_batch (contents s) (ops (bs_batch st) ++ [op])) as Eb.
  { rewrite !apply_batch_snoc, <- El. f_equal. change (apply_batch (contents (bs_store st)) (ops (bs_batch st)) = apply_batch (contents s) (ops (bs_batch st))). by rewrite Es. }
  exists (mkBatch (ops (bs_batch st) ++ [op])), (mkPlannedFields (vops' ++ [op]) (vm_written d')), (take_written d'), more, vops', body.
  assert (mirror_ok (take_written d') (ls ++ more)) as Hmt by (by split; apply Hm').
  cbn [pf_ops pf_new_entries ops] in *. split; [exact Ew|]. split; [unfold plan_put_fields; fold l; by rewrite E2, cursor_key_ok, fields_key_ok by apply FIELD_VOCAB_ok|].
  split; [exact Eb|]. split.
  { rewrite apply_batch_snoc, <- El. eapply entries_at_same; [|exact V]. intros x Hx. unfold apply_op, op. cbn [fst snd].
    assert (k <> x) as N by (intros <-; by apply (fields_key_apart ns pkey)). destruct body; [by rewrite lookup_delete_ne|by rewrite lookup_insert_ne]. }
  split; [exact Ewr|]. split; [exact Hmt|]. split; [done|]. split; [|split; [|split]].
  - unfold op. destruct m as [|kv m]; [unfold l in E; simpl in E; by injection E as _ _ <-|]. destruct body; [by destruct Hne|done].
  - unfold vops'. destruct (vm_written d'); [done|]. apply Forall_app. split; [done|]. constructor; [|done]. exists []. left. by rewrite app_nil_r.
  - intros N. apply Hne. unfold l. by destruct m.
  - intros d2 ls2 Hm2. destruct (D unit (λ i s, (s, mirror_name_for d2 i)) (λ _, True) tt) as ([] & fs & Ed & _ & Ev & F); [|done|].
    { intros i n [Hi Hn] u _. exists u. split; [|done]. unfold mirror_name_for. rewrite (mo_id _ _ Hm2) by done. by rewrite (lookup_app_l_Some _ _ _ _ Hn). }
    unfold fields_from_frames. rewrite Ed. f_equal. rewrite (keep_named_all _ ((ls ++ more) ++ ls2) fs l Hm2); [|eapply Forall2_impl; [exact F|]; intros f kv [? Hk]; split; [done|by apply lookup_app_l_Some]|done].
    unfold l. rewrite rebuilt; [|by rewrite map_map].
    cbn [app]. rewrite map_map. apply map_ext_in. intros [k' v] Hin%list_elem_of_In. cbn [fst snd]. f_equal.
    rewrite Forall_forall in Hst. by apply (storable_kept capacity (λ k, k ∈ nms)), (Hst (k', v)).
Qed.

(** C22: a planned segment is the typed path's.  From a mirror of the stored
    vocabulary, the plan of a map of storable values writes what [slot1_into]
    writes: both batches leave the same store.  The names it had to number follow
    the stored ones and are its receipt, the mirror it leaves is the mirror of the
    grown vocabulary, and so is any other mirror that adopts the receipt.  The
    planned segment, read with a mirror of the grown vocabulary or of any longer
    one, is the map with small unsigned integers widened; of an empty map the
    segment is removed. *)
Theorem plan_fields_agrees d d2 pkey m :
  mirror_ok d ls -> vm_written d = [] -> mirror_ok d2 ls ->
  StronglySorted bytes_lt (map fst m) -> Forall (λ kv, kv.1 ∈ nms) m -> Forall (λ kv, storable capacity (λ k, k ∈ nms) kv.2) m ->
  fold_right (λ kv n, weight (value_to_dyn_value kv.2) + 13 + n) 0 m < 2 ^ 49 ->
  exists b plan d' more body,
  slot1_into p s Batch_default ns pkey (map (λ kv, (kv.1, value_to_dyn_value kv.2)) m) = (b, Ok tt) /\
  plan_put_fields p ns pkey m d = (d', Ok plan) /\
  apply_batch (contents s) (pf_ops plan) = apply_batch (contents s) (ops b) /\
  vocab_at 2 ns FIELD_VOCAB (apply_batch (contents s) (pf_ops plan)) (ls ++ more) /\
  pf_new_entries plan = numbered_from (zlen ls) more /\ mirror_ok d' (ls ++ more) /\ vm_written d' = [] /\
  mirror_ok (adopt_entries d2 (pf_new_entries plan)) (ls ++ more) /\
  last (pf_ops plan) = Some (ns ++ slot_bytes DYNAMIC_SLOT ++ pkey, match m with [] => None | _ => Some body end) /\
  (m <> [] -> body <> []) /\
  forall d3 ls3, mirror_ok d3 ((ls ++ more) ++ ls3) -> fields_from_frames p capacity body d3 = Ok (map (λ kv, (kv.1, widen kv.2)) m).
Proof using Hv Hnms Hroom.
  intros Hm Hw Hm2 Hs HP Hst Hwt.
  destruct (plan_written d pkey m Hm Hw Hs HP Hst Hwt) as (b & plan & d' & more & vops & body & E1 & E2 & Eb & V & En & Hm' & Hw' & Eo & _ & Hne & Hr).
  exists b, plan, d', more, body. do 7 (split; [done|]). split.
  - rewrite En. apply adopt_ok; [done|exact (at_nodup _ _ _ _ _ V)|exact (at_size _ _ _ _ _ V)].
  - rewrite Eo. by rewrite last_snoc.
Qed.
End Theorems.

(** A refused plan keeps what it had claimed: two names on a mirror with one
    number left are refused, yet the first stays in the mirror, and a later plan
    that uses it writes a frame under a number the vocabulary's faces never get. *)
Lemma refused_plan_claims :
  let '(d, r) := plan_put_fields Debug [0; 7] [1] [([97], VBool true); ([98], VBool true)] (mkMirror ∅ ∅ 65534 []) in
  r = Err (EngineText (Engine mirror_exhausted)) /\ vm_by_name d !! [97] = Some 65534 /\
  exists body, snd (plan_put_fields Debug [0; 7] [2] [([97], VBool true)] d) =
    Ok (mkPlannedFields [(curk [0; 7] FIELD_VOCAB, Some [255; 255]); ([0; 7] ++ slot_bytes DYNAMIC_SLOT ++ [2], Some body)] [([97], 65534)]).
Proof. split; [by vm_compute|]. split; [by vm_compute|]. eexists. by vm_compute. Qed.

(** * Witness *)

(** [{"a": U8 7, "b": {"a": [Str "x", Null]}}], the vocabulary empty. *)
Definition sample_dynamic : ValueMap := [([97], VU8 7); ([98], VObj [([97], VArray [VStr [120]; VNull])])].

Lemma plan_fields_agrees_witness :
  exists b plan d' more body,
  slot1_into Debug (∅ : MemStore) Batch_default [0; 33] [7] (map (λ kv, (kv.1, value_to_dyn_value kv.2)) sample_dynamic) = (b, Ok tt) /\
  plan_put_fields Debug [0; 33] [7] sample_dynamic VocabMirror_default = (d', Ok plan) /\
  apply_batch (contents (∅ : MemStore)) (pf_ops plan) = apply_batch (contents (∅ : MemStore)) (ops b) /\
  vocab_at 2 [0; 33] FIELD_VOCAB (apply_batch (contents (∅ : MemStore)) (pf_ops plan)) ([] ++ more) /\
  pf_new_entries plan = numbered_from (zlen ([] : list bytes)) more /\ mirror_ok d' ([] ++ more) /\ vm_written d' = [] /\
  mirror_ok (adopt_entries VocabMirror_default (pf_new_entries plan)) ([] ++ more) /\
  last (pf_ops plan) = Some ([0; 33] ++ slot_bytes DYNAMIC_SLOT ++ [7], match sample_dynamic with [] => None | _ => Some body end) /\
  (sample_dynamic <> [] -> body <> []) /\ forall d3 ls3, mirror_ok d3 (([] ++ more) ++ ls3) -> fields_from_frames Debug 100 body d3 = Ok (map (λ kv, (kv.1, widen kv.2)) sample_dynamic).
Proof.
  apply (plan_fields_agrees Debug 100 (∅ : MemStore) [0; 33] [] [[97]; [98]]).
  - split; [split|right; done]; try done; try constructor.
  - by repeat constructor.
  - by vm_compute.
  - exact mirror_default_ok.
  - done.
  - exact mirror_default_ok.
  - by repeat constructor.
  - constructor; [set_solver|]. constructor; [set_solver|constructor].
  - repeat (constructor; try done; try set_solver; try lia).
  - by vm_compute.
Defined.

(** The vocabulary [a, b], as two allocations leave it. *)
Definition sample_vocab_map : gmap bytes bytes :=
  <[curk [0; 33] FIELD_VOCAB := be_bytes 2 2]> (<[idk 2 [0; 33] FIELD_VOCAB 1 := [98]]> (<[namek [0; 33] FIELD_VOCAB [98] := be_bytes 2 1]>
  (<[curk [0; 33] FIELD_VOCAB := be_bytes 2 1]> (<[idk 2 [0; 33] FIELD_VOCAB 0 := [97]]> (<[namek [0; 33] FIELD_VOCAB [97] := be_bytes 2 0]> ∅))))).

Lemma sample_vocab_at : vocab_at 2 [0; 33] FIELD_VOCAB sample_vocab_map [[97]; [98]].
Proof.
  apply (vocab_at_grow 2 [0; 33] FIELD_VOCAB FIELD_VOCAB_ok _ [[97]]); [lia| |by intros ?%list_elem_of_singleton|done|done].
  apply (vocab_at_grow 2 [0; 33] FIELD_VOCAB FIELD_VOCAB_ok _ []); [lia| |by intros ?%elem_of_nil|done|done].
  split; try done; constructor.
Qed.

Lemma mirror_loads_witness :
  exists d, VocabMirror_load (sample_vocab_map : MemStore) [0; 33] = Ok d /\ mirror_ok d [[97]; [98]] /\ vm_written d = [].
Proof.
  apply (mirror_loads (sample_vocab_map : MemStore) [0; 33]).
  - apply sample_vocab_at.
  - left. by vm_compute.
  - apply long_keys_check. by vm_compute.
  - apply long_keys_check. by vm_compute.
  - apply (bool_decide_unpack _). by vm_compute.
Defined.
