(* ===== verification/DynPaths.v ===== *)
(** * Path entries (okm-dynamic, [index.rs])

    What [path_index_entries] derives from a dynamic map: total, under the slots of
    the path indexes, closed by the key of the document, and the same from a map
    as from what its segment reads back as. *)
From S2P Require Import Prelude Errors Storage Slots Vocab VarInt DynValue Segment Fields Payload Keys Index Collection Changelog LogFrames Bridge Schema Dynamic Paths DynIndex DynFields.

(** ** Widening *)

Lemma btree_get_map {A B} (f : A -> B) n (m : list (bytes * A)) : btree_get n (map (λ kv, (kv.1, f kv.2)) m) = f <$> btree_get n m.
Proof. induction m as [|[k x] m IH]; [done|]. cbn [map btree_get fst snd]. by destruct (decide (k = n)). Qed.

Lemma flat_map_map {A B C} (f : A -> B) (g : B -> list C) l : flat_map g (map f l) = flat_map (λ x, g (f x)) l.
Proof. induction l as [|x l IH]; [done|]. cbn [map flat_map]. by rewrite IH. Qed.

Lemma map_flat_map {A B C} (f : B -> C) (g : A -> list B) l : map f (flat_map g l) = flat_map (λ x, map f (g x)) l.
Proof. induction l as [|x l IH]; [done|]. cbn [flat_map]. by rewrite map_app, IH. Qed.

(** A path resolves the same leaves, widened. *)
Lemma walk_widen v : forall comps, walk_value (widen v) comps = map widen (walk_value v comps).
Proof.
  induction v as [m IH|items IH|v Hs] using Value_nested; intros comps; rewrite ?Forall_forall in *.
  - cbn [widen]. destruct comps as [|c rest]; [done|]. rewrite !walk_obj. destruct (component_name c) as [n|]; [|done].
    cbn [mbind option_bind]. rewrite btree_get_map. destruct (btree_get n m) as [v|] eqn:E; [|done]. cbn [fmap option_fmap option_map].
    apply btree_get_In in E. exact (IH (n, v) E rest).
  - cbn [widen]. destruct (pinned_dec comps) as [(i & rest & ->)|N].
    + rewrite !walk_pinned, list_lookup_fmap. destruct (items !! Z.to_nat i) as [v|] eqn:E; [|done]. cbn [fmap option_fmap option_map].
      apply IH. by eapply list_elem_of_lookup_2.
    + rewrite !walk_each, flat_map_map, map_flat_map by done. assert (forall l, (forall x, x ∈ l -> x ∈ items) ->
        flat_map (λ x, walk_value (widen x) comps) l = flat_map (λ x, map widen (walk_value x comps)) l) as G.
      { induction l as [|x l IHl]; [done|]. intros Sub. cbn [flat_map]. rewrite IH, IHl; [done|intros y Hy; apply Sub; by right|apply Sub; by left]. }
      by apply G.
  - destruct comps; by destruct v.
Qed.

(** An index value reads a leaf and its widening alike. *)
Lemma index_value_widen ty v buf : match encode_index_value ty (widen v) buf, encode_index_value ty v buf with
  | Ok a, Ok b => a = b | Err _, Err _ => True | _, _ => False end.
Proof. destruct ty, v; cbn [widen]; try done; cbn [encode_index_value unsigned_of ok_or mbind outcome_bind narrowed]; repeat case_match; simplify_eq; done. Qed.

Lemma path_segments_widen ty l : path_segments ty (map widen l) = path_segments ty l.
Proof.
  induction l as [|v l IH]; [done|]. cbn [map path_segments]. rewrite IH. pose proof (index_value_widen ty v []) as W.
  destruct (encode_index_value ty (widen v) []), (encode_index_value ty v []); try done. by subst.
Qed.

Lemma path_segments_total ty l : exists segs, path_segments ty l = Ok segs.
Proof.
  induction l as [|v l (segs & IH)]; [by eexists|]. cbn [path_segments]. rewrite IH. cbn [mbind outcome_bind].
  destruct (encode_index_value ty v []) eqn:E; [by eexists..|]. exfalso. revert E.
  destruct ty, v; cbn [encode_index_value unsigned_of ok_or mbind outcome_bind narrowed]; repeat case_match; done.
Qed.

Definition widened (m : ValueMap) : ValueMap := map (λ kv, (kv.1, widen kv.2)) m.

Lemma widened_keys m : map fst (widened m) = map fst m.
Proof. unfold widened. rewrite map_map. by apply map_ext. Qed.

(** ** Entries *)

Definition by_path (am : AccessMethod) : bool := match am_kind am with ByPath _ _ => true | _ => false end.

Lemma segment_entries_ok ns slot segs kb value : slot_ok slot ->
  segment_entries ns slot segs kb value = Ok (map (λ seg, (ns ++ slot_bytes slot ++ seg ++ kb, value)) segs).
Proof.
  intros Hs. induction segs as [|seg segs IH]; [done|]. cbn [segment_entries map]. unfold am_entry_key. rewrite write_slot_ok by done.
  cbn [liftp mbind outcome_bind]. rewrite IH. cbn [mbind outcome_bind]. by rewrite <- app_assoc.
Qed.

Section Entries.
Variables (ns : bytes) (indexes : list AccessMethod).
Hypothesis Hslots : Forall (λ am, by_path am = true -> slot_ok (am_slot am)) indexes.

(** Under the slot of a path index. *)
Definition path_face (key : bytes) : Prop := exists am t, am ∈ indexes /\ by_path am = true /\ key = ns ++ slot_bytes (am_slot am) ++ t.

Lemma path_entries_total kb m : exists es, path_index_entries ns indexes kb m = Ok es /\
  Forall (λ e, e.2 = [] /\ path_face e.1 /\ exists am x, am ∈ indexes /\ by_path am = true /\ e.1 = ns ++ slot_bytes (am_slot am) ++ x ++ kb) es.
Proof using Hslots.
  unfold path_face. induction indexes as [|am l IH]; [by exists []|]. apply Forall_cons in Hslots as [Ha Hl]. destruct (IH Hl) as (es & E & F).
  assert (exists e, match am_kind am with ByPath path ty => segments ← path_segments ty (Path_resolve path m); segment_entries ns (am_slot am) segments kb []
    | _ => Ok [] end = Ok e /\ Forall (λ e, by_path am = true /\ e.2 = [] /\ exists x, e.1 = ns ++ slot_bytes (am_slot am) ++ x ++ kb) e) as (e & Ee & Fe).
  { unfold by_path in *. destruct (am_kind am) as [| | |path ty]; try by exists []. destruct (path_segments_total ty (Path_resolve path m)) as (segs & ->).
    cbn [mbind outcome_bind]. rewrite segment_entries_ok by auto. eexists. split; [done|]. apply Forall_map, Forall_forall. intros seg _. split; [done|].
    split; [done|]. by exists seg. }
  exists (e ++ es). cbn [path_index_entries]. rewrite Ee. cbn [mbind outcome_bind]. rewrite E. split; [done|]. apply Forall_app. split.
  - eapply Forall_impl; [exact Fe|]. intros e1 (B & E2 & x & E1). split; [done|]. split; [exists am, (x ++ kb); split; [by left|done]|].
    exists am, x. split; [by left|done].
  - eapply Forall_impl; [exact F|]. intros e1 (E2 & (am' & t & Hin & X) & am2 & x & Hin2 & Y). split; [done|].
    split; [exists am', t; split; [by right|done]|exists am2, x; split; [by right|done]].
Qed.

(** The entries of a map and of what its segment keeps are the same. *)
Lemma path_entries_widen kb m : path_index_entries ns indexes kb (widened m) = path_index_entries ns indexes kb m.
Proof using.
  clear Hslots. induction indexes as [|am l IH]; [done|]. cbn [path_index_entries]. rewrite IH. f_equal. destruct (am_kind am) as [| | |path ty]; try done.
  unfold Path_resolve. change (VObj (widened m)) with (widen (VObj m)). by rewrite walk_widen, path_segments_widen.
Qed.

Definition path_keys (kb : bytes) (m : ValueMap) : list bytes :=
  match path_index_entries ns indexes kb m with Ok es => map fst es | _ => [] end.

Lemma path_keys_faces kb m key : key ∈ path_keys kb m ->
  path_face key /\ exists am x, am ∈ indexes /\ by_path am = true /\ key = ns ++ slot_bytes (am_slot am) ++ x ++ kb.
Proof using Hslots.
  unfold path_keys. destruct (path_entries_total kb m) as (es & -> & F). intros (e & -> & Hin)%list_elem_of_fmap.
  rewrite Forall_forall in F. by destruct (F e Hin) as (_ & ? & ?).
Qed.

Lemma path_entries_nil kb : path_index_entries ns indexes kb [] = Ok [].
Proof using.
  clear Hslots. induction indexes as [|am l IH]; [done|]. cbn [path_index_entries]. destruct (am_kind am) as [| | |path ty]; try by rewrite IH.
  assert (Path_resolve path [] = []) as ->; [|by rewrite IH]. unfold Path_resolve. destruct path as [|comp rest]; [done|].
  rewrite walk_obj. by destruct (component_name comp).
Qed.

(** Without a path index there are none. *)
Lemma path_face_indexed key : existsb by_path indexes = false -> ~ path_face key.
Proof using.
  intros E (am & t & Hin & B & _). assert (existsb by_path indexes = true) as X by (apply existsb_exists; exists am; split; [by apply list_elem_of_In|done]).
  by rewrite E in X.
Qed.

(** Documents with keys of one length do not share an entry. *)
Lemma path_keys_owner kb kb' m m' key : length kb = length kb' -> key ∈ path_keys kb m -> key ∈ path_keys kb' m' -> kb = kb'.
Proof using Hslots.
  intros L (_ & am & x & Hin & Ba & ->)%path_keys_faces (_ & am' & x' & Hin' & Ba' & E)%path_keys_faces.
  rewrite Forall_forall in Hslots. apply app_inv_head in E. pose proof E as Es. apply slot_bytes_prefix_free in Es; [|by apply Hslots..].
  rewrite Es in E. apply app_inv_head in E. by apply app_inj_2 in E as [_ ?].
Qed.
End Entries.
