(* ===== verification/DynPlan.v ===== *)
(** * Planned writes of run-time collections (okm-dynamic, [reduce.rs], [plan.rs])

    A run-time collection is a schema, access methods and reduces beside a store.
    Its writes are planned without an engine: from the stored document and the
    accumulators a caller holds, [plan_put], [plan_delete], [plan_merge],
    [plan_replace] and [plan_purge] answer the writes as one list, with the
    receipts the caller adopts.  The host's reduce logic is a record of functions;
    the shipped presets are defined. *)
From S2P Require Import Prelude Errors Storage Slots Vocab VarInt DynValue Segment Fields Payload Keys Index Reduces Collection Bridge Schema Dynamic Paths DynIndex DynFields.

(** ** Reduces *)

(** [trait ReduceLogic]: accumulators are bytes, keys and documents maps. *)
Record ReduceLogicObj : Type := mkLogicObj {
  rl_seed : bytes;
  rl_fold : bytes -> ValueMap -> ValueMap -> dyn_result bytes;
  rl_unfold : bytes -> ValueMap -> ValueMap -> dyn_result bytes
}.

Record ReduceSpec : Type := mkSpec { rs_slot : Slot; rs_group_fields : list bytes; rs_logic : ReduceLogicObj }.

Section Groups.
Variable schema : CollectionSchema.

Definition named_in (fs : list Schema.FieldSchema) (n : bytes) : option Schema.FieldSchema :=
  find (λ f, bool_decide (f_name f = n)) fs.

(** The bytes of one group field: fixed-width kinds only. *)
Definition group_part (n : bytes) (ty : FieldType) (v : Value) : dyn_result bytes :=
  match ty, v with
  | TU8, VU8 x => Ok [x]
  | TU16, VU16 x => Ok (be_bytes 2 x)
  | TU32, VU32 x => Ok (be_bytes 4 x)
  | TU64, VU64 x => Ok (be_bytes 8 x)
  | TFixedBytes, VBytes b => Ok b
  | _, _ => Err (GroupKind n)
  end.

(** [BoundReduce::group_bytes]: a name of the key is read from the key. *)
Fixpoint group_loop (names : list bytes) (key document : ValueMap) (buf : bytes) : dyn_result bytes :=
  match names with
  | [] => Ok buf
  | n :: names =>
      let from_key := is_key_field schema n in
      f ← ok_or (GroupNotInSchema n) (named_in (if from_key then key_fields schema else hot_fields schema ++ cold_fields schema) n);
      v ← ok_or (GroupMissing n from_key) (btree_get n (if from_key then key else document));
      b ← group_part n (f_ty f) v;
      group_loop names key document (buf ++ b)
  end.

Definition spec_group_bytes (r : ReduceSpec) (key document : ValueMap) : dyn_result bytes :=
  group_loop (rs_group_fields r) key document [].

(** [BoundReduce::entry_key] *)
Definition spec_entry_key (r : ReduceSpec) (ns : bytes) (key document : ValueMap) : dyn_result bytes :=
  g ← spec_group_bytes r key document;
  buf ← liftp (write_slot ns (rs_slot r));
  Ok (buf ++ g).
End Groups.

Definition spec_reduce_get {S} `{VirtualStorage S} (store : S) (entry_key : bytes) : dyn_result (option bytes) :=
  engine_text (vs_get store entry_key).

Definition spec_scan_reduces {S} `{VirtualStorage S} (store : S) (ns : bytes) (slot : Slot) : dyn_result (list (bytes * bytes)) :=
  prefix ← liftp (write_slot ns slot);
  engine_text (scan_suffix_kv store prefix).

(** ** Presets *)

Inductive PresetKind : Type := PresetCount | PresetHighWater (field : bytes) | PresetLowWater (field : bytes).

Definition field_u64 (doc : ValueMap) (field : bytes) : dyn_result Z :=
  match btree_get field doc with
  | Some (VU64 v) => Ok v
  | Some other => Err (ReduceNotU64 field other)
  | None => Err (ReduceMissing field)
  end.

(** [try_into().unwrap_or([0u8; 8])] *)
Definition acc_u64 (acc : bytes) : Z := if decide (length acc = 8%nat) then be_val acc else 0.

Definition preset_fold (p : profile) (k : PresetKind) (acc : bytes) (document : ValueMap) : dyn_result bytes :=
  cur ← match k with
        | PresetCount => add_w p 64 (acc_u64 acc) 1
        | PresetHighWater f => v ← field_u64 document f; Ok (acc_u64 acc `max` v)
        | PresetLowWater f => v ← field_u64 document f; Ok (acc_u64 acc `min` v)
        end;
  Ok (be_bytes 8 cur).

Definition preset_unfold (k : PresetKind) (acc : bytes) : dyn_result bytes :=
  match k with
  | PresetCount => Ok (be_bytes 8 ((acc_u64 acc - 1) `max` 0))
  | PresetHighWater _ | PresetLowWater _ => Ok acc
  end.

Definition PresetLogic (p : profile) (k : PresetKind) : ReduceLogicObj := {|
  rl_seed := be_bytes 8 (match k with PresetLowWater _ => 2 ^ 64 - 1 | _ => 0 end);
  rl_fold acc _ document := preset_fold p k acc document;
  rl_unfold acc _ _ := preset_unfold k acc
|}.

(** ** The collection *)

Record DynamicCollection (S : Type) : Type := mkDynamic {
  dt_store : S;
  dt_schema : CollectionSchema;
  dt_ns : bytes;
  dt_indexes : list AccessMethod;
  dt_reduces : list ReduceSpec
}.
Arguments mkDynamic {S} _ _ _ _ _.
Arguments dt_store {S} _.
Arguments dt_schema {S} _.
Arguments dt_ns {S} _.
Arguments dt_indexes {S} _.
Arguments dt_reduces {S} _.

(** Slots of the methods, and of the reduces, are distinct and not zero. *)
Definition slots_declared (slots : list Slot) : bool := forallb (λ s, 0 <? s) slots && bool_decide (NoDup slots).

Definition with_reduces {E S} (p : profile) (store : S) (ns : Z) (schema : CollectionSchema) (indexes : list AccessMethod)
    (reduces : list ReduceSpec) : outcome E (DynamicCollection S) :=
  debug_assert p (slots_declared (map am_slot indexes));;
  debug_assert p (slots_declared (map rs_slot reduces));;
  Ok (mkDynamic store schema (be_bytes 2 ns) indexes reduces).

(** ** Plans *)

Record PlannedPut : Type := mkPlannedPut { pp_ops : list EngineOp; pp_new_accs : list (bytes * bytes) }.

Record PlannedWrite : Type := mkPlannedWrite {
  pw_ops : list EngineOp;
  pw_new_accs : list (bytes * bytes);
  pw_new_vocab_entries : list (bytes * Z)
}.

Definition PlannedWrite_default : PlannedWrite := mkPlannedWrite [] [] [].

Abbreviation AccOf := (bytes -> dyn_result (option bytes)).

(** The accumulators a plan has written itself come before the caller's. *)
Definition overlay_get (base : AccOf) (written : gmap bytes bytes) (ek : bytes) : dyn_result (option bytes) :=
  match written !! ek with Some v => Ok (Some v) | None => base ek end.

(** The stored document: row and segment. *)
Record Stored : Type := mkStored { st_row : option ValueMap; st_dynamic : option ValueMap }.

Section Plans.
Context {S : Type}.
Variables (p : profile) (dc : DynamicCollection S).
Abbreviation schema := (dt_schema dc).
Abbreviation ns := (dt_ns dc).

Definition check_key (pkey : bytes) : dyn_result unit :=
  if negb (zlen pkey =? key_len schema) then Err (KeyWidth (zlen pkey) (key_len schema)) else Ok tt.

Definition is_payload_field (n : bytes) : bool :=
  existsb (λ f, bool_decide (f_name f = n)) (hot_fields schema ++ cold_fields schema).

Definition is_declared (n : bytes) : bool := existsb (λ f, bool_decide (f_name f = n)) (all_fields schema).

Fixpoint check_declared (document : ValueMap) : dyn_result unit :=
  match document with
  | [] => Ok tt
  | (n, _) :: document => if negb (is_declared n) then Err (NotDeclared n) else check_declared document
  end.

Definition dyn_primary_key (pkey : bytes) : dyn_result bytes :=
  buf ← liftp (write_slot ns PRIMARY_SLOT); Ok (buf ++ pkey).

(** The loop of [plan_reduces]: a missing accumulator is seeded by a fold and
    ends the loop of an unfold. *)
Fixpoint reduces_loop (reds : list ReduceSpec) (base : AccOf) (key document : ValueMap) (add : bool)
    (plan : PlannedPut) (written : gmap bytes bytes) : dyn_result (PlannedPut * gmap bytes bytes) :=
  match reds with
  | [] => Ok (plan, written)
  | r :: reds =>
      ek ← spec_entry_key schema r ns key document;
      raw ← overlay_get base written ek;
      match raw, add with
      | None, false => Ok (plan, written)
      | _, _ =>
          let acc := default (rl_seed (rs_logic r)) raw in
          acc ← (if add then rl_fold (rs_logic r) acc key document else rl_unfold (rs_logic r) acc key document);
          reduces_loop reds base key document add
            (mkPlannedPut (pp_ops plan ++ [(ek, Some acc)]) (pp_new_accs plan ++ [(ek, acc)])) (<[ek := acc]> written)
      end
  end.

Definition plan_reduces (base : AccOf) (pkey : bytes) (document : ValueMap) (add : bool)
    (plan : PlannedPut) (written : gmap bytes bytes) : dyn_result (PlannedPut * gmap bytes bytes) :=
  key ← codec_text (Dynamic.decode_key p schema pkey);
  reduces_loop (dt_reduces dc) base key document add plan written.

Definition push_ops (plan : PlannedPut) (l : list EngineOp) : PlannedPut := mkPlannedPut (pp_ops plan ++ l) (pp_new_accs plan).

Definition plan_put (pkey : bytes) (document : ValueMap) (old : option ValueMap) (acc_of : AccOf) : dyn_result PlannedPut :=
  check_key pkey;;
  check_declared document;;
  '(plan, written) ←
    match old with
    | Some old_row =>
        old_entries ← DynIndex.index_entries schema ns (dt_indexes dc) pkey old_row;
        plan_reduces acc_of pkey old_row false (mkPlannedPut (map (λ e, (e.1, None)) old_entries) []) ∅
    | None => Ok (mkPlannedPut [] [], ∅)
    end;
  entries ← DynIndex.index_entries schema ns (dt_indexes dc) pkey document;
  payload ← codec_text (Dynamic.encode_payload p schema document);
  '(plan, _) ← plan_reduces acc_of pkey document true plan written;
  k ← dyn_primary_key pkey;
  Ok (push_ops plan ((k, Some payload) :: map (λ e, (e.1, Some e.2)) entries)).

Definition plan_delete (pkey : bytes) (old : ValueMap) (acc_of : AccOf) : dyn_result PlannedPut :=
  check_key pkey;;
  entries ← DynIndex.index_entries schema ns (dt_indexes dc) pkey old;
  '(plan, _) ← plan_reduces acc_of pkey old false (mkPlannedPut (map (λ e, (e.1, None)) entries) []) ∅;
  k ← dyn_primary_key pkey;
  Ok (push_ops plan [(k, None)]).

(** [split_names]: what the payload declares, and everything else. *)
Definition split_fields (object : ValueMap) : ValueMap * ValueMap :=
  (List.filter (λ kv, is_payload_field kv.1) object, List.filter (λ kv, negb (is_payload_field kv.1)) object).

(** The row a write starts from: the maps carried, the identity of the key, the
    schema's defaults. *)
Definition row_base (pkey : bytes) (carried : list ValueMap) : dyn_result ValueMap :=
  k ← codec_text (Dynamic.decode_key p schema pkey);
  Ok (fill_schema_defaults schema (extend (fold_left extend carried []) k)).

Definition has_path_index : bool := existsb (λ am, match am_kind am with ByPath _ _ => true | _ => false end) (dt_indexes dc).

Definition path_entry_ops (pkey : bytes) (fields : ValueMap) (write : bool) : dyn_result (list EngineOp) :=
  if negb has_path_index then Ok []
  else
    entries ← path_index_entries ns (dt_indexes dc) pkey fields;
    Ok (map (λ e, (e.1, if write then Some e.2 else None)) entries).

(** [plan_dynamic]: the mirror afterwards, refused or not. *)
Definition plan_dynamic (pkey : bytes) (old : option ValueMap) (new : ValueMap) (vocab : VocabMirror) (plan : PlannedWrite)
    : VocabMirror * dyn_result PlannedWrite :=
  let '(vocab, r) := plan_put_fields p ns pkey new vocab in
  (vocab,
   fields ← r;
   swept ← match old with Some old => path_entry_ops pkey old false | None => Ok [] end;
   written ← path_entry_ops pkey new true;
   Ok (mkPlannedWrite (pw_ops plan ++ pf_ops fields ++ swept ++ written) (pw_new_accs plan) (pf_new_entries fields))).

Definition row_plan (r : PlannedPut) : PlannedWrite := mkPlannedWrite (pp_ops r) (pp_new_accs r) [].

Definition plan_merge (pkey : bytes) (declared dynamic : ValueMap) (stored : Stored) (acc_of : AccOf) (vocab : VocabMirror)
    : VocabMirror * dyn_result PlannedWrite :=
  match (check_key pkey;;
         match declared with
         | [] => Ok PlannedWrite_default
         | _ =>
             row_map ← row_base pkey (option_list (st_row stored) ++ [declared]);
             row ← plan_put pkey row_map (st_row stored) acc_of;
             Ok (row_plan row)
         end) with
  | Ok plan =>
      match dynamic with
      | [] => (vocab, Ok plan)
      | _ => plan_dynamic pkey (st_dynamic stored) (extend (default [] (st_dynamic stored)) dynamic) vocab plan
      end
  | r => (vocab, r)
  end.

Definition plan_replace (pkey : bytes) (declared dynamic : ValueMap) (stored : Stored) (acc_of : AccOf) (vocab : VocabMirror)
    : VocabMirror * dyn_result PlannedWrite :=
  match (check_key pkey;;
         match declared with
         | [] =>
             match st_row stored with
             | Some old => row ← plan_delete pkey old acc_of; Ok (row_plan row)
             | None => Ok PlannedWrite_default
             end
         | _ =>
             row_map ← row_base pkey [declared];
             row ← plan_put pkey row_map (st_row stored) acc_of;
             Ok (row_plan row)
         end) with
  | Ok plan => plan_dynamic pkey (st_dynamic stored) dynamic vocab plan
  | r => (vocab, r)
  end.

Definition plan_purge (pkey : bytes) (old_row old_dynamic : option ValueMap) (acc_of : AccOf) : dyn_result PlannedWrite :=
  check_key pkey;;
  plan ← match old_row with
         | Some old => row ← plan_delete pkey old acc_of; Ok (row_plan row)
         | None => Ok PlannedWrite_default
         end;
  match old_dynamic with
  | Some old =>
      swept ← path_entry_ops pkey old false;
      k ← fields_key ns pkey;
      Ok (mkPlannedWrite (pw_ops plan ++ swept ++ [(k, None)]) (pw_new_accs plan) (pw_new_vocab_entries plan))
  | None => Ok plan
  end.
End Plans.

(** [decode_stored] *)
Definition decode_stored (p : profile) (schema : CollectionSchema) (payload : bytes) : dyn_result ValueMap :=
  codec_text (Dynamic.decode_payload p schema payload).
