(* ===== verification/DynTable.v ===== *)
(** * Run-time collections (okm-dynamic, [collection.rs])

    [DynamicCollection] over a storage: the whole-document verbs read the stored
    halves, plan the write and replay it in one commit; the scans route through the
    access methods; [ensure_layout], [faces_status] and [rebuild_faces] keep the
    faces the declaration names.  A verb answers the collection after it. *)
From S2P Require Import Prelude Errors Storage Slots Vocab VarInt DynValue Segment Fields Payload Keys Index Meta Reduces Collection Bridge Schema Dynamic Paths DynIndex DynFields DynPlan.

(** ** Face texts *)

(** [format!("{ty:?}")] *)
Definition show_type (t : FieldType) : bytes :=
  match t with
  | TU8 => ty_U8 | TU16 => ty_U16 | TU32 => ty_U32 | TU64 => ty_U64
  | TFixedBytes => ty_FixedBytes | TStr => ty_Str | TBytes => ty_Bytes | TVarInt => ty_VarInt
  | TQuant precision => ty_Quant ++ paren_open ++ show_Z precision ++ paren_close
  | TVocab id_face => ty_Vocab ++ paren_open ++ show_Z id_face ++ paren_close
  | TOffset base => ty_Offset ++ paren_open ++ show_Z base ++ paren_close
  | TUuid4 => ty_Uuid4 | TUuid7 => ty_Uuid7
  | TVector elem => ty_Vector ++ vector_open ++ [34] ++ elem ++ [34] ++ vector_close
  end.

(** A hexadecimal digit, in the case [format!] is asked for. *)
Definition face_digit (upper : bool) (d : Z) : Z := if d <? 10 then 48 + d else (if upper then 55 else 87) + d.
Definition hex2 (upper : bool) (b : Z) : bytes := [face_digit upper (b / 16); face_digit upper (b mod 16)].

Definition component_text (c : Component) : bytes :=
  path_sep ++
  match c with
  | CField n => text_field ++ n
  | CIndex i => text_index ++ show_Z i
  | CKey b => text_key ++ concat (map (hex2 false) b)
  end.

Definition face_spec_kind (am : AccessMethod) : bytes * bytes :=
  match am_kind am with
  | Plain => (face_plain, [])
  | Partial _ => (face_partial, [])
  | Func _ => (face_func, [])
  | ByPath path ty => (face_path, concat (map component_text path) ++ text_arrow ++ show_type ty)
  end.

(** [AccessMethod::face_spec] *)
Definition face_spec (am : AccessMethod) : bytes * bytes :=
  let '(name, text) := face_spec_kind am in
  (name, text ++ if am_version am =? 0 then [] else text_version ++ show_Z (am_version am)).

(** [format!("path:0x{:04X}", slot)] *)
Definition path_record_name (slot : Slot) : bytes := path_record ++ hex2 true (slot / 256) ++ hex2 true (slot mod 256).

(** [sort_by_key] on the slots, stable. *)
Fixpoint insert_method (am : AccessMethod) (l : list AccessMethod) : list AccessMethod :=
  match l with
  | [] => [am]
  | x :: l => if am_slot am <? am_slot x then am :: x :: l else x :: insert_method am l
  end.

Definition sorted_methods (l : list AccessMethod) : list AccessMethod := fold_left (λ out am, insert_method am out) l [].

Definition exported_face (schema : CollectionSchema) (am : AccessMethod) : option IndexSchema :=
  find (λ i, is_slot i =? am_slot am) (indexes schema).

(** One [FaceSpec]: the export's identifiers where it names the slot. *)
Definition spec_of (schema : CollectionSchema) (am : AccessMethod) : IndexDecl :=
  match exported_face schema am with
  | Some e => mkIndexDecl (is_name e) (am_slot am) (am_fields am) (am_includes am) (is_func e) (is_deprecated e)
  | None => mkIndexDecl (face_spec am).1 (am_slot am) (am_fields am) (am_includes am) (face_spec am).2 false
  end.

Definition computed_faces {S} (dc : DynamicCollection S) : bytes :=
  fingerprint (map (spec_of (dt_schema dc)) (sorted_methods (dt_indexes dc))).

Section Table.
Context {S : Type} `{VirtualStorage S}.
Variables (p : profile) (capacity : Z).
Implicit Types (dc : DynamicCollection S) (pkey : bytes).

Definition with_store dc (s : S) : DynamicCollection S := mkDynamic s (dt_schema dc) (dt_ns dc) (dt_indexes dc) (dt_reduces dc).

(** ** Stamps *)

Definition dyn_meta dc : dyn_result (option TableMeta) := engine_text (meta_read p (dt_store dc) (dt_ns dc)).

(** The path faces' record beside the stamp, and whether it changed. *)
Fixpoint record_paths (methods : list AccessMethod) (m : TableMeta) (changed : bool) : TableMeta * bool :=
  match methods with
  | [] => (m, changed)
  | am :: methods =>
      match am_kind am with
      | ByPath _ _ =>
          let text := (face_spec am).2 in
          let name := path_record_name (am_slot am) in
          if bool_decide (m !! name = Some text) then record_paths methods m changed
          else record_paths methods (meta_set m name text) true
      | _ => record_paths methods m changed
      end
  end.

Definition dyn_ensure_layout dc : DynamicCollection S * dyn_result TableMeta :=
  let '(s, r) := meta_ensure p (dt_store dc) (dt_ns dc) (s_layout_version (dt_schema dc)) (Some (computed_faces dc)) in
  match r with
  | Ok m =>
      let '(m, changed) := record_paths (dt_indexes dc) m false in
      if (changed : bool) then
        let '(s, r) := meta_write p s (dt_ns dc) m in (with_store dc s, engine_text r;; Ok m)
      else (with_store dc s, Ok m)
  | r => (with_store dc s, engine_text r)
  end.

Definition dyn_faces_status dc : dyn_result FaceStatus :=
  m ← dyn_meta dc;
  Ok (match m with Some m => face_status m (computed_faces dc) | None => Unknown (computed_faces dc) end).

Definition dyn_set_meta dc (name value : bytes) : DynamicCollection S * dyn_result TableMeta :=
  match dyn_ensure_layout dc with
  | (dc, Ok m) =>
      let m := meta_set (meta_set m name value) VERSION [s_layout_version (dt_schema dc)] in
      let '(s, r) := meta_write p (dt_store dc) (dt_ns dc) m in (with_store dc s, engine_text r;; Ok m)
  | (dc, r) => (dc, r)
  end.

(** ** Declarations at run time *)

Definition declare_index dc (am : AccessMethod) : DynamicCollection S * dyn_result unit :=
  if (am_slot am =? 0) || existsb (λ i, am_slot i =? am_slot am) (dt_indexes dc) then (dc, Err (SlotTaken (am_slot am)))
  else (mkDynamic (dt_store dc) (dt_schema dc) (dt_ns dc) (dt_indexes dc ++ [am]) (dt_reduces dc), Ok tt).

Definition declare_reduce dc (r : ReduceSpec) : DynamicCollection S * dyn_result unit :=
  if (rs_slot r =? 0) || existsb (λ i, rs_slot i =? rs_slot r) (dt_reduces dc) then (dc, Err (ReduceSlotTaken (rs_slot r)))
  else (mkDynamic (dt_store dc) (dt_schema dc) (dt_ns dc) (dt_indexes dc) (dt_reduces dc ++ [r]), Ok tt).

Definition dyn_reduce_entry_key dc (group_values : ValueMap) : dyn_result bytes :=
  r ← ok_or NoReduce (head (dt_reduces dc));
  spec_entry_key (dt_schema dc) r (dt_ns dc) group_values group_values.

(** ** Reading *)

Definition stored_document dc pkey : dyn_result (option ValueMap) :=
  check_key dc pkey;;
  k ← dyn_primary_key dc pkey;
  raw ← engine_text (vs_get (dt_store dc) k);
  match raw with
  | None => Ok None
  | Some payload =>
      values ← codec_text (Dynamic.decode_payload p (dt_schema dc) payload);
      values ← engine_text (resolve_vocab_labels (dt_schema dc) (dt_store dc) (dt_ns dc) values);
      Ok (Some values)
  end.

Definition dynamic_map dc pkey : dyn_result (option ValueMap) :=
  k ← fields_key (dt_ns dc) pkey;
  raw ← engine_text (vs_get (dt_store dc) k);
  match raw with
  | None => Ok None
  | Some raw =>
      vocab ← VocabMirror_load (dt_store dc) (dt_ns dc);
      m ← fields_from_frames p capacity raw vocab;
      Ok (Some m)
  end.

Definition dyn_fetch dc pkey : dyn_result (option ValueMap) :=
  row ← stored_document dc pkey;
  dynamic ← dynamic_map dc pkey;
  match row, dynamic with
  | None, None => Ok None
  | _, _ => Ok (Some (match dynamic with Some fields => extend (default [] row) fields | None => default [] row end))
  end.

(** ** Scans *)

Definition method_at dc (slot : Slot) : dyn_result AccessMethod :=
  ok_or (NoMethod slot) (find (λ i, am_slot i =? slot) (dt_indexes dc)).

Definition dyn_scan dc (slot : Slot) (encoded_prefix : bytes) : dyn_result (list ValueMap) :=
  am ← method_at dc slot; scan_access_method (dt_schema dc) p (dt_store dc) (dt_ns dc) am encoded_prefix.

Definition dyn_scan_exact dc (slot : Slot) (encoded_prefix : bytes) : dyn_result (list ValueMap) :=
  am ← method_at dc slot; scan_access_method_exact (dt_schema dc) p (dt_store dc) (dt_ns dc) am encoded_prefix.

Definition dyn_scan_covered dc (slot : Slot) (encoded_prefix : bytes) : dyn_result (list (ValueMap * ValueMap)) :=
  am ← method_at dc slot; scan_access_method_covered (dt_schema dc) p (dt_store dc) (dt_ns dc) am encoded_prefix.

(** The merge of the two sorted lists of keys. *)
Fixpoint merge_keys (fuel : nat) (rows segs : list bytes) : list bytes :=
  match fuel with
  | O => []
  | Datatypes.S fuel =>
      match rows, segs with
      | [], [] => []
      | [], s :: segs => s :: merge_keys fuel [] segs
      | r :: rows, [] => r :: merge_keys fuel rows []
      | r :: rows, s :: segs' =>
          match lex_compare r s with
          | Gt => s :: merge_keys fuel (r :: rows) segs'
          | _ => r :: merge_keys fuel rows (if bool_decide (s = r) then segs' else segs)
          end
      end
  end.

Definition dyn_document_keys dc : dyn_result (list bytes) :=
  rows ← liftp (write_slot (dt_ns dc) PRIMARY_SLOT);
  segs ← liftp (write_slot (dt_ns dc) DYNAMIC_SLOT);
  rows ← engine_text (vs_scan_suffix (dt_store dc) rows);
  segs ← engine_text (vs_scan_suffix (dt_store dc) segs);
  Ok (merge_keys (length rows + length segs) rows segs).

(** ** Whole-document verbs *)

Definition ops_batch (l : list EngineOp) : Batch :=
  fold_left (λ b op, match op.2 with Some v => Batch_put b op.1 v | None => Batch_del b op.1 end) l Batch_default.

(** [self.replay(&plan.ops)] *)
Definition dyn_replay dc (l : list EngineOp) : DynamicCollection S * dyn_result unit :=
  match l with
  | [] => (dc, Ok tt)
  | _ =>
      let '(s, r) := vs_commit_batch (dt_store dc) (ops_batch l) in
      (with_store dc s, match r with Ok _ => Ok tt | Err e => Err (WriteFailed e) | Panic => Panic end)
  end.

(** A plan replayed, or its refusal answered. *)
Definition run_plan dc (r : dyn_result PlannedWrite) : DynamicCollection S * dyn_result unit :=
  match r with
  | Ok plan => dyn_replay dc (pw_ops plan)
  | Err e => (dc, Err e)
  | Panic => (dc, Panic)
  end.

Definition stored_acc dc : AccOf := λ ek, engine_text (vs_get (dt_store dc) ek).

Definition plan_of_merge dc pkey (object : ValueMap) : dyn_result PlannedWrite :=
  let '(declared, dynamic) := split_fields dc object in
  old_row ← match declared with [] => Ok None | _ => stored_document dc pkey end;
  old_dynamic ← match dynamic with [] => Ok None | _ => dynamic_map dc pkey end;
  vocab ← match dynamic with [] => Ok VocabMirror_default | _ => VocabMirror_load (dt_store dc) (dt_ns dc) end;
  (plan_merge p dc pkey declared dynamic (mkStored old_row old_dynamic) (stored_acc dc) vocab).2.

Definition dyn_merge dc pkey (object : ValueMap) : DynamicCollection S * dyn_result unit := run_plan dc (plan_of_merge dc pkey object).

Definition plan_of_replace dc pkey (object : ValueMap) : dyn_result PlannedWrite :=
  old_row ← stored_document dc pkey;
  old_dynamic ← (if has_path_index dc then dynamic_map dc pkey else Ok None);
  let '(declared, dynamic) := split_fields dc object in
  vocab ← match dynamic, old_dynamic with
          | [], None => Ok VocabMirror_default
          | _, _ => VocabMirror_load (dt_store dc) (dt_ns dc)
          end;
  (plan_replace p dc pkey declared dynamic (mkStored old_row old_dynamic) (stored_acc dc) vocab).2.

Definition dyn_replace dc pkey (object : ValueMap) : DynamicCollection S * dyn_result unit := run_plan dc (plan_of_replace dc pkey object).

Definition dyn_purge dc pkey : DynamicCollection S * dyn_result bool :=
  match (old_row ← stored_document dc pkey;
         old_dynamic ← dynamic_map dc pkey;
         match old_row, old_dynamic with
         | None, None => Ok None
         | _, _ => plan ← plan_purge p dc pkey old_row old_dynamic (stored_acc dc); Ok (Some plan)
         end) with
  | Ok None => (dc, Ok false)
  | Ok (Some plan) => let '(dc, r) := dyn_replay dc (pw_ops plan) in (dc, r;; Ok true)
  | Err e => (dc, Err e)
  | Panic => (dc, Panic)
  end.

(** ** Rebuilding the faces *)

(** The loops run over the state of [Collection]'s rebuild, the errors as texts. *)
Definition denc (A : Type) : Type := Rebuild (S := S) -> Rebuild (S := S) * dyn_result A.

#[local] Instance denc_ret : MRet denc := λ A a s, (s, Ok a).
#[local] Instance denc_bind : MBind denc := λ A B f m s,
  match m s with (s, Ok a) => f a s | (s, Err e) => (s, Err e) | (s, Panic) => (s, Panic) end.

Definition texted {A} (m : enc (Rebuild (S := S)) A) : denc A := λ s, let '(s, r) := m s in (s, engine_text r).
Definition asked {A} (f : Rebuild (S := S) -> dyn_result A) : denc A := λ s, (s, f s).

Fixpoint dyn_sweep (ns : bytes) (chunk : Z) (methods : list AccessMethod) : denc unit :=
  match methods with
  | [] => mret tt
  | am :: methods =>
      prefix ← asked (λ _, liftp (write_slot ns (am_slot am)));
      items ← asked (λ s, Ok (vs_scan_range_iter (rb_store s) prefix (prefix_end prefix)));
      texted (sweep_items chunk items);;
      texted (rb_stage (λ b, b) count_swept);;
      dyn_sweep ns chunk methods
  end.

(** The entries of one visited document. *)
Definition visit_entries dc (slot : Slot) pkey (document : ValueMap) : dyn_result (list (bytes * bytes)) :=
  entries ← (if slot =? PRIMARY_SLOT then DynIndex.index_entries (dt_schema dc) (dt_ns dc) (dt_indexes dc) pkey document else Ok []);
  paths ← path_index_entries (dt_ns dc) (dt_indexes dc) pkey document;
  Ok (entries ++ paths).

Fixpoint dyn_derive_items dc (chunk : Z) (slot : Slot) (n : Z) (items : list pair_item) : denc unit :=
  match items with
  | [] => mret tt
  | item :: items =>
      kv ← asked (λ _, engine_text item);
      pkey ← asked (λ _, or_panic (slice kv.1 n (zlen kv.1)));
      document ← asked (λ s, dyn_fetch (with_store dc (rb_store s)) pkey);
      match document with
      | None => dyn_derive_items dc chunk slot n items
      | Some document =>
          entries ← asked (λ _, visit_entries dc slot pkey document);
          texted (rb_stage (λ b, fold_left (λ b e, Batch_put b e.1 e.2) entries b) (count_document (zlen entries)));;
          texted (rb_full chunk);;
          dyn_derive_items dc chunk slot n items
      end
  end.

Fixpoint dyn_derive dc (chunk : Z) (slots : list Slot) : denc unit :=
  match slots with
  | [] => mret tt
  | slot :: slots =>
      prefix ← asked (λ _, liftp (write_slot (dt_ns dc) slot));
      items ← asked (λ s, Ok (vs_scan_range_iter (rb_store s) prefix (prefix_end prefix)));
      dyn_derive_items dc chunk slot (zlen prefix) items;;
      dyn_derive dc chunk slots
  end.

Definition dyn_rebuild_body dc (chunk : Z) : denc unit :=
  dyn_sweep (dt_ns dc) chunk (dt_indexes dc);;
  texted rb_flush;;
  dyn_derive dc chunk [PRIMARY_SLOT; DYNAMIC_SLOT];;
  texted rb_flush.

Definition dyn_rebuild_faces dc (chunk : Z) : DynamicCollection S * dyn_result RebuildReport :=
  match dyn_rebuild_body dc (chunk `max` 1) (mkRebuild (dt_store dc) Batch_default (mkReport 0 0 0 0 0)) with
  | (s, Ok _) =>
      let '(st, r) := stamp_faces p (rb_store s) (dt_ns dc) (s_layout_version (dt_schema dc)) (computed_faces dc) in
      (with_store dc st, engine_text r;; Ok (rb_report s))
  | (s, Err e) => (with_store dc (rb_store s), Err e)
  | (s, Panic) => (with_store dc (rb_store s), Panic)
  end.
End Table.
