(* ===== verification/DynRows.v ===== *)
(** * The row half of run-time writes (okm-dynamic, [plan.rs])

    [twin] is what a run-time collection owes the declared documents whose bytes it
    shares: keys decode, a map that shows a row produces the row's entries and
    payload, a stored payload shows its row, and every reduce folds as the declared
    one.  Proved here: under a twin, [plan_put] and [plan_delete] plan the insertion
    and the deletion of the table of [Table], accumulators included. *)
From S2P Require Import Prelude Errors Storage Slots Vocab VarInt DynValue Segment Fields Payload Keys Index Meta Reduces Collection Declared Table Bridge Schema Dynamic Paths DynIndex DynFields DynPlan DynTable.

(** ** Maps *)

Lemma elem_of_btree_insert {V} (k : bytes) (v : V) m x : x ∈ map fst (btree_insert k v m) -> x = k \/ x ∈ map fst m.
Proof.
  induction m as [|[k' v'] m IH]; cbn [btree_insert map fst].
  - intros ?%list_elem_of_singleton. by left.
  - destruct (lex_compare k k'); cbn [map fst]; intros [->|H]%elem_of_cons; set_solver.
Qed.

Lemma btree_insert_sorted {V} (k : bytes) (v : V) m :
  StronglySorted bytes_lt (map fst m) -> StronglySorted bytes_lt (map fst (btree_insert k v m)).
Proof.
  induction m as [|[k' v'] m IH]; cbn [btree_insert map fst]; intros Hs; [by repeat constructor|].
  apply StronglySorted_inv in Hs as [Hs Hf]. destruct (lex_compare k k') eqn:E; cbn [map fst].
  - apply lex_compare_eq in E as ->. by constructor.
  - constructor; [by constructor|]. constructor; [done|]. eapply Forall_impl; [exact Hf|]. intros x Hx. by eapply bytes_lt_trans.
  - constructor; [by apply IH|]. apply Forall_forall. intros x Hx. apply elem_of_btree_insert in Hx as [->|Hx].
    + unfold bytes_lt. by rewrite lex_compare_antisym, E.
    + rewrite Forall_forall in Hf. by apply Hf.
Qed.

Lemma extend_keys {V} (new m : list (bytes * V)) x : x ∈ map fst (extend m new) -> x ∈ map fst new \/ x ∈ map fst m.
Proof.
  unfold extend. revert m. induction new as [|[k v] new IH]; intros m Hx; [by right|]. cbn [fold_left fst snd map] in *.
  apply IH in Hx as [Hx|[->|Hx]%elem_of_btree_insert]; set_solver.
Qed.

Lemma extend_sorted {V} (new m : list (bytes * V)) :
  StronglySorted bytes_lt (map fst m) -> StronglySorted bytes_lt (map fst (extend m new)).
Proof.
  unfold extend. revert m. induction new as [|kv new IH]; intros m Hm; [done|]. cbn [fold_left]. by apply IH, btree_insert_sorted.
Qed.

Lemma btree_get_is_Some {V} (m : list (bytes * V)) n : is_Some (btree_get n m) -> n ∈ map fst m.
Proof. intros [v E%btree_get_In]. apply list_elem_of_fmap. by exists (n, v). Qed.

Lemma btree_get_None {V} (m : list (bytes * V)) n : n ∉ map fst m -> btree_get n m = None.
Proof. intros N. destruct (btree_get n m) eqn:E; [|done]. destruct N. apply btree_get_is_Some. by eexists. Qed.

(** Writes of a batch read as an overlay and as deletions. *)
Lemma apply_puts (es : list (bytes * bytes)) : forall c, apply_batch c (map (λ e, (e.1, Some e.2)) es) = overlay c es.
Proof. induction es as [|e es IH]; intros c; [done|]. exact (IH _). Qed.

Lemma apply_other (l : list EngineOp) : forall (c : gmap bytes bytes) k, k ∉ map fst l -> apply_batch c l !! k = c !! k.
Proof.
  induction l as [|[k' v] l IH]; intros c k N; [done|]. cbn [map fst] in N. apply not_elem_of_cons in N as [Nk N].
  change (apply_batch (apply_op c (k', v)) l !! k = c !! k). rewrite IH by done. unfold apply_op. cbn [fst snd].
  destruct v; [by rewrite lookup_insert_ne|by rewrite lookup_delete_ne].
Qed.

Section Twin.
Context {K R : Type} `{HK : KeyEncode K} `{HL : !KeyLaws K} `{HD : !Document K R} `{HDL : !DocumentLaws K R} {S : Type}.
Variables (p : profile) (dc : DynamicCollection S) (img : R -> bytes -> option Value).

Abbreviation h := (header (K := K) (R := R)).
Abbreviation reds := (doc_reds (K := K) (R := R)).
Abbreviation sch := (dt_schema dc).
Implicit Types (k : K) (r : R) (M : gmap bytes (K * R)) (kb : bytes) (m : ValueMap) (c : gmap bytes bytes).

(** ** The interface *)

(** The map shows the row: every name of the payload has the row's value. *)
Definition shows r m : Prop := forall n, is_payload_field dc n = true -> btree_get n m = img r n.

Definition owned m : Prop := Forall (λ kv, is_declared dc kv.1 = true) m.

(** A run-time reduce folds, byte for byte up to decoding, as the declared one. *)
Record reduce_twin (rs : ReduceSpec) (lr : LawfulReduce K R) : Prop := {
  rt_slot : rs_slot rs = red_slot (lr_reduce lr);
  rt_group k kb km r m g : id_ok k -> encode k = Ok kb -> doc_ok (K := K) r -> shows r m ->
    Dynamic.decode_key p sch kb = Ok km -> Reduces.group_bytes (lr_reduce lr) k r = Ok g -> spec_group_bytes sch rs km m = Ok g;
  rt_seed : decode_acc (Reduces.codec (Reduces.logic (lr_reduce lr))) (rl_seed (rs_logic rs)) = Ok (acc_default (Reduces.codec (Reduces.logic (lr_reduce lr))));
  rt_fold k r g km m b acc acc' : doc_ok (K := K) r -> shows r m -> decode_acc (Reduces.codec (Reduces.logic (lr_reduce lr))) b = Ok acc ->
    lr_J lr g acc -> Reduces.fold (Reduces.logic (lr_reduce lr)) acc k r = Ok acc' ->
    exists b', rl_fold (rs_logic rs) b km m = Ok b' /\ decode_acc (Reduces.codec (Reduces.logic (lr_reduce lr))) b' = Ok acc';
  rt_unfold k r g km m b acc acc' : doc_ok (K := K) r -> shows r m -> decode_acc (Reduces.codec (Reduces.logic (lr_reduce lr))) b = Ok acc ->
    lr_J lr ((k, r) :: g) acc -> Reduces.unfold (Reduces.logic (lr_reduce lr)) acc k r = Ok acc' ->
    exists b', rl_unfold (rs_logic rs) b km m = Ok b' /\ decode_acc (Reduces.codec (Reduces.logic (lr_reduce lr))) b' = Ok acc'
}.

(** A path index of its own slot. *)
Definition path_slot (am : AccessMethod) : Prop :=
  match am_kind am with
  | ByPath _ _ => slot_ok (am_slot am) /\ 0x1000 <= am_slot am /\ (am_slot am ∉ live_faces K R) /\
      (Forall (λ lr, red_slot (lr_reduce lr) <> am_slot am) reds)
  | _ => True
  end.

Record twin : Prop := {
  tw_ns : dt_ns dc = h;
  tw_key k kb : id_ok k -> encode k = Ok kb -> zlen kb = key_len sch /\
    exists km, Dynamic.decode_key p sch kb = Ok km /\ StronglySorted bytes_lt (map fst km) /\ owned km /\
    Forall (λ kv, is_payload_field dc kv.1 = false) km;
  tw_entries k kb r m : id_ok k -> encode k = Ok kb -> doc_ok (K := K) r -> shows r m ->
    exists es, Collection.index_entries k r h = Ok es /\ DynIndex.index_entries sch h (dt_indexes dc) kb m = Ok es;
  tw_encode r m : doc_ok (K := K) r -> shows r m -> Dynamic.encode_payload p sch m = Ok (payload_b (K := K) r);
  tw_decode r : doc_ok (K := K) r -> zlen (payload_b (K := K) r) < 2 ^ 63 ->
    exists m, Dynamic.decode_payload p sch (payload_b (K := K) r) = Ok m /\ shows r m /\
    StronglySorted bytes_lt (map fst m) /\ Forall (λ kv, is_payload_field dc kv.1 = true) m;
  tw_labels {T} `{VirtualStorage T} (s : T) m : resolve_vocab_labels sch s h m = Ok m;
  tw_reduces : Forall2 reduce_twin (dt_reduces dc) reds;
  tw_paths : Forall path_slot (dt_indexes dc)
}.

Lemma payload_declared n : is_payload_field dc n = true -> is_declared dc n = true.
Proof.
  unfold is_payload_field, is_declared, all_fields. rewrite !existsb_exists. intros (f & Hf & E). exists f. split; [|done].
  apply in_app_iff. by right.
Qed.

Lemma check_owned m : owned m -> check_declared dc m = Ok tt.
Proof. induction 1 as [|[n v] m Hn _ IH]; [done|]. cbn [check_declared]. cbn [fst] in Hn. by rewrite Hn. Qed.

(** ** Reduces *)

(** The caller's accumulators are the store's. *)
Definition answers (acc_of : AccOf) c : Prop := forall ek, red_keys h reds ek -> acc_of ek = Ok (c !! ek).

(** What a plan under way reads of an accumulator is what its writes leave. *)
Definition overlays c (plan : PlannedPut) (written : gmap bytes bytes) : Prop :=
  forall ek, red_keys h reds ek -> (match written !! ek with Some v => Some v | None => c !! ek end) = apply_batch c (pp_ops plan) !! ek.

Lemma loop_twin base k kb r km m add l c : answers base c -> id_ok k -> encode k = Ok kb -> doc_ok (K := K) r -> shows r m ->
  Dynamic.decode_key p sch kb = Ok km -> dt_ns dc = h ->
  forall rss lrs, Forall2 reduce_twin rss lrs -> slots_apart lrs -> (forall lr, lr ∈ lrs -> lr ∈ reds) -> has_room lrs k r (after add (k, r) l) ->
  forall plan written, overlays c plan written -> tracked (apply_batch c (pp_ops plan)) h (before add (k, r) l) lrs ->
  exists plan' written' more, reduces_loop dc rss base km m add plan written = Ok (plan', written') /\
  pp_ops plan' = pp_ops plan ++ more /\ Forall (λ op : EngineOp, red_keys h lrs op.1) more /\ overlays c plan' written' /\
  tracked (apply_batch c (pp_ops plan')) h (after add (k, r) l) lrs.
Proof.
  intros Ans Hk Ek Hr Hs Ekm Ens rss lrs F. induction F as [|rs lr rss lrs Tw F IH]; intros [ND Sl] Sub Room plan written Ov T.
  { exists plan, written, []. rewrite app_nil_r. split_and!; try done; constructor. }
  cbn [map] in ND. apply NoDup_cons in ND as [Nin ND]. apply Forall_cons in Sl as [Hsl Sl]. apply Forall_cons in T as [A T].
  apply Forall_cons in Room as [(g & Hg & Hroom) Room]. set (ek := acc_key h (lr_reduce lr) g).
  destruct (acc_step _ lr k r h l g add A Hg Hroom) as (acc & acc' & D & HJ & Hn & Ef & _ & A'). fold ek in D, Hn, A'.
  assert (red_keys h reds ek) as Hred by (exists lr, g; split; [apply Sub; by left|done]).
  assert (exists b', (if add then rl_fold (rs_logic rs) (default (rl_seed (rs_logic rs)) (apply_batch c (pp_ops plan) !! ek)) km m
     else rl_unfold (rs_logic rs) (default (rl_seed (rs_logic rs)) (apply_batch c (pp_ops plan) !! ek)) km m) = Ok b' /\
    decode_acc (Reduces.codec (Reduces.logic (lr_reduce lr))) b' = Ok acc') as (b' & Eb & Db).
  { assert (decode_acc (Reduces.codec (Reduces.logic (lr_reduce lr))) (default (rl_seed (rs_logic rs)) (apply_batch c (pp_ops plan) !! ek)) = Ok acc) as D'.
    { destruct (apply_batch c (pp_ops plan) !! ek); [exact D|]. cbn [default]. rewrite (rt_seed _ _ Tw). exact D. }
    destruct add; [by eapply rt_fold|]. cbn [before] in HJ. rewrite group_cons in HJ.
    rewrite (proj2 (in_group_true _ _ (k, r)) Hg) in HJ. by eapply rt_unfold. }
  set (plan1 := mkPlannedPut (pp_ops plan ++ [(ek, Some b')]) (pp_new_accs plan ++ [(ek, b')])).
  assert (apply_batch c (pp_ops plan1) = <[ek := b']> (apply_batch c (pp_ops plan))) as E1 by (cbn [pp_ops plan1]; by rewrite apply_batch_snoc).
  destruct (IH (conj ND Sl)) with (plan := plan1) (written := <[ek := b']> written) as (plan' & written' & more & E & Eo & Fo & Ov' & T').
  { intros lr' Hin. apply Sub. by right. }
  { done. }
  { intros ek' Hek. rewrite E1. destruct (decide (ek = ek')) as [<-|N]; [by rewrite !lookup_insert_eq|]. rewrite !lookup_insert_ne by done. by apply Ov. }
  { rewrite E1. apply (tracked_frame (apply_batch c (pp_ops plan))); [|done]. intros lr' g' Hin. apply lookup_insert_ne. apply not_eq_sym, acc_key_apart; [|done|].
    - rewrite Forall_forall in Sl. by apply Sl.
    - intros Es. apply Nin. rewrite <- Es. apply list_elem_of_fmap. by exists lr'. }
  exists plan', written', ((ek, Some b') :: more). split_and!.
  - cbn [reduces_loop]. unfold spec_entry_key. rewrite (rt_group _ _ Tw k kb km r m g) by done. cbn [mbind outcome_bind liftp].
    rewrite (rt_slot _ _ Tw), Ens, write_slot_ok by done. cbn [mbind outcome_bind liftp]. rewrite <- app_assoc. fold (acc_key h (lr_reduce lr) g). fold ek.
    unfold overlay_get. pose proof (Ov ek Hred) as O. destruct (written !! ek) as [v|] eqn:Ew; cbn [mbind outcome_bind].
    + rewrite <- O in Eb. cbn [default] in *. unfold id in *. destruct add; rewrite Eb; exact E.
    + rewrite (Ans ek Hred), O. cbn [mbind outcome_bind]. destruct (apply_batch c (pp_ops plan) !! ek) as [v|] eqn:El; cbn [default] in *.
      * unfold id in *. destruct add; rewrite Eb; exact E.
      * rewrite (Hn eq_refl) in *. rewrite Eb. exact E.
  - rewrite Eo. cbn [pp_ops plan1]. by rewrite <- app_assoc.
  - constructor; [exists lr, g; split; [by left|done]|]. eapply Forall_impl; [exact Fo|]. intros op (lr' & g' & Hin & ->). exists lr', g'. split; [by right|done].
  - done.
  - constructor; [|done]. apply (accs_at_frame (<[ek := b']> (apply_batch c (pp_ops plan)))); [|by apply A']. intros g'. rewrite <- E1, Eo, apply_batch_app.
    apply apply_other. intros ((k0 & v0) & E0 & Hin)%list_elem_of_fmap. rewrite Forall_forall in Fo. destruct (Fo _ Hin) as (lr' & g2 & Hin' & E2).
    cbn [fst] in *. rewrite E2 in E0. rewrite Forall_forall in Sl. apply (acc_key_apart h _ _ g' g2) in E0; [done|done|by apply Sl|].
    intros Es. apply Nin. rewrite Es. apply list_elem_of_fmap. by exists lr'.
Qed.
(** ** Rows *)

(** The stored row of a plan is the table's. *)
Definition old_shown M kb (old : option ValueMap) : Prop :=
  match old_of M kb, old with Some r, Some m => shows r m | None, None => True | _, _ => False end.

(** One pass of the reduces over a plan. *)
Lemma reduces_twin acc_of k kb r m add l c plan written : twin -> answers acc_of c -> id_ok k -> encode k = Ok kb -> doc_ok (K := K) r ->
  shows r m -> has_room reds k r (after add (k, r) l) -> overlays c plan written ->
  tracked (apply_batch c (pp_ops plan)) h (before add (k, r) l) reds ->
  exists plan' written' more, plan_reduces p dc acc_of kb m add plan written = Ok (plan', written') /\
  pp_ops plan' = pp_ops plan ++ more /\ Forall (λ op : EngineOp, red_keys h reds op.1) more /\ overlays c plan' written' /\
  tracked (apply_batch c (pp_ops plan')) h (after add (k, r) l) reds.
Proof.
  intros Tw Ans Hk Ek Hr Hs Room Ov T. destruct (tw_key Tw k kb Hk Ek) as (_ & km & Ekm & _).
  unfold plan_reduces. rewrite Ekm. cbn [codec_text mbind outcome_bind].
  apply (loop_twin acc_of k kb r km m add l c); try done; [apply Tw..|apply doc_reds_apart].
Qed.

Lemma check_key_ok k kb : twin -> id_ok k -> encode k = Ok kb -> check_key dc kb = Ok tt.
Proof. intros Tw Hk Ek. destruct (tw_key Tw k kb Hk Ek) as [E _]. unfold check_key. by rewrite E, Z.eqb_refl. Qed.

Lemma primary_twin kb : twin -> dyn_primary_key dc kb = Ok (Table.pkey (K := K) (R := R) kb).
Proof.
  intros Tw. unfold dyn_primary_key. rewrite (tw_ns Tw), write_slot_ok by apply PRIMARY_ok.
  cbn [liftp mbind outcome_bind]. by rewrite <- app_assoc.
Qed.

(** Writes to reduce keys do not show elsewhere. *)
Lemma red_writes c more key : Forall (λ op : EngineOp, red_keys h reds op.1) more -> ~ red_keys h reds key -> apply_batch c more !! key = c !! key.
Proof.
  intros F N. apply apply_other. intros (op & -> & Hin)%list_elem_of_fmap. rewrite Forall_forall in F. by apply N, F.
Qed.

(** The unfold half of a put: the deletions of the old entries, then the old row's accumulators. *)
Lemma unfold_twin acc_of c M k kb old : twin -> table_at c M -> id_ok k -> encode k = Ok kb -> purge_room M kb k ->
  old_shown M kb old -> answers acc_of c ->
  exists plan written more,
  match old with
  | Some old_row =>
      old_entries ← DynIndex.index_entries sch (dt_ns dc) (dt_indexes dc) kb old_row;
      plan_reduces p dc acc_of kb old_row false (mkPlannedPut (map (λ e, (e.1, None)) old_entries) []) ∅
  | None => Ok (mkPlannedPut [] [], ∅)
  end = Ok (plan, written) /\
  pp_ops plan = map (λ key, (key, None)) (old_keys k (old_of M kb)) ++ more /\ Forall (λ op : EngineOp, red_keys h reds op.1) more /\
  overlays c plan written /\ tracked (apply_batch c (pp_ops plan)) h (rows_of (delete kb M)) reds.
Proof.
  intros Tw T Hk Ek Room Ho Ans. pose proof (rows_without _ _ _ _ T Hk Ek) as P. unfold old_shown in Ho. unfold purge_room in Room.
  destruct (M !! kb) as [kr|] eqn:E.
  - destruct (old_row_key _ _ _ _ _ T Hk Ek E) as [Ekr Eo]. rewrite Eo in *. destruct old as [m|]; [|done].
    pose proof (ta_rows _ _ T kb kr E) as Hf. destruct (row_entries kb kr Hf) as (es & Ee & Pe). destruct Hf as (_ & _ & Hr).
    destruct (tw_entries Tw k kb kr.2 m) as (es' & Ee1 & Ee2); [done..|]. rewrite Ekr in Ee. cbn [fst snd] in Ee.
    rewrite Ee in Ee1. injection Ee1 as <-. rewrite (tw_ns Tw), Ee2. cbn [mbind outcome_bind].
    destruct (reduces_twin acc_of k kb kr.2 m false (rows_of (delete kb M)) c (mkPlannedPut (map (λ e, (e.1, None)) es) []) ∅)
      as (plan & written & more & E1 & E2 & F & Ov & T'); try done.
    { intros ek Hek. rewrite lookup_empty. symmetry. cbn [pp_ops]. apply apply_other. rewrite map_map.
      intros (e & -> & Hin)%list_elem_of_fmap. cbn [fst] in Hek. apply (red_not_face e.1); [|done]. apply Pe, list_elem_of_fmap. by exists e. }
    { cbn [pp_ops before]. apply (tracked_outside c); [|eapply tracked_perm; [exact P|apply T]]. intros ek Hek.
      apply apply_other. rewrite map_map. intros (e & -> & Hin)%list_elem_of_fmap. cbn [fst] in Hek.
      apply (red_not_face e.1); [|done]. apply Pe, list_elem_of_fmap. by exists e. }
    exists plan, written, more. split_and!; try done. rewrite E2. cbn [old_keys pp_ops]. rewrite Ee, map_map. done.
  - unfold old_of in *. rewrite E in *. cbn [fmap option_fmap option_map] in *. destruct old; [done|].
    exists (mkPlannedPut [] []), ∅, []. split_and!; try done. rewrite P. apply T.
Qed.
Lemma lookup_deleted (l : list bytes) c key : apply_batch c (map (λ x, (x, None)) l) !! key = if decide (key ∈ l) then None else c !! key.
Proof.
  revert c. induction l as [|x l IH]; intros c; [by rewrite decide_False by apply not_elem_of_nil|]. cbn [map].
  change (apply_batch (delete x c) (map (λ x, (x, None)) l) !! key = if decide (key ∈ x :: l) then None else c !! key). rewrite IH.
  destruct (decide (key ∈ l)); [by rewrite decide_True by (by right)|]. destruct (decide (key = x)) as [->|N].
  - by rewrite decide_True, lookup_delete_eq by (by left).
  - by rewrite decide_False, lookup_delete_ne by (rewrite ?elem_of_cons; naive_solver).
Qed.

Lemma touches_red kb key : red_keys h reds key -> touches (K := K) (R := R) kb key.
Proof. unfold touches. tauto. Qed.

Lemma reds_touch kb more : Forall (λ op : EngineOp, red_keys h reds op.1) more -> Forall (λ op : EngineOp, touches (K := K) (R := R) kb op.1) more.
Proof. intros F. eapply Forall_impl; [exact F|]. intros op. apply touches_red. Qed.

Lemma old_keys_faces c M k kb key : table_at c M -> id_ok k -> encode k = Ok kb -> key ∈ old_keys k (old_of M kb) ->
  face_key (K := K) (R := R) key.
Proof.
  intros T Hk Ek Hin. destruct (M !! kb) as [kr|] eqn:E; [|unfold old_of in Hin; rewrite E in Hin; by apply elem_of_nil in Hin].
  destruct (old_row_key _ _ _ _ _ T Hk Ek E) as [Ekr Eo]. destruct (row_entries kb kr (ta_rows _ _ T _ _ E)) as (es & Ee & P).
  rewrite Ekr in Ee. cbn [fst snd] in Ee. rewrite Eo in Hin. cbn [old_keys] in Hin. rewrite Ee in Hin. by apply P in Hin as [? _].
Qed.

(** A planned put is the insertion of the row. *)
Lemma plan_put_twin acc_of c M k kb r m old : twin -> table_at c M -> row_fits kb (k, r) -> save_room M kb k r ->
  shows r m -> owned m -> old_shown M kb old -> answers acc_of c ->
  exists plan, plan_put p dc kb m old acc_of = Ok plan /\ table_at (apply_batch c (pp_ops plan)) (<[kb := (k, r)]> M) /\
  Forall (λ op : EngineOp, touches (K := K) (R := R) kb op.1) (pp_ops plan).
Proof.
  intros Tw T Hf [Room1 Room2] Hs Hown Ho Ans. pose proof Hf as (Hk & Ek & Hr). cbn [fst snd] in Hk, Ek, Hr.
  destruct (unfold_twin acc_of c M k kb old Tw T Hk Ek Room1 Ho Ans) as (plan & written & more & E1 & O1 & F1 & Ov1 & T1).
  destruct (tw_entries Tw k kb r m Hk Ek Hr Hs) as (es & Ee & Ed).
  destruct (reduces_twin acc_of k kb r m true (rows_of (delete kb M)) c plan written) as (plan2 & written2 & more2 & E2 & O2 & F2 & _ & T2); try done.
  set (key := Table.pkey (K := K) (R := R) kb). set (last := (key, Some (payload_b (K := K) r)) :: map (λ e : bytes * bytes, (e.1, Some e.2)) es).
  exists (push_ops plan2 last). split_and!.
  - unfold plan_put. rewrite (check_key_ok k kb Tw Hk Ek), (check_owned m Hown). cbn [mbind outcome_bind]. rewrite E1. cbn [mbind outcome_bind].
    rewrite (tw_ns Tw), Ed, (tw_encode Tw r m Hr Hs). cbn [codec_text mbind outcome_bind]. rewrite E2. cbn [mbind outcome_bind].
    rewrite (primary_twin kb Tw). done.
  - destruct (row_entries kb (k, r) Hf) as (es' & Ee' & P). cbn [fst snd] in Ee'. rewrite Ee in Ee'. injection Ee' as <-.
    apply (table_saved c M _ k kb r es T Hf Ee).
    + intros x Nx. cbn [push_ops pp_ops]. rewrite O2, O1, !apply_batch_app. unfold last.
      change (apply_batch ?c0 ((key, Some ?v) :: ?l)) with (apply_batch (<[key := v]> c0) l). rewrite apply_puts, !lookup_overlay, lookup_without.
      destruct (newest es x) eqn:En; [done|]. apply newest_None in En.
      assert (x ∈ minus (old_keys k (old_of M kb)) (map fst es) <-> x ∈ old_keys k (old_of M kb)) as Em by (rewrite elem_of_minus; tauto).
      destruct (decide (key = x)) as [<-|N].
      * rewrite lookup_insert_eq, decide_False, lookup_insert_eq; [done|]. rewrite Em. intros Hin. by eapply pkey_not_face, old_keys_faces.
      * rewrite !lookup_insert_ne by done. rewrite !(red_writes _ _ x) by done. rewrite lookup_deleted. by repeat case_decide; tauto.
    + apply (tracked_outside (apply_batch c (pp_ops plan2))); [|exact T2]. intros x Hx. cbn [push_ops pp_ops]. rewrite apply_batch_app.
      apply apply_other. intros (op & -> & [->|Hin]%elem_of_cons)%list_elem_of_fmap; [by apply red_not_pkey in Hx|].
      apply list_elem_of_fmap in Hin as (e & -> & Hin). apply (red_not_face e.1); [|done]. apply P, list_elem_of_fmap. by exists e.
  - cbn [push_ops pp_ops]. rewrite O2, O1. rewrite !Forall_app. split_and!; [|by apply reds_touch..|].
    + apply Forall_map, Forall_forall. intros x Hx. right. left. by eapply old_keys_faces.
    + constructor; [by left|]. apply Forall_map, Forall_forall. intros e He. right. left.
      destruct (row_entries kb (k, r) Hf) as (es' & Ee' & P). cbn [fst snd] in Ee'. rewrite Ee in Ee'. injection Ee' as <-.
      apply P, list_elem_of_fmap. by exists e.
Qed.

(** A planned deletion is the deletion of the row. *)
Lemma plan_delete_twin acc_of c M k kb r m : twin -> table_at c M -> id_ok k -> encode k = Ok kb -> purge_room M kb k ->
  old_of M kb = Some r -> shows r m -> answers acc_of c ->
  exists plan, plan_delete p dc kb m acc_of = Ok plan /\ table_at (apply_batch c (pp_ops plan)) (delete kb M) /\
  Forall (λ op : EngineOp, touches (K := K) (R := R) kb op.1) (pp_ops plan).
Proof.
  intros Tw T Hk Ek Room Eo Hs Ans.
  destruct (unfold_twin acc_of c M k kb (Some m) Tw T Hk Ek Room) as (plan & written & more & E1 & O1 & F1 & Ov1 & T1); [unfold old_shown; by rewrite Eo|done|].
  assert (M !! kb = Some (k, r)) as E.
  { unfold old_of in Eo. destruct (M !! kb) as [kr|] eqn:E; [|done]. destruct (old_row_key _ _ _ _ _ T Hk Ek E) as [-> _].
    cbn in Eo. by injection Eo as ->. }
  destruct (row_entries kb (k, r) (ta_rows _ _ T _ _ E)) as (es & Ee & P). cbn [fst snd] in Ee.
  rewrite Eo in O1. cbn [old_keys] in O1. rewrite Ee in O1.
  set (key := Table.pkey (K := K) (R := R) kb). exists (push_ops plan [(key, None)]). split_and!.
  - unfold plan_delete. rewrite (check_key_ok k kb Tw Hk Ek). cbn [mbind outcome_bind] in E1 |- *.
    destruct (DynIndex.index_entries sch (dt_ns dc) (dt_indexes dc) kb m); cbn [mbind outcome_bind] in E1 |- *; [|done..]. rewrite E1.
    cbn [mbind outcome_bind]. by rewrite (primary_twin kb Tw).
  - apply (table_deleted c M _ k kb r es T Hk Ek E Ee).
    + intros x Nx. cbn [push_ops pp_ops]. rewrite O1, !apply_batch_app.
      change (apply_batch ?c0 [(key, None)]) with (delete key c0). rewrite lookup_without.
      destruct (decide (key = x)) as [<-|N].
      * rewrite !lookup_delete_eq. by case_decide.
      * rewrite !lookup_delete_ne by done. rewrite !(red_writes _ _ x) by done. by rewrite lookup_deleted.
    + apply (tracked_outside (apply_batch c (pp_ops plan))); [|exact T1]. intros x Hx. cbn [push_ops pp_ops]. rewrite apply_batch_app.
      apply apply_other. intros Hin%list_elem_of_singleton. subst x. by apply red_not_pkey in Hx.
  - cbn [push_ops pp_ops]. rewrite O1. rewrite !Forall_app. split_and!; [|by apply reds_touch|].
    + apply Forall_map, Forall_forall. intros x Hx. right. left. by apply P.
    + constructor; [by left|done].
Qed.
End Twin.
