(* ===== verification/DynTwin.v ===== *)
(** * An exported schema makes a twin (okm-dynamic)

    A run-time collection over the exported schema of a declaration is a twin of
    the declared documents: its payloads, keys and entries are theirs, byte for
    byte, when every field is of a kind the dynamic side writes and the access
    methods and reduces mirror the declared ones. *)
From S2P Require Import Prelude Errors Storage Slots Vocab VarInt DynValue Quant Segment Fields Payload Keys Index Meta Reduces Collection Declared Table Bridge Typing Schema Dynamic DynCodec Paths DynIndex DynIndexFacts DynFields DynPaths DynPlan DynTable DynRows.

(** ** Names *)

Lemma existsb_find {A} (P : A -> bool) l : existsb P l = match find P l with Some _ => true | None => false end.
Proof. induction l as [|x l IH]; [done|]. cbn [existsb find]. destruct (P x); [done|exact IH]. Qed.

Lemma existsb_names {A} (f : A -> bytes) l n : existsb (λ x, bool_decide (f x = n)) l = bool_decide (n ∈ map f l).
Proof.
  induction l as [|x l IH]; [done|]. cbn [existsb map]. rewrite IH. apply eq_true_iff_eq.
  rewrite orb_true_iff, !bool_decide_eq_true, elem_of_cons. naive_solver.
Qed.

Lemma export_key_names fs : forall off, map f_name (export_key fs off) = map fd_name fs.
Proof. induction fs as [|f fs IH]; intros off; [done|]. cbn [export_key map]. by rewrite IH. Qed.

(** The kinds a map can hand in as it reads them back. *)
Definition writable (k : FieldKind) : bool :=
  match k with KUuid _ | KVector _ _ _ | KBytes | KVocab _ => false | _ => true end.

Lemma given_image k v : writable k = true -> stored k v = v -> given k v = Some (image k v).
Proof. destruct k; try done; cbn [given image stored]. intros _ ->. done. Qed.

Lemma gives_images m fs : forall r, NoDup (map ident fs) -> Forall (λ f, writable (kind f) = true) fs -> stored_row fs r = r ->
  Forall (λ f, btree_get (ident f) m = image_of fs r (ident f)) fs -> gives fs m r.
Proof.
  induction fs as [|f fs IH]; intros r ND W Es G; [done|]. apply NoDup_cons in ND as [N ND]. apply Forall_cons in W as [Wf W].
  destruct r as [v r]. cbn [stored_row fst snd] in Es. injection Es as Ev Er. apply Forall_cons in G as [Gf G]. cbn [gives fst snd].
  split.
  - exists (image (kind f) v). split; [by apply given_image|]. rewrite Gf. unfold image_of. cbn [lookup_field fst]. by rewrite bool_decide_true.
  - apply IH; [done..|]. rewrite Forall_forall in G |- *. intros g Hg. rewrite (G g Hg). unfold image_of. cbn [lookup_field snd].
    rewrite bool_decide_false; [done|]. intros E. apply N. rewrite E. apply list_elem_of_fmap. by exists g.
Qed.

(** ** Maps the dynamic readers answer *)

(** A map in the order of its keys, with names of a list only. *)
Definition tidy (names : list bytes) (m : ValueMap) : Prop := StronglySorted bytes_lt (map fst m) /\ Forall (λ kv, kv.1 ∈ names) m.

Lemma tidy_insert names k v m : k ∈ names -> tidy names m -> tidy names (btree_insert k v m).
Proof.
  intros Hk [Hs F]. split; [by apply btree_insert_sorted|]. apply Forall_forall. intros kv Hkv.
  assert (kv.1 ∈ map fst (btree_insert k v m)) as [->|Hin]%elem_of_btree_insert by (apply list_elem_of_fmap; by exists kv); [done|].
  apply list_elem_of_fmap in Hin as (x & -> & Hx). rewrite Forall_forall in F. by apply F.
Qed.

Lemma tidy_nil names : tidy names [].
Proof. split; constructor. Qed.

Lemma decode_hot_tidy p names b fs : forall out m, incl (map f_name fs) names -> tidy names out -> decode_hot p fs b out = Ok m -> tidy names m.
Proof.
  induction fs as [|f fs IH]; intros out m Hi Ht E; [by injection E as <-|]. cbn [map decode_hot] in *. apply incl_cons_inv in Hi as [Hf Hi].
  destruct (slice _ _ _); [|by eapply IH]. apply bind_Ok in E as (v & _ & E). eapply IH; [done| |exact E]. apply tidy_insert; [by apply list_elem_of_In|done].
Qed.

Lemma decode_key_tidy p names b fs : forall out m, incl (map f_name fs) names -> tidy names out -> decode_key_loop p fs b out = Ok m -> tidy names m.
Proof.
  induction fs as [|f fs IH]; intros out m Hi Ht E; [by injection E as <-|]. cbn [map decode_key_loop] in *. apply incl_cons_inv in Hi as [Hf Hi].
  repeat (apply bind_Ok in E as (? & _ & E)). eapply IH; [done| |exact E]. apply tidy_insert; [by apply list_elem_of_In|done].
Qed.

Lemma decode_colds_tidy p names b fs : incl (map f_name fs) names -> forall fuel pos out m,
  tidy names out -> decode_colds p fuel fs b pos out = Ok m -> tidy names m.
Proof.
  intros Hi. induction fuel as [|fuel IH]; intros pos out m Ho E; cbn [decode_colds] in E; destruct (pos <? zlen b);
    try (by injection E as <-); [done|]. cbv zeta in E.
  apply bind_Ok in E as (tag & _ & E). apply bind_Ok in E as (rest & _ & E). apply bind_Ok in E as (taken & _ & E).
  apply bind_Ok in E as ([len len_n] & _ & E). apply bind_Ok in E as (e & _ & E). apply bind_Ok in E as (value & _ & E).
  apply bind_Ok in E as (out' & Eo & E). eapply IH; [|exact E]. destruct (by_tag fs tag) as [f|] eqn:Bt; [|by injection Eo as <-].
  apply bind_Ok in Eo as (v & Ev & Eo). injection Eo as <-. apply by_tag_In in Bt.
  apply tidy_insert; [|done]. apply list_elem_of_In, Hi, list_elem_of_In, list_elem_of_fmap. by exists f.
Qed.

Lemma fill_tidy names fs : forall out, incl (map f_name fs) names -> tidy names out -> tidy names (fold_left fill_default fs out).
Proof.
  induction fs as [|f fs IH]; intros out Hi Ho; [done|]. cbn [map fold_left] in *. apply incl_cons_inv in Hi as [Hf Hi].
  apply IH; [done|]. unfold fill_default. destruct (btree_get _ _); [done|]. apply tidy_insert; [by apply list_elem_of_In|done].
Qed.

(** A decoded payload has the payload's names, in order. *)
Lemma decode_payload_tidy p sch b m : Dynamic.decode_payload p sch b = Ok m -> tidy (map f_name (payload_fields sch)) m.
Proof.
  intros E. unfold Dynamic.decode_payload in E. cbv zeta in E. destruct (_ <? _); [done|].
  apply bind_Ok in E as (v & _ & E). destruct (_ <? _); [done|].
  apply bind_Ok in E as (x & _ & E). apply bind_Ok in E as (y & _ & E). apply bind_Ok in E as (h & _ & E).
  apply bind_Ok in E as (out & E1 & E). apply bind_Ok in E as (out' & E2 & E). injection E as <-. unfold payload_fields. rewrite map_app.
  apply fill_tidy; [rewrite map_app; apply incl_refl|]. eapply decode_colds_tidy; [|  |exact E2]; [apply incl_appr, incl_refl|].
  eapply decode_hot_tidy; [| |exact E1]; [apply incl_appl, incl_refl|apply tidy_nil].
Qed.

(** ** Categorical fields *)

Lemma not_vocab p vi k ty i : writable k = true -> field_type p vi k = Ok ty -> ty <> TVocab i.
Proof.
  destruct k; try done; cbn [field_type]; intros _ [= <-]; try done. unfold uint_type. by repeat case_match.
  unfold uint_type. by repeat case_match.
Qed.

Lemma hot_no_vocab p literals fs : forall vi descs off, Forall (λ f, writable (kind f) = true) fs -> field_descs p vi fs = Ok descs ->
  Forall (λ f, forall i, f_ty f <> TVocab i) (export_hot literals descs off).
Proof.
  induction fs as [|f fs IH]; intros vi descs off W E; [by injection E as <-|]. apply Forall_cons in W as [Wf W].
  apply field_descs_cons in E as (ty & rest & vi' & Ht & Hd & ->). cbn [export_hot fd_width fd_ty].
  destruct (0 <? _); [|by eapply IH]. constructor; [|by eapply IH]. intros i. by eapply not_vocab.
Qed.

Lemma labels_plain {T} `{VirtualStorage T} fs (s : T) header m :
  Forall (λ f : Schema.FieldSchema, forall i, f_ty f <> TVocab i) fs -> resolve_labels fs s header m = Ok m.
Proof.
  induction 1 as [|f fs Hf _ IH]; [done|]. cbn [resolve_labels]. destruct (f_ty f) eqn:E; try exact IH. by edestruct Hf.
Qed.

(** ** Groups *)

(** The kinds a run-time reduce groups by. *)
Definition groupable (k : FieldKind) : bool :=
  match k with KUInt _ | KSInt _ | KFixedBytes _ | KReverse _ _ => true | _ => false end.

Lemma uint_group n name v : n ∈ [1; 2; 4; 8]%nat -> 0 <= v < 256 ^ Z.of_nat n ->
  group_part name (uint_type n) (uint_value n v) = Ok (be_bytes n v).
Proof.
  intros Hn. apply (known_cases n (λ n, 0 <= v < 256 ^ Z.of_nat n -> group_part name (uint_type n) (uint_value n v) = Ok (be_bytes n v)));
    [..|done]; try done. intros H. cbn. by rewrite be_bytes_1.
Qed.

Lemma group_part_agrees p vi k v e ty name : known k -> value_ok k v -> field_type p vi k = Ok ty -> writes p k v e -> groupable k = true ->
  group_part name ty (image k v) = Ok e.
Proof.
  intros Hk Hv Ht W G. pose proof (writes_as _ _ _ _ W) as E.
  destruct k; try done; cbn [field_type known value_ok image field_enc] in *; injection Ht as <-; injection E as <-; cbn [app].
  - rewrite be_bytes_wrap. apply uint_group; [done|]. by rewrite <- bits_pow.
  - apply uint_group; [done|]. rewrite <- bits_pow. apply (wrap_word _ _ _ Hv).
  - done.
  - done.
Qed.

(** A key field's part, sliced from the key or taken from the decoded map. *)
Lemma key_part (p : profile) ks : forall (r : krow ks) pre b off n kf, Forall (λ k, key_plain (kf_kind k)) ks -> krow_ok ks r ->
  krow_encode ks r pre = Ok (pre ++ b) -> find (λ k, bool_decide (kf_name k = n)) ks = Some kf -> groupable (as_field (kf_kind kf)) = true ->
  exists x y e v f, key_slice (map (λ f, (fd_name f, fd_width f)) (key_descs ks)) (zlen pre) n = Some (x, y) /\
  slice (pre ++ b) x y = Some e /\ key_lookup ks r n = Some v /\
  named_in (export_key (key_descs ks) off) n = Some f /\ group_part n (f_ty f) v = Ok e.
Proof.
  induction ks as [|k ks IH]; intros r pre b off n kf Hp Hr E F G; [done|]. apply Forall_cons in Hp as [Pk Hp].
  destruct Hr as [Hv Hr]. destruct (plain_kind _ Pk) as (Kk & Hh & Ht & Hw).
  destruct (key_field_writes p _ _ Pk Hv) as (e & W & Ek). cbn [krow_encode] in E. rewrite Ek in E. cbn [mbind outcome_bind] in E.
  destruct (krow_roundtrip ks r.2 Hr) as (es & _ & E' & _). rewrite E' in E. injection E as E. rewrite <- app_assoc in E.
  apply app_inv_head in E as <-. unfold key_descs, named_in. cbn [find] in F.
  cbn [FIELDS derived_key map export_key key_slice key_lookup find f_name f_ty fd_name fd_ty fd_width fst snd].
  rewrite <- Hw, <- (w_width _ _ _ _ W Hh). case_bool_decide as En.
  - injection F as <-. eexists _, _, e, _, _. split; [reflexivity|]. rewrite slice_app. split; [done|]. split; [done|]. split; [done|].
    cbn [f_ty]. eapply group_part_agrees; [exact Kk|exact Hv|exact (Ht p 0)|exact W|exact G].
  - rewrite <- zlen_app, app_assoc. eapply IH; [done|done| |done|done]. by rewrite E', <- app_assoc.
Qed.

(** A payload under its own declaration: every name the row has comes back. *)
Lemma reads_own p sch s literals (r : row (fields s)) b :
  payload_exported p sch s literals -> all_known (fields s) -> all_readable (fields s) -> NoDup (map ident (fields s)) ->
  zlen (fields s) <= 256 -> HOT_WIDTH s < 2 ^ 16 -> row_ok (fields s) r -> Payload.encode_payload p s r = Ok b -> zlen b < 2 ^ 63 ->
  exists m, Dynamic.decode_payload p sch b = Ok m /\ forall n, n ∈ map ident (fields s) -> btree_get n m = image_of (fields s) r n.
Proof.
  intros X Hk Hr ND Z W Ho E Hz. destruct s as [v fs]. cbn [fields layout_version] in *.
  pose proof (reads_derived p sch (mkSchema v fs) [] v literals r b) as D. cbn [fields layout_version] in D.
  rewrite app_nil_r, Z.ltb_irrefl in D. destruct D as (m & Em & G); try done. exists m. split; [done|]. intros n Hn. rewrite G. unfold image_of.
  pose proof (lookup_field_spec fs n r) as L. destruct (field_of fs n) as [f|] eqn:Ef; [by destruct L as (v' & -> & _)|].
  apply list_elem_of_fmap in Hn as (f & -> & Hin). unfold field_of in Ef.
  assert (existsb (λ g, bool_decide (ident g = ident f)) fs = true) as X'.
  { rewrite existsb_names, bool_decide_eq_true. apply list_elem_of_fmap. by exists f. }
  rewrite existsb_find in X'. by rewrite Ef in X'.
Qed.

Section Exporting.
Context {S : Type}.
Variables (p : profile) (ks : list KeyField) (d : Declaration (krow ks)) (reds : list (LawfulReduce (krow ks) (row (fields (dc_schema d)))))
  (literals : list (bytes * DefaultValueConst)) (dc : DynamicCollection S).
Hypothesis Hd : declaration_ok d reds.

Abbreviation s := (dc_schema d).
Abbreviation R := (row (fields (dc_schema d))).

#[local] Existing Instance the_document | 0.
#[local] Instance the_doc : Document (krow ks) R := derived_document p d.
#[local] Instance the_laws : DocumentLaws (krow ks) R := derived_laws p d reds Hd.

(** The run-time method writes what the derived index writes. *)
Record method_twin (si : Slot * IdxDecl R) (am : AccessMethod) : Prop := {
  mt_slot : am_slot am = si.1;
  mt_names : Forall (payload_name (dt_schema dc)) (idx_fields si.2 ++ idx_includes si.2);
  mt_columns : Forall (λ n, is_payload_field dc n = true) (idx_fields si.2 ++ idx_includes si.2);
  mt_kinds : forallb (indexable_name (fields s)) (idx_fields si.2 ++ idx_includes si.2) = true;
  mt_mirrors r m : row_exact (fields s) r -> shows dc (image_of (fields s)) r m -> mirrors si.2 am r m
}.



(** What ties the collection to the declaration. *)
Record exported : Prop := {
  ex_schema : payload_exported p (dt_schema dc) s literals;
  ex_key : key_fields (dt_schema dc) = export_key (FIELDS (K := krow ks)) 0;
  ex_key_len : key_len (dt_schema dc) = KEY_LEN (K := krow ks);
  ex_ns : dt_ns dc = header (K := krow ks) (R := R);
  ex_plain : Forall (λ k, key_plain (kf_kind k)) ks;
  ex_names : NoDup (map kf_name ks ++ map ident (fields s));
  ex_count : zlen (fields s) <= 256;
  ex_known : all_known (fields s);
  ex_kinds : Forall (λ f, writable (kind f) = true) (fields s);
  ex_leads : live (dc_leads d) = [];
  ex_methods : Forall2 method_twin (live (dc_indexes d)) (List.filter (λ am, negb (by_path am)) (dt_indexes dc));
  ex_paths : Forall (path_slot (K := krow ks) (R := R)) (dt_indexes dc)
}.
Hypothesis Ex : exported.

Lemma names_apart : NoDup (map ident (fields s)) /\ NoDup (map kf_name ks) /\ forall n, n ∈ map kf_name ks -> n ∉ map ident (fields s).
Proof. pose proof (ex_names Ex) as N. apply NoDup_app in N as (A & B & C). done. Qed.

Lemma payload_field_iff n : is_payload_field dc n = bool_decide (n ∈ map ident (fields s)).
Proof.
  destruct names_apart as (ND & _ & _). destruct (ex_schema Ex) as [(descs & Ed & Eh & Ec) _ _ _].
  unfold is_payload_field. rewrite existsb_find, find_app, Eh, Ec.
  pose proof (export_find p literals (flat_map contract_of (fields s)) n (fields s) 0 descs 0 0 ND Ed) as X.
  destruct (field_of (fields s) n) as [f|] eqn:F.
  - destruct X as (g & _ & Xh & Xc). assert (n ∈ map ident (fields s)) as Hin.
    { apply find_some in F as [F E]. apply bool_decide_eq_true in E as <-. apply list_elem_of_fmap. exists f. split; [done|by apply list_elem_of_In]. }
    rewrite bool_decide_true by done. rewrite Xh. destruct (hot (kind f)); [done|]. by rewrite Xc.
  - destruct X as [-> ->]. symmetry. apply bool_decide_eq_false_2. intros (f & -> & Hin)%list_elem_of_fmap.
    assert (existsb (λ g, bool_decide (ident g = ident f)) (fields s) = true) as E.
    { rewrite existsb_names, bool_decide_eq_true. apply list_elem_of_fmap. by exists f. }
    rewrite existsb_find in E. unfold field_of in F. by rewrite F in E.
Qed.

Lemma key_field_iff n : existsb (λ f, bool_decide (f_name f = n)) (key_fields (dt_schema dc)) = bool_decide (n ∈ map kf_name ks).
Proof. rewrite existsb_names, (ex_key Ex), export_key_names. cbn [FIELDS derived_key]. by rewrite map_map. Qed.

Lemma payload_names n : n ∈ map f_name (payload_fields (dt_schema dc)) <-> is_payload_field dc n = true.
Proof. unfold is_payload_field. rewrite existsb_names. by rewrite bool_decide_eq_true. Qed.

(** ** Payloads *)

Lemma payload_is r b : Payload.encode_payload p s r = Ok b -> payload_b (K := krow ks) r = b.
Proof. intros E. unfold payload_b. change (Collection.encode_payload r) with (Payload.encode_payload p s r). by rewrite E. Qed.

Lemma twin_encode r m : row_exact (fields s) r -> shows dc (image_of (fields s)) r m ->
  Dynamic.encode_payload p (dt_schema dc) m = Ok (payload_b (K := krow ks) r).
Proof.
  intros [Hr Es] Hs. destruct names_apart as (ND & _ & _).
  destruct (encode_agrees p (dt_schema dc) s literals r m (ex_schema Ex) (ex_known Ex) (do_width _ _ Hd) Hr) as (b & E1 & E2).
  - apply gives_images; [done|apply Ex|done|]. apply Forall_forall. intros f Hf. apply Hs. rewrite payload_field_iff.
    apply bool_decide_eq_true. apply list_elem_of_fmap. by exists f.
  - rewrite E1. by rewrite (payload_is r b E2).
Qed.

Lemma writable_readable : all_readable (fields s).
Proof. pose proof (ex_kinds Ex) as W. eapply Forall_impl; [exact W|]. intros f. cbn beta. destruct (kind f); done. Qed.

Lemma twin_decode r : row_exact (fields s) r -> zlen (payload_b (K := krow ks) r) < 2 ^ 63 ->
  exists m, Dynamic.decode_payload p (dt_schema dc) (payload_b (K := krow ks) r) = Ok m /\ shows dc (image_of (fields s)) r m /\
  StronglySorted bytes_lt (map fst m) /\ Forall (λ kv, is_payload_field dc kv.1 = true) m.
Proof.
  intros [Hr Es] Hz. destruct names_apart as (ND & _ & _).
  destruct (payload_roundtrip p s r (do_width _ _ Hd) Hr) as (b & Eb & _).
  assert (payload_b (K := krow ks) r = b) as Ep by by apply payload_is.
  rewrite Ep in *. destruct (reads_own p (dt_schema dc) s literals r b) as (m & Em & G); try done; try apply Ex; try apply Hd.
  { exact writable_readable. }
  exists m. split; [done|]. destruct (decode_payload_tidy _ _ _ _ Em) as [Hs F]. split_and!; [|done|].
  - intros n Hn. apply G. rewrite payload_field_iff in Hn. by apply bool_decide_eq_true in Hn.
  - eapply Forall_impl; [exact F|]. intros kv. apply payload_names.
Qed.

(** ** Keys *)

Lemma twin_key (k : krow ks) kb : id_ok k -> encode k = Ok kb -> zlen kb = key_len (dt_schema dc) /\
  exists km, Dynamic.decode_key p (dt_schema dc) kb = Ok km /\ StronglySorted bytes_lt (map fst km) /\ owned dc km /\
  Forall (λ kv, is_payload_field dc kv.1 = false) km.
Proof.
  intros [Hk Nk] Ek. destruct names_apart as (_ & NDk & Dis).
  destruct (krow_roundtrip ks k Hk) as (es & _ & Es & Lk & _).
  assert (kb = concat es) as -> by (pose proof (Es []) as E; change (krow_encode ks k []) with (encode k) in E; rewrite Ek in E; by injection E).
  split; [rewrite (ex_key_len Ex); by rewrite Lk|].
  destruct (key_agrees p (dt_schema dc) ks k [] (ex_key Ex) (ex_key_len Ex) (ex_plain Ex) NDk Hk) as (b & km & Eb & _ & Ed & _).
  rewrite Ek in Eb. injection Eb as <-. rewrite app_nil_r in Ed. exists km. split; [done|].
  assert (tidy (map kf_name ks) km) as [Hs F].
  { unfold Dynamic.decode_key in Ed. destruct (_ <? _); [done|]. eapply decode_key_tidy; [| |exact Ed]; [|apply tidy_nil].
    rewrite (ex_key Ex), export_key_names. cbn [FIELDS derived_key]. rewrite map_map. apply incl_refl. }
  split_and!; [done|..].
  - eapply Forall_impl; [exact F|]. intros kv Hkv. unfold is_declared, all_fields. rewrite existsb_app. apply orb_true_iff. left.
    rewrite key_field_iff. by apply bool_decide_eq_true.
  - eapply Forall_impl; [exact F|]. intros kv Hkv. rewrite payload_field_iff. apply bool_decide_eq_false_2. by apply Dis.
Qed.

(** ** Entries *)

Lemma entries_skip_paths ns kb m ams :
  DynIndex.index_entries (dt_schema dc) ns ams kb m = DynIndex.index_entries (dt_schema dc) ns (List.filter (λ am, negb (by_path am)) ams) kb m.
Proof.
  induction ams as [|am ams IH]; [done|]. cbn [DynIndex.index_entries List.filter]. rewrite IH. unfold by_path at 2.
  destruct (am_kind am) eqn:E; cbn [negb DynIndex.index_entries]; try done.
  unfold method_entries. rewrite E. cbn [mbind outcome_bind negb]. match goal with |- ?x ≫= _ = _ => by destruct x end.
Qed.

Lemma method_agrees si am (k : krow ks) kb r m : si ∈ live (dc_indexes d) -> method_twin si am -> id_ok k -> encode k = Ok kb ->
  row_exact (fields s) r -> shows dc (image_of (fields s)) r m -> forall ns,
  exists es, entry_pairs (derived_index p (fields s) si.1 si.2) ns k r = Ok es /\ method_entries (dt_schema dc) ns am kb m = Ok es.
Proof.
  intros Hin T Hk Ek Hr Hs ns. destruct names_apart as (ND & _ & _).
  pose proof (derived_decl_ok d reds Hd) as DO. rewrite Forall_forall in DO. destruct (DO si Hin) as (Hso & _).
  pose proof (do_index_live _ _ Hd) as DL. rewrite Forall_forall in DL. destruct (DL si Hin) as [_ Lo].
  pose proof (mt_mirrors _ _ T r m Hr Hs) as M.
  assert (located (fields s) (idx_fields si.2) /\ located (fields s) (idx_includes si.2)) as [L1 L2].
  { destruct (idx_func si.2) eqn:F; [|done]. destruct M as (_ & _ & _ & M). rewrite F in M. destruct (idx_filter si.2), (am_kind am); try done.
    by destruct M as (_ & -> & ->). }
  rewrite <- (mt_slot _ _ T) in *.
  pose proof (entries_agree p (dt_schema dc) s literals (ex_schema Ex) ND (ex_known Ex) am si.2 ns k kb r m Hso Ek (proj1 Hr) M L1 L2 (mt_names _ _ T)) as A.
  rewrite (mt_kinds _ _ T) in A. apply A. eapply Forall_impl; [exact (mt_columns _ _ T)|]. intros n Hn. by apply Hs.
Qed.

Lemma twin_entries (k : krow ks) kb r m : id_ok k -> encode k = Ok kb -> row_exact (fields s) r -> shows dc (image_of (fields s)) r m ->
  forall ns, exists es, Collection.index_entries k r ns = Ok es /\ DynIndex.index_entries (dt_schema dc) ns (dt_indexes dc) kb m = Ok es.
Proof.
  intros Hk Ek Hr Hs ns. rewrite entries_skip_paths. change (Collection.index_entries k r ns)
    with (Index.index_entries p (fields s) (live (dc_leads d)) (live (dc_indexes d)) k r ns).
  unfold Index.index_entries, key_entries. rewrite (ex_leads Ex). cbn [entries_of mbind outcome_bind app].
  pose proof (ex_methods Ex) as F. assert (forall si, si ∈ live (dc_indexes d) -> si ∈ live (dc_indexes d)) as Sub by done. revert F Sub.
  generalize (live (dc_indexes d)) at 1 2 4. generalize (List.filter (λ am, negb (by_path am)) (dt_indexes dc)).
  intros ams sis F Sub. induction F as [|si am sis ams T F IH]; [by exists []|].
  destruct (method_agrees si am k kb r m) with (ns := ns) as (e1 & A1 & B1); [apply Sub; by left|done..|].
  destruct IH as (e2 & A2 & B2); [intros x Hx; apply Sub; by right|].
  exists (e1 ++ e2). cbn [entries_of DynIndex.index_entries]. rewrite A1, B1. cbn [mbind outcome_bind]. rewrite B2.
  destruct (entries_of _ sis) as [e3| |]; [|done..]. cbn [mbind outcome_bind] in *. by injection A2 as ->.
Qed.

(** ** Reduces *)

(** A name both sides group by. *)
Definition group_name (n : bytes) : bool :=
  match find (λ k, bool_decide (kf_name k = n)) ks with
  | Some k => groupable (as_field (kf_kind k))
  | None => match field_of (fields s) n with Some f => groupable (kind f) | None => false end
  end.

Lemma key_slice_absent l : forall off n, n ∉ map fst l -> key_slice l off n = None.
Proof.
  induction l as [|[x w] l IH]; intros off n H; [done|]. cbn [map fst key_slice] in *. apply not_elem_of_cons in H as [N H].
  rewrite bool_decide_false by congruence. by apply IH.
Qed.

Lemma group_agrees (k : krow ks) kb r km m names : id_ok k -> encode k = Ok kb -> row_exact (fields s) r -> shows dc (image_of (fields s)) r m ->
  Dynamic.decode_key p (dt_schema dc) kb = Ok km -> forallb group_name names = true ->
  exists g, group_named p (fields s) k r names = Ok g /\ group_loop (dt_schema dc) names km m [] = Ok g.
Proof.
  intros [Hk Nk] Ek [Hr Es] Hs Ekm Hg. destruct names_apart as (ND & NDk & Dis). unfold group_named. rewrite Ek. cbn [mbind outcome_bind].
  destruct (key_agrees p (dt_schema dc) ks k [] (ex_key Ex) (ex_key_len Ex) (ex_plain Ex) NDk Hk) as (kb' & km' & Ek' & _ & Ekm' & Gk).
  rewrite Ek in Ek'. injection Ek' as <-. rewrite app_nil_r, Ekm in Ekm'. injection Ekm' as <-.
  assert (exists g, forall buf, encode_group_named p kb (map (λ f, (fd_name f, fd_width f)) (FIELDS (K := krow ks))) (fields s) r names buf = Ok (buf ++ g) /\
    group_loop (dt_schema dc) names km m buf = Ok (buf ++ g)) as (g & G); [|by exists g; apply (G [])].
  induction names as [|n names IH]; [exists []; intros buf; by rewrite app_nil_r|]. cbn [forallb] in Hg. apply andb_true_iff in Hg as [Hn Hg].
  destruct (IH Hg) as (g & G). unfold group_name in Hn. cbn [encode_group_named group_loop]. unfold is_key_field. rewrite key_field_iff, (ex_key Ex).
  destruct (find (λ k, bool_decide (kf_name k = n)) ks) as [kf|] eqn:F.
  - destruct (key_part p ks k [] kb 0 n kf (ex_plain Ex) Hk Ek F Hn) as (x & y & e & v & f & E1 & E2 & E3 & E4 & E5).
    change (zlen []) with 0 in E1. unfold key_descs in E1, E4. cbn [app] in E2. exists (e ++ g). intros buf.
    rewrite bool_decide_true.
    2: { apply find_some in F as [F1 F2]. apply bool_decide_eq_true in F2 as <-. apply list_elem_of_fmap. exists kf. split; [done|by apply list_elem_of_In]. }
    rewrite E1, E2, E4, Gk, E3. cbn [or_panic ok_or mbind outcome_bind]. rewrite E5. cbn [mbind outcome_bind]. rewrite app_assoc. apply G.
  - assert (n ∉ map kf_name ks) as Nn.
    { intros (kf & -> & Hin)%list_elem_of_fmap. eapply find_none in F; [|by apply list_elem_of_In]. by rewrite bool_decide_true in F. }
    rewrite bool_decide_false by done. destruct (field_of (fields s) n) as [f|] eqn:Ff; [|done].
    pose proof (lookup_field_spec (fields s) n r) as L. rewrite Ff in L. destruct L as (v & Lv & Hv & _). specialize (Hv Hr).
    destruct (ex_schema Ex) as [(descs & Ed & Eh & Ec) _ _ _].
    pose proof (export_find p literals (flat_map contract_of (fields s)) n (fields s) 0 descs 0 0 ND Ed) as X. rewrite Ff in X.
    destruct X as (c & [_ (vi & Dt)] & Xh & Xc). destruct (field_roundtrip p (kind f) v Hv) as [e W].
    assert (named_in (hot_fields (dt_schema dc) ++ cold_fields (dt_schema dc)) n = Some c) as Ec'.
    { unfold named_in. rewrite find_app, Eh, Ec, Xh. destruct (hot (kind f)); [done|by apply Xc]. }
    assert (btree_get n m = Some (image (kind f) v)) as Em.
    { rewrite Hs; [unfold image_of; by rewrite Lv|]. rewrite payload_field_iff. apply bool_decide_eq_true. apply find_some in Ff as [F1 F2].
      apply bool_decide_eq_true in F2 as <-. apply list_elem_of_fmap. exists f. split; [done|by apply list_elem_of_In]. }
    exists (e ++ g). intros buf. rewrite key_slice_absent by (cbn [FIELDS derived_key]; rewrite !map_map; done). cbn [encode_named].
    rewrite Lv, Ec', Em. cbn [or_panic ok_or mbind outcome_bind projT1 projT2]. rewrite (w_enc _ _ _ _ W). cbn [mbind outcome_bind].
    rewrite (group_part_agrees p vi _ v e (f_ty c) n) by (done || by eapply known_of; [apply Ex|exact Ff]). cbn [mbind outcome_bind].
    rewrite app_assoc. apply G.
Qed.

(** *** The presets *)

Definition counts (slot : Slot) (names : list bytes) : LawfulReduce (krow ks) R :=
  lawful slot names (λ k r, group_named p (fields s) k r names) _ _ _ (Count_law p).

Definition high_waters (src : ReduceFieldSource (krow ks) R) (slot : Slot) (names : list bytes) : LawfulReduce (krow ks) R :=
  lawful slot names (λ k r, group_named p (fields s) k r names) _ _ _ (HighWater_law src).

Definition low_waters (src : ReduceFieldSource (krow ks) R) (slot : Slot) (names : list bytes) : LawfulReduce (krow ks) R :=
  lawful slot names (λ k r, group_named p (fields s) k r names) _ _ _ (LowWater_law src).

Lemma u64_decoded b acc : decode_acc u64_codec b = Ok acc -> acc_u64 b = acc /\ decode_acc LowAcc_codec b = Ok acc.
Proof.
  cbn [decode_acc u64_codec LowAcc_codec]. unfold acc_u64, array_of. destruct (Z.eqb_spec (zlen b) 8) as [E|]; [|done]. intros [= <-].
  assert (length b = 8%nat) as L by (unfold zlen in E; lia). rewrite decide_True, bool_decide_true by done. done.
Qed.

Lemma low_decoded b acc : decode_acc LowAcc_codec b = Ok acc -> acc_u64 b = acc.
Proof.
  cbn [decode_acc LowAcc_codec]. unfold acc_u64, array_of. case_bool_decide as L; [|done]. intros [= <-]. by rewrite decide_True.
Qed.

Lemma count_twin slot names : forallb group_name names = true ->
  reduce_twin p dc (image_of (fields s)) (mkSpec slot names (PresetLogic p PresetCount)) (counts slot names).
Proof.
  intros G. split; [done| | |..].
  - intros k kb km r m g Hk Ek Hr Hs Ekm Eg. destruct (group_agrees k kb r km m names Hk Ek Hr Hs Ekm G) as (g' & E1 & E2).
    change (group_named p (fields s) k r names = Ok g) in Eg. rewrite Eg in E1. injection E1 as <-. exact E2.
  - by vm_compute.
  - intros k r g km m b acc acc' _ _ D [J Hz] F. change (add_w (E := unit) p 64 acc 1 = Ok acc') in F.
    destruct (u64_decoded b acc D) as [Ea _]. exists (be_bytes 8 acc'). cbn [rs_logic PresetLogic rl_fold]. unfold preset_fold. rewrite Ea.
    pose proof (zlen_nonneg g) as Pg. split.
    + unfold add_w in *. destruct (_ <? _); [by injection F as <-|]. destruct p; [done|]. by injection F as <-.
    + apply u64_codec_spec. unfold add_w in F. destruct (Z.ltb_spec (acc + 1) (2 ^ 64)); [injection F as <-; lia|].
      destruct p; [done|]. injection F as <-. apply Z.mod_pos_bound. lia.
  - intros k r g km m b acc acc' _ _ D [J Hz] F. change (sub_u64 p acc 1 = Ok acc') in F.
    destruct (u64_decoded b acc D) as [Ea _]. exists (be_bytes 8 acc'). cbn [rs_logic PresetLogic rl_unfold]. unfold preset_unfold. rewrite Ea.
    pose proof (zlen_nonneg g) as Pg. rewrite zlen_cons in *. unfold sub_u64 in F. rewrite (proj2 (Z.leb_le _ _)) in F by lia. injection F as <-.
    split; [do 2 f_equal; lia|]. apply u64_codec_spec. lia.
Qed.

(** A [u64] column, as the marker of a water preset and as a run-time preset read it. *)
Definition u64_column (f : bytes) : Prop := exists e, field_of (fields s) f = Some (Payload.mkField f (KUInt 8) e).

Lemma column_read f src (k : krow ks) r m v : u64_column f -> derived_source p (fields s) f = Some src -> row_exact (fields s) r ->
  shows dc (image_of (fields s)) r m -> reduce_field_u64 src k r = Ok v -> 0 <= v < 2 ^ 64 /\ field_u64 m f = Ok v.
Proof.
  intros [e Ef] Es [Hr _] Hs E. destruct names_apart as (ND & NDk & Dis). unfold derived_source in Es. rewrite Ef in Es. injection Es as <-.
  cbn [reduce_field_u64] in E. apply bind_Ok in E as (buf & E & Erd). unfold group_named in E. apply bind_Ok in E as (kb & _ & E).
  assert (f ∈ map ident (fields s)) as Hin.
  { apply find_some in Ef as [Hin _]. apply list_elem_of_fmap. eexists. split; [|by apply list_elem_of_In]. done. }
  cbn [encode_group_named] in E. rewrite key_slice_absent in E.
  2: { cbn [FIELDS derived_key]. rewrite !map_map. cbn [fst]. intros X. by apply (Dis f). }
  pose proof (lookup_field_spec (fields s) f r) as L. rewrite Ef in L. destruct L as (w & Lw & Hv & _). specialize (Hv Hr).
  cbn [encode_named] in E. rewrite Lw in E. cbn [or_panic mbind outcome_bind projT1 projT2 kind field_enc app] in E. injection E as <-.
  cbn [value_ok kind] in Hv. change (0 <= w < 2 ^ 64) in Hv. rewrite be_bytes_wrap in Erd.
  assert (v = w) as ->.
  { unfold readback in Erd. cbn [length] in Erd. rewrite be_bytes_length in Erd. injection Erd as <-. by rewrite be_val_be_bytes_small. }
  split; [done|]. unfold field_u64. rewrite Hs; [|by rewrite payload_field_iff, bool_decide_eq_true]. unfold image_of. by rewrite Lw.
Qed.

Lemma high_twin slot names f src : forallb group_name names = true -> u64_column f -> derived_source p (fields s) f = Some src ->
  reduce_twin p dc (image_of (fields s)) (mkSpec slot names (PresetLogic p (PresetHighWater f))) (high_waters src slot names).
Proof.
  intros G U Es. split; [done| | |..].
  - intros k kb km r m g Hk Ek Hr Hs Ekm Eg. destruct (group_agrees k kb r km m names Hk Ek Hr Hs Ekm G) as (g' & E1 & E2).
    change (group_named p (fields s) k r names = Ok g) in Eg. rewrite Eg in E1. injection E1 as <-. exact E2.
  - by vm_compute.
  - intros k r g km m b acc acc' Hr Hs D [J _] F. cbn [Reduces.fold Reduces.logic counts high_waters lawful lr_reduce HighWater] in F.
    apply bind_Ok in F as (v & Ev & F). injection F as <-. destruct (column_read f src k r m v U Es Hr Hs Ev) as [Bv Ef].
    destruct (u64_decoded b acc D) as [Ea _]. cbn [rs_logic PresetLogic rl_fold]. unfold preset_fold. rewrite Ef, Ea. cbn [mbind outcome_bind].
    eexists. split; [done|]. apply u64_codec_spec. lia.
  - intros k r g km m b acc acc' _ _ D _ F. injection F as <-. by exists b.
Qed.

Lemma low_twin slot names f src : forallb group_name names = true -> u64_column f -> derived_source p (fields s) f = Some src ->
  reduce_twin p dc (image_of (fields s)) (mkSpec slot names (PresetLogic p (PresetLowWater f))) (low_waters src slot names).
Proof.
  intros G U Es. split; [done| | |..].
  - intros k kb km r m g Hk Ek Hr Hs Ekm Eg. destruct (group_agrees k kb r km m names Hk Ek Hr Hs Ekm G) as (g' & E1 & E2).
    change (group_named p (fields s) k r names = Ok g) in Eg. rewrite Eg in E1. injection E1 as <-. exact E2.
  - by vm_compute.
  - intros k r g km m b acc acc' Hr Hs D [J _] F. cbn [Reduces.fold Reduces.logic low_waters lawful lr_reduce LowWater] in F.
    apply bind_Ok in F as (v & Ev & F). injection F as <-. destruct (column_read f src k r m v U Es Hr Hs Ev) as [Bv Ef].
    pose proof (low_decoded b acc D) as Ea. cbn [rs_logic PresetLogic rl_fold]. unfold preset_fold. rewrite Ef, Ea. cbn [mbind outcome_bind].
    eexists. split; [done|]. apply LowAcc_codec_spec. lia.
  - intros k r g km m b acc acc' _ _ D _ F. injection F as <-. by exists b.
Qed.

(** A run-time preset and the declared one it mirrors. *)
Inductive preset_of : ReduceSpec -> LawfulReduce (krow ks) R -> Prop :=
| of_count slot names : forallb group_name names = true ->
    preset_of (mkSpec slot names (PresetLogic p PresetCount)) (counts slot names)
| of_high slot names f src : forallb group_name names = true -> u64_column f -> derived_source p (fields s) f = Some src ->
    preset_of (mkSpec slot names (PresetLogic p (PresetHighWater f))) (high_waters src slot names)
| of_low slot names f src : forallb group_name names = true -> u64_column f -> derived_source p (fields s) f = Some src ->
    preset_of (mkSpec slot names (PresetLogic p (PresetLowWater f))) (low_waters src slot names).

Lemma preset_twin rs lr : preset_of rs lr -> reduce_twin p dc (image_of (fields s)) rs lr.
Proof. intros [slot names G|slot names f src G U E|slot names f src G U E]; [by apply count_twin|by apply high_twin|by apply low_twin]. Qed.

(** An exported collection is a twin. *)
Lemma export_twin : Forall2 (reduce_twin p dc (image_of (fields s))) (dt_reduces dc) reds -> twin p dc (image_of (fields s)).
Proof.
  intros Fr. split; try apply Ex.
  - exact twin_key.
  - intros k kb r m Hk Ek Hr Hs. by apply twin_entries.
  - exact twin_encode.
  - exact twin_decode.
  - intros T VT s0 m. destruct (ex_schema Ex) as [(descs & Ed & Eh & _) _ _ _]. unfold resolve_vocab_labels. rewrite Eh.
    apply labels_plain. eapply hot_no_vocab; [apply Ex|done].
  - exact Fr.
Qed.

(** C18: a run-time collection is a twin of the declared documents it shares a
    table with.  Over the exported schema of a declaration without lead faces,
    whose fields are of kinds a map can hand in, with access methods that mirror
    the declared ones, path indexes on slots of their own, and the shipped presets
    for the declared [Count], [HighWater] and [LowWater]: keys decode with their
    declared width, a map that shows a row gives the row's payload and entries byte
    for byte, a stored payload shows its row, and every accumulator folds and
    unfolds as the declared one does. *)
Theorem exported_collection_twin : Forall2 preset_of (dt_reduces dc) reds -> twin p dc (image_of (fields s)).
Proof. intros F. apply export_twin. eapply Forall2_impl; [exact F|]. exact preset_twin. Qed.
End Exporting.
