(* ===== verification/DynDocs.v ===== *)
(** * Documents of run-time collections (okm-dynamic, [plan.rs], [collection.rs])

    A document is a row and a dynamic map.  [dyn_at] says that contents represent a
    table of rows, a map of dynamic maps, the vocabulary of their names and the
    path entries the maps produce.  Proved here: the row half of a plan and its
    dynamic half each keep the representation, whatever the other half is. *)
From S2P Require Import Prelude Errors Storage Slots Vocab VarInt DynValue Segment Fields Payload Keys Index Meta Reduces Collection Declared Table Bridge Changelog LogFrames Schema Dynamic DynCodec Paths DynIndex DynFields DynPaths DynPlan DynTable DynRows.

Section Docs.
Context {K R : Type} `{HK : KeyEncode K} `{HL : !KeyLaws K} `{HD : !Document K R} `{HDL : !DocumentLaws K R} {S : Type}.
Variables (p : profile) (capacity : Z) (dc : DynamicCollection S) (img : R -> bytes -> option Value).
Hypothesis Tw : twin p dc img.

Abbreviation h := (header (K := K) (R := R)).
Abbreviation reds := (doc_reds (K := K) (R := R)).
Abbreviation sch := (dt_schema dc).
Abbreviation ams := (dt_indexes dc).
Abbreviation row_key := (Table.pkey (K := K) (R := R)).
Abbreviation seg_key := (skey (K := K) (R := R)).
Abbreviation pface := (path_face h ams).
Abbreviation pkeys := (path_keys h ams).
Implicit Types (k : K) (r : R) (M : gmap bytes (K * R)) (G : gmap bytes ValueMap) (kb key : bytes) (c : gmap bytes bytes) (ls : list bytes).

(** ** The representation *)

(** A segment reads as a map, with a mirror of the vocabulary or of a longer one. *)
Definition seg_reads ls (body : bytes) (g : ValueMap) : Prop :=
  forall d ls2, mirror_ok d (ls ++ ls2) -> fields_from_frames p capacity body d = Ok g.

Record dyn_at c M G ls : Prop := {
  da_table : table_at c M;
  da_sizes kb kr : M !! kb = Some kr -> zlen (payload_b (K := K) kr.2) < 2 ^ 63;
  da_keys kb : is_Some (G !! kb) -> zlen kb = key_len sch;
  da_vocab : vocab_at 2 h FIELD_VOCAB c ls;
  da_segs kb : match G !! kb with
               | Some g => exists body, c !! seg_key kb = Some body /\ seg_reads ls body g
               | None => c !! seg_key kb = None
               end;
  da_sorted kb g : G !! kb = Some g -> StronglySorted bytes_lt (map fst g);
  da_paths key v : pface key -> c !! key = Some v <-> v = [] /\ exists kb g, G !! kb = Some g /\ key ∈ pkeys kb g
}.

Lemma seg_reads_longer ls more body g : seg_reads ls body g -> seg_reads (ls ++ more) body g.
Proof. intros H d ls2 Hm. eapply (H d (more ++ ls2)). by rewrite app_assoc. Qed.

(** ** Keys apart *)

Lemma path_slots : Forall (λ am, by_path am = true -> slot_ok (am_slot am)) ams.
Proof using Tw.
  pose proof (tw_paths _ _ _ Tw) as F. eapply Forall_impl; [exact F|]. intros am. unfold path_slot, by_path. destruct (am_kind am); by intros [? _] || done.
Qed.

(** A path entry, by its slot. *)
Lemma path_face_slot key : pface key -> exists s t, key = h ++ slot_bytes s ++ t /\ slot_ok s /\ 0x1000 <= s /\
  (s ∉ live_faces K R) /\ Forall (λ lr, red_slot (lr_reduce lr) <> s) reds.
Proof using Tw.
  intros (am & t & Hin & B & ->). exists (am_slot am), t. split; [done|]. pose proof (tw_paths _ _ _ Tw) as F. rewrite Forall_forall in F.
  specialize (F am Hin). unfold path_slot, by_path in *. by destruct (am_kind am).
Qed.

Lemma vocab_slot key : on_faces h FIELD_VOCAB key -> exists s t, key = h ++ slot_bytes s ++ t /\ slot_ok s /\ (s = 2 \/ s = 3).
Proof. intros [x [-> | ->]]; eexists _, x; (split; [done|]); (split; [apply FIELD_VOCAB_ok|]); [by left|by right]. Qed.

(** What a row's writes touch, by its slot. *)
Lemma touches_slot kb key : touches (K := K) (R := R) kb key -> exists s t, key = h ++ slot_bytes s ++ t /\ slot_ok s /\
  (s = 0 \/ 0x1000 <= s /\ (s ∈ live_faces K R \/ exists lr, lr ∈ reds /\ red_slot (lr_reduce lr) = s)).
Proof.
  intros [->|[(s & t & Hs & ->)|(lr & g & Hin & ->)]].
  - exists PRIMARY_SLOT, kb. split; [done|]. split; [apply PRIMARY_ok|by left].
  - exists s, t. split; [done|]. destruct (live_slot s Hs). auto.
  - exists (red_slot (lr_reduce lr)), g. split; [done|]. destruct (red_slot_ok lr Hin) as (? & ? & _). eauto 8.
Qed.

Lemma slots_meet s s' t t' : slot_ok s -> slot_ok s' -> h ++ slot_bytes s ++ t = h ++ slot_bytes s' ++ t' -> s = s'.
Proof. intros Hs Hs' E. by apply app_inv_head, slot_bytes_prefix_free in E. Qed.

(** The regions of a collection do not meet. *)
Lemma row_apart kb key : touches (K := K) (R := R) kb key -> ~ on_faces h FIELD_VOCAB key /\ (forall kb', key <> seg_key kb') /\ ~ pface key.
Proof using Tw.
  intros (s & t & -> & Hs & Cs)%touches_slot. split_and!.
  - intros (s' & t' & E & Hs' & C)%vocab_slot. apply slots_meet in E as ->; [|done..]. destruct C as [-> | ->], Cs as [?|[? _]]; unfold Slot in *; lia.
  - intros kb' E. unfold skey in E. apply slots_meet in E as ->; [|done|apply DYNAMIC_ok]. unfold DYNAMIC_SLOT in Cs. destruct Cs as [?|[? _]]; unfold Slot in *; lia.
  - intros (s' & t' & E & Hs' & C & N1 & N2)%path_face_slot. apply slots_meet in E as ->; [|done..].
    destruct Cs as [?|[_ [?|(lr & Hin & E)]]]; [unfold Slot in *; lia|done|]. rewrite Forall_forall in N2. by apply (N2 lr).
Qed.

Lemma seg_apart kb key : key = seg_key kb -> ~ on_faces h FIELD_VOCAB key /\ ~ pface key.
Proof using Tw.
  intros ->. unfold skey. split.
  - intros (s' & t' & E & Hs' & C)%vocab_slot. apply slots_meet in E; [|apply DYNAMIC_ok|done]. unfold DYNAMIC_SLOT in E. destruct C; unfold Slot in *; lia.
  - intros (s' & t' & E & Hs' & C & _)%path_face_slot. apply slots_meet in E; [|apply DYNAMIC_ok|done]. unfold DYNAMIC_SLOT in E. unfold Slot in *; lia.
Qed.

Lemma path_vocab_apart key : pface key -> ~ on_faces h FIELD_VOCAB key.
Proof using Tw.
  intros (s & t & -> & Hs & C & _)%path_face_slot (s' & t' & E & Hs' & C')%vocab_slot. apply slots_meet in E as ->; [|done..]. destruct C'; unfold Slot in *; lia.
Qed.

Lemma seg_key_inj kb kb' : seg_key kb = seg_key kb' -> kb = kb'.
Proof. unfold skey. intros E. by repeat apply app_inv_head in E. Qed.

(** ** The row half *)

Lemma row_step c M G ls M' kb rops : dyn_at c M G ls -> table_at (apply_batch c rops) M' ->
  Forall (λ op : EngineOp, touches (K := K) (R := R) kb op.1) rops ->
  (forall kb kr, M' !! kb = Some kr -> zlen (payload_b (K := K) kr.2) < 2 ^ 63) -> dyn_at (apply_batch c rops) M' G ls.
Proof using Tw.
  intros D T F Sz. assert (forall key, ~ touches (K := K) (R := R) kb key -> apply_batch c rops !! key = c !! key) as Fr.
  { intros key N. apply apply_other. intros (op & -> & Hin)%list_elem_of_fmap. rewrite Forall_forall in F. by apply N, F. }
  split; [done|done|apply D|..].
  - eapply entries_at_same; [|apply D]. intros key Hk. apply Fr. intros X. by apply row_apart in X as (? & _).
  - intros kb'. rewrite Fr; [apply D|]. intros X. apply row_apart in X as (_ & N & _). by apply (N kb').
  - apply D.
  - intros key v Hk. rewrite Fr; [by apply D|]. intros X. by apply row_apart in X as (_ & _ & ?).
Qed.
(** ** The dynamic half *)

(** A map that fits a segment, whose names the vocabulary has room for. *)
Definition fields_fit ls (m : ValueMap) : Prop :=
  StronglySorted bytes_lt (map fst m) /\ exists nms, Forall (λ x, utf8_valid x = true) nms /\ zlen ls + zlen nms < 2 ^ 16 /\
  Forall (λ kv, kv.1 ∈ nms) m /\ Forall (λ kv, storable capacity (λ x, x ∈ nms) kv.2) m /\
  fold_right (λ kv n, weight (value_to_dyn_value kv.2) + 13 + n) 0 m < 2 ^ 49.

Definition set_segment kb (m : ValueMap) G : gmap bytes ValueMap := match m with [] => delete kb G | _ => <[kb := widened m]> G end.

Lemma fields_planned c ls kb m d : m = [] \/ mirror_ok d ls -> vm_written d = [] -> vocab_at 2 h FIELD_VOCAB c ls -> fields_fit ls m ->
  exists d' plan more vops body, plan_put_fields p h kb m d = (d', Ok plan) /\
  pf_ops plan = vops ++ [(seg_key kb, match m with [] => None | _ => Some body end)] /\
  Forall (λ op : EngineOp, on_faces h FIELD_VOCAB op.1) vops /\
  vocab_at 2 h FIELD_VOCAB (apply_batch c (pf_ops plan)) (ls ++ more) /\ (m <> [] -> seg_reads (ls ++ more) body (widened m)).
Proof using Tw.
  intros Hm Hw V (Hs & nms & Hu & Hroom & Hin & Hst & Hwt). destruct (decide (m = [])) as [->|N].
  - assert (plan_put_fields p h kb [] d = (take_written d, Ok (mkPlannedFields [(seg_key kb, None)] []))) as ->.
    { unfold plan_put_fields. change (put_all p (plan_id_for h) (map (λ kv, (kv.1, value_to_dyn_value kv.2)) []) [] (d, [])) with ((d, [] : list EngineOp), Ok (E := Error) ([] : bytes)).
      rewrite cursor_key_ok, fields_key_ok by apply FIELD_VOCAB_ok. by rewrite Hw. }
    eexists _, _, [], [], [].
    split; [reflexivity|]. cbn [pf_ops app]. split; [done|]. split; [done|]. split; [|done]. rewrite app_nil_r.
    eapply entries_at_same; [|exact V]. intros key Hk. apply lookup_delete_ne. intros E. by destruct (seg_apart kb (seg_key kb) eq_refl) as [X _]; rewrite <- E in Hk.
  - destruct Hm as [?|Hm]; [done|].
    pose proof (plan_written (S := MemStore) p capacity c h ls nms) as W. destruct (W V Hu Hroom d kb m Hm Hw Hs Hin Hst Hwt)
      as (b & plan & d' & more & vops & body & _ & E2 & _ & V' & _ & _ & _ & Eo & Fo & _ & Hr).
    exists d', plan, more, vops, body. by split_and!.
Qed.

Lemma existsb_path : has_path_index dc = existsb by_path ams.
Proof. done. Qed.

(** The entries a plan sweeps or writes. *)
Lemma path_ops kb m write : exists es : list (bytes * bytes), path_entry_ops dc kb m write = Ok (map (λ e, (e.1, if write then Some [] else None)) es) /\
  (forall key, key ∈ map fst es <-> has_path_index dc = true /\ key ∈ pkeys kb m).
Proof using Tw.
  unfold path_entry_ops. rewrite (tw_ns _ _ _ Tw). destruct (has_path_index dc) eqn:E; cbn [negb].
  - destruct (path_entries_total h ams path_slots kb m) as (es & Ee & F). exists es. rewrite Ee. cbn [mbind outcome_bind]. split.
    + f_equal. apply map_ext_in. intros e He. rewrite Forall_forall in F. destruct (F e) as (-> & _); [by apply list_elem_of_In|]. by destruct write.
    + intros key. unfold path_keys. rewrite Ee. tauto.
  - exists []. split; [done|]. intros key. cbn [map]. rewrite elem_of_nil. by split; [|intros [? _]].
Qed.

Lemma lookup_written (l : list (bytes * bytes)) c key : apply_batch c (map (λ e, (e.1, Some [])) l) !! key = if decide (key ∈ map fst l) then Some [] else c !! key.
Proof.
  revert c. induction l as [|[x y] l IH]; intros c; [by rewrite decide_False by apply not_elem_of_nil|]. cbn [map fst].
  change (apply_batch (<[x := []]> c) (map (λ e, (e.1, Some [])) l) !! key = if decide (key ∈ x :: map fst l) then Some [] else c !! key). rewrite IH.
  destruct (decide (key ∈ map fst l)); [by rewrite decide_True by (by right)|]. destruct (decide (key = x)) as [->|N].
  - by rewrite decide_True, lookup_insert_eq by (by left).
  - by rewrite decide_False, lookup_insert_ne by (rewrite ?elem_of_cons; naive_solver).
Qed.

Lemma lookup_swept (l : list (bytes * bytes)) c key : apply_batch c (map (λ e, (e.1, None)) l) !! key = if decide (key ∈ map fst l) then None else c !! key.
Proof. pose proof (lookup_deleted (map fst l) c key) as E. by rewrite map_map in E. Qed.

(** A segment's writes change the segment, its names and its path entries only. *)
Lemma segment_step c c' M G ls more kb m body : dyn_at c M G ls -> zlen kb = key_len sch -> StronglySorted bytes_lt (map fst m) ->
  vocab_at 2 h FIELD_VOCAB c' (ls ++ more) -> c' !! seg_key kb = match m with [] => None | _ => Some body end ->
  (m <> [] -> seg_reads (ls ++ more) body (widened m)) ->
  (forall key, ~ on_faces h FIELD_VOCAB key -> key <> seg_key kb -> ~ pface key -> c' !! key = c !! key) ->
  (forall key, pface key -> c' !! key = if decide (key ∈ pkeys kb m) then Some []
    else if decide (key ∈ match G !! kb with Some g => pkeys kb g | None => [] end) then None else c !! key) ->
  dyn_at c' M (set_segment kb m G) (ls ++ more).
Proof using Tw.
  intros D Hkb Hm V Es Hr Plain Paths.
  assert (forall kb', kb' <> kb -> set_segment kb m G !! kb' = G !! kb') as Other.
  { intros kb' N. unfold set_segment. destruct m; [by rewrite lookup_delete_ne|by rewrite lookup_insert_ne]. }
  assert (set_segment kb m G !! kb = match m with [] => None | _ => Some (widened m) end) as Own.
  { unfold set_segment. destruct m; [by rewrite lookup_delete_eq|by rewrite lookup_insert_eq]. }
  split.
  - apply (table_at_frame c); [|apply D]. intros key Hk.
    assert (touches (K := K) (R := R) kb key \/ exists kb', touches (K := K) (R := R) kb' key) as X.
    { destruct Hk as [[kb' ->]|Hk]; [right; exists kb'; by left|left; by right]. }
    assert (exists kb', touches (K := K) (R := R) kb' key) as (kb' & X') by (destruct X; eauto).
    apply row_apart in X' as (N1 & N2 & N3). by apply Plain.
  - apply D.
  - intros kb' Hs. destruct (decide (kb' = kb)) as [->|N]; [done|]. rewrite Other in Hs by done. by apply (da_keys _ _ _ _ D).
  - done.
  - intros kb'. destruct (decide (kb' = kb)) as [->|N].
    + rewrite Own, Es. destruct m; [done|]. exists body. split; [done|]. by apply Hr.
    + rewrite Other by done. pose proof (da_segs _ _ _ _ D kb') as Ds. destruct (seg_apart kb' _ eq_refl) as [N1 N2].
      rewrite Plain; [|done|intros E; by apply N, seg_key_inj|done]. destruct (G !! kb'); [|done].
      destruct Ds as (b & ? & Rd). exists b. split; [done|]. by apply seg_reads_longer.
  - intros kb' g. destruct (decide (kb' = kb)) as [->|N]; [|rewrite Other by done; apply D]. rewrite Own. destruct m as [|kv m]; [done|].
    intros E. assert (g = widened (kv :: m)) as -> by congruence. by rewrite widened_keys.
  - intros key v Hk. rewrite Paths by done.
    assert ((exists kb' g, set_segment kb m G !! kb' = Some g /\ key ∈ pkeys kb' g) <->
      key ∈ pkeys kb m \/ exists kb' g, kb' <> kb /\ G !! kb' = Some g /\ key ∈ pkeys kb' g) as ->.
    { split.
      - intros (kb' & g & E & Hin). destruct (decide (kb' = kb)) as [->|N]; [|right; exists kb', g; by rewrite Other in E].
        rewrite Own in E. left. destruct m as [|kv m]; [done|].
        assert (g = widened (kv :: m)) as -> by congruence. unfold path_keys in *. by rewrite path_entries_widen in Hin.
      - intros [Hin|(kb' & g & N & E & Hin)]; [|exists kb', g; by rewrite Other]. exists kb, (widened m). rewrite Own.
        destruct m; [unfold path_keys in Hin; rewrite path_entries_nil in Hin; by apply elem_of_nil in Hin|]. split; [done|].
        unfold path_keys in *. by rewrite path_entries_widen. }
    destruct (decide (key ∈ pkeys kb m)) as [Hin|Hin]; [split; [intros [= <-]; auto|by intros [-> _]]|].
    assert (forall kb' g g', G !! kb' = Some g -> key ∈ pkeys kb' g -> key ∈ pkeys kb g' -> kb' = kb) as Same.
    { intros kb' g g' E H1 H2. eapply path_keys_owner; [exact path_slots| |exact H1|exact H2].
      pose proof (da_keys _ _ _ _ D kb' (ex_intro _ _ E)). unfold zlen in *. lia. }
    case_decide as Ho.
    + split; [done|]. intros [_ [?|(kb' & g & N & E & Hg)]]; [done|]. destruct (G !! kb) as [g0|]; [|by apply elem_of_nil in Ho]. by destruct N; eapply Same.
    + rewrite (da_paths _ _ _ _ D key v Hk). split; intros [-> X]; (split; [done|]).
      * destruct X as (kb' & g & E & Hg). right. exists kb', g. split; [|done]. intros ->. by rewrite E in Ho.
      * destruct X as [?|(kb' & g & N & E & Hg)]; [done|]. by exists kb', g.
Qed.
Lemma Forall_keys {A} (P : bytes -> Prop) (l : list (bytes * A)) key : Forall (λ e, P e.1) l -> ~ P key -> key ∉ map fst l.
Proof. intros F N (e & -> & Hin)%list_elem_of_fmap. rewrite Forall_forall in F. by apply N, F. Qed.

(** The segment, then the swept and the written entries. *)
Lemma halves_lookup (segs : list EngineOp) (es1 es2 : list (bytes * bytes)) c key :
  apply_batch c (segs ++ map (λ e, (e.1, None)) es1 ++ map (λ e, (e.1, Some [])) es2) !! key =
  if decide (key ∈ map fst es2) then Some [] else if decide (key ∈ map fst es1) then None else apply_batch c segs !! key.
Proof. by rewrite !apply_batch_app, lookup_written, lookup_swept. Qed.

Definition stored_seg kb G old : Prop := has_path_index dc = true -> old = G !! kb.

Lemma path_faces_of es kb m write : path_entry_ops dc kb m write = Ok (map (λ e : bytes * bytes, (e.1, if write then Some [] else None)) es) ->
  (forall key, key ∈ map fst es <-> has_path_index dc = true /\ key ∈ pkeys kb m) -> forall key, key ∈ map fst es -> pface key.
Proof using Tw. intros _ I key [_ Hin]%I. by apply path_keys_faces in Hin as [? _]; [|exact path_slots]. Qed.

(** [plan_dynamic] sets the segment. *)
Lemma dynamic_step c M G ls kb old m d plan : dyn_at c M G ls -> zlen kb = key_len sch -> stored_seg kb G old ->
  m = [] \/ mirror_ok d ls -> vm_written d = [] -> fields_fit ls m ->
  exists d' plan' fops more, plan_dynamic p dc kb old m d plan = (d', Ok plan') /\ pw_ops plan' = pw_ops plan ++ fops /\
  dyn_at (apply_batch c fops) M (set_segment kb m G) (ls ++ more) /\
  forall key, ~ on_faces h FIELD_VOCAB key -> key <> seg_key kb -> ~ pface key -> apply_batch c fops !! key = c !! key.
Proof using Tw.
  intros D Hkb Ho Hm Hw Hf. destruct (fields_planned c ls kb m d Hm Hw (da_vocab _ _ _ _ D) Hf) as (d' & fplan & more & vops & body & E & Eo & Fo & V & Hr).
  destruct (path_ops kb m true) as (es2 & E2 & I2).
  assert (exists es1, match old with Some old => path_entry_ops dc kb old false | None => Ok [] end = Ok (map (λ e : bytes * bytes, (e.1, None)) es1) /\
    forall key, key ∈ map fst es1 <-> has_path_index dc = true /\ key ∈ match G !! kb with Some g => pkeys kb g | None => [] end) as (es1 & E1 & I1).
  { destruct old as [g|].
    - destruct (path_ops kb g false) as (es1 & E1 & I1). exists es1. split; [done|]. intros key. rewrite I1. split; intros [B Hin]; specialize (Ho B); by rewrite <- Ho in *.
    - exists []. split; [done|]. intros key. cbn [map]. rewrite elem_of_nil. split; [done|]. intros [B Hin]. rewrite <- (Ho B) in Hin. by apply elem_of_nil in Hin. }
  assert (forall key, key ∈ map fst es1 \/ key ∈ map fst es2 -> pface key) as PF.
  { intros key [[_ Hin]%I1|[_ Hin]%I2]; [destruct (G !! kb); [|by apply elem_of_nil in Hin]|]; by apply path_keys_faces in Hin as [? _]; [|exact path_slots..]. }
  unfold plan_dynamic. rewrite (tw_ns _ _ _ Tw), E. cbn [mbind outcome_bind]. rewrite E1. cbn [mbind outcome_bind]. rewrite E2. cbn [mbind outcome_bind].
  eexists d', _, (pf_ops fplan ++ map (λ e, (e.1, None)) es1 ++ map (λ e, (e.1, Some [])) es2), more. split; [reflexivity|]. split; [done|].
  assert (forall key, ~ pface key -> apply_batch c (pf_ops fplan ++ map (λ e, (e.1, None)) es1 ++ map (λ e, (e.1, Some [])) es2) !! key =
    apply_batch c (pf_ops fplan) !! key) as NP.
  { intros key N. rewrite halves_lookup, !decide_False; [done|intros X; apply N, PF; auto..]. }
  assert (forall key, ~ on_faces h FIELD_VOCAB key -> key <> seg_key kb -> apply_batch c (pf_ops fplan) !! key = c !! key) as NS.
  { intros key N1 N2. apply apply_other. rewrite Eo, map_app. intros [X|X%list_elem_of_singleton]%elem_of_app; [|done]. revert X. by apply Forall_keys with (1 := Fo). }
  assert (forall key, ~ on_faces h FIELD_VOCAB key -> key <> seg_key kb -> ~ pface key ->
    apply_batch c (pf_ops fplan ++ map (λ e, (e.1, None)) es1 ++ map (λ e, (e.1, Some [])) es2) !! key = c !! key) as Plain.
  { intros key N1 N2 N3. by rewrite NP, NS. }
  split; [|exact Plain]. destruct (seg_apart kb _ eq_refl) as [Sv Sp]. apply (segment_step c _ M G ls more kb m body D Hkb); [apply Hf| | |done|done|].
  - eapply entries_at_same; [|exact V]. intros key Hk. apply NP. intros X. by apply path_vocab_apart in X.
  - rewrite NP by done. rewrite Eo, apply_batch_snoc. unfold apply_op. cbn [fst snd]. destruct m; [by rewrite lookup_delete_eq|by rewrite lookup_insert_eq].
  - intros key Hk. rewrite halves_lookup, NS; [|by apply path_vocab_apart|by intros ->].
    assert (has_path_index dc = true) as B.
    { destruct (has_path_index dc) eqn:X; [done|]. by apply (path_face_indexed h ams key) in X. }
    destruct (decide (key ∈ map fst es2)) as [X|X]; rewrite I2 in X.
    + rewrite decide_True; tauto.
    + rewrite (decide_False (P := key ∈ pkeys kb m)) by tauto. destruct (decide (key ∈ map fst es1)) as [Y|Y]; rewrite I1 in Y; [by rewrite decide_True; tauto|].
      by rewrite decide_False; tauto.
Qed.
(** [plan_purge]'s dynamic half removes the segment. *)
Lemma purge_step c M G ls kb g : dyn_at c M G ls -> G !! kb = Some g ->
  exists swept, path_entry_ops dc kb g false = Ok swept /\ dyn_at (apply_batch c (swept ++ [(seg_key kb, None)])) M (delete kb G) ls /\
  forall key, key <> seg_key kb -> ~ pface key -> apply_batch c (swept ++ [(seg_key kb, None)]) !! key = c !! key.
Proof using Tw.
  intros D Eg. pose proof (da_keys _ _ _ _ D kb (ex_intro _ _ Eg)) as Hkb. destruct (path_ops kb g false) as (es & E & I).
  exists (map (λ e, (e.1, None)) es). split; [done|]. destruct (seg_apart kb _ eq_refl) as [Sv Sp].
  assert (forall key, key <> seg_key kb -> apply_batch c (map (λ e, (e.1, None)) es ++ [(seg_key kb, None)]) !! key =
    if decide (key ∈ map fst es) then None else c !! key) as L.
  { intros key N. rewrite apply_batch_snoc. unfold apply_op. cbn [fst snd]. by rewrite lookup_delete_ne, lookup_swept. }
  assert (forall key, key <> seg_key kb -> ~ pface key -> apply_batch c (map (λ e, (e.1, None)) es ++ [(seg_key kb, None)]) !! key = c !! key) as Plain.
  { intros key N1 N2. rewrite L, decide_False; [done| |done]. intros [_ X]%I. by apply path_keys_faces in X as [? _]; [|exact path_slots]. }
  split; [|exact Plain]. change (delete kb G) with (set_segment kb [] G). rewrite <- (app_nil_r ls).
  apply (segment_step c _ M G ls [] kb [] [] D Hkb); [constructor| | |done|by intros; apply Plain|].
  - rewrite app_nil_r. eapply entries_at_same; [|apply D]. intros key Hk. apply Plain; [by intros ->|]. intros X. by apply path_vocab_apart in X.
  - rewrite apply_batch_snoc. unfold apply_op. cbn [fst snd]. apply lookup_delete_eq.
  - intros key Hk. rewrite L by by intros ->. rewrite Eg.
    assert (pkeys kb [] = []) as -> by (unfold path_keys; by rewrite path_entries_nil). rewrite (decide_False (P := key ∈ [])) by apply not_elem_of_nil.
    assert (has_path_index dc = true) as B.
    { destruct (has_path_index dc) eqn:X; [done|]. by apply (path_face_indexed h ams key) in X. }
    destruct (decide (key ∈ map fst es)) as [X|X]; rewrite I in X; [by rewrite decide_True; tauto|by rewrite decide_False; tauto].
Qed.

(** ** Maps of a write *)

(** The document a fetch answers: the dynamic names over the row's. *)
Definition document_shows M G kb (n : bytes) : option Value :=
  match g ← G !! kb; btree_get n g with
  | Some v => Some v
  | None => if is_payload_field dc n then r ← old_of M kb; img r n else None
  end.

Lemma split_sorted (m : ValueMap) (f : bytes * Value -> bool) : StronglySorted bytes_lt (map fst m) -> StronglySorted bytes_lt (map fst (List.filter f m)).
Proof.
  induction m as [|kv m IH]; cbn [map List.filter]; intros Hs; [done|]. apply StronglySorted_inv in Hs as [Hs Hf].
  destruct (f kv); [|by apply IH]. cbn [map]. constructor; [by apply IH|]. rewrite Forall_forall in Hf |- *. intros x (y & -> & Hy)%list_elem_of_fmap.
  apply Hf, list_elem_of_fmap. exists y. split; [done|]. apply list_elem_of_In in Hy. apply filter_In in Hy as [Hy _]. by apply list_elem_of_In.
Qed.

Lemma split_gets (m : ValueMap) (f : bytes -> bool) n : btree_get n (List.filter (λ kv, f kv.1) m) = if f n then btree_get n m else None.
Proof.
  induction m as [|[x v] m IH]; cbn [List.filter fst]; [by destruct (f n)|]. destruct (f x) eqn:E; cbn [btree_get].
  - destruct (decide (x = n)) as [->|N]; [by rewrite E|exact IH].
  - rewrite IH. destruct (f n) eqn:E2; [|done]. destruct (decide (x = n)) as [->|N]; [congruence|done].
Qed.

(** The row a write starts from, and that all of it is declared. *)
Lemma row_map_shows k kb carried : id_ok k -> encode k = Ok kb ->
  Forall (λ m, StronglySorted bytes_lt (map fst m) /\ Forall (λ kv, is_payload_field dc kv.1 = true) m) carried ->
  exists m, row_base p dc kb carried = Ok m /\ owned dc m /\ forall n, is_payload_field dc n = true ->
  btree_get n m = match btree_get n (fold_left extend carried []) with
    | Some v => Some v | None => schema_default <$> named_in (hot_fields sch ++ cold_fields sch) n end.
Proof using Tw.
  intros Hk Ek Hc. destruct (tw_key _ _ _ Tw k kb Hk Ek) as (_ & km & Ekm & Hkm & Own & Npay).
  unfold row_base. rewrite Ekm. cbn [codec_text mbind outcome_bind]. eexists. split; [reflexivity|].
  assert (forall l out, StronglySorted bytes_lt (map fst out) /\ owned dc out ->
    Forall (λ m, StronglySorted bytes_lt (map fst m) /\ Forall (λ kv, is_payload_field dc kv.1 = true) m) l ->
    StronglySorted bytes_lt (map fst (fold_left extend l out)) /\ owned dc (fold_left extend l out)) as Carry.
  { induction l as [|m l IH]; intros out [Hs Ho] F; [done|]. apply Forall_cons in F as [[Hm Fm] F]. cbn [fold_left]. apply IH; [|done].
    split; [by apply extend_sorted|]. apply Forall_forall. intros kv Hkv. assert (kv.1 ∈ map fst (extend out m)) as [X|X]%extend_keys by (apply list_elem_of_fmap; by exists kv);
      apply list_elem_of_fmap in X as (x & E & Hx); rewrite E; [rewrite Forall_forall in Fm; by apply payload_declared, Fm|unfold owned in Ho; rewrite Forall_forall in Ho; by apply Ho]. }
  destruct (Carry carried []) as [Hs Ho]; [split; constructor|done|].
  assert (forall n, is_payload_field dc n = true -> btree_get n (extend (fold_left extend carried []) km) = btree_get n (fold_left extend carried [])) as Keep.
  { intros n Hn. rewrite btree_get_extend by by apply sorted_NoDup. rewrite btree_get_None; [done|].
    intros (x & E & Hx)%list_elem_of_fmap. rewrite Forall_forall in Npay. specialize (Npay x Hx). rewrite <- E in Npay. congruence. }
  split.
  - unfold fill_schema_defaults. assert (owned dc (extend (fold_left extend carried []) km)) as Oe.
    { apply Forall_forall. intros kv Hkv. assert (kv.1 ∈ map fst (extend (fold_left extend carried []) km)) as [X|X]%extend_keys by (apply list_elem_of_fmap; by exists kv);
        apply list_elem_of_fmap in X as (x & E & Hx); rewrite E; unfold owned in *; rewrite Forall_forall in *; auto. }
    revert Oe. generalize (extend (fold_left extend carried []) km). assert (forall f, f ∈ hot_fields sch ++ cold_fields sch -> is_declared dc (f_name f) = true) as Decl.
    { intros f Hf. apply payload_declared. unfold is_payload_field. apply existsb_exists. exists f. split; [by apply list_elem_of_In|]. by apply bool_decide_eq_true. }
    revert Decl. generalize (hot_fields sch ++ cold_fields sch). induction l as [|f l IH]; intros Decl m Oe; [done|]. cbn [fold_left].
    apply IH; [intros g Hg; apply Decl; by right|]. unfold fill_default. destruct (btree_get _ _); [done|].
    apply Forall_forall. intros kv Hkv. assert (kv.1 ∈ map fst (btree_insert (f_name f) (schema_default f) m)) as [X|X]%elem_of_btree_insert by (apply list_elem_of_fmap; by exists kv).
    + rewrite X. apply Decl. by left.
    + apply list_elem_of_fmap in X as (x & E & Hx). rewrite E. unfold owned in Oe. rewrite Forall_forall in Oe. by apply Oe.
  - intros n Hn. unfold fill_schema_defaults. rewrite DynCodec.gets_fills, Keep by done. done.
Qed.
End Docs.
