(* ===== verification/DynVerbs.v ===== *)
(** * Verbs of run-time collections (okm-dynamic, [collection.rs])

    Over a store whose contents represent a table of rows and a map of dynamic
    maps, [dyn_merge], [dyn_replace] and [dyn_purge] are the updates of the two
    maps their names say, in one commit, and [dyn_fetch] answers both halves. *)
From S2P Require Import Prelude Errors Storage Slots Vocab VarInt DynValue Segment Fields Payload Keys Index Meta Reduces Collection Declared Table Bridge Changelog LogFrames Schema Dynamic DynCodec Paths DynIndex DynFields DynPaths DynPlan DynTable DynRows DynDocs.

Section Verbs.
Context {K R : Type} `{HK : KeyEncode K} `{HL : !KeyLaws K} `{HD : !Document K R} `{HDL : !DocumentLaws K R}.
Context {S : Type} `{HS : VirtualStorage S} `{HR : !ReliableStorage S}.
Variables (p : profile) (capacity : Z) (img : R -> bytes -> option Value).

Abbreviation h := (header (K := K) (R := R)).
Abbreviation held_by dc := (contents (dt_store dc)).
Implicit Types (k : K) (r : R) (M : gmap bytes (K * R)) (G : gmap bytes ValueMap) (kb key : bytes) (c : gmap bytes bytes) (ls : list bytes)
  (dc : DynamicCollection S).

(** The store of a collection represents its documents. *)
Definition docs_at dc M G ls : Prop := dyn_at (R := R) p capacity dc (held_by dc) M G ls.

(** The vocabulary's slots can be scanned. *)
Definition vocab_scans dc : Prop := bytes_ok h /\ long_keys (held_by dc) (h ++ slot_bytes FIELD_VOCAB_ID_SLOT) /\
  long_keys (held_by dc) (h ++ slot_bytes FIELD_VOCAB_NAME_SLOT).

(** ** Reads *)

Lemma mirror_of dc M G ls : docs_at dc M G ls -> vocab_scans dc ->
  exists d, VocabMirror_load (dt_store dc) h = Ok d /\ mirror_ok d ls /\ vm_written d = [].
Proof.
  intros D (Hh & H1 & H2). apply mirror_loads; [apply D| |done..]. destruct (at_cursor _ _ _ _ _ (da_vocab _ _ _ _ _ _ _ D)) as [?|[_ ?]]; auto.
Qed.

(** The stored row, as a map that shows it. *)
Lemma reads_row dc M G ls k kb : twin p dc img -> docs_at dc M G ls -> id_ok k -> encode k = Ok kb ->
  match old_of M kb with
  | Some r => exists m, stored_document p dc kb = Ok (Some m) /\ shows dc img r m /\ StronglySorted bytes_lt (map fst m) /\
      Forall (λ kv, is_payload_field dc kv.1 = true) m
  | None => stored_document p dc kb = Ok None
  end.
Proof.
  intros Tw D Hk Ek. unfold stored_document. rewrite (check_key_ok p dc img k kb Tw Hk Ek). cbn [mbind outcome_bind].
  rewrite (primary_twin p dc img kb Tw). cbn [mbind outcome_bind]. rewrite get_spec. cbn [engine_text mbind outcome_bind].
  rewrite (ta_primary _ _ (da_table _ _ _ _ _ _ _ D)). unfold old_of. destruct (M !! kb) as [kr|] eqn:E; [|done]. cbn [fmap option_fmap option_map].
  destruct (ta_rows _ _ (da_table _ _ _ _ _ _ _ D) kb kr E) as (_ & _ & Hr).
  destruct (tw_decode _ _ _ Tw kr.2 Hr (da_sizes _ _ _ _ _ _ _ D kb kr E)) as (m & Em & Hs & Hm & F).
  exists m. rewrite Em. cbn [codec_text mbind outcome_bind]. by rewrite (tw_ns _ _ _ Tw), (tw_labels _ _ _ Tw).
Qed.

Lemma reads_dynamic dc M G ls kb : twin p dc img -> docs_at dc M G ls -> vocab_scans dc -> dynamic_map p capacity dc kb = Ok (G !! kb).
Proof.
  intros Tw D Sc. unfold dynamic_map. rewrite (tw_ns _ _ _ Tw), fields_key_ok. cbn [mbind outcome_bind]. rewrite get_spec.
  cbn [engine_text mbind outcome_bind]. pose proof (da_segs _ _ _ _ _ _ _ D kb) as Ds. fold (skey (K := K) (R := R) kb).
  destruct (G !! kb) as [g|]; [|by rewrite Ds]. destruct Ds as (body & -> & Rd). destruct (mirror_of dc M G ls D Sc) as (d & -> & Hm & _).
  cbn [mbind outcome_bind]. by rewrite (Rd d []) by by rewrite app_nil_r.
Qed.

Lemma acc_answers dc : answers (K := K) (R := R) (stored_acc dc) (held_by dc).
Proof. intros ek _. unfold stored_acc. by rewrite get_spec. Qed.

(** ** Replaying a plan *)

Lemma ops_of_batch (l : list EngineOp) : ops (ops_batch l) = l.
Proof.
  unfold ops_batch. assert (forall b, ops (fold_left (λ b op, match op.2 with Some v => Batch_put b op.1 v | None => Batch_del b op.1 end) l b) = ops b ++ l) as G; [|apply G].
  induction l as [|[k' [v|]] l IH]; intros b; cbn [fold_left fst snd]; [by rewrite app_nil_r|..]; rewrite IH; unfold Batch_put, Batch_del; cbn [ops]; by rewrite <- app_assoc.
Qed.

(** One commit, or none for no operations. *)
Lemma replayed dc (l : list EngineOp) : exists s', dyn_replay dc l = (with_store dc s', Ok tt) /\ contents s' = apply_batch (held_by dc) l.
Proof.
  destruct l as [|op l]; [exists (dt_store dc); by destruct dc|]. cbn [dyn_replay]. destruct (commit_batch_spec (dt_store dc) (ops_batch (op :: l))) as (s' & -> & E).
  exists s'. split; [done|]. by rewrite E, ops_of_batch.
Qed.

(** A collection keeps its declarations when its store moves on. *)
Lemma docs_moved dc s' M G ls : dyn_at (R := R) p capacity dc (contents s') M G ls -> docs_at (with_store dc s') M G ls.
Proof. intros [A B C D E F P]. split; done. Qed.

(** ** Results *)

(** What a write of declared fields over a base row shows: the fields given, then
    the base's, then the schema's defaults. *)
Definition written_over dc (base : option R) (declared : ValueMap) (n : bytes) : option Value :=
  match btree_get n declared with
  | Some v => Some v
  | None => match (r ← base; img r n) with
            | Some v => Some v
            | None => schema_default <$> named_in (hot_fields (dt_schema dc) ++ cold_fields (dt_schema dc)) n
            end
  end.

(** The row such a write leaves, and that there is room for it. *)
Definition row_written dc k kb (base : option R) (declared : ValueMap) M (new : R) : Prop :=
  row_fits kb (k, new) /\ save_room M kb k new /\ zlen (payload_b (K := K) new) < 2 ^ 63 /\
  forall n, is_payload_field dc n = true -> img new n = written_over dc base declared n.

Lemma sizes_insert dc M G ls k kb r : docs_at dc M G ls -> zlen (payload_b (K := K) r) < 2 ^ 63 ->
  forall kb' kr, <[kb := (k, r)]> M !! kb' = Some kr -> zlen (payload_b (K := K) kr.2) < 2 ^ 63.
Proof.
  intros D Hz kb' kr. destruct (decide (kb = kb')) as [<-|N]; [rewrite lookup_insert_eq; by intros [= <-]|].
  rewrite lookup_insert_ne by done. apply D.
Qed.

Lemma sizes_delete dc M G ls kb : docs_at dc M G ls -> forall kb' kr, delete kb M !! kb' = Some kr -> zlen (payload_b (K := K) kr.2) < 2 ^ 63.
Proof. intros D kb' kr [_ E]%lookup_delete_Some. by apply (da_sizes _ _ _ _ _ _ _ D kb'). Qed.
(** A stored row and the map it was read as. *)
Definition read_as dc (base : option R) (bm : option ValueMap) : Prop :=
  match base, bm with
  | Some r, Some m => shows dc img r m /\ StronglySorted bytes_lt (map fst m) /\ Forall (λ kv, is_payload_field dc kv.1 = true) m
  | None, None => True
  | _, _ => False
  end.

Definition declared_part dc (object : ValueMap) : ValueMap := (split_fields dc object).1.
Definition dynamic_part dc (object : ValueMap) : ValueMap := (split_fields dc object).2.

Lemma declared_part_ok dc object : StronglySorted bytes_lt (map fst object) ->
  StronglySorted bytes_lt (map fst (declared_part dc object)) /\ Forall (λ kv, is_payload_field dc kv.1 = true) (declared_part dc object).
Proof.
  intros Hs. split; [by apply split_sorted|]. apply Forall_forall. intros kv Hkv. unfold declared_part, split_fields in Hkv. cbn [fst] in Hkv.
  apply list_elem_of_In, filter_In in Hkv as [_ E]. exact E.
Qed.

(** The row plan of a merge or a replace is the insertion of the written row. *)
Lemma row_planned dc M G ls k kb base bm declared old new : twin p dc img -> docs_at dc M G ls -> id_ok k -> encode k = Ok kb ->
  read_as dc base bm -> read_as dc (old_of M kb) old -> StronglySorted bytes_lt (map fst declared) -> Forall (λ kv, is_payload_field dc kv.1 = true) declared ->
  row_written dc k kb base declared M new ->
  exists plan, (row_map ← row_base p dc kb (option_list bm ++ [declared]); row ← plan_put p dc kb row_map old (stored_acc dc); Ok (row_plan row)) = Ok plan /\
  dyn_at (R := R) p capacity dc (apply_batch (held_by dc) (pw_ops plan)) (<[kb := (k, new)]> M) G ls /\
  Forall (λ op : EngineOp, touches (K := K) (R := R) kb op.1) (pw_ops plan).
Proof.
  intros Tw D Hk Ek Hb Ho Hd Fd (Hf & Room & Hz & Hn).
  destruct (row_map_shows p dc img Tw k kb (option_list bm ++ [declared]) Hk Ek) as (m & Em & Own & Gm).
  { apply Forall_app. split; [|by constructor]. destruct bm; [|constructor]. destruct base; [|done]. constructor; [|constructor]. by destruct Hb. }
  rewrite Em. cbn [mbind outcome_bind].
  assert (shows dc img new m) as Hs.
  { intros n Hp. rewrite Gm, Hn by done. unfold written_over. rewrite fold_left_app. cbn [fold_left].
    rewrite btree_get_extend by by apply sorted_NoDup. destruct (btree_get n declared); [done|].
    destruct base as [r|], bm as [mb|]; try done; cbn [option_list fold_left mbind option_bind].
    destruct Hb as (Hs & Hsb & _). change (fold_left extend (option_list (Some mb)) []) with (extend [] mb). rewrite btree_get_extend by by apply sorted_NoDup. rewrite Hs by done. by destruct (img r n). }
  destruct (plan_put_twin p dc img (stored_acc dc) (held_by dc) M k kb new m old) as (plan & Ep & T & F); try done; [apply D| |apply acc_answers|].
  { unfold old_shown, read_as in *. destruct (old_of M kb), old; try done. apply Ho. }
  rewrite Ep. cbn [mbind outcome_bind]. eexists. split; [reflexivity|]. split; [|exact F].
  eapply row_step; [done..|]. by eapply sizes_insert.
Qed.
(** Nothing outside the collection's own keys differs. *)
Lemma touched_outside c c' kb : (forall key, ~ touches (K := K) (R := R) kb key -> c' !! key = c !! key) -> same_outside (K := K) (R := R) c c'.
Proof. intros F key N. apply F. intros X. by apply N, (touches_header kb). Qed.

Lemma touched_ops c kb (l : list EngineOp) : Forall (λ op : EngineOp, touches (K := K) (R := R) kb op.1) l -> same_outside (K := K) (R := R) c (apply_batch c l).
Proof.
  intros F. apply (touched_outside _ _ kb). intros key N. apply apply_other. intros (op & -> & Hin)%list_elem_of_fmap. rewrite Forall_forall in F. by apply N, F.
Qed.

Lemma fields_outside dc c c' kb : (forall key, ~ on_faces h FIELD_VOCAB key -> key <> skey (K := K) (R := R) kb -> ~ path_face h (dt_indexes dc) key -> c' !! key = c !! key) ->
  same_outside (K := K) (R := R) c c'.
Proof.
  intros F key N. apply F.
  - intros [x [-> | ->]]; apply N; by eexists.
  - intros ->. apply N. unfold skey. by eexists.
  - intros (am & t & _ & _ & ->). apply N. by eexists.
Qed.

(** The dynamic half of a plan, behind any row half. *)
Lemma fields_planned_over dc M G ls kb c old m d plan : twin p dc img -> dyn_at (R := R) p capacity dc c M G ls -> zlen kb = key_len (dt_schema dc) ->
  stored_seg dc kb G old -> m = [] \/ mirror_ok d ls -> vm_written d = [] -> fields_fit capacity ls m ->
  exists plan' fops more, (plan_dynamic p dc kb old m d plan).2 = Ok plan' /\ pw_ops plan' = pw_ops plan ++ fops /\
  dyn_at (R := R) p capacity dc (apply_batch c fops) M (set_segment kb m G) (ls ++ more) /\ same_outside (K := K) (R := R) c (apply_batch c fops).
Proof.
  intros Tw D Hkb Ho Hm Hw Hf. destruct (dynamic_step p capacity dc img Tw c M G ls kb old m d plan D Hkb Ho Hm Hw Hf) as (d' & plan' & fops & more & E & Eo & D' & F).
  exists plan', fops, more. rewrite E. split_and!; try done. by eapply fields_outside.
Qed.

(** The stored row, read, whatever it is. *)
Lemma reads_stored dc M G ls k kb : twin p dc img -> docs_at dc M G ls -> id_ok k -> encode k = Ok kb ->
  exists old, stored_document p dc kb = Ok old /\ read_as dc (old_of M kb) old.
Proof.
  intros Tw D Hk Ek. pose proof (reads_row dc M G ls k kb Tw D Hk Ek) as Rr.
  destruct (old_of M kb) as [r|]; [|by exists None]. destruct Rr as (m & E & ?). by exists (Some m).
Qed.

(** The deletion of the stored row, or nothing. *)
Lemma delete_planned dc M G ls k kb old : twin p dc img -> docs_at dc M G ls -> id_ok k -> encode k = Ok kb -> purge_room M kb k ->
  read_as dc (old_of M kb) old ->
  exists plan, match old with Some old => row ← plan_delete p dc kb old (stored_acc dc); Ok (row_plan row) | None => Ok PlannedWrite_default end = Ok plan /\
  dyn_at (R := R) p capacity dc (apply_batch (held_by dc) (pw_ops plan)) (delete kb M) G ls /\
  Forall (λ op : EngineOp, touches (K := K) (R := R) kb op.1) (pw_ops plan).
Proof.
  intros Tw D Hk Ek Room Ra. destruct (old_of M kb) as [r|] eqn:Eo, old as [m|]; try done.
  - destruct Ra as (Hs & _). destruct (plan_delete_twin p dc img (stored_acc dc) (held_by dc) M k kb r m) as (plan & Ep & T & F); try done; [apply D|apply acc_answers|].
    rewrite Ep. cbn [mbind outcome_bind]. eexists. split; [reflexivity|]. split; [|exact F]. eapply row_step; [done..|]. by eapply sizes_delete.
  - exists PlannedWrite_default. split; [done|]. split; [|constructor]. rewrite delete_id; [exact D|]. unfold old_of in Eo. by destruct (M !! kb).
Qed.

(** A merge over represented documents. *)
Lemma merge_holds dc M G ls k kb object new :
  twin p dc img -> docs_at dc M G ls -> vocab_scans dc -> id_ok k -> encode k = Ok kb -> StronglySorted bytes_lt (map fst object) ->
  (declared_part dc object <> [] -> row_written dc k kb (old_of M kb) (declared_part dc object) M new) ->
  (dynamic_part dc object <> [] -> fields_fit capacity ls (extend (default [] (G !! kb)) (dynamic_part dc object))) ->
  exists s' more, dyn_merge p capacity dc kb object = (with_store dc s', Ok tt) /\
  docs_at (with_store dc s') (match declared_part dc object with [] => M | _ => <[kb := (k, new)]> M end)
    (match dynamic_part dc object with [] => G | _ => set_segment kb (extend (default [] (G !! kb)) (dynamic_part dc object)) G end) (ls ++ more) /\
  same_outside (K := K) (R := R) (held_by dc) (contents s').
Proof.
  intros Tw D Sc Hk Ek Ho Hrow Hdyn. destruct (tw_key _ _ _ Tw k kb Hk Ek) as [Hkb _].
  destruct (declared_part_ok dc object Ho) as [Hd Fd].
  (* the row half *)
  assert (exists oldr plan1, match declared_part dc object with [] => Ok None | _ => stored_document p dc kb end = Ok oldr /\
    (check_key dc kb;; match declared_part dc object with [] => Ok PlannedWrite_default | _ =>
       row_map ← row_base p dc kb (option_list oldr ++ [declared_part dc object]); row ← plan_put p dc kb row_map oldr (stored_acc dc); Ok (row_plan row) end) = Ok plan1 /\
    dyn_at (R := R) p capacity dc (apply_batch (held_by dc) (pw_ops plan1)) (match declared_part dc object with [] => M | _ => <[kb := (k, new)]> M end) G ls /\
    same_outside (K := K) (R := R) (held_by dc) (apply_batch (held_by dc) (pw_ops plan1))) as (oldr & plan1 & Er & Ep & D1 & F1).
  { rewrite (check_key_ok p dc img k kb Tw Hk Ek). cbn [mbind outcome_bind]. destruct (declared_part dc object) as [|kv decl] eqn:Ed.
    - exists None, PlannedWrite_default. by split_and!.
    - specialize (Hrow ltac:(done)). destruct (reads_stored dc M G ls k kb Tw D Hk Ek) as (oldr & E & Ra).
      destruct (row_planned dc M G ls k kb (old_of M kb) oldr (kv :: decl) oldr new Tw D Hk Ek Ra Ra Hd Fd Hrow) as (plan1 & E1 & D1 & F1).
      exists oldr, plan1. split_and!; try done. by apply (touched_ops _ kb). }
  unfold dyn_merge, plan_of_merge. change (split_fields dc object) with (declared_part dc object, dynamic_part dc object). cbv iota beta.
  rewrite Er. cbn [mbind outcome_bind]. unfold plan_merge. cbn [st_row st_dynamic]. destruct (dynamic_part dc object) as [|kv dyn] eqn:En.
  - rewrite Ep. cbn [snd run_plan mbind outcome_bind]. destruct (replayed dc (pw_ops plan1)) as (s' & -> & Es). exists s', []. split; [done|].
    rewrite app_nil_r. split; [apply docs_moved; by rewrite Es|by rewrite Es].
  - rewrite (reads_dynamic dc M G ls kb Tw D Sc). cbn [mbind outcome_bind]. destruct (mirror_of dc M G ls D Sc) as (d & El & Hm & Hw).
    rewrite (tw_ns _ _ _ Tw), El. cbn [mbind outcome_bind]. rewrite Ep.
    destruct (fields_planned_over dc _ G ls kb _ (G !! kb) (extend (default [] (G !! kb)) (kv :: dyn)) d plan1 Tw D1 Hkb) as (plan2 & fops & more & E2 & Eo & D2 & F2);
      [by intros _|by right|done|by apply Hdyn|].
    rewrite E2. cbn [run_plan]. destruct (replayed dc (pw_ops plan2)) as (s' & -> & Es). rewrite Eo, apply_batch_app in Es.
    exists s', more. split; [done|]. split; [apply docs_moved; by rewrite Es|]. rewrite Es. by eapply same_outside_trans.
Qed.

(** C16: [DynamicCollection::merge] is an update of the document's two halves.  Over
    a store that represents a table of rows and a map of dynamic maps, a merge of
    any sorted object succeeds in one commit, and the store then represents the
    table with the row written when a declared field is given (the fields given
    over the stored row over the schema's defaults), and the dynamic maps with the
    undeclared fields over the old ones when one is given; index entries,
    accumulators, path entries and the vocabulary follow, and no key outside the
    collection changes. *)
Theorem dyn_merge_refines dc M G ls k kb object new :
  twin p dc img -> docs_at dc M G ls -> vocab_scans dc -> id_ok k -> encode k = Ok kb -> StronglySorted bytes_lt (map fst object) ->
  (declared_part dc object <> [] -> row_written dc k kb (old_of M kb) (declared_part dc object) M new) ->
  (dynamic_part dc object <> [] -> fields_fit capacity ls (extend (default [] (G !! kb)) (dynamic_part dc object))) ->
  exists s' more, dyn_merge p capacity dc kb object = (with_store dc s', Ok tt) /\
  docs_at (with_store dc s') (match declared_part dc object with [] => M | _ => <[kb := (k, new)]> M end)
    (match dynamic_part dc object with [] => G | _ => set_segment kb (extend (default [] (G !! kb)) (dynamic_part dc object)) G end) (ls ++ more) /\
  same_outside (K := K) (R := R) (held_by dc) (contents s').
Proof. apply merge_holds. Qed.
(** A replacement over represented documents. *)
Lemma replace_holds dc M G ls k kb object new :
  twin p dc img -> docs_at dc M G ls -> vocab_scans dc -> id_ok k -> encode k = Ok kb -> StronglySorted bytes_lt (map fst object) ->
  match declared_part dc object with [] => purge_room M kb k | _ => row_written dc k kb None (declared_part dc object) M new end ->
  fields_fit capacity ls (dynamic_part dc object) ->
  exists s' more, dyn_replace p capacity dc kb object = (with_store dc s', Ok tt) /\
  docs_at (with_store dc s') (match declared_part dc object with [] => delete kb M | _ => <[kb := (k, new)]> M end)
    (set_segment kb (dynamic_part dc object) G) (ls ++ more) /\
  same_outside (K := K) (R := R) (held_by dc) (contents s').
Proof.
  intros Tw D Sc Hk Ek Ho Hrow Hdyn. destruct (tw_key _ _ _ Tw k kb Hk Ek) as [Hkb _]. destruct (declared_part_ok dc object Ho) as [Hd Fd].
  destruct (reads_stored dc M G ls k kb Tw D Hk Ek) as (old & Er & Ra).
  assert (exists plan1, match declared_part dc object with
      | [] => match old with Some old => row ← plan_delete p dc kb old (stored_acc dc); Ok (row_plan row) | None => Ok PlannedWrite_default end
      | _ => row_map ← row_base p dc kb [declared_part dc object]; row ← plan_put p dc kb row_map old (stored_acc dc); Ok (row_plan row) end = Ok plan1 /\
    dyn_at (R := R) p capacity dc (apply_batch (held_by dc) (pw_ops plan1)) (match declared_part dc object with [] => delete kb M | _ => <[kb := (k, new)]> M end) G ls /\
    Forall (λ op : EngineOp, touches (K := K) (R := R) kb op.1) (pw_ops plan1)) as (plan1 & Ep & D1 & F1).
  { destruct (declared_part dc object) as [|kv decl]; [by apply (delete_planned dc M G ls k)|]. by apply (row_planned dc M G ls k kb None None). }
  assert (exists oldd, (if has_path_index dc then dynamic_map p capacity dc kb else Ok None) = Ok oldd /\ stored_seg dc kb G oldd) as (oldd & Ed & Hso).
  { unfold stored_seg. destruct (has_path_index dc); [|by exists None]. rewrite (reads_dynamic dc M G ls kb Tw D Sc). by eexists. }
  destruct (mirror_of dc M G ls D Sc) as (d & El & Hm & Hw).
  assert (exists v, match dynamic_part dc object, oldd with [], None => Ok VocabMirror_default | _, _ => VocabMirror_load (dt_store dc) (dt_ns dc) end = Ok v /\
    (dynamic_part dc object = [] \/ mirror_ok v ls) /\ vm_written v = []) as (v & Ev & Hv & Hwv).
  { rewrite (tw_ns _ _ _ Tw). destruct (dynamic_part dc object), oldd; [exists d|exists VocabMirror_default|exists d..]; auto. }
  destruct (fields_planned_over dc _ G ls kb _ oldd (dynamic_part dc object) v plan1 Tw D1 Hkb Hso Hv Hwv Hdyn) as (plan2 & fops & more & E2 & Eo & D2 & F2).
  destruct (replayed dc (pw_ops plan2)) as (s' & Es & Ec). rewrite Eo, apply_batch_app in Ec. exists s', more. split.
  - unfold dyn_replace, plan_of_replace. rewrite Er. cbn [mbind outcome_bind]. rewrite Ed. cbn [mbind outcome_bind].
    change (split_fields dc object) with (declared_part dc object, dynamic_part dc object). cbv iota beta. rewrite Ev. cbn [mbind outcome_bind].
    unfold plan_replace. cbn [st_row st_dynamic]. rewrite (check_key_ok p dc img k kb Tw Hk Ek). cbn [mbind outcome_bind]. rewrite Ep, E2. exact Es.
  - split; [apply docs_moved; by rewrite Ec|]. rewrite Ec. eapply same_outside_trans; [|exact F2]. by apply (touched_ops _ kb).
Qed.

(** C23: [DynamicCollection::replace] sets both halves.  The row becomes the declared
    fields over the schema's defaults, and goes when none is given; the dynamic map
    becomes exactly the undeclared fields, its segment removed when there are none;
    entries of the old row and of the old map are gone. *)
Theorem dyn_replace_refines dc M G ls k kb object new :
  twin p dc img -> docs_at dc M G ls -> vocab_scans dc -> id_ok k -> encode k = Ok kb -> StronglySorted bytes_lt (map fst object) ->
  match declared_part dc object with [] => purge_room M kb k | _ => row_written dc k kb None (declared_part dc object) M new end ->
  fields_fit capacity ls (dynamic_part dc object) ->
  exists s' more, dyn_replace p capacity dc kb object = (with_store dc s', Ok tt) /\
  docs_at (with_store dc s') (match declared_part dc object with [] => delete kb M | _ => <[kb := (k, new)]> M end)
    (set_segment kb (dynamic_part dc object) G) (ls ++ more) /\
  same_outside (K := K) (R := R) (held_by dc) (contents s').
Proof. apply replace_holds. Qed.

(** A removal over represented documents. *)
Lemma purge_holds dc M G ls k kb :
  twin p dc img -> docs_at dc M G ls -> vocab_scans dc -> id_ok k -> encode k = Ok kb -> purge_room M kb k ->
  exists s', dyn_purge p capacity dc kb = (with_store dc s', Ok (bool_decide (is_Some (M !! kb) \/ is_Some (G !! kb)))) /\
  docs_at (with_store dc s') (delete kb M) (delete kb G) ls /\ same_outside (K := K) (R := R) (held_by dc) (contents s').
Proof.
  intros Tw D Sc Hk Ek Room. destruct (reads_stored dc M G ls k kb Tw D Hk Ek) as (old & Er & Ra).
  destruct (delete_planned dc M G ls k kb old Tw D Hk Ek Room Ra) as (plan1 & Ep & D1 & F1).
  unfold dyn_purge. rewrite Er. cbn [mbind outcome_bind]. rewrite (reads_dynamic dc M G ls kb Tw D Sc). cbn [mbind outcome_bind].
  assert (is_Some (M !! kb) <-> is_Some old) as Eold.
  { unfold read_as, old_of in Ra. destruct (M !! kb), old; cbn [fmap option_fmap option_map] in Ra; try done; rewrite <- !not_eq_None_Some; naive_solver. }
  destruct (decide (old = None /\ G !! kb = None)) as [[-> Eg]|N].
  { rewrite Eg. exists (dt_store dc). rewrite bool_decide_false by (rewrite Eold, <- !not_eq_None_Some; naive_solver).
    assert (M !! kb = None) as Em by (apply eq_None_not_Some; rewrite Eold, <- not_eq_None_Some; naive_solver).
    split; [by destruct dc|]. split; [apply docs_moved; by rewrite !delete_id|done]. }
  assert (exists plan2, plan_purge p dc kb old (G !! kb) (stored_acc dc) = Ok plan2 /\
    dyn_at (R := R) p capacity dc (apply_batch (held_by dc) (pw_ops plan2)) (delete kb M) (delete kb G) ls /\
    same_outside (K := K) (R := R) (held_by dc) (apply_batch (held_by dc) (pw_ops plan2))) as (plan2 & E2 & D2 & F2).
  { unfold plan_purge. rewrite (check_key_ok p dc img k kb Tw Hk Ek). cbn [mbind outcome_bind]. rewrite Ep. cbn [mbind outcome_bind].
    pose proof (touched_ops (held_by dc) kb _ F1) as O1. destruct (G !! kb) as [g|] eqn:Eg.
    - destruct (purge_step p capacity dc img Tw _ _ G ls kb g D1 Eg) as (swept & Es & D2 & F2). rewrite Es, (tw_ns _ _ _ Tw), fields_key_ok.
      cbn [mbind outcome_bind]. eexists. split; [reflexivity|]. cbn [pw_ops]. rewrite apply_batch_app. split; [exact D2|].
      eapply same_outside_trans; [exact O1|]. apply (fields_outside dc _ _ kb). intros key _. by apply F2.
    - exists plan1. split; [done|]. by rewrite (delete_id G). }
  destruct (replayed dc (pw_ops plan2)) as (s' & Es & Ec). exists s'. rewrite bool_decide_true.
  2: { rewrite Eold. destruct old; [left; by eexists|right]. apply not_eq_None_Some. naive_solver. }
  split; [|split; [apply docs_moved; by rewrite Ec|by rewrite Ec]]. destruct old, (G !! kb); rewrite ?E2; cbn [mbind outcome_bind]; rewrite ?Es; try done. by destruct N.
Qed.

(** C17: [DynamicCollection::purge] removes both halves and answers whether there was
    either; the rest of the documents, the vocabulary and every key outside the
    collection stay. *)
Theorem dyn_purge_refines dc M G ls k kb :
  twin p dc img -> docs_at dc M G ls -> vocab_scans dc -> id_ok k -> encode k = Ok kb -> purge_room M kb k ->
  exists s', dyn_purge p capacity dc kb = (with_store dc s', Ok (bool_decide (is_Some (M !! kb) \/ is_Some (G !! kb)))) /\
  docs_at (with_store dc s') (delete kb M) (delete kb G) ls /\ same_outside (K := K) (R := R) (held_by dc) (contents s').
Proof. apply purge_holds. Qed.

(** A fetch over represented documents. *)
Lemma fetch_holds dc M G ls k kb :
  twin p dc img -> docs_at dc M G ls -> vocab_scans dc -> id_ok k -> encode k = Ok kb ->
  match M !! kb, G !! kb with
  | None, None => dyn_fetch p capacity dc kb = Ok None
  | _, _ => exists m, dyn_fetch p capacity dc kb = Ok (Some m) /\ StronglySorted bytes_lt (map fst m) /\
      forall n, btree_get n m = document_shows dc img M G kb n
  end.
Proof.
  intros Tw D Sc Hk Ek. destruct (reads_stored dc M G ls k kb Tw D Hk Ek) as (old & Er & Ra).
  assert (dyn_fetch p capacity dc kb = match old, G !! kb with None, None => Ok None
    | _, _ => Ok (Some (match G !! kb with Some g => extend (default [] old) g | None => default [] old end)) end) as ->.
  { unfold dyn_fetch. rewrite Er. cbn [mbind outcome_bind]. by rewrite (reads_dynamic dc M G ls kb Tw D Sc). }
  assert (forall n, btree_get n (default [] old) = if is_payload_field dc n then r ← old_of M kb; img r n else None) as Row.
  { intros n. destruct (old_of M kb) as [r|], old as [m|]; try done; [|by destruct (is_payload_field dc n)]. destruct Ra as (Hs & _ & F). cbn [default mbind option_bind].
    destruct (is_payload_field dc n) eqn:P; [by rewrite <- Hs|]. apply btree_get_None. intros (x & -> & Hx)%list_elem_of_fmap. rewrite Forall_forall in F. specialize (F x Hx). cbn beta in F. congruence. }
  assert (StronglySorted bytes_lt (map fst (default [] old))) as Hso.
  { destruct (old_of M kb), old; try done; [apply Ra|constructor]. }
  assert (forall g, G !! kb = Some g -> exists m, Ok (Some (extend (default [] old) g)) = Ok (E := DynError) (Some m) /\ StronglySorted bytes_lt (map fst m) /\
    forall n, btree_get n m = document_shows dc img M G kb n) as Both.
  { intros g Eg. eexists. split; [done|]. split; [by apply extend_sorted|]. intros n. unfold document_shows. rewrite Eg. cbn [mbind option_bind].
    rewrite btree_get_extend by (apply sorted_NoDup; by eapply (da_sorted _ _ _ _ _ _ _ D)). destruct (btree_get n g); [done|apply Row]. }
  assert (G !! kb = None -> exists m, Ok (Some (default [] old)) = Ok (E := DynError) (Some m) /\ StronglySorted bytes_lt (map fst m) /\
    forall n, btree_get n m = document_shows dc img M G kb n) as One.
  { intros Eg. eexists. split; [done|]. split; [done|]. intros n. unfold document_shows. rewrite Eg. apply Row. }
  unfold read_as, old_of in Ra. destruct (M !! kb) as [kr|] eqn:Em, old as [m|]; cbn [fmap option_fmap option_map] in Ra; try done; destruct (G !! kb) as [g|] eqn:Eg; auto.
Qed.

(** [DynamicCollection::fetch] answers the document: nothing when neither half
    is stored, otherwise a sorted map of exactly the dynamic fields and, where no
    dynamic field has the name, the row's. *)
Theorem dyn_fetch_reads dc M G ls k kb :
  twin p dc img -> docs_at dc M G ls -> vocab_scans dc -> id_ok k -> encode k = Ok kb ->
  match M !! kb, G !! kb with
  | None, None => dyn_fetch p capacity dc kb = Ok None
  | _, _ => exists m, dyn_fetch p capacity dc kb = Ok (Some m) /\ StronglySorted bytes_lt (map fst m) /\
      forall n, btree_get n m = document_shows dc img M G kb n
  end.
Proof. apply fetch_holds. Qed.
End Verbs.
