(* ===== verification/DynSamples.v ===== *)
(** * A run-time collection at work

    The sample declaration, indexed by its string and counted by its integer, as a
    run-time collection with a path index beside: the theorems on run-time
    collections at concrete documents. *)
From S2P Require Import Prelude Errors Storage Slots Vocab VarInt DynValue Segment Fields Payload Keys Index Meta Reduces Collection Declared Table Bridge Changelog LogFrames Schema Dynamic DynCodec Paths DynIndex DynIndexFacts DynFields DynPaths DynPlan DynTable DynRows DynTwin DynDocs DynVerbs.

Definition dyn_declaration : Declaration (krow sample_key) := {|
  dc_partition := [];
  dc_ns := [0; 33];
  dc_schema := sample_schema;
  dc_indexes := [(0x3001, sample_decl)];
  dc_leads := [];
  dc_reduces := [derived_reduce Debug (fields sample_schema) 0x4001 (Count Debug) [[97]]]
|}.

Definition dyn_counts : list (LawfulReduce (krow sample_key) (row (fields sample_schema))) :=
  [counts Debug sample_key dyn_declaration 0x4001 [[97]]].

Lemma dyn_declaration_ok : declaration_ok dyn_declaration dyn_counts.
Proof.
  split; try reflexivity.
  - repeat constructor.
  - apply Forall_singleton. split; [done|]. split; (eexists; split; [reflexivity|split; [done|exact I]]).
  - constructor.
  - intros [|i] red E; [injection E as <-; reflexivity|by destruct i].
Qed.

#[local] Instance dyn_document : Document (krow sample_key) (row (fields sample_schema)) := derived_document Debug dyn_declaration.

#[local] Instance dyn_laws : DocumentLaws (krow sample_key) (row (fields sample_schema)) :=
  derived_laws Debug dyn_declaration dyn_counts dyn_declaration_ok.

Definition dyn_schema : CollectionSchema := schema_in (derived_schema Debug dyn_declaration []).

(** The index of the declaration, and one over the dynamic field [x]. *)
Definition dyn_methods : list AccessMethod :=
  [method_plain 0x3001 [[98]] [[97]]; mkMethod 0x3002 [] [] (ByPath [CField [120]] TU64) 0].

Definition dyn_empty : DynamicCollection MemStore :=
  mkDynamic (∅ : MemStore) dyn_schema [0; 33] dyn_methods [mkSpec 0x4001 [[97]] (PresetLogic Debug PresetCount)].

Lemma dyn_exported (c : MemStore) : exported Debug sample_key dyn_declaration dyn_counts [] (with_store dyn_empty c) dyn_declaration_ok.
Proof.
  assert (derived_schema Debug dyn_declaration [] = Ok dyn_schema) as E by by vm_compute.
  destruct (derived_schema_exports Debug dyn_declaration [] dyn_schema E) as (X & Xk & Xl).
  split.
  - exact X.
  - exact Xk.
  - exact Xl.
  - reflexivity.
  - repeat constructor; by apply (bool_decide_unpack _).
  - apply (bool_decide_unpack _). by vm_compute.
  - by vm_compute.
  - apply (bool_decide_unpack _). by vm_compute.
  - repeat constructor.
  - reflexivity.
  - constructor; [|constructor]. split; [reflexivity|..].
    + constructor; [by vm_compute|]. constructor; [by vm_compute|constructor].
    + constructor; [by vm_compute|]. constructor; [by vm_compute|constructor].
    + by vm_compute.
    + intros r m _ _. by split_and!.
  - constructor; [exact I|]. constructor; [|constructor]. split; [right; cbn; lia|]. split; [cbn; lia|]. split; [|repeat constructor; discriminate].
    apply (bool_decide_unpack _). by vm_compute.
Qed.

Lemma exported_collection_twin_witness :
  Forall2 (preset_of Debug sample_key dyn_declaration) (dt_reduces dyn_empty) dyn_counts /\
  twin (K := krow sample_key) (R := row (fields sample_schema)) Debug dyn_empty (image_of (fields sample_schema)).
Proof.
  assert (Forall2 (preset_of Debug sample_key dyn_declaration) (dt_reduces dyn_empty) dyn_counts) as F.
  { constructor; [|constructor]. apply (of_count Debug sample_key dyn_declaration 0x4001 [[97]]). by vm_compute. }
  split; [exact F|]. exact (exported_collection_twin Debug sample_key dyn_declaration dyn_counts [] dyn_empty dyn_declaration_ok (dyn_exported ∅) F).
Defined.

Lemma dyn_twin (c : MemStore) : twin (K := krow sample_key) (R := row (fields sample_schema)) Debug (with_store dyn_empty c) (image_of (fields sample_schema)).
Proof.
  apply (export_twin Debug sample_key dyn_declaration dyn_counts [] (with_store dyn_empty c) dyn_declaration_ok (dyn_exported c)).
  constructor; [|constructor]. apply (preset_twin Debug sample_key dyn_declaration dyn_counts [] _ dyn_declaration_ok (dyn_exported c)).
  apply (of_count Debug sample_key dyn_declaration 0x4001 [[97]]). by vm_compute.
Qed.

Abbreviation sample_R := (row (fields sample_schema)).

(** Nothing is stored. *)
Lemma dyn_docs_empty : docs_at (K := krow sample_key) (R := sample_R) Debug 64 dyn_empty ∅ ∅ [].
Proof.
  split; try done.
  - exact table_empty.
  - intros kb [? E]. by rewrite lookup_empty in E.
  - split; [split; done || constructor|by right].
  - intros key v _. split; [done|]. intros (_ & kb & g & E & _). by rewrite lookup_empty in E.
Qed.

(** Three declared fields and a dynamic one. *)
Definition dyn_object : ValueMap := [([97], VU16 300); ([98], VStr [104; 105]); ([99], VBytes (rev_encode 1 true (-3))); ([120], VU8 5)].

Definition dyn_store (object : ValueMap) : MemStore := dt_store (dyn_merge Debug 64 dyn_empty sample_kb object).1.

Definition dyn_stored : DynamicCollection MemStore := with_store dyn_empty (dyn_store dyn_object).

Definition dyn_table : gmap bytes (krow sample_key * sample_R) := {[ sample_kb := (sample_id, sample_row) ]}.
Definition dyn_maps : gmap bytes ValueMap := {[ sample_kb := [([120], VU64 5)] ]}.

Lemma dyn_room (M : gmap bytes (krow sample_key * sample_R)) r l : is_Some (match group_named Debug (fields sample_schema) sample_id r [[97]] with Ok g => Some g | _ => None end) ->
  zlen l < 2 ^ 64 -> has_room (doc_reds (K := krow sample_key) (R := sample_R)) sample_id r l.
Proof.
  intros [g Hg] L. destruct (group_named _ _ _ _ _) as [g'| |] eqn:E; [|done..]. injection Hg as ->.
  apply Forall_singleton. exists g. split; [exact E|]. unfold lr_room, counts, lawful, Count_room.
  pose proof (length_filter (λ kr, in_group (lr_reduce (counts Debug sample_key dyn_declaration 0x4001 [[97]])) g kr = true) l).
  unfold group, zlen in *. simpl in *. lia.
Qed.

Lemma dyn_row_fits : row_fits (R := sample_R) sample_kb (sample_id, sample_row).
Proof. split; [apply sample_fits|]. split; [apply sample_fits|]. exact sample_row_exact. Qed.

Lemma dyn_scans (c : MemStore) :
  long_keys c ([0; 33] ++ slot_bytes FIELD_VOCAB_ID_SLOT) -> long_keys c ([0; 33] ++ slot_bytes FIELD_VOCAB_NAME_SLOT) ->
  vocab_scans (K := krow sample_key) (R := sample_R) (with_store dyn_empty c).
Proof. intros A B. split; [apply (bool_decide_unpack _); by vm_compute|by split]. Qed.

(** What a merge of the object owes its theorem, over nothing. *)
Lemma dyn_written : row_written (K := krow sample_key) (R := sample_R) (image_of (fields sample_schema)) dyn_empty sample_id sample_kb None
  (declared_part dyn_empty dyn_object) ∅ sample_row.
Proof.
  split; [exact dyn_row_fits|]. split.
  - split; [exact I|]. apply (dyn_room ∅); [by eexists|]. rewrite delete_empty. unfold rows_of. rewrite map_to_list_empty. by vm_compute.
  - split; [by vm_compute|]. intros n Hn. unfold is_payload_field in Hn. apply existsb_exists in Hn as (f & Hf & En). apply bool_decide_eq_true in En as <-.
    apply (in_map f_name) in Hf. change (map f_name (hot_fields (dt_schema dyn_empty) ++ cold_fields (dt_schema dyn_empty))) with [[97]; [99]; [98]] in Hf.
    by destruct Hf as [<-|[<-|[<-|[]]]]; vm_compute.
Qed.

Lemma dyn_fits : fields_fit 64 [] (extend [] (dynamic_part dyn_empty dyn_object)).
Proof.
  assert (extend [] (dynamic_part dyn_empty dyn_object) = [([120], VU8 5)]) as -> by by vm_compute.
  split; [by repeat constructor|]. exists [[120]]. split; [constructor; [by vm_compute|constructor]|]. split; [by vm_compute|].
  split; [constructor; [set_solver|constructor]|]. split; [constructor; [apply st_u8; lia|constructor]|by vm_compute].
Qed.

Lemma dyn_merge_refines_witness :
  exists s' more, dyn_merge Debug 64 dyn_empty sample_kb dyn_object = (with_store dyn_empty s', Ok tt) /\
  docs_at (K := krow sample_key) (R := sample_R) Debug 64 (with_store dyn_empty s') dyn_table dyn_maps more /\ s' = dyn_store dyn_object.
Proof.
  destruct (dyn_merge_refines (K := krow sample_key) (R := sample_R) Debug 64 (image_of (fields sample_schema)) dyn_empty ∅ ∅ [] sample_id sample_kb dyn_object sample_row
    (dyn_twin ∅) dyn_docs_empty) as (s' & more & E & D & _).
  - apply dyn_scans; apply long_keys_check; by vm_compute.
  - apply sample_fits.
  - apply sample_fits.
  - apply (bool_decide_unpack _). by vm_compute.
  - intros _. exact dyn_written.
  - intros _. exact dyn_fits.
  - exists s', more. split; [exact E|]. split; [|unfold dyn_store; by rewrite E].
    unfold dyn_table, dyn_maps. exact D.
Defined.

(** The collection the merge leaves, for what comes after it. *)
Lemma dyn_docs_stored : exists ls, docs_at (K := krow sample_key) (R := sample_R) Debug 64 dyn_stored dyn_table dyn_maps ls /\ zlen ls < 2 ^ 16.
Proof.
  destruct (merge_holds (K := krow sample_key) (R := sample_R) Debug 64 (image_of (fields sample_schema)) dyn_empty ∅ ∅ [] sample_id sample_kb dyn_object sample_row
    (dyn_twin ∅) dyn_docs_empty) as (s' & more & E & D & _).
  - apply dyn_scans; apply long_keys_check; by vm_compute.
  - apply sample_fits.
  - apply sample_fits.
  - apply (bool_decide_unpack _). by vm_compute.
  - intros _. exact dyn_written.
  - intros _. exact dyn_fits.
  - exists ([] ++ more). unfold dyn_stored, dyn_store. rewrite E. split; [exact D|]. exact (at_size _ _ _ _ _ (da_vocab _ _ _ _ _ _ _ D)).
Qed.

Lemma dyn_stored_scans : vocab_scans (K := krow sample_key) (R := sample_R) dyn_stored.
Proof. apply dyn_scans; apply long_keys_check; by vm_compute. Qed.

Lemma dyn_purge_room : purge_room (R := sample_R) dyn_table sample_kb sample_id.
Proof.
  unfold purge_room, old_of, dyn_table. rewrite lookup_singleton_eq, delete_singleton_eq. apply (dyn_room ∅); [by eexists|].
  unfold rows_of. rewrite map_to_list_empty. by vm_compute.
Qed.

Lemma dyn_fetch_reads_witness :
  exists m, dyn_fetch Debug 64 dyn_stored sample_kb = Ok (Some m) /\ btree_get [97] m = Some (VU16 300) /\ btree_get [120] m = Some (VU64 5) /\
  btree_get [121] m = None.
Proof.
  destruct dyn_docs_stored as (ls & D & _).
  pose proof (dyn_fetch_reads (K := krow sample_key) (R := sample_R) Debug 64 (image_of (fields sample_schema)) dyn_stored dyn_table dyn_maps ls sample_id sample_kb
    (dyn_twin _) D dyn_stored_scans) as F. unfold dyn_table at 1, dyn_maps at 1 in F. rewrite !lookup_singleton_eq in F.
  destruct F as (m & E & _ & G); [apply sample_fits..|]. exists m. split; [exact E|]. rewrite !G. split_and!; by vm_compute.
Defined.

Lemma dyn_purge_refines_witness :
  exists s' ls, dyn_purge Debug 64 dyn_stored sample_kb = (with_store dyn_stored s', Ok true) /\
  docs_at (K := krow sample_key) (R := sample_R) Debug 64 (with_store dyn_stored s') ∅ ∅ ls.
Proof.
  destruct dyn_docs_stored as (ls & D & _).
  destruct (dyn_purge_refines (K := krow sample_key) (R := sample_R) Debug 64 (image_of (fields sample_schema)) dyn_stored dyn_table dyn_maps ls sample_id sample_kb
    (dyn_twin _) D dyn_stored_scans) as (s' & E & D' & _); [apply sample_fits..|exact dyn_purge_room|].
  exists s', ls. unfold dyn_table, dyn_maps in *. rewrite !delete_singleton_eq in D'. split; [|exact D'].
  rewrite E. by rewrite bool_decide_true by (left; rewrite lookup_singleton_eq; by eexists).
Defined.

(** The row again, without the dynamic field. *)
Definition dyn_row_object : ValueMap := [([97], VU16 300); ([98], VStr [104; 105]); ([99], VBytes (rev_encode 1 true (-3)))].

Lemma dyn_replace_refines_witness :
  exists s' ls, dyn_replace Debug 64 dyn_stored sample_kb dyn_row_object = (with_store dyn_stored s', Ok tt) /\
  docs_at (K := krow sample_key) (R := sample_R) Debug 64 (with_store dyn_stored s') dyn_table ∅ ls.
Proof.
  destruct dyn_docs_stored as (ls & D & L).
  destruct (dyn_replace_refines (K := krow sample_key) (R := sample_R) Debug 64 (image_of (fields sample_schema)) dyn_stored dyn_table dyn_maps ls sample_id sample_kb
    dyn_row_object sample_row (dyn_twin _) D dyn_stored_scans) as (s' & more & E & D' & _).
  - apply sample_fits.
  - apply sample_fits.
  - apply (bool_decide_unpack _). by vm_compute.
  - destruct dyn_written as (Hf & _ & Hz & Hn). split; [exact Hf|]. split; [|split; [exact Hz|exact Hn]].
    split; [exact dyn_purge_room|]. unfold dyn_table. rewrite delete_singleton_eq. apply (dyn_room ∅); [by eexists|]. unfold rows_of. rewrite map_to_list_empty. by vm_compute.
  - split; [constructor|]. exists []. split; [constructor|]. split; [by rewrite zlen_nil, Z.add_0_r|]. split; [constructor|]. split; [constructor|by vm_compute].
  - exists s', (ls ++ more). split; [exact E|]. unfold dyn_table, dyn_maps in *.
    change (docs_at (K := krow sample_key) (R := sample_R) Debug 64 (with_store dyn_stored s') (<[sample_kb := (sample_id, sample_row)]> dyn_table) (delete sample_kb dyn_maps) (ls ++ more)) in D'.
    unfold dyn_table, dyn_maps in D'. rewrite insert_singleton_eq, delete_singleton_eq in D'. exact D'.
Defined.
