(* ===== verification/DynFacts.v ===== *)
(** * Stamps, listings and limits of run-time collections (okm-dynamic,
    [collection.rs], [reduce.rs])

    A run-time collection whose methods mirror a declaration computes the
    declaration's fingerprint, whatever order it was given them in; it lists its
    documents once each, in key order; the shipped presets stay in a [u64].  The
    examples at the end show where the code and its comments part. *)
From S2P Require Import Prelude Errors Storage Slots Vocab VarInt DynValue Segment Fields Payload Keys Index Meta Reduces Collection Declared Table Documents Bridge Typing Changelog LogFrames Schema Dynamic DynCodec Paths DynIndex DynIndexFacts DynFields DynPaths DynPlan DynTable DynRows DynTwin DynDocs DynVerbs DynSamples.

(** ** Fingerprints *)

Definition slots_lt : AccessMethod -> AccessMethod -> Prop := λ a b, am_slot a < am_slot b.

Lemma insert_method_perm am l : insert_method am l ≡ₚ am :: l.
Proof.
  induction l as [|x l IH]; [done|]. cbn [insert_method]. destruct (_ <? _); [done|]. rewrite IH. by apply perm_swap.
Qed.

Lemma insert_method_sorted am l : StronglySorted slots_lt l -> (forall x, x ∈ l -> am_slot x <> am_slot am) ->
  StronglySorted slots_lt (insert_method am l).
Proof.
  induction 1 as [|x l Hl IH Hx]; intros N; cbn [insert_method]; [by repeat constructor|]. destruct (Z.ltb_spec (am_slot am) (am_slot x)) as [L|L].
  - constructor; [by constructor|]. constructor; [done|]. eapply Forall_impl; [exact Hx|]. intros y. unfold slots_lt, Slot in *. lia.
  - constructor; [apply IH; intros y Hy; apply N; by right|]. rewrite insert_method_perm. constructor; [|done].
    specialize (N x ltac:(by left)). unfold slots_lt, Slot in *. lia.
Qed.

Lemma sorted_methods_spec l : NoDup (map am_slot l) -> sorted_methods l ≡ₚ l /\ StronglySorted slots_lt (sorted_methods l).
Proof.
  intros ND. unfold sorted_methods. assert (forall out, NoDup (map am_slot (out ++ l)) -> StronglySorted slots_lt out ->
    fold_left (λ out am, insert_method am out) l out ≡ₚ out ++ l /\ StronglySorted slots_lt (fold_left (λ out am, insert_method am out) l out)) as G;
    [|by apply (G []); [|constructor]].
  clear ND. induction l as [|am l IH]; intros out ND Hs; cbn [fold_left]; [by rewrite app_nil_r|].
  assert (insert_method am out ++ l ≡ₚ out ++ am :: l) as P by (rewrite insert_method_perm; by rewrite <- Permutation_middle).
  destruct (IH (insert_method am out)) as [P' S'].
  - eapply NoDup_Permutation_proper; [|exact ND]. by apply Permutation_map.
  - apply insert_method_sorted; [done|]. intros x Hx E. rewrite map_app in ND. apply NoDup_app in ND as (_ & N & _).
    apply (N (am_slot x)); [apply list_elem_of_fmap; by exists x|]. cbn [map]. rewrite E. by left.
  - split; [by rewrite P'|done].
Qed.

Lemma methods_unique l l' : StronglySorted slots_lt l -> StronglySorted slots_lt l' -> l ≡ₚ l' -> l = l'.
Proof.
  intros Hs. revert l'. induction Hs as [|x l Hl IH Hx]; intros l' Hs' P; [by apply Permutation_nil_l in P|].
  destruct Hs' as [|y l' Hl' Hy]; [by apply Permutation_nil_r in P|]. rewrite Forall_forall in Hx, Hy.
  assert (x = y) as ->.
  { assert (x ∈ y :: l') as [->|A]%elem_of_cons by (rewrite <- P; by left); [done|].
    assert (y ∈ x :: l) as [->|B]%elem_of_cons by (rewrite P; by left); [done|].
    specialize (Hx y B). specialize (Hy x A). unfold slots_lt, Slot in *. lia. }
  f_equal. apply IH; [done|]. by apply Permutation_cons_inv in P.
Qed.

Definition decl_method (d : IndexDecl) (am : AccessMethod) : Prop := am_slot am = d_slot d /\ am_fields am = d_fields d /\ am_includes am = d_includes d.

Lemma face_at decls d am : NoDup (map d_slot decls) -> d ∈ decls -> am_slot am = d_slot d ->
  find (λ i, is_slot i =? am_slot am) (map index_schema decls) = Some (index_schema d).
Proof.
  intros ND Hin E. induction decls as [|x decls IH]; [by apply elem_of_nil in Hin|]. cbn [map find] in *. apply NoDup_cons in ND as [N ND].
  cbn [index_schema is_slot]. apply elem_of_cons in Hin as [->|Hin]; [by rewrite E, Z.eqb_refl|].
  destruct (Z.eqb_spec (d_slot x) (am_slot am)) as [X|X]; [|by apply IH]. destruct N. rewrite X, E. apply list_elem_of_fmap. by exists d.
Qed.

Lemma specs_of_decls sch decls ds l : NoDup (map d_slot decls) -> indexes sch = map index_schema decls ->
  (forall d, d ∈ ds -> d ∈ decls) -> Forall2 decl_method ds l -> map (spec_of sch) l = ds.
Proof.
  intros ND E Sub F. induction F as [|d am ds l (Es & Ef & Ei) F IH]; [done|]. cbn [map].
  rewrite IH by (intros x Hx; apply Sub; by right). f_equal. unfold spec_of, exported_face. rewrite E, (face_at decls d am ND) by (try apply Sub; by left || done).
  cbn [index_schema is_name is_func is_deprecated]. rewrite Es, Ef, Ei. by destruct d.
Qed.

(** The declared slots ascend: indexes, then leads. *)
Lemma slotted_ascend {R} base ds : forall n l, slotted (R := R) base n ds = Some l -> StronglySorted Z.lt (map fst l) /\ Forall (λ sd, base + n <= sd.1) l.
Proof.
  induction ds as [|d ds IH]; intros n l E; simpl in E; [injection E as <-; by repeat constructor|].
  unfold declared_slot in E. destruct (0x0FFF <=? n); [done|]. simpl in E. destruct (slotted base (n + 1) ds) as [rest|] eqn:Er; [|done]. simpl in E.
  injection E as <-. destruct (IH (n + 1) rest Er) as [Hs Hf]. split; [cbn [map fst]; constructor; [done|]|constructor; [cbn; lia|]].
  - apply Forall_map. eapply Forall_impl; [exact Hf|]. intros sd. unfold Slot in *. lia.
  - eapply Forall_impl; [exact Hf|]. intros sd. unfold Slot in *. lia.
Qed.

Lemma decls_ascend {K} `{KeyLaws K} (d : Declaration K) reds : declaration_ok d reds -> StronglySorted Z.lt (map d_slot (index_decls d)).
Proof.
  intros Hd. unfold index_decls. rewrite map_app, !map_map. cbn [d_slot].
  destruct (slotted_ascend _ _ _ _ (do_indexes _ _ Hd)) as [S1 F1]. destruct (slotted_ascend _ _ _ _ (do_leads _ _ Hd)) as [S2 F2].
  apply StronglySorted_app_2; [|exact S1|exact S2].
  intros a b (x & -> & Hx)%list_elem_of_fmap (y & -> & Hy)%list_elem_of_fmap.
  pose proof (slotted_range _ _ _ _ _ (Z.le_refl 0) (do_indexes _ _ Hd) Hx). pose proof (slotted_range _ _ _ _ _ (Z.le_refl 0) (do_leads _ _ Hd) Hy).
  unfold INDEX_BASE, LEAD_BASE, Slot in *. lia.
Qed.

Lemma schema_exports {K} `{KeyLaws K} p (d : Declaration K) literals sch : derived_schema p d literals = Ok sch ->
  indexes sch = map index_schema (index_decls d) /\ s_layout_version sch = @LAYOUT_VERSION K (row (fields (dc_schema d))) _ (derived_document p d).
Proof.
  unfold derived_schema. intros E. apply bind_Ok in E as (descs & _ & E). unfold schema_of in E.
  apply bind_Ok in E as (u & _ & E). apply bind_Ok in E as (sl & _ & E). by injection E as <-.
Qed.

(** The declarations, however the methods were ordered. *)
Lemma mirrored_faces {K} `{KeyLaws K} {S} p (d : Declaration K) reds literals (dc : DynamicCollection S) l :
  declaration_ok d reds -> derived_schema p d literals = Ok (dt_schema dc) -> dt_indexes dc ≡ₚ l -> Forall2 decl_method (index_decls d) l ->
  computed_faces dc = @faces_of K (row (fields (dc_schema d))) _ (derived_document p d).
Proof.
  intros Hd E P F. destruct (schema_exports p d literals _ E) as [Ei _].
  pose proof (decls_ascend d reds Hd) as As. assert (StronglySorted slots_lt l) as Sl.
  { clear -F As. induction F as [|x am ds l (Es & _) F IH]; [constructor|]. cbn [map] in As. apply StronglySorted_inv in As as [As Fs].
    constructor; [by apply IH|]. clear IH As. induction F as [|y b ds l (Eb & _) F IH]; [constructor|]. cbn [map] in Fs. apply Forall_cons in Fs as [L Fs].
    constructor; [|by apply IH]. unfold slots_lt. by rewrite Es, Eb. }
  assert (NoDup (map am_slot (dt_indexes dc))) as ND.
  { rewrite P. clear -Sl. induction Sl as [|x l Hl IH Hx]; [constructor|]. cbn [map]. constructor; [|done].
    intros (y & E & Hy)%list_elem_of_fmap. rewrite Forall_forall in Hx. specialize (Hx y Hy). unfold slots_lt, Slot in *. lia. }
  destruct (sorted_methods_spec _ ND) as [P' Ss]. assert (sorted_methods (dt_indexes dc) = l) as El by (apply methods_unique; [done..|by rewrite P']).
  unfold computed_faces, faces_of. rewrite El. f_equal. apply (specs_of_decls _ (index_decls d)); [|done..].
  clear -As. induction As as [|x l' Hl IH Hx]; constructor; [|done]. intros Hin. rewrite Forall_forall in Hx. specialize (Hx x Hin). lia.
Qed.

Lemma no_paths_recorded ams m changed : Forall (λ am, by_path am = false) ams -> record_paths ams m changed = (m, changed).
Proof. induction 1 as [|am ams B F IH]; [done|]. unfold by_path in B. cbn [record_paths]. by destruct (am_kind am). Qed.

(** C24: the layout stamp of a run-time collection is the compiled one.  Over the
    exported schema of a declaration, with methods that have the slots, fields and
    includes of the declared faces, in any order, the faces hashed are the
    declaration's; whatever the store holds, both sides then answer the same status
    of the faces, and both layout checks stamp, accept or refuse it alike. *)
Theorem faces_reproduced {K} `{KeyLaws K} {S} `{VirtualStorage S} p (d : Declaration K) reds literals (dc : DynamicCollection S) l (c : Collection S) :
  let doc := derived_document p d in
  declaration_ok d reds -> derived_schema p d literals = Ok (dt_schema dc) -> dt_indexes dc ≡ₚ l -> Forall2 decl_method (index_decls d) l ->
  dt_ns dc = header (K := K) (R := row (fields (dc_schema d))) -> store c = dt_store dc ->
  computed_faces dc = faces_of K (row (fields (dc_schema d))) /\
  dyn_faces_status p dc = engine_text (faces_status (K := K) (R := row (fields (dc_schema d))) p c) /\
  (Forall (λ am, by_path am = false) l ->
    dyn_ensure_layout p dc = let '(c', r) := ensure_layout (K := K) (R := row (fields (dc_schema d))) p c in (with_store dc (store c'), engine_text r)).
Proof.
  intros doc Hd E P F Ens Es. pose proof (mirrored_faces p d reds literals dc l Hd E P F) as Ef. destruct (schema_exports p d literals _ E) as [_ Ev].
  split; [exact Ef|]. split.
  - unfold dyn_faces_status, dyn_meta, faces_status. rewrite Ef, Ens, Es. fold doc. by destruct (meta_read _ _ _).
  - intros N. unfold dyn_ensure_layout, ensure_layout, on_store. rewrite Ef, Ens, Es, Ev. fold doc. destruct (meta_ensure _ _ _ _ _) as [s [m| |]]; [|done..].
    rewrite no_paths_recorded; [done|by rewrite P].
Qed.

(** ** Listing the documents *)

Lemma merge_keys_slots fuel : forall (rows segs : list bytes),
  merge_keys fuel rows segs = map fst (merge_slots fuel (map (λ r, (r, tt)) rows) segs).
Proof.
  induction fuel as [|fuel IH]; intros rows segs; [by destruct rows|]. destruct rows as [|r rows], segs as [|x segs]; cbn [merge_keys merge_slots map fst]; try done.
  - by rewrite IH.
  - by rewrite IH.
  - destruct (decide (r ≼ x)) as [L|L]; [rewrite (bool_decide_true (r ≼ x)) by done|rewrite (bool_decide_false (r ≼ x)) by done];
      unfold bytes_le in L; destruct (lex_compare r x); try (by destruct L); cbn [map fst]; by rewrite IH.
Qed.

Section Listing.
Context {K R : Type} `{HK : KeyEncode K} `{HL : !KeyLaws K} `{HD : !Document K R} `{HDL : !DocumentLaws K R}.
Context {S : Type} `{HS : VirtualStorage S} `{HR : !ReliableStorage S}.
Variables (p : profile) (capacity : Z) (img : R -> bytes -> option Value).

Abbreviation h := (header (K := K) (R := R)).

(** A document is a row or a dynamic map, or both. *)
Definition is_document (M : gmap bytes (K * R)) (G : gmap bytes ValueMap) (kb : bytes) : Prop := is_Some (M !! kb) \/ is_Some (G !! kb).

(** [document_keys] of a run-time collection.  Over a store that represents a
    table of rows and a map of dynamic maps, it answers, in byte order, exactly
    the keys that have a row or a dynamic map, each once. *)
Theorem dyn_document_keys_exact (dc : DynamicCollection S) (M : gmap bytes (K * R)) (G : gmap bytes ValueMap) ls :
  twin p dc img -> docs_at (K := K) (R := R) p capacity dc M G ls ->
  bytes_ok h -> long_keys (contents (dt_store dc)) (h ++ slot_bytes PRIMARY_SLOT) ->
  long_keys (contents (dt_store dc)) (h ++ slot_bytes DYNAMIC_SLOT) ->
  exists ks, dyn_document_keys dc = Ok ks /\ StronglySorted bytes_lt ks /\
  forall kb, kb ∈ ks <-> is_document M G kb.
Proof.
  intros Tw D Hh Lp Ld. set (m := contents (dt_store dc)) in *. unfold dyn_document_keys. rewrite (tw_ns _ _ _ Tw), !slot_prefix by (apply PRIMARY_ok || apply DYNAMIC_ok).
  cbn [liftp mbind outcome_bind]. assert (bytes_ok (h ++ slot_bytes PRIMARY_SLOT) /\ bytes_ok (h ++ slot_bytes DYNAMIC_SLOT)) as [Pb Db]
    by (split; apply Forall_app; (split; [done|]); by apply (bool_decide_unpack _)).
  destruct (scans_carried (dt_store dc) (h ++ slot_bytes PRIMARY_SLOT)) as (_ & -> & _); [auto..|].
  destruct (scans_carried (dt_store dc) (h ++ slot_bytes DYNAMIC_SLOT)) as (_ & -> & _); [auto..|].
  cbn [engine_text mbind outcome_bind]. fold m. set (rows := map fst (carried_pairs m (h ++ slot_bytes PRIMARY_SLOT))).
  set (segs := map fst (carried_pairs m (h ++ slot_bytes DYNAMIC_SLOT))). eexists. split; [reflexivity|]. rewrite merge_keys_slots.
  assert (map fst (map (λ r, (r, tt)) rows) = rows) as Er by (rewrite map_map; apply map_id).
  destruct (merge_slots_spec (length rows + length segs) (map (λ r, (r, tt)) rows) segs) as [Ss I];
    [by rewrite length_map|rewrite Er; apply carried_sorted|apply carried_sorted|]. split; [exact Ss|].
  assert (forall t, t ∈ rows <-> is_Some (M !! t)) as Ir.
  { intros t. unfold rows. rewrite elem_of_carried, <- app_assoc. change (h ++ slot_bytes PRIMARY_SLOT ++ t) with (Table.pkey (K := K) (R := R) t).
    unfold m. rewrite (ta_primary _ _ (da_table _ _ _ _ _ _ _ D)). by rewrite fmap_is_Some. }
  assert (forall t, t ∈ segs <-> is_Some (G !! t)) as Is.
  { intros t. unfold segs. rewrite elem_of_carried, <- app_assoc. change (h ++ slot_bytes DYNAMIC_SLOT ++ t) with (skey (K := K) (R := R) t).
    pose proof (da_segs _ _ _ _ _ _ _ D t) as Ds. unfold m. destruct (G !! t) as [g|]; [destruct Ds as (b & -> & _); by split|]. by rewrite Ds. }
  intros t. unfold is_document. rewrite <- Ir, <- Is. split.
  - intros ([t' d] & -> & Hin)%list_elem_of_fmap. apply I in Hin. cbn [fst]. destruct d as [[]|]; [left|right; apply Hin].
    by apply list_elem_of_fmap in Hin as (x & [= ->] & Hx).
  - intros Ht. apply list_elem_of_fmap. destruct (decide (t ∈ rows)) as [Hr|Nr].
    + exists (t, Some tt). split; [done|]. apply I, list_elem_of_fmap. by exists t.
    + exists (t, None). split; [done|]. apply I. rewrite Er. tauto.
Qed.
End Listing.

(** ** The presets *)

Lemma acc_bound acc : bytes_ok acc -> 0 <= acc_u64 acc < 2 ^ 64.
Proof.
  intros Ha. unfold acc_u64. case_decide as L; [|lia]. pose proof (be_val_bound acc Ha) as B. unfold zlen in B. rewrite L in B.
  change (256 ^ Z.of_nat 8) with (2 ^ 64) in B. exact B.
Qed.

Lemma acc_written n : 0 <= n < 2 ^ 64 -> zlen (be_bytes 8 n) = 8 /\ bytes_ok (be_bytes 8 n) /\ acc_u64 (be_bytes 8 n) = n.
Proof.
  intros Hn. split; [apply be_bytes_zlen|]. split; [apply be_bytes_ok|]. unfold acc_u64. rewrite decide_True by apply be_bytes_length.
  rewrite be_val_be_bytes. by apply Z.mod_small.
Qed.

(** The field a preset reads. *)
Definition preset_field (k : PresetKind) : option bytes :=
  match k with PresetCount => None | PresetHighWater f | PresetLowWater f => Some f end.

(** What a fold makes of the accumulator and the field's value. *)
Definition preset_folded (k : PresetKind) (acc v : Z) : Z :=
  match k with PresetCount => (acc + 1) mod 2 ^ 64 | PresetHighWater _ => acc `max` v | PresetLowWater _ => acc `min` v end.

Lemma preset_fold_eq p k acc doc : preset_fold p k acc doc =
  match preset_field k with
  | None => if acc_u64 acc + 1 <? 2 ^ 64 then Ok (be_bytes 8 (acc_u64 acc + 1)) else match p with Debug => Panic | Release => Ok (be_bytes 8 (wrap 64 (acc_u64 acc + 1))) end
  | Some f => v ← field_u64 doc f; Ok (be_bytes 8 (preset_folded k (acc_u64 acc) v))
  end.
Proof.
  destruct k as [|f|f]; unfold preset_fold; cbn [preset_field preset_folded].
  - unfold add_w. by destruct (_ <? _), p.
  - by destruct (field_u64 doc f).
  - by destruct (field_u64 doc f).
Qed.

Lemma field_u64_spec doc f : match field_u64 doc f with
  | Ok v => btree_get f doc = Some (VU64 v) | Err _ => forall v, btree_get f doc <> Some (VU64 v) | Panic => False end.
Proof. unfold field_u64. destruct (btree_get f doc) as [[]|]; done. Qed.

Lemma count_folded acc : bytes_ok acc -> forall p acc', preset_fold p PresetCount acc [] = Ok acc' -> acc' = be_bytes 8 (preset_folded PresetCount (acc_u64 acc) 0).
Proof.
  intros Ha p acc'. pose proof (acc_bound acc Ha) as B. rewrite preset_fold_eq. cbn [preset_field preset_folded].
  destruct (Z.ltb_spec (acc_u64 acc + 1) (2 ^ 64)) as [L|L]; [intros [= <-]; by rewrite Z.mod_small by lia|]. by destruct p; intros [= <-].
Qed.

Lemma folded_range k acc v : 0 <= acc < 2 ^ 64 -> 0 <= v < 2 ^ 64 -> 0 <= preset_folded k acc v < 2 ^ 64.
Proof. destruct k; cbn [preset_folded]; [intros; apply Z.mod_pos_bound|..]; lia. Qed.

(** C25: the shipped presets over the accumulator's bytes, whatever they are: a width
    other than 8 reads as zero.  A fold answers 8 bytes of the new number, the
    count's modulo 2^64; it panics exactly for the count at 2^64 - 1 in a debug
    build, and is an error exactly when the field is absent or no [u64].  An unfold
    takes one from a count, never below zero, and leaves a water mark as it is. *)
Theorem preset_bounds p k acc doc :
  bytes_ok acc -> (forall f v, preset_field k = Some f -> btree_get f doc = Some (VU64 v) -> 0 <= v < 2 ^ 64) ->
  (forall acc', preset_fold p k acc doc = Ok acc' -> zlen acc' = 8 /\ bytes_ok acc' /\
    exists v, match preset_field k with Some f => btree_get f doc = Some (VU64 v) | None => True end /\
    acc_u64 acc' = preset_folded k (acc_u64 acc) v) /\
  (preset_fold p k acc doc = Panic <-> k = PresetCount /\ p = Debug /\ acc_u64 acc = 2 ^ 64 - 1) /\
  ((exists e, preset_fold p k acc doc = Err e) <-> exists f, preset_field k = Some f /\ forall v, btree_get f doc <> Some (VU64 v)) /\
  exists acc', preset_unfold k acc = Ok acc' /\
    match k with PresetCount => zlen acc' = 8 /\ acc_u64 acc' = (acc_u64 acc - 1) `max` 0 | _ => acc' = acc end.
Proof.
  intros Ha Hv. pose proof (acc_bound acc Ha) as B. split; [|split; [|split]].
  - intros acc' Ea. assert (exists v, match preset_field k with Some f => btree_get f doc = Some (VU64 v) | None => True end /\
      acc' = be_bytes 8 (preset_folded k (acc_u64 acc) v) /\ 0 <= v < 2 ^ 64) as (v & Ev & -> & Bv).
    { destruct (preset_field k) as [f|] eqn:Ek; rewrite preset_fold_eq, Ek in Ea.
      - pose proof (field_u64_spec doc f) as Sp. destruct (field_u64 doc f) as [v| |]; [|done..]. injection Ea as <-. exists v. eauto.
      - exists 0. destruct k; [|done..]. split; [done|]. split; [|lia]. eapply (count_folded _ Ha p). by rewrite preset_fold_eq. }
    destruct (acc_written _ (folded_range k _ v B Bv)) as (? & ? & ?). split; [done|]. split; [done|]. by exists v.
  - rewrite preset_fold_eq. destruct (preset_field k) as [f|] eqn:Ek.
    + pose proof (field_u64_spec doc f) as Sp. destruct (field_u64 doc f); [..|done]; (split; [done|]); by intros (-> & _).
    + destruct k; [|done..]. destruct (Z.ltb_spec (acc_u64 acc + 1) (2 ^ 64)) as [L|L]; [split; [done|lia]|].
      destruct p; split; try done; [intros _; split_and!; done || lia|by intros (_ & ? & _)].
  - rewrite preset_fold_eq. destruct (preset_field k) as [f|] eqn:Ek.
    + pose proof (field_u64_spec doc f) as Sp. destruct (field_u64 doc f) as [v|e|]; [|..|done].
      * split; [by intros [? ?]|]. intros (? & [= <-] & N). by destruct (N v).
      * split; [intros _; by exists f|by exists e].
    + split; [intros [e X]; destruct (_ <? _), p; done|by intros (? & ? & _)].
  - destruct k as [|f|f]; [|by eexists..]. eexists. split; [reflexivity|]. destruct (acc_written ((acc_u64 acc - 1) `max` 0)) as (? & _ & ?); [lia|done].
Qed.

Lemma preset_bounds_witness :
  preset_fold Debug PresetCount (repeat 255 8) [] = Panic /\
  (exists acc', preset_fold Debug (PresetHighWater [97]) (be_bytes 8 3) [([97], VU64 7)] = Ok acc' /\ zlen acc' = 8 /\ acc_u64 acc' = 7).
Proof.
  split.
  - apply (preset_bounds Debug PresetCount (repeat 255 8) []); [by apply (bool_decide_unpack _)|done|split_and!; by vm_compute].
  - exists (be_bytes 8 7). split; [by vm_compute|].
    destruct (preset_bounds Debug (PresetHighWater [97]) (be_bytes 8 3) [([97], VU64 7)]) as [F _]; [apply be_bytes_ok| |].
    + intros f v [= <-] [= <-]. lia.
    + destruct (F (be_bytes 8 7)) as (Hl & _ & v & [= <-] & E); [by vm_compute|]. split; [exact Hl|]. cbn [preset_folded] in E. rewrite E. by vm_compute.
Defined.

(** ** The theorems at the sample collection *)

(** Two mirrored faces, the later one first. *)
Definition two_faces : Declaration (krow sample_key) := {|
  dc_partition := [];
  dc_ns := [0; 33];
  dc_schema := sample_schema;
  dc_indexes := [(0x3001, sample_decl); (0x3002, sample_decl)];
  dc_leads := [];
  dc_reduces := []
|}.

Lemma two_faces_ok : declaration_ok (K := krow sample_key) two_faces [].
Proof.
  split; try reflexivity.
  - repeat constructor.
  - repeat constructor; try done; (eexists; split; [reflexivity|split; [done|exact I]]).
  - constructor.
  - intros i red E. by destruct i.
Qed.

Definition two_schema : CollectionSchema := schema_in (derived_schema Debug two_faces []).

Definition two_methods : list AccessMethod := [method_plain 0x3001 [[98]] [[97]]; method_plain 0x3002 [[98]] [[97]]].

Definition two_dynamic (c : MemStore) : DynamicCollection MemStore := mkDynamic c two_schema [0; 33] (reverse two_methods) [].

(** The declaration's own layout check, over nothing. *)
Definition two_ensured : Collection MemStore * result TableMeta :=
  let doc := derived_document Debug two_faces in
  ensure_layout (K := krow sample_key) (R := row (fields sample_schema)) Debug (mkCollection (∅ : MemStore) 0).

Definition two_stamped : TableMeta := match two_ensured.2 with Ok m => m | _ => ∅ end.

Lemma two_ensured_ok : two_ensured = (mkCollection (store two_ensured.1) 0, Ok two_stamped).
Proof. by vm_compute. Qed.

Lemma faces_reproduced_witness :
  let doc := derived_document Debug two_faces in
  computed_faces (two_dynamic ∅) = faces_of (krow sample_key) (row (fields sample_schema)) /\
  dyn_ensure_layout Debug (two_dynamic ∅) = (two_dynamic (store two_ensured.1), Ok two_stamped).
Proof.
  intros doc. destruct (faces_reproduced (K := krow sample_key) Debug two_faces [] [] (two_dynamic ∅) two_methods (mkCollection (∅ : MemStore) 0) two_faces_ok)
    as (Ef & _ & L); [by vm_compute|apply reverse_Permutation|by repeat constructor|done|done|]. split; [exact Ef|].
  rewrite L by (by repeat constructor). fold two_ensured. by rewrite two_ensured_ok.
Defined.

Lemma dyn_document_keys_exact_witness :
  exists ks, dyn_document_keys dyn_stored = Ok ks /\ forall kb, kb ∈ ks <-> kb = sample_kb.
Proof.
  destruct dyn_docs_stored as (ls & D & _).
  destruct (dyn_document_keys_exact (K := krow sample_key) (R := row (fields sample_schema)) Debug 64 (image_of (fields sample_schema)) dyn_stored dyn_table dyn_maps ls (dyn_twin _) D)
    as (ks & E & _ & I).
  - apply (bool_decide_unpack _). by vm_compute.
  - apply long_keys_check. by vm_compute.
  - apply long_keys_check. by vm_compute.
  - exists ks. split; [exact E|]. intros kb. rewrite I. unfold is_document, dyn_table, dyn_maps. rewrite !lookup_singleton_is_Some. split; [by intros [E2|E2]|intros E2; by left].
Defined.

(** ** Where the run-time side parts from the typed one *)

(** Two counts of every document. *)
Definition every_count (slot : Slot) : ReduceSpec := mkSpec slot [] (PresetLogic Debug PresetCount).

Definition five_at (slot : Slot) : AccOf := λ ek, Ok (if bool_decide (ek = [0; 33] ++ slot_bytes slot) then Some (be_bytes 8 5) else None).

Definition unfolded (reds : list ReduceSpec) : dyn_result (list EngineOp) :=
  '(plan, _) ← reduces_loop dyn_empty reds (five_at 0x4002) [] [] false (mkPlannedPut [] []) ∅; Ok (pp_ops plan).

(** An unfold that finds no accumulator ends the loop: the reduces declared after it
    keep what the document put in. *)
Example unfold_skips_the_rest :
  unfolded [every_count 0x4002] = Ok [([0; 33; 64; 2], Some (be_bytes 8 4))] /\
  unfolded [every_count 0x4001; every_count 0x4002] = Ok [].
Proof. by vm_compute. Qed.

(** A path index that names a declared column. *)
Definition path_empty : DynamicCollection MemStore :=
  mkDynamic (∅ : MemStore) dyn_schema [0; 33] [mkMethod 0x3002 [] [] (ByPath [CField [97]] TU16) 0] [].

Definition path_entries_of (dc : DynamicCollection MemStore) : nat := length (carried_pairs (dt_store dc) ([0; 33] ++ slot_bytes 0x3002)).

(** A rebuild writes an entry for the column, which no write does and no purge
    takes away: the entry outlives the document. *)
Example rebuilt_entry_stays :
  let written := (dyn_merge Debug 64 path_empty sample_kb dyn_row_object).1 in
  let rebuilt := (dyn_rebuild_faces Debug 64 written 16).1 in
  let purged := dyn_purge Debug 64 rebuilt sample_kb in
  purged.2 = Ok true /\ (path_entries_of written, path_entries_of rebuilt, path_entries_of purged.1) = (0, 1, 1)%nat.
Proof. by vm_compute. Qed.
