(* ===== verification/SerFormat.v ===== *)
(** * The bytes of a series (okm-series, [format.rs])

    Varints, the fixed-width headers of a part, a block and a footer, the index row
    and one record.  A writer's bytes read back wherever they stand. *)
From S2P Require Import Prelude.

(** ** Constants *)

Definition PART_MAGIC : bytes := [79; 75; 77; 83].
Definition BLOCK_MAGIC : bytes := [79; 75; 77; 66].
Definition FOOTER_MAGIC : bytes := [79; 75; 77; 70].
Definition INDEX_MAGIC : bytes := [79; 75; 77; 73].
Definition DICT_FILE_MAGIC : bytes := [79; 75; 77; 68].
Definition DICT_BLOCK_MAGIC : bytes := [79; 75; 77; 75].
Definition VERSION : Z := 1.

Definition PART_HEADER_LEN : Z := 48.
Definition BLOCK_HEADER_LEN : Z := 40.
Definition FOOTER_LEN : Z := 40.
Definition INDEX_HEADER_LEN : Z := 8.
Definition INDEX_ROW_LEN : Z := 32.
Definition DICT_FILE_HEADER_LEN : Z := 8.
Definition DICT_BLOCK_HEADER_LEN : Z := 32.

(** ** Precision *)

Inductive Precision : Type := P_S | P_Ms | P_Us | P_Ns.

#[export] Instance Precision_eq_dec : EqDecision Precision.
Proof. solve_decision. Defined.

Definition Precision_code (x : Precision) : Z := match x with P_S => 0 | P_Ms => 1 | P_Us => 2 | P_Ns => 3 end.

Definition Precision_from_code (code : Z) : option Precision :=
  if code =? 0 then Some P_S else if code =? 1 then Some P_Ms else if code =? 2 then Some P_Us
  else if code =? 3 then Some P_Ns else None.

Definition per_second (x : Precision) : Z := match x with P_S => 1 | P_Ms => 1000 | P_Us => 1000000 | P_Ns => 1000000000 end.

(** ** Varints

    Seven bits a byte, the low ones first.  A [u64] takes at most ten bytes, so the
    loops' fuel is never the reason they end. *)
Fixpoint put_varint_loop (fuel : nat) (value : Z) : bytes :=
  match fuel with
  | O => []
  | Datatypes.S fuel =>
      let byte := Z.land value 0x7F in
      let value := Z.shiftr value 7 in
      if value =? 0 then [byte] else Z.lor byte 0x80 :: put_varint_loop fuel value
  end.

Definition put_varint (value : Z) : bytes := put_varint_loop 10 value.

Fixpoint get_varint_loop (fuel : nat) (b : bytes) (pos value shift : Z) : option (Z * Z) :=
  match fuel with
  | O => None
  | Datatypes.S fuel =>
      byte ← byte_at b pos;
      if 64 <=? shift then None
      else
        let value := Z.lor value (wrap 64 (Z.shiftl (Z.land byte 0x7F) shift)) in
        if Z.land byte 0x80 =? 0 then Some (value, pos + 1) else get_varint_loop fuel b (pos + 1) value (shift + 7)
  end.

(** The value and the cursor behind it. *)
Definition get_varint (b : bytes) (pos : Z) : option (Z * Z) := get_varint_loop 11 b pos 0 0.

(** [((value << 1) ^ (value >> 63)) as u64] *)
Definition put_svarint (value : Z) : bytes :=
  put_varint (wrap 64 (Z.lxor (to_signed 64 (Z.shiftl value 1)) (Z.shiftr value 63))).

Definition get_svarint (b : bytes) (pos : Z) : option (Z * Z) :=
  '(raw, pos) ← get_varint b pos;
  Some (Z.lxor (to_signed 64 (Z.shiftr raw 1)) (- Z.land raw 1), pos).

(** ** Headers *)

Definition zeros (n : nat) : bytes := repeat 0 n.

(** [uN::from_be_bytes(bytes[a..b])] *)
Definition be_at (b : bytes) (i j : Z) : option Z := be_val <$> slice b i j.

(** The length, the magic bytes and what follows them. *)
Definition starts (len : Z) (magic b : bytes) : bool := (len <=? zlen b) && bool_decide (slice b 0 4 = Some magic).

Record PartHeader : Type := mkPartHeader {
  h_precision : Precision;
  h_bucket : Z;
  base_ts : Z;
  h_first_offset : Z;
  created_unix_ms : Z
}.

Definition PartHeader_encode (h : PartHeader) : bytes :=
  PART_MAGIC ++ VERSION :: Precision_code (h_precision h) :: zeros 2 ++ be_bytes 8 (h_bucket h) ++ be_bytes 8 (base_ts h)
  ++ be_bytes 8 (h_first_offset h) ++ be_bytes 8 (created_unix_ms h) ++ zeros 8.

Definition PartHeader_decode (b : bytes) : option PartHeader :=
  if negb (starts PART_HEADER_LEN PART_MAGIC b) then None
  else if negb (bool_decide (byte_at b 4 = Some VERSION)) then None
  else
    code ← byte_at b 5; precision ← Precision_from_code code;
    bucket ← be_at b 8 16; ts ← be_at b 16 24; off ← be_at b 24 32; created ← be_at b 32 40;
    Some (mkPartHeader precision bucket ts off created).

Inductive Codec : Type := Raw | Zstd.

#[export] Instance Codec_eq_dec : EqDecision Codec.
Proof. solve_decision. Defined.

Definition Codec_code (c : Codec) : Z := match c with Raw => 0 | Zstd => 1 end.

Definition Codec_from_code (code : Z) : option Codec :=
  if code =? 0 then Some Raw else if code =? 1 then Some Zstd else None.

Record BlockHeader : Type := mkBlockHeader {
  b_codec : Codec;
  b_records : Z;
  b_len_c : Z;
  b_len_u : Z;
  b_first_ts : Z;
  b_first_offset : Z
}.

Definition BlockHeader_encode (h : BlockHeader) : bytes :=
  BLOCK_MAGIC ++ Codec_code (b_codec h) :: zeros 3 ++ be_bytes 4 (b_records h) ++ be_bytes 4 (b_len_c h)
  ++ be_bytes 4 (b_len_u h) ++ zeros 4 ++ be_bytes 8 (b_first_ts h) ++ be_bytes 8 (b_first_offset h).

Definition BlockHeader_decode (b : bytes) : option BlockHeader :=
  if negb (starts BLOCK_HEADER_LEN BLOCK_MAGIC b) then None
  else
    code ← byte_at b 4; codec ← Codec_from_code code;
    records ← be_at b 8 12; len_c ← be_at b 12 16; len_u ← be_at b 16 20; ts ← be_at b 24 32; off ← be_at b 32 40;
    Some (mkBlockHeader codec records len_c len_u ts off).

Record Footer : Type := mkFooter { ft_records : Z; ft_last_ts : Z; ft_blocks : Z; ft_digest : Z }.

Definition Footer_encode (f : Footer) : bytes :=
  FOOTER_MAGIC ++ VERSION :: zeros 3 ++ be_bytes 8 (ft_records f) ++ be_bytes 8 (ft_last_ts f) ++ be_bytes 4 (ft_blocks f)
  ++ zeros 4 ++ be_bytes 8 (ft_digest f).

Definition Footer_decode (b : bytes) : option Footer :=
  if negb (starts FOOTER_LEN FOOTER_MAGIC b) then None
  else if negb (bool_decide (byte_at b 4 = Some VERSION)) then None
  else
    records ← be_at b 8 16; ts ← be_at b 16 24; blocks ← be_at b 24 28; digest ← be_at b 32 40;
    Some (mkFooter records ts blocks digest).

Record IndexRow : Type := mkIndexRow {
  r_first_ts : Z;
  r_first_offset : Z;
  r_file_offset : Z;
  r_len_c : Z;
  r_len_u : Z;
  r_records : Z
}.

Definition IndexRow_encode (r : IndexRow) : bytes :=
  be_bytes 8 (r_first_ts r) ++ be_bytes 8 (r_first_offset r) ++ be_bytes 4 (r_file_offset r) ++ be_bytes 4 (r_len_c r)
  ++ be_bytes 4 (r_len_u r) ++ be_bytes 4 (r_records r).

Definition IndexRow_decode (b : bytes) : option IndexRow :=
  if zlen b <? INDEX_ROW_LEN then None
  else
    ts ← be_at b 0 8; off ← be_at b 8 16; file ← be_at b 16 20; len_c ← be_at b 20 24; len_u ← be_at b 24 28; records ← be_at b 28 32;
    Some (mkIndexRow ts off file len_c len_u records).

(** [None]: the block stands past what an index row can name. *)
Definition IndexRow_from_header (h : BlockHeader) (file_offset : Z) : option IndexRow :=
  if file_offset <? 2 ^ 32
  then Some (mkIndexRow (b_first_ts h) (b_first_offset h) file_offset (b_len_c h) (b_len_u h) (b_records h)) else None.

Definition index_header : bytes := INDEX_MAGIC ++ [VERSION] ++ zeros 3.

(** ** Records *)

(** [None]: the record is too long for its length field. *)
Definition put_record (out : bytes) (delta : Z) (body : bytes) : option bytes :=
  let tail := put_varint delta in
  if zlen tail + zlen body <? 2 ^ 32 then Some (out ++ be_bytes 4 (zlen tail + zlen body) ++ tail ++ body) else None.

(** The delta, the body, and the cursor behind the record. *)
Definition get_record (payload : bytes) (pos : Z) : option (Z * bytes * Z) :=
  len ← be_at payload pos (pos + 4);
  s ← slice payload (pos + 4) (pos + 4 + len);
  '(delta, at_) ← get_varint s 0;
  Some (delta, drop (Z.to_nat at_) s, pos + 4 + len).

(** ** Varints read back *)

Lemma land_127 v : Z.land v 0x7F = v mod 128.
Proof. change 0x7F with (Z.ones 7). by rewrite Z.land_ones by lia. Qed.

Lemma lor_128 b : 0 <= b < 128 -> Z.lor b 0x80 = b + 128.
Proof. intros Hb. rewrite Z.lor_comm. change (Z.lor 0x80 b) with (Z.lor (Z.shiftl 1 7) b). rewrite lor_shift_add by lia. lia. Qed.

Lemma put_varint_step fuel v : put_varint_loop (Datatypes.S fuel) v =
  if v / 128 =? 0 then [v mod 128] else v mod 128 + 128 :: put_varint_loop fuel (v / 128).
Proof.
  cbn [put_varint_loop]. rewrite land_127, Z.shiftr_div_pow2 by lia. change (2 ^ 7) with 128.
  destruct (_ =? _); [done|]. by rewrite lor_128 by (apply Z.mod_pos_bound; lia).
Qed.

Lemma get_varint_step fuel pre b rest value shift : 0 <= b < 256 -> 0 <= shift < 64 -> 0 <= value < 2 ^ shift -> b mod 128 * 2 ^ shift < 2 ^ 64 ->
  get_varint_loop (Datatypes.S fuel) (pre ++ b :: rest) (zlen pre) value shift =
  if b <? 128 then Some (value + b mod 128 * 2 ^ shift, zlen pre + 1)
  else get_varint_loop fuel (pre ++ b :: rest) (zlen pre + 1) (value + b mod 128 * 2 ^ shift) (shift + 7).
Proof.
  intros Hb Hs Hv Hf. cbn [get_varint_loop]. rewrite byte_at_app. cbn [mbind option_bind]. rewrite (proj2 (Z.leb_gt _ _)) by lia.
  pose proof (Z.mod_pos_bound b 128 ltac:(lia)). pose proof (Z.pow_pos_nonneg 2 shift ltac:(lia) ltac:(lia)).
  rewrite land_127. unfold wrap. rewrite (Z.mod_small (Z.shiftl _ _)) by (rewrite Z.shiftl_mul_pow2 by lia; split; [nia|done]).
  rewrite Z.lor_comm, lor_shift_add by lia.
  assert ((Z.land b 0x80 =? 0) = (b <? 128)) as ->.
  { pose proof (Z_range_forall (λ b, Bool.eqb (Z.land b 0x80 =? 0) (b <? 128)) 0 256) as A. specialize (A ltac:(by vm_compute) b ltac:(lia)). by apply eqb_prop in A. }
  by replace (b mod 128 * 2 ^ shift + value) with (value + b mod 128 * 2 ^ shift) by lia.
Qed.

Lemma varint_loops fuel : forall fuel' pre rest v value shift, 0 <= v -> v < 128 ^ Z.of_nat (Datatypes.S fuel) -> (fuel < fuel')%nat ->
  0 <= shift -> 0 <= value < 2 ^ shift -> v * 2 ^ shift < 2 ^ 64 -> shift < 64 ->
  get_varint_loop fuel' (pre ++ put_varint_loop (Datatypes.S fuel) v ++ rest) (zlen pre) value shift =
  Some (value + v * 2 ^ shift, zlen pre + zlen (put_varint_loop (Datatypes.S fuel) v)).
Proof.
  induction fuel as [|fuel IH]; intros [|fuel'] pre rest v value shift Hv Hf Hl Hs Hb Ho Hsh; try lia; rewrite put_varint_step.
  - change (128 ^ Z.of_nat 1) with 128 in Hf. rewrite (Z.div_small v), (Z.mod_small v) by lia. cbn [Z.eqb app].
    rewrite get_varint_step; [|lia..|rewrite (Z.mod_small v) by lia; lia]. rewrite (proj2 (Z.ltb_lt _ _)), (Z.mod_small v) by lia. by rewrite zlen_cons.
  - pose proof (Z.div_mod v 128 ltac:(lia)). pose proof (Z.mod_pos_bound v 128 ltac:(lia)). pose proof (Z.pow_pos_nonneg 2 shift ltac:(lia) ltac:(lia)).
    destruct (Z.eqb_spec (v / 128) 0) as [E|E].
    + rewrite E in *. cbn [app]. replace (v mod 128) with v in * by lia. rewrite get_varint_step; [|lia..|by rewrite (Z.mod_small v) by lia].
      rewrite (proj2 (Z.ltb_lt _ _)), (Z.mod_small v) by lia. by rewrite zlen_cons.
    + cbn [app]. assert ((v mod 128 + 128) mod 128 = v mod 128) as Em by (rewrite <- (Z.mul_1_l 128) at 2; rewrite Z.mod_add, Z.mod_mod by lia; done).
      assert (0 < v / 128) by (pose proof (Z.div_pos v 128); lia). assert (2 ^ (shift + 7) = 128 * 2 ^ shift) as Ep by (rewrite Z.pow_add_r by lia; lia).
      assert (v / 128 * 2 ^ (shift + 7) < 2 ^ 64) by (rewrite Ep; nia).
      rewrite get_varint_step; [|lia..|rewrite Em; nia]. rewrite (proj2 (Z.ltb_ge _ _)), Em by lia.
      replace (pre ++ v mod 128 + 128 :: put_varint_loop (Datatypes.S fuel) (v / 128) ++ rest)
        with ((pre ++ [v mod 128 + 128]) ++ put_varint_loop (Datatypes.S fuel) (v / 128) ++ rest) by by rewrite <- app_assoc.
      replace (zlen pre + 1) with (zlen (pre ++ [v mod 128 + 128])) by zlia. rewrite IH.
      * rewrite zlen_app, !zlen_cons, zlen_nil, Ep. do 2 f_equal; [nia|lia].
      * lia.
      * replace (Z.of_nat (Datatypes.S (Datatypes.S fuel))) with (Z.of_nat (Datatypes.S fuel) + 1) in Hf by lia. rewrite Z.pow_add_r, Z.pow_1_r in Hf by lia.
        apply Z.div_lt_upper_bound; lia.
      * lia.
      * lia.
      * rewrite Ep. split; [nia|]. nia.
      * done.
      * assert (1 <= v / 128) by lia. assert (2 ^ (shift + 7) < 2 ^ 64) by nia. apply (Z.pow_lt_mono_r_iff 2); lia.
Qed.

Lemma varint_reads pre rest v : 0 <= v < 2 ^ 64 -> get_varint (pre ++ put_varint v ++ rest) (zlen pre) = Some (v, zlen pre + zlen (put_varint v)).
Proof.
  intros Hv. unfold get_varint, put_varint. rewrite (varint_loops 9); [by rewrite Z.mul_1_r|lia|change (128 ^ Z.of_nat 10) with (2 ^ 70); lia|lia..].
Qed.

Lemma put_varint_loop_len fuel v : 1 <= zlen (put_varint_loop (Datatypes.S fuel) v) <= Z.of_nat (Datatypes.S fuel).
Proof.
  revert v. induction fuel as [|fuel IH]; intros v; rewrite put_varint_step; (destruct (_ =? _); [rewrite zlen_cons, zlen_nil; lia|]); rewrite zlen_cons.
  - cbn [put_varint_loop]. rewrite zlen_nil. lia.
  - specialize (IH (v / 128)). lia.
Qed.

Lemma put_varint_len v : 1 <= zlen (put_varint v) <= 10.
Proof. apply (put_varint_loop_len 9). Qed.

Lemma put_varint_loop_ok fuel v : bytes_ok (put_varint_loop fuel v).
Proof.
  revert v. induction fuel as [|fuel IH]; intros v; [constructor|]. rewrite put_varint_step. pose proof (Z.mod_pos_bound v 128 ltac:(lia)).
  destruct (_ =? _); (constructor; [unfold byte_ok; lia|]); [constructor|apply IH].
Qed.

Lemma put_varint_ok v : bytes_ok (put_varint v).
Proof. apply put_varint_loop_ok. Qed.

Lemma svarint_reads pre rest v : - 2 ^ 63 <= v < 2 ^ 63 ->
  get_svarint (pre ++ put_svarint v ++ rest) (zlen pre) = Some (v, zlen pre + zlen (put_svarint v)).
Proof.
  intros Hv. unfold get_svarint, put_svarint.
  assert (wrap 64 (Z.lxor (to_signed 64 (Z.shiftl v 1)) (Z.shiftr v 63)) = if 0 <=? v then 2 * v else - 2 * v - 1) as ->.
  { rewrite Z.shiftl_mul_pow2, Z.shiftr_div_pow2 by lia. change (2 ^ 1) with 2. destruct (Z.leb_spec 0 v) as [L|L].
    - rewrite Z.div_small, Z.lxor_0_r by lia. unfold wrap, to_signed, wrap. rewrite (Z.mod_small (v * 2)) by lia.
      destruct (_ <? _); [rewrite Z.mod_small by lia; lia|]. rewrite <- (Z.mod_add _ 1) by lia. rewrite Z.mod_small by lia. lia.
    - replace (v / 2 ^ 63) with (-1) by (apply Z.div_unique with (v + 2 ^ 63); lia). rewrite Z.lxor_m1_r. unfold Z.lnot.
      unfold wrap, to_signed, wrap. rewrite <- (Z.mod_add (v * 2) 1 (2 ^ 64)) by lia. rewrite (Z.mod_small (v * 2 + _)) by lia.
      destruct (Z.ltb_spec (v * 2 + 1 * 2 ^ 64) (2 ^ (64 - 1))) as [M|M].
      + rewrite <- (Z.mod_add _ 1) by lia. rewrite Z.mod_small by lia. lia.
      + rewrite Z.mod_small by lia. lia. }
  rewrite varint_reads by (destruct (Z.leb_spec 0 v); lia). cbn [mbind option_bind]. do 2 f_equal.
  destruct (Z.leb_spec 0 v) as [L|L].
  - rewrite Z.shiftr_div_pow2 by lia. change (2 ^ 1) with 2. rewrite Z.mul_comm, Z.div_mul by lia.
    assert (Z.land (v * 2) 1 = 0) as -> by (change 1 with (Z.ones 1); rewrite Z.land_ones by lia; change (2 ^ 1) with 2; apply Z.mod_mul; lia).
    rewrite Z.lxor_0_r. unfold to_signed, wrap. rewrite Z.mod_small by lia. by rewrite (proj2 (Z.ltb_lt _ _)) by lia.
  - rewrite Z.shiftr_div_pow2 by lia. change (2 ^ 1) with 2.
    replace ((-2 * v - 1) / 2) with (- v - 1) by (apply Z.div_unique with 1; lia).
    assert (Z.land (-2 * v - 1) 1 = 1) as ->.
    { change 1 with (Z.ones 1) at 2. rewrite Z.land_ones by lia. change (2 ^ 1) with 2. symmetry. apply Z.mod_unique with (- v - 1); lia. }
    rewrite Z.lxor_m1_r. unfold Z.lnot, to_signed, wrap. rewrite Z.mod_small by lia. rewrite (proj2 (Z.ltb_lt _ _)) by lia. lia.
Qed.

(** ** Headers read back *)

Lemma zeros_zlen n : zlen (zeros n) = Z.of_nat n.
Proof. unfold zlen, zeros. by rewrite repeat_length. Qed.

Lemma part_magic_zlen : zlen PART_MAGIC = 4.
Proof. done. Qed.
Lemma block_magic_zlen : zlen BLOCK_MAGIC = 4.
Proof. done. Qed.
Lemma footer_magic_zlen : zlen FOOTER_MAGIC = 4.
Proof. done. Qed.
Lemma dict_magic_zlen : zlen DICT_BLOCK_MAGIC = 4.
Proof. done. Qed.

#[export] Hint Rewrite zeros_zlen part_magic_zlen block_magic_zlen footer_magic_zlen dict_magic_zlen : okm.

Lemma slice_skip {A} (l k : list A) a b : zlen l <= a -> a <= b -> slice (l ++ k) a b = slice k (a - zlen l) (b - zlen l).
Proof.
  intros Ha Hb. unfold slice. rewrite zlen_app. pose proof (zlen_nonneg l).
  replace ((0 <=? a - zlen l) && (a - zlen l <=? b - zlen l) && (b - zlen l <=? zlen k)) with ((0 <=? a) && (a <=? b) && (b <=? zlen l + zlen k))
    by (apply eq_true_iff_eq; rewrite !andb_true_iff, !Z.leb_le; lia).
  destruct (_ && _); [|done]. do 2 f_equal; [lia|]. unfold zlen in *.
  replace (Z.to_nat a) with (length l + Z.to_nat (a - Z.of_nat (length l)))%nat by lia. by rewrite drop_app_add'.
Qed.

Lemma be_at_skip l k a b : zlen l <= a -> a <= b -> be_at (l ++ k) a b = be_at k (a - zlen l) (b - zlen l).
Proof. intros. unfold be_at. by rewrite slice_skip. Qed.

Lemma be_at_here n v k a b : a = 0 -> b = Z.of_nat n -> 0 <= v < 256 ^ Z.of_nat n -> be_at (be_bytes n v ++ k) a b = Some v.
Proof.
  intros -> -> Hv. unfold be_at. rewrite <- (be_bytes_zlen n v), slice_0_app. cbn [fmap option_fmap option_map].
  f_equal. by apply be_val_be_bytes_small.
Qed.

Lemma be_at_last n v a b : a = 0 -> b = Z.of_nat n -> 0 <= v < 256 ^ Z.of_nat n -> be_at (be_bytes n v) a b = Some v.
Proof. intros. rewrite <- (app_nil_r (be_bytes n v)). by apply be_at_here. Qed.

Lemma byte_at_skip {A} (l k : list A) a : zlen l <= a -> byte_at (l ++ k) a = byte_at k (a - zlen l).
Proof.
  intros Ha. unfold byte_at. rewrite zlen_app. pose proof (zlen_nonneg l).
  replace ((0 <=? a - zlen l) && (a - zlen l <? zlen k)) with ((0 <=? a) && (a <? zlen l + zlen k))
    by (apply eq_true_iff_eq; rewrite !andb_true_iff, !Z.leb_le, !Z.ltb_lt; lia).
  destruct (_ && _); [|done]. unfold zlen in *. rewrite lookup_app_r by lia. f_equal. lia.
Qed.

Lemma be_at_cons x k a b : 1 <= a -> a <= b -> be_at (x :: k) a b = be_at k (a - 1) (b - 1).
Proof. intros. apply (be_at_skip [x] k a b); [by rewrite zlen_cons, zlen_nil|done]. Qed.

Lemma byte_at_head {A} (x : A) k a : a = 0 -> byte_at (x :: k) a = Some x.
Proof. intros ->. unfold byte_at. by rewrite (proj2 (Z.ltb_lt _ _)) by zlia. Qed.

Lemma byte_at_cons {A} (x : A) k a : 1 <= a -> byte_at (x :: k) a = byte_at k (a - 1).
Proof. intros. apply (byte_at_skip [x] k a). by rewrite zlen_cons, zlen_nil. Qed.

(** Reads the fields of a header out of its encoding. *)
Ltac header_fields :=
  repeat match goal with
  | |- context [be_at (be_bytes ?n ?v ++ ?k) ?a ?b] => rewrite (be_at_here n v k a b) by (zlia || done)
  | |- context [be_at (be_bytes ?n ?v) ?a ?b] => rewrite (be_at_last n v a b) by (zlia || done)
  | |- context [be_at (?x :: ?k) ?a ?b] => rewrite (be_at_cons x k a b) by zlia
  | |- context [be_at (?l ++ ?k) ?a ?b] => rewrite (be_at_skip l k a b) by zlia
  | |- context [byte_at (?x :: ?k) ?a] => rewrite (byte_at_head x k a) by zlia
  | |- context [byte_at (?x :: ?k) ?a] => rewrite (byte_at_cons x k a) by zlia
  | |- context [byte_at (?l ++ ?k) ?a] => rewrite (byte_at_skip l k a) by zlia
  end; cbn [mbind option_bind].

Lemma starts_magic len magic rest : zlen magic = 4 -> len <= 4 + zlen rest -> starts len magic (magic ++ rest) = true.
Proof.
  intros M L. unfold starts. rewrite (proj2 (Z.leb_le _ _)) by zlia. apply bool_decide_eq_true. rewrite <- M. apply slice_0_app.
Qed.

Lemma Precision_from_to x : Precision_from_code (Precision_code x) = Some x.
Proof. by destruct x. Qed.

Lemma Codec_from_to c : Codec_from_code (Codec_code c) = Some c.
Proof. by destruct c. Qed.

(** A field of 32 or of 64 bits. *)
Definition u32 (v : Z) : Prop := 0 <= v < 256 ^ Z.of_nat 4.
Definition u64 (v : Z) : Prop := 0 <= v < 256 ^ Z.of_nat 8.

Definition PartHeader_ok (h : PartHeader) : Prop := u64 (h_bucket h) /\ u64 (base_ts h) /\ u64 (h_first_offset h) /\ u64 (created_unix_ms h).

Definition BlockHeader_ok (h : BlockHeader) : Prop :=
  u32 (b_records h) /\ u32 (b_len_c h) /\ u32 (b_len_u h) /\ u64 (b_first_ts h) /\ u64 (b_first_offset h).

Definition Footer_ok (f : Footer) : Prop := u64 (ft_records f) /\ u64 (ft_last_ts f) /\ u32 (ft_blocks f) /\ u64 (ft_digest f).

Definition IndexRow_ok (r : IndexRow) : Prop :=
  u64 (r_first_ts r) /\ u64 (r_first_offset r) /\ u32 (r_file_offset r) /\ u32 (r_len_c r) /\ u32 (r_len_u r) /\ u32 (r_records r).

Lemma PartHeader_reads h rest : PartHeader_ok h -> PartHeader_decode (PartHeader_encode h ++ rest) = Some h.
Proof.
  intros (H1 & H2 & H3 & H4). unfold PartHeader_decode, PartHeader_encode. rewrite <- !app_assoc, <- !app_comm_cons, <- !app_assoc.
  rewrite starts_magic by (done || (unfold PART_HEADER_LEN; zlia)). cbn [negb]. header_fields.
  rewrite bool_decide_true by done. cbn [negb]. rewrite Precision_from_to. cbn [mbind option_bind]. header_fields. by destruct h.
Qed.

Lemma PartHeader_zlen h : zlen (PartHeader_encode h) = PART_HEADER_LEN.
Proof. unfold PartHeader_encode, PART_HEADER_LEN. zlia. Qed.

Lemma BlockHeader_reads h rest : BlockHeader_ok h -> BlockHeader_decode (BlockHeader_encode h ++ rest) = Some h.
Proof.
  intros (H1 & H2 & H3 & H4 & H5). unfold BlockHeader_decode, BlockHeader_encode. rewrite <- !app_assoc, <- !app_comm_cons, <- !app_assoc.
  rewrite starts_magic by (done || (unfold BLOCK_HEADER_LEN; zlia)). cbn [negb]. header_fields.
  rewrite Codec_from_to. cbn [mbind option_bind]. header_fields. by destruct h.
Qed.

Lemma BlockHeader_zlen h : zlen (BlockHeader_encode h) = BLOCK_HEADER_LEN.
Proof. unfold BlockHeader_encode, BLOCK_HEADER_LEN. zlia. Qed.

Lemma Footer_reads f rest : Footer_ok f -> Footer_decode (Footer_encode f ++ rest) = Some f.
Proof.
  intros (H1 & H2 & H3 & H4). unfold Footer_decode, Footer_encode. rewrite <- !app_assoc, <- !app_comm_cons, <- !app_assoc.
  rewrite starts_magic by (done || (unfold FOOTER_LEN; zlia)). cbn [negb]. header_fields.
  rewrite bool_decide_true by done. cbn [negb]. header_fields. by destruct f.
Qed.

Lemma Footer_zlen f : zlen (Footer_encode f) = FOOTER_LEN.
Proof. unfold Footer_encode, FOOTER_LEN. zlia. Qed.

Lemma IndexRow_reads r rest : IndexRow_ok r -> IndexRow_decode (IndexRow_encode r ++ rest) = Some r.
Proof.
  intros (H1 & H2 & H3 & H4 & H5 & H6). unfold IndexRow_decode, IndexRow_encode. rewrite <- !app_assoc.
  rewrite (proj2 (Z.ltb_ge _ _)) by (unfold INDEX_ROW_LEN; zlia). header_fields. by destruct r.
Qed.

Lemma IndexRow_zlen r : zlen (IndexRow_encode r) = INDEX_ROW_LEN.
Proof. unfold IndexRow_encode, INDEX_ROW_LEN. zlia. Qed.

#[export] Hint Rewrite PartHeader_zlen BlockHeader_zlen Footer_zlen IndexRow_zlen : okm.

(** ** Records read back *)

(** One record's bytes. *)
Definition record_bytes (delta : Z) (body : bytes) : bytes :=
  be_bytes 4 (zlen (put_varint delta) + zlen body) ++ put_varint delta ++ body.

Definition record_fits (delta : Z) (body : bytes) : Prop := u64 delta /\ zlen (put_varint delta) + zlen body < 2 ^ 32.

Lemma put_record_fits out delta body : record_fits delta body -> put_record out delta body = Some (out ++ record_bytes delta body).
Proof. intros [_ F]. unfold put_record. by rewrite (proj2 (Z.ltb_lt _ _)) by done. Qed.

Lemma put_record_ok out delta body x : u64 delta -> put_record out delta body = Some x -> record_fits delta body /\ x = out ++ record_bytes delta body.
Proof. intros Hd. unfold put_record. destruct (Z.ltb_spec (zlen (put_varint delta) + zlen body) (2 ^ 32)) as [L|L]; [|done]. by intros [= <-]. Qed.

Lemma record_zlen delta body : zlen (record_bytes delta body) = 4 + zlen (put_varint delta) + zlen body.
Proof. unfold record_bytes. zlia. Qed.

Lemma get_record_reads pre delta body rest : record_fits delta body ->
  get_record (pre ++ record_bytes delta body ++ rest) (zlen pre) = Some (delta, body, zlen pre + zlen (record_bytes delta body)).
Proof.
  intros [Hd F]. unfold get_record. pose proof (put_varint_len delta). pose proof (zlen_nonneg body).
  rewrite record_zlen. unfold record_bytes. rewrite <- !app_assoc.
  rewrite be_at_skip, be_at_here; [|lia|lia|change (256 ^ Z.of_nat 4) with (2 ^ 32); lia|lia..].
  cbn [mbind option_bind]. rewrite slice_skip, slice_skip by zlia. rewrite be_bytes_zlen.
  replace (zlen pre + 4 - zlen pre - Z.of_nat 4) with 0 by lia.
  replace (zlen pre + 4 + (zlen (put_varint delta) + zlen body) - zlen pre - Z.of_nat 4) with (zlen (put_varint delta ++ body)) by zlia.
  rewrite (app_assoc (put_varint delta)).
  rewrite slice_0_app. cbn [mbind option_bind]. pose proof (varint_reads [] body delta) as V. cbn [app] in V. change (zlen (@nil Z)) with 0 in V.
  rewrite V by done. cbn [mbind option_bind]. rewrite Z.add_0_l. unfold zlen at 1. rewrite Nat2Z.id, drop_app_length.
  do 2 f_equal. lia.
Qed.

(** The records of a block, and walking them. *)
Definition records_bytes (l : list (Z * bytes)) : bytes := concat (map (λ r, record_bytes r.1 r.2) l).

Lemma records_app l k : records_bytes (l ++ k) = records_bytes l ++ records_bytes k.
Proof. unfold records_bytes. by rewrite map_app, concat_app. Qed.
