(* ===== verification/SerDict.v ===== *)
(** * The dictionary of a part (okm-series, [dict.rs], [lib.rs])

    Strings that occur often enough earn a code: a block and a number inside it.
    Blocks live in memory until they fill or the part is flushed, and then stand in
    the dictionary's file for good.  The compressor and the hash are arguments. *)
From S2P Require Import Prelude SerFormat.

(** ** What the crate imports *)

Class SeriesLib : Type := {
  zstd_compress : bytes -> option bytes;
  zstd_decompress : bytes -> Z -> option bytes;
  xxh64 : bytes -> Z
}.

(** A compressed block decompresses to what it was made of, and is never empty: a
    frame begins with its magic number. *)
Class SeriesLibLaws `{SeriesLib} : Prop := {
  zstd_roundtrip b c : zstd_compress b = Some c -> zstd_decompress c (zlen b) = Some b;
  zstd_frame b c : zstd_compress b = Some c -> c <> [];
  xxh64_range b : u64 (xxh64 b)
}.

(** ** Errors

    [Io] is a read past the end of a file; nothing else of a disk's faults is
    modelled. *)
Inductive FrameKind : Type := FramePartHeader | FrameIndex | FrameBlockHeader | FrameBody | FrameRecord.

Inductive MetaField : Type := MetaFile | MetaPrecision | MetaBucket | MetaPartition.

Inductive SeriesError : Type :=
| Io
| BadFrame (what : FrameKind)
| BadPath
| CodecFailed
| Overflow
| TimeBackwards (last given : Z)
| MissingPartition (tag : Z)
| BadMeta (what : MetaField)
| Locked (pid : Z)
| AlreadyOpen
| ConfigMismatch (what : MetaField).

#[export] Instance FrameKind_eq_dec : EqDecision FrameKind.
Proof. solve_decision. Defined.

#[export] Instance MetaField_eq_dec : EqDecision MetaField.
Proof. solve_decision. Defined.

#[export] Instance SeriesError_eq_dec : EqDecision SeriesError.
Proof. solve_decision. Defined.

Abbreviation sresult := (outcome SeriesError).

(** ** Files *)

(** [seek] and [write_all]: a gap past the end is filled with zeros. *)
Definition write_at (file : bytes) (at_ : Z) (data : bytes) : bytes :=
  let file := file ++ zeros (Z.to_nat (at_ - zlen file)) in
  take (Z.to_nat at_) file ++ data ++ drop (Z.to_nat (at_ + zlen data)) file.

(** The dictionary's file, and the file beside it that names the newest block. *)
Record DictFiles : Type := mkDictFiles { df_dict : bytes; df_tail : bytes }.

(** ** State *)

(** [(multiple, threshold)]; a multiple of zero has no upper bound. *)
Record DictConfig : Type := mkDictConfig { tiers : list (Z * Z); block_entries : Z }.

Definition DictConfig_default : DictConfig := mkDictConfig [(4, 10); (8, 5); (16, 3); (0, 2)] (2 ^ 16).

Definition width_of (code : Z) : option Z :=
  if code =? 0 then Some 2 else if code =? 1 then Some 4 else if code =? 2 then Some 8 else None.

Definition DICT_BASE : Z := 16.

(** Saturating in a [u8]. *)
Definition code_of (block : nat) : Z := (DICT_BASE + Z.of_nat block) `min` 255.

Record Block : Type := mkBlock { k_width : Z; k_entries : list bytes; k_file_offset : Z }.

Definition COUNT_TRACK_LIMIT : Z := 2 ^ 20.

Record Dict : Type := mkDict {
  d_file : bool;
  d_file_offset : Z;
  d_blocks : list Block;
  d_open : nat;
  d_counts : gmap Z Z;
  d_promoted : gmap bytes (Z * Z);
  d_config : DictConfig
}.

Definition set_blocks (d : Dict) (l : list Block) : Dict :=
  mkDict (d_file d) (d_file_offset d) l (d_open d) (d_counts d) (d_promoted d) (d_config d).

Definition set_counts (d : Dict) (c : gmap Z Z) : Dict :=
  mkDict (d_file d) (d_file_offset d) (d_blocks d) (d_open d) c (d_promoted d) (d_config d).

Definition fresh_block (width : Z) : Block := mkBlock width [] 0.

(** A new block behind the others, opened. *)
Definition push_block (d : Dict) (width : Z) : Dict :=
  let l := d_blocks d ++ [fresh_block width] in
  mkDict (d_file d) (d_file_offset d) l (length l - 1) (d_counts d) (d_promoted d) (d_config d).

Definition clamped (config : DictConfig) : DictConfig := mkDictConfig (tiers config) (block_entries config `max` 1).

Definition dict_file_header : bytes := DICT_FILE_MAGIC ++ [VERSION] ++ zeros 3.

(** [write_tail]: replaced as a whole. *)
Definition write_tail (f : DictFiles) (offset : Z) : DictFiles := mkDictFiles (df_dict f) (be_bytes 8 offset).

Definition Dict_create (config : DictConfig) : Dict * DictFiles :=
  (mkDict true DICT_FILE_HEADER_LEN [fresh_block 2] 0 ∅ ∅ (clamped config), write_tail (mkDictFiles dict_file_header []) 0).

(** ** Reading blocks *)

(** The entries of a payload, up to [count]; a malformed one ends the list. *)
Fixpoint read_entries (fuel : nat) (payload : bytes) (pos count : Z) (out : list bytes) : list bytes :=
  match fuel with
  | O => out
  | Datatypes.S fuel =>
      if (pos <? zlen payload) && (zlen out <? count) then
        match get_varint payload pos with
        | None => out
        | Some (len, pos) =>
            match slice payload pos (pos + len) with
            | None => out
            | Some text =>
                match from_utf8 text with
                | None => out
                | Some text => read_entries fuel payload (pos + len) count (out ++ [text])
                end
            end
        end
      else out
  end.

Section Files.
Context `{SeriesLib}.

(** The width, the entries, and where the next block starts. *)
Definition read_block (file : bytes) (at_ : Z) : option (Z * list bytes * Z) :=
  header ← slice file at_ (at_ + DICT_BLOCK_HEADER_LEN);
  if negb (bool_decide (slice header 0 4 = Some DICT_BLOCK_MAGIC)) then None
  else
    code ← byte_at header 5;
    let codec := default Raw (Codec_from_code code) in
    wcode ← byte_at header 6;
    width ← width_of wcode;
    count ← be_at header 8 12;
    len_c ← be_at header 24 28;
    len_u ← be_at header 28 32;
    b ← slice file (at_ + DICT_BLOCK_HEADER_LEN) (at_ + DICT_BLOCK_HEADER_LEN + len_c);
    payload ← (match codec with Raw => Some b | Zstd => zstd_decompress b len_u end);
    if negb (zlen payload =? len_u) then None
    else Some (width, read_entries (Datatypes.S (length payload)) payload 0 count [], at_ + DICT_BLOCK_HEADER_LEN + len_c).

(** The blocks from a cursor on, and the end of the last one. *)
Fixpoint load_blocks (fuel : nat) (file : bytes) (cursor file_offset : Z) (out : list Block) : list Block * Z :=
  match fuel with
  | O => (out, file_offset)
  | Datatypes.S fuel =>
      if cursor + DICT_BLOCK_HEADER_LEN <=? zlen file then
        match read_block file cursor with
        | Some (width, entries, next) => load_blocks fuel file next next (out ++ [mkBlock width entries cursor])
        | None => (out, file_offset)
        end
      else (out, file_offset)
  end.

(** Every entry's code; a later one of the same text wins. *)
Definition promoted_of (blocks : list Block) : gmap bytes (Z * Z) :=
  fold_left (λ m ib, fold_left (λ m it, <[it.2 := (code_of ib.1, Z.of_nat it.1)]> m) (imap pair (k_entries ib.2)) m) (imap pair blocks) ∅.

(** [None]: there is no file. *)
Definition Dict_load (file : option bytes) (config : DictConfig) : Dict :=
  let '(blocks, file_offset) :=
    match file with
    | Some f =>
        if (DICT_FILE_HEADER_LEN <=? zlen f) && bool_decide (slice f 0 4 = Some DICT_FILE_MAGIC)
        then load_blocks (length f) f DICT_FILE_HEADER_LEN 0 [] else ([], 0)
    | None => ([], 0)
    end in
  mkDict false file_offset blocks 0 ∅ (promoted_of blocks) (clamped config).

(** The blocks on disk are closed: a fresh one of the last one's width is opened. *)
Definition Dict_adopt (file : bytes) (config : DictConfig) : Dict :=
  let d := Dict_load (Some file) config in
  let d := mkDict true (d_file_offset d) (d_blocks d) (d_open d) (d_counts d) (d_promoted d) (d_config d) in
  push_block d (match last (d_blocks d) with Some b => k_width b | None => 2 end).

(** ** Lookups *)

(** [block.checked_sub(DICT_BASE)] *)
Definition block_at (d : Dict) (code : Z) : option Block :=
  if code <? DICT_BASE then None else d_blocks d !! Z.to_nat (code - DICT_BASE).

Definition Dict_lookup (d : Dict) (code id : Z) : option bytes :=
  b ← block_at d code; k_entries b !! Z.to_nat id.

Definition Dict_width (d : Dict) (code : Z) : option Z := k_width <$> block_at d code.

Definition Dict_is_empty (d : Dict) : bool := forallb (λ b, match k_entries b with [] => true | _ => false end) (d_blocks d).

(** ** Writing blocks *)

Definition entry_bytes (text : bytes) : bytes := put_varint (zlen text) ++ text.

Definition entries_bytes (l : list bytes) : bytes := concat (map entry_bytes l).

Definition dict_block_header (codec : Codec) (width entries prev len_c len_u : Z) : bytes :=
  DICT_BLOCK_MAGIC ++ VERSION :: Codec_code codec :: (if width =? 2 then 0 else if width =? 4 then 1 else 2) :: zeros 1
  ++ be_bytes 4 (wrap 32 entries) ++ zeros 4 ++ be_bytes 8 prev ++ be_bytes 4 (wrap 32 len_c) ++ be_bytes 4 (wrap 32 len_u).

(** The open block's bytes; an empty block writes nothing. *)
Definition flush_open_block (d : Dict) (f : DictFiles) : Dict * DictFiles * sresult unit :=
  match d_blocks d !! d_open d with
  | None => (d, f, Ok tt)
  | Some block =>
      match k_entries block with
      | [] => (d, f, Ok tt)
      | _ =>
          let payload := entries_bytes (k_entries block) in
          match zstd_compress payload with
          | None => (d, f, Err CodecFailed)
          | Some compressed =>
              let '(codec, b) := if zlen compressed <? zlen payload then (Zstd, compressed) else (Raw, payload) in
              let prev := match d_open d with O => 0 | Datatypes.S i => match d_blocks d !! i with Some b => k_file_offset b | None => 0 end end in
              let header := dict_block_header codec (k_width block) (zlen (k_entries block)) prev (zlen b) (zlen payload) in
              if negb (d_file d) then (d, f, Err BadPath)
              else
                let at_ := d_file_offset d in
                let file := write_at (df_dict f) at_ (header ++ b) in
                let d := mkDict (d_file d) (at_ + DICT_BLOCK_HEADER_LEN + zlen b)
                  (<[d_open d := mkBlock (k_width block) (k_entries block) at_]> (d_blocks d)) (d_open d) (d_counts d) (d_promoted d) (d_config d) in
                (d, write_tail (mkDictFiles file (df_tail f)) at_, Ok tt)
          end
      end
  end.

(** A block that cannot be written stays open and grows. *)
Definition close_block (d : Dict) (f : DictFiles) : Dict * DictFiles :=
  match flush_open_block d f with
  | (d, f, Ok _) =>
      match d_blocks d !! d_open d with
      | Some b => (push_block d (if 2 * k_width b <? 2 ^ 64 then 2 * k_width b else k_width b), f)
      | None => (d, f)
      end
  | (d, f, _) => (d, f)
  end.

Definition flush_if_dirty (d : Dict) (f : DictFiles) : Dict * DictFiles * sresult unit :=
  match d_blocks d !! d_open d with
  | None => (d, f, Panic)
  | Some b =>
      match k_entries b with
      | [] => (d, f, Ok tt)
      | _ =>
          match flush_open_block d f with
          | (d, f, Ok _) => (push_block d (k_width b), f, Ok tt)
          | r => r
          end
      end
  end.

(** [finish] *)
Definition Dict_finish (d : Dict) (f : DictFiles) : Dict * DictFiles * sresult unit := flush_open_block d f.

(** ** Promotion *)

(** [None]: never. *)
Definition threshold_for (len width : Z) (tiers : list (Z * Z)) : option Z :=
  if len <=? width then None
  else snd <$> find (λ t, (t.1 =? 0) || (len <=? (t.1 * width) `min` (2 ^ 64 - 1))) tiers.

Definition promote (d : Dict) (f : DictFiles) (text : bytes) : Dict * DictFiles * sresult (Z * Z) :=
  match d_blocks d !! d_open d with
  | None => (d, f, Panic)
  | Some b =>
      let '(d, f) := if block_entries (d_config d) <=? zlen (k_entries b) then close_block d f else (d, f) in
      match d_blocks d !! d_open d with
      | None => (d, f, Panic)
      | Some b =>
          let id := zlen (k_entries b) in
          let code := code_of (d_open d) in
          (mkDict (d_file d) (d_file_offset d) (<[d_open d := mkBlock (k_width b) (k_entries b ++ [text]) (k_file_offset b)]> (d_blocks d))
             (d_open d) (d_counts d) (<[text := (code, id)]> (d_promoted d)) (d_config d), f, Ok (code, id))
      end
  end.

(** Counts a string and decides its form: [None] is inline. *)
Definition settle (p : profile) (d : Dict) (f : DictFiles) (text : bytes) : Dict * DictFiles * sresult (option (Z * Z)) :=
  match d_promoted d !! text with
  | Some ci => (d, f, Ok (Some ci))
  | None =>
      let key := xxh64 text in
      match (match d_counts d !! key with
             | Some c => c ← add_w p 32 c 1; Ok (<[key := c]> (d_counts d), c)
             | None => Ok (if Z.of_nat (size (d_counts d)) <? COUNT_TRACK_LIMIT then <[key := 1]> (d_counts d) else d_counts d, 1)
             end : sresult (gmap Z Z * Z)) with
      | Ok (counts, count) =>
          let d := set_counts d counts in
          match (b ← d_blocks d !! d_open d; threshold_for (zlen text) (k_width b) (tiers (d_config d))) with
          | None => (d, f, Ok None)
          | Some threshold =>
              if count <? threshold then (d, f, Ok None)
              else
                match promote (set_counts d (delete key counts)) f text with
                | (d, f, Ok ci) => (d, f, Ok (Some ci))
                | (d, f, Err e) => (d, f, Err e)
                | (d, f, Panic) => (d, f, Panic)
                end
          end
      | Err e => (d, f, Err e)
      | Panic => (d, f, Panic)
      end
  end.
End Files.
