(* ===== verification/SerSamples.v ===== *)
(** * A library for samples (okm-series)

    A run-length compressor and a sum stand in for zstd and xxHash where the theorems
    about the series are applied. *)
From S2P Require Import Prelude SerFormat SerDict.

Definition rle_compress (b : bytes) : bytes :=
  match b with
  | x :: l => if (2 <=? zlen l) && forallb (λ y, y =? x) l then [1; x] else 0 :: b
  | [] => [0]
  end.

Definition rle_decompress (c : bytes) (n : Z) : option bytes :=
  match c with
  | t :: c => if t =? 0 then Some c else match c with [x] => Some (repeat x (Z.to_nat n)) | _ => None end
  | [] => None
  end.

#[export] Instance sample_lib : SeriesLib := {
  zstd_compress b := Some (rle_compress b);
  zstd_decompress := rle_decompress;
  xxh64 b := be_val b mod 2 ^ 64
}.

Lemma run_repeat (x : Z) l : forallb (λ y, y =? x) l = true -> l = repeat x (length l).
Proof. induction l as [|y l IH]; [done|]. cbn [forallb]. rewrite andb_true_iff, Z.eqb_eq. intros [-> F]. cbn [length repeat]. by rewrite <- IH. Qed.

#[export] Instance sample_laws : SeriesLibLaws.
Proof.
  split.
  - intros b c [= <-]. cbn [zstd_decompress sample_lib]. destruct b as [|x l]; [done|]. cbn [rle_compress]. destruct (2 <=? zlen l); [|done].
    destruct (forallb _ l) eqn:F; [|done]. cbn [andb rle_decompress Z.eqb]. rewrite zlen_cons. unfold zlen. replace (Z.to_nat (1 + Z.of_nat (length l))) with (S (length l)) by lia.
    cbn [repeat]. by rewrite <- run_repeat.
  - intros b c [= <-]. destruct b as [|x l]; [done|]. cbn [rle_compress]. by destruct (_ && _).
  - intros b. cbn [xxh64 sample_lib]. unfold u64. change (256 ^ Z.of_nat 8) with (2 ^ 64). apply Z.mod_pos_bound. lia.
Qed.
