(* ===== verification/SerDictFacts.v ===== *)
(** * Dictionaries read back (okm-series, [dict.rs])

    [dict_inv] says that the closed blocks of a dictionary stand in its file, one
    behind the other, and that every code given out resolves to its text.  Every
    operation keeps it while blocks and widths stay in the range of a code; the file
    then loads to the closed blocks. *)
From S2P Require Import Prelude SerFormat SerDict.

(** ** Files *)

Lemma write_at_end (file data : bytes) : write_at file (zlen file) data = file ++ data.
Proof.
  unfold write_at. rewrite Z.sub_diag. cbn [Z.to_nat zeros repeat]. rewrite app_nil_r. unfold zlen at 1. rewrite Nat2Z.id, take_ge by done.
  rewrite drop_ge by (unfold zlen; lia). by rewrite app_nil_r.
Qed.

Lemma slice_prefix {A} (l k l' : list A) a b m : slice l a b = Some m -> l' = l ++ k -> slice l' a b = Some m.
Proof. intros E ->. by apply slice_weaken. Qed.

Section Facts.
Context `{SLL : SeriesLibLaws}.

(** A block read stays read when the file grows. *)
Lemma read_block_grows file more at_ w l next : read_block file at_ = Some (w, l, next) -> read_block (file ++ more) at_ = Some (w, l, next).
Proof.
  unfold read_block. intros E. apply bind_Some in E as (header & Eh & E). rewrite (slice_weaken _ _ _ _ _ Eh). cbn [mbind option_bind].
  destruct (negb _); [done|]. apply bind_Some in E as (code & -> & E). cbn [mbind option_bind]. apply bind_Some in E as (wc & -> & E). cbn [mbind option_bind].
  apply bind_Some in E as (wd & -> & E). cbn [mbind option_bind]. apply bind_Some in E as (count & -> & E). cbn [mbind option_bind].
  apply bind_Some in E as (len_c & -> & E). cbn [mbind option_bind]. apply bind_Some in E as (len_u & -> & E). cbn [mbind option_bind].
  apply bind_Some in E as (b & Eb & E). rewrite (slice_weaken _ _ _ _ _ Eb). exact E.
Qed.

(** Blocks stand one behind the other. *)
Fixpoint chain (file : bytes) (off : Z) (l : list Block) (e : Z) : Prop :=
  match l with
  | [] => off = e
  | b :: l => k_file_offset b = off /\ exists next, off + DICT_BLOCK_HEADER_LEN <= next <= zlen file /\
      read_block file off = Some (k_width b, k_entries b, next) /\ chain file next l e
  end.

Lemma chain_grows file more l : forall off e, chain file off l e -> chain (file ++ more) off l e.
Proof.
  induction l as [|b l IH]; intros off e; cbn [chain]; [done|]. intros (? & next & L & E & C). split; [done|]. exists next.
  split; [pose proof (zlen_nonneg more); zlia|]. split; [by apply read_block_grows|by apply IH].
Qed.

Lemma chain_snoc file b l : forall off e next, chain file off l e -> k_file_offset b = e -> e + DICT_BLOCK_HEADER_LEN <= next <= zlen file ->
  read_block file e = Some (k_width b, k_entries b, next) -> chain file off (l ++ [b]) next.
Proof.
  induction l as [|x l IH]; intros off e next; cbn [chain app].
  - intros -> ? ? ?. split; [done|]. by exists next.
  - intros (? & n & L & E & C) ? ? ?. split; [done|]. exists n. split; [done|]. split; [done|]. by eapply IH.
Qed.

Lemma chain_le file l : forall off e, chain file off l e -> off <= zlen file -> off <= e <= zlen file.
Proof.
  induction l as [|x l IH]; intros off e; cbn [chain]; [lia|]. intros (_ & n & L & _ & C) Lo. unfold DICT_BLOCK_HEADER_LEN in *.
  specialize (IH n e C ltac:(lia)). lia.
Qed.

(** Loading answers the chain. *)
Lemma load_chain l : forall fuel file off fo out, chain file off l (zlen file) -> zlen file - off <= Z.of_nat fuel -> 0 <= off ->
  load_blocks fuel file off fo out = (out ++ l, match l with [] => fo | _ => zlen file end).
Proof.
  induction l as [|b l IH]; intros fuel file off fo out C Lf Lo; cbn [chain] in C.
  - subst. rewrite app_nil_r. destruct fuel; [done|]. cbn [load_blocks]. by rewrite (proj2 (Z.leb_gt _ _)) by (unfold DICT_BLOCK_HEADER_LEN; lia).
  - destruct C as (Ef & next & L & E & C). unfold DICT_BLOCK_HEADER_LEN in L. destruct fuel as [|fuel]; [lia|]. cbn [load_blocks].
    rewrite (proj2 (Z.leb_le _ _)) by (unfold DICT_BLOCK_HEADER_LEN; lia). rewrite E. rewrite IH; [|done|lia|lia]. rewrite <- app_assoc. cbn [app].
    replace (mkBlock (k_width b) (k_entries b) off) with b by (rewrite <- Ef; by destruct b). destruct l; [cbn [chain] in C; by subst|done].
Qed.

(** ** Entries read back *)

Lemma entries_cons t l : entries_bytes (t :: l) = put_varint (zlen t) ++ t ++ entries_bytes l.
Proof. unfold entries_bytes, entry_bytes. cbn [map concat]. by rewrite <- app_assoc. Qed.

Lemma entries_app l k : entries_bytes (l ++ k) = entries_bytes l ++ entries_bytes k.
Proof. unfold entries_bytes. by rewrite map_app, concat_app. Qed.

Lemma entries_count l : zlen l <= zlen (entries_bytes l).
Proof.
  induction l as [|t l IH]; [done|]. rewrite entries_cons. pose proof (put_varint_len (zlen t)). pose proof (zlen_nonneg t). zlia.
Qed.

Lemma read_entries_reads l : forall fuel pre out count, Forall (λ t, utf8_valid t = true) l -> zlen (entries_bytes l) < 2 ^ 32 ->
  (length l < fuel)%nat -> count = zlen out + zlen l ->
  read_entries fuel (pre ++ entries_bytes l) (zlen pre) count out = out ++ l.
Proof.
  induction l as [|t l IH]; intros [|fuel] pre out count F L Hf Hc; [simpl in Hf; lia..| |simpl in Hf; lia|]; cbn [read_entries].
  - unfold entries_bytes. cbn [map concat]. rewrite !app_nil_r. by rewrite (proj2 (Z.ltb_ge _ _)) by lia.
  - apply Forall_cons in F as [Ft F]. rewrite entries_cons in *. pose proof (put_varint_len (zlen t)). pose proof (zlen_nonneg t). pose proof (zlen_nonneg (entries_bytes l)).
    rewrite (proj2 (Z.ltb_lt _ _)) by zlia. rewrite (proj2 (Z.ltb_lt _ _)) by (pose proof (zlen_nonneg l); zlia). cbn [andb].
    rewrite varint_reads by (rewrite !zlen_app in L; lia).
    replace (pre ++ put_varint (zlen t) ++ t ++ entries_bytes l) with ((pre ++ put_varint (zlen t)) ++ t ++ entries_bytes l) by by rewrite <- app_assoc.
    rewrite <- zlen_app, slice_app. unfold from_utf8. rewrite Ft. rewrite app_assoc, <- zlen_app. rewrite IH; [by rewrite <- app_assoc|done|zlia|simpl in Hf; lia|zlia].
Qed.

(** ** Blocks read back *)

(** What a block's header can say, and what a code of its width can name. *)
Definition block_fits (b : Block) : Prop :=
  (k_width b = 2 \/ k_width b = 4 \/ k_width b = 8) /\ zlen (entries_bytes (k_entries b)) < 2 ^ 32 /\ zlen (k_entries b) <= 256 ^ k_width b.

(** What a flush writes for a block. *)
Definition block_form (payload compressed : bytes) : Codec * bytes :=
  if zlen compressed <? zlen payload then (Zstd, compressed) else (Raw, payload).

Lemma block_reads file b prev compressed : block_fits b -> Forall (λ t, utf8_valid t = true) (k_entries b) ->
  zstd_compress (entries_bytes (k_entries b)) = Some compressed ->
  let '(codec, d) := block_form (entries_bytes (k_entries b)) compressed in
  let data := dict_block_header codec (k_width b) (zlen (k_entries b)) prev (zlen d) (zlen (entries_bytes (k_entries b))) ++ d in
  zlen data = DICT_BLOCK_HEADER_LEN + zlen d /\
  read_block (file ++ data) (zlen file) = Some (k_width b, k_entries b, zlen file + zlen data).
Proof.
  intros (Hw & Hp & _) Hu Ec. set (payload := entries_bytes (k_entries b)) in *. destruct (block_form payload compressed) as [codec d] eqn:Ef.
  assert (zlen d <= zlen payload /\ match codec with Raw => Some d | Zstd => zstd_decompress d (zlen payload) end = Some payload) as [Ld Ed].
  { unfold block_form in Ef. destruct (Z.ltb_spec (zlen compressed) (zlen payload)); injection Ef as <- <-; [|done]. split; [lia|]. by apply zstd_roundtrip. }
  pose proof (entries_count (k_entries b)) as Lc. fold payload in Lc. pose proof (zlen_nonneg (k_entries b)). pose proof (zlen_nonneg d).
  set (header := dict_block_header codec (k_width b) (zlen (k_entries b)) prev (zlen d) (zlen payload)).
  assert (zlen header = DICT_BLOCK_HEADER_LEN) as Lh by (unfold header, dict_block_header, DICT_BLOCK_HEADER_LEN; zlia).
  split; [by rewrite zlen_app, Lh|]. unfold read_block. rewrite <- Lh, slice_app. cbn [mbind option_bind].
  assert (wrap 32 (zlen (k_entries b)) = zlen (k_entries b) /\ wrap 32 (zlen d) = zlen d /\ wrap 32 (zlen payload) = zlen payload) as (W1 & W2 & W3)
    by (unfold wrap; split_and!; apply Z.mod_small; lia).
  assert (forall v, 0 <= v < 2 ^ 32 -> 0 <= v < 256 ^ Z.of_nat 4) as R4 by (change (256 ^ Z.of_nat 4) with (2 ^ 32); done).
  pose proof (R4 (zlen (k_entries b)) ltac:(lia)) as R1. pose proof (R4 (zlen d) ltac:(lia)) as R2. pose proof (R4 (zlen payload) ltac:(lia)) as R3.
  assert (slice header 0 4 = Some DICT_BLOCK_MAGIC) as Em by (unfold header, dict_block_header; rewrite <- dict_magic_zlen; apply slice_0_app).
  rewrite Em, bool_decide_true by done. cbn [negb].
  assert (byte_at header 5 = Some (Codec_code codec) /\ byte_at header 6 = Some (if k_width b =? 2 then 0 else if k_width b =? 4 then 1 else 2)) as [-> ->]
    by (unfold header, dict_block_header; header_fields; done).
  cbn [mbind option_bind]. rewrite Codec_from_to. cbn [default].
  assert (width_of (if k_width b =? 2 then 0 else if k_width b =? 4 then 1 else 2) = Some (k_width b)) as -> by (destruct Hw as [-> |[-> | ->]]; done).
  cbn [mbind option_bind].
  assert (be_at header 8 12 = Some (zlen (k_entries b)) /\ be_at header 24 28 = Some (zlen d) /\ be_at header 28 32 = Some (zlen payload)) as (-> & -> & ->)
    by (unfold header, dict_block_header; rewrite W1, W2, W3; header_fields; done).
  cbn [mbind option_bind]. rewrite (app_assoc file), <- zlen_app.
  assert (slice ((file ++ header) ++ d) (zlen (file ++ header)) (zlen (file ++ header) + zlen d) = Some d) as ->
    by (pose proof (slice_app (file ++ header) d []) as X; by rewrite app_nil_r in X).
  unfold id. cbn [mbind option_bind]. rewrite Ed. cbn [mbind option_bind]. rewrite Z.eqb_refl. cbn [negb].
  pose proof (read_entries_reads (k_entries b) (Datatypes.S (length payload)) [] [] (zlen (k_entries b)) Hu Hp) as R. cbn [app] in R. fold payload in R.
  change (zlen (@nil Z)) with 0 in R. change (zlen (@nil bytes)) with 0 in R. rewrite R by (done || (unfold zlen in *; lia)). by rewrite !zlen_app, Z.add_assoc.
Qed.

(** ** The invariant *)

(** A code names a text. *)
Definition resolves (d : Dict) (text : bytes) (code id : Z) : Prop :=
  exists i b n, code = DICT_BASE + Z.of_nat i /\ d_blocks d !! i = Some b /\ k_entries b !! n = Some text /\ id = Z.of_nat n.

(** The blocks before the open one. *)
Definition closed_of (d : Dict) : list Block := take (d_open d) (d_blocks d).

(** Blocks are only added, entries behind entries, and what is closed stays. *)
Definition grows (d d' : Dict) : Prop :=
  (forall i b, d_blocks d !! i = Some b ->
    exists b', d_blocks d' !! i = Some b' /\ k_width b' = k_width b /\ k_entries b `prefix_of` k_entries b') /\
  closed_of d `prefix_of` closed_of d'.

(** Every block has a code, and every entry a number its block's width can hold. *)
Definition dict_fits (d : Dict) : Prop := (length (d_blocks d) <= 240)%nat /\ Forall block_fits (d_blocks d).

(** The closed blocks fill the file. *)
Definition in_file (f : DictFiles) (off : Z) (closed : list Block) : Prop :=
  off = zlen (df_dict f) /\ slice (df_dict f) 0 4 = Some DICT_FILE_MAGIC /\ DICT_FILE_HEADER_LEN <= zlen (df_dict f) /\
  chain (df_dict f) DICT_FILE_HEADER_LEN closed off.

Definition valid_block (b : Block) : Prop := Forall (λ t, utf8_valid t = true) (k_entries b).

Record dict_inv (d : Dict) (f : DictFiles) (closed : list Block) (o : Block) : Prop := {
  di_file : d_file d = true;
  di_closed : in_file f (d_file_offset d) closed;
  di_blocks : d_blocks d = closed ++ [o];
  di_open : d_open d = length closed;
  di_promoted text code id : d_promoted d !! text = Some (code, id) -> resolves d text code id;
  di_valid : Forall valid_block (d_blocks d);
  di_some : 1 <= block_entries (d_config d)
}.

Lemma grows_refl d : grows d d.
Proof. split; [|done]. intros i b E. by exists b. Qed.

Lemma grows_trans d d' d'' : grows d d' -> grows d' d'' -> grows d d''.
Proof.
  intros [G P1] [G' P2]. split; [|by etrans]. intros i b E. destruct (G i b E) as (b' & E' & W & P). destruct (G' i b' E') as (b'' & E'' & W' & P').
  exists b''. split; [done|]. split; [congruence|by etrans].
Qed.

Lemma grows_same d d' : d_blocks d' = d_blocks d -> d_open d' = d_open d -> grows d d'.
Proof. intros E Eo. split; [|unfold closed_of; by rewrite E, Eo]. intros i b Ei. exists b. by rewrite E. Qed.

Lemma grows_push d w : grows d (push_block d w).
Proof.
  split.
  - intros i b E. exists b. split; [|done]. cbn [push_block d_blocks]. by apply lookup_app_l_Some.
  - unfold closed_of. cbn [push_block d_blocks d_open]. rewrite length_app, Nat.add_sub, take_app_length. by exists (drop (d_open d) (d_blocks d)); rewrite take_drop.
Qed.

(** A block in place of the open one. *)
Lemma insert_grows d d' b b' : d_blocks d !! d_open d = Some b -> k_width b' = k_width b -> k_entries b `prefix_of` k_entries b' ->
  d_blocks d' = <[d_open d := b']> (d_blocks d) -> d_open d' = d_open d -> grows d d'.
Proof.
  intros E W P Ed Eo. split; [|unfold closed_of; by rewrite Ed, Eo, take_insert_ge].
  intros j x Ex. rewrite Ed. destruct (decide (j = d_open d)) as [->|N].
  - rewrite Ex in E. injection E as ->. exists b'. split; [apply list_lookup_insert_eq; by apply lookup_lt_Some in Ex|done].
  - exists x. by rewrite list_lookup_insert_ne.
Qed.

Lemma resolves_grows d d' text code id : grows d d' -> resolves d text code id -> resolves d' text code id.
Proof.
  intros [G _] (i & b & n & -> & E & En & ->). destruct (G i b E) as (b' & E' & _ & P). exists i, b', n. split_and!; [done..| |done].
  by eapply prefix_lookup_Some.
Qed.

Lemma entries_prefix l k : l `prefix_of` k -> zlen (entries_bytes l) <= zlen (entries_bytes k) /\ zlen l <= zlen k.
Proof. intros [m ->]. rewrite entries_app, !zlen_app. pose proof (zlen_nonneg (entries_bytes m)). pose proof (zlen_nonneg m). lia. Qed.

Lemma fits_grows d d' : grows d d' -> dict_fits d' -> dict_fits d.
Proof.
  intros [G _] [L F]. split.
  - destruct (Nat.le_gt_cases (length (d_blocks d)) 240) as [?|N]; [done|]. destruct (lookup_lt_is_Some_2 (d_blocks d) 240 N) as [b E].
    destruct (G _ _ E) as (b' & E' & _). apply lookup_lt_Some in E'. lia.
  - apply Forall_lookup. intros i b E. destruct (G i b E) as (b' & E' & W & P). rewrite Forall_lookup in F. destruct (F i b' E') as (A & B & C).
    apply entries_prefix in P as [? ?]. unfold block_fits. rewrite <- W. split_and!; [done|lia..].
Qed.

Lemma open_at d f closed o : dict_inv d f closed o -> d_blocks d !! d_open d = Some o.
Proof. intros I. rewrite (di_blocks _ _ _ _ I), (di_open _ _ _ _ I). by apply list_lookup_middle. Qed.

Lemma closed_take d f closed o : dict_inv d f closed o -> closed_of d = closed.
Proof. intros I. unfold closed_of. by rewrite (di_blocks _ _ _ _ I), (di_open _ _ _ _ I), take_app_length. Qed.

Lemma valid_closed d f closed o : dict_inv d f closed o -> Forall valid_block closed.
Proof. intros I. pose proof (di_valid _ _ _ _ I) as V. rewrite (di_blocks _ _ _ _ I), Forall_app in V. apply V. Qed.

Lemma open_fits d f closed o : dict_inv d f closed o -> dict_fits d -> block_fits o.
Proof. intros I [_ F]. rewrite Forall_lookup in F. eapply F. by eapply open_at. Qed.

Lemma insert_open closed (o o' : Block) : <[length closed := o']> (closed ++ [o]) = closed ++ [o'].
Proof. by rewrite insert_app_r_alt, Nat.sub_diag by done. Qed.

(** ** Writing keeps it *)

Record written (d d' : Dict) (f f' : DictFiles) (closed : list Block) (o : Block) : Prop := {
  wr_closed : in_file f' (d_file_offset d') (closed ++ [o]);
  wr_blocks : d_blocks d' = closed ++ [o];
  wr_grows : grows d d';
  wr_open : d_open d' = length closed;
  wr_file : d_file d' = true;
  wr_promoted : d_promoted d' = d_promoted d;
  wr_config : d_config d' = d_config d;
  wr_prefix : df_dict f `prefix_of` df_dict f'
}.

Lemma flush_open_written d f closed o d' f' : dict_inv d f closed o -> block_fits o -> flush_open_block d f = (d', f', Ok tt) ->
  (k_entries o = [] /\ d' = d /\ f' = f) \/
  exists o', k_width o' = k_width o /\ k_entries o' = k_entries o /\ k_entries o <> [] /\ written d d' f f' closed o'.
Proof.
  intros I Hfit. unfold flush_open_block. rewrite (open_at _ _ _ _ I). destruct (k_entries o) as [|t l] eqn:El; [intros [= <- <-]; by left|].
  rewrite <- El. destruct (zstd_compress _) as [c|] eqn:Ec; [|done].
  set (prev := match d_open d with O => 0 | _ => _ end). clearbody prev.
  assert (Forall (λ t, utf8_valid t = true) (k_entries o)) as Hv.
  { pose proof (di_valid _ _ _ _ I) as V. rewrite (di_blocks _ _ _ _ I) in V. apply Forall_app in V as [_ V]. exact (Forall_inv V). }
  pose proof (block_reads (df_dict f) o prev c Hfit Hv Ec) as R. fold (block_form (entries_bytes (k_entries o)) c).
  destruct (block_form _ c) as [codec b]. cbv zeta in R. destruct R as [Lb R]. rewrite (di_file _ _ _ _ I). cbn [negb].
  destruct (di_closed _ _ _ _ I) as (Eo & Em & Lm & C). rewrite Eo, write_at_end.
  set (data := dict_block_header _ _ _ _ _ _ ++ b) in *. clearbody data. intros E. injection E as <- <-. right. exists (mkBlock (k_width o) (k_entries o) (zlen (df_dict f))).
  split; [done|]. split; [done|]. split; [by rewrite El|].
  assert (DICT_BLOCK_HEADER_LEN + zlen b = zlen data) as Ld by done. pose proof (zlen_nonneg b). unfold DICT_BLOCK_HEADER_LEN in Ld.
  split; cbn [d_file d_file_offset d_blocks d_open d_promoted d_config write_tail df_dict]; try done.
  - assert (zlen (df_dict f) + DICT_BLOCK_HEADER_LEN + zlen b = zlen (df_dict f ++ data)) as -> by (unfold DICT_BLOCK_HEADER_LEN; rewrite zlen_app; lia).
    split; [done|]. cbn [df_dict write_tail]. split; [by apply slice_weaken|]. split; [rewrite zlen_app; pose proof (zlen_nonneg data); lia|].
    eapply chain_snoc; [apply chain_grows; exact C| | |]; cbn [k_file_offset k_width k_entries].
    + by rewrite Eo.
    + rewrite Eo, zlen_app. unfold DICT_BLOCK_HEADER_LEN. lia.
    + rewrite Eo, R. by rewrite zlen_app.
  - by rewrite (di_blocks _ _ _ _ I), (di_open _ _ _ _ I), insert_open.
  - apply (insert_grows d _ o (mkBlock (k_width o) (k_entries o) (zlen (df_dict f)))); [by eapply open_at|done..].
  - apply (di_open _ _ _ _ I).
  - by exists data.
Qed.

(** A fresh block behind a written one. *)
Lemma push_inv d f closed o d' f' o' w : dict_inv d f closed o -> k_entries o' = k_entries o -> written d d' f f' closed o' ->
  dict_inv (push_block d' w) f' (closed ++ [o']) (fresh_block w) /\ grows d (push_block d' w).
Proof.
  intros I Ee W. assert (grows d (push_block d' w)) as G by (eapply grows_trans; [apply W|apply grows_push]). split; [|done].
  split; cbn [push_block d_file d_file_offset d_blocks d_open d_promoted d_config].
  - apply W.
  - apply W.
  - by rewrite (wr_blocks _ _ _ _ _ _ W).
  - rewrite (wr_blocks _ _ _ _ _ _ W), !length_app. cbn [length]. lia.
  - intros text code id E. rewrite (wr_promoted _ _ _ _ _ _ W) in E. by eapply resolves_grows, (di_promoted _ _ _ _ I).
  - rewrite (wr_blocks _ _ _ _ _ _ W). pose proof (di_valid _ _ _ _ I) as V. rewrite (di_blocks _ _ _ _ I), Forall_app, Forall_singleton in V. unfold valid_block in V at 2; rewrite <- Ee in V.
    rewrite !Forall_app, !Forall_singleton. split; [done|]. constructor.
  - rewrite (wr_config _ _ _ _ _ _ W). apply (di_some _ _ _ _ I).
Qed.

(** Some blocks are closed and one is open. *)
Definition dict_ok (d : Dict) (f : DictFiles) : Prop := exists closed o, dict_inv d f closed o.

(** A flush that fails changes nothing. *)
Lemma flush_grows d f d' f' r : flush_open_block d f = (d', f', r) -> grows d d' /\ (r <> Ok tt -> d' = d /\ f' = f).
Proof.
  unfold flush_open_block. destruct (d_blocks d !! d_open d) as [b|] eqn:E; [|intros [= <- <- <-]; split; [apply grows_refl|done]].
  destruct (k_entries b) eqn:El; [intros [= <- <- <-]; split; [apply grows_refl|done]|].
  destruct (zstd_compress _) as [c|]; [|intros [= <- <- <-]; split; [apply grows_refl|done]]. destruct (if zlen c <? _ then _ else _) as [codec x].
  destruct (negb _); intros [= <- <- <-]; (split; [|done]); [apply grows_refl|]. apply (insert_grows d _ b (mkBlock (k_width b) (l :: l0) (d_file_offset d))); [done|done|cbn [k_entries]; by rewrite El|done..].
Qed.

Lemma close_grows d f d' f' : close_block d f = (d', f') -> grows d d'.
Proof.
  unfold close_block. destruct (flush_open_block d f) as [[d1 f1] r] eqn:E. apply flush_grows in E as [G _].
  destruct r as [[]|e|]; [|by intros [= <- _]..]. destruct (d_blocks d1 !! d_open d1); intros [= <- _]; [|done]. eapply grows_trans; [exact G|apply grows_push].
Qed.

Lemma close_ok d f closed o d' f' : dict_inv d f closed o -> block_fits o -> k_entries o <> [] -> close_block d f = (d', f') -> dict_ok d' f'.
Proof.
  intros I Hf N. unfold close_block. destruct (flush_open_block d f) as [[d1 f1] r] eqn:E. pose proof (flush_grows _ _ _ _ _ E) as [_ Same].
  destruct r as [[]|e|]; [|destruct Same as [-> ->]; [done|]; intros [= <- <-]; by exists closed, o..].
  destruct (flush_open_written _ _ _ _ _ _ I Hf E) as [(? & _)|(o' & W & Ee & _ & Wr)]; [done|].
  rewrite (wr_blocks _ _ _ _ _ _ Wr), (wr_open _ _ _ _ _ _ Wr), list_lookup_middle by done. intros [= <- <-].
  by destruct (push_inv _ _ _ _ _ _ _ (if 2 * k_width o' <? 2 ^ 64 then 2 * k_width o' else k_width o') I Ee Wr) as [? _]; eexists _, _.
Qed.

Lemma flush_if_dirty_ok d f d' f' : dict_ok d f -> dict_fits d -> flush_if_dirty d f = (d', f', Ok tt) ->
  grows d d' /\ exists closed o, dict_inv d' f' closed o /\ k_entries o = [].
Proof.
  intros (closed & o & I) Hf. unfold flush_if_dirty. rewrite (open_at _ _ _ _ I). destruct (k_entries o) as [|t l] eqn:El.
  - intros [= <- <-]. split; [apply grows_refl|]. by exists closed, o.
  - destruct (flush_open_block d f) as [[d1 f1] [[]|e|]] eqn:E; [|done..].
    destruct (flush_open_written _ _ _ _ _ _ I (open_fits _ _ _ _ I Hf) E) as [(? & _)|(o' & W & Ee & _ & Wr)]; [by rewrite El in *|].
    intros [= <- <-]. destruct (push_inv _ _ _ _ _ _ _ (k_width o) I Ee Wr) as [? G]. split; [exact G|]. by eexists _, _.
Qed.

Lemma flush_if_dirty_grows d f d' f' r : flush_if_dirty d f = (d', f', r) -> grows d d'.
Proof.
  unfold flush_if_dirty. destruct (d_blocks d !! d_open d) as [b|]; [|intros [= <- _ _]; apply grows_refl]. destruct (k_entries b); [intros [= <- _ _]; apply grows_refl|].
  destruct (flush_open_block d f) as [[d1 f1] r1] eqn:E. apply flush_grows in E as [G _]. destruct r1 as [[]|e|]; intros [= <- _ _]; [|done..].
  eapply grows_trans; [exact G|apply grows_push].
Qed.

(** The open block takes an entry. *)
Definition add_entry (d : Dict) (b : Block) (text : bytes) : Dict :=
  mkDict (d_file d) (d_file_offset d) (<[d_open d := mkBlock (k_width b) (k_entries b ++ [text]) (k_file_offset b)]> (d_blocks d))
    (d_open d) (d_counts d) (<[text := (code_of (d_open d), zlen (k_entries b))]> (d_promoted d)) (d_config d).

Lemma add_entry_grows d b text : d_blocks d !! d_open d = Some b -> grows d (add_entry d b text).
Proof. intros E. apply (insert_grows d _ b (mkBlock (k_width b) (k_entries b ++ [text]) (k_file_offset b))); [done|done|by eexists|done..]. Qed.

Lemma add_entry_resolves d b text : d_blocks d !! d_open d = Some b -> (length (d_blocks d) <= 240)%nat ->
  resolves (add_entry d b text) text (code_of (d_open d)) (zlen (k_entries b)).
Proof.
  intros E L. apply lookup_lt_Some in E as Lt. exists (d_open d), (mkBlock (k_width b) (k_entries b ++ [text]) (k_file_offset b)), (length (k_entries b)).
  split; [unfold code_of, DICT_BASE; lia|]. split; [by apply list_lookup_insert_eq|]. split; [by apply list_lookup_middle|done].
Qed.

Lemma add_entry_inv d f closed o text : dict_inv d f closed o -> utf8_valid text = true -> (length (d_blocks d) <= 240)%nat ->
  dict_ok (add_entry d o text) f.
Proof.
  intros I Ht L. pose proof (open_at _ _ _ _ I) as Eo. exists closed, (mkBlock (k_width o) (k_entries o ++ [text]) (k_file_offset o)).
  assert (d_blocks (add_entry d o text) = closed ++ [mkBlock (k_width o) (k_entries o ++ [text]) (k_file_offset o)]) as Eins
    by (unfold add_entry; cbn [d_blocks]; by rewrite (di_blocks _ _ _ _ I), (di_open _ _ _ _ I), insert_open).
  split; [apply I|apply I|exact Eins|apply I| | |apply I].
  - intros t c i E. cbn [add_entry d_promoted] in E. destruct (decide (text = t)) as [<-|N].
    + rewrite lookup_insert_eq in E. injection E as <- <-. by apply add_entry_resolves.
    + rewrite lookup_insert_ne in E by done. eapply resolves_grows; [by apply add_entry_grows|]. by apply (di_promoted _ _ _ _ I).
  - rewrite Eins. pose proof (di_valid _ _ _ _ I) as V. rewrite (di_blocks _ _ _ _ I), Forall_app, Forall_singleton in V. destruct V as [V1 V2].
    rewrite Forall_app, Forall_singleton. split; [done|]. unfold valid_block. cbn [k_entries]. rewrite Forall_app, Forall_singleton. done.
Qed.

Lemma promote_ok d f text d' f' code id : dict_ok d f -> utf8_valid text = true -> promote d f text = (d', f', Ok (code, id)) -> dict_fits d' ->
  dict_ok d' f' /\ grows d d' /\ resolves d' text code id.
Proof.
  intros (closed & o & I) Ht. unfold promote. rewrite (open_at _ _ _ _ I).
  destruct (if block_entries (d_config d) <=? zlen (k_entries o) then close_block d f else (d, f)) as [d1 f1] eqn:E1.
  destruct (d_blocks d1 !! d_open d1) as [b|] eqn:Eb; [|done]. intros E. injection E as <- <- <- <-. fold (add_entry d1 b text). intros Fit.
  pose proof (add_entry_grows d1 b text Eb) as G1. pose proof (fits_grows _ _ G1 Fit) as Fit1.
  assert (grows d d1) as G by (destruct (_ <=? _); [by eapply close_grows|injection E1 as <- _; apply grows_refl]).
  assert (dict_ok d1 f1) as (closed1 & o1 & I1).
  { destruct (Z.leb_spec (block_entries (d_config d)) (zlen (k_entries o))) as [L|L]; [|injection E1 as <- <-; by exists closed, o].
    eapply close_ok; [exact I|eapply open_fits; [exact I|by eapply fits_grows]| |exact E1].
    intros N. pose proof (di_some _ _ _ _ I). rewrite N, zlen_nil in L. lia. }
  pose proof (open_at _ _ _ _ I1) as Eo. rewrite Eb in Eo. injection Eo as ->.
  split; [eapply add_entry_inv; [exact I1|done|apply Fit1]|]. split; [by eapply grows_trans|]. apply add_entry_resolves; [done|apply Fit1].
Qed.

Lemma set_counts_ok d f c : dict_ok d f -> dict_ok (set_counts d c) f.
Proof. intros (closed & o & I). exists closed, o. split; apply I. Qed.

Lemma promote_grows d f text d' f' r : promote d f text = (d', f', r) -> grows d d'.
Proof.
  unfold promote. destruct (d_blocks d !! d_open d) as [b|]; [|intros [= <- _ _]; apply grows_refl].
  destruct (if _ <=? _ then close_block d f else (d, f)) as [d1 f1] eqn:E1.
  assert (grows d d1) as G by (destruct (_ <=? _); [by eapply close_grows|injection E1 as <- _; apply grows_refl]).
  destruct (d_blocks d1 !! d_open d1) as [b1|] eqn:Eb; intros E; injection E as <- _ _; [|done]. eapply grows_trans; [exact G|by apply (add_entry_grows d1 b1 text)].
Qed.

(** Settling only adds. *)
Lemma settle_grows p d f text d' f' r : settle p d f text = (d', f', r) -> grows d d'.
Proof.
  unfold settle. destruct (d_promoted d !! text) as [ci|]; [intros [= <- _ _]; apply grows_refl|].
  destruct (match d_counts d !! xxh64 text with Some _ => _ | None => _ end) as [[counts count]|e|]; [|intros [= <- _ _]; apply grows_refl..].
  destruct (b ← _; threshold_for _ _ _) as [threshold|]; [|intros [= <- _ _]; by apply grows_same].
  destruct (count <? threshold); [intros [= <- _ _]; by apply grows_same|].
  destruct (promote _ f text) as [[d1 f1] [ci|e|]] eqn:E; intros [= <- _ _]; (eapply grows_trans; [|by eapply promote_grows]; by apply grows_same).
Qed.

(** A string settled has a code that names it, if it has one. *)
Lemma settle_ok p d f text d' f' r : dict_ok d f -> utf8_valid text = true -> settle p d f text = (d', f', Ok r) -> dict_fits d' ->
  dict_ok d' f' /\ grows d d' /\ match r with Some (code, id) => resolves d' text code id | None => True end.
Proof.
  intros Hok Ht. unfold settle. destruct (d_promoted d !! text) as [[code id]|] eqn:Ep.
  - intros [= <- <- <-] _. split; [done|]. split; [apply grows_refl|]. destruct Hok as (closed & o & I). by apply (di_promoted _ _ _ _ I).
  - destruct (match d_counts d !! xxh64 text with Some _ => _ | None => _ end) as [[counts count]|e|]; [|done..].
    destruct (b ← _; threshold_for _ _ _) as [threshold|].
    2: { intros [= <- <- <-] _. split; [by apply set_counts_ok|]. split; [by apply grows_same|done]. }
    destruct (count <? threshold).
    { intros [= <- <- <-] _. split; [by apply set_counts_ok|]. split; [by apply grows_same|done]. }
    destruct (promote _ f text) as [[d1 f1] [[code id]|e|]] eqn:E; [|done..]. intros [= <- <- <-] Fit.
    destruct (promote_ok (set_counts d (delete (xxh64 text) counts)) f text d1 f1 code id) as (? & G & ?); [by apply set_counts_ok|done|done|done|].
    split; [done|]. split; [|done]. eapply grows_trans; [|exact G]. by apply grows_same.
Qed.

(** ** Loading *)

(** A reader resolves what a writer's code names. *)
Definition covers (d L : Dict) : Prop := forall text code id, resolves d text code id ->
  Dict_lookup L code id = Some text /\ Dict_width L code = Dict_width d code.

Lemma covers_grows d d' L : grows d d' -> covers d' L -> covers d L.
Proof.
  intros G C text code id R. destruct (C text code id) as [E1 E2]; [by eapply resolves_grows|]. split; [done|]. rewrite E2.
  destruct R as (i & b & n & -> & Eb & _ & _). destruct (proj1 G i b Eb) as (b' & Eb' & W & _). unfold Dict_width, block_at.
  rewrite (proj2 (Z.ltb_ge _ _)) by lia. replace (Z.to_nat (DICT_BASE + Z.of_nat i - DICT_BASE)) with i by lia. rewrite Eb, Eb'. cbn. by rewrite W.
Qed.

Lemma load_blocks_of f off closed config : in_file f off closed -> d_blocks (Dict_load (Some (df_dict f)) config) = closed.
Proof.
  intros (-> & Em & L & C). unfold Dict_load. rewrite (proj2 (Z.leb_le _ _)) by done. rewrite bool_decide_true by done. cbn [andb].
  rewrite (load_chain closed) by (done || (unfold zlen, DICT_FILE_HEADER_LEN; lia)). done.
Qed.

(** Blocks that hold every entry resolve every code. *)
Lemma covers_blocks d L : (forall i b n t, d_blocks d !! i = Some b -> k_entries b !! n = Some t ->
  exists b', d_blocks L !! i = Some b' /\ k_width b' = k_width b /\ k_entries b' = k_entries b) -> covers d L.
Proof.
  intros B text code id (i & b & n & -> & Eb & En & ->). destruct (B i b n text Eb En) as (b' & Eb' & W & E').
  unfold Dict_lookup, Dict_width, block_at. rewrite (proj2 (Z.ltb_ge _ _)) by lia. replace (Z.to_nat (DICT_BASE + Z.of_nat i - DICT_BASE)) with i by lia.
  rewrite Eb, Eb', Nat2Z.id. cbn. by rewrite W, E'.
Qed.

(** Closed blocks resolve every code when nothing is open. *)
Lemma closed_covers d f closed o L : dict_inv d f closed o -> k_entries o = [] -> closed `prefix_of` d_blocks L -> covers d L.
Proof.
  intros I Eo P. apply covers_blocks. intros i b n t Eb En. rewrite (di_blocks _ _ _ _ I) in Eb. apply lookup_app_Some in Eb as [Eb|[Le Eb]].
  - exists b. split; [by eapply prefix_lookup_Some|done].
  - apply list_lookup_singleton_Some in Eb as [_ <-]. by rewrite Eo in En.
Qed.

Lemma finish_covers d f d' f' config : dict_ok d f -> dict_fits d -> Dict_finish d f = (d', f', Ok tt) -> covers d (Dict_load (Some (df_dict f')) config).
Proof.
  intros (closed & o & I) Fit E. destruct (flush_open_written _ _ _ _ _ _ I (open_fits _ _ _ _ I Fit) E) as [(Eo & -> & ->)|(o' & W & Ee & _ & Wr)].
  - eapply closed_covers; [exact I|done|]. by rewrite (load_blocks_of _ _ _ config (di_closed _ _ _ _ I)).
  - apply covers_blocks. intros i b n t Eb En. rewrite (load_blocks_of _ _ _ _ (wr_closed _ _ _ _ _ _ Wr)). rewrite (di_blocks _ _ _ _ I) in Eb.
    apply lookup_app_Some in Eb as [Eb|[L Eb]]; [exists b; split; [by apply lookup_app_l_Some|done]|].
    apply list_lookup_singleton_Some in Eb as [Ei <-]. exists o'. split; [|done]. replace i with (length closed) by lia. by apply list_lookup_middle.
Qed.

(** A new dictionary. *)
Lemma create_inv config : dict_inv (Dict_create config).1 (Dict_create config).2 [] (fresh_block 2).
Proof.
  split; try done.
  - constructor; [constructor|constructor].
  - cbn. lia.
Qed.

(** ** Taking over a file *)

Lemma promoted_fold (l : list (nat * bytes)) (code : Z) (m : gmap bytes (Z * Z)) t (c i : Z) :
  fold_left (λ m it, <[it.2 := (code, Z.of_nat it.1)]> m) l m !! t = Some (c, i) ->
  m !! t = Some (c, i) \/ c = code /\ exists n, (n, t) ∈ l /\ i = Z.of_nat n.
Proof.
  revert m. induction l as [|[n x] l IH]; intros m E; [by left|]. cbn [fold_left] in E. apply IH in E as [E|(-> & k & Hk & ->)].
  - cbn [fst snd] in E. destruct (decide (x = t)) as [->|N].
    + rewrite lookup_insert_eq in E. injection E as <- <-. right. split; [done|]. exists n. split; [by left|done].
    + rewrite lookup_insert_ne in E by done. by left.
  - right. split; [done|]. exists k. split; [by right|done].
Qed.

Lemma elem_of_numbered {A} (l : list A) i x : (i, x) ∈ imap pair l -> l !! i = Some x.
Proof. intros (k & y & [= -> ->] & E)%elem_of_lookup_imap. done. Qed.

Lemma promoted_resolves blocks t (c i : Z) : promoted_of blocks !! t = Some (c, i) ->
  exists k b n, c = code_of k /\ blocks !! k = Some b /\ k_entries b !! n = Some t /\ i = Z.of_nat n.
Proof.
  unfold promoted_of. assert (forall l (m : gmap bytes (Z * Z)), fold_left (λ m (ib : nat * Block), fold_left (λ m it, <[it.2 := (code_of ib.1, Z.of_nat it.1)]> m) (imap pair (k_entries ib.2)) m) l m !! t = Some (c, i) ->
    m !! t = Some (c, i) \/ exists k b n, (k, b) ∈ l /\ c = code_of k /\ k_entries b !! n = Some t /\ i = Z.of_nat n) as G.
  { induction l as [|[k b] l IH]; intros m E; [by left|]. cbn [fold_left] in E. apply IH in E as [E|(k' & b' & n & Hin & ? & ? & ?)].
    - apply promoted_fold in E as [E|(-> & n & Hn & ->)]; [by left|]. right. exists k, b, n. split; [by left|]. split; [done|]. split; [by apply elem_of_numbered|done].
    - right. exists k', b', n. split; [by right|done]. }
  intros E. apply G in E as [E|(k & b & n & Hin & -> & En & ->)]; [by rewrite lookup_empty in E|]. exists k, b, n. split; [done|]. split; [by apply elem_of_numbered|done].
Qed.

(** The blocks of a file that has some are taken over whole. *)
Lemma dict_adopt_ok f off closed config : in_file f off closed -> Forall valid_block closed -> closed <> [] -> (length closed <= 240)%nat ->
  exists o', dict_inv (Dict_adopt (df_dict f) config) f closed o' /\ k_entries o' = [].
Proof.
  intros C V N L. pose proof (load_blocks_of f _ closed config C) as El.
  assert (d_file_offset (Dict_load (Some (df_dict f)) config) = off) as Eo.
  { destruct C as (-> & Em & Lm & C). unfold Dict_load. rewrite (proj2 (Z.leb_le _ _)) by done. rewrite bool_decide_true by done. cbn [andb].
    rewrite (load_chain closed) by (done || (unfold zlen, DICT_FILE_HEADER_LEN; lia)). cbn [app d_file_offset]. by destruct closed. }
  unfold Dict_adopt. set (w := match last _ with Some b => _ | None => _ end). exists (fresh_block w). split; [|done]. split; cbn [push_block d_file d_file_offset d_blocks d_open d_promoted d_config].
  - done.
  - by rewrite Eo.
  - by rewrite El.
  - rewrite El, length_app. cbn [length]. lia.
  - intros t c i E. assert (promoted_of closed !! t = Some (c, i)) as (k & b & n & -> & Eb & En & ->)%promoted_resolves.
    { revert E. unfold Dict_load in *. destruct (if _ && _ then _ else _) as [bs fo]. cbn [d_promoted d_blocks] in *. by subst. }
    apply lookup_lt_Some in Eb as Lt. exists k, b, n. split; [unfold code_of, DICT_BASE; lia|]. split; [|done].
    cbn [push_block d_blocks]. rewrite El. by apply lookup_app_l_Some.
  - rewrite El, Forall_app, Forall_singleton. split; [done|constructor].
  - unfold Dict_load. destruct (if _ && _ then _ else _). cbn [d_config clamped block_entries]. lia.
Qed.
End Facts.
