(* ===== verification/SerBody.v ===== *)
(** * Record bodies (okm-series, [body.rs])

    A body is a list of tagged values, each behind its kind; a string the dictionary
    settled is a code. *)
From S2P Require Import Prelude SerFormat SerDict.

(** ** Values *)

Definition KIND_BYTES : Z := 0.
Definition KIND_STR : Z := 1.
Definition KIND_U64 : Z := 2.
Definition KIND_I64 : Z := 3.
Definition KIND_F64 : Z := 4.

(** A float is its bits. *)
Inductive SValue : Type :=
| SBytes (b : bytes)
| SStr (text : bytes)
| SU64 (v : Z)
| SI64 (v : Z)
| SF64 (bits : Z).

Abbreviation Body := (list (Z * SValue)).

Definition Body_get (b : Body) (tag : Z) : option SValue := snd <$> find (λ tv, tv.1 =? tag) b.

(** The writer's dictionary and its file, if it has one. *)
Abbreviation Settler := (option (Dict * DictFiles)).

Section Body.
Context `{SeriesLib}.
Variable p : profile.

(** ** Encoding *)

(** [&id.to_be_bytes()[8 - width..]] *)
Definition code_bytes {E} (width id : Z) : outcome E bytes :=
  if 8 <? width then Panic else Ok (drop (Z.to_nat (8 - width)) (be_bytes 8 id)).

Definition encode_str (s : Settler) (text : bytes) : Settler * sresult bytes :=
  match s with
  | None => (s, Ok (KIND_STR :: put_varint (zlen text) ++ text))
  | Some (d, f) =>
      match settle p d f text with
      | (d, f, Ok None) => (Some (d, f), Ok (KIND_STR :: put_varint (zlen text) ++ text))
      | (d, f, Ok (Some (code, id))) => (Some (d, f), b ← code_bytes (default 4 (Dict_width d code)) id; Ok (code :: b))
      | (d, f, Err e) => (Some (d, f), Err e)
      | (d, f, Panic) => (Some (d, f), Panic)
      end
  end.

Definition encode_value (s : Settler) (v : SValue) : Settler * sresult bytes :=
  match v with
  | SBytes b => (s, Ok (KIND_BYTES :: put_varint (zlen b) ++ b))
  | SStr text => encode_str s text
  | SU64 v => (s, Ok (KIND_U64 :: put_varint v))
  | SI64 v => (s, Ok (KIND_I64 :: put_svarint v))
  | SF64 bits => (s, Ok (KIND_F64 :: be_bytes 8 bits))
  end.

Fixpoint encode_with (s : Settler) (body : Body) : Settler * sresult bytes :=
  match body with
  | [] => (s, Ok [])
  | (tag, v) :: body =>
      match encode_value s v with
      | (s, Ok b) => let '(s, r) := encode_with s body in (s, rest ← r; Ok (put_varint tag ++ b ++ rest))
      | r => r
      end
  end.

Definition Body_encode (body : Body) : sresult bytes := (encode_with None body).2.

(** ** Decoding *)

(** [id |= u64::from(byte) << (8 * (width - 1 - index))] *)
Fixpoint id_of (raw : bytes) (width index id : Z) : outcome unit Z :=
  match raw with
  | [] => Ok id
  | byte :: raw =>
      let shift := 8 * (width - 1 - index) in
      s ← (if shift <? 64 then Ok shift else match p with Debug => Panic | Release => Ok (shift mod 64) end);
      id_of raw width (index + 1) (Z.lor id (wrap 64 (Z.shiftl byte s)))
  end.

(** [Err]: the body cannot be read. *)
Definition decode_value (dict : option Dict) (b : bytes) (kind pos : Z) : outcome unit (SValue * Z) :=
  if kind =? KIND_BYTES then
    '(len, pos) ← ok_or tt (get_varint b pos); s ← ok_or tt (slice b pos (pos + len)); Ok (SBytes s, pos + len)
  else if kind =? KIND_STR then
    '(len, pos) ← ok_or tt (get_varint b pos); s ← ok_or tt (slice b pos (pos + len));
    s ← ok_or tt (from_utf8 s); Ok (SStr s, pos + len)
  else if kind =? KIND_U64 then '(v, pos) ← ok_or tt (get_varint b pos); Ok (SU64 v, pos)
  else if kind =? KIND_I64 then '(v, pos) ← ok_or tt (get_svarint b pos); Ok (SI64 v, pos)
  else if DICT_BASE <=? kind then
    d ← ok_or tt dict; width ← ok_or tt (Dict_width d kind); raw ← ok_or tt (slice b pos (pos + width));
    id ← id_of raw width 0 0; text ← ok_or tt (Dict_lookup d kind id); Ok (SStr text, pos + width)
  else if kind =? KIND_F64 then raw ← ok_or tt (slice b pos (pos + 8)); Ok (SF64 (be_val raw), pos + 8)
  else Err tt.

Fixpoint decode_loop (fuel : nat) (dict : option Dict) (b : bytes) (pos : Z) (items : Body) : outcome unit Body :=
  match fuel with
  | O => Ok items
  | Datatypes.S fuel =>
      if pos <? zlen b then
        '(tag, pos) ← ok_or tt (get_varint b pos);
        (if 2 ^ 16 <=? tag then Err tt else Ok tt);;
        kind ← ok_or tt (byte_at b pos);
        '(v, pos) ← decode_value dict b kind (pos + 1);
        decode_loop fuel dict b pos (items ++ [(tag, v)])
      else Ok items
  end.

(** Every item takes two bytes at least. *)
Definition decode_with (b : bytes) (dict : option Dict) : outcome unit Body := decode_loop (S (length b)) dict b 0 [].

Definition Body_decode (b : bytes) : outcome unit Body := decode_with b None.
End Body.
