(* ===== verification/SerBodyFacts.v ===== *)
(** * Bodies read back (okm-series, [body.rs])

    What a writer makes of a body, its dictionary moving on as it goes, decodes to
    the body for every reader whose dictionary resolves the writer's codes. *)
From S2P Require Import Prelude SerFormat SerDict SerDictFacts SerBody.

Section Facts.
Context `{SLL : SeriesLibLaws}.
Variable p : profile.

Definition value_ok (v : SValue) : Prop :=
  match v with
  | SBytes b => zlen b < 2 ^ 64
  | SStr t => utf8_valid t = true /\ zlen t < 2 ^ 64
  | SU64 v => 0 <= v < 2 ^ 64
  | SI64 v => - 2 ^ 63 <= v < 2 ^ 63
  | SF64 bits => u64 bits
  end.

Definition body_ok (b : Body) : Prop := Forall (λ tv, 0 <= tv.1 < 2 ^ 16 /\ value_ok tv.2) b.

Definition settler_ok (s : Settler) : Prop := match s with Some (d, f) => dict_ok d f | None => True end.
Definition settler_fits (s : Settler) : Prop := match s with Some (d, _) => dict_fits d | None => True end.
Definition settler_grows (s s' : Settler) : Prop :=
  match s, s' with Some (d, _), Some (d', _) => grows d d' | None, None => True | _, _ => False end.
Definition settler_covers (s : Settler) (L : option Dict) : Prop :=
  match s with Some (d, _) => exists l, L = Some l /\ covers d l | None => True end.

Lemma settler_grows_trans s s' s'' : settler_grows s s' -> settler_grows s' s'' -> settler_grows s s''.
Proof. destruct s as [[]|], s' as [[]|], s'' as [[]|]; try done. apply grows_trans. Qed.

Lemma settler_grows_refl s : settler_grows s s.
Proof. destruct s as [[]|]; [apply grows_refl|done]. Qed.

Lemma settler_covers_grows s s' L : settler_grows s s' -> settler_covers s' L -> settler_covers s L.
Proof. destruct s as [[]|], s' as [[]|]; try done. intros G (l & -> & C). exists l. split; [done|]. by eapply covers_grows. Qed.

Lemma settler_fits_grows s s' : settler_grows s s' -> settler_fits s' -> settler_fits s.
Proof. destruct s as [[]|], s' as [[]|]; try done. apply fits_grows. Qed.

(** ** Codes *)

Lemma id_of_reads raw : forall width index s, bytes_ok raw -> index + zlen raw = width -> width <= 8 -> 0 <= index ->
  id_of p raw width index (Z.shiftl s (8 * zlen raw)) = Ok (fold_left (λ a b, a * 256 + b) raw s).
Proof.
  induction raw as [|b raw IH]; intros width index s Hr Hi Hw H0; cbn [id_of fold_left].
  - change (zlen (@nil Z)) with 0. by rewrite Z.shiftl_0_r.
  - apply Forall_cons in Hr as [Hb Hr]. unfold byte_ok in Hb. rewrite zlen_cons in *. pose proof (zlen_nonneg raw) as Ln.
    replace (width - 1 - index) with (zlen raw) by lia. rewrite (proj2 (Z.ltb_lt _ _)) by lia. cbn [mbind outcome_bind].
    rewrite <- (IH width (index + 1)) by (done || lia). f_equal.
    assert (0 < 2 ^ (8 * zlen raw)) by (apply Z.pow_pos_nonneg; lia).
    assert (2 ^ (8 * (1 + zlen raw)) = 256 * 2 ^ (8 * zlen raw)) as Ep by (replace (8 * (1 + zlen raw)) with (8 + 8 * zlen raw) by lia; rewrite Z.pow_add_r by lia; done).
    assert (wrap 64 (Z.shiftl b (8 * zlen raw)) = b * 2 ^ (8 * zlen raw)) as ->.
    { unfold wrap. rewrite Z.shiftl_mul_pow2 by lia. apply Z.mod_small. split; [nia|].
      apply Z.lt_le_trans with (2 ^ (8 * (1 + zlen raw))); [nia|]. apply Z.pow_le_mono_r; lia. }
    rewrite lor_shift_add by (lia || nia). rewrite Z.shiftl_mul_pow2, Ep by lia. lia.
Qed.

Lemma code_reads width id : width = 2 \/ width = 4 \/ width = 8 -> 0 <= id < 256 ^ width ->
  exists b, code_bytes (E := SeriesError) width id = Ok b /\ zlen b = width /\ id_of p b width 0 0 = Ok id.
Proof.
  intros Hw Hid. unfold code_bytes. rewrite (proj2 (Z.ltb_ge _ _)) by lia.
  assert (drop (Z.to_nat (8 - width)) (be_bytes 8 id) = be_bytes (Z.to_nat width) id) as ->.
  { destruct Hw as [-> |[-> | ->]]; [apply (drop_be_bytes 6 2)|apply (drop_be_bytes 4 4)|done]. }
  assert (Z.of_nat (Z.to_nat width) = width) as Ew by lia. eexists. split; [reflexivity|]. split; [by rewrite be_bytes_zlen|].
  pose proof (id_of_reads (be_bytes (Z.to_nat width) id) width 0 0 (be_bytes_ok _ _)) as R. rewrite Z.shiftl_0_l, be_bytes_zlen, Ew in R.
  rewrite R by lia. f_equal. change (be_val (be_bytes (Z.to_nat width) id) = id). rewrite be_val_be_bytes, Ew. by apply Z.mod_small.
Qed.

(** ** Values *)

(** The kind and the bytes behind it. *)
Definition value_reads (L : option Dict) (b : bytes) (v : SValue) : Prop := exists kind tail, b = kind :: tail /\
  forall pre rest, decode_value p L (pre ++ tail ++ rest) kind (zlen pre) = Ok (v, zlen pre + zlen tail).

Lemma sized_reads pre (s rest : bytes) : zlen s < 2 ^ 64 ->
  get_varint (pre ++ (put_varint (zlen s) ++ s) ++ rest) (zlen pre) = Some (zlen s, zlen (pre ++ put_varint (zlen s))) /\
  slice (pre ++ (put_varint (zlen s) ++ s) ++ rest) (zlen (pre ++ put_varint (zlen s))) (zlen (pre ++ put_varint (zlen s)) + zlen s) = Some s /\
  zlen (pre ++ put_varint (zlen s)) + zlen s = zlen pre + zlen (put_varint (zlen s) ++ s).
Proof.
  intros L. rewrite <- app_assoc, varint_reads by (pose proof (zlen_nonneg s); lia). rewrite zlen_app. split; [done|]. split; [|rewrite zlen_app; lia].
  rewrite <- zlen_app, app_assoc. apply slice_app.
Qed.

Lemma str_reads L t : value_ok (SStr t) -> value_reads L (KIND_STR :: put_varint (zlen t) ++ t) (SStr t).
Proof.
  intros [Hu Ht]. eexists _, _. split; [reflexivity|]. intros pre rest. destruct (sized_reads pre t rest Ht) as (E1 & E2 & E3).
  unfold decode_value. cbn [Z.eqb KIND_STR KIND_BYTES Pos.eqb]. rewrite E1. cbn [ok_or mbind outcome_bind]. rewrite E2. cbn [ok_or mbind outcome_bind].
  unfold from_utf8. rewrite Hu. cbn [ok_or mbind outcome_bind]. by rewrite E3.
Qed.

Lemma code_value_reads d l text code id : dict_fits d -> resolves d text code id -> covers d l -> exists w b,
  Dict_width d code = Some w /\ code_bytes (E := SeriesError) w id = Ok b /\ value_reads (Some l) (code :: b) (SStr text).
Proof.
  intros [_ F] R C. destruct (C _ _ _ R) as [El Ew]. destruct R as (i & b & n & -> & Eb & En & ->).
  assert (Dict_width d (DICT_BASE + Z.of_nat i) = Some (k_width b)) as E.
  { unfold Dict_width, block_at. rewrite (proj2 (Z.ltb_ge _ _)) by lia. replace (Z.to_nat (DICT_BASE + Z.of_nat i - DICT_BASE)) with i by lia. by rewrite Eb. }
  rewrite Forall_lookup in F. destruct (F i b Eb) as (Hw & _ & Hn). apply lookup_lt_Some in En as Lt.
  destruct (code_reads (k_width b) (Z.of_nat n)) as (bs & Ec & Lb & Ei); [done|unfold zlen in Hn; lia|].
  exists (k_width b), bs. split; [done|]. split; [done|]. eexists _, _. split; [reflexivity|]. intros pre rest. unfold decode_value, KIND_BYTES, KIND_STR, KIND_U64, KIND_I64.
  assert ((DICT_BASE <=? DICT_BASE + Z.of_nat i) = true) as -> by (apply Z.leb_le; lia).
  rewrite !(proj2 (Z.eqb_neq _ _)) by (unfold DICT_BASE; lia). cbn [ok_or mbind outcome_bind]. rewrite Ew, E. cbn [ok_or mbind outcome_bind].
  rewrite <- Lb, slice_app. cbn [ok_or mbind outcome_bind]. rewrite Lb, Ei. cbn [mbind outcome_bind]. by rewrite El.
Qed.

(** What encoding a value leaves. *)
Definition encoded (s s' : Settler) (b : bytes) (v : SValue) : Prop :=
  settler_ok s' /\ settler_grows s s' /\ forall L, settler_covers s' L -> value_reads L b v.

Lemma encode_str_reads s t s' b : settler_ok s -> value_ok (SStr t) -> encode_str p s t = (s', Ok b) -> settler_fits s' -> encoded s s' b (SStr t).
Proof.
  intros Hs Hv. unfold encode_str. destruct s as [[d f]|].
  - destruct (settle p d f t) as [[d' f'] [[[code n]|]|e|]] eqn:E; [..|done|done].
    + destruct (code_bytes _ _) as [cb|e|] eqn:Ec; [|done..]. intros [= <- <-] Fit.
      destruct (settle_ok p d f t d' f' _ Hs (proj1 Hv) E Fit) as (Ok' & G & R). split; [done|]. split; [done|]. intros L (l & -> & C).
      destruct (code_value_reads d' l t code n Fit R C) as (w & b & Ew & Eb & V). rewrite Ew in Ec. cbn [default] in Ec. unfold id in Ec. rewrite Eb in Ec. by injection Ec as <-.
    + intros [= <- <-] Fit. destruct (settle_ok p d f t d' f' _ Hs (proj1 Hv) E Fit) as (Ok' & G & _). split; [done|]. split; [done|]. intros L _. by apply str_reads.
  - intros [= <- <-] _. split; [done|]. split; [done|]. intros L _. by apply str_reads.
Qed.

Lemma encode_value_reads s v s' b : settler_ok s -> value_ok v -> encode_value p s v = (s', Ok b) -> settler_fits s' -> encoded s s' b v.
Proof.
  intros Hs Hv. destruct v as [x|t|n|n|n]; [|by apply encode_str_reads|..]; cbn [encode_value value_ok] in *; intros [= <- <-] _;
    (split; [done|]; split; [apply settler_grows_refl|]; intros L _; eexists _, _; split; [reflexivity|]; intros pre rest; unfold decode_value).
  - destruct (sized_reads pre x rest Hv) as (E1 & E2 & E3). cbn [Z.eqb KIND_BYTES]. rewrite E1. cbn [ok_or mbind outcome_bind]. rewrite E2. cbn [ok_or mbind outcome_bind]. by rewrite E3.
  - cbn [Z.eqb KIND_BYTES KIND_STR KIND_U64 Pos.eqb]. by rewrite varint_reads.
  - cbn [Z.eqb KIND_BYTES KIND_STR KIND_U64 KIND_I64 Pos.eqb]. by rewrite svarint_reads.
  - cbn [Z.eqb KIND_BYTES KIND_STR KIND_U64 KIND_I64 KIND_F64 Pos.eqb]. change (DICT_BASE <=? 4) with false. cbn iota.
    replace (zlen pre + 8) with (zlen pre + zlen (be_bytes 8 n)) by by rewrite be_bytes_zlen. rewrite slice_app. cbn [ok_or mbind outcome_bind].
    by rewrite be_val_be_bytes_small.
Qed.

(** ** Bodies *)

Lemma decode_loop_reads L tag v b : forall fuel pre rest items, 0 <= tag < 2 ^ 16 -> value_reads L b v ->
  decode_loop p (S fuel) L (pre ++ (put_varint tag ++ b) ++ rest) (zlen pre) items =
  decode_loop p fuel L (pre ++ (put_varint tag ++ b) ++ rest) (zlen (pre ++ put_varint tag ++ b)) (items ++ [(tag, v)]).
Proof.
  intros fuel pre rest items Ht (kind & tail & -> & R). cbn [decode_loop]. pose proof (put_varint_len tag). pose proof (zlen_nonneg tail). pose proof (zlen_nonneg rest).
  rewrite (proj2 (Z.ltb_lt _ _)) by zlia. rewrite <- app_assoc, varint_reads by lia. cbn [ok_or mbind outcome_bind].
  rewrite (proj2 (Z.leb_gt _ _)) by lia. cbn [mbind outcome_bind].
  rewrite (app_assoc pre), <- zlen_app. cbn [app]. rewrite byte_at_app. cbn [ok_or mbind outcome_bind].
  replace ((pre ++ put_varint tag) ++ kind :: tail ++ rest) with (((pre ++ put_varint tag) ++ [kind]) ++ tail ++ rest) by by rewrite <- app_assoc.
  replace (zlen (pre ++ put_varint tag) + 1) with (zlen ((pre ++ put_varint tag) ++ [kind])) by zlia. rewrite R. cbn [mbind outcome_bind]. f_equal. zlia.
Qed.

Lemma encode_value_grows s v s' r : encode_value p s v = (s', r) -> settler_grows s s'.
Proof.
  destruct v; cbn [encode_value]; try (intros [= <- _]; apply settler_grows_refl). unfold encode_str. destruct s as [[d f]|]; [|by intros [= <- _]].
  destruct (settle p d f text) as [[d' f'] [[[code id]|]|e|]] eqn:E; intros [= <- _]; by eapply settle_grows.
Qed.

Lemma encode_with_grows body : forall s s' r, encode_with p s body = (s', r) -> settler_grows s s'.
Proof.
  induction body as [|[tag v] body IH]; intros s s' r; cbn [encode_with]; [intros [= <- _]; apply settler_grows_refl|].
  destruct (encode_value p s v) as [s1 r1] eqn:E1. apply encode_value_grows in E1. destruct r1 as [b1|e|]; [|by intros [= <- _]..].
  destruct (encode_with p s1 body) as [s2 r2] eqn:E2. apply IH in E2. intros [= <- _]. by eapply settler_grows_trans.
Qed.

Lemma encode_with_reads body : forall s s' b, settler_ok s -> body_ok body -> encode_with p s body = (s', Ok b) -> settler_fits s' ->
  settler_ok s' /\ forall L, settler_covers s' L -> forall fuel pre items, (length b < fuel)%nat ->
  decode_loop p fuel L (pre ++ b) (zlen pre) items = Ok (items ++ body).
Proof.
  induction body as [|[tag v] body IH]; intros s s' b Hs Hb E Fit; cbn [encode_with] in E.
  - injection E as <- <-. split; [done|]. intros L _ [|fuel] pre items Hf; [lia|]. cbn [decode_loop]. by rewrite !app_nil_r, Z.ltb_irrefl.
  - apply Forall_cons in Hb as [[Ht Hv] Hb]. destruct (encode_value p s v) as [s1 [b1|e|]] eqn:E1; [|done..].
    destruct (encode_with p s1 body) as [s2 r] eqn:E2. injection E as <- Er. destruct r as [rest|e|]; [|done..]. injection Er as <-.
    pose proof (encode_with_grows _ _ _ _ E2) as G2.
    destruct (encode_value_reads s v s1 b1 Hs Hv E1) as (Ok1 & _ & V); [by eapply settler_fits_grows|].
    destruct (IH s1 s2 rest Ok1 Hb E2 Fit) as (Ok2 & R). split; [done|]. intros L C fuel pre items Hf.
    specialize (V L (settler_covers_grows _ _ _ G2 C)). destruct fuel as [|fuel]; [lia|].
    rewrite (app_assoc (put_varint tag)), (decode_loop_reads L tag v b1) by done.
    rewrite (app_assoc pre), R; [by rewrite <- app_assoc|done|]. pose proof (put_varint_len tag). rewrite !length_app in Hf. unfold zlen in *. lia.
Qed.

Lemma body_decodes s body s' b L : settler_ok s -> body_ok body -> encode_with p s body = (s', Ok b) -> settler_fits s' ->
  settler_ok s' /\ (settler_covers s' L -> decode_with p b L = Ok body).
Proof.
  intros Hs Hb E Fit. destruct (encode_with_reads body s s' b Hs Hb E Fit) as (Ok' & R). split; [done|]. intros C. apply (R L C (S (length b)) [] []). lia.
Qed.

(** A body's bytes decode to the body.  The writer's dictionary may promote
    strings while it encodes; for every reader whose dictionary resolves the codes of
    the writer's, decoding answers the tags and values in order, whatever their kinds,
    as long as the dictionary has a code for each block. *)
Theorem body_roundtrip s body s' b L : settler_ok s -> body_ok body -> encode_with p s body = (s', Ok b) -> settler_fits s' ->
  settler_covers s' L -> decode_with p b L = Ok body /\ settler_ok s' /\ settler_grows s s'.
Proof.
  intros Hs Hb E Fit C. destruct (body_decodes s body s' b L Hs Hb E Fit) as [Ok' R]. split; [by apply R|]. split; [done|by eapply encode_with_grows].
Qed.
End Facts.
