(* ===== verification/SerPart.v ===== *)
(** * Parts of a series (okm-series, [part.rs])

    A part is a header and blocks of records, with an index and a dictionary beside
    it, and a footer once it is sealed.  The files are explicit state; they take
    every write, and a crash is a data file cut short. *)
From S2P Require Import Prelude SerFormat SerDict SerBody.

(** ** Files *)

(** The extension says whether the part is sealed. *)
Record PartFiles : Type := mkPartFiles {
  pf_data : bytes;
  pf_index : bytes;
  pf_dict : option DictFiles;
  pf_sealed : bool
}.

Definition set_data (f : PartFiles) (b : bytes) : PartFiles := mkPartFiles b (pf_index f) (pf_dict f) (pf_sealed f).
Definition set_index (f : PartFiles) (b : bytes) : PartFiles := mkPartFiles (pf_data f) b (pf_dict f) (pf_sealed f).
Definition set_dict_files (f : PartFiles) (d : option DictFiles) : PartFiles := mkPartFiles (pf_data f) (pf_index f) d (pf_sealed f).

(** [read_exact] at a position. *)
Definition read_at (b : bytes) (at_ n : Z) : sresult bytes := ok_or Io (slice b at_ (at_ + n)).

(** ** State *)

(** The digest is kept as the bytes it was fed. *)
Record PartWriter : Type := mkPartWriter {
  w_header : PartHeader;
  w_block_bytes : Z;
  w_codec : Codec;
  w_next_offset : Z;
  w_last_ts : option Z;
  w_file_off : Z;
  w_block : bytes;
  w_block_first_ts : Z;
  w_block_first_offset : Z;
  w_block_records : Z;
  w_records : Z;
  w_blocks : Z;
  w_digest : bytes;
  w_dict : option Dict
}.

Definition set_w_dict (w : PartWriter) (d : option Dict) : PartWriter :=
  mkPartWriter (w_header w) (w_block_bytes w) (w_codec w) (w_next_offset w) (w_last_ts w) (w_file_off w) (w_block w)
    (w_block_first_ts w) (w_block_first_offset w) (w_block_records w) (w_records w) (w_blocks w) (w_digest w) d.

Definition set_w_block (w : PartWriter) (b : bytes) : PartWriter :=
  mkPartWriter (w_header w) (w_block_bytes w) (w_codec w) (w_next_offset w) (w_last_ts w) (w_file_off w) b
    (w_block_first_ts w) (w_block_first_offset w) (w_block_records w) (w_records w) (w_blocks w) (w_digest w) (w_dict w).

Definition set_base_ts (w : PartWriter) (ts : Z) : PartWriter :=
  mkPartWriter (mkPartHeader (h_precision (w_header w)) (h_bucket (w_header w)) ts (h_first_offset (w_header w)) (created_unix_ms (w_header w)))
    (w_block_bytes w) (w_codec w) (w_next_offset w) (w_last_ts w) (w_file_off w) (w_block w)
    (w_block_first_ts w) (w_block_first_offset w) (w_block_records w) (w_records w) (w_blocks w) (w_digest w) (w_dict w).

(** The first record of a block. *)
Definition start_block (w : PartWriter) (ts : Z) : PartWriter :=
  mkPartWriter (w_header w) (w_block_bytes w) (w_codec w) (w_next_offset w) (w_last_ts w) (w_file_off w) (w_block w)
    ts (w_next_offset w) (w_block_records w) (w_records w) (w_blocks w) (w_digest w) (w_dict w).

Definition set_counters (w : PartWriter) (next block_records : Z) : PartWriter :=
  mkPartWriter (w_header w) (w_block_bytes w) (w_codec w) next (w_last_ts w) (w_file_off w) (w_block w)
    (w_block_first_ts w) (w_block_first_offset w) block_records (w_records w) (w_blocks w) (w_digest w) (w_dict w).

Definition set_last_ts (w : PartWriter) (ts : option Z) : PartWriter :=
  mkPartWriter (w_header w) (w_block_bytes w) (w_codec w) (w_next_offset w) ts (w_file_off w) (w_block w)
    (w_block_first_ts w) (w_block_first_offset w) (w_block_records w) (w_records w) (w_blocks w) (w_digest w) (w_dict w).

(** A block written: the totals, and the digest fed. *)
Definition count_block (w : PartWriter) (records blocks : Z) (raw : bytes) : PartWriter :=
  mkPartWriter (w_header w) (w_block_bytes w) (w_codec w) (w_next_offset w) (w_last_ts w) (w_file_off w) (w_block w)
    (w_block_first_ts w) (w_block_first_offset w) (w_block_records w) records blocks (w_digest w ++ raw) (w_dict w).

(** The next block begins. *)
Definition next_block (w : PartWriter) (file_off : Z) : PartWriter :=
  mkPartWriter (w_header w) (w_block_bytes w) (w_codec w) (w_next_offset w) (w_last_ts w) file_off []
    (w_block_first_ts w) (w_next_offset w) 0 (w_records w) (w_blocks w) (w_digest w) (w_dict w).

(** ** A small state monad *)

Definition pw (A : Type) : Type := PartWriter * PartFiles -> (PartWriter * PartFiles) * sresult A.

#[export] Instance pw_ret : MRet pw := λ A a s, (s, Ok a).
#[export] Instance pw_bind : MBind pw := λ A B f m s,
  match m s with (s, Ok a) => f a s | (s, Err e) => (s, Err e) | (s, Panic) => (s, Panic) end.

Definition get_w : pw PartWriter := λ s, (s, Ok s.1).
Definition modify (f : PartWriter -> PartWriter) : pw unit := λ s, ((f s.1, s.2), Ok tt).
Definition lift {A} (r : sresult A) : pw A := λ s, (s, r).

(** [seek] and [write_all] on the data file. *)
Definition write_data (at_ : Z) (b : bytes) : pw unit := λ s, ((s.1, set_data s.2 (write_at (pf_data s.2) at_ b)), Ok tt).

Definition append_index (b : bytes) : pw unit := λ s, ((s.1, set_index s.2 (pf_index s.2 ++ b)), Ok tt).

(** [.open] becomes [.log]. *)
Definition mark_sealed : pw unit := λ s, ((s.1, mkPartFiles (pf_data s.2) (pf_index s.2) (pf_dict s.2) true), Ok tt).

(** What a step does to the dictionary and its files, if the writer has one. *)
Definition with_dict {A} (none : A) (step : Dict -> DictFiles -> Dict * DictFiles * sresult A) : pw A := λ s,
  match w_dict s.1, pf_dict s.2 with
  | Some d, Some f => let '(d, f, r) := step d f in ((set_w_dict s.1 (Some d), set_dict_files s.2 (Some f)), r)
  | _, _ => (s, Ok none)
  end.

(** A record read: its time, its number, its body. *)
Abbreviation Row := (Z * Z * Body)%type.

Section Part.
Context `{SeriesLib}.
Variable p : profile.

(** ** Writing *)

Definition PartWriter_create (header : PartHeader) (block_bytes : Z) (codec : Codec) (dict : option DictConfig) : PartWriter * PartFiles :=
  let d := Dict_create <$> dict in
  (mkPartWriter header block_bytes codec (h_first_offset header) None PART_HEADER_LEN [] 0 (h_first_offset header) 0 0 0 [] (fst <$> d),
   mkPartFiles (PartHeader_encode header) index_header (snd <$> d) false).

(** The smaller of the two forms. *)
Definition block_payload (codec : Codec) (raw : bytes) : sresult (Codec * bytes) :=
  match codec with
  | Raw => Ok (Raw, raw)
  | Zstd => c ← ok_or CodecFailed (zstd_compress raw); Ok (if zlen c <? zlen raw then (Zstd, c) else (Raw, raw))
  end.

Definition as_u32 (v : Z) : sresult Z := if v <? 2 ^ 32 then Ok v else Err Overflow.

(** The records in memory as one block, and its row. *)
Definition put_block : pw unit :=
  w ← get_w;
  let raw := w_block w in
  modify (λ w, set_w_block w []);;
  '(codec, payload) ← lift (block_payload (w_codec w) raw);
  len_c ← lift (as_u32 (zlen payload));
  len_u ← lift (as_u32 (zlen raw));
  let block := mkBlockHeader codec (w_block_records w) len_c len_u (w_block_first_ts w) (w_block_first_offset w) in
  write_data (w_file_off w) (BlockHeader_encode block ++ payload);;
  records ← lift (add_w p 64 (w_records w) (b_records block));
  blocks ← lift (add_w p 32 (w_blocks w) 1);
  modify (λ w, count_block w records blocks raw);;
  row ← lift (ok_or Overflow (IndexRow_from_header block (w_file_off w)));
  append_index (IndexRow_encode row);;
  modify (λ w', next_block w' (w_file_off w + BLOCK_HEADER_LEN + len_c)).

Definition flush_block : pw unit :=
  w ← get_w;
  if w_block_records w =? 0 then mret tt else (with_dict tt flush_if_dirty;; put_block).

(** The difference to the last record; the first record's time is absolute. *)
Definition delta_of (ts : Z) : pw Z :=
  w ← get_w;
  match w_last_ts w with
  | None => modify (λ w, if (base_ts (w_header w) =? 0) && (w_records w =? 0) then set_base_ts w ts else w);; mret ts
  | Some last => if ts <? last then lift (Err (TimeBackwards last ts)) else mret (ts - last)
  end.

(** The body's bytes, the dictionary moving on. *)
Definition encode_body (body : Body) : pw bytes := λ s,
  match w_dict s.1, pf_dict s.2 with
  | Some d, Some f =>
      match encode_with p (Some (d, f)) body with
      | (Some (d, f), r) => ((set_w_dict s.1 (Some d), set_dict_files s.2 (Some f)), r)
      | (None, r) => (s, r)
      end
  | _, _ => (s, (encode_with p None body).2)
  end.

Definition append (ts : Z) (body : Body) : pw Z :=
  encoded ← encode_body body;
  delta ← delta_of ts;
  modify (λ w, match w_block w with [] => start_block w ts | _ => w end);;
  w ← get_w;
  block ← lift (ok_or Overflow (put_record (w_block w) delta encoded));
  modify (λ w, set_w_block w block);;
  next ← lift (add_w p 64 (w_next_offset w) 1);
  count ← lift (add_w p 32 (w_block_records w) 1);
  modify (λ w, set_last_ts (set_counters w next count) (Some ts));;
  (if w_block_bytes w <=? zlen block then flush_block else mret tt);;
  mret (w_next_offset w).

Definition pending_bytes (w : PartWriter) : Z := zlen (w_block w).
Definition written_bytes (w : PartWriter) : Z := w_file_off w.

(** The footer, and the part renamed. *)
Definition seal : pw Footer :=
  flush_block;;
  with_dict tt Dict_finish;;
  w ← get_w;
  let footer := mkFooter (w_records w) (default 0 (w_last_ts w)) (w_blocks w) (xxh64 (w_digest w)) in
  write_data (w_file_off w) (Footer_encode footer);;
  mark_sealed;;
  mret footer.

(** ** Blocks read *)

Definition decode_payload (payload : bytes) (block : BlockHeader) : sresult bytes :=
  match b_codec block with
  | Raw => Ok payload
  | Zstd => ok_or CodecFailed (zstd_decompress payload (b_len_u block))
  end.

(** The time of the last record; the first one's is the block's. *)
Fixpoint last_ts_loop (fuel : nat) (raw : bytes) (pos ts : Z) (first : bool) (last : option Z) : sresult (option Z) :=
  match fuel with
  | O => Ok last
  | Datatypes.S fuel =>
      if pos <? zlen raw then
        '(delta, _, pos) ← ok_or (BadFrame FrameRecord) (get_record raw pos);
        ts ← (if first then Ok ts else add_w p 64 ts delta);
        last_ts_loop fuel raw pos ts false (Some ts)
      else Ok last
  end.

Definition last_ts_of (raw : bytes) (first_ts : Z) : sresult (option Z) := last_ts_loop (Datatypes.S (length raw)) raw 0 first_ts true None.

(** How many records can be walked out of a payload. *)
Fixpoint walked (fuel : nat) (raw : bytes) (pos n : Z) : Z :=
  match fuel with
  | O => n
  | Datatypes.S fuel =>
      if pos <? zlen raw then match get_record raw pos with Some (_, _, pos) => walked fuel raw pos (n + 1) | None => n end else n
  end.

(** ** Taking over an open part *)

Record Survey : Type := mkSurvey {
  sv_file_off : Z;
  sv_next_offset : Z;
  sv_last_ts : option Z;
  sv_records : Z;
  sv_blocks : Z;
  sv_digest : bytes;
  sv_rows : list IndexRow
}.

(** One block whole, with its records: its header and its payload unpacked. *)
Definition whole_block (data : bytes) (file_off : Z) : option (BlockHeader * bytes) :=
  head ← slice data file_off (file_off + BLOCK_HEADER_LEN);
  block ← BlockHeader_decode head;
  if (b_records block =? 0) || (b_len_c block =? 0) then None
  else
    payload ← slice data (file_off + BLOCK_HEADER_LEN) (file_off + BLOCK_HEADER_LEN + b_len_c block);
    raw ← (match decode_payload payload block with Ok raw => Some raw | _ => None end);
    if negb (zlen raw =? b_len_u block) then None
    else if negb (walked (Datatypes.S (length raw)) raw 0 0 =? b_records block) then None
    else Some (block, raw).

Fixpoint survey (fuel : nat) (data : bytes) (s : Survey) : sresult Survey :=
  match fuel with
  | O => Ok s
  | Datatypes.S fuel =>
      match whole_block data (sv_file_off s) with
      | None => Ok s
      | Some (block, raw) =>
          row ← ok_or Overflow (IndexRow_from_header block (sv_file_off s));
          next ← add_w p 64 (b_first_offset block) (b_records block);
          last ← last_ts_of raw (b_first_ts block);
          records ← add_w p 64 (sv_records s) (b_records block);
          blocks ← add_w p 32 (sv_blocks s) 1;
          survey fuel data (mkSurvey (sv_file_off s + BLOCK_HEADER_LEN + b_len_c block) next last records blocks
            (sv_digest s ++ raw) (sv_rows s ++ [row]))
      end
  end.

Definition rebuild_index (rows : list IndexRow) : bytes := index_header ++ concat (map IndexRow_encode rows).

Definition PartWriter_adopt (f : PartFiles) (block_bytes : Z) (codec : Codec) (dict : option DictConfig) : sresult (PartWriter * PartFiles) :=
  d ← (match dict with
       | None => Ok None
       | Some config => df ← ok_or Io (pf_dict f); Ok (Some (Dict_adopt (df_dict df) config))
       end);
  head ← read_at (pf_data f) 0 PART_HEADER_LEN;
  header ← ok_or (BadFrame FramePartHeader) (PartHeader_decode head);
  s ← survey (length (pf_data f)) (pf_data f) (mkSurvey PART_HEADER_LEN (h_first_offset header) None 0 0 [] []);
  Ok (mkPartWriter header block_bytes codec (sv_next_offset s) (sv_last_ts s) (sv_file_off s) [] 0 (sv_next_offset s) 0
        (sv_records s) (sv_blocks s) (sv_digest s) d,
      mkPartFiles (take (Z.to_nat (sv_file_off s)) (pf_data f)) (rebuild_index (sv_rows s)) (pf_dict f) (pf_sealed f)).

(** ** Reading *)

Record PartReader : Type := mkPartReader {
  pr_header : PartHeader;
  pr_footer : option Footer;
  pr_rows : list IndexRow;
  pr_sealed : bool;
  pr_dict : option Dict;
  pr_span : option (Z * Z)
}.

Definition read_footer (data : bytes) : sresult (option Footer) :=
  if zlen data <? FOOTER_LEN + PART_HEADER_LEN then Ok None
  else b ← read_at data (zlen data - FOOTER_LEN) FOOTER_LEN; Ok (Footer_decode b).

Fixpoint index_rows (fuel : nat) (b : bytes) : list IndexRow :=
  match fuel with
  | O => []
  | Datatypes.S fuel =>
      match slice b 0 INDEX_ROW_LEN with
      | None => []
      | Some chunk => match IndexRow_decode chunk with Some row => row :: index_rows fuel (drop (Z.to_nat INDEX_ROW_LEN) b) | None => [] end
      end
  end.

Definition read_index (b : bytes) : list IndexRow :=
  match slice b INDEX_HEADER_LEN (zlen b) with Some body => index_rows (length body) body | None => [] end.

(** The block an index row names. *)
Definition read_block_at (data : bytes) (row : IndexRow) : sresult (BlockHeader * bytes) :=
  head ← read_at data (r_file_offset row) BLOCK_HEADER_LEN;
  block ← ok_or (BadFrame FrameBlockHeader) (BlockHeader_decode head);
  payload ← read_at data (r_file_offset row + BLOCK_HEADER_LEN) (b_len_c block);
  raw ← decode_payload payload block;
  Ok (block, raw).

(** The last block of an open part: its payload is as long as its row says. *)
Definition last_block (data : bytes) (row : IndexRow) : sresult (BlockHeader * bytes) :=
  head ← read_at data (r_file_offset row) BLOCK_HEADER_LEN;
  block ← ok_or (BadFrame FrameBlockHeader) (BlockHeader_decode head);
  payload ← read_at data (r_file_offset row + BLOCK_HEADER_LEN) (r_len_c row);
  raw ← decode_payload payload block;
  Ok (block, raw).

Definition span_of (data : bytes) (rows : list IndexRow) (footer : option Footer) : sresult (option (Z * Z)) :=
  match head rows, footer with
  | None, _ => Ok None
  | Some first, Some footer => Ok (Some (r_first_ts first, ft_last_ts footer))
  | Some first, None =>
      row ← ok_or (BadFrame FrameIndex) (last rows);
      '(block, raw) ← last_block data row;
      last_ts ← last_ts_of raw (b_first_ts block);
      Ok (Some (r_first_ts first, default (b_first_ts block) last_ts))
  end.

Definition PartReader_open (f : PartFiles) (dict : option DictConfig) : sresult PartReader :=
  let d := (λ df, Dict_load (Some (df_dict df)) (default DictConfig_default dict)) <$> pf_dict f in
  head ← read_at (pf_data f) 0 PART_HEADER_LEN;
  header ← ok_or (BadFrame FramePartHeader) (PartHeader_decode head);
  footer ← (if pf_sealed f then read_footer (pf_data f) else Ok None);
  let rows := read_index (pf_index f) in
  span ← span_of (pf_data f) rows footer;
  Ok (mkPartReader header footer rows (pf_sealed f) d span).

(** The records a part covers, the end excluded. *)
Definition offset_span (r : PartReader) : outcome SeriesError (Z * Z) :=
  let start := h_first_offset (pr_header r) in
  e ← (match pr_footer r with
       | Some footer => add_w p 64 start (ft_records footer)
       | None => match last (pr_rows r) with Some row => add_w p 64 (r_first_offset row) (r_records row) | None => Ok start end
       end);
  Ok (start, e).

Inductive Select : Type := ByOffset (from : Z) | ByTime (from to : Z).

Definition wanted (select : Select) (ts offset : Z) : bool :=
  match select with ByOffset from => from <=? offset | ByTime from to => (from <=? ts) && (ts <=? to) end.

(** The records wanted, behind those found so far, and the time of the last one walked. *)
Fixpoint scan_loop (fuel : nat) (raw : bytes) (select : Select) (max : Z) (dict : option Dict) (pos offset ts : Z) (first : bool)
    (out : list Row) : sresult (list Row * Z) :=
  match fuel with
  | O => Ok (out, ts)
  | Datatypes.S fuel =>
      if pos <? zlen raw then
        match get_record raw pos with
        | None => Ok (out, ts)
        | Some (delta, body, pos) =>
            let ts := if first then ts else (ts + delta) `min` (2 ^ 64 - 1) in
            out ← (if wanted select ts offset && (zlen out <? max) then
                     match decode_with p body dict with
                     | Ok b => Ok (out ++ [(ts, offset, b)])
                     | Err _ => Err (BadFrame FrameBody)
                     | Panic => Panic
                     end
                   else Ok out);
            offset ← add_w p 64 offset 1;
            scan_loop fuel raw select max dict pos offset ts false out
        end
      else Ok (out, ts)
  end.

Definition scan_block (block : BlockHeader) (raw : bytes) (select : Select) (max : Z) (dict : option Dict) (out : list Row)
    : sresult (list Row * Z) :=
  scan_loop (Datatypes.S (length raw)) raw select max dict 0 (b_first_offset block) (b_first_ts block) true out.

(** [partition_point] *)
Fixpoint partition_point {A} (pred : A -> bool) (l : list A) : nat :=
  match l with x :: l => if pred x then Datatypes.S (partition_point pred l) else O | [] => O end.

Fixpoint read_rows (data : bytes) (rows : list IndexRow) (from max : Z) (dict : option Dict) (out : list Row) : sresult (list Row) :=
  match rows with
  | [] => Ok out
  | row :: rows =>
      if max <=? zlen out then Ok out
      else
        '(block, raw) ← read_block_at data row;
        '(out, _) ← scan_block block raw (ByOffset from) max dict out;
        read_rows data rows from max dict out
  end.

Definition read_from (r : PartReader) (data : bytes) (from max : Z) (out : list Row) : sresult (list Row) :=
  let start := Nat.pred (partition_point (λ row, r_first_offset row <=? from) (pr_rows r)) in
  read_rows data (drop start (pr_rows r)) from max (pr_dict r) out.

Fixpoint read_rows_by_time (data : bytes) (rows : list IndexRow) (from to max : Z) (dict : option Dict) (out : list Row) : sresult (list Row) :=
  match rows with
  | [] => Ok out
  | row :: rows =>
      if (max <=? zlen out) || (to <? r_first_ts row) then Ok out
      else
        '(block, raw) ← read_block_at data row;
        '(out, last) ← scan_block block raw (ByTime from to) max dict out;
        if to <? last then Ok out else read_rows_by_time data rows from to max dict out
  end.

Definition part_read_by_time (r : PartReader) (data : bytes) (from to max : Z) (out : list Row) : sresult (list Row) :=
  let start := Nat.pred (partition_point (λ row, r_first_ts row <? from) (pr_rows r)) in
  read_rows_by_time data (drop start (pr_rows r)) from to max (pr_dict r) out.

(** [first_offset_of]: the header alone. *)
Definition first_offset_of (data : bytes) : sresult Z :=
  head ← read_at data 0 PART_HEADER_LEN;
  header ← ok_or (BadFrame FramePartHeader) (PartHeader_decode head);
  Ok (h_first_offset header).
End Part.
