(* ===== verification/SerPartFacts.v ===== *)
(** * What a part holds and how it reads back (okm-series, [part.rs])

    A part is a list of blocks, a block a list of timed records.  The index has a row
    for each block; walking a block gives its records with their times and numbers,
    and a read from an offset or between two times answers exactly the records asked
    for. *)
From S2P Require Import Prelude SerFormat SerDict SerDictFacts SerBody SerBodyFacts SerPart.

(** ** Records *)

(** The time, the encoded body, and the body. *)
Abbreviation Rec := (Z * bytes * Body)%type.

Definition rc_ts (r : Rec) : Z := r.1.1.
Definition rc_enc (r : Rec) : bytes := r.1.2.
Definition rc_body (r : Rec) : Body := r.2.

Fixpoint deltas (prev : Z) (l : list Rec) : list (Z * bytes) :=
  match l with [] => [] | r :: l => (rc_ts r - prev, rc_enc r) :: deltas (rc_ts r) l end.

Fixpoint last_time (prev : Z) (l : list Rec) : Z := match l with [] => prev | r :: l => last_time (rc_ts r) l end.

(** Times do not fall, and every record fits its length. *)
Fixpoint timed (prev : Z) (l : list Rec) : Prop :=
  match l with
  | [] => True
  | r :: l => prev <= rc_ts r < 2 ^ 64 /\ record_fits (rc_ts r - prev) (rc_enc r) /\ timed (rc_ts r) l
  end.

Definition raw_of (prev : Z) (l : list Rec) : bytes := records_bytes (deltas prev l).

Lemma deltas_app l k : forall prev, deltas prev (l ++ k) = deltas prev l ++ deltas (last_time prev l) k.
Proof. induction l as [|r l IH]; intros prev; [done|]. cbn [app deltas last_time]. by rewrite IH. Qed.

Lemma raw_app prev l k : raw_of prev (l ++ k) = raw_of prev l ++ raw_of (last_time prev l) k.
Proof. unfold raw_of. by rewrite deltas_app, records_app. Qed.

Lemma last_time_app l k : forall prev, last_time prev (l ++ k) = last_time (last_time prev l) k.
Proof. induction l as [|r l IH]; intros prev; [done|apply IH]. Qed.

Lemma timed_app l k : forall prev, timed prev (l ++ k) <-> timed prev l /\ timed (last_time prev l) k.
Proof. induction l as [|r l IH]; intros prev; cbn [app timed last_time]; [tauto|]. rewrite IH. tauto. Qed.

Lemma last_time_ge l : forall prev, timed prev l -> prev <= last_time prev l.
Proof. induction l as [|r l IH]; intros prev; cbn [timed last_time]; [lia|]. intros (H & _ & T). specialize (IH _ T). lia. Qed.

Lemma raw_cons prev r l : raw_of prev (r :: l) = record_bytes (rc_ts r - prev) (rc_enc r) ++ raw_of (rc_ts r) l.
Proof. done. Qed.

Lemma raw_snoc prev l r : raw_of prev (l ++ [r]) = raw_of prev l ++ record_bytes (rc_ts r - last_time prev l) (rc_enc r).
Proof. rewrite raw_app, (raw_cons _ r []). change (raw_of (rc_ts r) []) with (@nil Z). by rewrite app_nil_r. Qed.

Lemma raw_len l : forall prev, 5 * zlen l <= zlen (raw_of prev l).
Proof.
  induction l as [|r l IH]; intros prev; [done|]. rewrite raw_cons, zlen_cons, zlen_app, record_zlen. specialize (IH (rc_ts r)).
  pose proof (put_varint_len (rc_ts r - prev)). pose proof (zlen_nonneg (rc_enc r)). lia.
Qed.

Lemma raw_length l prev : (length l <= length (raw_of prev l))%nat.
Proof. pose proof (raw_len l prev). unfold zlen in *. lia. Qed.

(** A block: the form it is stored in, the bytes of that form, and the records. *)
Abbreviation Blk := (Codec * bytes * list Rec)%type.

Section Facts.
Context `{SLL : SeriesLibLaws}.
Variable p : profile.

(** ** Walking a block *)

Lemma walked_records l : forall fuel pre prev n, timed prev l -> (length l < fuel)%nat ->
  walked fuel (pre ++ raw_of prev l) (zlen pre) n = n + zlen l.
Proof.
  induction l as [|r l IH]; intros [|fuel] pre prev n T Hf; [simpl in Hf; lia..| |simpl in Hf; lia|]; cbn [walked].
  - change (raw_of prev []) with (@nil Z). rewrite app_nil_r, Z.ltb_irrefl. change (zlen (@nil Rec)) with 0. lia.
  - destruct T as (H1 & H2 & T). rewrite raw_cons. pose proof (record_zlen (rc_ts r - prev) (rc_enc r)). pose proof (put_varint_len (rc_ts r - prev)).
    pose proof (zlen_nonneg (rc_enc r)). pose proof (zlen_nonneg (raw_of (rc_ts r) l)). rewrite (proj2 (Z.ltb_lt _ _)) by zlia.
    rewrite get_record_reads by done. rewrite app_assoc, <- zlen_app, IH by (done || (simpl in Hf; lia)). zlia.
Qed.

Lemma last_ts_records l : forall fuel pre prev (first : bool) last, timed prev l -> 0 <= prev -> (length l < fuel)%nat ->
  last_ts_loop p fuel (pre ++ raw_of prev l) (zlen pre) (match l with r :: _ => if first then rc_ts r else prev | [] => prev end) first last =
  Ok (match l with [] => last | _ => Some (last_time prev l) end).
Proof.
  induction l as [|r l IH]; intros [|fuel] pre prev first last T Hp Hf; [simpl in Hf; lia..| |simpl in Hf; lia|]; cbn [last_ts_loop].
  - change (raw_of prev []) with (@nil Z). by rewrite app_nil_r, Z.ltb_irrefl.
  - destruct T as (H1 & H2 & T). rewrite raw_cons. pose proof (record_zlen (rc_ts r - prev) (rc_enc r)). pose proof (put_varint_len (rc_ts r - prev)).
    pose proof (zlen_nonneg (rc_enc r)). pose proof (zlen_nonneg (raw_of (rc_ts r) l)). rewrite (proj2 (Z.ltb_lt _ _)) by zlia.
    rewrite get_record_reads by done. cbn [ok_or mbind outcome_bind].
    assert ((if first then Ok (if first then rc_ts r else prev) else add_w p 64 (if first then rc_ts r else prev) (rc_ts r - prev)) = Ok (E := SeriesError) (rc_ts r)) as ->.
    { destruct first; [done|]. unfold add_w. replace (prev + (rc_ts r - prev)) with (rc_ts r) by lia. by rewrite (proj2 (Z.ltb_lt _ _)) by lia. }
    cbn [mbind outcome_bind]. rewrite app_assoc, <- zlen_app. specialize (IH fuel (pre ++ record_bytes (rc_ts r - prev) (rc_enc r)) (rc_ts r) false (Some (rc_ts r)) T ltac:(lia) ltac:(simpl in Hf; lia)).
    destruct l as [|r' l]; exact IH.
Qed.

Lemma last_ts_of_records l prev : timed prev l -> 0 <= prev ->
  last_ts_of p (raw_of prev l) (match l with r :: _ => rc_ts r | [] => prev end) = Ok (match l with [] => None | _ => Some (last_time prev l) end).
Proof.
  intros T Hp. unfold last_ts_of. pose proof (raw_length l prev). pose proof (last_ts_records l (S (length (raw_of prev l))) [] prev true None T Hp ltac:(lia)) as R.
  cbn [app] in R. change (zlen (@nil Z)) with 0 in R. by destruct l.
Qed.

(** What a scan makes of the records. *)
Fixpoint select_recs (select : Select) (max offset : Z) (l : list Rec) (out : list Row) : list Row :=
  match l with
  | [] => out
  | r :: l => select_recs select max (offset + 1) l
      (if wanted select (rc_ts r) offset && (zlen out <? max) then out ++ [(rc_ts r, offset, rc_body r)] else out)
  end.

(** The dictionary resolves the body. *)
Definition readable (L : option Dict) (r : Rec) : Prop := decode_with p (rc_enc r) L = Ok (rc_body r).

Lemma scan_records select max L l : forall fuel pre prev offset (first : bool) out, timed prev l -> 0 <= prev -> Forall (readable L) l ->
  0 <= offset -> offset + zlen l < 2 ^ 64 -> (length l < fuel)%nat ->
  scan_loop p fuel (pre ++ raw_of prev l) select max L (zlen pre) offset (match l with r :: _ => if first then rc_ts r else prev | [] => prev end) first out =
  Ok (select_recs select max offset l out, last_time prev l).
Proof.
  induction l as [|r l IH]; intros [|fuel] pre prev offset first out T Hp F H0 Ho Hf; [simpl in Hf; lia..| |simpl in Hf; lia|]; cbn [scan_loop].
  - change (raw_of prev []) with (@nil Z). by rewrite app_nil_r, Z.ltb_irrefl.
  - destruct T as (H1 & H2 & T). apply Forall_cons in F as [Fr F]. rewrite raw_cons. pose proof (record_zlen (rc_ts r - prev) (rc_enc r)).
    pose proof (put_varint_len (rc_ts r - prev)). pose proof (zlen_nonneg (rc_enc r)). pose proof (zlen_nonneg (raw_of (rc_ts r) l)). pose proof (zlen_nonneg l).
    rewrite zlen_cons in Ho. rewrite (proj2 (Z.ltb_lt _ _)) by zlia. rewrite get_record_reads by done.
    assert ((if first then (if first then rc_ts r else prev) else ((if first then rc_ts r else prev) + (rc_ts r - prev)) `min` (2 ^ 64 - 1)) = rc_ts r) as -> by (destruct first; lia).
    cbn [select_recs last_time]. set (out' := if _ && _ then out ++ _ else out).
    assert ((if wanted select (rc_ts r) offset && (zlen out <? max) then match decode_with p (rc_enc r) L with
        | Ok b => Ok (out ++ [(rc_ts r, offset, b)]) | Err _ => Err (BadFrame FrameBody) | Panic => Panic end else Ok out) = Ok (E := SeriesError) out') as ->.
    { unfold out'. destruct (_ && _); [|done]. by rewrite Fr. }
    cbn [mbind outcome_bind]. unfold add_w at 1. rewrite (proj2 (Z.ltb_lt _ _)) by lia. cbn [mbind outcome_bind].
    rewrite app_assoc, <- zlen_app. specialize (IH fuel (pre ++ record_bytes (rc_ts r - prev) (rc_enc r)) (rc_ts r) (offset + 1) false out' T ltac:(lia) F ltac:(lia) ltac:(lia) ltac:(simpl in Hf; lia)).
    destruct l as [|r' l]; exact IH.
Qed.

(** ** Blocks *)

Definition bl_recs (b : Blk) : list Rec := b.2.

Definition first_time (l : list Rec) : Z := match l with r :: _ => rc_ts r | [] => 0 end.

Definition blk_header (prev first : Z) (b : Blk) : BlockHeader :=
  mkBlockHeader b.1.1 (zlen (bl_recs b)) (zlen b.1.2) (zlen (raw_of prev (bl_recs b))) (first_time (bl_recs b)) first.

Definition blk_bytes (prev first : Z) (b : Blk) : bytes := BlockHeader_encode (blk_header prev first b) ++ b.1.2.

Definition blk_row (off prev first : Z) (b : Blk) : IndexRow :=
  mkIndexRow (first_time (bl_recs b)) first off (zlen b.1.2) (zlen (raw_of prev (bl_recs b))) (zlen (bl_recs b)).

(** The stored form unpacks to the records, which follow the time [prev]. *)
Definition blk_ok (prev first : Z) (b : Blk) : Prop :=
  bl_recs b <> [] /\ timed prev (bl_recs b) /\ decode_payload b.1.2 (blk_header prev first b) = Ok (raw_of prev (bl_recs b)) /\
  0 < zlen b.1.2 < 2 ^ 32 /\ zlen (raw_of prev (bl_recs b)) < 2 ^ 32.

Fixpoint data_of (prev first : Z) (bs : list Blk) : bytes :=
  match bs with [] => [] | b :: bs => blk_bytes prev first b ++ data_of (last_time prev (bl_recs b)) (first + zlen (bl_recs b)) bs end.

Fixpoint rows_of (off prev first : Z) (bs : list Blk) : list IndexRow :=
  match bs with
  | [] => []
  | b :: bs => blk_row off prev first b :: rows_of (off + zlen (blk_bytes prev first b)) (last_time prev (bl_recs b)) (first + zlen (bl_recs b)) bs
  end.

Fixpoint blks_ok (prev first : Z) (bs : list Blk) : Prop :=
  match bs with [] => True | b :: bs => blk_ok prev first b /\ blks_ok (last_time prev (bl_recs b)) (first + zlen (bl_recs b)) bs end.

Definition recs_of (bs : list Blk) : list Rec := concat (map bl_recs bs).

Lemma recs_cons b bs : recs_of (b :: bs) = bl_recs b ++ recs_of bs.
Proof. done. Qed.

Lemma recs_app bs cs : recs_of (bs ++ cs) = recs_of bs ++ recs_of cs.
Proof. unfold recs_of. by rewrite map_app, concat_app. Qed.

Lemma recs_snoc bs b : recs_of (bs ++ [b]) = recs_of bs ++ bl_recs b.
Proof. rewrite recs_app, (recs_cons b []). change (recs_of []) with (@nil Rec). by rewrite app_nil_r. Qed.

Lemma data_app bs cs : forall prev first, data_of prev first (bs ++ cs) =
  data_of prev first bs ++ data_of (last_time prev (recs_of bs)) (first + zlen (recs_of bs)) cs.
Proof.
  induction bs as [|b bs IH]; intros prev first; cbn [app data_of]; [by rewrite Z.add_0_r|]. rewrite IH, recs_cons, last_time_app, zlen_app.
  rewrite <- app_assoc. do 3 f_equal. lia.
Qed.

Lemma rows_app bs cs : forall off prev first, rows_of off prev first (bs ++ cs) =
  rows_of off prev first bs ++ rows_of (off + zlen (data_of prev first bs)) (last_time prev (recs_of bs)) (first + zlen (recs_of bs)) cs.
Proof.
  induction bs as [|b bs IH]; intros off prev first; cbn [app rows_of data_of]; [by rewrite !Z.add_0_r|]. rewrite IH, recs_cons, last_time_app, !zlen_app.
  do 3 f_equal; lia.
Qed.

Lemma blks_app bs cs : forall prev first, blks_ok prev first (bs ++ cs) <->
  blks_ok prev first bs /\ blks_ok (last_time prev (recs_of bs)) (first + zlen (recs_of bs)) cs.
Proof.
  induction bs as [|b bs IH]; intros prev first; cbn [app blks_ok]; [rewrite Z.add_0_r; tauto|]. rewrite IH, recs_cons, last_time_app, zlen_app.
  replace (first + zlen (bl_recs b) + zlen (recs_of bs)) with (first + (zlen (bl_recs b) + zlen (recs_of bs))) by lia. tauto.
Qed.

Lemma blk_zlen prev first b : zlen (blk_bytes prev first b) = BLOCK_HEADER_LEN + zlen b.1.2.
Proof. unfold blk_bytes. rewrite zlen_app. by rewrite BlockHeader_zlen. Qed.

Lemma blks_timed bs : forall prev first, blks_ok prev first bs -> timed prev (recs_of bs).
Proof. induction bs as [|b bs IH]; intros prev first; [done|]. intros ((_ & T & _) & B). rewrite recs_cons, timed_app. eauto. Qed.

(** The numbers of a block are in the range of its header. *)
Lemma blk_header_ok prev first b : 0 <= prev -> blk_ok prev first b -> 0 <= first < 2 ^ 64 -> BlockHeader_ok (blk_header prev first b).
Proof.
  intros Hp (N & T & _ & Hc & Hu) Hf. pose proof (raw_len (bl_recs b) prev). pose proof (zlen_nonneg (bl_recs b)).
  assert (u64 (first_time (bl_recs b))) as Ht.
  { destruct (bl_recs b) as [|r l]; [done|]. destruct T as (Hr & _). unfold u64. change (256 ^ Z.of_nat 8) with (2 ^ 64). cbn [first_time]. lia. }
  unfold BlockHeader_ok, u32, u64 in *. change (256 ^ Z.of_nat 4) with (2 ^ 32). change (256 ^ Z.of_nat 8) with (2 ^ 64) in *.
  cbn [blk_header b_records b_len_c b_len_u b_first_ts b_first_offset]. lia.
Qed.

(** ** One block read *)

Definition in_range (prev first : Z) (l : list Rec) : Prop := 0 <= prev /\ 0 <= first /\ first + zlen l < 2 ^ 64.

Lemma block_parts pre prev first b rest : blk_ok prev first b -> in_range prev first (bl_recs b) ->
  let data := pre ++ blk_bytes prev first b ++ rest in
  slice data (zlen pre) (zlen pre + BLOCK_HEADER_LEN) = Some (BlockHeader_encode (blk_header prev first b)) /\
  BlockHeader_decode (BlockHeader_encode (blk_header prev first b)) = Some (blk_header prev first b) /\
  slice data (zlen pre + BLOCK_HEADER_LEN) (zlen pre + BLOCK_HEADER_LEN + zlen b.1.2) = Some b.1.2.
Proof.
  intros B (Hp & H0 & Hf) data. pose proof (zlen_nonneg (bl_recs b)). pose proof (BlockHeader_zlen (blk_header prev first b)) as Lh. split_and!.
  - unfold data, blk_bytes. rewrite <- app_assoc, <- Lh. apply slice_app.
  - rewrite <- (app_nil_r (BlockHeader_encode _)). apply BlockHeader_reads. apply blk_header_ok; [done..|lia].
  - unfold data, blk_bytes. rewrite <- app_assoc, app_assoc, <- Lh, <- zlen_app. apply slice_app.
Qed.

Lemma block_read pre prev first b rest : blk_ok prev first b -> in_range prev first (bl_recs b) ->
  read_block_at (pre ++ blk_bytes prev first b ++ rest) (blk_row (zlen pre) prev first b) = Ok (blk_header prev first b, raw_of prev (bl_recs b)) /\
  last_block (pre ++ blk_bytes prev first b ++ rest) (blk_row (zlen pre) prev first b) = Ok (blk_header prev first b, raw_of prev (bl_recs b)).
Proof.
  intros B R. destruct (block_parts pre prev first b rest B R) as (E1 & E2 & E3). unfold read_block_at, last_block, read_at. cbn [r_file_offset blk_row r_len_c].
  rewrite E1. cbn [ok_or mbind outcome_bind]. rewrite E2. cbn [ok_or mbind outcome_bind]. cbn [blk_header b_len_c]. rewrite E3. cbn [ok_or mbind outcome_bind].
  destruct B as (_ & _ & Ed & _). fold (blk_header prev first b). rewrite Ed. done.
Qed.

Lemma whole_block_read pre prev first b rest : blk_ok prev first b -> in_range prev first (bl_recs b) ->
  whole_block (pre ++ blk_bytes prev first b ++ rest) (zlen pre) = Some (blk_header prev first b, raw_of prev (bl_recs b)).
Proof.
  intros B R. destruct (block_parts pre prev first b rest B R) as (E1 & E2 & E3). unfold whole_block. rewrite E1. cbn [mbind option_bind]. rewrite E2. cbn [mbind option_bind].
  destruct B as (N & T & Ed & Hc & Hu). cbn [blk_header b_records b_len_c]. rewrite (proj2 (Z.eqb_neq (zlen b.1.2) 0)) by lia.
  assert ((zlen (bl_recs b) =? 0) = false) as -> by (apply Z.eqb_neq; destruct (bl_recs b); [done|]; rewrite zlen_cons; pose proof (zlen_nonneg l); lia).
  cbn [orb]. rewrite E3. cbn [mbind option_bind]. fold (blk_header prev first b). rewrite Ed. cbn [mbind option_bind blk_header b_len_u b_records]. rewrite Z.eqb_refl. cbn [negb].
  pose proof (walked_records (bl_recs b) (S (length (raw_of prev (bl_recs b)))) [] prev 0 T) as W. cbn [app] in W. change (zlen (@nil Z)) with 0 in W.
  rewrite W by (pose proof (raw_length (bl_recs b) prev); lia). rewrite Z.add_0_l, Z.eqb_refl. done.
Qed.

Lemma scan_block_read prev first b select max L out : blk_ok prev first b -> in_range prev first (bl_recs b) -> Forall (readable L) (bl_recs b) ->
  scan_block p (blk_header prev first b) (raw_of prev (bl_recs b)) select max L out = Ok (select_recs select max first (bl_recs b) out, last_time prev (bl_recs b)).
Proof.
  intros (N & T & _) (Hp & H0 & Hf) F. unfold scan_block. cbn [blk_header b_first_offset b_first_ts].
  pose proof (scan_records select max L (bl_recs b) (S (length (raw_of prev (bl_recs b)))) [] prev first true out T Hp F H0 Hf) as R.
  cbn [app] in R. change (zlen (@nil Z)) with 0 in R. unfold first_time. destruct (bl_recs b) as [|r l]; [done|]. apply R. pose proof (raw_length (r :: l) prev). lia.
Qed.

(** ** Selections *)

Lemma select_app select max l k : forall offset out,
  select_recs select max offset (l ++ k) out = select_recs select max (offset + zlen l) k (select_recs select max offset l out).
Proof.
  induction l as [|r l IH]; intros offset out; cbn [app select_recs]; [by rewrite Z.add_0_r|]. rewrite IH, zlen_cons. f_equal. lia.
Qed.

Lemma select_full select max l : forall offset out, max <= zlen out -> select_recs select max offset l out = out.
Proof.
  induction l as [|r l IH]; intros offset out L; cbn [select_recs]; [done|]. rewrite (proj2 (Z.ltb_ge (zlen out) max)) by done. rewrite andb_false_r. by apply IH.
Qed.

Lemma select_none select max l : forall offset out,
  (forall i r, l !! i = Some r -> wanted select (rc_ts r) (offset + Z.of_nat i) = false) -> select_recs select max offset l out = out.
Proof.
  induction l as [|r l IH]; intros offset out W; cbn [select_recs]; [done|]. pose proof (W 0%nat r eq_refl) as H0. rewrite Z.add_0_r in H0. rewrite H0. cbn [andb].
  apply IH. intros i x E. specialize (W (S i) x E). by replace (offset + 1 + Z.of_nat i) with (offset + Z.of_nat (S i)) by lia.
Qed.

Lemma timed_from l : forall prev i r, timed prev l -> l !! i = Some r -> prev <= rc_ts r <= last_time prev l.
Proof.
  induction l as [|x l IH]; intros prev i r T E; [done|]. destruct T as (Hx & _ & T). cbn [last_time]. destruct i as [|i].
  - injection E as ->. pose proof (last_time_ge _ _ T). lia.
  - specialize (IH (rc_ts x) i r T E). lia.
Qed.

(** The rows of a part, numbered. *)
Fixpoint numbered (offset : Z) (l : list Rec) : list Row :=
  match l with [] => [] | r :: l => (rc_ts r, offset, rc_body r) :: numbered (offset + 1) l end.

Lemma select_spec select max l : forall offset out, select_recs select max offset l out =
  out ++ take (Z.to_nat (max - zlen out)) (filter (λ x : Row, wanted select x.1.1 x.1.2 = true) (numbered offset l)).
Proof.
  induction l as [|r l IH]; intros offset out; cbn [select_recs numbered].
  - by rewrite filter_nil, take_nil, app_nil_r.
  - rewrite IH, filter_cons. cbn [fst snd]. destruct (wanted select (rc_ts r) offset); cbn [andb]; [rewrite decide_True by done|by rewrite decide_False].
    destruct (Z.ltb_spec (zlen out) max) as [L|L].
    + rewrite zlen_app, zlen_cons. change (zlen (@nil Row)) with 0. rewrite <- app_assoc. cbn [app].
      replace (Z.to_nat (max - zlen out)) with (S (Z.to_nat (max - (zlen out + (1 + 0))))) by lia. done.
    + replace (Z.to_nat (max - zlen out)) with 0%nat by lia. done.
Qed.

(** ** Many blocks read *)

Lemma read_rows_spec from max L bs : forall pre prev first rest out, blks_ok prev first bs -> in_range prev first (recs_of bs) ->
  Forall (readable L) (recs_of bs) ->
  read_rows p (pre ++ data_of prev first bs ++ rest) (rows_of (zlen pre) prev first bs) from max L out =
  Ok (select_recs (ByOffset from) max first (recs_of bs) out).
Proof.
  induction bs as [|b bs IH]; intros pre prev first rest out B R F; cbn [data_of rows_of read_rows]; [done|].
  destruct B as [B Bs]. rewrite recs_cons in *. apply Forall_app in F as [Fb F]. destruct R as (Hp & H0 & Hf). rewrite zlen_app in Hf. pose proof (zlen_nonneg (recs_of bs)).
  pose proof (zlen_nonneg (bl_recs b)). destruct (Z.leb_spec max (zlen out)) as [L'|L']; [by rewrite select_full|].
  assert (in_range prev first (bl_recs b)) as Rb by (split_and!; lia). rewrite <- app_assoc. rewrite (proj1 (block_read pre prev first b _ B Rb)). cbn [mbind outcome_bind].
  rewrite scan_block_read by done. cbn [mbind outcome_bind]. rewrite select_app, app_assoc, <- zlen_app. apply IH; [done| |done].
  split_and!; [|lia..]. destruct B as (_ & T & _). pose proof (last_time_ge _ _ T). lia.
Qed.

Lemma read_rows_by_time_spec from to max L bs : forall pre prev first rest out, blks_ok prev first bs -> in_range prev first (recs_of bs) ->
  Forall (readable L) (recs_of bs) ->
  read_rows_by_time p (pre ++ data_of prev first bs ++ rest) (rows_of (zlen pre) prev first bs) from to max L out =
  Ok (select_recs (ByTime from to) max first (recs_of bs) out).
Proof.
  induction bs as [|b bs IH]; intros pre prev first rest out B R F; cbn [data_of rows_of read_rows_by_time]; [done|].
  pose proof (blks_timed _ _ _ B) as Ta. destruct B as [B Bs]. rewrite recs_cons in *. pose proof F as F0. apply Forall_app in F as [Fb F]. destruct R as (Hp & H0 & Hf). rewrite zlen_app in Hf.
  pose proof (zlen_nonneg (recs_of bs)). pose proof (zlen_nonneg (bl_recs b)).
  destruct (Z.leb_spec max (zlen out)) as [L'|L']; cbn [orb]; [by rewrite select_full|]. cbn [blk_row r_first_ts].
  assert (forall t k, to < t -> timed t k -> forall offset out, select_recs (ByTime from to) max offset k out = out) as Late.
  { intros t k Ht Tk offset out'. apply select_none. intros i r E. pose proof (timed_from _ _ _ _ Tk E). cbn [wanted]. rewrite (proj2 (Z.leb_gt (rc_ts r) to)) by lia. by rewrite andb_false_r. }
  destruct (Z.ltb_spec to (first_time (bl_recs b))) as [Lt|Lt].
  { f_equal. symmetry. apply select_none. intros i r E.
    assert (first_time (bl_recs b) <= rc_ts r) as Hr.
    { destruct B as (N & _). destruct (bl_recs b) as [|x l]; [done|]. cbn [first_time app] in *. destruct Ta as (_ & _ & Tx). destruct i as [|i]; [by injection E as ->|].
      pose proof (timed_from _ _ _ _ Tx E). lia. }
    cbn [wanted]. rewrite (proj2 (Z.leb_gt (rc_ts r) to)) by lia. by rewrite andb_false_r. }
  assert (in_range prev first (bl_recs b)) as Rb by (split_and!; lia). rewrite <- app_assoc. rewrite (proj1 (block_read pre prev first b _ B Rb)). cbn [mbind outcome_bind].
  rewrite scan_block_read by done. cbn [mbind outcome_bind]. rewrite select_app. apply timed_app in Ta as [Tb Tt].
  destruct (Z.ltb_spec to (last_time prev (bl_recs b))) as [Lc|Lc]; [by rewrite (Late _ _ Lc Tt)|].
  rewrite app_assoc, <- zlen_app. apply IH; [done| |done]. split_and!; [|lia..]. pose proof (last_time_ge _ _ Tb). lia.
Qed.

(** Where a read starts: everything before it is answered by a row that passes. *)
Lemma rows_skipped (P : IndexRow -> bool) bs : forall off prev first, exists bs1 bs2, bs = bs1 ++ bs2 /\
  drop (Nat.pred (partition_point P (rows_of off prev first bs))) (rows_of off prev first bs) =
    rows_of (off + zlen (data_of prev first bs1)) (last_time prev (recs_of bs1)) (first + zlen (recs_of bs1)) bs2 /\
  (bs1 = [] \/ exists b bs3, bs2 = b :: bs3 /\ P (blk_row (off + zlen (data_of prev first bs1)) (last_time prev (recs_of bs1)) (first + zlen (recs_of bs1)) b) = true).
Proof.
  induction bs as [|b bs IH]; intros off prev first; [exists [], []; split; [done|]; split; [done|by left]|].
  cbn [rows_of partition_point]. destruct (P (blk_row off prev first b)) eqn:Pb; [|exists [], (b :: bs); cbn [data_of recs_of concat map last_time]; rewrite !Z.add_0_r; split; [done|]; split; [done|by left]].
  cbn [Nat.pred]. set (off' := off + zlen (blk_bytes prev first b)). set (prev' := last_time prev (bl_recs b)). set (first' := first + zlen (bl_recs b)).
  destruct (partition_point P (rows_of off' prev' first' bs)) as [|k] eqn:Ek.
  { exists [], (b :: bs). cbn [data_of recs_of concat map last_time drop rows_of]. rewrite !Z.add_0_r. split; [done|]. split; [done|by left]. }
  destruct (IH off' prev' first') as (bs1 & bs2 & -> & E & C). rewrite Ek in E. cbn [Nat.pred] in E. exists (b :: bs1), bs2. split; [done|]. cbn [drop]. rewrite E.
  cbn [data_of]. rewrite recs_cons, last_time_app, !zlen_app. fold prev' first'.
  replace (off + (zlen (blk_bytes prev first b) + zlen (data_of prev' first' bs1))) with (off' + zlen (data_of prev' first' bs1)) by (unfold off'; lia).
  replace (first + (zlen (bl_recs b) + zlen (recs_of bs1))) with (first' + zlen (recs_of bs1)) by (unfold first'; lia). split; [done|]. right.
  destruct C as [->|C]; [|done]. cbn [app] in Ek. destruct bs2 as [|b2 bs3]; [done|]. exists b2, bs3. split; [done|]. cbn [rows_of partition_point] in Ek.
  change (P (blk_row (off' + 0) prev' (first' + 0) b2) = true). rewrite !Z.add_0_r. by destruct (P (blk_row off' prev' first' b2)).
Qed.

(** A reader over blocks: the rows of its index are theirs. *)
Definition reads_blocks (r : PartReader) (pre : bytes) (prev first : Z) (bs : list Blk) : Prop := pr_rows r = rows_of (zlen pre) prev first bs.

Lemma part_read_from r pre prev first bs rest from max out : reads_blocks r pre prev first bs -> blks_ok prev first bs -> in_range prev first (recs_of bs) ->
  Forall (readable (pr_dict r)) (recs_of bs) ->
  read_from p r (pre ++ data_of prev first bs ++ rest) from max out = Ok (select_recs (ByOffset from) max first (recs_of bs) out).
Proof.
  intros Er B (Hp & H0 & Hf) F. unfold read_from. rewrite Er.
  destruct (rows_skipped (λ row, r_first_offset row <=? from) bs (zlen pre) prev first) as (bs1 & bs2 & -> & E & C). rewrite E. clear E.
  rewrite data_app, <- app_assoc, app_assoc, <- zlen_app. apply blks_app in B as [B1 B2]. rewrite recs_app in *. apply Forall_app in F as [_ F]. rewrite zlen_app in Hf.
  pose proof (zlen_nonneg (recs_of bs1)). pose proof (zlen_nonneg (recs_of bs2)). pose proof (last_time_ge _ _ (blks_timed _ _ _ B1)).
  rewrite read_rows_spec by (done || split_and!; lia). f_equal. rewrite select_app. f_equal. symmetry. apply select_none. intros i x Ex. cbn [wanted]. apply Z.leb_gt.
  apply lookup_lt_Some in Ex. destruct C as [->|(b & bs3 & -> & Pb)]; [simpl in Ex; lia|]. cbn [blk_row r_first_offset] in Pb. apply Z.leb_le in Pb. unfold zlen in *. lia.
Qed.

Lemma part_read_times r pre prev first bs rest from to max out : reads_blocks r pre prev first bs -> blks_ok prev first bs -> in_range prev first (recs_of bs) ->
  Forall (readable (pr_dict r)) (recs_of bs) ->
  part_read_by_time p r (pre ++ data_of prev first bs ++ rest) from to max out = Ok (select_recs (ByTime from to) max first (recs_of bs) out).
Proof.
  intros Er B (Hp & H0 & Hf) F. unfold part_read_by_time. rewrite Er.
  destruct (rows_skipped (λ row, r_first_ts row <? from) bs (zlen pre) prev first) as (bs1 & bs2 & -> & E & C). rewrite E. clear E.
  pose proof (blks_timed _ _ _ B) as Ta. rewrite recs_app in Ta. apply timed_app in Ta as [T1 T2].
  rewrite data_app, <- app_assoc, app_assoc, <- zlen_app. apply blks_app in B as [B1 B2]. rewrite recs_app in *. apply Forall_app in F as [_ F]. rewrite zlen_app in Hf.
  pose proof (zlen_nonneg (recs_of bs1)). pose proof (zlen_nonneg (recs_of bs2)). pose proof (last_time_ge _ _ T1).
  rewrite read_rows_by_time_spec by (done || split_and!; lia). f_equal. rewrite select_app. f_equal. symmetry. apply select_none. intros i x Ex. cbn [wanted].
  pose proof (timed_from _ _ _ _ T1 Ex) as Hx. destruct C as [->|(b & bs3 & -> & Pb)]; [done|]. cbn [blk_row r_first_ts] in Pb. apply Z.ltb_lt in Pb.
  destruct B2 as [(N & Tb & _) _]. destruct (bl_recs b) as [|y l] eqn:Eb; [done|]. cbn [first_time] in Pb. destruct Tb as (Hy & _).
  rewrite (proj2 (Z.leb_gt from (rc_ts x))) by lia. done.
Qed.
End Facts.
