(* ===== verification/SerWriter.v ===== *)
(** * The writer of a part (okm-series, [part.rs])

    [part_inv] says what a part under a writer holds: the blocks in its file, the rows
    of its index, the records of the block in memory, and the dictionary beside them.
    Every step of the writer keeps it, and a crash leaves a file it is restored from. *)
From S2P Require Import Prelude SerFormat SerDict SerDictFacts SerBody SerBodyFacts SerPart SerPartFacts.

(** ** The monad *)

Lemma pw_bind_ok {A B} (m : pw A) (f : A -> pw B) s s' b : (m ≫= f) s = (s', Ok b) -> exists s1 a, m s = (s1, Ok a) /\ f a s1 = (s', Ok b).
Proof. unfold mbind, pw_bind. destruct (m s) as [s1 [a|e|]]; [|done..]. by exists s1, a. Qed.

Lemma lift_ok {A} (r : sresult A) s s' a : lift r s = (s', Ok a) -> s' = s /\ r = Ok a.
Proof. intros [= <- ->]. done. Qed.

Lemma get_w_ok s s' w : get_w s = (s', Ok w) -> s' = s /\ w = s.1.
Proof. intros E. split; [by injection E|]. by injection E as _ <-. Qed.

Lemma modify_ok g s s' u : modify g s = (s', Ok u) -> s' = (g s.1, s.2).
Proof. intros E. symmetry. exact (f_equal fst E). Qed.

Lemma write_data_ok at_ b s s' u : write_data at_ b s = (s', Ok u) -> s' = (s.1, set_data s.2 (write_at (pf_data s.2) at_ b)).
Proof. intros E. symmetry. exact (f_equal fst E). Qed.

Lemma append_index_ok b s s' u : append_index b s = (s', Ok u) -> s' = (s.1, set_index s.2 (pf_index s.2 ++ b)).
Proof. intros E. symmetry. exact (f_equal fst E). Qed.

Lemma ok_or_ok {E A} (e : E) (o : option A) a : ok_or e o = Ok a -> o = Some a.
Proof. destruct o; [by intros [= ->]|done]. Qed.

Lemma add_w_small {E} p w a b : a + b < 2 ^ w -> add_w (E := E) p w a b = Ok (a + b).
Proof. intros L. unfold add_w. by rewrite (proj2 (Z.ltb_lt _ _)). Qed.

(** One step of a computation that ended well. *)
Ltac pw_step H s a E := apply pw_bind_ok in H as (s & a & E & H).

Ltac pw_simpl := cbn [set_data set_index set_dict_files pf_data pf_index pf_dict pf_sealed set_w_dict set_w_block set_base_ts start_block
  set_counters set_last_ts count_block next_block w_header w_block_bytes w_codec w_next_offset w_last_ts w_file_off w_block w_block_first_ts
  w_block_first_offset w_block_records w_records w_blocks w_digest w_dict fst snd h_first_offset] in *.

Section Writer.
Context `{SLL : SeriesLibLaws}.
Variable p : profile.

(** ** What a part holds *)

(** The time of the last record. *)
Definition last_of (l : list Rec) : option Z := match l with [] => None | _ => Some (last_time 0 l) end.

Lemma last_of_snoc l r : last_of (l ++ [r]) = Some (rc_ts r).
Proof. assert (last_time 0 (l ++ [r]) = rc_ts r) as <- by by rewrite last_time_app. by destruct l. Qed.


Definition dict_state (d : option Dict) (f : option DictFiles) (closed : list Block) : Prop :=
  match d, f with
  | Some d, Some f => exists o, dict_inv d f closed o
  | None, Some f => exists off, in_file f off closed /\ Forall valid_block closed
  | None, None => closed = []
  | Some _, None => False
  end.

Definition settler (w : PartWriter) (f : PartFiles) : Settler :=
  match w_dict w, pf_dict f with Some d, Some df => Some (d, df) | _, _ => None end.

Definition has_dict (f : PartFiles) : bool := match pf_dict f with Some _ => true | None => false end.

(** A reader's dictionary, if there is a file for it, has the closed blocks. *)
Definition has_closed (k : bool) (closed : list Block) (L : option Dict) : Prop :=
  match L with Some l => k = true /\ closed `prefix_of` d_blocks l | None => k = false end.

Definition reads_closed (k : bool) (closed : list Block) (r : Rec) : Prop := forall L, has_closed k closed L -> readable p L r.

Definition reads_open (s : Settler) (r : Rec) : Prop := forall L, settler_covers s L -> readable p L r.

Record part_inv (w : PartWriter) (f : PartFiles) (h : PartHeader) (closed : list Block) (bs : list Blk) (pend : list Rec) : Prop := {
  pi_data : pf_data f = PartHeader_encode h ++ data_of 0 (h_first_offset h) bs;
  pi_index : pf_index f = rebuild_index (rows_of PART_HEADER_LEN 0 (h_first_offset h) bs);
  pi_sealed : pf_sealed f = false;
  pi_dict : dict_state (w_dict w) (pf_dict f) closed;
  pi_header : PartHeader_ok h /\ h_first_offset (w_header w) = h_first_offset h;
  pi_off : w_file_off w = zlen (pf_data f);
  pi_block : w_block w = raw_of (last_time 0 (recs_of bs)) pend;
  pi_next : w_next_offset w = h_first_offset h + zlen (recs_of bs ++ pend);
  pi_counts : w_block_records w = zlen pend /\ w_records w = zlen (recs_of bs) /\ w_blocks w = zlen bs;
  pi_first : pend <> [] -> w_block_first_ts w = first_time pend /\ w_block_first_offset w = h_first_offset h + zlen (recs_of bs);
  pi_last : w_last_ts w = last_of (recs_of bs ++ pend);
  pi_digest : w_digest w = raw_of 0 (recs_of bs);
  pi_blocks : blks_ok 0 (h_first_offset h) bs;
  pi_rows : Forall IndexRow_ok (rows_of PART_HEADER_LEN 0 (h_first_offset h) bs);
  pi_timed : timed 0 (recs_of bs ++ pend);
  pi_room : h_first_offset h + zlen (recs_of bs ++ pend) < 2 ^ 64;
  pi_read : Forall (reads_closed (has_dict f) closed) (recs_of bs);
  pi_pending : Forall (reads_open (settler w f)) pend
}.

Lemma reads_closed_grows k closed closed' l : closed `prefix_of` closed' -> Forall (reads_closed k closed) l -> Forall (reads_closed k closed') l.
Proof.
  intros P F. eapply Forall_impl; [exact F|]. intros r R L C. apply R. destruct L as [L|]; [|done]. destruct C as [-> C]. split; [done|by etrans].
Qed.

Lemma reads_open_grows s s' l : settler_grows s s' -> Forall (reads_open s) l -> Forall (reads_open s') l.
Proof. intros G F. eapply Forall_impl; [exact F|]. intros r R L C. apply R. by eapply settler_covers_grows. Qed.

Lemma PartWriter_create_inv h block_bytes codec config : PartHeader_ok h ->
  let '(w, f) := PartWriter_create h block_bytes codec config in part_inv w f h [] [] [].
Proof.
  intros Hh. unfold PartWriter_create. split; pw_simpl; try done.
  - destruct config as [c|]; cbn; [exists (fresh_block 2); apply create_inv|done].
  - change (zlen (recs_of [] ++ [])) with 0. lia.
  - destruct Hh as (_ & _ & H3 & _). unfold u64 in H3. change (256 ^ Z.of_nat 8) with (2 ^ 64) in H3. change (zlen (recs_of [] ++ [])) with 0. lia.
Qed.

(** ** The dictionary moves *)

Lemma part_inv_dict w f h closed bs pend d df closed' : part_inv w f h closed bs pend -> closed `prefix_of` closed' -> dict_state d df closed' ->
  settler_grows (settler w f) (settler (set_w_dict w d) (set_dict_files f df)) -> has_dict (set_dict_files f df) = has_dict f ->
  part_inv (set_w_dict w d) (set_dict_files f df) h closed' bs pend.
Proof.
  intros I P D G E. split; pw_simpl; try apply I; [done| |].
  - rewrite E. eapply reads_closed_grows; [exact P|apply I].
  - eapply reads_open_grows; [exact G|apply I].
Qed.

(** Nothing is open: the closed blocks are enough for a reader. *)
Lemma reads_open_closed d f closed o l : dict_inv d f closed o -> k_entries o = [] -> Forall (reads_open (Some (d, f))) l -> Forall (reads_closed true closed) l.
Proof.
  intros I E F. eapply Forall_impl; [exact F|]. intros r R L C. apply R. destruct L as [L|]; [|done]. destruct C as [_ C].
  exists L. split; [done|]. by eapply closed_covers.
Qed.

Lemma dict_grows_closed d f closed o d' f' closed' o' : dict_inv d f closed o -> dict_inv d' f' closed' o' -> grows d d' -> closed `prefix_of` closed'.
Proof. intros I I' [_ P]. by rewrite (closed_take _ _ _ _ I), (closed_take _ _ _ _ I') in P. Qed.

(** The dictionary goes to disk before the block that names its strings. *)
Lemma dict_flushed w f h closed bs pend w1 f1 : part_inv w f h closed bs pend -> settler_fits (settler w f) ->
  with_dict tt flush_if_dirty (w, f) = ((w1, f1), Ok tt) ->
  exists closed1 d df, w1 = set_w_dict w d /\ f1 = set_dict_files f df /\ part_inv w1 f1 h closed1 bs pend /\ Forall (reads_closed (has_dict f1) closed1) pend.
Proof.
  intros I Fit. unfold with_dict. pw_simpl. pose proof (pi_dict _ _ _ _ _ _ I) as D. pose proof (pi_pending _ _ _ _ _ _ I) as R. unfold settler in *.
  destruct (w_dict w) as [d|] eqn:Ed.
  - destruct (pf_dict f) as [df|] eqn:Ef; [|done]. destruct D as (o & D). destruct (flush_if_dirty d df) as [[d1 df1] r] eqn:E. intros E'. injection E' as <- <- ->.
    destruct (flush_if_dirty_ok _ _ _ _ (ex_intro _ _ (ex_intro _ _ D)) Fit E) as (G & closed1 & o1 & D1 & Eo).
    assert (closed `prefix_of` closed1) as P by by eapply dict_grows_closed.
    assert (part_inv (set_w_dict w (Some d1)) (set_dict_files f (Some df1)) h closed1 bs pend) as I1.
    { apply (part_inv_dict _ _ _ closed); [done|done|by exists o1| |by unfold has_dict; rewrite Ef]. unfold settler. pw_simpl. by rewrite Ed, Ef. }
    exists closed1, (Some d1), (Some df1). split; [done|]. split; [done|]. split; [done|]. change (has_dict (set_dict_files f (Some df1))) with true.
    eapply reads_open_closed; [exact D1|done|]. apply (pi_pending _ _ _ _ _ _ I1).
  - intros E. injection E as <- <-. exists closed, None, (pf_dict f). assert (w = set_w_dict w None) as <- by (rewrite <- Ed; by destruct w).
    assert (f = set_dict_files f (pf_dict f)) as <- by by destruct f. split; [done|]. split; [done|]. split; [done|].
    eapply Forall_impl; [exact R|]. intros r Rr L _. by apply Rr.
Qed.

(** ** A block written *)

Lemma block_payload_ok codec raw c payload h : raw <> [] -> block_payload codec raw = Ok (c, payload) -> b_codec h = c -> b_len_u h = zlen raw ->
  decode_payload payload h = Ok raw /\ 0 < zlen payload.
Proof.
  assert (forall b : bytes, b <> [] -> 0 < zlen b) as Pos by (intros [|x b] ?; [done|rewrite zlen_cons; pose proof (zlen_nonneg b); lia]).
  intros N. unfold block_payload, decode_payload. destruct codec.
  - intros [= <- <-] -> _. by auto.
  - destruct (zstd_compress raw) as [z|] eqn:Ez; [|done]. cbn [ok_or mbind outcome_bind]. destruct (zlen z <? zlen raw); intros [= <- <-] -> Eu; [|by auto].
    rewrite Eu, (zstd_roundtrip _ _ Ez). split; [done|]. apply Pos. by eapply zstd_frame.
Qed.

Lemma as_u32_ok v n : as_u32 v = Ok n -> n = v /\ v < 2 ^ 32.
Proof. unfold as_u32. destruct (Z.ltb_spec v (2 ^ 32)); [|done]. by intros [= ->]. Qed.

Lemma row_of_header b off row : IndexRow_from_header b off = Some row ->
  off < 2 ^ 32 /\ row = mkIndexRow (b_first_ts b) (b_first_offset b) off (b_len_c b) (b_len_u b) (b_records b).
Proof. unfold IndexRow_from_header. destruct (Z.ltb_spec off (2 ^ 32)); [|done]. by intros [= <-]. Qed.

Lemma data_blocks bs : forall prev first, 40 * zlen bs <= zlen (data_of prev first bs).
Proof.
  induction bs as [|b bs IH]; intros prev first; [done|]. cbn [data_of]. rewrite zlen_cons, zlen_app, blk_zlen. specialize (IH (last_time prev (bl_recs b)) (first + zlen (bl_recs b))).
  pose proof (zlen_nonneg b.1.2). unfold BLOCK_HEADER_LEN. lia.
Qed.

Lemma blk_row_ok off prev first b : 0 <= prev -> blk_ok prev first b -> 0 <= first < 2 ^ 64 -> 0 <= off < 2 ^ 32 -> IndexRow_ok (blk_row off prev first b).
Proof.
  intros Hp B Hf Ho. destruct (blk_header_ok prev first b Hp B Hf) as (R1 & R2 & R3 & R4 & R5). unfold IndexRow_ok. cbn [blk_row blk_header] in *.
  unfold u32 at 1. change (256 ^ Z.of_nat 4) with (2 ^ 32). done.
Qed.

(** A block that fits, behind the others. *)
Lemma part_inv_block w f h closed bs b : part_inv w f h closed bs (bl_recs b) -> Forall (reads_closed (has_dict f) closed) (bl_recs b) ->
  blk_ok (last_time 0 (recs_of bs)) (h_first_offset h + zlen (recs_of bs)) b -> w_file_off w < 2 ^ 32 ->
  part_inv
    (next_block (count_block (set_w_block w []) (w_records w + zlen (bl_recs b)) (w_blocks w + 1) (w_block w)) (w_file_off w + zlen (blk_bytes (last_time 0 (recs_of bs)) (h_first_offset h + zlen (recs_of bs)) b)))
    (set_index (set_data f (pf_data f ++ blk_bytes (last_time 0 (recs_of bs)) (h_first_offset h + zlen (recs_of bs)) b))
       (pf_index f ++ IndexRow_encode (blk_row (w_file_off w) (last_time 0 (recs_of bs)) (h_first_offset h + zlen (recs_of bs)) b)))
    h closed (bs ++ [b]) [].
Proof.
  intros I Fr B Lo. set (prev := last_time 0 (recs_of bs)) in *. set (first := h_first_offset h) in *.
  destruct (pi_counts _ _ _ _ _ _ I) as (Ec1 & Ec2 & Ec3). pose proof (pi_timed _ _ _ _ _ _ I) as T. pose proof (pi_room _ _ _ _ _ _ I) as Room. fold first in Room.
  destruct (pi_header _ _ _ _ _ _ I) as [(_ & _ & Hh & _) _]. unfold u64 in Hh. change (256 ^ Z.of_nat 8) with (2 ^ 64) in Hh. fold first in Hh.
  pose proof (recs_snoc bs b) as Er.
  pose proof (pi_off _ _ _ _ _ _ I) as Eo. pose proof (pi_data _ _ _ _ _ _ I) as Ed. fold first in Ed. pose proof (zlen_nonneg (recs_of bs)). pose proof (zlen_nonneg (bl_recs b)).
  assert (w_file_off w = PART_HEADER_LEN + zlen (data_of 0 first bs)) as Ew by by rewrite Eo, Ed, zlen_app, PartHeader_zlen.
  split; pw_simpl; rewrite ?Er, ?app_nil_r; try (apply I || done).
  - rewrite Ed, data_app. cbn [data_of]. fold prev. fold first. by rewrite app_nil_r, app_assoc.
  - rewrite rows_app. cbn [rows_of]. fold prev first. rewrite <- Ew. rewrite (pi_index _ _ _ _ _ _ I). unfold rebuild_index. fold first.
    rewrite map_app, concat_app, app_assoc. cbn [map concat]. by rewrite app_nil_r.
  - by rewrite Eo, zlen_app.
  - split_and!; [done|by rewrite Ec2, zlen_app|]. rewrite Ec3, zlen_app, zlen_cons. change (zlen (@nil Blk)) with 0. lia.
  - rewrite (pi_digest _ _ _ _ _ _ I), (pi_block _ _ _ _ _ _ I), raw_app. done.
  - apply blks_app. split; [apply I|]. cbn [blks_ok]. fold prev first. done.
  - rewrite rows_app, Forall_app. split; [apply I|]. cbn [rows_of]. fold prev first. rewrite <- Ew. apply Forall_singleton. apply blk_row_ok; [|done| |].
    + apply timed_app in T as [T _]. by apply last_time_ge in T.
    + rewrite zlen_app in Room. lia.
    + rewrite Eo. pose proof (zlen_nonneg (pf_data f)). lia.
  - apply Forall_app. split; [apply (pi_read _ _ _ _ _ _ I)|done].
Qed.

Lemma put_block_inv w f h closed bs pend w' f' : part_inv w f h closed bs pend -> pend <> [] -> Forall (reads_closed (has_dict f) closed) pend ->
  put_block p (w, f) = ((w', f'), Ok tt) ->
  exists b, bl_recs b = pend /\ part_inv w' f' h closed (bs ++ [b]) [] /\ w_dict w' = w_dict w /\ pf_dict f' = pf_dict f.
Proof.
  intros I N Fr E. unfold put_block in E. pw_step E s0 w0 E0. apply get_w_ok in E0 as [-> ->]. pw_step E s1 u E1. apply modify_ok in E1 as ->.
  pw_step E s2 cp E2. apply lift_ok in E2 as [-> E2]. destruct cp as [codec payload]. pw_step E s3 lc E3. apply lift_ok in E3 as [-> [-> Lc]%as_u32_ok].
  pw_step E s4 lu E4. apply lift_ok in E4 as [-> [-> Lu]%as_u32_ok]. cbv zeta in E. pw_step E s5 u5 E5. apply write_data_ok in E5 as ->.
  pw_step E s6 recs E6. apply lift_ok in E6 as [-> E6]. pw_step E s7 blocks E7. apply lift_ok in E7 as [-> E7]. pw_step E s8 u8 E8. apply modify_ok in E8 as ->.
  pw_step E s9 row E9. apply lift_ok in E9 as [-> E9%ok_or_ok]. apply row_of_header in E9 as [Lo ->]. pw_step E s10 u10 E10. apply append_index_ok in E10 as ->.
  apply modify_ok in E. apply pair_eq in E as [-> ->]. pw_simpl. cbn [b_first_ts b_first_offset b_len_c b_len_u b_records] in *.
  destruct (pi_first _ _ _ _ _ _ I N) as [Ets Eoff]. destruct (pi_counts _ _ _ _ _ _ I) as (Ec1 & Ec2 & Ec3). pose proof (pi_block _ _ _ _ _ _ I) as Eb.
  pose proof (pi_off _ _ _ _ _ _ I) as Eo. pose proof (pi_data _ _ _ _ _ _ I) as Ed. set (first := h_first_offset h) in *. set (prev := last_time 0 (recs_of bs)) in *.
  exists (codec, payload, pend). split; [done|]. split; [|done]. rewrite Ets, Eoff, Ec1, Eb in *.
  pose proof (pi_room _ _ _ _ _ _ I) as Room. fold first in Room. rewrite zlen_app in Room. destruct (pi_header _ _ _ _ _ _ I) as [(_ & _ & [Hh _] & _) _]. fold first in Hh.
  assert (blk_ok prev (first + zlen (recs_of bs)) (codec, payload, pend)) as B.
  { assert (raw_of prev pend <> []) as Nr by (intros E; pose proof (raw_len pend prev); rewrite E in *; destruct pend; [done|]; rewrite zlen_cons in *; pose proof (zlen_nonneg pend); change (zlen (@nil Z)) with 0 in *; lia).
    destruct (block_payload_ok _ _ _ _ (blk_header prev (first + zlen (recs_of bs)) (codec, payload, pend)) Nr E2 eq_refl eq_refl) as [Ep Lp].
    pose proof (pi_timed _ _ _ _ _ _ I) as T. apply timed_app in T as [_ T]. by split_and!. }
  rewrite add_w_small in E6 by lia. injection E6 as <-. pose proof (data_blocks bs 0 first) as Ln.
  rewrite add_w_small in E7 by (rewrite Eo, Ed, zlen_app, PartHeader_zlen in Lo; unfold PART_HEADER_LEN in Lo; lia). injection E7 as <-.
  pose proof (part_inv_block w f h closed bs (codec, payload, pend) I Fr B Lo) as I'. fold prev first in I'. rewrite blk_zlen in I'. rewrite Eo, write_at_end.
  rewrite Eo, Eb in I'. cbn [fst snd] in I'. rewrite Z.add_assoc in I'. exact I'.
Qed.

Lemma put_block_dict w f w' f' : put_block p (w, f) = ((w', f'), Ok tt) -> w_dict w' = w_dict w /\ pf_dict f' = pf_dict f.
Proof.
  intros E. unfold put_block in E. pw_step E s0 w0 E0. apply get_w_ok in E0 as [-> ->]. pw_step E s1 u E1. apply modify_ok in E1 as ->.
  pw_step E s2 cp E2. apply lift_ok in E2 as [-> _]. destruct cp as [codec payload]. pw_step E s3 lc E3. apply lift_ok in E3 as [-> _].
  pw_step E s4 lu E4. apply lift_ok in E4 as [-> _]. cbv zeta in E. pw_step E s5 u5 E5. apply write_data_ok in E5 as ->.
  pw_step E s6 recs E6. apply lift_ok in E6 as [-> _]. pw_step E s7 blocks E7. apply lift_ok in E7 as [-> _]. pw_step E s8 u8 E8. apply modify_ok in E8 as ->.
  pw_step E s9 row E9. apply lift_ok in E9 as [-> _]. pw_step E s10 u10 E10. apply append_index_ok in E10 as ->. apply modify_ok in E. by apply pair_eq in E as [-> ->].
Qed.

Lemma flush_block_grows w f w' f' : flush_block p (w, f) = ((w', f'), Ok tt) -> settler_grows (settler w f) (settler w' f').
Proof.
  intros E. unfold flush_block in E. pw_step E s0 w0 E0. apply get_w_ok in E0 as [-> ->]. cbn [fst] in E. destruct (_ =? _); [injection E as <- <-; apply settler_grows_refl|].
  pw_step E s1 u E1. destruct u, s1 as [w1 f1]. apply put_block_dict in E as [Ew Ef]. unfold settler. rewrite Ew, Ef. unfold with_dict in E1. pw_simpl.
  destruct (w_dict w) as [d|] eqn:Ed; [|by injection E1 as <- <-; rewrite Ed]. destruct (pf_dict f) as [df|] eqn:Edf; [|by injection E1 as <- <-; rewrite Ed, Edf].
  destruct (flush_if_dirty d df) as [[d1 df1] r] eqn:Eq. injection E1 as <- <- ->. pw_simpl. by eapply flush_if_dirty_grows.
Qed.

Lemma flush_block_inv w f h closed bs pend w' f' : part_inv w f h closed bs pend -> settler_fits (settler w f) -> flush_block p (w, f) = ((w', f'), Ok tt) ->
  exists closed' bs', part_inv w' f' h closed' bs' [] /\ recs_of bs' = recs_of bs ++ pend /\ bs `prefix_of` bs'.
Proof.
  intros I Fit E. unfold flush_block in E. pw_step E s0 w0 E0. apply get_w_ok in E0 as [-> ->]. cbn [fst] in E. destruct (pi_counts _ _ _ _ _ _ I) as (Ec & _).
  rewrite Ec in E. destruct (Z.eqb_spec (zlen pend) 0) as [N|N].
  - injection E as <- <-. destruct pend as [|r pend]; [|rewrite zlen_cons in N; pose proof (zlen_nonneg pend); lia]. exists closed, bs. by rewrite app_nil_r.
  - pw_step E s1 u E1. destruct u, s1 as [w1 f1]. destruct (dict_flushed _ _ _ _ _ _ _ _ I Fit E1) as (closed1 & d & df & -> & -> & I1 & Fr).
    assert (pend <> []) as Np by by intros ->. destruct (put_block_inv _ _ _ _ _ _ _ _ I1 Np Fr E) as (b & Eb & I' & _). exists closed1, (bs ++ [b]).
    split; [done|]. split; [|by eexists]. by rewrite recs_snoc, <- Eb.
Qed.

(** ** A record added *)

Lemma encode_body_inv w f h closed bs pend body w1 f1 enc : part_inv w f h closed bs pend -> body_ok body -> encode_body p body (w, f) = ((w1, f1), Ok enc) ->
  settler_fits (settler w1 f1) -> exists closed1 d df, w1 = set_w_dict w d /\ f1 = set_dict_files f df /\ part_inv w1 f1 h closed1 bs pend /\
    settler_grows (settler w f) (settler w1 f1) /\ forall ts, reads_open (settler w1 f1) (ts, enc, body).
Proof.
  intros I Hb E Fit. pose proof (pi_dict _ _ _ _ _ _ I) as D. unfold encode_body in E. pw_simpl. unfold settler in *.
  destruct (w_dict w) as [d|] eqn:Ed.
  - destruct (pf_dict f) as [df|] eqn:Ef; [|done]. destruct D as (o & D). destruct (encode_with p (Some (d, df)) body) as [s r] eqn:Eq.
    pose proof (encode_with_grows _ _ _ _ _ Eq) as G. destruct s as [[d1 df1]|]; [|done]. injection E as <- <- ->. pw_simpl.
    destruct (body_decodes p (Some (d, df)) body (Some (d1, df1)) enc None) as [(closed1 & o1 & D1) _]; [by exists closed, o|done..|].
    exists closed1, (Some d1), (Some df1). split; [done|]. split; [done|]. split; [|split; [done|]].
    + apply (part_inv_dict _ _ _ closed); [done|by eapply dict_grows_closed|by exists o1| |by unfold has_dict; rewrite Ef]. unfold settler. pw_simpl. by rewrite Ed, Ef.
    + intros ts L C. by apply (body_decodes p (Some (d, df)) body (Some (d1, df1)) enc L); [exists closed, o|..].
  - destruct (encode_with p None body) as [s r] eqn:Eq. pose proof (encode_with_grows _ _ _ _ _ Eq) as G. destruct s as [[d1 df1]|]; [done|].
    cbn [snd] in E. injection E as <- <- ->. rewrite Ed. exists closed, None, (pf_dict f). assert (w = set_w_dict w None) as <- by (rewrite <- Ed; by destruct w).
    assert (f = set_dict_files f (pf_dict f)) as <- by by destruct f. split_and!; [done..|]. intros ts L C. by apply (body_decodes p None body None enc L).
Qed.

(** The time a record follows. *)
Lemma delta_of_inv w f h closed bs pend ts w1 f1 delta : part_inv w f h closed bs pend -> 0 <= ts -> delta_of ts (w, f) = ((w1, f1), Ok delta) ->
  f1 = f /\ part_inv w1 f h closed bs pend /\ settler w1 f = settler w f /\ w_block_bytes w1 = w_block_bytes w /\
  delta = ts - last_time 0 (recs_of bs ++ pend) /\ last_time 0 (recs_of bs ++ pend) <= ts.
Proof.
  intros I Ht E. unfold delta_of in E. pw_step E s0 w0 E0. apply get_w_ok in E0 as [-> ->]. cbn [fst] in E. pose proof (pi_last _ _ _ _ _ _ I) as El. rewrite El in E.
  destruct (recs_of bs ++ pend) as [|r l] eqn:Er.
  - pw_step E s1 u E1. apply modify_ok in E1 as ->. pw_simpl. apply pair_eq in E as [E [= <-]]. apply pair_eq in E as [<- <-]. split; [done|].
    destruct (_ && _); (split; [|split_and!; try done; cbn [last_time]; lia]); [|done]. split; pw_simpl; apply I.
  - cbn [last_of] in E. destruct (Z.ltb_spec ts (last_time 0 (r :: l))) as [L|L]; [done|]. by injection E as <- <- <-.
Qed.

Lemma delta_of_same w f ts w1 f1 delta : delta_of ts (w, f) = ((w1, f1), Ok delta) -> f1 = f /\ settler w1 f1 = settler w f.
Proof.
  intros E. unfold delta_of in E. pw_step E s0 w0 E0. apply get_w_ok in E0 as [-> ->]. cbn [fst] in E. destruct (w_last_ts w) as [last|].
  - destruct (ts <? last); [done|]. by injection E as <- <- _.
  - pw_step E s1 u E1. apply modify_ok in E1 as ->. pw_simpl. apply pair_eq in E as [E _]. apply pair_eq in E as [<- <-]. by destruct (_ && _).
Qed.

(** The writer with one more record in memory. *)
Definition with_record (w : PartWriter) (ts delta : Z) (enc : bytes) : PartWriter :=
  let w := match w_block w with [] => start_block w ts | _ => w end in
  set_last_ts (set_counters (set_w_block w (w_block w ++ record_bytes delta enc)) (w_next_offset w + 1) (w_block_records w + 1)) (Some ts).

Lemma part_inv_record w f h closed bs pend ts enc body : part_inv w f h closed bs pend ->
  last_time 0 (recs_of bs ++ pend) <= ts < 2 ^ 64 -> record_fits (ts - last_time 0 (recs_of bs ++ pend)) enc ->
  h_first_offset h + zlen (recs_of bs ++ pend) + 1 < 2 ^ 64 -> reads_open (settler w f) (ts, enc, body) ->
  part_inv (with_record w ts (ts - last_time 0 (recs_of bs ++ pend)) enc) f h closed bs (pend ++ [(ts, enc, body)]).
Proof.
  intros I Ht Fit Room R. destruct (pi_counts _ _ _ _ _ _ I) as (Ec1 & Ec2 & Ec3). pose proof (pi_block _ _ _ _ _ _ I) as Eb. pose proof (pi_next _ _ _ _ _ _ I) as En.
  assert (last_time (last_time 0 (recs_of bs)) pend = last_time 0 (recs_of bs ++ pend)) as Et by by rewrite last_time_app.
  assert (w_block w = [] <-> pend = []) as Ep.
  { split; [|by intros ->]. rewrite Eb. intros E. pose proof (raw_len pend (last_time 0 (recs_of bs))) as L. rewrite E in L. destruct pend; [done|].
    rewrite zlen_cons in L. pose proof (zlen_nonneg pend). change (zlen (@nil Z)) with 0 in L. lia. }
  assert (exists w0, w0 = match w_block w with [] => start_block w ts | _ => w end /\ part_inv w0 f h closed bs pend /\
    w_block_first_ts w0 = first_time (pend ++ [(ts, enc, body)]) /\ w_block_first_offset w0 = h_first_offset h + zlen (recs_of bs) /\ settler w0 f = settler w f) as (w0 & E0 & I0 & Ets & Eoff & Es).
  { eexists. split; [reflexivity|]. destruct (w_block w) as [|x y] eqn:Ew.
    - assert (pend = []) as -> by by apply Ep. rewrite app_nil_r in En. split_and!; [|done..]. split; pw_simpl; try apply I. done.
    - assert (pend <> []) as N by (intros N; by apply Ep in N). destruct (pi_first _ _ _ _ _ _ I N) as [-> ->]. split_and!; try done. by destruct pend. }
  unfold with_record. rewrite <- E0. clear E0 I En Eb Ec1 Ec2 Ec3 Ep. destruct (pi_counts _ _ _ _ _ _ I0) as (Ec1 & Ec2 & Ec3).
  split; pw_simpl; rewrite ?app_assoc; try apply I0.
  - rewrite raw_snoc, (pi_block _ _ _ _ _ _ I0), Et. done.
  - rewrite (pi_next _ _ _ _ _ _ I0). zlia.
  - split_and!; [rewrite Ec1; zlia|done..].
  - done.
  - by rewrite last_of_snoc.
  - apply timed_app. split; [apply I0|]. cbn [timed rc_ts rc_enc fst snd]. split_and!; [lia|lia|done|done].
  - zlia.
  - apply Forall_app. split; [apply I0|]. apply Forall_singleton. rewrite <- Es in R. exact R.
Qed.

Lemma append_inv w f h closed bs pend ts body w' f' off : part_inv w f h closed bs pend -> 0 <= ts < 2 ^ 64 -> body_ok body ->
  h_first_offset h + zlen (recs_of bs ++ pend) + 1 < 2 ^ 64 -> zlen pend + 1 < 2 ^ 32 ->
  append p ts body (w, f) = ((w', f'), Ok off) -> settler_fits (settler w' f') ->
  off = h_first_offset h + zlen (recs_of bs ++ pend) /\ exists closed' bs' pend' enc, part_inv w' f' h closed' bs' pend' /\
    recs_of bs' ++ pend' = (recs_of bs ++ pend) ++ [(ts, enc, body)] /\ bs `prefix_of` bs'.
Proof.
  intros I Ht Hb Room Rp E Fit. unfold append in E. pw_step E s0 enc E0. destruct s0 as [w0 f0]. pw_step E s1 delta E1. destruct s1 as [w1 f1].
  pw_step E s2 u2 E2. apply modify_ok in E2 as ->. pw_step E s3 w3 E3. apply get_w_ok in E3 as [-> ->]. pw_step E s4 blk E4. apply lift_ok in E4 as [-> E4%ok_or_ok].
  cbn [fst snd] in E, E4. set (w2 := match w_block w1 with [] => _ | _ => _ end) in *. pw_step E s5 u5 E5. apply modify_ok in E5 as ->. pw_step E s6 next E6. apply lift_ok in E6 as [-> E6].
  pw_step E s7 count E7. apply lift_ok in E7 as [-> E7]. pw_step E s8 u8 E8. apply modify_ok in E8 as ->. cbn [fst snd] in E. pw_step E s9 u9 E9. destruct u9.
  injection E as -> <-. set (w3 := set_last_ts _ _) in E9.
  assert (settler_grows (settler w3 f1) (settler w' f')) as G.
  { destruct (_ <=? _); [by eapply flush_block_grows|injection E9 as <- <-; apply settler_grows_refl]. }
  assert (settler w3 f1 = settler w1 f1) as Es by (unfold w3, w2; by destruct (w_block w1)).
  pose proof (settler_fits_grows _ _ G Fit) as Fit1. rewrite Es in Fit1.
  destruct (delta_of_same _ _ _ _ _ _ E1) as [-> Es0]. rewrite Es0 in Fit1.
  destruct (encode_body_inv _ _ _ _ _ _ _ _ _ _ I Hb E0 Fit1) as (closed1 & d & df & Ew0 & Ef0 & I1 & _ & R). rewrite <- Es0 in R.
  destruct (delta_of_inv _ _ _ _ _ _ _ _ _ _ I1 (proj1 Ht) E1) as (_ & I2 & _ & _ & Ed & Ll). pose proof (pi_timed _ _ _ _ _ _ I) as T. apply last_time_ge in T.
  apply put_record_ok in E4 as [Fr Eb]; [|unfold u64; change (256 ^ Z.of_nat 8) with (2 ^ 64); lia].
  assert (w_next_offset w2 = w_next_offset w1 /\ w_block_records w2 = w_block_records w1 /\ w_block w2 = w_block w1) as (En & Ec & Ew) by (unfold w2; destruct (w_block w1) eqn:Ew1; by rewrite ?Ew1).
  rewrite En, (pi_next _ _ _ _ _ _ I2) in *. destruct (pi_counts _ _ _ _ _ _ I2) as (Ec2 & _). rewrite Ec, Ec2 in E7.
  rewrite add_w_small in E6, E7 by lia. injection E6 as <-. injection E7 as <-. split; [done|].
  assert (part_inv w3 f0 h closed1 bs (pend ++ [(ts, enc, body)])) as I3.
  { pose proof (part_inv_record w1 f0 h closed1 bs pend ts enc body I2 (conj Ll (proj2 Ht)) ltac:(by rewrite <- Ed) Room (R ts)) as I3.
    unfold with_record in I3. fold w2 in I3. cbv zeta in I3. rewrite <- Ed, <- Eb, En, Ec, Ec2 in I3. exact I3. }
  destruct (_ <=? _).
  - destruct (flush_block_inv _ _ _ _ _ _ _ _ I3 ltac:(by rewrite Es, Es0) E9) as (closed' & bs' & I' & Er & P). exists closed', bs', [], enc. by rewrite app_nil_r, Er, app_assoc.
  - injection E9 as <- <-. exists closed1, bs, (pend ++ [(ts, enc, body)]), enc. by rewrite app_assoc.
Qed.

(** C35: a record older than the part's last one is refused, with both times in the error.
    Nothing of the part moves but its dictionary: the data file, the index, the counters, the
    last time and the records in memory are what they were, and the part still holds exactly
    those records.  The refused record's strings have been through the dictionary all the
    same: it keeps every entry it had, and may have counted, gained and written others.  A
    part without a dictionary is unchanged.  The dictionary is within its limits: at most 240
    blocks, none too large for its codes. *)
Theorem append_refuses w f h closed bs pend ts body w1 f1 enc last : part_inv w f h closed bs pend -> body_ok body ->
  encode_body p body (w, f) = ((w1, f1), Ok enc) -> settler_fits (settler w1 f1) -> last_of (recs_of bs ++ pend) = Some last -> ts < last ->
  append p ts body (w, f) = ((w1, f1), Err (TimeBackwards last ts)) /\
  w1 = set_w_dict w (w_dict w1) /\ f1 = set_dict_files f (pf_dict f1) /\ settler_grows (settler w f) (settler w1 f1) /\
  (w_dict w = None -> w1 = w /\ f1 = f) /\ exists closed', part_inv w1 f1 h closed' bs pend.
Proof.
  intros I Hb E Fit El Lt. destruct (encode_body_inv _ _ _ _ _ _ _ _ _ _ I Hb E Fit) as (closed1 & d & df & Ew & Ef & I1 & G & _). split_and!.
  - unfold append. unfold mbind at 1, pw_bind at 1. rewrite E. unfold mbind at 1, pw_bind at 1. unfold delta_of, get_w. unfold mbind at 1, pw_bind at 1. cbn [fst].
    rewrite (pi_last _ _ _ _ _ _ I1), El. cbn beta iota. by rewrite (proj2 (Z.ltb_lt _ _)) by done.
  - by rewrite Ew.
  - by rewrite Ef.
  - exact G.
  - intros N. unfold encode_body in E. pw_simpl. rewrite N in E. by injection E as <- <- _.
  - by exists closed1.
Qed.
End Writer.
