(* ===== verification/SerRead.v ===== *)
(** * Parts opened (okm-series, [part.rs])

    A part's files, open or sealed, are read back whole: the index gives its rows, the
    last block or the footer its span, and a read answers the records asked for. *)
From S2P Require Import Prelude SerFormat SerDict SerDictFacts SerBody SerBodyFacts SerPart SerPartFacts SerWriter.

(** ** The index *)

Lemma index_rows_reads rows : forall fuel, Forall IndexRow_ok rows -> (length rows <= fuel)%nat ->
  index_rows fuel (concat (map IndexRow_encode rows)) = rows.
Proof.
  induction rows as [|r rows IH]; intros [|fuel] F Hf; cbn [index_rows map concat]; try done; [simpl in Hf; lia|].
  apply Forall_cons in F as [Fr F]. rewrite <- (IndexRow_zlen r) at 1. rewrite slice_0_app. rewrite <- (app_nil_r (IndexRow_encode r)) at 1.
  rewrite IndexRow_reads by done. f_equal. rewrite <- (IndexRow_zlen r). unfold zlen. rewrite Nat2Z.id, drop_app_length. apply IH; [done|simpl in Hf; lia].
Qed.

Lemma rows_bytes rows : zlen (concat (map IndexRow_encode rows)) = 32 * zlen rows.
Proof.
  induction rows as [|r rows IH]; [done|]. cbn [map concat]. rewrite zlen_app, IndexRow_zlen, IH, zlen_cons. unfold INDEX_ROW_LEN. lia.
Qed.

Lemma read_index_rows rows : Forall IndexRow_ok rows -> read_index (rebuild_index rows) = rows.
Proof.
  intros F. unfold read_index, rebuild_index. change INDEX_HEADER_LEN with (zlen index_header). rewrite slice_all_from. apply index_rows_reads; [done|].
  pose proof (rows_bytes rows). unfold zlen in *. lia.
Qed.

Section Read.
Context `{SLL : SeriesLibLaws}.
Variable p : profile.

(** ** The files of a part *)

(** Its blocks stand behind its header, with [rest] behind them. *)
Record part_files (f : PartFiles) (h : PartHeader) (closed : list Block) (bs : list Blk) (rest : bytes) : Prop := {
  pf_bytes : pf_data f = PartHeader_encode h ++ data_of 0 (h_first_offset h) bs ++ rest;
  pf_rows : pf_index f = rebuild_index (rows_of PART_HEADER_LEN 0 (h_first_offset h) bs);
  pf_header : PartHeader_ok h;
  pf_closed : match pf_dict f with Some df => exists off, in_file df off closed | None => True end;
  pf_blocks : blks_ok 0 (h_first_offset h) bs;
  pf_rows_ok : Forall IndexRow_ok (rows_of PART_HEADER_LEN 0 (h_first_offset h) bs);
  pf_room : h_first_offset h + zlen (recs_of bs) < 2 ^ 64;
  pf_read : Forall (reads_closed p (has_dict f) closed) (recs_of bs)
}.

Lemma dict_state_file w f closed : dict_state w f closed -> match f with Some df => exists off, in_file df off closed /\ Forall valid_block closed | None => True end.
Proof.
  destruct w as [d|], f as [df|]; cbn; try done. intros (o & I). exists (d_file_offset d). split; [apply I|by eapply valid_closed].
Qed.

Lemma part_inv_files w f h closed bs pend : part_inv p w f h closed bs pend -> part_files f h closed bs [].
Proof.
  intros I. split; try apply I.
  - rewrite app_nil_r. apply I.
  - pose proof (dict_state_file _ _ _ (pi_dict _ _ _ _ _ _ _ I)) as D. destruct (pf_dict f); [|done]. destruct D as (off & D & _). by exists off.
  - pose proof (pi_room _ _ _ _ _ _ _ I) as R. rewrite zlen_app in R. pose proof (zlen_nonneg pend). lia.
Qed.

Lemma files_range f h closed bs rest : part_files f h closed bs rest -> in_range 0 (h_first_offset h) (recs_of bs).
Proof.
  intros P. destruct (pf_header _ _ _ _ _ P) as (_ & _ & [H0 _] & _). split; [lia|]. split; [done|]. apply (pf_room _ _ _ _ _ P).
Qed.

(** ** Opening *)

(** The times of a part's first record and of its last one. *)
Definition span_recs (l : list Rec) : option (Z * Z) := match l with [] => None | r :: _ => Some (rc_ts r, last_time 0 l) end.

Lemma span_open f h closed bs rest : part_files f h closed bs rest ->
  span_of p (pf_data f) (rows_of PART_HEADER_LEN 0 (h_first_offset h) bs) None = Ok (span_recs (recs_of bs)).
Proof.
  intros P. pose proof (files_range _ _ _ _ _ P) as (_ & H0 & Hr). pose proof (pf_blocks _ _ _ _ _ P) as B. pose proof (blks_timed _ _ _ B) as T.
  destruct bs as [|b0 bs'] eqn:Eb; [done|]. assert (exists bs1 b, bs = bs1 ++ [b]) as (bs1 & b & Es).
  { subst. destruct (exists_last (l := b0 :: bs')) as (bs1 & b & E); [done|]. by exists bs1, b. }
  rewrite <- Eb in *. unfold span_of. assert (head (rows_of PART_HEADER_LEN 0 (h_first_offset h) bs) = Some (blk_row PART_HEADER_LEN 0 (h_first_offset h) b0)) as -> by by rewrite Eb.
  rewrite Es, rows_app. cbn [rows_of]. rewrite last_snoc. cbn [ok_or mbind outcome_bind]. rewrite (pf_bytes _ _ _ _ _ P), Es, data_app. cbn [data_of].
  set (prev := last_time 0 (recs_of bs1)). set (first := h_first_offset h + zlen (recs_of bs1)). rewrite app_nil_r, <- app_assoc, app_assoc.
  assert (recs_of bs = recs_of bs1 ++ bl_recs b) as Er by by rewrite Es, recs_snoc.
  rewrite Er in *. rewrite Es in B. apply blks_app in B as [B1 [Bb _]]. apply timed_app in T as [T1 Tb]. fold prev in Tb, Bb. fold first in Bb. rewrite zlen_app in Hr.
  assert (0 <= prev) as Hp by by apply last_time_ge in T1. assert (in_range prev first (bl_recs b)) as R by (split_and!; [done|unfold first; pose proof (zlen_nonneg (recs_of bs1)); lia|unfold first; lia]).
  replace (PART_HEADER_LEN + zlen (data_of 0 (h_first_offset h) bs1)) with (zlen (PartHeader_encode h ++ data_of 0 (h_first_offset h) bs1)) by by rewrite zlen_app, PartHeader_zlen.
  rewrite (proj2 (block_read _ prev first b rest Bb R)). cbn [mbind outcome_bind blk_header b_first_ts]. destruct Bb as (N & _).
  pose proof (last_ts_of_records p _ _ Tb Hp) as L. destruct (bl_recs b) as [|r l] eqn:El; [done|]. cbn [first_time]. rewrite L. cbn [mbind outcome_bind default]. unfold id.
  assert (first_time (bl_recs b0) = match recs_of bs with r :: _ => rc_ts r | [] => 0 end) as Ef.
  { subst bs. destruct (pf_blocks _ _ _ _ _ P) as [(N0 & _) _]. rewrite recs_cons. by destruct (bl_recs b0). }
  cbn [blk_row r_first_ts]. rewrite Ef, <- Es, Er. unfold span_recs. unfold prev. rewrite <- last_time_app. by destruct (recs_of bs1).
Qed.

Definition reader_dict (f : PartFiles) (dict : option DictConfig) : option Dict :=
  (λ df, Dict_load (Some (df_dict df)) (default DictConfig_default dict)) <$> pf_dict f.

Lemma reader_resolves f h closed bs rest dict : part_files f h closed bs rest -> Forall (readable p (reader_dict f dict)) (recs_of bs).
Proof.
  intros P. eapply Forall_impl; [apply (pf_read _ _ _ _ _ P)|]. intros r R. apply R. unfold reader_dict, has_dict. pose proof (pf_closed _ _ _ _ _ P) as C.
  destruct (pf_dict f) as [df|]; [|done]. destruct C as (off & C). cbn. split; [done|]. by rewrite (load_blocks_of _ _ _ _ C).
Qed.

Lemma files_header f h closed bs rest : part_files f h closed bs rest ->
  read_at (pf_data f) 0 PART_HEADER_LEN = Ok (PartHeader_encode h) /\ PartHeader_decode (PartHeader_encode h) = Some h.
Proof.
  intros P. split.
  - unfold read_at. rewrite (pf_bytes _ _ _ _ _ P), Z.add_0_l, <- (PartHeader_zlen h), slice_0_app. done.
  - rewrite <- (app_nil_r (PartHeader_encode h)). apply PartHeader_reads. apply P.
Qed.

Lemma open_part_reads f h closed bs rest dict : part_files f h closed bs rest -> pf_sealed f = false ->
  PartReader_open p f dict = Ok (mkPartReader h None (rows_of PART_HEADER_LEN 0 (h_first_offset h) bs) false (reader_dict f dict) (span_recs (recs_of bs))).
Proof.
  intros P Es. destruct (files_header _ _ _ _ _ P) as [E1 E2]. unfold PartReader_open. rewrite E1. cbn [mbind outcome_bind]. rewrite E2. cbn [ok_or mbind outcome_bind].
  rewrite Es. cbn [mbind outcome_bind]. rewrite (pf_rows _ _ _ _ _ P), read_index_rows by apply P. by rewrite (span_open _ _ _ _ _ P).
Qed.

Lemma sealed_part_reads f h closed bs footer dict : part_files f h closed bs (Footer_encode footer) -> Footer_ok footer -> pf_sealed f = true ->
  PartReader_open p f dict = Ok (mkPartReader h (Some footer) (rows_of PART_HEADER_LEN 0 (h_first_offset h) bs) true (reader_dict f dict)
    (match recs_of bs with [] => None | r :: _ => Some (rc_ts r, ft_last_ts footer) end)).
Proof.
  intros P Hf Es. destruct (files_header _ _ _ _ _ P) as [E1 E2]. unfold PartReader_open. rewrite E1. cbn [mbind outcome_bind]. rewrite E2. cbn [ok_or mbind outcome_bind].
  rewrite Es. assert (read_footer (pf_data f) = Ok (Some footer)) as ->.
  { unfold read_footer. rewrite (pf_bytes _ _ _ _ _ P), app_assoc, zlen_app, Footer_zlen. rewrite (proj2 (Z.ltb_ge _ _)).
    - unfold read_at. rewrite Z.add_simpl_r. pose proof (slice_app (PartHeader_encode h ++ data_of 0 (h_first_offset h) bs) (Footer_encode footer) []) as X.
      rewrite app_nil_r, Footer_zlen in X. rewrite X. cbn [ok_or mbind outcome_bind]. rewrite <- (app_nil_r (Footer_encode footer)). by rewrite Footer_reads.
    - rewrite zlen_app, PartHeader_zlen. pose proof (zlen_nonneg (data_of 0 (h_first_offset h) bs)). lia. }
  cbn [mbind outcome_bind]. rewrite (pf_rows _ _ _ _ _ P), read_index_rows by apply P. unfold span_of.
  pose proof (pf_blocks _ _ _ _ _ P) as B. destruct bs as [|b bs]; [done|]. cbn [rows_of head mbind outcome_bind]. rewrite recs_cons. destruct B as [(N & _) _].
  cbn [blk_row r_first_ts]. by destruct (bl_recs b).
Qed.

(** ** Reading *)

(** What a reader of these blocks answers. *)
Definition answers (r : PartReader) (data : bytes) (first : Z) (l : list Rec) : Prop :=
  offset_span p r = Ok (first, first + zlen l) /\
  (forall from max out, read_from p r data from max out =
    Ok (out ++ take (Z.to_nat (max - zlen out)) (filter (λ x : Row, from <= x.1.2) (numbered first l)))) /\
  (forall from to max out, part_read_by_time p r data from to max out =
    Ok (out ++ take (Z.to_nat (max - zlen out)) (filter (λ x : Row, from <= x.1.1 <= to) (numbered first l)))).

Lemma filter_wanted s (P : Row -> Prop) `{forall x, Decision (P x)} (l : list Row) : (forall x, wanted s x.1.1 x.1.2 = true <-> P x) ->
  filter (λ x : Row, wanted s x.1.1 x.1.2 = true) l = filter P l.
Proof. intros W. apply list_filter_iff. exact W. Qed.

Lemma files_answer f h closed bs rest r : part_files f h closed bs rest -> pr_header r = h -> pr_rows r = rows_of PART_HEADER_LEN 0 (h_first_offset h) bs ->
  Forall (readable p (pr_dict r)) (recs_of bs) -> match pr_footer r with Some ft => ft_records ft = zlen (recs_of bs) | None => True end ->
  answers r (pf_data f) (h_first_offset h) (recs_of bs).
Proof.
  intros P Eh Er Fr Ef. pose proof (files_range _ _ _ _ _ P) as R. pose proof (pf_blocks _ _ _ _ _ P) as B. pose proof R as (_ & H0 & Hr).
  assert (reads_blocks r (PartHeader_encode h) 0 (h_first_offset h) bs) as Rb by (unfold reads_blocks; by rewrite PartHeader_zlen).
  split; [|split].
  - unfold offset_span. rewrite Eh. destruct (pr_footer r) as [ft|]; [by rewrite Ef, add_w_small|].
    rewrite Er. destruct (decide (bs = [])) as [->|N]; [cbn; by rewrite Z.add_0_r|]. destruct (exists_last N) as (bs1 & b & ->).
    rewrite rows_app. cbn [rows_of]. rewrite last_snoc. cbn [blk_row r_first_offset r_records]. rewrite recs_snoc, zlen_app in *. rewrite add_w_small by lia. cbn [mbind outcome_bind]. do 2 f_equal. lia.
  - intros from max out. rewrite (pf_bytes _ _ _ _ _ P), (part_read_from p r _ 0 _ bs rest from max out Rb B R Fr), select_spec.
    do 4 f_equal. apply filter_wanted. intros x. cbn [wanted]. apply Z.leb_le.
  - intros from to max out. rewrite (pf_bytes _ _ _ _ _ P), (part_read_times p r _ 0 _ bs rest from to max out Rb B R Fr), select_spec.
    do 4 f_equal. apply filter_wanted. intros x. cbn [wanted]. rewrite andb_true_iff, !Z.leb_le. done.
Qed.
End Read.
