(* ===== verification/SerRecover.v ===== *)
(** * Parts sealed and taken over (okm-series, [part.rs])

    Sealing writes what is in memory, the dictionary and a footer with the totals.  A
    crash leaves a data file cut short: taking it over restores the blocks that are
    whole, rebuilds the index from them and goes on behind them. *)
From S2P Require Import Prelude SerFormat SerDict SerDictFacts SerBody SerBodyFacts SerPart SerPartFacts SerWriter SerRead.

Section Recover.
Context `{SLL : SeriesLibLaws}.
Variable p : profile.

Abbreviation part_inv := (part_inv p).
Abbreviation part_files := (part_files p).

(** ** Sealing *)

Lemma last_time_range l : forall prev, timed prev l -> prev < 2 ^ 64 -> last_time prev l < 2 ^ 64.
Proof. induction l as [|r l IH]; intros prev T L; [done|]. destruct T as (H1 & _ & T). apply IH; [done|lia]. Qed.

Lemma blocks_range first bs : Forall IndexRow_ok (rows_of PART_HEADER_LEN 0 first bs) -> zlen bs < 2 ^ 32.
Proof.
  intros F. destruct (decide (bs = [])) as [->|N]; [done|]. destruct (exists_last N) as (bs1 & b & ->). rewrite rows_app, Forall_app in F. destruct F as [_ F].
  cbn [rows_of] in F. apply Forall_singleton in F as (_ & _ & [_ L] & _). cbn [blk_row r_file_offset] in L. change (256 ^ Z.of_nat 4) with (2 ^ 32) in L.
  pose proof (data_blocks bs1 0 first). unfold PART_HEADER_LEN in L. rewrite zlen_app, zlen_cons. change (zlen (@nil Blk)) with 0. lia.
Qed.

Lemma finish_grows w f w' f' : with_dict tt Dict_finish (w, f) = ((w', f'), Ok tt) -> settler_grows (settler w f) (settler w' f').
Proof.
  unfold with_dict, settler. pw_simpl. destruct (w_dict w) as [d|] eqn:Ed; [|by intros [= <- <-]; rewrite Ed].
  destruct (pf_dict f) as [df|] eqn:Ef; [|by intros [= <- <-]; rewrite Ed, Ef]. destruct (Dict_finish d df) as [[d1 df1] r] eqn:E.
  intros E'. injection E' as <- <- ->. pw_simpl. by apply flush_grows in E as [G _].
Qed.

Lemma finish_files w f h closed bs w' f' : part_inv w f h closed bs [] -> settler_fits (settler w f) ->
  with_dict tt Dict_finish (w, f) = ((w', f'), Ok tt) ->
  exists closed' d df, w' = set_w_dict w d /\ f' = set_dict_files f df /\ part_files f' h closed' bs [].
Proof.
  intros I Fit. pose proof (part_inv_files _ _ _ _ _ _ _ I) as P. pose proof (pi_dict _ _ _ _ _ _ _ I) as D. unfold with_dict, settler in *. pw_simpl.
  assert (w = set_w_dict w (w_dict w) /\ f = set_dict_files f (pf_dict f)) as [Ew Ef] by (by destruct w, f).
  destruct (w_dict w) as [d|] eqn:Ed; [|intros [= <- <-]; by exists closed, None, (pf_dict f)].
  destruct (pf_dict f) as [df|] eqn:Edf; [|done]. destruct D as (o & D). destruct (Dict_finish d df) as [[d1 df1] r] eqn:E. intros E'. injection E' as <- <- ->.
  destruct (flush_open_written _ _ _ _ _ _ D (open_fits _ _ _ _ D Fit) E) as [(_ & -> & ->)|(o' & _ & _ & _ & Wr)].
  - exists closed, (Some d), (Some df). by rewrite <- Ef.
  - exists (closed ++ [o']), (Some d1), (Some df1). split; [done|]. split; [done|]. split; pw_simpl; try apply P.
    + exists (d_file_offset d1). apply Wr.
    + change (has_dict (set_dict_files f (Some df1))) with true. assert (has_dict f = true) as E2 by (unfold has_dict; by rewrite Edf). rewrite <- E2.
      eapply reads_closed_grows; [by exists [o']|apply P].
Qed.

(** The footer of a part that holds these records. *)
Definition totals (l : list Rec) (blocks : Z) : Footer := mkFooter (zlen l) (default 0 (last_of l)) blocks (xxh64 (raw_of 0 l)).

(** What sealing leaves: every record in blocks, the footer behind them. *)
Lemma seal_files w f h closed bs pend w' f' footer : part_inv w f h closed bs pend -> seal p (w, f) = ((w', f'), Ok footer) ->
  settler_fits (settler w' f') ->
  footer = totals (recs_of bs ++ pend) (ft_blocks footer) /\ Footer_ok footer /\ pf_sealed f' = true /\
  exists closed' bs', part_files f' h closed' bs' (Footer_encode footer) /\ recs_of bs' = recs_of bs ++ pend.
Proof.
  intros I E Fit. unfold seal in E. pw_step E s1 u1 E1. destruct s1 as [w1 f1], u1. pw_step E s2 u2 E2. destruct s2 as [w2 f2], u2.
  pw_step E s3 w3 E3. apply get_w_ok in E3 as [-> ->]. cbn [fst] in E. cbv zeta in E. set (ft := mkFooter _ _ _ _) in E.
  pw_step E s4 u4 E4. apply write_data_ok in E4 as ->. cbn [fst snd] in E. pw_step E s5 u5 E5. apply (f_equal fst) in E5. cbn [mark_sealed fst snd] in E5. subst s5.
  assert (footer = ft) as -> by by injection E. apply (f_equal fst) in E. cbn [fst mret pw_ret] in E. apply pair_eq in E as [<- <-]. clear u4 u5.
  assert (settler_fits (settler w2 f2)) as Fit2 by exact Fit. pose proof (settler_fits_grows _ _ (finish_grows _ _ _ _ E2) Fit2) as Fit1.
  pose proof (settler_fits_grows _ _ (flush_block_grows _ _ _ _ _ E1) Fit1) as Fit0.
  destruct (flush_block_inv _ _ _ _ _ _ _ _ _ I Fit0 E1) as (closed1 & bs1 & I1 & <- & _). clear I bs pend closed E1 Fit0 Fit.
  destruct (finish_files _ _ _ _ _ _ _ I1 Fit1 E2) as (closed2 & d & df & -> & -> & P). pw_simpl.
  destruct (pi_counts _ _ _ _ _ _ _ I1) as (_ & Ec & Eb). pose proof (pi_last _ _ _ _ _ _ _ I1) as El. rewrite app_nil_r in El. pose proof (pi_digest _ _ _ _ _ _ _ I1) as Ed.
  pose proof (files_range _ _ _ _ _ _ P) as (_ & H0 & Hr). pose proof (blks_timed _ _ _ (pf_blocks _ _ _ _ _ _ P)) as T. pose proof (zlen_nonneg (recs_of bs1)).
  assert (Footer_ok ft) as Hft.
  { unfold ft. rewrite Ec, El, Eb. pose proof (blocks_range _ _ (pf_rows_ok _ _ _ _ _ _ P)). pose proof (zlen_nonneg bs1). pose proof (last_time_ge _ _ T). pose proof (last_time_range _ _ T ltac:(lia)).
    split_and!; cbn [ft_records ft_last_ts ft_blocks ft_digest]; [| | |apply xxh64_range]; unfold u64, u32; change (256 ^ Z.of_nat 8) with (2 ^ 64); change (256 ^ Z.of_nat 4) with (2 ^ 32); [lia| |lia].
    destruct (recs_of bs1); cbn [last_of default]; [lia|unfold id; lia]. }
  split; [unfold ft, totals; by rewrite Ec, El, Ed|]. split; [done|]. split; [done|]. exists closed2, bs1. split; [|done].
  split; try apply P. cbn [pf_data]. pose proof (pf_bytes _ _ _ _ _ _ P) as Eby. pw_simpl. rewrite (pi_off _ _ _ _ _ _ _ I1), write_at_end, Eby. by rewrite app_nil_r, app_assoc.
Qed.

(** How such a part opens. *)
Lemma sealed_opens f h closed bs footer blocks dict : part_files f h closed bs (Footer_encode footer) -> Footer_ok footer -> pf_sealed f = true ->
  footer = totals (recs_of bs) blocks ->
  exists r, PartReader_open p f dict = Ok r /\ pr_header r = h /\ pr_footer r = Some footer /\ pr_span r = span_recs (recs_of bs) /\
    answers p r (pf_data f) (h_first_offset h) (recs_of bs).
Proof.
  intros P Hft Es Ef. eexists. split; [exact (sealed_part_reads p f h closed bs footer dict P Hft Es)|]. split; [done|]. split; [done|]. split.
  - cbn [pr_span]. rewrite Ef. unfold span_recs, totals. cbn [ft_last_ts]. by destruct (recs_of bs).
  - apply (files_answer p f h closed bs (Footer_encode footer)); [done..| |].
    + by apply (reader_resolves p f h closed bs (Footer_encode footer)).
    + cbn [pr_footer]. by rewrite Ef.
Qed.

(** C10: a part sealed holds every record written to it, those still in memory
    included.  Its footer states how many they are, the last one's time and the digest of
    their bytes; a reader finds the footer and answers every offset and every span of time
    with exactly the records in them, in order and with their numbers.  A dictionary, if the
    part has one, is within its limits: at most 240 blocks, none too large for its codes. *)
Theorem seal_keeps w f h closed bs pend w' f' footer dict : part_inv w f h closed bs pend -> seal p (w, f) = ((w', f'), Ok footer) ->
  settler_fits (settler w' f') ->
  footer = totals (recs_of bs ++ pend) (ft_blocks footer) /\
  pf_sealed f' = true /\
  exists r, PartReader_open p f' dict = Ok r /\ pr_footer r = Some footer /\ answers p r (pf_data f') (h_first_offset h) (recs_of bs ++ pend).
Proof.
  intros I E Fit. destruct (seal_files _ _ _ _ _ _ _ _ _ I E Fit) as (Et & Hft & Es & closed' & bs' & P & Er). split; [done|]. split; [done|].
  rewrite <- Er in Et. destruct (sealed_opens _ _ _ _ _ _ dict P Hft Es Et) as (r & Eo & _ & Ef & _ & A). rewrite Er in A. by exists r.
Qed.

(** ** Walking what a crash left *)

(** A block cut short is no block. *)
Lemma torn_block pre q prev first b rest : blk_ok prev first b -> in_range prev first (bl_recs b) ->
  q `prefix_of` blk_bytes prev first b ++ rest -> zlen q < zlen (blk_bytes prev first b) -> whole_block (pre ++ q) (zlen pre) = None.
Proof.
  intros B R Q L. assert (q `prefix_of` blk_bytes prev first b) as Qb.
  { destruct (prefix_weak_total q (blk_bytes prev first b) _ Q) as [?|[k ->]]; [by eexists|done|]. rewrite zlen_app in L. pose proof (zlen_nonneg k). lia. }
  unfold whole_block. rewrite blk_zlen in L. destruct (Z.lt_ge_cases (zlen q) BLOCK_HEADER_LEN) as [S|S]; [by rewrite slice_past by (rewrite zlen_app; lia)|].
  assert (exists q', q = BlockHeader_encode (blk_header prev first b) ++ q') as [q' ->].
  { unfold blk_bytes in Qb. destruct (prefix_weak_total q (BlockHeader_encode (blk_header prev first b)) _ Qb) as [[k Ek]|[k ->]]; [by eexists| |by exists k].
    pose proof (f_equal zlen Ek) as El. rewrite zlen_app, BlockHeader_zlen in El. exists []. rewrite app_nil_r. destruct k; [by rewrite app_nil_r in Ek|].
    rewrite zlen_cons in El. pose proof (zlen_nonneg k). lia. }
  rewrite <- (BlockHeader_zlen (blk_header prev first b)) at 1. rewrite slice_app. cbn [mbind option_bind].
  assert (BlockHeader_decode (BlockHeader_encode (blk_header prev first b)) = Some (blk_header prev first b)) as ->.
  { destruct R as (Hp & H0 & Hr). pose proof (zlen_nonneg (bl_recs b)). rewrite <- (app_nil_r (BlockHeader_encode _)). apply BlockHeader_reads, blk_header_ok; [done..|lia]. }
  cbn [mbind option_bind blk_header b_len_c]. destruct (_ || _); [done|]. rewrite slice_past; [done|]. rewrite zlen_app, BlockHeader_zlen in L. rewrite !zlen_app, BlockHeader_zlen. lia.
Qed.

(** What a survey has found behind the blocks [bs]. *)
Definition surveyed (s : Survey) (prev first : Z) (bs : list Blk) : Survey :=
  mkSurvey (sv_file_off s + zlen (data_of prev first bs)) (first + zlen (recs_of bs))
    (match recs_of bs with [] => sv_last_ts s | _ => Some (last_time prev (recs_of bs)) end)
    (sv_records s + zlen (recs_of bs)) (sv_blocks s + zlen bs) (sv_digest s ++ raw_of prev (recs_of bs))
    (sv_rows s ++ rows_of (sv_file_off s) prev first bs).

Lemma surveyed_cons s prev first b bs : bl_recs b <> [] ->
  surveyed (surveyed s prev first [b]) (last_time prev (bl_recs b)) (first + zlen (bl_recs b)) bs = surveyed s prev first (b :: bs).
Proof.
  intros N. unfold surveyed. cbn [sv_file_off sv_next_offset sv_last_ts sv_records sv_blocks sv_digest sv_rows].
  assert (recs_of [b] = bl_recs b) as -> by (rewrite recs_cons; apply app_nil_r). rewrite recs_cons. cbn [data_of rows_of]. rewrite app_nil_r, !zlen_app, !zlen_cons, raw_app, last_time_app, <- !app_assoc.
  change (zlen (@nil Blk)) with 0. f_equal; [lia|lia| |lia|lia].
  destruct (bl_recs b) as [|r l]; [done|]. by destruct (recs_of bs).
Qed.

Lemma surveyed_one s prev first b : bl_recs b <> [] -> surveyed s prev first [b] =
  mkSurvey (sv_file_off s + BLOCK_HEADER_LEN + zlen b.1.2) (first + zlen (bl_recs b)) (Some (last_time prev (bl_recs b)))
    (sv_records s + zlen (bl_recs b)) (sv_blocks s + 1) (sv_digest s ++ raw_of prev (bl_recs b)) (sv_rows s ++ [blk_row (sv_file_off s) prev first b]).
Proof.
  intros N. unfold surveyed. assert (recs_of [b] = bl_recs b) as -> by (rewrite recs_cons; apply app_nil_r). cbn [data_of rows_of]. rewrite app_nil_r, blk_zlen, Z.add_assoc.
  by destruct (bl_recs b).
Qed.

Lemma survey_blocks bs : forall fuel pre q prev first s, blks_ok prev first bs -> in_range prev first (recs_of bs) ->
  Forall IndexRow_ok (rows_of (zlen pre) prev first bs) -> q `prefix_of` data_of prev first bs -> zlen q < Z.of_nat fuel ->
  sv_file_off s = zlen pre -> sv_next_offset s = first -> 0 <= sv_records s -> sv_records s + zlen (recs_of bs) < 2 ^ 64 ->
  0 <= sv_blocks s -> sv_blocks s + zlen bs < 2 ^ 32 ->
  exists bs1 bs2, bs = bs1 ++ bs2 /\ data_of prev first bs1 `prefix_of` q /\
    match bs2 with [] => True | b :: _ => zlen q < zlen (data_of prev first (bs1 ++ [b])) end /\
    survey p fuel (pre ++ q) s = Ok (surveyed s prev first bs1).
Proof.
  induction bs as [|b bs IH]; intros fuel pre q prev first s B R Fr Q Hf Eo En H1 H2 H3 H4.
  - exists [], []. destruct q; [|by apply prefix_nil_not in Q]. split; [done|]. split; [done|]. split; [done|]. destruct fuel as [|fuel]; [change (zlen (@nil Z)) with 0 in Hf; lia|]. cbn [survey].
    unfold whole_block. rewrite app_nil_r, Eo, slice_past by (unfold BLOCK_HEADER_LEN; lia). cbn [mbind option_bind].
    unfold surveyed. cbn. rewrite !Z.add_0_r, !app_nil_r. rewrite <- En. by destruct s.
  - pose proof (zlen_nonneg q) as Hq. destruct fuel as [|fuel]; [lia|]. destruct B as [B Bs]. rewrite recs_cons, zlen_app in *. rewrite zlen_cons in H4. destruct R as (Hp & H0 & Hr). rewrite zlen_app in Hr.
    pose proof (zlen_nonneg (bl_recs b)). pose proof (zlen_nonneg (recs_of bs)). pose proof (zlen_nonneg bs). cbn [rows_of data_of] in *. apply Forall_cons in Fr as [Fb Fr].
    assert (in_range prev first (bl_recs b)) as Rb by (split_and!; lia). cbn [survey]. rewrite Eo. destruct (Z.lt_ge_cases (zlen q) (zlen (blk_bytes prev first b))) as [L|L].
    { exists [], (b :: bs). split; [done|]. split; [apply prefix_nil|]. cbn [app data_of]. rewrite app_nil_r. split; [done|].
      rewrite (torn_block pre q prev first b _ B Rb Q L). unfold surveyed. cbn. rewrite !Z.add_0_r, !app_nil_r, <- En. by destruct s. }
    assert (exists q', q = blk_bytes prev first b ++ q' /\ q' `prefix_of` data_of (last_time prev (bl_recs b)) (first + zlen (bl_recs b)) bs) as (q' & -> & Q').
    { destruct (prefix_weak_total (blk_bytes prev first b) q _ ltac:(by eexists) Q) as [[k ->]|[k Ek]].
      - exists k. split; [done|]. by apply prefix_app_inv in Q.
      - rewrite Ek, zlen_app in L. destruct k; [|rewrite zlen_cons in L; pose proof (zlen_nonneg k); lia]. rewrite app_nil_r in Ek. exists []. rewrite app_nil_r. split; [done|apply prefix_nil]. }
    rewrite whole_block_read by done. assert (IndexRow_from_header (blk_header prev first b) (zlen pre) = Some (blk_row (zlen pre) prev first b)) as ->.
    { unfold IndexRow_from_header. destruct Fb as (_ & _ & [_ Lo] & _). cbn [blk_row r_file_offset] in Lo. change (256 ^ Z.of_nat 4) with (2 ^ 32) in Lo. by rewrite (proj2 (Z.ltb_lt _ _)) by done. }
    cbn [ok_or mbind outcome_bind]. cbn [blk_header b_first_offset b_records b_first_ts b_len_c]. rewrite add_w_small by lia. cbn [mbind outcome_bind].
    pose proof B as (N & T & _). pose proof (last_ts_of_records p _ _ T Hp) as Lt. pose proof (last_time_ge _ _ T) as Tg.
    assert (last_ts_of p (raw_of prev (bl_recs b)) (first_time (bl_recs b)) = Ok (Some (last_time prev (bl_recs b)))) as -> by by destruct (bl_recs b).
    cbn [mbind outcome_bind]. rewrite !add_w_small by lia. cbn [mbind outcome_bind].
    rewrite <- Eo, <- surveyed_one by done. pose proof (surveyed_one s prev first b N) as E1.
    destruct (IH fuel (pre ++ blk_bytes prev first b) q' (last_time prev (bl_recs b)) (first + zlen (bl_recs b)) (surveyed s prev first [b])) as (bs1 & bs2 & -> & Q1 & L2 & E).
    all: rewrite ?E1; cbn [sv_file_off sv_next_offset sv_records sv_blocks]; try done; try lia.
    + split_and!; lia.
    + by rewrite zlen_app.
    + rewrite zlen_app, blk_zlen in Hf. pose proof (zlen_nonneg b.1.2). unfold BLOCK_HEADER_LEN in *. lia.
    + rewrite Eo, zlen_app, blk_zlen. lia.
    + exists (b :: bs1), bs2. split; [done|]. split; [by apply prefix_app|]. split; [|by rewrite <- E1, app_assoc, E, surveyed_cons].
      destruct bs2 as [|b2 bs2]; [done|]. cbn [app data_of]. rewrite !zlen_app. lia.
Qed.

(** ** Taking over *)

Definition adoptable (f : PartFiles) (closed : list Block) (dict : option DictConfig) : Prop :=
  match dict with Some _ => has_dict f = true /\ closed <> [] /\ (length closed <= 240)%nat | None => True end.

(** The dictionary a writer goes on with. *)
Definition adopted_dict (f : PartFiles) (dict : option DictConfig) : option Dict :=
  match dict, pf_dict f with Some config, Some df => Some (Dict_adopt (df_dict df) config) | _, _ => None end.

Lemma adopted_state w f h closed bs pend dict : part_inv w f h closed bs pend -> adoptable f closed dict -> dict_state (adopted_dict f dict) (pf_dict f) closed.
Proof.
  intros I A. pose proof (pi_dict _ _ _ _ _ _ _ I) as D. pose proof (dict_state_file _ _ _ D) as F. unfold adopted_dict, adoptable, has_dict in *.
  destruct (pf_dict f) as [df|]; [|destruct dict as [c|]; [by destruct A|by destruct (w_dict w)]]. destruct dict as [c|]; [|done].
  destruct F as (off & F & V). destruct A as (_ & N & L). destruct (dict_adopt_ok df off closed c F V N L) as (o & D' & _). by exists o.
Qed.

(** A survey of the file cut at [n]. *)
Lemma survey_cut w f h closed bs pend n : part_inv w f h closed bs pend -> PART_HEADER_LEN <= n ->
  let data := take (Z.to_nat n) (pf_data f) in
  let s0 := mkSurvey PART_HEADER_LEN (h_first_offset h) None 0 0 [] [] in
  read_at data 0 PART_HEADER_LEN = Ok (PartHeader_encode h) /\
  exists bs1 bs2, bs = bs1 ++ bs2 /\
    match bs2 with [] => True | b :: _ => n < PART_HEADER_LEN + zlen (data_of 0 (h_first_offset h) (bs1 ++ [b])) end /\
    (PartHeader_encode h ++ data_of 0 (h_first_offset h) bs1) `prefix_of` data /\
    survey p (length data) data s0 = Ok (surveyed s0 0 (h_first_offset h) bs1).
Proof.
  intros I Hn data s0. pose proof (part_inv_files _ _ _ _ _ _ _ I) as P. pose proof (files_range _ _ _ _ _ _ P) as R. pose proof (pi_data _ _ _ _ _ _ _ I) as Ed.
  pose proof (blocks_range _ _ (pf_rows_ok _ _ _ _ _ _ P)) as Rb. pose proof (PartHeader_zlen h) as Lh. set (q := take (Z.to_nat (n - PART_HEADER_LEN)) (data_of 0 (h_first_offset h) bs)).
  assert (data = PartHeader_encode h ++ q) as E.
  { unfold data, q. rewrite Ed. unfold zlen in Lh. rewrite take_app_ge by lia. do 2 f_equal. lia. }
  rewrite E. split; [unfold read_at; by rewrite Z.add_0_l, <- Lh, slice_0_app|].
  assert (q `prefix_of` data_of 0 (h_first_offset h) bs) as Q by (exists (drop (Z.to_nat (n - PART_HEADER_LEN)) (data_of 0 (h_first_offset h) bs)); unfold q; by rewrite take_drop).
  destruct (survey_blocks bs (length (PartHeader_encode h ++ q)) (PartHeader_encode h) q 0 (h_first_offset h) s0) as (bs1 & bs2 & Eb & Q1 & L & Es).
  all: cbn [s0 sv_file_off sv_next_offset sv_records sv_blocks]; try done; try (apply P || by rewrite Lh).
  - rewrite length_app. unfold zlen, PART_HEADER_LEN in *. lia.
  - destruct R as (_ & H0 & Hr). lia.
  - exists bs1, bs2. split; [done|]. split; [|split; [by apply prefix_app|done]]. destruct bs2 as [|b bs2]; [done|].
    assert (zlen (data_of 0 (h_first_offset h) (bs1 ++ [b])) <= zlen (data_of 0 (h_first_offset h) bs)) as Lb.
    { rewrite Eb, (cons_middle b bs1 bs2), app_assoc, (data_app (bs1 ++ [b])), (zlen_app (data_of _ _ (bs1 ++ [b]))). pose proof (zlen_nonneg (data_of (last_time 0 (recs_of (bs1 ++ [b]))) (h_first_offset h + zlen (recs_of (bs1 ++ [b]))) bs2)). lia. }
    unfold q, zlen in *. rewrite length_take in L. lia.
Qed.

Lemma blocks_cut h closed bs1 bs2 k : blks_ok 0 (h_first_offset h) (bs1 ++ bs2) -> Forall IndexRow_ok (rows_of PART_HEADER_LEN 0 (h_first_offset h) (bs1 ++ bs2)) ->
  Forall (reads_closed p k closed) (recs_of (bs1 ++ bs2)) -> timed 0 (recs_of (bs1 ++ bs2)) ->
  blks_ok 0 (h_first_offset h) bs1 /\ Forall IndexRow_ok (rows_of PART_HEADER_LEN 0 (h_first_offset h) bs1) /\
  Forall (reads_closed p k closed) (recs_of bs1) /\ timed 0 (recs_of bs1).
Proof. rewrite blks_app, rows_app, recs_app, !Forall_app, timed_app. tauto. Qed.

(** C9: a crash costs the records of the blocks it tore and those in memory, and no
    other.  However many bytes of the data file are left, from its header on, and
    whatever became of the index, taking the part over succeeds: it keeps the blocks that
    are whole, the longest run of them that fits, cuts the file behind them, rebuilds the
    index, and leaves a writer that goes on with the next record's number.  The dictionary's
    file is intact, and where the log asks for a dictionary it has between one and 240
    blocks in it. *)
Theorem adopt_restores w f h closed bs pend n index block_bytes codec dict : part_inv w f h closed bs pend -> PART_HEADER_LEN <= n ->
  adoptable f closed dict ->
  exists w' f' bs1 bs2,
    PartWriter_adopt p (mkPartFiles (take (Z.to_nat n) (pf_data f)) index (pf_dict f) false) block_bytes codec dict = Ok (w', f') /\
    part_inv w' f' h closed bs1 [] /\ bs = bs1 ++ bs2 /\ pf_data f' `prefix_of` take (Z.to_nat n) (pf_data f) /\
    match bs2 with [] => True | b :: _ => n < PART_HEADER_LEN + zlen (data_of 0 (h_first_offset h) (bs1 ++ [b])) end /\
    w_next_offset w' = h_first_offset h + zlen (recs_of bs1).
Proof.
  intros I Hn A. destruct (survey_cut _ _ _ _ _ _ _ I Hn) as (Eh & bs1 & bs2 & -> & L & Q & Es). set (data := take _ (pf_data f)) in *.
  pose proof (part_inv_files _ _ _ _ _ _ _ I) as P. destruct (files_header _ _ _ _ _ _ P) as [_ Ed]. pose proof (adopted_state _ _ _ _ _ _ _ I A) as D.
  unfold PartWriter_adopt. cbn [pf_dict pf_data pf_sealed].
  assert ((match dict with None => Ok None | Some config => df ← ok_or Io (pf_dict f); Ok (Some (Dict_adopt (df_dict df) config)) end : sresult (option Dict)) = Ok (adopted_dict f dict)) as ->.
  { unfold adopted_dict, adoptable, has_dict in *. destruct dict as [c|]; [|done]. destruct (pf_dict f); [done|]. by destruct A. }
  cbn [mbind outcome_bind]. rewrite Eh. cbn [mbind outcome_bind]. rewrite Ed. cbn [ok_or mbind outcome_bind]. rewrite Es. cbn [mbind outcome_bind].
  set (s := surveyed _ _ _ _). set (w' := mkPartWriter _ _ _ _ _ _ _ _ _ _ _ _ _ _). set (f' := mkPartFiles _ _ _ _). exists w', f', bs1, bs2.
  split; [done|].
  destruct (blocks_cut h closed bs1 bs2 (has_dict f) (pf_blocks _ _ _ _ _ _ P) (pf_rows_ok _ _ _ _ _ _ P) (pf_read _ _ _ _ _ _ P) (blks_timed _ _ _ (pf_blocks _ _ _ _ _ _ P))) as (B1 & R1 & F1 & T1).
  pose proof (pf_room _ _ _ _ _ _ P) as Room. rewrite recs_app, zlen_app in Room. pose proof (zlen_nonneg (recs_of bs2)).
  assert (pf_data f' = PartHeader_encode h ++ data_of 0 (h_first_offset h) bs1) as Ef.
  { unfold f'. cbn [pf_data s surveyed sv_file_off]. destruct Q as [k ->]. rewrite <- (PartHeader_zlen h), <- zlen_app. unfold zlen. by rewrite Nat2Z.id, take_app_length. }
  split; [|by rewrite Ef]. split; rewrite ?app_nil_r; try done.
  - split; [|done]. apply P.
  - rewrite Ef. unfold w'. cbn [w_file_off s surveyed sv_file_off]. by rewrite zlen_app, PartHeader_zlen.
  - lia.
Qed.

(** A reader of an open part sees what its writer has written down. *)
Lemma open_part_ok w f h closed bs pend dict : part_inv w f h closed bs pend ->
  exists r, PartReader_open p f dict = Ok r /\ pr_footer r = None /\ pr_span r = span_recs (recs_of bs) /\ answers p r (pf_data f) (h_first_offset h) (recs_of bs).
Proof.
  intros I. pose proof (part_inv_files _ _ _ _ _ _ _ I) as P. eexists. split; [exact (open_part_reads p f h closed bs [] dict P (pi_sealed _ _ _ _ _ _ _ I))|].
  split; [done|]. split; [done|]. apply (files_answer p f h closed bs []); [done..| |done]. by apply (reader_resolves p f h closed bs []).
Qed.

End Recover.
