(* ===== verification/SerSession.v ===== *)
(** * Sessions over a part (okm-series, [part.rs])

    A part created, written to and flushed, read back: what a reader answers, said of the
    records appended alone.  The samples run it. *)
From S2P Require Import Prelude SerFormat SerDict SerDictFacts SerSamples SerBody SerBodyFacts SerPart SerPartFacts SerWriter SerRead SerRecover.

(** A record handed to [append]: its time and its body. *)
Abbreviation Entry := (Z * Body)%type.

Definition entry_of (r : Rec) : Entry := (rc_ts r, rc_body r).

(** The rows of records numbered from [offset]. *)
Fixpoint rows_from (offset : Z) (l : list Entry) : list Row :=
  match l with [] => [] | e :: l => (e.1, offset, e.2) :: rows_from (offset + 1) l end.

Lemma numbered_rows l : forall offset, numbered offset l = rows_from offset (map entry_of l).
Proof. induction l as [|r l IH]; intros offset; [done|]. cbn [numbered map rows_from]. by rewrite IH. Qed.

Section Session.
Context `{SLL : SeriesLibLaws}.
Variable p : profile.

(** Appends, one behind the other. *)
Fixpoint appends (l : list Entry) : pw unit :=
  match l with [] => mret tt | e :: l => append p e.1 e.2;; appends l end.

Definition entry_ok (e : Entry) : Prop := 0 <= e.1 < 2 ^ 64 /\ body_ok e.2.

Lemma encode_body_grows body w f w1 f1 r : encode_body p body (w, f) = ((w1, f1), Ok r) -> settler_grows (settler w f) (settler w1 f1).
Proof.
  unfold encode_body, settler. cbn [fst snd]. destruct (w_dict w) as [d|] eqn:Ed; [|by intros [= <- <-]; rewrite Ed]. destruct (pf_dict f) as [df|] eqn:Ef; [|by intros [= <- <-]; rewrite Ed, Ef].
  destruct (encode_with p (Some (d, df)) body) as [s r1] eqn:E. apply encode_with_grows in E. destruct s as [[d1 df1]|]; [|done]. intros E1. injection E1 as <- <- _. exact E.
Qed.

Lemma append_grows ts body w f w' f' off : append p ts body (w, f) = ((w', f'), Ok off) -> settler_grows (settler w f) (settler w' f').
Proof.
  intros E. unfold append in E. pw_step E s0 enc E0. destruct s0 as [w0 f0]. pw_step E s1 delta E1. destruct s1 as [w1 f1].
  pw_step E s2 u2 E2. apply modify_ok in E2 as ->. pw_step E s3 w3 E3. apply get_w_ok in E3 as [-> ->]. pw_step E s4 blk E4. apply lift_ok in E4 as [-> _].
  cbn [fst snd] in E. pw_step E s5 u5 E5. apply modify_ok in E5 as ->. pw_step E s6 next E6. apply lift_ok in E6 as [-> _].
  pw_step E s7 count E7. apply lift_ok in E7 as [-> _]. pw_step E s8 u8 E8. apply modify_ok in E8 as ->. cbn [fst snd] in E. pw_step E s9 u9 E9. destruct u9.
  injection E as -> _. eapply settler_grows_trans; [by eapply encode_body_grows|]. destruct (delta_of_same _ _ _ _ _ _ E1) as [-> <-].
  set (w3 := set_last_ts _ _) in E9. assert (settler w1 f0 = settler w3 f0) as -> by (unfold w3; by destruct (w_block w1)).
  destruct (_ <=? _); [by eapply flush_block_grows|]. injection E9 as <- <-. apply settler_grows_refl.
Qed.

Lemma appends_grows l : forall w f w' f', appends l (w, f) = ((w', f'), Ok tt) -> settler_grows (settler w f) (settler w' f').
Proof.
  induction l as [|e l IH]; intros w f w' f' E; cbn [appends] in E; [injection E as <- <-; apply settler_grows_refl|].
  pw_step E s1 off E1. destruct s1 as [w1 f1]. eapply settler_grows_trans; [by eapply append_grows|by apply IH].
Qed.

Lemma appends_inv l : forall w f h closed bs pend w' f', part_inv p w f h closed bs pend -> Forall entry_ok l ->
  h_first_offset h + zlen (recs_of bs ++ pend) + zlen l < 2 ^ 64 -> zlen (recs_of bs ++ pend) + zlen l < 2 ^ 32 ->
  appends l (w, f) = ((w', f'), Ok tt) -> settler_fits (settler w' f') ->
  exists closed' bs' pend', part_inv p w' f' h closed' bs' pend' /\ map entry_of (recs_of bs' ++ pend') = map entry_of (recs_of bs ++ pend) ++ l.
Proof.
  induction l as [|e l IH]; intros w f h closed bs pend w' f' I F R1 R2 E Fit; cbn [appends] in E.
  - injection E as <- <-. exists closed, bs, pend. by rewrite app_nil_r.
  - apply Forall_cons in F as [[Ht Hb] F]. rewrite zlen_cons in *. pose proof (zlen_nonneg l). pose proof (zlen_nonneg (recs_of bs)). pw_step E s1 off E1. destruct s1 as [w1 f1].
    pose proof (settler_fits_grows _ _ (appends_grows _ _ _ _ _ E) Fit) as Fit1.
    destruct (append_inv p w f h closed bs pend _ _ _ _ _ I Ht Hb ltac:(lia) ltac:(rewrite zlen_app in R2; lia) E1 Fit1) as (_ & closed1 & bs1 & pend1 & enc & I1 & Er & _).
    assert (zlen (recs_of bs1 ++ pend1) = zlen (recs_of bs ++ pend) + 1) as Ez by (rewrite Er; zlia).
    destruct (IH _ _ _ _ _ _ _ _ I1 F ltac:(lia) ltac:(lia) E Fit) as (closed' & bs' & pend' & I' & E'). exists closed', bs', pend'. split; [done|].
    rewrite E', Er, map_app, <- app_assoc. by destruct e.
Qed.

(** C7: what is written is what is read.  A part is created, records are appended and the
    part flushed; a reader that opens its files, with whatever settings of its own,
    answers a read from any offset or between any two times with exactly the records
    appended that are asked for, in the order of their appends, each with its time, its
    number and its body, whether their strings went through the dictionary or not and
    whether their blocks were compressed or not.  A dictionary, if the part has one, ends
    within its limits: at most 240 blocks, none too large for its codes. *)
Theorem session_reads h block_bytes codec config l w f dict : PartHeader_ok h -> Forall entry_ok l ->
  h_first_offset h + zlen l < 2 ^ 64 -> zlen l < 2 ^ 32 ->
  (appends l;; flush_block p) (PartWriter_create h block_bytes codec config) = ((w, f), Ok tt) -> settler_fits (settler w f) ->
  exists r, PartReader_open p f dict = Ok r /\ offset_span p r = Ok (h_first_offset h, h_first_offset h + zlen l) /\
    (forall from max, read_from p r (pf_data f) from max [] =
      Ok (take (Z.to_nat max) (filter (λ x : Row, from <= x.1.2) (rows_from (h_first_offset h) l)))) /\
    (forall from to max, part_read_by_time p r (pf_data f) from to max [] =
      Ok (take (Z.to_nat max) (filter (λ x : Row, from <= x.1.1 <= to) (rows_from (h_first_offset h) l)))).
Proof.
  intros Hh F R1 R2 E Fit. pose proof (PartWriter_create_inv p h block_bytes codec config Hh) as I0. destruct (PartWriter_create h block_bytes codec config) as [w0 f0].
  pw_step E s1 u1 E1. destruct u1, s1 as [w1 f1]. pose proof (settler_fits_grows _ _ (flush_block_grows _ _ _ _ _ E) Fit) as Fit1.
  destruct (appends_inv l w0 f0 h [] [] [] w1 f1 I0 F) as (closed1 & bs1 & pend1 & I1 & Er); [cbn [recs_of map concat app]; change (zlen (@nil Rec)) with 0; lia..|done|done|].
  destruct (flush_block_inv _ _ _ _ _ _ _ _ _ I1 Fit1 E) as (closed2 & bs2 & I2 & E2 & _). rewrite <- E2 in Er. cbn [recs_of map concat app] in Er. fold (recs_of bs2) in Er.
  assert (zlen (recs_of bs2) = zlen l) as El by (rewrite <- Er; unfold zlen; by rewrite length_map).
  destruct (open_part_ok p w f h closed2 bs2 [] dict I2) as (r & Eo & _ & _ & Es & A1 & A2). rewrite El in Es. exists r. split; [done|]. split; [done|].
  split; [intros from max; rewrite A1|intros from to max; rewrite A2]; change (zlen (@nil Row)) with 0; by rewrite Z.sub_0_r, numbered_rows, Er.
Qed.
End Session.

(** ** A session run *)

Definition sample_header : PartHeader := mkPartHeader P_S 5 0 7 1000.
Definition sample_config : DictConfig := mkDictConfig [(0, 2)] 4.
Definition sample_text : bytes := [97; 98; 97].
Definition sample_entries : list Entry :=
  [(10, [(1, SStr sample_text); (2, SU64 300)]); (12, [(1, SStr sample_text); (3, SI64 (-4))]); (12, [(1, SStr sample_text)]); (15, [(4, SBytes [0; 0; 0; 0; 0; 0; 0; 0])])].

Definition sample_start : PartWriter * PartFiles := PartWriter_create sample_header 26 Zstd (Some sample_config).

(** The last record is still in memory, and then it is not. *)
Definition sample_mid : PartWriter * PartFiles := (appends Debug sample_entries sample_start).1.
Definition sample_end : PartWriter * PartFiles := (flush_block Debug sample_mid).1.

Lemma sample_mid_runs : appends Debug sample_entries sample_start = ((sample_mid.1, sample_mid.2), Ok tt).
Proof. vm_compute. reflexivity. Qed.

Lemma sample_end_runs : (appends Debug sample_entries;; flush_block Debug) sample_start = ((sample_end.1, sample_end.2), Ok tt).
Proof. vm_compute. reflexivity. Qed.

Lemma sample_header_ok : PartHeader_ok sample_header.
Proof. by repeat split. Qed.

Lemma sample_entries_ok : Forall entry_ok sample_entries.
Proof. repeat (constructor || split); try done; vm_compute; done. Qed.

(** Whether a dictionary fits, as a test. *)
Definition block_fitsb (b : Block) : bool :=
  ((k_width b =? 2) || (k_width b =? 4) || (k_width b =? 8)) && (zlen (entries_bytes (k_entries b)) <? 2 ^ 32) && (zlen (k_entries b) <=? 256 ^ k_width b).

Definition settler_fitsb (s : Settler) : bool :=
  match s with Some (d, _) => (zlen (d_blocks d) <=? 240) && forallb block_fitsb (d_blocks d) | None => true end.

Lemma settler_fits_test s : settler_fitsb s = true -> settler_fits s.
Proof.
  destruct s as [[d f]|]; [|done]. cbn [settler_fitsb settler_fits]. rewrite andb_true_iff, Z.leb_le, forallb_forall. intros [L F]. split; [unfold zlen in L; lia|].
  apply Forall_forall. intros b Hb. apply list_elem_of_In in Hb. specialize (F b Hb). unfold block_fitsb in F. rewrite !andb_true_iff, !orb_true_iff, Z.ltb_lt, Z.leb_le, !Z.eqb_eq in F.
  unfold block_fits. tauto.
Qed.

Lemma sample_end_fits : settler_fits (settler sample_end.1 sample_end.2).
Proof. apply settler_fits_test. vm_compute. reflexivity. Qed.

Lemma sample_mid_fits : settler_fits (settler sample_mid.1 sample_mid.2).
Proof. apply settler_fits_test. vm_compute. reflexivity. Qed.

Lemma session_reads_witness :
  exists r, PartReader_open Debug sample_end.2 None = Ok r /\ offset_span Debug r = Ok (7, 11) /\
    (forall from max, read_from Debug r (pf_data sample_end.2) from max [] =
      Ok (take (Z.to_nat max) (filter (λ x : Row, from <= x.1.2) (rows_from 7 sample_entries)))) /\
    (forall from to max, part_read_by_time Debug r (pf_data sample_end.2) from to max [] =
      Ok (take (Z.to_nat max) (filter (λ x : Row, from <= x.1.1 <= to) (rows_from 7 sample_entries)))).
Proof.
  apply (session_reads Debug sample_header 26 Zstd (Some sample_config) sample_entries sample_end.1 sample_end.2 None
    sample_header_ok sample_entries_ok ltac:(done) ltac:(done) sample_end_runs sample_end_fits).
Defined.

(** Whether a part's dictionary can be taken over, as a test. *)
Definition adoptableb (w : PartWriter) (f : PartFiles) : bool :=
  match w_dict w, pf_dict f with
  | Some d, Some _ => match closed_of d with [] => false | l => zlen l <=? 240 end
  | _, _ => false
  end.

Lemma adoptable_test p w f h closed bs pend config : part_inv p w f h closed bs pend -> adoptableb w f = true -> adoptable f closed (Some config).
Proof.
  intros I. pose proof (pi_dict _ _ _ _ _ _ _ I) as D. unfold adoptableb, adoptable, has_dict, dict_state in *.
  destruct (w_dict w) as [d|]; [|done]. destruct (pf_dict f) as [df|]; [|done]. destruct D as (o & D). rewrite (closed_take _ _ _ _ D).
  destruct closed as [|b l]; [done|]. rewrite Z.leb_le. unfold zlen. intros L. split; [done|]. split; [done|lia].
Qed.

(** The part in the middle of its session. *)
Lemma sample_inv : exists closed bs pend, part_inv Debug sample_mid.1 sample_mid.2 sample_header closed bs pend /\
  map entry_of (recs_of bs ++ pend) = sample_entries /\ adoptable sample_mid.2 closed (Some sample_config).
Proof.
  pose proof (PartWriter_create_inv Debug sample_header 26 Zstd (Some sample_config) sample_header_ok) as I0.
  assert (part_inv Debug sample_start.1 sample_start.2 sample_header [] [] []) as I1 by exact I0.
  destruct (appends_inv Debug sample_entries sample_start.1 sample_start.2 sample_header [] [] [] _ _ I1 sample_entries_ok ltac:(done) ltac:(done) sample_mid_runs sample_mid_fits) as (closed & bs & pend & I & E).
  exists closed, bs, pend. split; [exact I|]. split; [exact E|]. eapply adoptable_test; [exact I|]. vm_compute. reflexivity.
Qed.

(** Sealed with a record in memory. *)
Definition sample_footer : Footer := match (seal Debug sample_mid).2 with Ok ft => ft | _ => mkFooter 0 0 0 0 end.

Lemma seal_keeps_witness : exists closed bs pend, part_inv Debug sample_mid.1 sample_mid.2 sample_header closed bs pend /\ ft_records sample_footer = 4 /\
  pf_sealed (seal Debug sample_mid).1.2 = true /\
  exists r, PartReader_open Debug (seal Debug sample_mid).1.2 None = Ok r /\ pr_footer r = Some sample_footer /\
    answers Debug r (pf_data (seal Debug sample_mid).1.2) 7 (recs_of bs ++ pend).
Proof.
  destruct sample_inv as (closed & bs & pend & I & E & _). exists closed, bs, pend. split; [exact I|]. split; [vm_compute; reflexivity|].
  apply (seal_keeps Debug _ _ _ _ _ _ (seal Debug sample_mid).1.1 (seal Debug sample_mid).1.2 sample_footer None I).
  - vm_compute. reflexivity.
  - apply settler_fits_test. vm_compute. reflexivity.
Defined.

(** Cut inside the second block, the index lost. *)
Lemma adopt_restores_witness : exists closed bs pend, part_inv Debug sample_mid.1 sample_mid.2 sample_header closed bs pend /\
  exists w' f' bs1 bs2,
    PartWriter_adopt Debug (mkPartFiles (take 100 (pf_data sample_mid.2)) [] (pf_dict sample_mid.2) false) 26 Zstd (Some sample_config) = Ok (w', f') /\
    part_inv Debug w' f' sample_header closed bs1 [] /\ bs = bs1 ++ bs2 /\ pf_data f' `prefix_of` take 100 (pf_data sample_mid.2) /\
    match bs2 with [] => True | b :: _ => 100 < PART_HEADER_LEN + zlen (data_of 0 7 (bs1 ++ [b])) end /\
    w_next_offset w' = 7 + zlen (recs_of bs1).
Proof.
  destruct sample_inv as (closed & bs & pend & I & _ & A). exists closed, bs, pend. split; [exact I|].
  apply (adopt_restores Debug _ _ _ _ _ _ 100 [] 26 Zstd (Some sample_config) I ltac:(done) A).
Defined.

(** A part whose dictionary has room for one string a block, and a late record with two of
    them: the record is refused, and its first string is in the dictionary's file. *)
Definition late_entries : list Entry := [(20, [(1, SU64 1)])].
Definition late_body : Body := [(1, SStr (repeat 98 17)); (2, SStr (repeat 98 17)); (1, SStr (repeat 99 17)); (2, SStr (repeat 99 17))].
Definition late_start : PartWriter * PartFiles := PartWriter_create sample_header 4096 Zstd (Some (mkDictConfig [(0, 2)] 1)).
Definition late_part : PartWriter * PartFiles := (appends Debug late_entries late_start).1.
Definition late_refused : PartWriter * PartFiles := (encode_body Debug late_body late_part).1.
Definition late_bytes : bytes := match (encode_body Debug late_body late_part).2 with Ok b => b | _ => [] end.

Definition dict_length (f : PartFiles) : Z := match pf_dict f with Some df => zlen (df_dict df) | None => 0 end.

Lemma late_part_runs : appends Debug late_entries late_start = ((late_part.1, late_part.2), Ok tt).
Proof. vm_compute. reflexivity. Qed.

Lemma late_inv : exists closed bs pend, part_inv Debug late_part.1 late_part.2 sample_header closed bs pend /\ last_of (recs_of bs ++ pend) = Some 20.
Proof.
  pose proof (PartWriter_create_inv Debug sample_header 4096 Zstd (Some (mkDictConfig [(0, 2)] 1)) sample_header_ok) as I0.
  assert (part_inv Debug late_start.1 late_start.2 sample_header [] [] []) as I1 by exact I0.
  destruct (appends_inv Debug late_entries late_start.1 late_start.2 sample_header [] [] [] late_part.1 late_part.2 I1) as (closed & bs & pend & I & E);
    [repeat (constructor || split); try done; vm_compute; done|done|done|exact late_part_runs|apply settler_fits_test; vm_compute; reflexivity|].
  exists closed, bs, pend. split; [exact I|]. rewrite <- (pi_last _ _ _ _ _ _ _ I). vm_compute. reflexivity.
Qed.

Lemma append_refuses_witness : dict_length late_part.2 = 8 /\ dict_length late_refused.2 = 58 /\
  exists closed bs pend, part_inv Debug late_part.1 late_part.2 sample_header closed bs pend /\
  append Debug 5 late_body (late_part.1, late_part.2) = ((late_refused.1, late_refused.2), Err (TimeBackwards 20 5)) /\
  late_refused.1 = set_w_dict late_part.1 (w_dict late_refused.1) /\ late_refused.2 = set_dict_files late_part.2 (pf_dict late_refused.2) /\
  settler_grows (settler late_part.1 late_part.2) (settler late_refused.1 late_refused.2) /\
  (w_dict late_part.1 = None -> late_refused.1 = late_part.1 /\ late_refused.2 = late_part.2) /\
  exists closed', part_inv Debug late_refused.1 late_refused.2 sample_header closed' bs pend.
Proof.
  split; [vm_compute; reflexivity|]. split; [vm_compute; reflexivity|]. destruct late_inv as (closed & bs & pend & I & E). exists closed, bs, pend. split; [exact I|].
  apply (append_refuses Debug _ _ _ _ _ _ 5 late_body late_refused.1 late_refused.2 late_bytes 20 I).
  - repeat (constructor || split); try done; vm_compute; done.
  - vm_compute. reflexivity.
  - apply settler_fits_test. vm_compute. reflexivity.
  - exact E.
  - done.
Defined.

(** A body whose string the dictionary takes over while it is encoded. *)
Definition sample_body : Body := [(1, SStr sample_text); (2, SStr sample_text); (3, SI64 (-1)); (4, SF64 5)].

Definition sample_encoded : Settler * sresult bytes := encode_with Debug (Some (Dict_create sample_config)) sample_body.

Lemma body_roundtrip_witness : exists d f b, encode_with Debug (Some (Dict_create sample_config)) sample_body = (Some (d, f), Ok b) /\
  decode_with Debug b (Some d) = Ok sample_body /\ settler_ok (Some (d, f)) /\ settler_grows (Some (Dict_create sample_config)) (Some (d, f)).
Proof.
  destruct sample_encoded as [[[d f]|] [b|e|]] eqn:E; try (vm_compute in E; discriminate E). exists d, f, b. split; [exact E|].
  apply (body_roundtrip Debug (Some (Dict_create sample_config)) sample_body (Some (d, f)) b (Some d)).
  - exists [], (fresh_block 2). apply create_inv.
  - repeat (constructor || split); try done; vm_compute; done.
  - exact E.
  - apply settler_fits_test. assert (settler_fitsb sample_encoded.1 = true) as F by (vm_compute; reflexivity). by rewrite E in F.
  - exists d. split; [done|]. apply covers_blocks. intros i x n t Ex _. by exists x.
Defined.

(** ** Dictionaries at their edges *)

Definition word (c : Z) : bytes := repeat c 17.

Definition words (l : list Z) : list Entry := map (λ c, (20, [(1, SStr (word c))])) l.

(** A part whose dictionary has no block yet, taken over: its next block is written at
    the front of the dictionary's file, over the file's own header, and what was written
    through it cannot be read. *)
Definition early : PartWriter * PartFiles := ((appends Debug (words [97]);; flush_block Debug) (PartWriter_create sample_header 4096 Zstd (Some sample_config))).1.

Definition early_adopted : sresult (PartWriter * PartFiles) := PartWriter_adopt Debug early.2 4096 Zstd (Some sample_config).

Example dict_header_overwritten :
  match early_adopted with
  | Ok s =>
      let s := (appends Debug (words [98; 98; 98]);; flush_block Debug) s in
      s.2 = Ok tt /\
      match pf_dict s.1.2 with Some df => slice (df_dict df) 0 4 = Some DICT_BLOCK_MAGIC | None => False end /\
      match PartReader_open Debug s.1.2 None with Ok r => read_from Debug r (pf_data s.1.2) 0 10 [] = Err (BadFrame FrameBody) | _ => False end
  | _ => False
  end.
Proof. vm_compute. split; [reflexivity|]. split; reflexivity. Qed.

(** The fourth block of a dictionary would have codes of sixteen bytes: the string that
    opens it panics. *)
Example third_full_block_panics :
  (appends Debug (words [97; 97; 98; 98; 99; 99; 100; 100]) (PartWriter_create sample_header 4096 Zstd (Some (mkDictConfig [(0, 2)] 1)))).2 = Panic.
Proof. vm_compute. reflexivity. Qed.

(** The 240th block and every block behind it share one code. *)
Lemma codes_collide i j : (239 <= i)%nat -> (239 <= j)%nat -> code_of i = code_of j.
Proof. intros Hi Hj. unfold code_of, DICT_BASE. lia. Qed.
