(* ===== verification/SerLog.v ===== *)
(** * Logs (okm-series, [lib.rs])

    A log is a directory of parts: a bucket of time, a stream inside it, and the
    stream's parts by number.  It stamps records with its clock, opens and seals parts
    as time and size go on, drops old buckets, and reads across all of them.  The
    clock is an argument of the operations that read it. *)
From S2P Require Import Prelude Errors SerFormat SerDict SerBody SerPart.

(** ** Directories *)

(** A bucket, and the partition's value if the log has partitions. *)
Abbreviation Place := (Z * option bytes)%type.

(** A part's path: where it is, its number, and whether its name ends in [.log]. *)
Abbreviation PartId := (Place * Z * bool)%type.

(** The parts of every directory, by number. *)
Abbreviation Root := (gmap Place (gmap Z PartFiles)).

(** A sort that keeps the order of equals: [sort_by_key], [sort_unstable] on distinct keys. *)
Fixpoint insert_sorted {A} (lt : A -> A -> bool) (x : A) (l : list A) : list A :=
  match l with [] => [x] | y :: l => if lt x y then x :: y :: l else y :: insert_sorted lt x l end.

Definition sort_by {A} (lt : A -> A -> bool) (l : list A) : list A := fold_left (λ out x, insert_sorted lt x out) l [].

Definition bytes_ltb (a b : bytes) : bool := match lex_compare a b with Lt => true | _ => false end.

Definition dir_of (root : Root) (place : Place) : gmap Z PartFiles := default ∅ (root !! place).

Definition part_numbers (dir : gmap Z PartFiles) : list Z := sort_by Z.ltb (map fst (map_to_list dir)).

Definition is_sealed (dir : gmap Z PartFiles) (n : Z) : bool := match dir !! n with Some f => pf_sealed f | None => false end.

Definition sealed_parts (dir : gmap Z PartFiles) : list Z := filter (λ n, is_sealed dir n = true) (part_numbers dir).

Definition open_part (dir : gmap Z PartFiles) : option Z := head (filter (λ n, is_sealed dir n = false) (part_numbers dir)).

Definition ids_of (root : Root) (place : Place) : list PartId :=
  let dir := dir_of root place in
  map (λ n, (place, n, true)) (sealed_parts dir) ++ match open_part dir with Some n => [(place, n, false)] | None => [] end.

Definition buckets_of (root : Root) : list Z := sort_by Z.ltb (remove_dups (map (λ kv, kv.1.1) (map_to_list root))).

Definition partitions_of (root : Root) (bucket : Z) : list bytes :=
  sort_by bytes_ltb (omap (λ kv : Place * gmap Z PartFiles, if kv.1.1 =? bucket then kv.1.2 else None) (map_to_list root)).

(** [all_parts]: by bucket, then partition, then number. *)
Definition all_parts (root : Root) : list PartId :=
  concat (map (λ bucket, ids_of root (bucket, None) ++ concat (map (λ v, ids_of root (bucket, Some v)) (partitions_of root bucket))) (buckets_of root)).

(** The file under a path. *)
Definition file_of (root : Root) (id : PartId) : option PartFiles :=
  f ← dir_of root id.1.1 !! id.1.2; if Bool.eqb (pf_sealed f) id.2 then Some f else None.

Definition put_file (root : Root) (place : Place) (n : Z) (f : PartFiles) : Root := <[place := <[n := f]> (dir_of root place)]> root.

(** ** Settings *)

Record SeriesConfig : Type := mkSeriesConfig {
  c_precision : Precision;
  c_bucket_seconds : Z;
  c_block_bytes : Z;
  c_part_bytes : Z;
  c_block_codec : Codec;
  c_dict : option DictConfig;
  c_partition_tag : option Z
}.

Record SeriesMeta : Type := mkSeriesMeta { epoch_unix_ms : Z; m_precision : Precision; m_bucket_seconds : Z; m_partition_tag : option Z }.

Definition check_meta (meta : SeriesMeta) (config : SeriesConfig) : sresult unit :=
  if negb (bool_decide (m_precision meta = c_precision config)) then Err (ConfigMismatch MetaPrecision)
  else if negb (m_bucket_seconds meta =? c_bucket_seconds config) then Err (ConfigMismatch MetaBucket)
  else if negb (bool_decide (m_partition_tag meta = c_partition_tag config)) then Err (ConfigMismatch MetaPartition)
  else Ok tt.

(** [None]: there is no [log.meta] yet. *)
Definition read_or_create_meta (meta : option SeriesMeta) (config : SeriesConfig) (now_ms : Z) : sresult SeriesMeta :=
  match meta with
  | Some m => check_meta m config;; Ok m
  | None => Ok (mkSeriesMeta now_ms (c_precision config) (c_bucket_seconds config) (c_partition_tag config))
  end.

(** The [LOCK] file names the writer; a process that is gone is no holder. *)
Definition acquire_lock (lock : option Z) (pid : Z) (alive : Z -> bool) : sresult (option Z) :=
  match lock with Some holder => if negb (holder =? pid) && alive holder then Err (Locked holder) else Ok (Some pid) | None => Ok (Some pid) end.

(** The roots this process holds. *)
Definition claim (held : gset bytes) (root : bytes) : sresult (gset bytes) := if bool_decide (root ∈ held) then Err AlreadyOpen else Ok ({[root]} ∪ held).

(** ** Partitions *)

Definition hex_of (b : bytes) : bytes :=
  concat (map (λ x, [if x / 16 <? 10 then 48 + x / 16 else 87 + x / 16; if x mod 16 <? 10 then 48 + x mod 16 else 87 + x mod 16]) b).

(** [to_digit(16)] *)
Definition to_digit (c : Z) : option Z :=
  if (48 <=? c) && (c <=? 57) then Some (c - 48)
  else if (97 <=? c) && (c <=? 102) then Some (c - 87)
  else if (65 <=? c) && (c <=? 70) then Some (c - 55)
  else None.

(** An odd length has no pairs. *)
Fixpoint unhex (text : bytes) : option bytes :=
  match text with
  | [] => Some []
  | [_] => None
  | hi :: lo :: text => h ← to_digit hi; l ← to_digit lo; rest ← unhex text; Some (h * 16 + l :: rest)
  end.

Definition partition_prefix : bytes := [112; 45].

Definition partition_dir_name (value : bytes) : bytes := partition_prefix ++ hex_of value.

Definition partition_of_dir (name : bytes) : option bytes :=
  if bool_decide (take 2 name = partition_prefix) then v ← unhex (drop 2 name); from_utf8 v else None.

(** ** State *)

(** A writer and the part it writes. *)
Record Active : Type := mkActive { a_place : Place; a_number : Z; a_writer : PartWriter }.

(** Parsed readers, with the file length they were built from. *)
Abbreviation Readers := (gmap PartId (Z * PartReader)).

Definition READER_CACHE_LIMIT : Z := 48.

Record Log : Type := mkLog {
  l_root : Root;
  l_meta : SeriesMeta;
  l_config : SeriesConfig;
  l_readers : Readers;
  l_active : list Active;
  l_last_ts : gmap (option bytes) Z
}.

Definition set_root (l : Log) (r : Root) : Log := mkLog r (l_meta l) (l_config l) (l_readers l) (l_active l) (l_last_ts l).
Definition set_readers (l : Log) (r : Readers) : Log := mkLog (l_root l) (l_meta l) (l_config l) r (l_active l) (l_last_ts l).
Definition set_active (l : Log) (a : list Active) : Log := mkLog (l_root l) (l_meta l) (l_config l) (l_readers l) a (l_last_ts l).
Definition set_log_ts (l : Log) (m : gmap (option bytes) Z) : Log := mkLog (l_root l) (l_meta l) (l_config l) (l_readers l) (l_active l) m.

(** A step of a log keeps what it did when it fails. *)
Definition lw (A : Type) : Type := Log -> Log * sresult A.

#[export] Instance lw_ret : MRet lw := λ A a s, (s, Ok a).
#[export] Instance lw_bind : MBind lw := λ A B f m s,
  match m s with (s, Ok a) => f a s | (s, Err e) => (s, Err e) | (s, Panic) => (s, Panic) end.

Definition get_log : lw Log := λ s, (s, Ok s).
Definition change (f : Log -> Log) : lw unit := λ s, (f s, Ok tt).
Definition lift_log {A : Type} (r : sresult A) : lw A := λ s, (s, r).

Section Log.
Context `{SeriesLib}.
Variable p : profile.
(** A float as [to_string] writes it. *)
Variable show_f64 : Z -> bytes.

(** [None]: a panic, the bucket of a log whose buckets have no width. *)
Definition bucket_of (meta : SeriesMeta) (ts : Z) : sresult Z :=
  if m_bucket_seconds meta =? 0 then Panic else Ok (ts / per_second (m_precision meta) / m_bucket_seconds meta).

Definition partition_of (body : Body) (tag : Z) : sresult bytes :=
  v ← ok_or (MissingPartition tag) (Body_get body tag);
  Ok (match v with SStr t => t | SU64 n => show_Z n | SI64 n => show_Z n | SF64 n => show_f64 n | SBytes b => hex_of b end).

(** ** Writers *)

(** A step of a writer on the files of its part. *)
Definition writer_step {A : Type} (root : Root) (a : Active) (m : pw A) : Root * Active * sresult A :=
  match dir_of root (a_place a) !! a_number a with
  | Some f => let '((w, f), r) := m (a_writer a, f) in (put_file root (a_place a) (a_number a) f, mkActive (a_place a) (a_number a) w, r)
  | None => (root, a, Err Io)
  end.

(** The writer at an index goes on. *)
Definition on_active {A : Type} (i : nat) (m : pw A) : lw A := λ s,
  match l_active s !! i with
  | Some a => let '(root, a, r) := writer_step (l_root s) a m in (set_active (set_root s root) (<[i := a]> (l_active s)), r)
  | None => (s, Err BadPath)
  end.

(** The writer at an index is taken out and sealed, whatever comes of it. *)
Definition seal_active (i : nat) : lw Footer := λ s,
  match l_active s !! i with
  | Some a => let '(root, _, r) := writer_step (l_root s) a (seal p) in (set_active (set_root s root) (delete i (l_active s)), r)
  | None => (s, Err BadPath)
  end.

(** A writer that is nobody's any more is sealed. *)
Definition seal_writer (a : Active) : lw Footer := λ s,
  let '(root, _, r) := writer_step (l_root s) a (seal p) in (set_root s root, r).

Definition active_index (l : list Active) (place : Place) : option nat := fst <$> list_find (λ a, a_place a = place) l.

Fixpoint seal_indices (l : list nat) : lw unit :=
  match l with [] => mret tt | i :: l => seal_active i;; seal_indices l end.

(** The last ones first, so that the indices stay right. *)
Definition seal_parts_older_than (cutoff : Z) (only : option (option bytes)) : lw unit :=
  s ← get_log;
  seal_indices (rev (map fst (filter (λ ia : nat * Active,
    ((a_place ia.2).1 <? cutoff) && match only with None => true | Some partition => bool_decide ((a_place ia.2).2 = partition) end = true)
    (imap pair (l_active s))))).

(** The highest end the parts of a directory report. *)
Fixpoint highest_end (root : Root) (ids : list PartId) (e : Z) : sresult Z :=
  match ids with
  | [] => Ok e
  | id :: ids =>
      match f ← ok_or Io (file_of root id); PartReader_open p f None with
      | Ok r => '(_, high) ← offset_span p r; highest_end root ids (e `max` high)
      | Err _ => highest_end root ids e
      | Panic => Panic
      end
  end.

Definition stream_next_offset (root : Root) (place : Place) : sresult Z := highest_end root (ids_of root place) 0.

(** The first number whose [.open] name is free. *)
Fixpoint free_number (fuel : nat) (dir : gmap Z PartFiles) (n : Z) : option Z :=
  match fuel with
  | O => None
  | Datatypes.S fuel =>
      match dir !! n with Some f => if pf_sealed f then Some n else free_number fuel dir (n + 1) | None => Some n end
  end.

(** A writer is needed: there is none, or its part is full. *)
Definition is_full (s : Log) (place : Place) : sresult bool :=
  match active_index (l_active s) place with
  | None => Ok true
  | Some i =>
      a ← ok_or BadPath (l_active s !! i);
      bytes ← add_w p 64 (written_bytes (a_writer a)) (pending_bytes (a_writer a));
      Ok (c_part_bytes (l_config s) <=? bytes)
  end.

(** A new part behind the others of its stream's directory. *)
Definition create_part (place : Place) (ts now_ms : Z) : lw unit :=
  change (λ s, set_root s (<[place := dir_of (l_root s) place]> (l_root s)));;
  s ← get_log;
  let dir := dir_of (l_root s) place in
  number ← lift_log (match last (part_numbers dir) with Some n => add_w p 32 n 1 | None => Ok 0 end);
  n ← lift_log (ok_or BadPath (free_number (Z.to_nat (1024 `min` (2 ^ 32 - 1 - number))) dir number));
  first_offset ← lift_log (stream_next_offset (l_root s) place);
  let header := mkPartHeader (m_precision (l_meta s)) place.1 ts first_offset now_ms in
  let '(w, f) := PartWriter_create header (c_block_bytes (l_config s)) (c_block_codec (l_config s)) (c_dict (l_config s)) in
  change (λ s, set_active (set_root s (put_file (l_root s) place n f)) (l_active s ++ [mkActive place n w])).

Definition ensure_part (place : Place) (ts now_ms : Z) : lw unit :=
  seal_parts_older_than place.1 (Some place.2);;
  s ← get_log;
  full ← lift_log (is_full s place);
  if negb full then mret tt
  else
    match active_index (l_active s) place with Some i => seal_active i;; mret tt | None => mret tt end;;
    create_part place ts now_ms.

(** The clock, held at the stream's last record. *)
Definition stamp (s : Log) (partition : option bytes) (now : Z) : Z :=
  match l_last_ts s !! partition with Some last => now `max` last | None => now end.

Definition log_append (now now_ms : Z) (body : Body) : lw Z :=
  s ← get_log;
  partition ← lift_log (match m_partition_tag (l_meta s) with Some tag => v ← partition_of body tag; Ok (Some v) | None => Ok None end);
  let ts := stamp s partition now in
  bucket ← lift_log (bucket_of (l_meta s) ts);
  ensure_part (bucket, partition) ts now_ms;;
  s ← get_log;
  i ← lift_log (ok_or BadPath (active_index (l_active s) (bucket, partition)));
  offset ← on_active i (append p ts body);
  change (λ s, set_log_ts s (<[partition := ts]> (l_last_ts s)));;
  mret offset.

Fixpoint flush_indices (l : list nat) : lw unit :=
  match l with [] => mret tt | i :: l => on_active i (flush_block p);; flush_indices l end.

Definition log_flush : lw unit := s ← get_log; flush_indices (seq 0 (length (l_active s))).

Definition append_durable (now now_ms : Z) (body : Body) : lw Z := offset ← log_append now now_ms body; log_flush;; mret offset.

(** The writers are taken out first; a failure drops those behind it unsealed. *)
Fixpoint seal_taken (l : list Active) : lw (list Footer) :=
  match l with
  | [] => mret []
  | a :: l =>
      footer ← seal_writer a;
      footers ← seal_taken l;
      mret (footer :: footers)
  end.

Definition log_seal : lw (list Footer) :=
  s ← get_log;
  change (λ s, set_active (set_readers s ∅) []);;
  seal_taken (l_active s).

(** A bucket goes when it is old and no writer is in it. *)
Definition is_dropped (s : Log) (cutoff bucket : Z) : bool :=
  (bucket <? cutoff) && negb (existsb (λ a, (a_place a).1 =? bucket) (l_active s)).

Definition retain_before (ts : Z) : lw (list Z) :=
  s ← get_log;
  cutoff ← lift_log (bucket_of (l_meta s) ts);
  seal_parts_older_than cutoff None;;
  change (λ s, set_readers s ∅);;
  s ← get_log;
  change (λ s, set_root s (filter (λ kv, is_dropped s cutoff kv.1.1 = false) (l_root s)));;
  mret (filter (λ bucket, is_dropped s cutoff bucket = true) (buckets_of (l_root s))).

(** ** Reading *)

Inductive Which : Type := EveryStream | Stream (partition : option bytes).

Definition which_covers (which : Which) (partition : option bytes) : bool :=
  match which with EveryStream => true | Stream want => bool_decide (partition = want) end.

Definition is_every_stream (which : Which) : bool := match which with EveryStream => true | Stream _ => false end.

(** By the number their headers start at; a part whose header cannot be read is passed over. *)
Definition parts_by_offset (root : Root) : list PartId :=
  map snd (sort_by (λ x y : Z * PartId, x.1 <? y.1)
    (omap (λ id, f ← file_of root id; match first_offset_of (pf_data f) with Ok o => Some (o, id) | _ => None end) (all_parts root))).

(** A reader built from as many bytes as the file has is used again. *)
Definition reader_for (root : Root) (dict : option DictConfig) (readers : Readers) (id : PartId) : Readers * sresult PartReader :=
  match file_of root id with
  | None => (readers, Err Io)
  | Some f =>
      let fresh :=
        match PartReader_open p f dict with
        | Ok r =>
            let readers := if READER_CACHE_LIMIT <=? Z.of_nat (size readers) then ∅ else readers in
            (<[id := (zlen (pf_data f), r)]> readers, Ok r)
        | e => (readers, e)
        end in
      match readers !! id with Some (n, r) => if n =? zlen (pf_data f) then (readers, Ok r) else fresh | None => fresh end
  end.

(** The file of a reader, opened again. *)
Definition reopened (root : Root) (id : PartId) : sresult bytes := f ← ok_or Io (file_of root id); Ok (pf_data f).

(** The parts that may hold a row are read, one behind the other. *)
Fixpoint read_parts (root : Root) (dict : option DictConfig) (which : Which) (max : Z)
    (read : PartReader -> bytes -> list Row -> sresult (list Row)) (skip : PartReader -> sresult bool)
    (ids : list PartId) (readers : Readers) (out : list Row) : Readers * sresult (list Row) :=
  match ids with
  | [] => (readers, Ok out)
  | id :: ids =>
      if max <=? zlen out then (readers, Ok out)
      else if negb (which_covers which id.1.1.2) then read_parts root dict which max read skip ids readers out
      else
        match reader_for root dict readers id with
        | (readers, Ok r) =>
            match skip r with
            | Ok true => read_parts root dict which max read skip ids readers out
            | Ok false =>
                match data ← reopened root id; read r data out with
                | Ok out => read_parts root dict which max read skip ids readers out
                | Err e => (readers, Err e)
                | Panic => (readers, Panic)
                end
            | Err e => (readers, Err e)
            | Panic => (readers, Panic)
            end
        | (readers, Err e) => (readers, Err e)
        | (readers, Panic) => (readers, Panic)
        end
  end.

Definition row_lt (x y : Row) : bool := (x.1.1 <? y.1.1) || ((x.1.1 =? y.1.1) && (x.1.2 <? y.1.2)).

(** Several streams are answered in the order of time. *)
Definition in_time_order (which : Which) (rows : list Row) : list Row := if is_every_stream which then sort_by row_lt rows else rows.

Definition read_streams (root : Root) (dict : option DictConfig) (readers : Readers) (which : Which) (from max : Z) : Readers * sresult (list Row) :=
  let '(readers, r) := read_parts root dict which max
    (λ r data out, read_from p r data (from `max` h_first_offset (pr_header r)) max out)
    (λ r, '(_, e) ← offset_span p r; Ok (e <=? from)) (parts_by_offset root) readers [] in
  (readers, rows ← r; Ok (in_time_order which rows)).

Definition read_by_time_streams (root : Root) (dict : option DictConfig) (readers : Readers) (which : Which) (from to max : Z)
    : Readers * sresult (list Row) :=
  let '(readers, r) := read_parts root dict which max
    (λ r data out, part_read_by_time p r data from to max out)
    (λ r, Ok (match pr_span r with Some (first, last) => (last <? from) || (to <? first) | None => true end)) (parts_by_offset root) readers [] in
  (readers, rows ← r; Ok (in_time_order which rows)).

Definition log_read (which : Which) (from max : Z) : lw (list Row) := λ s,
  let '(readers, r) := read_streams (l_root s) (c_dict (l_config s)) (l_readers s) which from max in (set_readers s readers, r).

Definition log_read_by_time (which : Which) (from to max : Z) : lw (list Row) := λ s,
  let '(readers, r) := read_by_time_streams (l_root s) (c_dict (l_config s)) (l_readers s) which from to max in (set_readers s readers, r).

(** ** What is on disk *)

Record PartInfo : Type := mkPartInfo {
  i_id : PartId;
  i_first_offset : Z;
  i_records : Z;
  i_first_ts : Z;
  i_last_ts : Z;
  i_bytes : Z
}.

Fixpoint part_infos (root : Root) (dict : option DictConfig) (ids : list PartId) (readers : Readers) : Readers * sresult (list PartInfo) :=
  match ids with
  | [] => (readers, Ok [])
  | id :: ids =>
      match reader_for root dict readers id with
      | (readers, Ok r) =>
          match '(first, e) ← offset_span p r; data ← reopened root id;
            (let span := default (0, 0) (pr_span r) in Ok (mkPartInfo id first (e - first) span.1 span.2 (zlen data))) with
          | Ok info => let '(readers, r) := part_infos root dict ids readers in (readers, infos ← r; Ok (info :: infos))
          | Err e => (readers, Err e)
          | Panic => (readers, Panic)
          end
      | (readers, Err e) => (readers, Err e)
      | (readers, Panic) => (readers, Panic)
      end
  end.

Definition log_parts (s : Log) : Readers * sresult (list PartInfo) :=
  part_infos (l_root s) (c_dict (l_config s)) (parts_by_offset (l_root s)) (l_readers s).

(** ** Opening *)

(** A part found on opening: its stream's last time, and its writer if it is open. *)
Definition recover_part (now : Z) (id : PartId) : lw unit :=
  s ← get_log;
  f ← lift_log (ok_or Io (file_of (l_root s) id));
  r ← lift_log (PartReader_open p f (c_dict (l_config s)));
  match pr_span r with
  | Some (_, last) => change (λ s, set_log_ts s (<[id.1.1.2 := match l_last_ts s !! id.1.1.2 with Some seen => seen `max` last | None => last end]> (l_last_ts s)))
  | None => mret tt
  end;;
  s ← get_log;
  if pr_sealed r || match active_index (l_active s) id.1.1 with Some _ => true | None => false end then mret tt
  else
    '(w, f) ← lift_log (PartWriter_adopt p f (c_block_bytes (l_config s)) (c_block_codec (l_config s)) (c_dict (l_config s)));
    change (λ s, set_root s (put_file (l_root s) id.1.1 id.1.2 f));;
    bucket ← lift_log (bucket_of (l_meta s) now);
    if id.1.1.1 <? bucket
    then (seal_writer (mkActive id.1.1 id.1.2 w);; mret tt)
    else change (λ s, set_active s (l_active s ++ [mkActive id.1.1 id.1.2 w])).

Fixpoint recover_parts (now : Z) (ids : list PartId) : lw unit :=
  match ids with [] => mret tt | id :: ids => recover_part now id;; recover_parts now ids end.

(** The recovery of [Log::open], behind the lock and the claim. *)
Definition Log_open (root : Root) (meta : option SeriesMeta) (config : SeriesConfig) (now now_ms : Z) : Log * sresult unit :=
  match read_or_create_meta meta config now_ms with
  | Ok m => recover_parts now (all_parts root) (mkLog root m config ∅ [] ∅)
  | Err e => (mkLog root (mkSeriesMeta 0 P_S 0 None) config ∅ [] ∅, Err e)
  | Panic => (mkLog root (mkSeriesMeta 0 P_S 0 None) config ∅ [] ∅, Panic)
  end.

(** [LogReader::open]: there is a log, and it is the one asked for. *)
Definition LogReader_open (meta : option SeriesMeta) (config : SeriesConfig) : sresult SeriesMeta :=
  m ← ok_or (BadMeta MetaFile) meta; check_meta m config;; Ok m.
End Log.
