(* ===== verification/SerLogTime.v ===== *)
(** * A log's clock (okm-series, [lib.rs])

    A log stamps a record with its clock, held at the stream's last record.  The times
    of a log never fall, so the part's refusal of an older record never reaches its
    caller, for any sequence of operations that succeed. *)
From S2P Require Import Prelude SerFormat SerDict SerSamples SerBody SerPart SerLog.

(** ** No step but one refuses a time *)

Definition backwards (e : SeriesError) : bool := match e with TimeBackwards _ _ => true | _ => false end.

(** A computation that never fails that way. *)
Definition quiet {A} (r : sresult A) : Prop := match r with Err e => backwards e = false | _ => True end.

Definition quiet_pw {A} (m : pw A) : Prop := forall s, quiet (m s).2.
Definition quiet_lw {A} (m : lw A) : Prop := forall s, quiet (m s).2.

Section Quiet.
Context `{SeriesLib}.
Variable p : profile.

Lemma quiet_ok {A} (a : A) : quiet (Ok a).
Proof. done. Qed.

Lemma quiet_bind {A B} (m : sresult A) (f : A -> sresult B) : quiet m -> (forall a, quiet (f a)) -> quiet (m ≫= f).
Proof. intros Q F. destruct m; [apply F|done..]. Qed.

Lemma quiet_ok_or {A} e (o : option A) : backwards e = false -> quiet (ok_or e o).
Proof. by destruct o. Qed.

Lemma quiet_add_w w a b : quiet (add_w p w a b).
Proof. unfold add_w. destruct (_ <? _); [done|]. by destruct p. Qed.

Lemma quiet_pw_ret {A} (a : A) : quiet_pw (mret a).
Proof. done. Qed.

Lemma quiet_pw_bind {A B} (m : pw A) (f : A -> pw B) : quiet_pw m -> (forall a, quiet_pw (f a)) -> quiet_pw (m ≫= f).
Proof. intros Q F s. unfold mbind, pw_bind. specialize (Q s). destruct (m s) as [s1 [a|e|]]; [apply F|done..]. Qed.

Lemma quiet_get_w : quiet_pw get_w.
Proof. done. Qed.

Lemma quiet_modify f : quiet_pw (modify f).
Proof. done. Qed.

Lemma quiet_lift {A} (r : sresult A) : quiet r -> quiet_pw (lift r).
Proof. intros Q s. exact Q. Qed.

Lemma quiet_write_data at_ b : quiet_pw (write_data at_ b).
Proof. done. Qed.

Lemma quiet_append_index b : quiet_pw (append_index b).
Proof. done. Qed.

Lemma quiet_mark_sealed : quiet_pw mark_sealed.
Proof. done. Qed.

Lemma quiet_block_payload codec raw : quiet (block_payload codec raw).
Proof. destruct codec; [done|]. cbn [block_payload]. by destruct (zstd_compress raw). Qed.

Lemma quiet_as_u32 v : quiet (as_u32 v).
Proof. unfold as_u32. by destruct (_ <? _). Qed.

Lemma quiet_flush_open d f : quiet (flush_open_block d f).2.
Proof.
  unfold flush_open_block. destruct (_ !! _) as [b|]; [|done]. destruct (k_entries b); [done|]. destruct (zstd_compress _) as [c|]; [|done].
  destruct (if zlen c <? _ then _ else _). by destruct (negb _).
Qed.

Lemma quiet_flush_if_dirty d f : quiet (flush_if_dirty d f).2.
Proof.
  unfold flush_if_dirty. destruct (_ !! _) as [b|]; [|done]. destruct (k_entries b); [done|]. pose proof (quiet_flush_open d f) as Q.
  by destruct (flush_open_block d f) as [[d1 f1] [[]|e|]].
Qed.

Lemma quiet_with_dict {A} (none : A) step : (forall d f, quiet (step d f).2) -> quiet_pw (with_dict none step).
Proof.
  intros Q s. unfold with_dict. destruct (w_dict s.1) as [d|]; [|done]. destruct (pf_dict s.2) as [f|]; [|done]. specialize (Q d f). by destruct (step d f) as [[d1 f1] r].
Qed.

Lemma quiet_if {A} (c : bool) (x y : pw A) : quiet_pw x -> quiet_pw y -> quiet_pw (if c then x else y).
Proof. by destruct c. Qed.
End Quiet.

(** Walks a computation step by step. *)
Ltac quiet_step :=
  repeat lazymatch goal with
    | |- forall _, _ => intro
    | |- quiet_pw (let _ := _ in _) => cbv zeta
    | |- quiet_pw (mbind _ _) => apply quiet_pw_bind
    | |- quiet_pw (lift _) => apply quiet_lift
    | |- quiet_pw (with_dict _ _) => apply quiet_with_dict
    | |- quiet_pw (if _ then _ else _) => apply quiet_if
    | |- quiet_pw (match ?x with _ => _ end) => destruct x
    | |- quiet_pw get_w => apply quiet_get_w
    | |- quiet_pw (modify _) => apply quiet_modify
    | |- quiet_pw (write_data _ _) => apply quiet_write_data
    | |- quiet_pw (append_index _) => apply quiet_append_index
    | |- quiet_pw mark_sealed => apply quiet_mark_sealed
    | |- quiet_pw (mret _) => apply quiet_pw_ret
    | |- quiet (ok_or _ _) => apply quiet_ok_or; reflexivity
    | |- quiet (add_w _ _ _ _) => apply quiet_add_w
    | |- quiet (block_payload _ _) => apply quiet_block_payload
    | |- quiet (as_u32 _) => apply quiet_as_u32
    | |- quiet (flush_if_dirty _ _).2 => apply quiet_flush_if_dirty
    | |- quiet (Dict_finish _ _).2 => apply quiet_flush_open
    end.

Section Steps.
Context `{SeriesLib}.
Variable p : profile.

Lemma quiet_put_block : quiet_pw (put_block p).
Proof. unfold put_block. quiet_step. Qed.

Lemma quiet_flush_block : quiet_pw (flush_block p).
Proof. unfold flush_block. quiet_step. apply quiet_put_block. Qed.

Lemma quiet_seal : quiet_pw (seal p).
Proof. unfold seal. apply quiet_pw_bind; [apply quiet_flush_block|]. quiet_step. Qed.

Lemma quiet_promote d f text : quiet (promote d f text).2.
Proof. unfold promote. destruct (_ !! _) as [b|]; [|done]. destruct (if _ <=? _ then _ else _) as [d1 f1]. by destruct (_ !! _). Qed.

Lemma quiet_settle d f text : quiet (settle p d f text).2.
Proof.
  unfold settle. destruct (d_promoted d !! text); [done|]. set (r := match d_counts d !! _ with Some _ => _ | None => _ end).
  assert (quiet r) as Q by (unfold r; destruct (d_counts d !! _); [|done]; apply quiet_bind; [apply quiet_add_w|done]). clearbody r.
  destruct r as [[counts count]|e|]; [|done..]. destruct (b ← _; threshold_for _ _ _) as [t|]; [|done]. destruct (count <? t); [done|].
  pose proof (quiet_promote (set_counts d (delete (xxh64 text) counts)) f text) as P. by destruct (promote _ f text) as [[d1 f1] [ci|e|]].
Qed.

Lemma quiet_encode_value s v : quiet (encode_value p s v).2.
Proof.
  destruct v as [b|t|n|n|n]; cbn [encode_value snd]; try done. unfold encode_str. destruct s as [[d f]|]; [|done].
  pose proof (quiet_settle d f t) as Q. destruct (settle p d f t) as [[d1 f1] [[[code id]|]|e|]]; cbn [snd] in *; try done. unfold code_bytes. by destruct (8 <? _).
Qed.

Lemma quiet_encode_with body : forall s, quiet (encode_with p s body).2.
Proof.
  induction body as [|[tag v] body IH]; intros s; [done|]. cbn [encode_with]. pose proof (quiet_encode_value s v) as Q.
  destruct (encode_value p s v) as [s1 [b|e|]]; [|done..]. specialize (IH s1). destruct (encode_with p s1 body) as [s2 r]. cbn [snd] in *. by apply quiet_bind.
Qed.

Lemma encode_body_last body w f : quiet (encode_body p body (w, f)).2 /\ w_last_ts (encode_body p body (w, f)).1.1 = w_last_ts w.
Proof.
  unfold encode_body. cbn [fst snd]. destruct (w_dict w) as [d|]; [|split; [apply quiet_encode_with|done]]. destruct (pf_dict f) as [df|]; [|split; [apply quiet_encode_with|done]].
  pose proof (quiet_encode_with body (Some (d, df))) as Q. destruct (encode_with p (Some (d, df)) body) as [[[d1 df1]|] r]; done.
Qed.

(** ** The last time of a writer *)

Definition same_ts {A} (m : pw A) : Prop := forall s, w_last_ts (m s).1.1 = w_last_ts s.1.

Lemma same_ts_bind {A B} (m : pw A) (f : A -> pw B) : same_ts m -> (forall a, same_ts (f a)) -> same_ts (m ≫= f).
Proof. intros Q F s. unfold mbind, pw_bind. specialize (Q s). destruct (m s) as [s1 [a|e|]]; cbn [fst] in *; [rewrite <- Q; apply F|done..]. Qed.

Lemma same_ts_modify g : (forall w, w_last_ts (g w) = w_last_ts w) -> same_ts (modify g).
Proof. intros E s. apply E. Qed.

Lemma modify_ts w next count ts s u : modify (λ w, set_last_ts (set_counters w next count) (Some ts)) w = (s, Ok u) -> w_last_ts s.1 = Some ts.
Proof. intros [= <- _]. done. Qed.

Lemma same_ts_with_dict {A} (none : A) step : same_ts (with_dict none step).
Proof. intros s. unfold with_dict. destruct (w_dict s.1) as [d|]; [|done]. destruct (pf_dict s.2) as [f|]; [|done]. by destruct (step d f) as [[d1 f1] r]. Qed.

Lemma same_ts_flush : same_ts (flush_block p).
Proof.
  assert (same_ts (put_block p)) as Q.
  { unfold put_block. repeat lazymatch goal with
      | |- forall _, _ => intro
      | |- same_ts (let _ := _ in _) => cbv zeta
      | |- same_ts (mbind _ _) => apply same_ts_bind
      | |- same_ts (modify _) => by apply same_ts_modify
      | |- same_ts (match ?x with _ => _ end) => destruct x
      | |- same_ts _ => done
      end. }
  unfold flush_block. apply same_ts_bind; [done|]. intros w. destruct (_ =? _); [done|]. apply same_ts_bind; [apply same_ts_with_dict|done].
Qed.

(** What a bind comes to. *)
Lemma bind_ends {A B} (m : pw A) (f : A -> pw B) (P : PartWriter * PartFiles -> sresult B -> Prop) s :
  (forall s1 a, m s = (s1, Ok a) -> P (f a s1).1 (f a s1).2) -> (forall s1 e, m s = (s1, Err e) -> P s1 (Err e)) ->
  (forall s1, m s = (s1, Panic) -> P s1 Panic) -> P ((m ≫= f) s).1 ((m ≫= f) s).2.
Proof. intros H1 H2 H3. unfold mbind, pw_bind. destruct (m s) as [s1 [a|e|]]; cbn [fst snd]; [by apply H1|by apply H2|by apply H3]. Qed.

(** Refused for another reason than its time, or recorded at it. *)
Definition stamped_at (ts : Z) (s : PartWriter * PartFiles) (r : sresult Z) : Prop := quiet r /\ forall off, r = Ok off -> w_last_ts s.1 = Some ts.

Lemma stamped_bind {A} (m : pw A) f ts s : quiet (m s).2 -> (forall s1 a, m s = (s1, Ok a) -> stamped_at ts (f a s1).1 (f a s1).2) -> stamped_at ts ((m ≫= f) s).1 ((m ≫= f) s).2.
Proof.
  intros Q H1. apply (bind_ends m f (stamped_at ts)); [done|intros s1 e E; rewrite E in Q; by split|intros s1 E; by split].
Qed.

(** An append at the last record's time or later. *)
Lemma append_time w f ts body : (forall t, w_last_ts w = Some t -> t <= ts) -> stamped_at ts (append p ts body (w, f)).1 (append p ts body (w, f)).2.
Proof.
  intros L. unfold append. destruct (encode_body_last body w f) as [Q E]. apply stamped_bind; [done|]. intros [w1 f1] enc E1. rewrite E1 in E. cbn [fst] in E. rewrite <- E in L. clear E Q E1.
  apply stamped_bind.
  { unfold delta_of, get_w, mbind, pw_bind. cbn [fst]. destruct (w_last_ts w1) as [t|]; [|done]. specialize (L t eq_refl). rewrite (proj2 (Z.ltb_ge _ _)) by done. done. }
  intros s2 delta _. apply stamped_bind; [done|]. intros s3 u3 _. apply stamped_bind; [done|]. intros s4 w4 _. apply stamped_bind; [apply quiet_lift, quiet_ok_or; done|]. intros s5 b _.
  apply stamped_bind; [done|]. intros s6 u6 _. apply stamped_bind; [apply quiet_lift, quiet_add_w|]. intros s7 next _. apply stamped_bind; [apply quiet_lift, quiet_add_w|]. intros s8 count _.
  apply stamped_bind; [done|]. intros s9 u9 E9. apply modify_ts in E9. apply stamped_bind; [destruct (_ <=? _); [apply quiet_flush_block|done]|]. intros s10 u10 E10.
  split; [done|]. intros off _. rewrite <- E9. destruct (_ <=? _); [|by injection E10 as <-]. pose proof (same_ts_flush s9) as S. by rewrite E10 in S.
Qed.
End Steps.

(** ** Operations on a log *)

Inductive LogOp : Type :=
| OpAppend (now now_ms : Z) (body : Body)
| OpDurable (now now_ms : Z) (body : Body)
| OpFlush
| OpSeal
| OpRetain (ts : Z)
| OpRead (which : Which) (from max : Z)
| OpReadByTime (which : Which) (from to max : Z).

Section Ops.
Context `{SeriesLib}.
Variable p : profile.
Variable show_f64 : Z -> bytes.

Definition run_op (o : LogOp) : lw unit :=
  match o with
  | OpAppend now now_ms body => log_append p show_f64 now now_ms body;; mret tt
  | OpDurable now now_ms body => append_durable p show_f64 now now_ms body;; mret tt
  | OpFlush => log_flush p
  | OpSeal => log_seal p;; mret tt
  | OpRetain ts => retain_before p ts;; mret tt
  | OpRead which from max => log_read p which from max;; mret tt
  | OpReadByTime which from to max => log_read_by_time p which from to max;; mret tt
  end.

(** The states a new log goes through while its operations succeed. *)
Inductive reached (config : SeriesConfig) : Log -> Prop :=
| reached_open now now_ms s : Log_open p ∅ None config now now_ms = (s, Ok tt) -> reached config s
| reached_step o s s' : reached config s -> run_op o s = (s', Ok tt) -> reached config s'.

(** No writer is ahead of its stream's last time. *)
Definition time_ok (s : Log) : Prop := forall a t, a ∈ l_active s -> w_last_ts (a_writer a) = Some t ->
  exists t', l_last_ts s !! (a_place a).2 = Some t' /\ t <= t'.

(** A step that keeps it so and stamps nothing, and fails for other reasons than a time. *)
Definition calm {A} (m : lw A) : Prop := forall s, time_ok s -> quiet (m s).2 /\ time_ok (m s).1 /\ l_last_ts (m s).1 = l_last_ts s.

Lemma calm_bind {A B} (m : lw A) (f : A -> lw B) : calm m -> (forall a, calm (f a)) -> calm (m ≫= f).
Proof.
  intros Q F s T. unfold mbind, lw_bind. specialize (Q s T). destruct (m s) as [s1 [a|e|]]; cbn [fst snd] in *; [|exact Q|exact Q].
  destruct Q as (_ & T1 & E). destruct (F a s1 T1) as (Q2 & T2 & E2). by rewrite E2, E.
Qed.

Lemma calm_ret {A} (a : A) : calm (mret a).
Proof. intros s T. done. Qed.

Lemma calm_get : calm get_log.
Proof. intros s T. done. Qed.

Lemma calm_lift {A} (r : sresult A) : quiet r -> calm (lift_log r).
Proof. intros Q s T. done. Qed.

Lemma calm_change f : (forall s, time_ok s -> time_ok (f s) /\ l_last_ts (f s) = l_last_ts s) -> calm (change f).
Proof. intros F s T. split; [done|by apply F]. Qed.

Lemma time_ok_sub s s' : time_ok s -> (forall a, a ∈ l_active s' -> a ∈ l_active s) -> l_last_ts s' = l_last_ts s -> time_ok s'.
Proof. intros T S E a t Ha Et. rewrite E. by apply (T a t); [apply S|]. Qed.

Lemma quiet_writer_step {A : Type} root a (m : pw A) : quiet_pw m -> quiet (writer_step root a m).2.
Proof.
  intros Q. unfold writer_step. destruct (_ !! _) as [f|]; [|done]. specialize (Q (a_writer a, f)). by destruct (m (a_writer a, f)) as [[w f'] r].
Qed.

Lemma calm_seal_active i : calm (seal_active p i).
Proof.
  intros s T. unfold seal_active. destruct (l_active s !! i) as [a|]; [|done]. pose proof (quiet_writer_step (l_root s) a _ (quiet_seal p)) as Q.
  destruct (writer_step (l_root s) a (seal p)) as [[root a'] r]. split; [exact Q|]. split; [|done]. apply (time_ok_sub s); [done| |done].
  intros x Hx. cbn [fst set_active set_root l_active] in Hx. apply list_elem_of_lookup in Hx as (j & Hx). destruct (Nat.lt_ge_cases j i) as [L|L].
  - rewrite list_lookup_delete_lt in Hx by done. by eapply list_elem_of_lookup_2.
  - rewrite list_lookup_delete_ge in Hx by done. by eapply list_elem_of_lookup_2.
Qed.

Lemma calm_seal_writer a : calm (seal_writer p a).
Proof.
  intros s T. unfold seal_writer. pose proof (quiet_writer_step (l_root s) a _ (quiet_seal p)) as Q.
  destruct (writer_step (l_root s) a (seal p)) as [[root a'] r]. by split.
Qed.

Lemma calm_seal_indices l : calm (seal_indices p l).
Proof. induction l as [|i l IH]; cbn [seal_indices]; [apply calm_ret|]. apply calm_bind; [apply calm_seal_active|done]. Qed.

Lemma calm_seal_older cutoff only : calm (seal_parts_older_than p cutoff only).
Proof. apply calm_bind; [apply calm_get|]. intros s. apply calm_seal_indices. Qed.

Lemma quiet_offset_span r : quiet (offset_span p r).
Proof.
  unfold offset_span. apply quiet_bind; [|done]. destruct (pr_footer r); [apply quiet_add_w|]. destruct (last _); [apply quiet_add_w|done].
Qed.

Lemma quiet_highest_end root ids : forall e, quiet (highest_end p root ids e).
Proof.
  induction ids as [|id ids IH]; intros e; [done|]. cbn [highest_end]. destruct (f ← _; _) as [r|e'|]; [|apply IH|done].
  apply quiet_bind; [apply quiet_offset_span|]. intros [a b]. apply IH.
Qed.

Lemma quiet_is_full s place : quiet (is_full p s place).
Proof.
  unfold is_full. destruct (active_index _ _); [|done]. apply quiet_bind; [by apply quiet_ok_or|]. intros a. apply quiet_bind; [apply quiet_add_w|done].
Qed.

Lemma calm_create_part place ts now_ms : calm (create_part p place ts now_ms).
Proof.
  apply calm_bind; [by apply calm_change|]. intros _. apply calm_bind; [apply calm_get|]. intros s0. apply calm_bind.
  { apply calm_lift. destruct (last _); [apply quiet_add_w|done]. }
  intros number. apply calm_bind; [by apply calm_lift, quiet_ok_or|]. intros n. apply calm_bind; [apply calm_lift, quiet_highest_end|]. intros first. cbv zeta.
  unfold PartWriter_create. apply calm_change. intros s T. split; [|done]. intros a t Ha Et. cbn [set_active set_root l_active l_last_ts] in *. apply elem_of_app in Ha as [Ha|Ha]; [by apply (T a t)|].
  apply list_elem_of_singleton in Ha as ->. done.
Qed.

Lemma calm_ensure_part place ts now_ms : calm (ensure_part p place ts now_ms).
Proof.
  apply calm_bind; [apply calm_seal_older|]. intros _. apply calm_bind; [apply calm_get|]. intros s0. apply calm_bind; [apply calm_lift, quiet_is_full|].
  intros full. destruct (negb full); [apply calm_ret|]. apply calm_bind; [|intros _; apply calm_create_part].
  destruct (active_index _ _); [|apply calm_ret]. apply calm_bind; [apply calm_seal_active|]. intros _. apply calm_ret.
Qed.

Lemma calm_flush_indices l : calm (flush_indices p l).
Proof.
  induction l as [|i l IH]; cbn [flush_indices]; [apply calm_ret|]. apply calm_bind; [|done]. intros s T. unfold on_active. destruct (l_active s !! i) as [a|] eqn:Ei; [|done].
  unfold writer_step. destruct (dir_of _ _ !! _) as [f|]; [|by split; [|split; [apply (time_ok_sub s); [|cbn; by rewrite list_insert_id|]|]]].
  pose proof (quiet_flush_block p (a_writer a, f)) as Q. pose proof (same_ts_flush p (a_writer a, f)) as E. destruct (flush_block p (a_writer a, f)) as [[w f'] r]. cbn [fst snd] in *.
  split; [exact Q|]. split; [|done]. intros x t Hx Et. cbn [set_active set_root l_active l_last_ts] in *. apply list_elem_of_lookup in Hx as (j & Hx). destruct (decide (i = j)) as [<-|N].
  - rewrite list_lookup_insert_eq in Hx by (by eapply lookup_lt_Some). injection Hx as <-. cbn [a_writer a_place] in *. rewrite E in Et. apply (T a t); [by eapply list_elem_of_lookup_2|done].
  - rewrite list_lookup_insert_ne in Hx by done. apply (T x t); [by eapply list_elem_of_lookup_2|done].
Qed.

Lemma calm_log_flush : calm (log_flush p).
Proof. apply calm_bind; [apply calm_get|]. intros s. apply calm_flush_indices. Qed.

Lemma calm_seal_taken l : calm (seal_taken p l).
Proof.
  induction l as [|a l IH]; cbn [seal_taken]; [apply calm_ret|]. apply calm_bind; [apply calm_seal_writer|]. intros ft. apply calm_bind; [done|]. intros fts. apply calm_ret.
Qed.

Lemma calm_log_seal : calm (log_seal p).
Proof.
  apply calm_bind; [apply calm_get|]. intros s0. apply calm_bind; [|intros _; apply calm_seal_taken].
  apply calm_change. intros s T. split; [|done]. intros a t Ha. by apply not_elem_of_nil in Ha.
Qed.

Lemma quiet_bucket_of meta ts : quiet (bucket_of meta ts).
Proof. unfold bucket_of. by destruct (_ =? _). Qed.

Lemma calm_retain ts : calm (retain_before p ts).
Proof.
  apply calm_bind; [apply calm_get|]. intros s0. apply calm_bind; [apply calm_lift, quiet_bucket_of|]. intros cutoff. apply calm_bind; [apply calm_seal_older|]. intros _.
  apply calm_bind; [by apply calm_change|]. intros _. apply calm_bind; [apply calm_get|]. intros s1. apply calm_bind; [by apply calm_change|]. intros _. apply calm_ret.
Qed.

(** ** Appending *)

Lemma active_index_place l place i : active_index l place = Some i -> exists a, l !! i = Some a /\ a_place a = place.
Proof. unfold active_index. intros E. apply fmap_Some in E as ([j a] & E & ->). apply list_find_Some in E as (E & P & _). by exists a. Qed.

(** The time of a new record, and nothing else about the clock. *)
Definition advanced (s s' : Log) (now : Z) (partition : option bytes) : Prop :=
  l_last_ts s' = <[partition := stamp s partition now]> (l_last_ts s).

Lemma stamp_ge s partition now : now <= stamp s partition now /\ forall t, l_last_ts s !! partition = Some t -> t <= stamp s partition now.
Proof. unfold stamp. destruct (l_last_ts s !! partition) as [t0|]; [|by split]. split; [lia|]. intros t [= <-]. lia. Qed.

Lemma on_active_append s i ts body place : time_ok s -> active_index (l_active s) place = Some i ->
  (forall t, l_last_ts s !! place.2 = Some t -> t <= ts) ->
  quiet (on_active i (append p ts body) s).2 /\ forall off, (on_active i (append p ts body) s).2 = Ok off ->
    time_ok (set_log_ts (on_active i (append p ts body) s).1 (<[place.2 := ts]> (l_last_ts s))) /\ l_last_ts (on_active i (append p ts body) s).1 = l_last_ts s.
Proof.
  intros T Ei L. apply active_index_place in Ei as (a & Ei & Ep). unfold on_active. rewrite Ei. unfold writer_step. destruct (dir_of _ _ !! _) as [f|]; [|done].
  assert (forall t, w_last_ts (a_writer a) = Some t -> t <= ts) as Lw.
  { intros t Et. destruct (T a t) as (t' & E' & L'); [by eapply list_elem_of_lookup_2|done|]. rewrite Ep in E'. specialize (L t' E'). lia. }
  destruct (append_time p (a_writer a) f ts body Lw) as [Q S]. destruct (append p ts body (a_writer a, f)) as [[w f'] r]. cbn [fst snd] in *. split; [exact Q|].
  intros off ->. specialize (S off eq_refl). split; [|done]. intros x t Hx Et. cbn [set_log_ts set_active set_root l_active l_last_ts] in *.
  apply list_elem_of_lookup in Hx as (j & Hx). destruct (decide (i = j)) as [<-|N].
  - rewrite list_lookup_insert_eq in Hx by (by eapply lookup_lt_Some). injection Hx as <-. cbn [a_writer a_place] in *. rewrite S in Et. injection Et as <-.
    exists ts. rewrite Ep. by rewrite lookup_insert_eq.
  - rewrite list_lookup_insert_ne in Hx by done. destruct (T x t) as (t' & E' & L'); [by eapply list_elem_of_lookup_2|done|].
    destruct (decide ((a_place x).2 = place.2)) as [E|E]; [|exists t'; by rewrite lookup_insert_ne].
    exists ts. rewrite E, lookup_insert_eq. split; [done|]. rewrite E in E'. specialize (L t' E'). lia.
Qed.

(** The stream a body belongs to. *)
Definition stream_of (s : Log) (body : Body) : sresult (option bytes) :=
  match m_partition_tag (l_meta s) with Some tag => v ← partition_of show_f64 body tag; Ok (Some v) | None => Ok None end.

Lemma log_append_time now now_ms body s s' r : time_ok s -> log_append p show_f64 now now_ms body s = (s', r) ->
  quiet r /\ forall off, r = Ok off -> time_ok s' /\ exists partition, stream_of s body = Ok partition /\ advanced s s' now partition.
Proof.
  intros T. unfold log_append. unfold mbind at 1, lw_bind at 1. cbn [get_log]. fold (stream_of s body). unfold mbind at 1, lw_bind at 1. cbn [lift_log].
  assert (quiet (stream_of s body)) as Qs.
  { unfold stream_of. destruct (m_partition_tag _); [|done]. apply quiet_bind; [|done]. unfold partition_of. apply quiet_bind; [by apply quiet_ok_or|done]. }
  destruct (stream_of s body) as [partition|e|]; [|intros [= <- <-]; split; [exact Qs|done]|intros [= <- <-]; by split]. cbv zeta.
  set (ts := stamp s partition now). unfold mbind at 1, lw_bind at 1. cbn [lift_log]. pose proof (quiet_bucket_of (l_meta s) ts) as Qb.
  destruct (bucket_of (l_meta s) ts) as [bucket|e|]; [|intros [= <- <-]; split; [exact Qb|done]|intros [= <- <-]; by split].
  unfold mbind at 1, lw_bind at 1. destruct (calm_ensure_part (bucket, partition) ts now_ms s T) as (Q1 & T1 & E1).
  destruct (ensure_part p (bucket, partition) ts now_ms s) as [s1 [[]|e|]]; cbn [fst snd] in *; [|intros [= <- <-]; split; [exact Q1|done]|intros [= <- <-]; by split].
  unfold mbind at 1, lw_bind at 1. cbn [get_log]. unfold mbind at 1, lw_bind at 1. cbn [lift_log].
  destruct (active_index (l_active s1) (bucket, partition)) as [i|] eqn:Ei; [|intros [= <- <-]; by split]. cbn [ok_or].
  unfold mbind at 1, lw_bind at 1. destruct (on_active_append s1 i ts body (bucket, partition) T1 Ei) as [Q2 S]; [intros t Et; rewrite E1 in Et; by apply stamp_ge|].
  destruct (on_active i (append p ts body) s1) as [s2 [off|e|]]; cbn [fst snd] in *; [|intros [= <- <-]; split; [exact Q2|done]|intros [= <- <-]; by split].
  intros [= <- <-]. split; [done|]. intros off' _. destruct (S off eq_refl) as [T2 E2]. rewrite E2. split; [exact T2|]. exists partition. split; [done|].
  unfold advanced. cbn [set_log_ts l_last_ts]. by rewrite E1.
Qed.
End Ops.
