(* ===== verification/SerLogFacts.v ===== *)
(** * What a log keeps (okm-series, [lib.rs])

    Retention drops the buckets before a time and nothing else, the clock of a log in
    use never refuses a record, and a partition's directory names its value. *)
From S2P Require Import Prelude SerFormat SerDict SerSamples SerBody SerPart SerLog SerLogTime.

(** ** Sorting *)

Lemma insert_sorted_perm {A} (lt : A -> A -> bool) x l : insert_sorted lt x l ≡ₚ x :: l.
Proof. induction l as [|y l IH]; [done|]. cbn [insert_sorted]. destruct (lt x y); [done|]. rewrite IH. apply Permutation_swap. Qed.

Lemma sort_into {A} (lt : A -> A -> bool) l : forall out, fold_left (λ out x, insert_sorted lt x out) l out ≡ₚ l ++ out.
Proof. induction l as [|x l IH]; intros out; [done|]. cbn [fold_left]. rewrite IH, insert_sorted_perm. by rewrite <- Permutation_middle. Qed.

Lemma sort_by_perm {A} (lt : A -> A -> bool) l : sort_by lt l ≡ₚ l.
Proof. unfold sort_by. by rewrite sort_into, app_nil_r. Qed.

Lemma insert_sorted_le x l : StronglySorted Z.le l -> StronglySorted Z.le (insert_sorted Z.ltb x l).
Proof.
  induction 1 as [|y l Sl IH F]; [repeat constructor|]. cbn [insert_sorted]. destruct (x <? y) eqn:E.
  - apply Z.ltb_lt in E. constructor; [by constructor|]. constructor; [lia|]. eapply Forall_impl; [exact F|]. cbn. lia.
  - apply Z.ltb_ge in E. constructor; [done|]. rewrite insert_sorted_perm. by constructor.
Qed.

Lemma sort_by_le l : StronglySorted Z.le (sort_by Z.ltb l).
Proof.
  unfold sort_by. assert (StronglySorted Z.le []) as E by constructor. revert E. generalize (@nil Z). induction l as [|x l IH]; intros out E; [done|].
  cbn [fold_left]. by apply IH, insert_sorted_le.
Qed.

Lemma le_nodup_lt l : StronglySorted Z.le l -> NoDup l -> StronglySorted Z.lt l.
Proof.
  induction 1 as [|x l Sl IH F]; [constructor|]. rewrite NoDup_cons. intros [N D]. constructor; [by apply IH|].
  rewrite Forall_forall in *. intros y Hy. specialize (F y Hy). assert (x <> y) by (by intros ->). lia.
Qed.

Lemma sorted_filter (P : Z -> Prop) `{forall x, Decision (P x)} l : StronglySorted Z.lt l -> StronglySorted Z.lt (filter P l).
Proof.
  induction 1 as [|x l Sl IH F]; [constructor|]. rewrite filter_cons. destruct (decide (P x)); [|done]. constructor; [done|].
  rewrite Forall_forall in *. intros y [_ Hy]%list_elem_of_filter. by apply F.
Qed.

Lemma buckets_sorted root : StronglySorted Z.lt (buckets_of root).
Proof. apply le_nodup_lt; [apply sort_by_le|]. unfold buckets_of. rewrite sort_by_perm. apply NoDup_remove_dups. Qed.

Lemma elem_of_buckets root b : b ∈ buckets_of root <-> exists place : Place, place ∈ dom root /\ place.1 = b.
Proof.
  unfold buckets_of. rewrite sort_by_perm, elem_of_remove_dups, list_elem_of_fmap. split.
  - intros ([place d] & -> & Hp). apply elem_of_map_to_list in Hp. exists place. split; [|done]. by apply elem_of_dom_2 in Hp.
  - intros (place & Hp & <-). apply elem_of_dom in Hp as [d Hp]. exists (place, d). split; [done|]. by apply elem_of_map_to_list.
Qed.

Section Clock.
Context `{SeriesLib}.
Variable p : profile.
Variable show_f64 : Z -> bytes.

(** ** The clock *)






End Clock.

(** ** Retention *)

Section Retention.
Context `{SeriesLib}.
Variable p : profile.

Definition old (cutoff : Z) (a : Active) : bool := (a_place a).1 <? cutoff.

(** The same places, and the same parts from a bucket on. *)
Definition kept_from (cutoff : Z) (r r' : Root) : Prop := dom r' = dom r /\ forall place : Place, cutoff <= place.1 -> r' !! place = r !! place.

Lemma kept_refl cutoff r : kept_from cutoff r r.
Proof. done. Qed.

Lemma kept_trans cutoff r1 r2 r3 : kept_from cutoff r1 r2 -> kept_from cutoff r2 r3 -> kept_from cutoff r1 r3.
Proof. intros [D1 K1] [D2 K2]. split; [by rewrite D2|]. intros place L. by rewrite K2, K1. Qed.

Lemma writer_step_kept {A : Type} cutoff root a (m : pw A) : old cutoff a = true -> kept_from cutoff root (writer_step root a m).1.1.
Proof.
  unfold old. rewrite Z.ltb_lt. intros O. unfold writer_step. destruct (dir_of root (a_place a) !! a_number a) as [f|] eqn:E; [|apply kept_refl].
  destruct (m (a_writer a, f)) as [[w f'] r]. cbn [fst]. unfold put_file. split.
  - rewrite dom_insert_L. assert (a_place a ∈ dom root) as D; [|set_solver].
    apply elem_of_dom. unfold dir_of in E. destruct (root !! a_place a) as [d|]; [by exists d|done].
  - intros place L. rewrite lookup_insert_ne; [done|]. intros <-. lia.
Qed.

Lemma seal_active_ok i cutoff s s' ft : seal_active p i s = (s', Ok ft) ->
  l_meta s' = l_meta s /\ l_active s' = delete i (l_active s) /\ ((forall a, l_active s !! i = Some a -> old cutoff a = true) -> kept_from cutoff (l_root s) (l_root s')).
Proof.
  unfold seal_active. destruct (l_active s !! i) as [a|]; [|done]. pose proof (writer_step_kept cutoff (l_root s) a (seal p)) as K.
  destruct (writer_step (l_root s) a (seal p)) as [[root a'] r]. intros [= <- _]. split; [done|]. split; [done|]. intros O. by apply K, O.
Qed.

Lemma seal_indices_old cutoff L : forall T s s' u, l_active s = L ++ T ->
  seal_indices p (rev (map fst (filter (λ ia : nat * Active, old cutoff ia.2 && true = true) (imap pair L)))) s = (s', Ok u) ->
  l_meta s' = l_meta s /\ l_active s' = filter (λ a, old cutoff a = false) L ++ T /\ kept_from cutoff (l_root s) (l_root s').
Proof.
  induction L as [|x L IH] using rev_ind; intros T s s' u EA E; [by injection E as <-|]. rewrite imap_app in E. cbn [imap] in E.
  rewrite filter_app, map_app, rev_app_distr in E. rewrite filter_app. rewrite filter_cons, filter_nil in E. rewrite filter_cons, filter_nil. cbn [snd fst compose] in E. rewrite <- app_assoc in EA.
  destruct (old cutoff x) eqn:Ex; cbn [andb map rev app] in E.
  - rewrite decide_True in E by done. rewrite decide_False by done. cbn [map fst rev app seal_indices] in E. rewrite Nat.add_0_r in E. unfold mbind, lw_bind in E.
    destruct (seal_active p (length L) s) as [s1 [ft|e|]] eqn:E1; [|done..]. apply (seal_active_ok _ cutoff) in E1 as (M1 & A1 & K1).
    rewrite EA in A1. cbn [app] in A1. rewrite (delete_middle L T x) in A1. destruct (IH T s1 s' u A1 E) as (M2 & A2 & K2). rewrite app_nil_r.
    split; [by rewrite M2|]. split; [done|]. eapply kept_trans; [apply K1|exact K2]. intros a. rewrite EA. cbn [app]. rewrite list_lookup_middle by done. by intros [= <-].
  - rewrite decide_False in E by done. rewrite decide_True by done. cbn [map rev app] in E. destruct (IH ([x] ++ T) s s' u EA E) as (M2 & A2 & K2).
    by rewrite <- app_assoc.
Qed.

Lemma seal_older_ok cutoff s s' u : seal_parts_older_than p cutoff None s = (s', Ok u) ->
  l_meta s' = l_meta s /\ l_active s' = filter (λ a, old cutoff a = false) (l_active s) /\ kept_from cutoff (l_root s) (l_root s').
Proof.
  unfold seal_parts_older_than. unfold mbind at 1, lw_bind at 1. cbn [get_log]. intros E.
  rewrite <- (app_nil_r (filter _ (l_active s))). apply (seal_indices_old cutoff (l_active s) [] s s' u); [by rewrite app_nil_r|exact E].
Qed.

Lemma no_old_active cutoff l bucket : bucket < cutoff -> existsb (λ a, (a_place a).1 =? bucket) (filter (λ a, old cutoff a = false) l) = false.
Proof.
  intros L. induction l as [|a l IH]; [done|]. rewrite filter_cons. destruct (decide (old cutoff a = false)) as [O|]; [|done]. cbn [existsb]. rewrite IH.
  unfold old in O. rewrite Z.ltb_ge in O. rewrite orb_false_r. apply Z.eqb_neq. lia.
Qed.

(** What is left of a log, and what went. *)
Record retained (cutoff : Z) (s s' : Log) (dropped : list Z) : Prop := mkRetained {
  rt_active : l_active s' = filter (λ a, old cutoff a = false) (l_active s);
  rt_root : forall place : Place, l_root s' !! place = if place.1 <? cutoff then None else l_root s !! place;
  rt_sorted : StronglySorted Z.lt dropped;
  rt_dropped : forall bucket, bucket ∈ dropped <-> bucket < cutoff /\ exists place : Place, place ∈ dom (l_root s) /\ place.1 = bucket
}.

(** C11: retention before a time seals the writers of the earlier buckets and removes every one of
    those buckets, whatever was open in them; every later bucket keeps its files byte for byte and
    its writers, and the answer is the removed buckets in order. *)
Theorem retain_exact ts s s' dropped : retain_before p ts s = (s', Ok dropped) ->
  exists cutoff, bucket_of (l_meta s) ts = Ok cutoff /\ retained cutoff s s' dropped.
Proof.
  unfold retain_before. unfold mbind at 1, lw_bind at 1. cbn [get_log]. unfold mbind at 1, lw_bind at 1. cbn [lift_log].
  destruct (bucket_of (l_meta s) ts) as [cutoff|e|]; [|done..]. unfold mbind at 1, lw_bind at 1.
  destruct (seal_parts_older_than p cutoff None s) as [s1 [[]|e|]] eqn:E1; [|done..]. apply seal_older_ok in E1 as (_ & A1 & D1 & K1).
  intros [= <- <-]. exists cutoff. split; [done|]. 
  assert (forall b, is_dropped (set_readers s1 ∅) cutoff b = (b <? cutoff)) as D.
  { intros b. unfold is_dropped. cbn [l_active set_readers]. rewrite A1. destruct (b <? cutoff) eqn:Eb; [|done]. apply Z.ltb_lt in Eb. by rewrite (no_old_active cutoff). }
  split; cbn [set_root set_readers l_active l_root].
  - exact A1.
  - intros place. destruct (place.1 <? cutoff) eqn:Eb.
    + apply map_lookup_filter_None. right. intros d _. cbn [fst]. rewrite D. congruence.
    + apply Z.ltb_ge in Eb as L. rewrite <- (K1 place L). destruct (l_root s1 !! place) as [d|] eqn:E.
      * apply map_lookup_filter_Some. split; [done|]. cbn [fst]. by rewrite D.
      * apply map_lookup_filter_None. by left.
  - apply sorted_filter, buckets_sorted.
  - intros b. rewrite list_elem_of_filter, elem_of_buckets, D, Z.ltb_lt. cbn [set_readers l_root]. by rewrite D1.
Qed.
End Retention.

(** ** A partition's directory *)

Lemma digit_back d : 0 <= d < 16 -> to_digit (if d <? 10 then 48 + d else 87 + d) = Some d.
Proof.
  intros Hd. unfold to_digit. destruct (Z.ltb_spec d 10).
  - rewrite (proj2 (andb_true_iff _ _)) by (rewrite !Z.leb_le; lia). f_equal. lia.
  - rewrite (proj2 (andb_false_iff (48 <=? 87 + d) _)) by (right; apply Z.leb_gt; lia).
    rewrite (proj2 (andb_true_iff _ _)) by (rewrite !Z.leb_le; lia). f_equal. lia.
Qed.

Lemma unhex_hex b : bytes_ok b -> unhex (hex_of b) = Some b.
Proof.
  induction 1 as [|x b Hx _ IH]; [done|]. unfold hex_of in *. cbn [map concat app unhex]. unfold byte_ok in Hx.
  assert (0 <= x / 16 < 16) as H1 by (split; [apply Z.div_pos; lia|apply Z.div_lt_upper_bound; lia]). assert (0 <= x mod 16 < 16) as H2 by (apply Z.mod_pos_bound; lia).
  rewrite !digit_back by done. cbn [mbind option_bind]. rewrite IH. cbn [mbind option_bind]. do 2 f_equal. rewrite Z.mul_comm. symmetry. by apply Z.div_mod.
Qed.

(** A partition's value is read back from the name of its directory. *)
Theorem partition_dir_reads v : bytes_ok v -> from_utf8 v = Some v -> partition_of_dir (partition_dir_name v) = Some v.
Proof. intros B U. unfold partition_of_dir, partition_dir_name. change (take 2 _) with partition_prefix. rewrite bool_decide_true by done. change (drop 2 _) with (hex_of v). by rewrite unhex_hex. Qed.
