(* ===== verification/SerLogRead.v ===== *)
(** * Reading a stream of parts (okm-series, [lib.rs])

    A directory whose parts follow one another is walked in their order, and a read over
    them answers what a read over one long part would. *)
From S2P Require Import Prelude SerFormat SerDict SerDictFacts SerSamples SerBody SerBodyFacts SerPart SerPartFacts SerWriter SerRead SerRecover SerSession SerLog SerLogTime SerLogFacts.

(** ** Directories *)

Lemma filter_all {A} (P : A -> Prop) `{forall x, Decision (P x)} l : Forall P l -> filter P l = l.
Proof. induction 1 as [|x l Px _ IH]; [done|]. rewrite filter_cons, decide_True by done. by rewrite IH. Qed.

Lemma filter_none {A} (P : A -> Prop) `{forall x, Decision (P x)} l : Forall (λ x, ~ P x) l -> filter P l = [].
Proof. induction 1 as [|x l Px _ IH]; [done|]. rewrite filter_cons, decide_False by done. done. Qed.

Lemma filter_on {A} (P Q : A -> Prop) `{forall x, Decision (P x), forall x, Decision (Q x)} (l : list A) : (forall x, x ∈ l -> P x <-> Q x) -> filter P l = filter Q l.
Proof.
  induction l as [|x l IH]; intros E; [done|]. rewrite !filter_cons. rewrite IH by (intros y Hy; apply E; by right).
  apply decide_ext, E. by left.
Qed.

(** The parts of a stream's directory are numbered from zero, and there is no other stream. *)
Definition stream_root (root : Root) (place : Place) (fs : list PartFiles) : Prop :=
  (forall q, q <> place -> root !! q = None) /\ dir_of root place = map_seqZ 0 fs.

Definition indices (fs : list PartFiles) : list Z := seqZ 0 (zlen fs).

Lemma seqZ_sorted k : forall m, StronglySorted Z.le (seqZ m (Z.of_nat k)).
Proof.
  induction k as [|k IH]; intros m; [constructor|]. rewrite seqZ_cons by lia. replace (Z.pred (Z.of_nat (S k))) with (Z.of_nat k) by lia.
  constructor; [apply IH|]. apply Forall_seqZ. intros x. lia.
Qed.

Lemma part_numbers_seq fs : part_numbers (map_seqZ 0 fs) = indices fs.
Proof.
  unfold part_numbers, indices. apply (StronglySorted_unique Z.le); [apply sort_by_le|apply seqZ_sorted|]. rewrite sort_by_perm.
  apply NoDup_Permutation; [apply NoDup_fst_map_to_list|apply NoDup_seqZ|]. intros x. rewrite elem_of_seqZ, list_elem_of_fmap. split.
  - intros ([k f] & -> & Hk). apply elem_of_map_to_list in Hk. apply mk_is_Some, lookup_map_seqZ_is_Some in Hk. cbn. unfold zlen. lia.
  - intros L. assert (is_Some ((map_seqZ 0 fs : gmap Z PartFiles) !! x)) as [f Hf] by (apply lookup_map_seqZ_is_Some; unfold zlen in L; lia).
    exists (x, f). split; [done|]. by apply elem_of_map_to_list.
Qed.

Lemma seq_file fs i f : fs !! i = Some f -> (map_seqZ 0 fs : gmap Z PartFiles) !! Z.of_nat i = Some f.
Proof. intros E. apply lookup_map_seqZ_Some. split; [lia|]. by rewrite Z.sub_0_r, Nat2Z.id. Qed.

Definition id_of (place : Place) (i : nat) (f : PartFiles) : PartId := (place, Z.of_nat i, pf_sealed f).

Definition opt_list {A} (o : option A) : list A := match o with Some x => [x] | None => [] end.

Lemma seqZ_indices {A} (l : list A) : forall m, seqZ m (zlen l) = imap (λ i _, m + Z.of_nat i) l.
Proof.
  induction l as [|x l IH]; intros m; [done|]. rewrite zlen_cons. pose proof (zlen_nonneg l). rewrite seqZ_cons by lia. cbn [imap]. f_equal; [lia|].
  replace (Z.pred (1 + zlen l)) with (zlen l) by lia. rewrite IH. apply imap_ext. intros i y _. cbn. lia.
Qed.

Lemma ids_of_stream root place ds o : dir_of root place = map_seqZ 0 (ds ++ opt_list o) -> Forall (λ f, pf_sealed f = true) ds ->
  (forall f, o = Some f -> pf_sealed f = false) -> ids_of root place = imap (id_of place) (ds ++ opt_list o).
Proof.
  intros D F O. unfold ids_of. rewrite D. unfold sealed_parts, open_part. rewrite part_numbers_seq. unfold indices. rewrite zlen_app, seqZ_app by apply zlen_nonneg.
  rewrite !filter_app.
  assert (forall i f, (ds ++ opt_list o) !! i = Some f -> is_sealed (map_seqZ 0 (ds ++ opt_list o)) (Z.of_nat i) = pf_sealed f) as S.
  { intros i f E. unfold is_sealed. by rewrite (seq_file _ _ _ E). }
  assert (Forall (λ n, is_sealed (map_seqZ 0 (ds ++ opt_list o)) n = true) (seqZ 0 (zlen ds))) as F1.
  { apply Forall_seqZ. intros n L. destruct (ds !! Z.to_nat n) as [f|] eqn:E; [|apply lookup_ge_None in E; unfold zlen in L; lia].
    rewrite <- (Z2Nat.id n) by lia. rewrite (S (Z.to_nat n) f) by by apply lookup_app_l_Some. rewrite Forall_lookup in F. by apply (F (Z.to_nat n)). }
  assert (Forall (λ n, is_sealed (map_seqZ 0 (ds ++ opt_list o)) n = false) (seqZ (0 + zlen ds) (zlen (opt_list o)))) as F2.
  { destruct o as [f|]; [|constructor]. change (zlen (opt_list (Some f))) with 1. rewrite seqZ_cons, seqZ_nil by lia. apply Forall_singleton. unfold zlen. rewrite Z.add_0_l, (S (length ds) f); [by apply O|].
    apply list_lookup_middle. done. }
  rewrite (filter_all _ _ F1), (filter_all _ _ F2). rewrite (filter_none (λ n, is_sealed _ n = true)) by (eapply Forall_impl; [exact F2|]; cbn; intros n ->; done).
  rewrite (filter_none (λ n, is_sealed _ n = false)) by (eapply Forall_impl; [exact F1|]; cbn; intros n ->; done).
  rewrite app_nil_r, imap_app. cbn [app]. f_equal.
  - rewrite seqZ_indices. change (map ?f ?l) with (f <$> l). rewrite fmap_imap. apply imap_ext. intros i f E. rewrite Forall_lookup in F. unfold id_of. cbn. by rewrite (F i f E).
  - destruct o as [f|]; [|done]. cbn [opt_list]. change (zlen [f]) with 1. rewrite seqZ_cons, seqZ_nil by lia. cbn [head imap compose]. unfold id_of. rewrite (O f eq_refl). unfold zlen. do 3 f_equal. lia.
Qed.

Lemma all_parts_stream root bucket ds : stream_root root (bucket, None) ds -> all_parts root = ids_of root (bucket, None).
Proof.
  intros [O D]. destruct (root !! (bucket, None)) as [d|] eqn:E.
  - assert (root = {[(bucket, None) := d]}) as ->.
    { apply map_eq. intros q. destruct (decide (q = (bucket, None))) as [->|N]; [by rewrite lookup_singleton_eq|]. rewrite lookup_singleton_ne by done. by apply O. }
    unfold all_parts, buckets_of, partitions_of. rewrite map_to_list_singleton. unfold sort_by. cbn -[ids_of].
    destruct (decide_rel elem_of bucket []) as [X|_]; [by apply not_elem_of_nil in X|]. cbn -[ids_of]. rewrite Z.eqb_refl. cbn -[ids_of]. by rewrite !app_nil_r.
  - assert (root = ∅) as -> by (apply map_empty; intros q; destruct (decide (q = (bucket, None))) as [->|N]; [done|by apply O]). done.
Qed.

Lemma file_of_stream root place fs i f : stream_root root place fs -> fs !! i = Some f -> file_of root (id_of place i f) = Some f.
Proof. intros [_ D] E. unfold file_of, id_of. cbn [fst snd]. rewrite D, (seq_file _ _ _ E). cbn [mbind option_bind]. by rewrite Bool.eqb_reflx. Qed.

(** ** Sorting what is sorted *)

Lemma insert_sorted_last {A} (lt : A -> A -> bool) x l : Forall (λ y, lt x y = false) l -> insert_sorted lt x l = l ++ [x].
Proof. induction 1 as [|y l E _ IH]; [done|]. cbn [insert_sorted]. rewrite E. cbn [app]. by rewrite IH. Qed.

Lemma sort_by_id {A} (lt : A -> A -> bool) l : StronglySorted (λ x y, lt y x = false) l -> sort_by lt l = l.
Proof.
  intros Sl. unfold sort_by. change l with ([] ++ l) at 2. assert (forall y, y ∈ [] -> Forall (λ x, lt x y = false) l) as C by (intros y Hy; by apply not_elem_of_nil in Hy).
  revert C. generalize (@nil A) as out. induction Sl as [|x l Sl IH F]; intros out C; cbn [fold_left]; [by rewrite app_nil_r|].
  rewrite insert_sorted_last. 2: { apply Forall_forall. intros y Hy. specialize (C y Hy). by apply Forall_cons in C as [C _]. }
  rewrite IH; [by rewrite <- app_assoc|]. intros y [Hy| ->%list_elem_of_singleton]%elem_of_app; [|done]. specialize (C y Hy). by apply Forall_cons in C as [_ C].
Qed.

(** ** A stream read *)

Lemma numbered_app l k : forall first, numbered first (l ++ k) = numbered first l ++ numbered (first + zlen l) k.
Proof.
  induction l as [|r l IH]; intros first; cbn [app numbered]; [by rewrite Z.add_0_r|]. rewrite IH, zlen_cons. cbn [app]. do 3 f_equal. lia.
Qed.

Lemma numbered_in l x : forall first, x ∈ numbered first l -> first <= x.1.2 < first + zlen l /\ exists i r, l !! i = Some r /\ x.1.1 = rc_ts r.
Proof.
  induction l as [|r l IH]; intros first; [by intros ?%not_elem_of_nil|]. cbn [numbered]. rewrite zlen_cons. pose proof (zlen_nonneg l).
  intros [->|Hx]%elem_of_cons; [split; [cbn; lia|by exists O, r]|]. destruct (IH _ Hx) as (L & i & r' & E & Et). split; [lia|]. by exists (S i), r'.
Qed.

Section Read.
Context `{SLL : SeriesLibLaws}.
Variable p : profile.

(** A reader over a part that has these records, numbered from [first]. *)
Definition reader_of (r : PartReader) (data : bytes) (first : Z) (l : list Rec) : Prop :=
  h_first_offset (pr_header r) = first /\ pr_span r = span_recs l /\ answers p r data first l.

Definition reads_as (f : PartFiles) (first : Z) (l : list Rec) : Prop :=
  first_offset_of (pf_data f) = Ok first /\ timed 0 l /\ forall dict, exists r, PartReader_open p f dict = Ok r /\ reader_of r (pf_data f) first l.

Abbreviation Held := (PartFiles * list Rec)%type.

(** Parts that follow one another. *)
Fixpoint follow (first : Z) (ps : list Held) : Prop :=
  match ps with [] => True | d :: ps => reads_as d.1 first d.2 /\ follow (first + zlen d.2) ps end.

Definition records_of (ps : list Held) : list Rec := concat (map snd ps).

Lemma follow_app ps qs : forall first, follow first (ps ++ qs) <-> follow first ps /\ follow (first + zlen (records_of ps)) qs.
Proof.
  induction ps as [|d ps IH]; intros first; cbn [app follow].
  - change (zlen (records_of [])) with 0. rewrite Z.add_0_r. tauto.
  - rewrite IH. unfold records_of. cbn [map concat]. rewrite zlen_app, Z.add_assoc. tauto.
Qed.

(** Every reader kept was built from the file that is there. *)
Definition readers_fresh (root : Root) (dict : option DictConfig) (readers : Readers) : Prop :=
  forall id n r, readers !! id = Some (n, r) -> exists f, file_of root id = Some f /\ PartReader_open p f dict = Ok r.

Lemma reader_for_fresh root dict readers id f r : readers_fresh root dict readers -> file_of root id = Some f -> PartReader_open p f dict = Ok r ->
  exists readers', reader_for p root dict readers id = (readers', Ok r) /\ readers_fresh root dict readers'.
Proof.
  intros Fr Ef Er. unfold reader_for. rewrite Ef. cbv zeta. rewrite Er.
  assert (forall rs, readers_fresh root dict rs -> readers_fresh root dict (<[id := (zlen (pf_data f), r)]> rs)) as Ins.
  { intros rs F id' n' r'. destruct (decide (id = id')) as [<-|N]; [rewrite lookup_insert_eq; intros [= <- <-]; by exists f|rewrite lookup_insert_ne by done; apply F]. }
  assert (readers_fresh root dict (if READER_CACHE_LIMIT <=? Z.of_nat (size readers) then ∅ else readers)) as Fr'.
  { destruct (_ <=? _); [|done]. intros id' n' r'. by rewrite lookup_empty. }
  destruct (readers !! id) as [[n r0]|] eqn:E; [|by eexists; split; [|apply Ins]]. destruct (n =? zlen (pf_data f)); [|by eexists; split; [|apply Ins]].
  destruct (Fr id n r0 E) as (f' & Ef' & Er'). rewrite Ef in Ef'. injection Ef' as <-. rewrite Er in Er'. injection Er' as <-. by exists readers.
Qed.

Lemma take_more {A} n (l k : list A) (out : list A) : forall max, n = Z.to_nat (max - zlen out) ->
  (out ++ take n l) ++ take (Z.to_nat (max - zlen (out ++ take n l))) k = out ++ take n (l ++ k).
Proof.
  intros max ->. rewrite <- app_assoc. f_equal. rewrite take_app. f_equal. f_equal. rewrite zlen_app. unfold zlen. rewrite length_take. lia.
Qed.

(** The walk over parts that follow one another, for any choice of rows. *)
Lemma read_parts_follow root dict which max read skip (P : Row -> Prop) `{forall x, Decision (P x)} :
  (forall r data first l, reader_of r data first l -> timed 0 l ->
     skip r = Ok true /\ filter P (numbered first l) = [] \/
     skip r = Ok false /\ forall out, read r data out = Ok (out ++ take (Z.to_nat (max - zlen out)) (filter P (numbered first l)))) ->
  forall ids ps, Forall2 (λ id d, file_of root id = Some d.1 /\ which_covers which id.1.1.2 = true) ids ps -> forall first readers out, follow first ps -> readers_fresh root dict readers ->
  exists readers', read_parts p root dict which max read skip ids readers out =
    (readers', Ok (out ++ take (Z.to_nat (max - zlen out)) (filter P (numbered first (records_of ps))))) /\ readers_fresh root dict readers'.
Proof.
  intros R. induction 1 as [|id [f l] ids ps [Ef Ew] _ IH]; intros first readers out Fo Fr; cbn [read_parts].
  - exists readers. cbn [records_of map concat numbered]. by rewrite filter_nil, take_nil, app_nil_r.
  - cbn [fst snd] in Ef. destruct Fo as [(_ & T & Op) Fo]. cbn [fst snd] in *. destruct (max <=? zlen out) eqn:Em.
    { apply Z.leb_le in Em. exists readers. replace (Z.to_nat (max - zlen out)) with O by lia. by rewrite take_0, app_nil_r. }
    rewrite Ew. cbn [negb]. destruct (Op dict) as (r & Eo & Rr). destruct (reader_for_fresh root dict readers id f r Fr Ef Eo) as (readers1 & -> & Fr1).
    unfold records_of. cbn [map concat snd]. rewrite numbered_app, filter_app. fold (records_of ps). unfold reopened. rewrite Ef. cbn [ok_or mbind outcome_bind].
    destruct (R r (pf_data f) first l Rr T) as [[-> ->]|[-> Rd]]; [by apply IH|]. rewrite Rd. destruct (IH (first + zlen l) readers1 (out ++ take (Z.to_nat (max - zlen out)) (filter P (numbered first l))) Fo Fr1) as (readers2 & -> & Fr2).
    exists readers2. split; [|done]. do 2 f_equal. by apply (take_more _ _ _ out max).
Qed.

Lemma read_step_offset max from r data first l : reader_of r data first l -> timed 0 l ->
  ('(_, e) ← offset_span p r; Ok (e <=? from)) = Ok true /\ filter (λ x : Row, from <= x.1.2) (numbered first l) = [] \/
  ('(_, e) ← offset_span p r; Ok (e <=? from)) = Ok false /\
  forall out, read_from p r data (from `max` h_first_offset (pr_header r)) max out = Ok (out ++ take (Z.to_nat (max - zlen out)) (filter (λ x : Row, from <= x.1.2) (numbered first l))).
Proof.
  intros (Eh & _ & Es & A & _) _. rewrite Es. cbn [mbind outcome_bind]. destruct (Z.leb_spec (first + zlen l) from) as [L|L]; [left|right]; (split; [done|]).
  - apply filter_none, Forall_forall. intros x Hx. apply numbered_in in Hx as [? _]. lia.
  - intros out. rewrite A, Eh. do 3 f_equal. apply filter_on. intros x Hx. apply numbered_in in Hx as [? _]. lia.
Qed.

Lemma read_step_time max from to r data first l : reader_of r data first l -> timed 0 l ->
  Ok (match pr_span r with Some (first, last) => (last <? from) || (to <? first) | None => true end) = Ok (E := SeriesError) true /\
    filter (λ x : Row, from <= x.1.1 <= to) (numbered first l) = [] \/
  Ok (match pr_span r with Some (first, last) => (last <? from) || (to <? first) | None => true end) = Ok (E := SeriesError) false /\
  forall out, part_read_by_time p r data from to max out = Ok (out ++ take (Z.to_nat (max - zlen out)) (filter (λ x : Row, from <= x.1.1 <= to) (numbered first l))).
Proof.
  intros (_ & Ep & _ & _ & A) T. rewrite Ep. destruct l as [|r0 l]; [by left|]. cbn [span_recs]. destruct ((last_time 0 (r0 :: l) <? from) || (to <? rc_ts r0)) eqn:E; [left|right]; (split; [done|]).
  - apply filter_none, Forall_forall. intros x Hx. apply numbered_in in Hx as [_ (i & r' & Er & Et)]. rewrite Et. rewrite orb_true_iff, !Z.ltb_lt in E.
    pose proof (timed_from _ _ _ _ T Er) as [_ Hl]. destruct i as [|i]; [injection Er as <-; lia|]. destruct T as (_ & _ & T). pose proof (timed_from _ _ _ _ T Er) as [Hf _]. lia.
  - intros out. apply A.
Qed.

(** ** Parts in order *)

Lemma by_offset root ids ps : Forall2 (λ id (d : Held), file_of root id = Some d.1) ids ps -> forall first, follow first ps ->
  exists l : list (Z * PartId), omap (λ id, f ← file_of root id; match first_offset_of (pf_data f) with Ok o => Some (o, id) | _ => None end) ids = l /\
    map snd l = ids /\ StronglySorted (λ x y, (y.1 <? x.1) = false) l /\ Forall (λ x, first <= x.1) l.
Proof.
  induction 1 as [|id d ids ps Ef _ IH]; intros first Fo; [by eexists; repeat split; constructor|]. destruct Fo as [(Eo & _) Fo].
  destruct (IH _ Fo) as (l & El & Es & Sl & Fl). exists ((first, id) :: l). cbn [omap list_omap]. rewrite Ef. cbn [mbind option_bind]. rewrite Eo, <- El. split; [done|].
  rewrite El. pose proof (zlen_nonneg d.2). split; [cbn; by rewrite Es|]. split.
  - constructor; [done|]. eapply Forall_impl; [exact Fl|]. cbn. intros x Hx. apply Z.ltb_ge. lia.
  - constructor; [cbn; lia|]. eapply Forall_impl; [exact Fl|]. cbn. intros x Hx. lia.
Qed.

(** A stream's directory: the parts behind one another, the last one open or not. *)
Record stream_of_parts (root : Root) (bucket : Z) (ds : list Held) (o : option Held) : Prop := {
  sp_root : stream_root root (bucket, None) (map fst (ds ++ opt_list o));
  sp_sealed : Forall (λ d : Held, pf_sealed d.1 = true) ds;
  sp_open : forall d, o = Some d -> pf_sealed d.1 = false;
  sp_follow : follow 0 (ds ++ opt_list o)
}.

Lemma opt_map {A B} (f : A -> B) (o : option A) : map f (opt_list o) = opt_list (f <$> o).
Proof. by destruct o. Qed.

Lemma stream_ids root bucket ds o : stream_of_parts root bucket ds o ->
  ids_of root (bucket, None) = imap (id_of (bucket, None)) (map fst (ds ++ opt_list o)) /\
  Forall2 (λ id (d : Held), file_of root id = Some d.1 /\ id.1.1 = (bucket, None)) (ids_of root (bucket, None)) (ds ++ opt_list o).
Proof.
  intros Sp. pose proof (sp_root _ _ _ _ Sp) as R. assert (ids_of root (bucket, None) = imap (id_of (bucket, None)) (map fst (ds ++ opt_list o))) as E.
  { pose proof (proj2 R) as D. rewrite map_app, opt_map in D |- *. apply ids_of_stream; [exact D| |].
    - apply Forall_map. apply (sp_sealed _ _ _ _ Sp).
    - intros f Ef. destruct o as [d|]; [|done]. injection Ef as <-. by apply (sp_open _ _ _ _ Sp). }
  split; [done|]. rewrite E. apply Forall2_same_length_lookup. split; [by rewrite length_imap, length_map|].
  intros i id d Ei Ed. rewrite list_lookup_imap in Ei. apply fmap_Some in Ei as (f & Ef & ->). split; [|done]. rewrite (file_of_stream _ _ _ _ _ R Ef).
  change (map fst ?l) with (fst <$> l) in Ef. rewrite list_lookup_fmap, Ed in Ef. by injection Ef as <-.
Qed.

Lemma stream_parts root bucket ds o : stream_of_parts root bucket ds o ->
  parts_by_offset root = ids_of root (bucket, None).
Proof.
  intros Sp. pose proof (stream_ids _ _ _ _ Sp) as [_ F]. unfold parts_by_offset. rewrite (all_parts_stream root bucket _ (sp_root _ _ _ _ Sp)).
  destruct (by_offset root _ _ (Forall2_impl _ _ _ _ F (λ _ _, @proj1 _ _)) 0 (sp_follow _ _ _ _ Sp)) as (l & -> & El & Sl & _). by rewrite sort_by_id.
Qed.

(** ** Rows in the order of time *)

Definition risen (l : list Rec) : Prop := StronglySorted (λ x y, rc_ts x <= rc_ts y) l.

Lemma numbered_sorted l : risen l -> forall first, StronglySorted (λ x y, row_lt y x = false) (numbered first l).
Proof.
  induction 1 as [|r l _ IH F]; intros first; [constructor|]. cbn [numbered]. constructor; [apply IH|]. apply Forall_forall. intros x Hx.
  apply numbered_in in Hx as (L & i & r' & E & Et). rewrite Forall_lookup in F. specialize (F i r' E). unfold row_lt. cbn [fst snd]. rewrite Et.
  apply orb_false_iff. rewrite andb_false_iff, Z.eqb_neq, !Z.ltb_ge. lia.
Qed.

Lemma sorted_on {A} (R : relation A) (P : A -> Prop) `{forall x, Decision (P x)} l : StronglySorted R l -> StronglySorted R (filter P l).
Proof.
  induction 1 as [|x l _ IH F]; [constructor|]. rewrite filter_cons. destruct (decide (P x)); [|done]. constructor; [done|].
  rewrite Forall_forall in *. intros y [_ Hy]%list_elem_of_filter. by apply F.
Qed.

Lemma sorted_take {A} (R : relation A) l : forall n, StronglySorted R l -> StronglySorted R (take n l).
Proof.
  induction l as [|x l IH]; intros [|n] Sl; try constructor. - apply IH. by inversion Sl. - apply Forall_take. by inversion Sl.
Qed.

Lemma ordered which (P : Row -> Prop) `{forall x, Decision (P x)} l n : risen l ->
  in_time_order which (take n (filter P (numbered 0 l))) = take n (filter P (numbered 0 l)).
Proof. intros Rs. unfold in_time_order. destruct (is_every_stream which); [|done]. by apply sort_by_id, sorted_take, sorted_on, numbered_sorted. Qed.

(** ** A log of one stream read *)

Lemma stream_reads root bucket ds o dict readers which from max : stream_of_parts root bucket ds o -> risen (records_of (ds ++ opt_list o)) -> which_covers which None = true ->
  readers_fresh root dict readers -> exists readers', readers_fresh root dict readers' /\
  read_streams p root dict readers which from max = (readers', Ok (take (Z.to_nat max) (filter (λ x : Row, from <= x.1.2) (numbered 0 (records_of (ds ++ opt_list o)))))).
Proof.
  intros Sp Rs W Fr. unfold read_streams. rewrite (stream_parts _ _ _ _ Sp). destruct (stream_ids _ _ _ _ Sp) as [_ F2].
  assert (Forall2 (λ id (d : Held), file_of root id = Some d.1 /\ which_covers which id.1.1.2 = true) (ids_of root (bucket, None)) (ds ++ opt_list o)) as F.
  { eapply Forall2_impl; [exact F2|]. intros id d [E Ep]. by rewrite Ep. }
  destruct (read_parts_follow root dict which max _ _ (λ x : Row, from <= x.1.2) (read_step_offset max from) _ _ F 0 readers [] (sp_follow _ _ _ _ Sp) Fr) as (readers' & -> & Fr').
  exists readers'. split; [done|]. cbn [mbind outcome_bind app]. change (zlen (@nil Row)) with 0. rewrite Z.sub_0_r. by rewrite ordered.
Qed.

Lemma stream_reads_time root bucket ds o dict readers which from to max : stream_of_parts root bucket ds o -> risen (records_of (ds ++ opt_list o)) -> which_covers which None = true ->
  readers_fresh root dict readers -> exists readers', readers_fresh root dict readers' /\
  read_by_time_streams p root dict readers which from to max = (readers', Ok (take (Z.to_nat max) (filter (λ x : Row, from <= x.1.1 <= to) (numbered 0 (records_of (ds ++ opt_list o)))))).
Proof.
  intros Sp Rs W Fr. unfold read_by_time_streams. rewrite (stream_parts _ _ _ _ Sp). destruct (stream_ids _ _ _ _ Sp) as [_ F2].
  assert (Forall2 (λ id (d : Held), file_of root id = Some d.1 /\ which_covers which id.1.1.2 = true) (ids_of root (bucket, None)) (ds ++ opt_list o)) as F.
  { eapply Forall2_impl; [exact F2|]. intros id d [E Ep]. by rewrite Ep. }
  destruct (read_parts_follow root dict which max _ _ (λ x : Row, from <= x.1.1 <= to) (read_step_time max from to) _ _ F 0 readers [] (sp_follow _ _ _ _ Sp) Fr) as (readers' & -> & Fr').
  exists readers'. split; [done|]. cbn [mbind outcome_bind app]. change (zlen (@nil Row)) with 0. rewrite Z.sub_0_r. by rewrite ordered.
Qed.

(** The end of a stream is the number of its records. *)
Lemma highest_end_follow root ids ps : Forall2 (λ id (d : Held), file_of root id = Some d.1) ids ps -> forall first e, follow first ps -> e <= first ->
  highest_end p root ids e = Ok (match ps with [] => e | _ => first + zlen (records_of ps) end).
Proof.
  induction 1 as [|id d ids ps Ef _ IH]; intros first e Fo L; [done|]. cbn [highest_end]. destruct Fo as [(_ & _ & Op) Fo]. destruct (Op None) as (r & Eo & _ & _ & Es & _).
  rewrite Ef. cbn [ok_or mbind outcome_bind]. rewrite Eo, Es. cbn [mbind outcome_bind]. pose proof (zlen_nonneg d.2). rewrite (IH (first + zlen d.2)) by (done || lia).
  unfold records_of. cbn [map concat]. rewrite zlen_app. destruct ps; [cbn [map concat]; change (zlen (@nil Rec)) with 0|]; f_equal; lia.
Qed.
End Read.
