(* ===== verification/SerLogSession.v ===== *)
(** * Sessions over a log (okm-series, [lib.rs])

    A log whose clock stays in one bucket: records appended, flushed and sealed into as
    many parts as their size asks for are read back as one stream.  The samples run it,
    and show what becomes of offsets when the clock leaves the bucket. *)
From S2P Require Import Prelude SerFormat SerDict SerDictFacts SerSamples SerBody SerBodyFacts SerPart SerPartFacts SerWriter SerRead SerRecover SerSession SerLog SerLogTime SerLogFacts SerLogRead.

Section Parts.
Context `{SLL : SeriesLibLaws}.
Variable p : profile.

(** ** Parts of a stream *)

Lemma files_first f h closed bs rest : part_files p f h closed bs rest -> first_offset_of (pf_data f) = Ok (h_first_offset h).
Proof. intros P. destruct (files_header _ _ _ _ _ _ P) as [E1 E2]. unfold first_offset_of. rewrite E1. cbn [mbind outcome_bind]. by rewrite E2. Qed.

Lemma open_reads_as w f h closed bs pend : part_inv p w f h closed bs pend -> reads_as p f (h_first_offset h) (recs_of bs) /\ pf_sealed f = false.
Proof.
  intros I. pose proof (part_inv_files _ _ _ _ _ _ _ I) as P. pose proof (pi_sealed _ _ _ _ _ _ _ I) as Es. split; [|done].
  split; [by eapply files_first|]. split; [by eapply blks_timed, (pf_blocks _ _ _ _ _ _ P)|]. intros dict. eexists. split; [exact (open_part_reads _ _ _ _ _ _ dict P Es)|].
  split; [done|]. split; [done|]. apply (files_answer p f h closed bs []); [done..| |done]. by apply (reader_resolves p f h closed bs []).
Qed.

Lemma seal_grows w f w' f' ft : seal p (w, f) = ((w', f'), Ok ft) -> settler_grows (settler w f) (settler w' f').
Proof.
  intros E. unfold seal in E. pw_step E s1 u1 E1. destruct s1 as [w1 f1], u1. pw_step E s2 u2 E2. destruct s2 as [w2 f2], u2.
  pw_step E s3 w3 E3. apply get_w_ok in E3 as [-> ->]. cbn [fst] in E. cbv zeta in E. pw_step E s4 u4 E4. apply write_data_ok in E4 as ->.
  pw_step E s5 u5 E5. apply (f_equal fst) in E5. cbn [mark_sealed fst snd] in E5. subst s5. apply (f_equal fst) in E. cbn [fst mret pw_ret] in E. apply pair_eq in E as [<- <-].
  eapply settler_grows_trans; [by eapply flush_block_grows|]. apply (finish_grows _ _ _ _ E2).
Qed.

Lemma none_grows s : settler_grows None s -> s = None.
Proof. by destruct s. Qed.

Lemma seal_reads_as w f h closed bs pend w' f' ft : part_inv p w f h closed bs pend -> settler w f = None -> seal p (w, f) = ((w', f'), Ok ft) ->
  reads_as p f' (h_first_offset h) (recs_of bs ++ pend) /\ pf_sealed f' = true.
Proof.
  intros I N E. pose proof (seal_grows _ _ _ _ _ E) as G. rewrite N in G. apply none_grows in G.
  destruct (seal_files p _ _ _ _ _ _ _ _ _ I E) as (Et & Hft & Es & closed' & bs' & P & Er); [by rewrite G|]. split; [|done]. rewrite <- Er in Et |- *.
  split; [by eapply files_first|]. split; [by eapply blks_timed, (pf_blocks _ _ _ _ _ _ P)|]. intros dict.
  destruct (sealed_opens p _ _ _ _ _ _ dict P Hft Es Et) as (r & Eo & Eh & _ & Esp & A). exists r. split; [done|]. split; [by rewrite Eh|]. done.
Qed.

(** ** A stream's files *)

Lemma put_last root place fs o f : stream_root root place (fs ++ opt_list o) -> stream_root (put_file root place (Z.of_nat (length fs)) f) place (fs ++ [f]).
Proof.
  intros [O D]. unfold put_file. split.
  - intros q N. rewrite lookup_insert_ne by done. by apply O.
  - unfold dir_of at 1. rewrite lookup_insert_eq. cbn [default]. unfold id. rewrite D. rewrite map_seqZ_snoc, Z.add_0_l. destruct o as [f0|]; cbn [opt_list]; [|by rewrite app_nil_r].
    by rewrite map_seqZ_snoc, Z.add_0_l, insert_insert_eq.
Qed.

Lemma last_file root place fs f : stream_root root place (fs ++ [f]) -> dir_of root place !! Z.of_nat (length fs) = Some f.
Proof. intros [_ D]. rewrite D. apply seq_file. by apply list_lookup_middle. Qed.

Lemma make_dir root place fs : stream_root root place fs -> stream_root (<[place := dir_of root place]> root) place fs.
Proof. intros [O D]. split; [intros q N; rewrite lookup_insert_ne by done; by apply O|]. unfold dir_of at 1. rewrite lookup_insert_eq. exact D. Qed.
End Parts.

(** ** The log *)

Lemma lw_bind_ok {A B} (m : lw A) (f : A -> lw B) s s' b : (m ≫= f) s = (s', Ok b) -> exists s1 a, m s = (s1, Ok a) /\ f a s1 = (s', Ok b).
Proof. unfold mbind, lw_bind. destruct (m s) as [s1 [a|e|]]; [|done..]. by exists s1, a. Qed.

Lemma get_log_ok s s' t : get_log s = (s', Ok t) -> s' = s /\ t = s.
Proof. by intros [= <- <-]. Qed.

Lemma change_ok g s s' u : change g s = (s', Ok u) -> s' = g s.
Proof. by intros [= <- _]. Qed.

Lemma lift_log_ok {A} (r : sresult A) s s' a : lift_log r s = (s', Ok a) -> s' = s /\ r = Ok a.
Proof. by intros [= <- ->]. Qed.

(** One step of a log's computation that ended well. *)
Ltac lw_step H s a E := apply lw_bind_ok in H as (s & a & E & H).

Section Session.
Context `{SLL : SeriesLibLaws}.
Variable p : profile.
Variable show_f64 : Z -> bytes.
Variable config : SeriesConfig.
Variable bucket : Z.

Abbreviation place := ((bucket, None) : Place).
Abbreviation Held := (PartFiles * list Rec)%type.

(** What a new log comes to by operations that succeed, its clock in one bucket. *)
Inductive wrote : Log -> list Entry -> Prop :=
| wrote_open now now_ms s : Log_open p ∅ None config now now_ms = (s, Ok tt) -> wrote s []
| wrote_append s l now now_ms body s' off : wrote s l -> 0 <= now < 2 ^ 64 -> 0 <= now_ms < 2 ^ 64 -> body_ok body ->
    bucket_of (l_meta s) now = Ok bucket -> log_append p show_f64 now now_ms body s = (s', Ok off) -> wrote s' (l ++ [(stamp s None now, body)])
| wrote_flush s l s' : wrote s l -> log_flush p s = (s', Ok tt) -> wrote s' l
| wrote_seal s l s' footers : wrote s l -> log_seal p s = (s', Ok footers) -> wrote s' l.

Lemma sorted_snoc (l : list Entry) x : StronglySorted (λ x y : Entry, x.1 <= y.1) l -> (forall e, last l = Some e -> e.1 <= x.1) ->
  StronglySorted (λ x y : Entry, x.1 <= y.1) (l ++ [x]).
Proof.
  induction 1 as [|y l Sl IH F]; intros La; cbn [app]; [repeat constructor|].
  assert (forall e, last l = Some e -> e.1 <= x.1) as Ll by (intros e E; apply La; destruct l; [done|exact E]). constructor; [by apply IH|].
  apply Forall_app. split; [done|]. apply Forall_singleton. destruct (last l) as [e|] eqn:E; [|apply last_None in E as ->; by apply La].
  specialize (Ll e eq_refl). rewrite Forall_forall in F. specialize (F e (last_Some_elem_of _ _ E)). lia.
Qed.

(** The part being written, and its records. *)
Definition opened (a : list Active) (n : nat) (first : Z) (o : option PartFiles) (recs : list Rec) : Prop :=
  match o with
  | None => a = [] /\ recs = []
  | Some f => exists w h closed bs pend, a = [mkActive place (Z.of_nat n) w] /\ part_inv p w f h closed bs pend /\ settler w f = None /\
      h_first_offset h = first /\ recs = recs_of bs ++ pend
  end.

Definition in_bucket (e : Entry) : Prop := 0 <= e.1 < 2 ^ 64 /\ e.1 / per_second (c_precision config) / c_bucket_seconds config = bucket.

Record log_inv (s : Log) (l : list Entry) (ds : list Held) (o : option PartFiles) (recs : list Rec) : Prop := {
  li_meta : m_precision (l_meta s) = c_precision config /\ m_bucket_seconds (l_meta s) = c_bucket_seconds config /\ m_partition_tag (l_meta s) = None;
  li_config : l_config s = config;
  li_readers : l_readers s = ∅;
  li_root : stream_root (l_root s) place (map fst ds ++ opt_list o);
  li_sealed : Forall (λ d : Held, pf_sealed d.1 = true /\ d.2 <> []) ds;
  li_follow : follow p 0 ds;
  li_open : opened (l_active s) (length ds) (zlen (records_of ds)) o recs;
  li_entries : map entry_of (records_of ds ++ recs) = l;
  li_sorted : StronglySorted (λ x y : Entry, x.1 <= y.1) l;
  li_bucket : Forall in_bucket l;
  li_last : l_last_ts s !! None = fst <$> last l
}.

Lemma parts_few ds : Forall (λ d : Held, pf_sealed d.1 = true /\ d.2 <> []) ds -> zlen ds <= zlen (records_of ds).
Proof.
  induction 1 as [|[f l] ds [_ N] _ IH]; [done|]. unfold records_of in *. cbn [map concat snd] in *. rewrite zlen_cons, zlen_app.
  destruct l; [done|]. rewrite zlen_cons. pose proof (zlen_nonneg l). lia.
Qed.

Lemma inv_length s l ds o recs : log_inv s l ds o recs -> zlen l = zlen (records_of ds) + zlen recs.
Proof. intros I. rewrite <- (li_entries _ _ _ _ _ I), <- zlen_app. unfold zlen. by rewrite length_map. Qed.

(** The part being written is sealed. *)
Lemma step_sealed s root a root' a' ft l ds f recs : log_inv s l ds (Some f) recs -> recs <> [] -> l_active s = [a] -> root = l_root s ->
  writer_step root a (seal p) = (root', a', Ok ft) ->
  exists f', stream_root root' place (map fst ds ++ [f']) /\ pf_sealed f' = true /\ reads_as p f' (zlen (records_of ds)) recs.
Proof.
  intros I N Ea -> E. pose proof (li_root _ _ _ _ _ I) as R. destruct (li_open _ _ _ _ _ I) as (w & h & closed & bs & pend & Eact & Ip & Ns & Eh & Er).
  rewrite Ea in Eact. injection Eact as ->. unfold writer_step in E. cbn [a_place a_number a_writer opt_list] in *. rewrite <- (length_map fst) in E. rewrite (last_file _ _ _ _ R) in E.
  destruct (seal p (w, f)) as [[w' f'] r] eqn:Es. injection E as <- _ ->. destruct (seal_reads_as p _ _ _ _ _ _ _ _ _ Ip Ns Es) as [Rd Sl].
  exists f'. rewrite Eh, <- Er in Rd. split; [|done]. by apply (put_last _ _ _ (Some f)).
Qed.

Lemma sealed_inv s s' l ds f recs f' : log_inv s l ds (Some f) recs -> recs <> [] -> stream_root (l_root s') place (map fst ds ++ [f']) -> pf_sealed f' = true ->
  reads_as p f' (zlen (records_of ds)) recs -> l_meta s' = l_meta s -> l_config s' = l_config s -> l_readers s' = ∅ -> l_last_ts s' = l_last_ts s -> l_active s' = [] ->
  log_inv s' l (ds ++ [(f', recs)]) None [].
Proof.
  intros I N R Sl Rd Em Ec Erd El Ea. split; try rewrite ?Em, ?Ec, ?El; try apply I; try done.
  - rewrite map_app. cbn [map fst opt_list]. by rewrite app_nil_r.
  - apply Forall_app. split; [apply I|]. by apply Forall_singleton.
  - apply follow_app. split; [apply I|]. by split.
  - rewrite app_nil_r. unfold records_of. rewrite map_app, concat_app. cbn [map concat snd]. rewrite app_nil_r. apply I.
Qed.

Lemma seal_active_inv s s' l ds f recs ft : log_inv s l ds (Some f) recs -> recs <> [] -> seal_active p 0 s = (s', Ok ft) ->
  exists f', log_inv s' l (ds ++ [(f', recs)]) None [].
Proof.
  intros I N E. destruct (li_open _ _ _ _ _ I) as (w & h & closed & bs & pend & Ea & _). unfold seal_active in E. rewrite Ea in E. cbn [lookup list_lookup] in E.
  destruct (writer_step (l_root s) _ (seal p)) as [[root a'] r] eqn:Es. injection E as <- ->.
  destruct (step_sealed _ _ _ _ _ _ _ _ _ _ I N Ea eq_refl Es) as (f' & R & Sl & Rd). exists f'. eapply sealed_inv; try done. apply I.
Qed.

Lemma log_seal_inv s s' l ds o recs fts : log_inv s l ds o recs -> (o <> None -> recs <> []) -> log_seal p s = (s', Ok fts) -> exists ds', log_inv s' l ds' None [].
Proof.
  intros I N E. unfold log_seal in E. lw_step E s1 t E1. apply get_log_ok in E1 as [-> ->]. lw_step E s2 u E2. apply change_ok in E2 as ->. pose proof (li_open _ _ _ _ _ I) as O.
  destruct o as [f|].
  - assert (recs <> []) as Nr by by apply N. pose proof O as (w & h & closed & bs & pend & Ea & _). rewrite Ea in E. cbn [seal_taken] in E. lw_step E s3 ft E3. injection E as <- _.
    unfold seal_writer in E3. cbn [set_active set_readers l_root] in E3. destruct (writer_step (l_root s) _ (seal p)) as [[root a'] r] eqn:Es. injection E3 as <- ->.
    destruct (step_sealed _ _ _ _ _ _ _ _ _ _ I Nr Ea eq_refl Es) as (f' & R & Sl & Rd). exists (ds ++ [(f', recs)]). by eapply sealed_inv.
  - destruct O as [Ea ->]. rewrite Ea in E. injection E as <- _. exists ds. by destruct I.
Qed.

Lemma flush_inv s s' l ds o recs : log_inv s l ds o recs -> log_flush p s = (s', Ok tt) -> exists o',
  log_inv s' l ds o' recs /\ (o' <> None -> o <> None) /\ match o' with Some f => reads_as p f (zlen (records_of ds)) recs /\ pf_sealed f = false | None => recs = [] end.
Proof.
  intros I E. unfold log_flush in E. lw_step E s1 t E1. apply get_log_ok in E1 as [-> ->]. pose proof (li_open _ _ _ _ _ I) as O. destruct o as [f|].
  - destruct O as (w & h & closed & bs & pend & Ea & Ip & Ns & Eh & Er). rewrite Ea in E. cbn [length seq flush_indices] in E. lw_step E s2 u E2. injection E as <-.
    unfold on_active in E2. rewrite Ea in E2. cbn [lookup list_lookup] in E2. unfold writer_step in E2. cbn [a_place a_number a_writer] in E2.
    pose proof (li_root _ _ _ _ _ I) as R. rewrite <- (length_map fst) in E2. cbn [opt_list] in R. rewrite (last_file _ _ _ _ R) in E2.
    destruct (flush_block p (w, f)) as [[w' f'] r] eqn:Ef. injection E2 as <- ->. destruct u. pose proof (flush_block_grows _ _ _ _ _ Ef) as G. rewrite Ns in G. apply none_grows in G.
    destruct (flush_block_inv _ _ _ _ _ _ _ _ _ Ip ltac:(by rewrite Ns) Ef) as (closed' & bs' & Ip' & Er' & _). exists (Some f'). rewrite <- Er in Er'.
    split; [|split; [done|]].
    + split; cbn [set_active set_root l_meta l_config l_readers l_root l_active l_last_ts]; try apply I; [by apply (put_last _ _ _ (Some f))|].
      exists w', h, closed', bs', []. rewrite app_nil_r. rewrite length_map. done.
    + destruct (open_reads_as p _ _ _ _ _ _ Ip') as [Rd Sl]. rewrite Eh, Er' in Rd. done.
  - destruct O as [Ea ->]. rewrite Ea in E. injection E as <-. by exists None.
Qed.

(** ** A record appended *)

Lemma add_u32 n m : 0 <= n -> n + 1 < 2 ^ 32 -> add_w (E := SeriesError) p 32 n 1 = Ok m -> m = n + 1.
Proof. intros H0 L. rewrite add_w_small by done. by intros [= ->]. Qed.

Lemma next_number (ds : list Held) root m : stream_root root place (map fst ds) -> zlen ds < 2 ^ 32 ->
  match last (part_numbers (dir_of root place)) with Some n => add_w (E := SeriesError) p 32 n 1 | None => Ok 0 end = Ok m -> m = zlen ds.
Proof.
  intros [_ D] L. rewrite D, part_numbers_seq. unfold indices. assert (zlen (map fst ds) = zlen ds) as -> by (unfold zlen; by rewrite length_map).
  destruct ds as [|d ds] using rev_ind; [by intros [= <-]|]. clear IHds. rewrite zlen_app in *. change (zlen [d]) with 1 in *. pose proof (zlen_nonneg ds).
  rewrite seqZ_app by lia. change (seqZ (0 + zlen ds) 1) with [0 + zlen ds]. rewrite last_snoc, Z.add_0_l. intros E. apply add_u32 in E; lia.
Qed.

Lemma free_here (ds : list Held) root fuel m : stream_root root place (map fst ds) -> free_number fuel (dir_of root place) (zlen ds) = Some m -> m = zlen ds.
Proof.
  intros [_ D]. destruct fuel as [|fuel]; [done|]. cbn [free_number]. rewrite D. rewrite (proj2 (lookup_map_seqZ_None _ _ _)); [by intros [= <-]|]. right. rewrite length_map. unfold zlen. lia.
Qed.

Lemma sealed_stream root ds : stream_root root place (map fst ds) -> Forall (λ d : Held, pf_sealed d.1 = true /\ d.2 <> []) ds -> follow p 0 ds ->
  stream_of_parts p root bucket ds None.
Proof.
  intros R F Fo. split; cbn [opt_list]; rewrite ?app_nil_r; try done. eapply Forall_impl; [exact F|]. by intros d [? _].
Qed.

Lemma next_offset root ds : stream_of_parts p root bucket ds None -> stream_next_offset p root place = Ok (zlen (records_of ds)).
Proof.
  intros Sp. unfold stream_next_offset. destruct (stream_ids p _ _ _ _ Sp) as [_ F]. pose proof (sp_follow _ _ _ _ _ Sp) as Fo. cbn [opt_list] in *. rewrite app_nil_r in *.
  rewrite (highest_end_follow p root _ _ (Forall2_impl _ _ _ _ F (λ _ _, @proj1 _ _)) 0 0 Fo) by lia. by destruct ds.
Qed.

Hypothesis Hdict : c_dict config = None.

Lemma create_inv_part s s' l ds ts now_ms u : log_inv s l ds None [] -> zlen l < 2 ^ 32 -> 0 <= ts < 2 ^ 64 -> 0 <= now_ms < 2 ^ 64 -> 0 <= bucket < 2 ^ 64 ->
  create_part p place ts now_ms s = (s', Ok u) -> exists f, log_inv s' l ds (Some f) [].
Proof.
  intros I L Ht Hn Hb E. unfold create_part in E. lw_step E s1 u1 E1. apply change_ok in E1 as ->. lw_step E s2 t E2. apply get_log_ok in E2 as [-> ->]. cbv zeta in E.
  cbn [set_root l_root] in E. pose proof (li_root _ _ _ _ _ I) as R0. cbn [opt_list] in R0. rewrite app_nil_r in R0. pose proof (make_dir _ _ _ R0) as R. set (root := <[place := _]> _) in *.
  pose proof (parts_few _ (li_sealed _ _ _ _ _ I)) as Few. pose proof (inv_length _ _ _ _ _ I) as Len. change (zlen (@nil Rec)) with 0 in Len.
  lw_step E s3 number E3. apply lift_log_ok in E3 as [-> E3]. apply (next_number ds) in E3 as ->; [|done|lia].
  lw_step E s4 n E4. apply lift_log_ok in E4 as [-> E4%ok_or_ok]. apply (free_here ds) in E4 as ->; [|done].
  lw_step E s5 off0 E5. apply lift_log_ok in E5 as [-> E5]. rewrite (next_offset root ds) in E5 by (apply sealed_stream; [done|apply I..]). injection E5 as <-.
  cbn [set_root l_meta l_config fst] in E. rewrite (li_config _ _ _ _ _ I), Hdict in E. set (h := mkPartHeader _ _ _ _ _) in E.
  assert (PartHeader_ok h) as Hh by (unfold h, PartHeader_ok; cbn; unfold u64; change (256 ^ Z.of_nat 8) with (2 ^ 64); pose proof (zlen_nonneg (records_of ds)); lia).
  pose proof (PartWriter_create_inv p h (c_block_bytes config) (c_block_codec config) None Hh) as Ip. destruct (PartWriter_create h (c_block_bytes config) (c_block_codec config) None) as [w f] eqn:Ew.
  apply change_ok in E as ->. exists f. split; cbn [set_active set_root l_meta l_config l_readers l_root l_active l_last_ts]; try apply I.
  - cbn [opt_list]. unfold zlen. rewrite <- (length_map (fst (B := list Rec)) ds). apply (put_last _ _ _ None). cbn [opt_list]. by rewrite app_nil_r.
  - destruct (li_open _ _ _ _ _ I) as [-> _]. exists w, h, [], [], []. split; [done|]. split; [exact Ip|]. injection Ew as <- <-. done.
Qed.

Lemma seal_older_inv s s' l ds o recs only u : log_inv s l ds o recs -> seal_parts_older_than p bucket only s = (s', Ok u) -> s' = s.
Proof.
  intros I E. unfold seal_parts_older_than in E. lw_step E s1 t E1. apply get_log_ok in E1 as [-> ->]. rewrite filter_none in E; [by injection E as <-|].
  pose proof (li_open _ _ _ _ _ I) as O. destruct o as [f|]; [destruct O as (w & h & closed & bs & pend & -> & _)|destruct O as [-> _]; constructor].
  apply Forall_singleton. cbn [imap snd a_place fst]. by rewrite Z.ltb_irrefl.
Qed.

Lemma opened_index a n first o recs : opened a n first o recs -> active_index a place = match o with Some _ => Some O | None => None end.
Proof.
  destruct o as [f|]; [intros (w & h & closed & bs & pend & -> & _)|by intros [-> _]]. unfold active_index. cbn [list_find a_place]. by rewrite decide_True.
Qed.

Lemma ensure_inv s s' l ds o recs ts now_ms u : log_inv s l ds o recs -> (o <> None -> recs <> []) -> zlen l < 2 ^ 32 -> 0 <= ts < 2 ^ 64 -> 0 <= now_ms < 2 ^ 64 -> 0 <= bucket < 2 ^ 64 ->
  ensure_part p place ts now_ms s = (s', Ok u) -> exists ds' f' recs', log_inv s' l ds' (Some f') recs'.
Proof.
  intros I N L Ht Hn Hb E. unfold ensure_part in E. lw_step E s1 u1 E1. apply (seal_older_inv _ _ _ _ _ _ _ _ I) in E1 as ->. lw_step E s2 t E2. apply get_log_ok in E2 as [-> ->].
  lw_step E s3 full E3. apply lift_log_ok in E3 as [-> E3]. pose proof (opened_index _ _ _ _ _ (li_open _ _ _ _ _ I)) as Ei.
  assert (full = false -> exists f, o = Some f) as Fo by (intros ->; destruct o as [f|]; [by exists f|]; unfold is_full in E3; by rewrite Ei in E3).
  destruct full; cbn [negb] in E; [|injection E as <- _; destruct (Fo eq_refl) as (f & ->); by exists ds, f, recs].
  lw_step E s4 u4 E4. assert (exists ds', log_inv s4 l ds' None []) as (ds' & I4).
  { rewrite Ei in E4. destruct o as [f|]; [|destruct (li_open _ _ _ _ _ I) as [_ ->]; injection E4 as <- _; by exists ds]. lw_step E4 s5 ft E5. injection E4 as <- _.
    destruct (seal_active_inv _ _ _ _ _ _ _ I (N ltac:(done)) E5) as (f' & I5). by eexists. }
  destruct (create_inv_part _ _ _ _ _ _ _ I4 L Ht Hn Hb E) as (f & I5). by exists ds', f, [].
Qed.

Lemma on_active_inv s s' l ds f recs ts body off : log_inv s l ds (Some f) recs -> in_bucket (ts, body) -> (forall t, l_last_ts s !! None = Some t -> t <= ts) -> body_ok body ->
  zlen l + 1 < 2 ^ 32 -> on_active 0 (append p ts body) s = (s', Ok off) ->
  off = zlen l /\ exists f' recs', log_inv (set_log_ts s' (<[None := ts]> (l_last_ts s'))) (l ++ [(ts, body)]) ds (Some f') recs' /\ recs' <> [].
Proof.
  intros I Hb Lt Hbody L E. destruct (li_open _ _ _ _ _ I) as (w & h & closed & bs & pend & Ea & Ip & Ns & Eh & Er). pose proof (inv_length _ _ _ _ _ I) as Len.
  unfold on_active in E. rewrite Ea in E. cbn [lookup list_lookup] in E. unfold writer_step in E. cbn [a_place a_number a_writer] in E.
  pose proof (li_root _ _ _ _ _ I) as R. rewrite <- (length_map fst) in E. cbn [opt_list] in R. rewrite (last_file _ _ _ _ R) in E.
  destruct (append p ts body (w, f)) as [[w' f'] r] eqn:Eap. injection E as <- ->. pose proof (append_grows _ _ _ _ _ _ _ _ Eap) as G. rewrite Ns in G. apply none_grows in G.
  pose proof (zlen_nonneg (records_of ds)). rewrite Er in Len. pose proof (zlen_app bs). assert (zlen (recs_of bs ++ pend) = zlen (recs_of bs) + zlen pend) as Ez by apply zlen_app. pose proof (zlen_nonneg (recs_of bs)). pose proof (zlen_nonneg pend).
  destruct (append_inv _ _ _ _ _ _ _ _ _ _ _ _ Ip (proj1 Hb) Hbody ltac:(rewrite Eh; lia) ltac:(lia) Eap ltac:(by rewrite G)) as (Eo & closed' & bs' & pend' & enc & Ip' & Er' & _).
  split; [rewrite Eo, Eh; lia|]. exists f', (recs ++ [(ts, enc, body)]). split; [|by destruct recs]. rewrite <- Er in Er'.
  split; cbn [set_log_ts set_active set_root l_meta l_config l_readers l_root l_active l_last_ts]; try apply I.
  - by apply (put_last _ _ _ (Some f)).
  - exists w', h, closed', bs', pend'. rewrite length_map. done.
  - rewrite app_assoc, map_app, (li_entries _ _ _ _ _ I). done.
  - pose proof (li_last _ _ _ _ _ I) as El. apply sorted_snoc; [apply I|]. intros e Ee. apply Lt. by rewrite El, Ee.
  - apply Forall_app. split; [apply I|]. by apply Forall_singleton.
  - by rewrite lookup_insert_eq, last_snoc.
Qed.

Lemma bucket_range s l ds o recs : log_inv s l ds o recs -> forall ts, 0 <= ts < 2 ^ 64 -> bucket_of (l_meta s) ts = Ok bucket -> 0 < c_bucket_seconds config ->
  0 <= bucket < 2 ^ 64 /\ ts / per_second (c_precision config) / c_bucket_seconds config = bucket.
Proof.
  intros I ts Ht E Hs. destruct (li_meta _ _ _ _ _ I) as (Ep & Eb & _). unfold bucket_of in E. rewrite Eb, Ep in E. destruct (_ =? 0) eqn:Z0; [done|]. injection E as E. split; [|done].
  rewrite <- E. assert (0 < per_second (c_precision config)) as Hp by by destruct (c_precision config).
  assert (0 <= ts / per_second (c_precision config) <= ts) as H1 by (split; [apply Z.div_pos; lia|apply Z.div_le_upper_bound; nia]).
  split; [apply Z.div_pos; lia|]. apply Z.div_lt_upper_bound; [done|]. nia.
Qed.

Lemma log_append_inv s s' l ds o recs now now_ms body off : log_inv s l ds o recs -> (o <> None -> recs <> []) -> zlen l + 1 < 2 ^ 32 -> 0 < c_bucket_seconds config ->
  0 <= now < 2 ^ 64 -> 0 <= now_ms < 2 ^ 64 -> body_ok body -> bucket_of (l_meta s) now = Ok bucket -> log_append p show_f64 now now_ms body s = (s', Ok off) ->
  off = zlen l /\ exists ds' f' recs', log_inv s' (l ++ [(stamp s None now, body)]) ds' (Some f') recs' /\ recs' <> [].
Proof.
  intros I N L Hs Hn Hm Hb Eb E. destruct (li_meta _ _ _ _ _ I) as (Ep & Ew & Et). destruct (bucket_range _ _ _ _ _ I now Hn Eb Hs) as [Hbk Enow].
  assert (in_bucket (stamp s None now, body) /\ bucket_of (l_meta s) (stamp s None now) = Ok bucket) as [Hts Ets].
  { unfold stamp. rewrite (li_last _ _ _ _ _ I). destruct (last l) as [e|] eqn:El; cbn [fmap option_fmap option_map]; [|exact (conj (conj Hn Enow) Eb)].
    pose proof (li_bucket _ _ _ _ _ I) as F. rewrite Forall_forall in F. specialize (F e (last_Some_elem_of _ _ El)) as [R Be].
    destruct (Z.max_spec now e.1) as [[_ ->]|[_ ->]]; [|exact (conj (conj Hn Enow) Eb)]. split; [exact (conj R Be)|]. cbn [fst] in Be. unfold bucket_of in *. rewrite Ep, Ew in *. destruct (_ =? 0); [done|]. by rewrite Be. }
  unfold log_append in E. lw_step E s1 t E1. apply get_log_ok in E1 as [-> ->]. lw_step E s2 stream E2. apply lift_log_ok in E2 as [-> E2]. rewrite Et in E2. injection E2 as <-. cbv zeta in E.
  lw_step E s3 b E3. apply lift_log_ok in E3 as [-> E3]. rewrite Ets in E3. injection E3 as <-. lw_step E s4 u E4. destruct (proj1 Hts) as [T0 T1]. cbn [fst] in T0, T1.
  destruct (ensure_inv _ _ _ _ _ _ _ _ _ I N ltac:(lia) (conj T0 T1) Hm Hbk E4) as (ds1 & f1 & recs1 & I1).
  lw_step E s5 t E5. apply get_log_ok in E5 as [-> ->]. lw_step E s6 i E6. apply lift_log_ok in E6 as [-> E6]. rewrite (opened_index _ _ _ _ _ (li_open _ _ _ _ _ I1)) in E6. injection E6 as <-.
  lw_step E s7 off7 E7. lw_step E s8 u8 E8. apply change_ok in E8 as ->. injection E as <- <-.
  assert (forall t, l_last_ts s4 !! None = Some t -> t <= stamp s None now) as Lt.
  { intros t Elt. rewrite (li_last _ _ _ _ _ I1), <- (li_last _ _ _ _ _ I) in Elt. by apply stamp_ge. }
  destruct (on_active_inv _ _ _ _ _ _ _ _ _ I1 Hts Lt Hb L E7) as (-> & f' & recs' & I' & N'). split; [done|]. by exists ds1, f', recs'.
Qed.

(** What is written so far, and how it lies in the parts. *)
Definition holds (s : Log) (l : list Entry) : Prop := exists ds o recs, log_inv s l ds o recs /\ (o <> None -> recs <> []).

Hypothesis Htag : c_partition_tag config = None.
Hypothesis Hwidth : 0 < c_bucket_seconds config.

Lemma open_holds now now_ms s : Log_open p ∅ None config now now_ms = (s, Ok tt) -> holds s [].
Proof.
  intros E. injection E as <-. exists [], None, []. split; [|done]. split; cbn; try done; try constructor.
Qed.

Lemma wrote_holds s l : wrote s l -> zlen l < 2 ^ 32 -> holds s l.
Proof.
  induction 1 as [now now_ms s E|s l now now_ms body s' off _ IH Hn Hm Hb Eb E|s l s' _ IH E|s l s' fts _ IH E]; intros L.
  - by eapply open_holds.
  - rewrite zlen_app in L. change (zlen [(stamp s None now, body)]) with 1 in L. destruct IH as (ds & o & recs & I & N); [lia|].
    destruct (log_append_inv _ _ _ _ _ _ _ _ _ _ I N L Hwidth Hn Hm Hb Eb E) as (_ & ds' & f' & recs' & I' & N'). by exists ds', (Some f'), recs'.
  - destruct (IH L) as (ds & o & recs & I & N). destruct (flush_inv _ _ _ _ _ _ I E) as (o' & I' & No & _). exists ds, o', recs. split; [done|]. auto.
  - destruct (IH L) as (ds & o & recs & I & N). destruct (log_seal_inv _ _ _ _ _ _ _ I N E) as (ds' & I'). by exists ds', None, [].
Qed.

Lemma sorted_map {A B} (f : A -> B) (R : relation B) l : StronglySorted R (map f l) -> StronglySorted (λ x y, R (f x) (f y)) l.
Proof.
  induction l as [|x l IH]; intros Sl; [constructor|]. inversion Sl as [|y k Sk F]; subst. constructor; [by apply IH|]. by rewrite Forall_map in F.
Qed.

Lemma held_recs (ds : list Held) (o : option PartFiles) recs : (o = None -> recs = []) -> records_of (ds ++ opt_list ((λ f, (f, recs)) <$> o)) = records_of ds ++ recs.
Proof.
  intros N. unfold records_of. rewrite map_app, concat_app. f_equal. destruct o as [f|]; [|by rewrite N]. cbn. by rewrite app_nil_r.
Qed.

(** C8: a log of one stream is one list of records.  Whatever appends, flushes and seals a new
    log has seen, its clock in one bucket, and into however many parts it has split them: once
    they are flushed, a read from any offset or between any two times, of the stream or of
    the whole log, answers exactly the records appended that are asked for, in order, each
    with the time it was stamped with, the number its append answered and its body; and the
    next append answers the number of records so far.  The log is configured without
    partitions and without a dictionary, and holds fewer than 2^32 records. *)
Theorem log_session_reads s l s1 : wrote s l -> zlen l + 1 < 2 ^ 32 -> log_flush p s = (s1, Ok tt) ->
  (forall which from max, which_covers which None = true ->
    (log_read p which from max s1).2 = Ok (take (Z.to_nat max) (filter (λ x : Row, from <= x.1.2) (rows_from 0 l)))) /\
  (forall which from to max, which_covers which None = true ->
    (log_read_by_time p which from to max s1).2 = Ok (take (Z.to_nat max) (filter (λ x : Row, from <= x.1.1 <= to) (rows_from 0 l)))) /\
  (forall now now_ms body s' off, 0 <= now < 2 ^ 64 -> 0 <= now_ms < 2 ^ 64 -> body_ok body -> bucket_of (l_meta s) now = Ok bucket ->
    log_append p show_f64 now now_ms body s = (s', Ok off) -> off = zlen l).
Proof.
  intros W L E. destruct (wrote_holds _ _ W ltac:(lia)) as (ds & o & recs & I & N). destruct (flush_inv _ _ _ _ _ _ I E) as (o' & I' & _ & R).
  assert (o' = None -> recs = []) as No by by intros ->. set (op := (λ f, (f, recs)) <$> o'). pose proof (held_recs ds o' recs No) as Er.
  assert (stream_of_parts p (l_root s1) bucket ds op) as Sp.
  { split.
    - rewrite map_app, opt_map. pose proof (li_root _ _ _ _ _ I') as Rt. unfold op. by destruct o'.
    - eapply Forall_impl; [apply (li_sealed _ _ _ _ _ I')|]. by intros d [? _].
    - intros d Ed. unfold op in Ed. destruct o' as [f|]; [|done]. injection Ed as <-. apply R.
    - apply follow_app. split; [apply (li_follow _ _ _ _ _ I')|]. unfold op. destruct o' as [f|]; [|done]. rewrite Z.add_0_l. split; [apply R|done]. }
  assert (risen (records_of (ds ++ opt_list op))) as Rs.
  { unfold op. rewrite Er. apply (sorted_map entry_of (λ x y : Entry, x.1 <= y.1)). rewrite (li_entries _ _ _ _ _ I'). apply (li_sorted _ _ _ _ _ I'). }
  assert (numbered 0 (records_of (ds ++ opt_list op)) = rows_from 0 l) as En by (unfold op; rewrite Er, numbered_rows, (li_entries _ _ _ _ _ I'); done).
  assert (readers_fresh p (l_root s1) (c_dict (l_config s1)) (l_readers s1)) as Fr by (rewrite (li_readers _ _ _ _ _ I'); intros id n r; by rewrite lookup_empty).
  split; [|split].
  - intros which from max Wh. unfold log_read. destruct (stream_reads p _ _ _ _ _ _ which from max Sp Rs Wh Fr) as (rs & _ & ->). cbn [snd]. by rewrite En.
  - intros which from to max Wh. unfold log_read_by_time. destruct (stream_reads_time p _ _ _ _ _ _ which from to max Sp Rs Wh Fr) as (rs & _ & ->). cbn [snd]. by rewrite En.
  - intros now now_ms body s' off Hn Hm Hb Eb Ea. by destruct (log_append_inv _ _ _ _ _ _ _ _ _ _ I N L Hwidth Hn Hm Hb Eb Ea) as [-> _].
Qed.
End Session.
