(* ===== verification/SerLogSamples.v ===== *)
(** * Logs run (okm-series)

    The theorems on logs applied to logs that run, and the edges of the code: a bucket
    left behind, an index cut short, buckets without a width. *)
From S2P Require Import Prelude SerFormat SerDict SerDictFacts SerSamples SerBody SerBodyFacts SerPart SerPartFacts SerWriter SerRead SerRecover SerSession SerLog SerLogTime SerLogFacts SerLogRead SerLogSession.

(** ** Runners *)

(** No float names a partition here. *)
Definition sample_show (n : Z) : bytes := [].

(** Operations one behind the other, while they succeed. *)
Fixpoint run_ops (l : list LogOp) (s : Log) : option Log :=
  match l with
  | [] => Some s
  | o :: l => match run_op Debug sample_show o s with (s, Ok _) => run_ops l s | _ => None end
  end.


Inductive Step : Type := SAppend (now : Z) (body : Body) | SFlush | SSeal.

Definition run_step (bucket : Z) (o : Step) (x : Log * list Entry) : option (Log * list Entry) :=
  let '(s, l) := x in
  match o with
  | SAppend now body =>
      match bucket_of (l_meta s) now with
      | Ok b =>
          if (b =? bucket) && (0 <=? now) && (now <? 2 ^ 64) then
            match log_append Debug sample_show now 0 body s with (s', Ok _) => Some (s', l ++ [(stamp s None now, body)]) | _ => None end
          else None
      | _ => None
      end
  | SFlush => match log_flush Debug s with (s', Ok _) => Some (s', l) | _ => None end
  | SSeal => match log_seal Debug s with (s', Ok _) => Some (s', l) | _ => None end
  end.

Fixpoint run_steps (bucket : Z) (l : list Step) (x : Log * list Entry) : option (Log * list Entry) :=
  match l with [] => Some x | o :: l => match run_step bucket o x with Some x => run_steps bucket l x | None => None end end.

Definition step_ok (o : Step) : Prop := match o with SAppend _ body => body_ok body | _ => True end.

Lemma run_steps_wrote config bucket l : Forall step_ok l -> forall s k s' k', wrote Debug sample_show config bucket s k ->
  run_steps bucket l (s, k) = Some (s', k') -> wrote Debug sample_show config bucket s' k'.
Proof.
  induction 1 as [|o l Ho _ IH]; intros s k s' k' W E; cbn [run_steps] in E; [by injection E as <- <-|].
  destruct (run_step bucket o (s, k)) as [[s1 k1]|] eqn:Eo; [|done]. apply (IH s1 k1); [|done]. clear E IH. unfold run_step in Eo. destruct o as [now body| |].
  - destruct (bucket_of (l_meta s) now) as [b|e|] eqn:Eb; [|done..]. destruct (_ && _) eqn:T; [|done]. rewrite !andb_true_iff, Z.eqb_eq, Z.leb_le, Z.ltb_lt in T.
    destruct (log_append Debug sample_show now 0 body s) as [s2 [off|e|]] eqn:Ea; [|done..]. injection Eo as <- <-. destruct T as [[-> T0] T1].
    by apply (wrote_append _ _ _ _ s k now 0 body s2 off W (conj T0 T1) ltac:(lia) Ho Eb Ea).
  - destruct (log_flush Debug s) as [s2 [[]|e|]] eqn:Ef; [|done..]. injection Eo as <- <-. by eapply wrote_flush.
  - destruct (log_seal Debug s) as [s2 [fts|e|]] eqn:Ef; [|done..]. injection Eo as <- <-. by eapply wrote_seal.
Qed.

(** ** One bucket, four parts *)

Definition plain_config : SeriesConfig := mkSeriesConfig P_S 10 26 100 Zstd None None.

Definition numbers (n : Z) : Body := [(1, SU64 n); (2, SBytes [0; 0; 0; 0; 0; 0; 0; 0])].

(** The clock steps back behind the second record. *)
Definition plain_steps : list Step :=
  [SAppend 11 (numbers 1); SAppend 14 (numbers 2); SAppend 12 (numbers 3); SFlush; SAppend 15 (numbers 4); SSeal; SAppend 16 (numbers 5); SAppend 19 (numbers 6)].

Definition plain_start : Log := (Log_open Debug ∅ None plain_config 11 0).1.

Definition plain_run : Log * list Entry := default (plain_start, []) (run_steps 1 plain_steps (plain_start, [])).

Definition plain_end : Log := (log_flush Debug plain_run.1).1.

Definition plain_entries : list Entry :=
  [(11, numbers 1); (14, numbers 2); (14, numbers 3); (15, numbers 4); (16, numbers 5); (19, numbers 6)].

Lemma plain_wrote : wrote Debug sample_show plain_config 1 plain_run.1 plain_entries.
Proof.
  apply (run_steps_wrote plain_config 1 plain_steps ltac:(repeat (constructor || split); try done; vm_compute; done) plain_start [] plain_run.1 plain_entries).
  - by apply (wrote_open Debug sample_show plain_config 1 11 0).
  - vm_compute. reflexivity.
Qed.

Lemma log_session_reads_witness :
  length (parts_by_offset (l_root plain_end)) = 4%nat /\
  (forall which from max, which_covers which None = true ->
    (log_read Debug which from max plain_end).2 = Ok (take (Z.to_nat max) (filter (λ x : Row, from <= x.1.2) (rows_from 0 plain_entries)))) /\
  (forall which from to max, which_covers which None = true ->
    (log_read_by_time Debug which from to max plain_end).2 = Ok (take (Z.to_nat max) (filter (λ x : Row, from <= x.1.1 <= to) (rows_from 0 plain_entries)))) /\
  (forall now now_ms body s' off, 0 <= now < 2 ^ 64 -> 0 <= now_ms < 2 ^ 64 -> body_ok body -> bucket_of (l_meta plain_run.1) now = Ok 1 ->
    log_append Debug sample_show now now_ms body plain_run.1 = (s', Ok off) -> off = 6).
Proof.
  split; [vm_compute; reflexivity|].
  apply (log_session_reads Debug sample_show plain_config 1 eq_refl eq_refl ltac:(done) plain_run.1 plain_entries plain_end plain_wrote); [vm_compute; reflexivity|].
  vm_compute. reflexivity.
Defined.

(** ** Two streams, two buckets *)

Definition told_config : SeriesConfig := mkSeriesConfig P_S 10 26 100 Zstd (Some (mkDictConfig [(0, 2)] 4)) (Some 1).

Definition told (who n : Z) : Body := [(1, SStr [who]); (2, SStr [97; 98; 97]); (3, SU64 n)].

Definition told_start : Log := (Log_open Debug ∅ None told_config 11 0).1.

Definition told_ops : list LogOp :=
  [OpAppend 11 0 (told 97 1); OpAppend 12 0 (told 98 2); OpAppend 17 0 (told 97 3); OpFlush; OpRead EveryStream 0 10; OpAppend 23 0 (told 98 4); OpDurable 25 0 (told 97 5)].

Definition told_end : Log := default told_start (run_ops told_ops told_start).



(** The first bucket goes with its two streams, and the writers of the second stay. *)
Lemma retain_exact_witness : (retain_before Debug 25 told_end).2 = Ok [1] /\
  exists cutoff, bucket_of (l_meta told_end) 25 = Ok cutoff /\ retained cutoff told_end (retain_before Debug 25 told_end).1 [1].
Proof.
  assert ((retain_before Debug 25 told_end).2 = Ok [1]) as E by (vm_compute; reflexivity). split; [exact E|].
  apply (retain_exact Debug 25 told_end). rewrite <- E. by destruct (retain_before Debug 25 told_end).
Defined.

(** ** Edges *)

(** A log without partitions is one stream, and its offsets begin again in every bucket: a
    reader that goes on from the offset it has reached never sees the new bucket's records. *)
Definition crossing : option Log := run_ops [OpAppend 11 0 (numbers 1); OpAppend 14 0 (numbers 2); OpAppend 23 0 (numbers 3); OpFlush] plain_start.

Example offsets_begin_again :
  match crossing with
  | Some s =>
      match (log_read Debug (Stream None) 0 10 s).2, (log_read Debug (Stream None) 2 10 s).2 with
      | Ok all, Ok later => map (λ x : Row, x.1.2) all = [0; 1; 0] /\ later = []
      | _, _ => False
      end
  | None => False
  end.
Proof. vm_compute. by split. Qed.

(** A crash between a block and its row: the log opened again knows the older time, its
    writer the newer one, and a clock behind it is refused. *)
Definition wide_config : SeriesConfig := mkSeriesConfig P_S 10 26 1000 Zstd None None.

Definition written : option Log := run_ops [OpDurable 11 0 (numbers 1); OpDurable 18 0 (numbers 2)] (Log_open Debug ∅ None wide_config 11 0).1.

Definition row_lost (root : Root) : Root :=
  match file_of root ((1, None), 0, false) with
  | Some f => put_file root (1, None) 0 (set_index f (take (length (pf_index f) - 32)%nat (pf_index f)))
  | None => root
  end.

Example stale_index_refuses :
  match written with
  | Some s =>
      match Log_open Debug (row_lost (l_root s)) (Some (l_meta s)) wide_config 14 0 with
      | (s, Ok tt) => (log_append Debug sample_show 14 0 (numbers 3) s).2 = Err (TimeBackwards 18 14)
      | _ => False
      end
  | None => False
  end.
Proof. vm_compute. reflexivity. Qed.

(** Buckets without a width: the log is created, its first append panics, and it cannot be
    used with any width. *)
Example no_width_panics :
  let config := mkSeriesConfig P_S 0 26 100 Zstd None None in
  match Log_open Debug ∅ None config 11 0 with
  | (s, Ok tt) => (log_append Debug sample_show 11 0 (numbers 1) s).2 = Panic
  | _ => False
  end.
Proof. vm_compute. reflexivity. Qed.
